(* ===== verification/_CoqProject ===== *)
-Q . S2P
Prelude.v
GoLib.v
GwApi.v
Reports.v
Status.v
Heap.v
Query.v
QueryFacts.v
RouteOrder.v
PluginApi.v
Plugins.v
Policies.v
PolicyFacts.v
ListenerValidation.v
ListenerValidationFacts.v
Delegation.v
DelegationFacts.v
HttpRoute.v
HttpRouteFacts.v
ListenerTranslator.v
ListenerTranslatorFacts.v
GatewayTranslator.v
GatewayTranslatorFacts.v
StatusSyncer.v
StatusSyncerFacts.v
ProxySyncer.v
ProxySyncerFacts.v
DeployerMerge.v
Deployer.v
DeployerFacts.v
GatewayController.v
EdgeApi.v
RouteConverter.v
RouteConverterFacts.v
ShortCircuit.v
ShortCircuitFacts.v
VirtualServices.v
VirtualServicesFacts.v
EdgeListeners.v
EdgeListenersFacts.v
EdgeTranslator.v
EdgeTranslatorFacts.v
ProxyReports.v
ResourceReports.v
ProxyReconciler.v
ProxyReconcilerFacts.v
Xds.v
Sanitizers.v
SanitizersFacts.v
StatusPlugins.v
StatusPluginsFacts.v
GlooProxy.v
EnvoyRoutes.v
EnvoyMatchFacts.v
EnvoyDomainsFacts.v
EnvoyRoutesFacts.v
Ssl.v
SslFacts.v
EnvoyFilters.v
EnvoySsl.v
EnvoyListeners.v
EnvoyTcp.v
EnvoySslFacts.v
EnvoyListenersFacts.v
EnvoyRdsFacts.v
EnvoyTcpFacts.v
EnvoyClusters.v
EnvoyTranslator.v
EnvoyClustersFacts.v
EnvoyEdsFacts.v
EnvoyTranslatorFacts.v
EnvoyExamples.v
ApiSnapshot.v
GatewayValidation.v
GlooValidation.v
GatewayValidationFacts.v
ValidatorRunsFacts.v
AdmissionWebhook.v
GlooValidationFacts.v
ValidationExamples.v
