(* ===== verification/Prelude.v ===== *)
(** * Gloo Gateway: a verification development

    Gloo Gateway turns Kubernetes resources into configuration of Envoy. This library
    models the control plane's translation code (paths below are under src/projects/) and
    proves what makes it correct: the Kubernetes Gateway API implementation, gateway2/, the
    translation of Gloo's own resources, gateway/pkg/translator/, and the translation of
    the Proxies both produce to what Envoy is served, gloo/pkg/translator/. It also models
    what keeps resources that do not translate out of storage: the admission webhook and
    the validators it calls, gateway/pkg/validation/ and gloo/pkg/validation/.

    ** How the program works, and where each part is modelled

    A Gateway with its HTTPRoutes is translated into a Proxy by one call, in this order.

    - query/ (files Query, QueryFacts) loads the HTTPRoutes attached to each listener:
      [GetRoutesForGateway] checks section name, port, kind, namespace and hostname, builds
      the tree of routes each one delegates to ([getDelegatedChildren]) and resolves
      backends through [getRef], which enforces ReferenceGrants ([ReferenceAllowed]).
    - translator/listener/validation.go (ListenerValidation) rejects listeners with an
      unsupported protocol or route kind, or in conflict with another on their port.
    - translator/listener/gateway_listener_translator.go (ListenerTranslator)
      merges the admitted listeners by Envoy port ([mergeGWListeners], ports/ports.go),
      groups the routes of each filter chain by host, sorts them and checks certificates
      (sslutils/).
    - translator/httproute/ (HttpRoute, Delegation) translates the rules of a route and of
      the routes it delegates to; matches of children are filtered and merged with those
      of the parent. translator/routeutils/ (RouteOrder) is the precedence of routes.
    - translator/plugins/ (PluginApi, Plugins, Policies, PolicyFacts) edits each route and
      listener: filters (redirect, rewrite, mirror, headers, direct response) and attached
      policies (RouteOption, VirtualHostOption, listener options), merged with
      gloo/pkg/utils/merge.go.
    - translator/gateway_translator.go (GatewayTranslator) composes all of these.
    - reports/ (Reports, Status): what the translation reports, and the statuses built
      from it. status/status_syncer.go (StatusSyncer) is the state machine that matches
      the reports gloo sends back with the plugins of the sync that produced them.
    - proxy_syncer/, secrets/ and extensions/ (ProxySyncer) run the translation: controllers
      put events into one-place queues, several at a time, and a loop takes them. Once the
      secrets are known each event is a resync ([resyncProxies]), which translates all
      Gateways, queues the Proxies with the status syncer, writes the statuses that changed
      and hands the Proxies to the reconciler. A queue is a step relation on its place and the
      calls under way; [system_step] is one on the queues, the loop and the status syncer.
    - deployer/ (DeployerMerge, Deployer) computes the configuration
      and the objects of the Envoy deployment of a Gateway; controller/gw_controller.go
      (GatewayController) applies them, and takes the addresses of the Gateway from its
      Services ([Reconcile]).

    Gloo's own Gateways, VirtualServices and RouteTables take another way to a Proxy.

    - gateway/pkg/translator/translator.go and predicate.go (EdgeTranslator): [Translate]
      filters and validates the Gateways and gives each to a listener translator.
    - The http, tcp, hybrid and aggregate translators, the selection of delegated gateways,
      grouping by SSL configuration and the reconciliation of settings (EdgeListeners).
    - virtual_service_translator.go (VirtualServices, and ShortCircuit for the warnings
      about routes that hide later ones): the virtual services of a Gateway are checked for
      domain conflicts and become virtual hosts ([ComputeVirtualHosts]).
    - converter.go, the route table selector and indexer, gloo's sort_routes.go
      (RouteConverter): [ConvertVirtualService] follows delegations to route tables and
      merges matchers, options and transformations on the way.

    Their data is in EdgeApi; facts about each file X are in XFacts.

    A Proxy is then translated to an Envoy snapshot ([Translate] of EnvoyTranslator, from
    gloo/pkg/translator/translator.go, which first makes the report the rest writes to).

    - clusters.go, endpoints.go, upstream_groups.go (EnvoyClusters): each upstream becomes a
      cluster and its endpoints a load assignment; [assign_endpoints] then gives both the
      name under which Envoy asks for endpoints (EnvoyEdsFacts).
    - route_config.go, reporting.go (EnvoyRoutes; facts in EnvoyMatchFacts,
      EnvoyDomainsFacts, EnvoyRoutesFacts): the route configuration of an HTTP listener.
    - utils/ssl.go (Ssl) makes TLS contexts from secrets, files and SDS.
    - network_filters.go, custom_filters.go, plugins/staged_filters.go (EnvoyFilters): the
      filters of a listener, ordered by stage, around the HTTP connection manager.
    - ssl_configuration.go, filter_chain.go, listener.go, listener_subsystem.go (EnvoySsl,
      EnvoyListeners) make a filter chain per TLS configuration, a listener of its chains,
      and put hybrid and aggregate listeners together; plugins/tcp (EnvoyTcp) makes the
      chains of TCP hosts. EnvoyRdsFacts relates listeners to their route configurations.
    - GlooProxy has the data; EnvoyExamples runs it on concrete plugins.

    A Proxy is also validated and reported on, and its snapshot repaired before it is served.

    - gloo/pkg/utils/validation/ (ProxyReports): reports of the shape of a Proxy, and how
      the errors in them are read; ResourceReports are solo-kit's reports on resources.
    - gateway/pkg/reporting/ and reconciler/ (ProxyReconciler): the report is attributed to
      the resources the Proxy comes from ([AddProxyValidationResult]), what comes from
      rejected resources is stripped, and kept as the stored Proxy has it ([transition]).
    - gloo/pkg/xds/ and syncer/sanitizer/ (Xds, Sanitizers): the Envoy snapshot of a Proxy,
      made consistent, and repaired where upstreams or routes have errors.
    - ApplyStatusPlugin of the policy plugins (StatusPlugins): the errors of the reports
      become statuses of the policies.

    Changes of resources are validated before the API server stores them.

    - gateway/pkg/services/k8sadmission/ (AdmissionWebhook): which requests are validated,
      with which call of the validator, and the answer ([makeAdmissionResponse]).
    - gateway/pkg/validation/validator.go, utils/gateway_filtering.go,
      gateway2/validation/ and gloo/pkg/syncer/validation/ (GatewayValidation): the
      validator, a state machine on the latest snapshot ([Sync], [validateSnapshot],
      [ValidateList]). ValidatorRunsFacts has the runs of it as an inductive relation.
    - gloo/pkg/validation/, gloo/pkg/utils/gloo_resources.go (GlooValidation): the reports
      on the proxies of a changed snapshot.
    - gloo/pkg/api/v1/gloosnapshot/ (ApiSnapshot): the snapshot the validators hold.
      ValidationExamples puts the four together on concrete translators.

    This file holds the execution model and generic lemmas, GoLib the parts of the Go
    standard library the sources use, GwApi the resources, Heap the shared memory.

    ** How code is modelled

    A call that may panic returns a [res]; one that changes shared objects is an [M S A],
    a state-passing function over [res]. The report map, the plugins' caches and the heap
    are such states. Most objects are immutable values; the two pieces of an HTTPRoute that
    the translator mutates through shared pointers (the array of rules of a delegated
    route, the path of a match) live in the [Heap], so the effects of its aliasing are part
    of the model. Virtual services, route and listener options of Gloo's API are written to
    while they are shared, and live in a [Store] of pointers. Headers, query parameters and
    methods of its matchers, which delegation and the short-circuit checks append to, are
    slices of shared [Arrays] (EdgeApi) while routes are converted, and lists before and
    after. A state of that translation is a store, the arrays and the reports so far. The validators lock around their calls, so each call
    is one step on their state. Ranging over a Go map is an instance of [GoRange], an arbitrary
    permutation of the bindings: a theorem holds for every order. Integers have their
    width where the code narrows them ([wrap_u16] for ports, [wrap_u32] for weights).
    Strings are byte strings.

    Code outside the repository is a parameter: the API server and its label selectors
    ([K8sClient], [DeployerClient], [ReconcilerClient]), certificate parsing ([X509]), the condition helpers of
    apimachinery ([ApiMeta], with their documented laws), the types
    of k8s.io/api that are only copied ([CoreV1]), the rendering of Helm charts, label
    selectors ([Labels]), regular expressions ([Regexp]), hashes and comparisons of
    generated code ([GeneratedCode], [MatcherHash], [GeneratedEqual]), reflective merges
    ([Mergo]), error libraries ([Errors]), solo-kit's reports and statuses ([SoloReports],
    [StatusReporter]) and the resource indexing of Envoy's control plane ([XdsCache]).
    Of the translation to Envoy: names and URLs ([RouteLibs]), TLS key pairs ([SslLibs]),
    marshalling ([AnyLibs], [Marshal]), sort.Sort ([SortFilters]), the growth of slices,
    which Go leaves open ([SliceGrowth], and [SliceCapacity] for route matchers), the matching
    of requests by Envoy ([EnvoyMatching], with its documented laws), generated hashes and printing ([SslHash],
    [ListenerLibs], [ClusterLibs], [Strconv]), and plugins other than tcp, each kind with
    the promises the theorems need ([RouteConfigPlugins], [FilterPlugins],
    [ListenerPlugins], [ClusterPlugins], [TranslatorPlugins], [AccessLogging]).
    Of the syncer: the comparison of statuses ([CmpEqual]) and, as an interface of the
    source, the translator and plugins of the extensions ([K8sGatewayExtensions], with its
    implementation [k8sGatewayExtensions]).
    Of the validators: the translators and extensions, interfaces in the source too
    ([Translators], [GlooTranslation]), decoding of objects ([Decoding]), and the error and
    hash libraries ([ValidatorLibs], [WebhookLibs], [SoloKit]). Messages of
    Envoy are records with the fields this code sets or reads; the rest is one opaque
    string that plugins may change.

    Recursion is structural except along delegation trees: [GetHTTPRouteChain] has enough
    fuel with the number of HTTPRoutes in the cluster, because a path never visits a route
    twice, and the translation of a tree with its depth; both are proved (termination
    theorems), and [TranslateProxy] is proved to return with that fuel. The traversal of
    route tables needs one more than the number of tables, as a branch visits none twice
    ([ConvertVirtualService_exact]).

    ** What is proved

    - Whole program: [TranslateProxy_correct] (a Proxy is returned, without a panic, with
      one listener per Envoy port of the admitted listeners; routes are sorted, references
      resolve, every refused parentRef is reported); [Translate_correct] says which Gloo
      Gateways become listeners of a Proxy, in which order, and when there is none.
    - The snapshot: [Translate_snapshot_closed] (the translation of a Proxy returns and what
      it serves refers only to what it serves), from
      [translateClusterSubsystemComponents_correct] (endpoints of clusters) and
      [listener_routes_generated] (route configurations of listeners).
    - Parts of it: [ComputeRouteConfiguration_correct], [setAction_clusters_exist] and
      [setWeightedClusters_exact] (clusters of routes), [glooMatcherToEnvoyMatcher_exact]
      (Envoy accepts the requests the matcher means, but for prefixes ending in a slash),
      [ValidateVirtualHostDomains_exact],
      [ResolveDownstreamSslConfig_correct] (clients are verified as configured),
      [http_ComputeNetworkFilters_correct] (the order of filters), [tcp_host_chain_correct],
      [CheckForFilterChainConsistency_exact], [verifyUpstreamGroups_exact],
      [ConsolidateSslConfigurations_correct], [lb_endpoint_exact].
    - Delegation of virtual services: [ConvertVirtualService_exact] refines the traversal
      of route tables by an abstract relation on paths, cycles and bad references included,
      when no routes share room behind the slices they inherit ([unshared]; with two headers,
      parameters or methods at most Go leaves no room, with three it does, and routes then
      overwrite each other's: [siblings_overwrite_inherited_headers]);
      [ConvertVirtualService_confined] keeps every route under the prefix delegated to it.
    - Virtual hosts: [ComputeVirtualHosts_correct], [validateVirtualServiceDomains_exact]
      (conflicts of domains), [GroupVirtualServicesBySslConfig_partition], and
      [prefix_warnings_exact] (which hidden routes are warned about).
    - Per component: functional correctness of attachment, validation, merging of
      listeners, delegation, backends, TLS, policies, statuses, ports, deployment; each on
      its error branches too.
    - Safety: cross-namespace references need a grant; a TLS configuration comes from a
      usable certificate; no operation proved total panics under its stated hypotheses.
    - Equivalences: the route order is the documented lexicographic order, and sorting is
      independent of the order of collection; the merge of deployer settings refines a
      per-setting rule.
    - State machines: the status syncer delivers exactly the accepted reports and delivers
      every current one. The proxy syncer: [resync_exact] (what a resync writes),
      [written_reports_delivered] (a resync and the status syncer together: the reports on
      its Proxies reach its plugins), [reachable_sound] (an invariant of all runs),
      [queue_no_lost_wakeup] (a queue under overlapping calls), and [Reconcile_exact] for the
      controller of Gateways.
    - Validation: [makeAdmissionResponse_exact] (what is allowed), [validateSnapshot_exact]
      (a change is accepted exactly when the snapshot it leaves is valid, and applied only
      then), [ValidateList_exact], [ValidateGloo_exact], [routeErrorToWarnings_exact], and
      invariants of every run of the validator: [reachable_translates] (the snapshot it
      holds renders) and [reachable_well_formed]; [upsert_roundtrip] for the snapshot.
    - Reports and snapshots: [AddProxyValidationResult_exact] (who is blamed),
      [reconciled_proxy_serves] (what is written, where aggregate listeners lose the rejected
      virtual hosts that other listeners keep), [RouteReplacingSanitizer_correct],
      [UpstreamRemovingSanitizer_exact], [MakeConsistent_consistent] (what is served),
      [route_error_roundtrip], [ApplyRouteOptionStatus_exact].
    - Behaviours that look unintended are stated as theorems or examples on concrete
      inputs, and listed in the manifest.

    ** Not modelled

    In gateway/pkg/translator, the default weight 0 is not written into a route table
    without a weight; options are only read, compared and merged field by field; appends to
    lists of transformations, whose slices have one holder each, are values.

    The registration of watches and the reconcilers that only kick the proxy syncer
    (controller/controller.go, start.go), the HTTP server and certificates of the webhook, the
    resync notifications of the validation server, gateway/'s syncer, logging and metrics (but the gauge the validator sets), chart loading and YAML decoding, CRD validation
    against schemas, generated API code, discovery, the command line and the other front
    ends (ingress, Knative). Of gloo/: the plugins other than tcp, the conversion of health
    checks and outlier detection, and the servers of xDS. The translators are taken not to
    write to the snapshot the validators give them, and plugins are taken not to write to
    the snapshot of inputs; DPanic does not panic, as in production, and is left out. *)

From stdpp Require Import base gmap strings list fin_maps sorting.
From Stdlib Require Import ZArith Lia.

Declare Scope go_scope.
Delimit Scope go_scope with go.

Create HintDb gw discriminated.

(** ** Outcomes of Go code

    A call returns a value, panics (nil dereference, failed type assertion), or, only
    in the model, runs out of the fuel that bounds a recursion. *)
Inductive res (A : Type) : Type :=
| Ok (a : A)
| Panic (why : string)
| OutOfFuel.
Arguments Ok {A} _.
Arguments Panic {A} _.
Arguments OutOfFuel {A}.

Definition res_bind {A B} (r : res A) (k : A → res B) : res B :=
  match r with
  | Ok a => k a
  | Panic w => Panic w
  | OutOfFuel => OutOfFuel
  end.

(** State passing over [res]: mutable objects shared by a group of calls live in [S]. *)
Definition M (S A : Type) : Type := S → res (A * S).

Definition ret {S A} (a : A) : M S A := λ s, Ok (a, s).
Definition bind {S A B} (m : M S A) (k : A → M S B) : M S B :=
  λ s, match m s with
       | Ok (a, s') => k a s'
       | Panic w => Panic w
       | OutOfFuel => OutOfFuel
       end.
Definition gets {S A} (f : S → A) : M S A := λ s, Ok (f s, s).
Definition modify {S} (f : S → S) : M S unit := λ s, Ok (tt, f s).
Definition panic {S A} (why : string) : M S A := λ _, Panic why.
Definition no_fuel {S A} : M S A := λ _, OutOfFuel.

(** A pure call that may panic. *)
Definition lift_res {S A} (r : res A) : M S A := λ s,
  match r with Ok a => Ok (a, s) | Panic why => Panic why | OutOfFuel => OutOfFuel end.

Notation "x '<~' m ';;' k" := (bind m (λ x, k))
  (at level 100, m at next level, right associativity) : go_scope.
Notation "'let!' x '<~' m ';;' k" := (bind m (λ x, k))
  (at level 100, x strict pattern, m at next level, right associativity) : go_scope.
Notation "'do!' m ';;' k" := (bind m (λ _, k))
  (at level 100, m at next level, right associativity) : go_scope.
Open Scope go_scope.

(** [for _, x := range l { body }] *)
Fixpoint for_range {S A} (l : list A) (body : A → M S unit) : M S unit :=
  match l with
  | [] => ret tt
  | x :: l' => do! body x ;; for_range l' body
  end.

(** [for i, x := range l] carrying a local accumulator. *)
Fixpoint fold_range {S A B} (i : nat) (l : list A) (acc : B)
    (body : nat → A → B → M S B) : M S B :=
  match l with
  | [] => ret acc
  | x :: l' => acc' <~ body i x acc ;; fold_range (i + 1) l' acc' body
  end.

(** ** Total-correctness triples

    [wp m Q s]: [m] started in [s] returns, without a panic and within its fuel, in a
    result and state satisfying [Q]. *)
Definition wp {S A} (m : M S A) (Q : A → S → Prop) (s : S) : Prop :=
  match m s with
  | Ok (a, s') => Q a s'
  | _ => False
  end.

Section Wp.
Context {S : Type}.

Lemma wp_ret {A} (a : A) Q (s : S) : Q a s → wp (ret a) Q s.
Proof. done. Qed.

Lemma wp_gets {A} (f : S → A) Q s : Q (f s) s → wp (gets f) Q s.
Proof. done. Qed.

Lemma wp_modify (f : S → S) Q s : Q tt (f s) → wp (modify f) Q s.
Proof. done. Qed.

Lemma wp_bind {A B} (m : M S A) (k : A → M S B) Q s :
  wp m (λ a s', wp (k a) Q s') s → wp (bind m k) Q s.
Proof. unfold wp, bind. by destruct (m s) as [[a s']| |]. Qed.

Lemma wp_mono {A} (m : M S A) (Q Q' : A → S → Prop) s :
  wp m Q s → (∀ a s', Q a s' → Q' a s') → wp m Q' s.
Proof. unfold wp. destruct (m s) as [[a s']| |]; naive_solver. Qed.

Lemma wp_run {A} (m : M S A) Q s : wp m Q s → ∃ a s', m s = Ok (a, s') ∧ Q a s'.
Proof. unfold wp. destruct (m s) as [[a s']| |]; naive_solver. Qed.

(** Invariant rule for a range loop with an accumulator. *)
Lemma wp_fold_range {A B} (I : B → S → Prop) (body : nat → A → B → M S B) l :
  ∀ i acc s,
    I acc s →
    (∀ j x acc s, x ∈ l → I acc s → wp (body j x acc) I s) →
    wp (fold_range i l acc body) I s.
Proof.
  induction l as [|x l IH]; intros i acc s HI Hbody; simpl; [done|].
  apply wp_bind. eapply wp_mono; [apply Hbody; [by left|done]|].
  intros acc' s' HI'. apply IH; [done|]. intros. apply Hbody; [by right|done].
Qed.

(** The same, knowing the position of each element. *)
Lemma wp_fold_range_ix {A B} (I : B → S → Prop) (body : nat → A → B → M S B) l :
  ∀ acc s,
    I acc s →
    (∀ j x acc s, l !! j = Some x → I acc s → wp (body j x acc) I s) →
    wp (fold_range 0 l acc body) I s.
Proof.
  enough (∀ i acc s, I acc s →
    (∀ j x acc s, l !! j = Some x → I acc s → wp (body (i + j) x acc) I s) →
    wp (fold_range i l acc body) I s) by (intros; eauto).
  induction l as [|x l IH]; intros i acc s HI Hbody; simpl; [done|].
  apply wp_bind. eapply wp_mono.
  { rewrite <-(Nat.add_0_r i). by apply Hbody. }
  intros acc' s' HI'. apply IH; [done|]. intros j y ?? Hy ?.
  rewrite <-Nat.add_assoc. by apply Hbody.
Qed.

(** The same with the elements already visited. *)
Lemma wp_fold_range_prefix {A B} (I : list A → B → S → Prop) (body : nat → A → B → M S B) l :
  ∀ i pre acc s,
    I pre acc s →
    (∀ j pre x acc s, x ∈ l → I pre acc s → wp (body j x acc) (I (pre ++ [x])) s) →
    wp (fold_range i l acc body) (I (pre ++ l)) s.
Proof.
  induction l as [|x l IH]; intros i pre acc s HI Hbody; simpl; [by rewrite app_nil_r|].
  apply wp_bind. eapply wp_mono; [apply Hbody; [by left|done]|].
  intros acc' s' HI'. rewrite (cons_middle x pre l), (assoc_L (++)). apply IH; [done|].
  intros. apply Hbody; [by right|done].
Qed.

(** The same, knowing the elements before and after. *)
Lemma wp_fold_range_split {A B} (I : list A → B → S → Prop) (body : nat → A → B → M S B) l :
  ∀ acc s,
    I [] acc s →
    (∀ pre x post acc s, l = pre ++ x :: post → I pre acc s →
       wp (body (length pre) x acc) (I (pre ++ [x])) s) →
    wp (fold_range 0 l acc body) (I l) s.
Proof.
  intros acc s HI Hbody.
  enough (∀ post pre acc s, l = pre ++ post → I pre acc s →
    wp (fold_range (length pre) post acc body) (I (pre ++ post)) s) as H by by apply (H l []).
  clear acc s HI. induction post as [|x post IH]; intros pre acc s Hl HI; simpl; [by rewrite app_nil_r|].
  apply wp_bind. eapply wp_mono; [by eapply Hbody|].
  intros acc' s' HI'. rewrite (cons_middle x pre post), (assoc_L (++)).
  replace (length pre + 1) with (length (pre ++ [x])) by by rewrite length_app.
  apply IH; [|done]. by rewrite Hl, <-(assoc_L (++)).
Qed.

Lemma wp_for_range {A} (I : S → Prop) (body : A → M S unit) l :
  ∀ s, I s → (∀ x s, x ∈ l → I s → wp (body x) (λ _, I) s) →
    wp (for_range l body) (λ _, I) s.
Proof.
  induction l as [|x l IH]; intros s HI Hbody; simpl; [done|].
  apply wp_bind. eapply wp_mono; [apply Hbody; [by left|done]|].
  intros [] s' HI'. apply IH; [done|]. intros. apply Hbody; [by right|done].
Qed.
End Wp.

(** [keeps I m P]: from a state satisfying [I], [m] returns, keeps [I] and its result
    satisfies [P]. *)
Definition keeps {S A} (I : S → Prop) (m : M S A) (P : A → Prop) : Prop := ∀ s, I s → wp m (λ a s', I s' ∧ P a) s.
Section Keeps.
Context {S : Type} (I : S → Prop).
Lemma keeps_ret {A} (a : A) (P : A → Prop) : P a → keeps I (ret a) P.
Proof. intros HP s Hs. by apply wp_ret. Qed.
Lemma keeps_mono {A} (m : M S A) (P Q : A → Prop) : keeps I m P → (∀ a, P a → Q a) → keeps I m Q.
Proof. intros Hm HPQ s Hs. eapply wp_mono; [by apply Hm|]. naive_solver. Qed.
Lemma keeps_bind {A B} (m : M S A) (k : A → M S B) P Q : keeps I m P → (∀ a, P a → keeps I (k a) Q) → keeps I (bind m k) Q.
Proof. intros Hm Hk s Hs. apply wp_bind. eapply wp_mono; [by apply Hm|]. intros a s' [Hs' HP]. by apply Hk. Qed.
Lemma keeps_res {A} (m : res A) a (P : A → Prop) : m = Ok a → P a → keeps I (lift_res m) P.
Proof. intros -> HP s Hs. by split. Qed.
Lemma keeps_fold {A B} (P : B → Prop) l (acc : B) (body : nat → A → B → M S B) : P acc →
  (∀ i x acc, l !! i = Some x → P acc → keeps I (body i x acc) P) → keeps I (fold_range 0 l acc body) P.
Proof.
  intros HP Hb s Hs. apply (wp_fold_range_ix (λ acc s, I s ∧ P acc)); [done|]. intros i x acc' s' Hx [HI Hacc]. by eapply Hb.
Qed.
(** The same, knowing the elements visited. *)
Lemma keeps_fold_split {A B} (P : list A → B → Prop) l (acc : B) (body : nat → A → B → M S B) : P [] acc →
  (∀ pre x post acc, l = pre ++ x :: post → P pre acc → keeps I (body (length pre) x acc) (P (pre ++ [x]))) →
  keeps I (fold_range 0 l acc body) (P l).
Proof.
  intros HP Hb s Hs. apply (wp_fold_range_split (λ pre acc s, I s ∧ P pre acc)); [done|].
  intros pre x post acc' s' Hl [HI Hacc]. by eapply Hb.
Qed.
Lemma keeps_for {A} (l : list A) (body : A → M S unit) : (∀ x, x ∈ l → keeps I (body x) (λ _, True)) → keeps I (for_range l body) (λ _, True).
Proof.
  induction l as [|x l IH]; intros Hb; [by apply keeps_ret|]. eapply keeps_bind; [apply Hb; by left|]. intros _ _. apply IH. intros. apply Hb. by right.
Qed.
End Keeps.

Lemma wp_lift_res {S A} (r : res A) (a : A) (Q : A → S → Prop) s : r = Ok a → Q a s → wp (lift_res r) Q s.
Proof. by intros ->. Qed.

(** One step of symbolic execution of a monadic body. *)
Ltac wp_step :=
  lazymatch goal with
  | |- wp (bind _ _) _ _ => apply wp_bind
  | |- wp (ret _) _ _ => apply wp_ret
  | |- wp (gets _) _ _ => apply wp_gets
  | |- wp (modify _) _ _ => apply wp_modify
  end.
Ltac wp_steps := repeat wp_step.

(** Case analysis on every [match] or [if] of the goal or of a hypothesis. *)
Ltac cases :=
  repeat (case_match; simplify_eq/=).

(** ** Fixed-width integers *)
Open Scope Z_scope.

Definition wrap_u16 (z : Z) : Z := z mod 2 ^ 16.
Definition wrap_u32 (z : Z) : Z := z mod 2 ^ 32.
Definition wrap_i32 (z : Z) : Z := (z + 2 ^ 31) mod 2 ^ 32 - 2 ^ 31.

Lemma wrap_u16_id z : 0 ≤ z < 2 ^ 16 → wrap_u16 z = z.
Proof. apply Z.mod_small. Qed.
Lemma wrap_u32_id z : 0 ≤ z < 2 ^ 32 → wrap_u32 z = z.
Proof. apply Z.mod_small. Qed.
Lemma wrap_i32_id z : - 2 ^ 31 ≤ z < 2 ^ 31 → wrap_i32 z = z.
Proof. intros. unfold wrap_i32. rewrite Z.mod_small; lia. Qed.
Lemma wrap_u16_range z : 0 ≤ wrap_u16 z < 2 ^ 16.
Proof. apply Z.mod_pos_bound. lia. Qed.

Close Scope Z_scope.

#[export] Hint Resolve wrap_u16_range : gw.

(** ** Pointers

    A Go pointer to immutable data is an [option]; [ptr_or_default] reads it. *)
Definition ptr_or_default {A} (d : A) (p : option A) : A := default d p.

(** [p != nil && *p == v], and its dual [p == nil || *p == v]. *)
Definition ptr_is {A} `{EqDecision A} (p : option A) (v : A) : bool :=
  match p with Some x => bool_decide (x = v) | None => false end.
Definition nil_or_is {A} `{EqDecision A} (p : option A) (v : A) : bool :=
  match p with Some x => bool_decide (x = v) | None => true end.

Lemma ptr_is_true {A} `{EqDecision A} (p : option A) v : ptr_is p v = true ↔ p = Some v.
Proof. destruct p; simpl; rewrite ?bool_decide_eq_true; naive_solver. Qed.
Lemma nil_or_is_true {A} `{EqDecision A} (p : option A) v :
  nil_or_is p v = true ↔ p = None ∨ p = Some v.
Proof. destruct p; simpl; rewrite ?bool_decide_eq_true; naive_solver. Qed.

(** ** Iteration over a Go map

    The language leaves the order of [range] over a map unspecified: a model that
    depends on it takes the order as an instance of this class. *)
Class GoRange (K : Type) `{Countable K} := {
  go_range : ∀ {V : Type}, gmap K V → list (K * V);
  go_range_perm : ∀ {V : Type} (m : gmap K V), go_range m ≡ₚ map_to_list m
}.

Lemma go_range_elem `{GoRange K} {V} (m : gmap K V) k v :
  (k, v) ∈ go_range m ↔ m !! k = Some v.
Proof. rewrite go_range_perm. apply elem_of_map_to_list. Qed.

Lemma go_range_nodup `{GoRange K} {V} (m : gmap K V) : NoDup (go_range m).*1.
Proof. rewrite go_range_perm. apply NoDup_fst_map_to_list. Qed.

(** One lawful order: the one of the map's internal representation. *)
Definition list_order `{Countable K} : GoRange K :=
  {| go_range := λ V m, map_to_list m; go_range_perm := λ V m, Permutation_refl _ |}.

(** ** Lists *)
Lemma elem_of_flat_map {A B} (f : A → list B) l y :
  y ∈ flat_map f l ↔ ∃ x, x ∈ l ∧ y ∈ f x.
Proof.
  rewrite list_elem_of_In, in_flat_map.
  setoid_rewrite list_elem_of_In. done.
Qed.

Lemma map_flat_map {A B} (f : A → B) l : map f l = flat_map (λ x, [f x]) l.
Proof. induction l as [|x l IH]; simpl; [done|]. by rewrite IH. Qed.
Lemma map_of_flat_map {A B C} (f : B → C) (g : A → list B) l : map f (flat_map g l) = flat_map (λ x, map f (g x)) l.
Proof. induction l as [|x l IH]; simpl; [done|]. by rewrite map_app, IH. Qed.
Lemma flat_map_of_map {A B C} (f : B → list C) (g : A → B) l : flat_map f (map g l) = flat_map (λ x, f (g x)) l.
Proof. induction l as [|x l IH]; simpl; [done|]. by rewrite IH. Qed.
Lemma flat_map_flat_map {A B C} (f : B → list C) (g : A → list B) l : flat_map f (flat_map g l) = flat_map (λ x, flat_map f (g x)) l.
Proof. induction l as [|x l IH]; simpl; [done|]. by rewrite flat_map_app, IH. Qed.
Lemma flat_map_app_perm {A B} (f g : A → list B) l : flat_map (λ x, f x ++ g x) l ≡ₚ flat_map f l ++ flat_map g l.
Proof.
  induction l as [|x l IH]; simpl; [done|]. rewrite IH, <-!(assoc_L (++)). f_equiv. rewrite !(assoc_L (++)). f_equiv. apply Permutation_app_comm.
Qed.
Lemma flat_map_perm_ext {A B} (f g : A → list B) l : (∀ x, x ∈ l → f x ≡ₚ g x) → flat_map f l ≡ₚ flat_map g l.
Proof. induction l as [|x l IH]; intros Hfg; simpl; [done|]. rewrite (Hfg x) by by left. f_equiv. apply IH. intros. apply Hfg. by right. Qed.

Lemma find_none_elem {A} (f : A → bool) l : List.find f l = None ↔ ∀ x, x ∈ l → f x = false.
Proof.
  induction l as [|x l IH]; simpl; [split; [set_solver|done]|]. destruct (f x) eqn:Hx.
  - split; [done|]. intros Hall. rewrite (Hall x) in Hx by by left. done.
  - rewrite IH. set_solver.
Qed.
Lemma find_app {A} (f : A → bool) l1 l2 :
  List.find f (l1 ++ l2) = match List.find f l1 with Some x => Some x | None => List.find f l2 end.
Proof. induction l1 as [|x l1 IH]; simpl; [done|]. by destruct (f x). Qed.
Lemma NoDup_map_inj {A B} (f : A → B) l x y : NoDup (map f l) → x ∈ l → y ∈ l → f x = f y → x = y.
Proof.
  induction l as [|a l IH]; simpl; [set_solver|]. intros [Ha Hl]%NoDup_cons Hx Hy Hf.
  rewrite list_elem_of_fmap in Ha.
  apply elem_of_cons in Hx as [->|Hx], Hy as [->|Hy]; [done| | |eauto];
    exfalso; apply Ha; eauto.
Qed.

Lemma filter_sublist {A} (f : A → bool) l : sublist (List.filter f l) l.
Proof. induction l as [|x l IH]; simpl; [constructor|]. destruct (f x); by constructor. Qed.

Lemma elem_of_filter_bool {A} (f : A → bool) l x : x ∈ List.filter f l ↔ x ∈ l ∧ f x = true.
Proof. by rewrite !list_elem_of_In, filter_In. Qed.

Lemma existsb_elem {A} (f : A → bool) l : existsb f l = true ↔ ∃ x, x ∈ l ∧ f x = true.
Proof. rewrite existsb_exists. setoid_rewrite list_elem_of_In. done. Qed.

Lemma forallb_elem {A} (f : A → bool) l : forallb f l = true ↔ ∀ x, x ∈ l → f x = true.
Proof. rewrite forallb_forall. setoid_rewrite list_elem_of_In. done. Qed.

(** Association lists whose newest binding comes first: a Go map that is only ever
    written and looked up. *)
Fixpoint assoc {K V} `{EqDecision K} (k : K) (l : list (K * V)) : option V :=
  match l with
  | [] => None
  | (k', v) :: l' => if decide (k = k') then Some v else assoc k l'
  end.

Lemma assoc_elem {K V} `{EqDecision K} (k : K) (l : list (K * V)) v :
  assoc k l = Some v → (k, v) ∈ l.
Proof. induction l as [|[k' v'] l IH]; simpl; [done|]. case_decide; set_solver. Qed.
