(* ===== verification/GoLib.v ===== *)
(** * The Go standard library, as the gateway sources use it

    [strings] (HasPrefix, HasSuffix, ToLower, Join, ReplaceAll of one character),
    [path.Join]/[path.Clean], [sort.Stable]/[slices.SortFunc]/[sort.Strings],
    [strconv.Atoi] on decimal literals and [fmt]'s [%d]. Strings are byte strings. *)

From stdpp Require Import base gmap strings list fin_maps sorting pretty.
From Stdlib Require Import ZArith Ascii Lia.
From S2P Require Import Prelude.

(** ** strings *)
Definition has_prefix (s p : string) : bool := String.prefix p s.

Fixpoint has_suffix (s suf : string) : bool :=
  bool_decide (s = suf) ||
  match s with
  | EmptyString => false
  | String _ s' => has_suffix s' suf
  end.

Definition lower_ascii (a : ascii) : ascii :=
  let n := Ascii.nat_of_ascii a in
  if (65 <=? n) && (n <=? 90) then Ascii.ascii_of_nat (n + 32) else a.

Fixpoint to_lower (s : string) : string :=
  match s with
  | EmptyString => EmptyString
  | String a s' => String (lower_ascii a) (to_lower s')
  end.

(** [strings.ReplaceAll] for one-character arguments. *)
Fixpoint replace_char (old new : ascii) (s : string) : string :=
  match s with
  | EmptyString => EmptyString
  | String a s' => String (if bool_decide (a = old) then new else a) (replace_char old new s')
  end.

Fixpoint contains_char (c : ascii) (s : string) : bool :=
  match s with
  | EmptyString => false
  | String a s' => bool_decide (a = c) || contains_char c s'
  end.

Fixpoint join (sep : string) (l : list string) : string :=
  match l with
  | [] => ""
  | [x] => x
  | x :: l' => x +:+ sep +:+ join sep l'
  end.

(** Byte-wise [s < t]. *)
Definition string_lt (s t : string) : bool :=
  match String.compare s t with Lt => true | _ => false end.

Lemma has_prefix_spec s p : has_prefix s p = true ↔ ∃ t, s = p +:+ t.
Proof.
  unfold has_prefix. revert s. induction p as [|a p IH]; intros s; simpl.
  - split; [eauto|by destruct s].
  - destruct s as [|b s]; simpl; [by split; [|intros [t ?]]|].
    destruct (ascii_dec a b) as [->|Hab]; [rewrite IH|].
    + split; intros [t Ht]; exists t; [by rewrite Ht|]. by injection Ht.
    + split; [done|]. intros [t [=]]; congruence.
Qed.

Lemma has_suffix_spec s suf : has_suffix s suf = true ↔ ∃ t, s = t +:+ suf.
Proof.
  induction s as [|a s IH]; simpl;
    rewrite ?orb_true_iff, ?bool_decide_eq_true.
  - split; [intros [<-|]; [by exists ""|done]|].
    intros [[|b t] Ht]; [by left|done].
  - rewrite IH. split.
    + intros [<-|[t ->]]; [by exists ""|by exists (String a t)].
    + intros [[|b t] Ht]; [by left|]. injection Ht as -> ->. right. by exists t.
Qed.

Lemma has_suffix_refl s : has_suffix s s = true.
Proof. apply has_suffix_spec. by exists "". Qed.

Lemma string_append_assoc s t u : (s +:+ t) +:+ u = s +:+ (t +:+ u).
Proof. induction s as [|a s IH]; [done|]. by apply (f_equal (String a)). Qed.

Lemma has_prefix_trans a b c :
  has_prefix a b = true → has_prefix b c = true → has_prefix a c = true.
Proof.
  rewrite !has_prefix_spec. intros [t ->] [u ->].
  exists (u +:+ t). by rewrite string_append_assoc.
Qed.

Lemma string_lt_spec s t : string_lt s t = true ↔ ¬ String.le t s.
Proof.
  unfold string_lt, String.le, String.leb.
  rewrite (String.compare_antisym s t).
  destruct (String.compare t s); simpl; naive_solver.
Qed.

Lemma string_lt_le s t : string_lt s t = false ↔ String.le t s.
Proof.
  rewrite <-not_true_iff_false, string_lt_spec.
  destruct (decide (String.le t s)); tauto.
Qed.

Lemma string_lt_irrefl s : string_lt s s = false.
Proof. apply string_lt_le. reflexivity. Qed.

Lemma string_lt_asym s t : string_lt s t = true → string_lt t s = false.
Proof.
  rewrite string_lt_spec, string_lt_le. destruct (total String.le s t); tauto.
Qed.

Lemma string_lt_trans s t u :
  string_lt s t = true → string_lt t u = true → string_lt s u = true.
Proof.
  rewrite !string_lt_spec. intros Hst Htu Hus.
  destruct (total String.le s t) as [Hle|]; [|done].
  apply Htu. by transitivity s.
Qed.

Lemma string_lt_connex s t : string_lt s t = false → string_lt t s = false → s = t.
Proof. rewrite !string_lt_le. intros. by apply (anti_symm String.le). Qed.

(** ** sort

    Go sorts a short slice by insertion: element [i] moves left past its neighbours
    while [less(j, j-1)]. The already sorted prefix is kept reversed. *)
Section Sort.
Context {A : Type} (less : A → A → bool).

Fixpoint sift_left (x : A) (rev_prefix : list A) : list A :=
  match rev_prefix with
  | [] => [x]
  | y :: rp => if less x y then y :: sift_left x rp else x :: rev_prefix
  end.

Definition sort_stable (l : list A) : list A :=
  rev (foldl (λ rp x, sift_left x rp) [] l).

Lemma sift_left_perm x rp : sift_left x rp ≡ₚ x :: rp.
Proof.
  induction rp as [|y rp IH]; simpl; [done|].
  destruct (less x y); [|done]. rewrite IH. constructor.
Qed.

Lemma foldl_sift_perm l rp : foldl (λ rp x, sift_left x rp) rp l ≡ₚ l ++ rp.
Proof.
  revert rp. induction l as [|x l IH]; intros rp; simpl; [done|].
  rewrite IH, sift_left_perm. by rewrite Permutation_middle.
Qed.

Lemma sort_stable_perm l : sort_stable l ≡ₚ l.
Proof.
  unfold sort_stable. rewrite <-Permutation_rev, foldl_sift_perm. by rewrite app_nil_r.
Qed.

(** [R a b]: [a] may stand before [b]. *)
Context (R : relation A) `{!Transitive R}.
Context (less_R : ∀ x y, less x y = true → R x y).
Context (nless_R : ∀ x y, less x y = false → R y x).

Lemma sift_left_sorted x rp :
  StronglySorted (flip R) rp → StronglySorted (flip R) (sift_left x rp).
Proof.
  induction rp as [|y rp IH]; simpl; intros Hs; [by repeat constructor|].
  apply StronglySorted_cons in Hs as [Hy Hs].
  destruct (less x y) eqn:E.
  - apply StronglySorted_cons. split; [|by apply IH].
    rewrite sift_left_perm. constructor; [by apply less_R|done].
  - apply nless_R in E. apply StronglySorted_cons.
    split; [|by apply StronglySorted_cons].
    constructor; [done|]. eapply Forall_impl; [exact Hy|].
    intros z Hz. unfold flip in *. by transitivity y.
Qed.

Lemma foldl_sift_sorted l rp :
  StronglySorted (flip R) rp →
  StronglySorted (flip R) (foldl (λ rp x, sift_left x rp) rp l).
Proof. revert rp. induction l; simpl; auto using sift_left_sorted. Qed.

Lemma StronglySorted_rev_flip (l : list A) :
  StronglySorted (flip R) l → StronglySorted R (rev l).
Proof.
  induction 1 as [|x l Hs IH Hx]; simpl; [constructor|].
  apply StronglySorted_app. split; [|by repeat constructor].
  intros a b Ha Hb. apply list_elem_of_singleton in Hb as ->.
  rewrite Forall_forall in Hx. apply Hx. by rewrite list_elem_of_In, in_rev, <-list_elem_of_In.
Qed.

Lemma sort_stable_sorted l : StronglySorted R (sort_stable l).
Proof. apply StronglySorted_rev_flip, foldl_sift_sorted. constructor. Qed.
End Sort.

(** The same sort when the comparison can panic. *)
Fixpoint sift_left_res {A} (less : A → A → res bool) (x : A) (rev_prefix : list A) : res (list A) :=
  match rev_prefix with
  | [] => Ok [x]
  | y :: rp =>
      res_bind (less x y) (λ b,
        if b then res_bind (sift_left_res less x rp) (λ rp', Ok (y :: rp')) else Ok (x :: rev_prefix))
  end.

Definition sort_stable_res {A} (less : A → A → res bool) (l : list A) : res (list A) :=
  res_bind (foldl (λ rp x, res_bind rp (sift_left_res less x)) (Ok []) l) (λ rp, Ok (rev rp)).

Section SortRes.
Context {A : Type} (less : A → A → res bool) (less' : A → A → bool) (P : A → Prop).
Context (Hless : ∀ x y, P x → P y → less x y = Ok (less' x y)).

Lemma sift_left_res_ok x rp :
  P x → Forall P rp → sift_left_res less x rp = Ok (sift_left less' x rp).
Proof.
  intros Hx. induction rp as [|y rp IH]; intros Hrp; [done|].
  apply Forall_cons in Hrp as [Hy Hrp]. simpl. rewrite Hless by done. simpl.
  destruct (less' x y); [by rewrite IH|done].
Qed.

Lemma sort_stable_res_ok l :
  Forall P l → sort_stable_res less l = Ok (sort_stable less' l).
Proof.
  intros Hl. unfold sort_stable_res, sort_stable.
  enough (∀ rp, Forall P rp → foldl (λ rp x, res_bind rp (sift_left_res less x)) (Ok rp) l =
    Ok (foldl (λ rp x, sift_left less' x rp) rp l)) as -> by done || by constructor.
  induction Hl as [|x l Hx Hl IH]; intros rp Hrp; [done|]. simpl.
  rewrite sift_left_res_ok by done. apply IH. rewrite sift_left_perm. by constructor.
Qed.
End SortRes.

Definition sort_strings (l : list string) : list string := sort_stable string_lt l.

Lemma sort_strings_sorted l : StronglySorted String.le (sort_strings l).
Proof.
  apply sort_stable_sorted; [apply _| |]; intros x y.
  - rewrite string_lt_spec. destruct (total String.le x y); tauto.
  - apply string_lt_le.
Qed.

Lemma sort_strings_perm l : sort_strings l ≡ₚ l.
Proof. apply sort_stable_perm. Qed.

(** ** path

    [path.Clean] on the list of the path's elements: empty and "." elements go, ".."
    removes the element before it, except at the root (dropped) or at the front of a
    relative path (kept). *)
Fixpoint split_slash (cur s : string) : list string :=
  match s with
  | EmptyString => [cur]
  | String a s' =>
      if bool_decide (a = "/"%char) then cur :: split_slash "" s'
      else split_slash (cur +:+ String a "") s'
  end.

(** [acc] holds the elements kept so far, last one first. *)
Fixpoint clean_elems (rooted : bool) (acc l : list string) : list string :=
  match l with
  | [] => rev acc
  | e :: l' =>
      if bool_decide (e = "") || bool_decide (e = ".") then clean_elems rooted acc l'
      else if bool_decide (e = "..") then
        match acc with
        | [] => if rooted then clean_elems rooted [] l' else clean_elems rooted [".."] l'
        | x :: acc' =>
            if bool_decide (x = "..") then clean_elems rooted (".." :: acc) l'
            else clean_elems rooted acc' l'
        end
      else clean_elems rooted (e :: acc) l'
  end.

Definition path_clean (p : string) : string :=
  if bool_decide (p = "") then "." else
  let rooted := has_prefix p "/" in
  let body := join "/" (clean_elems rooted [] (split_slash "" p)) in
  if rooted then "/" +:+ body
  else if bool_decide (body = "") then "." else body.

(** [path.Join a b]: elements before the first non-empty one are dropped. *)
Definition path_join (a b : string) : string :=
  if bool_decide (a = "") then (if bool_decide (b = "") then "" else path_clean b)
  else path_clean (a +:+ "/" +:+ b).

Example path_join_ex1 : path_join "/anything/team1" "/foo" = "/anything/team1/foo".
Proof. reflexivity. Qed.
Example path_join_ex2 : path_join "/a/" "" = "/a".
Proof. reflexivity. Qed.
Example path_join_ex3 : path_join "/a" "../../b" = "/b".
Proof. reflexivity. Qed.

(** ** strconv / fmt *)
Definition digit_of (a : ascii) : option Z :=
  let n := Z.of_nat (nat_of_ascii a) in
  if (48 <=? n)%Z && (n <=? 57)%Z then Some (n - 48)%Z else None.

(** The scan stops as soon as the value leaves the 64-bit range. *)
Fixpoint atoi_digits (acc : Z) (s : string) : option Z :=
  match s with
  | EmptyString => Some acc
  | String a s' => match digit_of a with
                   | Some d => let n := (10 * acc + d)%Z in
                               if (2 ^ 64 <=? n)%Z then Some n else atoi_digits n s'
                   | None => None
                   end
  end.

(** [n, _ = strconv.Atoi(s)]: 0 on a syntax error, the nearest int out of range. *)
Definition atoi (s : string) : Z :=
  match s with
  | EmptyString => 0%Z
  | String "-" (String _ _ as s') => match atoi_digits 0 s' with Some n => (- Z.min n (2 ^ 63))%Z | None => 0%Z end
  | String "+" (String _ _ as s') => Z.min (default 0%Z (atoi_digits 0 s')) (2 ^ 63 - 1)
  | _ => Z.min (default 0%Z (atoi_digits 0 s)) (2 ^ 63 - 1)
  end.

(** [fmt.Sprintf("%d", n)] for a non-negative int. *)
Definition itoa (n : nat) : string := pretty (N.of_nat n).

Example atoi_ex : atoi "412" = 412%Z ∧ atoi "x" = 0%Z ∧ atoi "-7" = (-7)%Z.
Proof. done. Qed.

(** [strings.TrimSpace]: the UTF-8 encodings of the runes of [unicode.IsSpace]. *)
Fixpoint of_bytes (bs : list nat) : string :=
  match bs with [] => EmptyString | b :: bs' => String (ascii_of_nat b) (of_bytes bs') end.

Definition space_encodings : list string :=
  map of_bytes (map (λ b, [b]) [9; 10; 11; 12; 13; 32] ++ [[194; 133]; [194; 160]; [225; 154; 128]] ++
    map (λ b, [226; 128; b]) (seq 128 11 ++ [168; 169; 175]) ++ [[226; 129; 159]; [227; 128; 128]]).

Fixpoint drop_string (n : nat) (s : string) : string :=
  match n, s with
  | S n', String _ s' => drop_string n' s'
  | _, _ => s
  end.

Fixpoint trim_left (fuel : nat) (spaces : list string) (s : string) : string :=
  match fuel with
  | O => s
  | S fuel => match List.find (has_prefix s) spaces with
              | Some p => trim_left fuel spaces (drop_string (String.length p) s)
              | None => s
              end
  end.

Definition string_rev (s : string) : string := String.string_of_list_ascii (rev (String.list_ascii_of_string s)).

Definition trim_space (s : string) : string :=
  let s := trim_left (String.length s) space_encodings s in
  string_rev (trim_left (String.length s) (map string_rev space_encodings) (string_rev s)).

Example trim_space_ex : trim_space (of_bytes [32; 10; 97; 32; 98; 194; 160; 9]) = "a b".
Proof. reflexivity. Qed.
