(* ===== verification/GwApi.v ===== *)
(** * Resources: the Gateway API inputs and the Gloo Proxy outputs

    Records carry the fields the sources read or write. A Go pointer to immutable data is
    an [option]; a slice whose nil-ness the code tests is an [option (list _)]. The two
    pieces of an HTTPRoute that the translator mutates through shared pointers, the array
    of rules and the [*HTTPPathMatch] of a match, are type parameters: [HTTPRoute] and
    [HTTPRouteRule] are instantiated with values for the objects stored in the cluster and
    with locations of the [Heap] for the objects in memory. *)

From stdpp Require Import base gmap strings list.
From Stdlib Require Import ZArith.
From S2P Require Import Prelude GoLib.

(** ** Names *)
Record NamespacedName := { nn_ns : string; nn_name : string }.

#[export] Instance NamespacedName_eq_dec : EqDecision NamespacedName.
Proof. solve_decision. Defined.
#[export] Instance NamespacedName_countable : Countable NamespacedName.
Proof.
  by apply (inj_countable' (λ n, (nn_ns n, nn_name n)) (λ p, {| nn_ns := p.1; nn_name := p.2 |}));
    intros [].
Defined.

(** [types.NamespacedName.String()] *)
Definition nn_string (n : NamespacedName) : string := nn_ns n +:+ "/" +:+ nn_name n.

Record GroupKind := { gk_group : string; gk_kind : string }.
#[export] Instance GroupKind_eq_dec : EqDecision GroupKind.
Proof. solve_decision. Defined.

(** wellknown/gwapi.go, gateway-api's GroupName and the kinds the sources compare with. *)
Definition GatewayGroup : string := "gateway.networking.k8s.io".
Definition HTTPRouteKind : string := "HTTPRoute".
Definition ServiceKind : string := "Service".
Definition GatewayKind : string := "Gateway".
Definition GlooGroup : string := "gloo.solo.io".
Definition UpstreamKind : string := "Upstream".

Record ObjectMeta := {
  om_name : string;
  om_namespace : string;
  om_generation : Z;
  om_creation : Z; (** creation timestamp *)
  om_annotations : gmap string string
}.

Definition namespacedName (m : ObjectMeta) : NamespacedName :=
  {| nn_ns := om_namespace m; nn_name := om_name m |}.

(** ** Errors: the package-level sentinel errors, wrapping, and everything else *)
Inductive Err :=
| ErrMissingReferenceGrant
| ErrUnknownBackendKind
| ErrNoMatchingListenerHostname
| ErrNoMatchingParent
| ErrNotAllowedByListeners
| ErrLocalObjRefMissingKind
| ErrCyclicReference
| ErrUnresolvedReference
| ErrTypesNotEqual
| ErrNotFound (msg : string)             (** the API server's NotFound *)
| ErrWrap (msg : string) (inner : Err)   (** [fmt.Errorf("...%w", ...)] *)
| ErrWrapSuffix (inner : Err) (msg : string) (** [fmt.Errorf("%w: ...", ...)] *)
| ErrOther (msg : string).
#[export] Instance Err_eq_dec : EqDecision Err.
Proof. solve_decision. Defined.

(** [errors.Is(e, target)] for a sentinel target. *)
Fixpoint errors_is (e target : Err) : bool :=
  bool_decide (e = target) ||
  match e with ErrWrap _ i | ErrWrapSuffix i _ => errors_is i target | _ => false end.

(** [apierrors.IsNotFound(e)] *)
Fixpoint is_not_found (e : Err) : bool :=
  match e with
  | ErrNotFound _ => true
  | ErrWrap _ i | ErrWrapSuffix i _ => is_not_found i
  | _ => false
  end.

Fixpoint err_msg (e : Err) : string :=
  match e with
  | ErrMissingReferenceGrant => "missing reference grant"
  | ErrUnknownBackendKind => "unknown backend kind"
  | ErrNoMatchingListenerHostname => "no matching listener hostname"
  | ErrNoMatchingParent => "no matching parent"
  | ErrNotAllowedByListeners => "not allowed by listeners"
  | ErrLocalObjRefMissingKind => "localObjRef provided with empty kind"
  | ErrCyclicReference => "cyclic reference detected while evaluating delegated routes"
  | ErrUnresolvedReference => "unresolved reference"
  | ErrTypesNotEqual => "types not equal"
  | ErrNotFound m => m
  | ErrWrap m i => m +:+ err_msg i
  | ErrWrapSuffix i m => err_msg i +:+ ": " +:+ m
  | ErrOther m => m
  end.

(** A Go function that returns [(T, error)]. *)
Definition result (A : Type) : Type := (Err + A)%type.

(** ** Conditions (metav1.Condition) *)
Inductive ConditionStatus := ConditionTrue | ConditionFalse | ConditionUnknown.
#[export] Instance ConditionStatus_eq_dec : EqDecision ConditionStatus.
Proof. solve_decision. Defined.

Record Condition := {
  c_type : string;
  c_status : ConditionStatus;
  c_observedGeneration : Z;
  c_lastTransitionTime : Z;
  c_reason : string;
  c_message : string
}.

(** ** HTTPRoute *)
Record ParentReference := {
  pr_group : option string;
  pr_kind : option string;
  pr_namespace : option string;
  pr_name : string;
  pr_sectionName : option string;
  pr_port : option Z
}.
#[export] Instance ParentReference_eq_dec : EqDecision ParentReference.
Proof. solve_decision. Defined.

Inductive PathMatchType :=
| PathMatchExact | PathMatchPathPrefix | PathMatchRegularExpression
| PathMatchOther (s : string).
#[export] Instance PathMatchType_eq_dec : EqDecision PathMatchType.
Proof. solve_decision. Defined.

Record HTTPPathMatch := { pm_type : option PathMatchType; pm_value : option string }.

Inductive ValueMatchType := MatchExact | MatchRegularExpression | MatchOther (s : string).
#[export] Instance ValueMatchType_eq_dec : EqDecision ValueMatchType.
Proof. solve_decision. Defined.

Record HTTPHeaderMatch := {
  hm_type : option ValueMatchType; hm_name : string; hm_value : string }.
#[export] Instance HTTPHeaderMatch_eq_dec : EqDecision HTTPHeaderMatch.
Proof. solve_decision. Defined.

Record HTTPQueryParamMatch := {
  qm_type : option ValueMatchType; qm_name : string; qm_value : string }.
#[export] Instance HTTPQueryParamMatch_eq_dec : EqDecision HTTPQueryParamMatch.
Proof. solve_decision. Defined.

(** [P]: the representation of the [*HTTPPathMatch] pointee. *)
Record HTTPRouteMatch (P : Type) := {
  m_path : option P;
  m_headers : list HTTPHeaderMatch;
  m_queryParams : list HTTPQueryParamMatch;
  m_method : option string
}.
Arguments m_path {P}. Arguments m_headers {P}.
Arguments m_queryParams {P}. Arguments m_method {P}.
Arguments Build_HTTPRouteMatch {P}.

Record LocalObjectReference := { lr_group : string; lr_kind : string; lr_name : string }.

Record BackendObjectReference := {
  br_group : option string;
  br_kind : option string;
  br_name : string;
  br_namespace : option string;
  br_port : option Z
}.

Record HTTPHeader := { h_name : string; h_value : string }.
Record HTTPHeaderFilter := {
  hf_set : list HTTPHeader; hf_add : list HTTPHeader; hf_remove : list string }.

Inductive HTTPPathModifierType := FullPathHTTPPathModifier | PrefixMatchHTTPPathModifier
| PathModifierOther (s : string).
Record HTTPPathModifier := {
  pmod_type : HTTPPathModifierType;
  pmod_replaceFullPath : option string;
  pmod_replacePrefixMatch : option string
}.

Record HTTPRequestRedirectFilter := {
  rr_scheme : option string;
  rr_hostname : option string;
  rr_path : option HTTPPathModifier;
  rr_port : option Z;
  rr_statusCode : option Z
}.
Record HTTPURLRewriteFilter := {
  ur_hostname : option string; ur_path : option HTTPPathModifier }.

Inductive HTTPRouteFilterType :=
| FilterRequestHeaderModifier | FilterResponseHeaderModifier | FilterRequestRedirect
| FilterURLRewrite | FilterRequestMirror | FilterExtensionRef | FilterOther (s : string).
#[export] Instance HTTPRouteFilterType_eq_dec : EqDecision HTTPRouteFilterType.
Proof. solve_decision. Defined.

Record HTTPRouteFilter := {
  f_type : HTTPRouteFilterType;
  f_requestHeaderModifier : option HTTPHeaderFilter;
  f_responseHeaderModifier : option HTTPHeaderFilter;
  f_requestMirror : option BackendObjectReference;
  f_requestRedirect : option HTTPRequestRedirectFilter;
  f_urlRewrite : option HTTPURLRewriteFilter;
  f_extensionRef : option LocalObjectReference
}.

Record HTTPBackendRef := {
  hb_ref : BackendObjectReference;
  hb_weight : option Z;
  hb_filters : list HTTPRouteFilter
}.

Record HTTPRouteRule (P : Type) := {
  r_matches : option (list (HTTPRouteMatch P));
  r_filters : list HTTPRouteFilter;
  r_backendRefs : list HTTPBackendRef
}.
Arguments r_matches {P}. Arguments r_filters {P}. Arguments r_backendRefs {P}.
Arguments Build_HTTPRouteRule {P}.

Record RouteParentStatus := {
  rps_parentRef : ParentReference;
  rps_controllerName : string;
  rps_conditions : list Condition
}.

(** [R]: the representation of [spec.rules]. *)
Record HTTPRoute (R : Type) := {
  hr_meta : ObjectMeta;
  hr_parentRefs : list ParentReference;
  hr_hostnames : option (list string);
  hr_rules : R;
  hr_statusParents : list RouteParentStatus
}.
Arguments hr_meta {R}. Arguments hr_parentRefs {R}. Arguments hr_hostnames {R}.
Arguments hr_rules {R}. Arguments hr_statusParents {R}.
Arguments Build_HTTPRoute {R}.

(** The object as the API server stores it. *)
Definition KHTTPRoute : Type := HTTPRoute (list (HTTPRouteRule HTTPPathMatch)).

Definition hr_name {R} (h : HTTPRoute R) : string := om_name (hr_meta h).
Definition hr_namespace {R} (h : HTTPRoute R) : string := om_namespace (hr_meta h).
Definition hr_nn {R} (h : HTTPRoute R) : NamespacedName := namespacedName (hr_meta h).
(** [len(route.Spec.Hostnames)] and ranges over it do not distinguish nil from empty. *)
Definition hostnames_of {R} (h : HTTPRoute R) : list string := default [] (hr_hostnames h).

(** ** Gateway *)
Record LabelSelectorRequirement := {
  lsr_key : string; lsr_operator : string; lsr_values : list string }.
Record LabelSelector := {
  ls_matchLabels : list (string * string);
  ls_matchExpressions : list LabelSelectorRequirement
}.
Inductive FromNamespaces := NamespacesFromAll | NamespacesFromSame | NamespacesFromSelector
| NamespacesFromOther (s : string).
Record RouteNamespaces := {
  rn_from : option FromNamespaces; rn_selector : option LabelSelector }.
Record RouteGroupKind := { rgk_group : option string; rgk_kind : string }.
Record AllowedRoutes := {
  ar_namespaces : option RouteNamespaces; ar_kinds : option (list RouteGroupKind) }.

Record SecretObjectReference := {
  sr_group : option string; sr_kind : option string;
  sr_name : string; sr_namespace : option string }.
Inductive TLSMode := TLSModeTerminate | TLSModePassthrough | TLSModeOther (s : string).
#[export] Instance TLSMode_eq_dec : EqDecision TLSMode.
Proof. solve_decision. Defined.
Record GatewayTLSConfig := {
  tls_mode : option TLSMode; tls_certificateRefs : list SecretObjectReference }.

(** [ProtocolType] is an open string type. *)
Definition HTTPProtocolType : string := "HTTP".
Definition HTTPSProtocolType : string := "HTTPS".
Definition TLSProtocolType : string := "TLS".
Definition TCPProtocolType : string := "TCP".
Definition UDPProtocolType : string := "UDP".

Record Listener := {
  l_name : string;
  l_hostname : option string;
  l_port : Z;
  l_protocol : string;
  l_tls : option GatewayTLSConfig;
  l_allowedRoutes : option AllowedRoutes
}.

Record ListenerStatus := {
  ls_name : string;
  ls_supportedKinds : list RouteGroupKind;
  ls_attachedRoutes : Z;
  ls_conditions : list Condition
}.

Record GatewayStatus := { gs_conditions : list Condition; gs_listeners : list ListenerStatus }.

Record Gateway := {
  gw_meta : ObjectMeta;
  gw_listeners : list Listener;
  gw_status : GatewayStatus
}.
Definition gw_nn (g : Gateway) : NamespacedName := namespacedName (gw_meta g).

(** ** Gloo: matchers and routes of a Proxy *)
Record ResourceRef := { rf_name : string; rf_namespace : string }.
#[export] Instance ResourceRef_eq_dec : EqDecision ResourceRef.
Proof. solve_decision. Defined.

Inductive PathSpecifier := Prefix (s : string) | Exact (s : string) | Regex (s : string).
Record HeaderMatcher := { ghm_name : string; ghm_value : string; ghm_regex : bool }.
Record QueryParameterMatcher := { gqm_name : string; gqm_value : string; gqm_regex : bool }.
Record Matcher := {
  mt_path : option PathSpecifier;
  mt_headers : list HeaderMatcher;
  mt_queryParameters : list QueryParameterMatcher;
  mt_methods : list string
}.

Inductive DestinationSpec := DestAws (logicalName : string) | DestAzure (functionName : string).
Inductive DestinationType :=
| DestKube (ref : ResourceRef) (port : Z)
| DestUpstream (ref : ResourceRef).
Record Destination := { d_type : DestinationType; d_spec : option DestinationSpec }.
Record WeightedDestination := { wd_destination : Destination; wd_weight : Z }.

Inductive RedirectResponseCode :=
| MOVED_PERMANENTLY | FOUND | SEE_OTHER | TEMPORARY_REDIRECT | PERMANENT_REDIRECT.
Inductive PathRewriteSpecifier := PathRedirect (s : string) | PrefixRewrite (s : string).
Record RedirectAction := {
  ra_hostRedirect : string;
  ra_pathRewrite : option PathRewriteSpecifier;
  ra_responseCode : RedirectResponseCode;
  ra_httpsRedirect : bool;
  ra_portRedirect : option Z
}.

Inductive RouteActionDest :=
| Single (d : Destination)
| Multi (ds : list WeightedDestination).
Inductive Action :=
| ARouteAction (d : RouteActionDest)
| ARedirectAction (r : RedirectAction)
| ADirectResponseAction (status : Z) (body : string).

(** Header manipulation, the options the route filters write, and the remaining
    top-level fields of RouteOptions by name. *)
Record HeaderValueOption := { hv_key : string; hv_value : string; hv_append : bool }.
Record HeaderManipulation := {
  hman_requestAdd : list HeaderValueOption;
  hman_requestRemove : list string;
  hman_responseAdd : list HeaderValueOption;
  hman_responseRemove : list string
}.
Definition empty_header_manipulation : HeaderManipulation :=
  {| hman_requestAdd := []; hman_requestRemove := [];
     hman_responseAdd := []; hman_responseRemove := [] |}.

Record RegexMatchAndSubstitute := { rx_regex : string; rx_substitution : string }.

Inductive HostRewriteType := HostRewrite (s : string) | HostRewriteOther (s : string).
Record RouteOptions := {
  ro_hostRewrite : option HostRewriteType;
  ro_regexRewrite : option RegexMatchAndSubstitute;
  ro_prefixRewrite : option string;
  ro_headerManipulation : option HeaderManipulation;
  ro_shadowing : option ResourceRef; (** mirrored upstream, at 100 percent *)
  ro_other : gmap string string
}.
Definition empty_route_options : RouteOptions :=
  {| ro_hostRewrite := None; ro_regexRewrite := None; ro_prefixRewrite := None;
     ro_headerManipulation := None; ro_shadowing := None; ro_other := ∅ |}.

(** ** Policies: RouteOption, VirtualHostOption, ListenerOption, HttpListenerOption

    [O] is the type of [spec.options]; [pol_kind] is the kind the object itself carries. *)
Record PolicyTargetReference := {
  tr_group : string; tr_kind : string; tr_name : string; tr_namespace : option string;
  tr_sectionName : option string }.
Record Policy (O : Type) := {
  pol_meta : ObjectMeta;
  pol_kind : string;
  pol_targetRefs : list PolicyTargetReference;
  pol_options : option O
}.
Arguments pol_meta {O}. Arguments pol_kind {O}. Arguments pol_targetRefs {O}. Arguments pol_options {O}.
Arguments Build_Policy {O}.
Definition pol_nn {O} (p : Policy O) : NamespacedName := namespacedName (pol_meta p).

(** ** Objects a backend, secret or extension reference can resolve to *)
Inductive UpstreamType := UpstreamAws | UpstreamAzure | UpstreamOther.
Inductive KObj :=
| OService (m : ObjectMeta)
| OUpstream (m : ObjectMeta) (t : UpstreamType)
| OSecret (m : ObjectMeta) (data : gmap string string)
| ODirectResponse (m : ObjectMeta) (status : Z) (body : string)
| ORouteOption (p : Policy RouteOptions)
| OOther (m : ObjectMeta) (gotype : string).

Definition obj_meta (o : KObj) : ObjectMeta :=
  match o with
  | OService m | OUpstream m _ | OSecret m _ | ODirectResponse m _ _ | OOther m _ => m
  | ORouteOption p => pol_meta p
  end.
Definition obj_name (o : KObj) : string := om_name (obj_meta o).
Definition obj_namespace (o : KObj) : string := om_namespace (obj_meta o).

Record SourceRef := { src_ref : ResourceRef; src_kind : string; src_generation : Z }.

Record Route := {
  rt_matchers : list Matcher;
  rt_action : option Action;
  rt_options : RouteOptions;
  rt_name : string;
  rt_metadata : option (list SourceRef)
}.

Definition rt_set_action (a : option Action) (r : Route) : Route :=
  {| rt_matchers := rt_matchers r; rt_action := a; rt_options := rt_options r;
     rt_name := rt_name r; rt_metadata := rt_metadata r |}.
Definition rt_set_matchers (ms : list Matcher) (r : Route) : Route :=
  {| rt_matchers := ms; rt_action := rt_action r; rt_options := rt_options r;
     rt_name := rt_name r; rt_metadata := rt_metadata r |}.
Definition rt_set_options (o : RouteOptions) (r : Route) : Route :=
  {| rt_matchers := rt_matchers r; rt_action := rt_action r; rt_options := o;
     rt_name := rt_name r; rt_metadata := rt_metadata r |}.

(** ** translator/backendref/types.go *)
Module Backendref.
Definition RefIsService (ref : BackendObjectReference) : bool :=
  nil_or_is (br_kind ref) ServiceKind && nil_or_is (br_group ref) "".

Definition RefIsUpstream (ref : BackendObjectReference) : bool :=
  ptr_is (br_kind ref) UpstreamKind && ptr_is (br_group ref) GlooGroup.

Definition RefIsHTTPRoute (ref : BackendObjectReference) : bool :=
  ptr_is (br_kind ref) HTTPRouteKind && ptr_is (br_group ref) GatewayGroup.

Definition ToString (ref : BackendObjectReference) : string :=
  default "" (br_kind ref) +:+ "." +:+ default "" (br_group ref) +:+ " " +:+
  default "" (br_namespace ref) +:+ "/" +:+ br_name ref.

(** The three tests are mutually exclusive: the order of the switch in the translators
    does not matter. *)
Lemma ref_kinds_exclusive ref :
  (RefIsHTTPRoute ref = true → RefIsService ref = false ∧ RefIsUpstream ref = false) ∧
  (RefIsUpstream ref = true → RefIsService ref = false).
Proof.
  unfold RefIsHTTPRoute, RefIsService, RefIsUpstream, ptr_is, nil_or_is.
  destruct (br_kind ref) as [k|], (br_group ref) as [g|]; simpl; try done.
  - split; rewrite !andb_true_iff, !bool_decide_eq_true; intros [-> ->]; done.
  - split; rewrite andb_false_r; done.
Qed.
End Backendref.
