(* ===== verification/Reports.v ===== *)
(** * reports/reporter.go: the report map filled in during translation

    The Go reporters are pointers into the maps of one [ReportMap]; an entry is created
    when its reporter is requested and never replaced afterwards, so a reporter is modelled
    by the key of its entry and every operation passes the report map along. *)

From stdpp Require Import base gmap strings list.
From Stdlib Require Import ZArith.
From S2P Require Import Prelude GoLib GwApi.

Module Reports.

Record ParentRefKey := { pk_group : string; pk_kind : string; pk_nn : NamespacedName }.
#[export] Instance ParentRefKey_eq_dec : EqDecision ParentRefKey.
Proof. solve_decision. Defined.
#[export] Instance ParentRefKey_countable : Countable ParentRefKey.
Proof.
  by apply (inj_countable' (λ k, (pk_group k, pk_kind k, pk_nn k))
              (λ p, {| pk_group := p.1.1; pk_kind := p.1.2; pk_nn := p.2 |})); intros [].
Defined.

(** [ListenerReport] wraps a [ListenerStatus], [ParentRefReport] a list of conditions. *)
Abbreviation ListenerReport := ListenerStatus (only parsing).
Abbreviation ParentRefReport := (list Condition) (only parsing).

Record GatewayReport := {
  gr_conditions : list Condition;
  gr_listeners : gmap string ListenerReport;
  gr_observedGeneration : Z
}.
Record RouteReport := {
  rr_parents : gmap ParentRefKey ParentRefReport;
  rr_observedGeneration : Z
}.
Record ReportMap := {
  rm_gateways : gmap NamespacedName GatewayReport;
  rm_routes : gmap NamespacedName RouteReport
}.

Definition NewReportMap : ReportMap := {| rm_gateways := ∅; rm_routes := ∅ |}.

(** Conditions as the reporters create them: no generation, no transition time yet. *)
Definition report_condition (ty : string) (st : ConditionStatus) (reason msg : string) : Condition :=
  {| c_type := ty; c_status := st; c_observedGeneration := 0; c_lastTransitionTime := 0;
     c_reason := reason; c_message := msg |}.

(** Functional updates of the nested records. *)
Definition alter_gateway (f : GatewayReport → GatewayReport) (k : NamespacedName) (rm : ReportMap) : ReportMap :=
  {| rm_gateways := alter f k (rm_gateways rm); rm_routes := rm_routes rm |}.
Definition alter_route (f : RouteReport → RouteReport) (k : NamespacedName) (rm : ReportMap) : ReportMap :=
  {| rm_gateways := rm_gateways rm; rm_routes := alter f k (rm_routes rm) |}.
Definition gr_set_conditions (cs : list Condition) (g : GatewayReport) : GatewayReport :=
  {| gr_conditions := cs; gr_listeners := gr_listeners g;
     gr_observedGeneration := gr_observedGeneration g |}.
Definition gr_set_listeners (ls : gmap string ListenerReport) (g : GatewayReport) : GatewayReport :=
  {| gr_conditions := gr_conditions g; gr_listeners := ls;
     gr_observedGeneration := gr_observedGeneration g |}.
Definition rr_set_parents (ps : gmap ParentRefKey ParentRefReport) (r : RouteReport) : RouteReport :=
  {| rr_parents := ps; rr_observedGeneration := rr_observedGeneration r |}.
Definition ls_set_conditions (cs : list Condition) (l : ListenerStatus) : ListenerStatus :=
  {| ls_name := ls_name l; ls_supportedKinds := ls_supportedKinds l;
     ls_attachedRoutes := ls_attachedRoutes l; ls_conditions := cs |}.

(** ** ReportMap *)
Definition Gateway_report (g : Gateway) (rm : ReportMap) : option GatewayReport :=
  rm_gateways rm !! gw_nn g.

Definition newGatewayReport (g : Gateway) (rm : ReportMap) : ReportMap :=
  {| rm_gateways := <[gw_nn g := {| gr_conditions := []; gr_listeners := ∅;
       gr_observedGeneration := om_generation (gw_meta g) |}]> (rm_gateways rm);
     rm_routes := rm_routes rm |}.

Definition route_report {R} (h : HTTPRoute R) (rm : ReportMap) : option RouteReport :=
  rm_routes rm !! hr_nn h.

Definition newRouteReport {R} (h : HTTPRoute R) (rm : ReportMap) : ReportMap :=
  {| rm_gateways := rm_gateways rm;
     rm_routes := <[hr_nn h := {| rr_parents := ∅;
       rr_observedGeneration := om_generation (hr_meta h) |}]> (rm_routes rm) |}.

(** ** reporter.Gateway, reporter.Route: find or create *)
Definition reporter_Gateway (g : Gateway) (rm : ReportMap) : NamespacedName * ReportMap :=
  (gw_nn g, match Gateway_report g rm with
            | Some _ => rm
            | None => newGatewayReport g rm
            end).

Definition reporter_Route {R} (h : HTTPRoute R) (rm : ReportMap) : NamespacedName * ReportMap :=
  (hr_nn h, match route_report h rm with
            | Some _ => rm
            | None => newRouteReport h rm
            end).

(** ** GatewayReport *)
Definition NewListenerReport (name : string) : ListenerReport :=
  {| ls_name := name; ls_supportedKinds := []; ls_attachedRoutes := 0; ls_conditions := [] |}.

Definition listener_of (name : string) (g : GatewayReport) : ListenerReport * GatewayReport :=
  match gr_listeners g !! name with
  | Some lr => (lr, g)
  | None => let lr := NewListenerReport name in
            (lr, gr_set_listeners (<[name := lr]> (gr_listeners g)) g)
  end.

Definition ListenerReporter : Type := NamespacedName * string.

Definition GatewayReporter_Listener (k : NamespacedName) (l : Listener) (rm : ReportMap) :
    ListenerReporter * ReportMap :=
  ((k, l_name l), alter_gateway (λ g, (listener_of (l_name l) g).2) k rm).

Definition GatewayReporter_SetCondition (k : NamespacedName) (c : Condition) (rm : ReportMap) : ReportMap :=
  alter_gateway (λ g, gr_set_conditions (gr_conditions g ++ [c]) g) k rm.

(** ** ListenerReport *)
Definition alter_listener (f : ListenerReport → ListenerReport) (h : ListenerReporter) (rm : ReportMap) : ReportMap :=
  alter_gateway (λ g, gr_set_listeners (alter f h.2 (gr_listeners g)) g) h.1 rm.

Definition ListenerReporter_SetCondition (h : ListenerReporter) (c : Condition) : ReportMap → ReportMap :=
  alter_listener (λ l, ls_set_conditions (ls_conditions l ++ [c]) l) h.

Definition ListenerReporter_SetSupportedKinds (h : ListenerReporter) (ks : list RouteGroupKind) : ReportMap → ReportMap :=
  alter_listener (λ l, {| ls_name := ls_name l; ls_supportedKinds := ks;
                          ls_attachedRoutes := ls_attachedRoutes l;
                          ls_conditions := ls_conditions l |}) h.

(** [int32(n)] truncates. *)
Definition ListenerReporter_SetAttachedRoutes (h : ListenerReporter) (n : Z) : ReportMap → ReportMap :=
  alter_listener (λ l, {| ls_name := ls_name l; ls_supportedKinds := ls_supportedKinds l;
                          ls_attachedRoutes := wrap_i32 n;
                          ls_conditions := ls_conditions l |}) h.

(** ** RouteReport *)
Definition getParentRefKey (p : ParentReference) : ParentRefKey :=
  {| pk_group := default "" (pr_group p);
     pk_kind := default "" (pr_kind p);
     pk_nn := {| nn_ns := default "" (pr_namespace p); nn_name := pr_name p |} |}.

Definition parentRef_of (p : ParentReference) (r : RouteReport) : ParentRefReport * RouteReport :=
  let key := getParentRefKey p in
  match rr_parents r !! key with
  | Some prr => (prr, r)
  | None => ([], rr_set_parents (<[key := []]> (rr_parents r)) r)
  end.

(** [range r.parents]: the order is the map's. *)
Definition parentRefs `{!GoRange ParentRefKey} (r : RouteReport) : list ParentReference :=
  map (λ kv, {| pr_group := Some (pk_group kv.1); pr_kind := Some (pk_kind kv.1);
                pr_namespace := Some (nn_ns (pk_nn kv.1)); pr_name := nn_name (pk_nn kv.1);
                pr_sectionName := None; pr_port := None |}) (go_range (rr_parents r)).

Definition ParentRefReporter : Type := NamespacedName * ParentRefKey.

Definition RouteReporter_ParentRef (k : NamespacedName) (p : ParentReference) (rm : ReportMap) :
    ParentRefReporter * ReportMap :=
  ((k, getParentRefKey p), alter_route (λ r, (parentRef_of p r).2) k rm).

Definition ParentRefReporter_SetCondition (h : ParentRefReporter) (c : Condition) (rm : ReportMap) : ReportMap :=
  alter_route (λ r, rr_set_parents (alter (λ cs, cs ++ [c]) h.2 (rr_parents r)) r) h.1 rm.

(** [baseReporter.Route(r).ParentRef(p)] *)
Definition route_parent_reporter {R} (h : HTTPRoute R) (p : ParentReference) (rm : ReportMap) :
    ParentRefReporter * ReportMap :=
  let '(k, rm1) := reporter_Route h rm in RouteReporter_ParentRef k p rm1.

(** ** What a handle denotes *)
Definition parent_conditions (h : ParentRefReporter) (rm : ReportMap) : option (list Condition) :=
  rm_routes rm !! h.1 ≫= λ r, rr_parents r !! h.2.
Definition listener_report (h : ListenerReporter) (rm : ReportMap) : option ListenerReport :=
  rm_gateways rm !! h.1 ≫= λ g, gr_listeners g !! h.2.

(** A handle denotes an existing entry from the moment it is handed out. *)
Lemma route_parent_reporter_live {R} (h : HTTPRoute R) p rm :
  let '(hd, rm') := route_parent_reporter h p rm in is_Some (parent_conditions hd rm').
Proof.
  unfold route_parent_reporter, reporter_Route, RouteReporter_ParentRef, parent_conditions; simpl.
  rewrite lookup_alter_eq.
  assert (is_Some (rm_routes (match route_report h rm with
    Some _ => rm | None => newRouteReport h rm end) !! hr_nn h)) as [r ->].
  { unfold route_report. destruct (rm_routes rm !! hr_nn h) eqn:E; [by eauto|].
    simpl. rewrite lookup_insert_eq. eauto. }
  simpl. unfold parentRef_of.
  destruct (rr_parents r !! getParentRefKey p) eqn:E; simpl; [by eauto|].
  rewrite lookup_insert_eq. eauto.
Qed.

(** A condition set through a handle is appended to the handle's own entry. *)
Lemma parent_set_condition_same h c rm cs :
  parent_conditions h rm = Some cs →
  parent_conditions h (ParentRefReporter_SetCondition h c rm) = Some (cs ++ [c]).
Proof.
  unfold parent_conditions. simpl. rewrite lookup_alter_eq.
  destruct (rm_routes rm !! h.1) as [r|]; simpl; [|done].
  intros E. by rewrite lookup_alter_eq, E.
Qed.

Lemma parent_set_condition_other h h' c rm :
  h ≠ h' →
  parent_conditions h' (ParentRefReporter_SetCondition h c rm) = parent_conditions h' rm.
Proof.
  unfold parent_conditions. simpl. intros Hne. rewrite lookup_alter.
  case_decide as Hk; [|done].
  rewrite <-Hk. destruct (rm_routes rm !! h.1) as [r|]; simpl; [|done].
  rewrite lookup_alter_ne; [done|]. destruct h, h'; naive_solver.
Qed.

Lemma listener_set_condition_same h c rm lr :
  listener_report h rm = Some lr →
  listener_report h (ListenerReporter_SetCondition h c rm) =
    Some (ls_set_conditions (ls_conditions lr ++ [c]) lr).
Proof.
  unfold listener_report. simpl. rewrite lookup_alter_eq.
  destruct (rm_gateways rm !! h.1) as [g|]; simpl; [|done].
  intros E. by rewrite lookup_alter_eq, E.
Qed.

Lemma alter_listener_other f h h' rm :
  h ≠ h' → listener_report h' (alter_listener f h rm) = listener_report h' rm.
Proof.
  unfold listener_report. simpl. intros Hne. rewrite lookup_alter.
  case_decide as Hk; [|done].
  rewrite <-Hk. destruct (rm_gateways rm !! h.1) as [g|]; simpl; [|done].
  rewrite lookup_alter_ne; [done|]. destruct h, h'; naive_solver.
Qed.
End Reports.
