(* ===== verification/Status.v ===== *)
(** * reports/status.go: the statuses built from a report map

    [BuildGWStatus] and [BuildRouteStatus] complete a report with the healthy conditions
    it lacks and merge it with the conditions already stored on the object, so that an
    unchanged condition keeps its transition time. *)

From stdpp Require Import base gmap strings list.
From Stdlib Require Import ZArith Lia.
From S2P Require Import Prelude GoLib GwApi Reports.

Import Reports.

Definition with_time (t : Z) (c : Condition) : Condition :=
  {| c_type := c_type c; c_status := c_status c; c_observedGeneration := c_observedGeneration c;
     c_lastTransitionTime := t; c_reason := c_reason c; c_message := c_message c |}.
Definition with_generation (g : Z) (c : Condition) : Condition :=
  {| c_type := c_type c; c_status := c_status c; c_observedGeneration := g;
     c_lastTransitionTime := c_lastTransitionTime c; c_reason := c_reason c;
     c_message := c_message c |}.
Definition types (cs : list Condition) : list string := c_type <$> cs.

(** ** k8s.io/apimachinery/pkg/api/meta

    The two functions are library code: the model takes them as an interface with their
    documented behaviour. [SetStatusCondition] updates the first condition of the type,
    keeping its transition time when the status is unchanged, and appends otherwise. *)
Class ApiMeta := {
  FindStatusCondition : list Condition → string → option Condition;
  SetStatusCondition : Z → list Condition → Condition → list Condition;
  find_some : ∀ cs t c, FindStatusCondition cs t = Some c → c ∈ cs ∧ c_type c = t;
  find_none : ∀ cs t, FindStatusCondition cs t = None ↔ t ∉ types cs;
  set_absent : ∀ now cs c, c_type c ∉ types cs →
    ∃ t, SetStatusCondition now cs c = cs ++ [with_time t c];
  set_present : ∀ now pre old post c,
    c_type old = c_type c → c_type c ∉ types pre →
    ∃ t, SetStatusCondition now (pre ++ old :: post) c = pre ++ with_time t c :: post ∧
         (c_status old = c_status c → t = c_lastTransitionTime old)
}.

(** An implementation of the interface (the library's own algorithm). *)
Definition find_status_condition (cs : list Condition) (t : string) : option Condition :=
  List.find (λ c, bool_decide (c_type c = t)) cs.
Fixpoint set_status_condition (now : Z) (cs : list Condition) (c : Condition) : list Condition :=
  match cs with
  | [] => [with_time (if bool_decide (c_lastTransitionTime c = 0%Z) then now else c_lastTransitionTime c) c]
  | o :: cs' =>
      if bool_decide (c_type o = c_type c) then
        with_time (if bool_decide (c_status o = c_status c) then c_lastTransitionTime o
                   else if bool_decide (c_lastTransitionTime c = 0%Z) then now
                   else c_lastTransitionTime c) c :: cs'
      else o :: set_status_condition now cs' c
  end.

Program Definition api_meta : ApiMeta :=
  {| FindStatusCondition := find_status_condition; SetStatusCondition := set_status_condition |}.
Next Obligation.
  intros cs t c H. apply List.find_some in H as [Hin Ht].
  apply bool_decide_eq_true in Ht. by rewrite list_elem_of_In.
Qed.
Next Obligation.
  intros cs t. unfold find_status_condition. induction cs as [|o cs IH]; simpl; [set_solver|].
  case_bool_decide; set_solver.
Qed.
Next Obligation.
  intros now cs c. induction cs as [|o cs IH]; simpl; intros Hc; [by eauto|].
  rewrite bool_decide_false by set_solver.
  destruct IH as [t ->]; [set_solver|]. by exists t.
Qed.
Next Obligation.
  intros now pre old post c Ho. induction pre as [|o pre IH]; simpl; intros Hc.
  - rewrite bool_decide_true by done. eexists; split; [done|].
    intros E. by rewrite bool_decide_true.
  - rewrite bool_decide_false by set_solver.
    destruct IH as (t & -> & Ht); [set_solver|]. by exists t.
Qed.

Module Status.
Section Build.
Context `{AM : ApiMeta} `{!GoRange ParentRefKey}.
Variable now : Z.

(** ** Healthy conditions for the types a report does not mention *)
Definition add_missing (ty reason : string) (st : ConditionStatus) (cs : list Condition) : list Condition :=
  match FindStatusCondition cs ty with
  | Some _ => cs
  | None => cs ++ [report_condition ty st reason ""]
  end.

Definition addMissingGatewayConditions (cs : list Condition) : list Condition :=
  add_missing "Programmed" "Programmed" ConditionTrue
    (add_missing "Accepted" "Accepted" ConditionTrue cs).

Definition addMissingListenerConditions (cs : list Condition) : list Condition :=
  add_missing "Programmed" "Programmed" ConditionTrue
    (add_missing "ResolvedRefs" "ResolvedRefs" ConditionTrue
      (add_missing "Conflicted" "NoConflicts" ConditionFalse
        (add_missing "Accepted" "Accepted" ConditionTrue cs))).

Definition addMissingParentRefConditions (cs : list Condition) : list Condition :=
  add_missing "ResolvedRefs" "ResolvedRefs" ConditionTrue
    (add_missing "Accepted" "Accepted" ConditionTrue cs).

(** ** The loop shared by the three kinds of status: for each reported condition, copy
    the stored one (if any) and let SetStatusCondition overwrite it *)
Definition merge_step (gen : Z) (old : list Condition) (final : list Condition) (c : Condition) : list Condition :=
  let c := with_generation gen c in
  let final := match FindStatusCondition old (c_type c) with
               | Some o => final ++ [o]
               | None => final
               end in
  SetStatusCondition now final c.

Definition merge_conditions (gen : Z) (old report : list Condition) : list Condition :=
  foldl (merge_step gen old) [] report.

(** ** BuildGWStatus *)
Definition old_listener_conditions (g : Gateway) (name : string) : list Condition :=
  match List.find (λ l, bool_decide (ls_name l = name)) (gs_listeners (gw_status g)) with
  | Some l => ls_conditions l
  | None => []
  end.

(** One listener of the spec: its report is completed, merged and stored back. *)
Definition build_listener (g : Gateway) (acc : list ListenerStatus * GatewayReport) (lis : Listener) :
    list ListenerStatus * GatewayReport :=
  let '(final, gr) := acc in
  let '(lr, gr) := listener_of (l_name lis) gr in
  let reported := addMissingListenerConditions (ls_conditions lr) in
  let conds := merge_conditions (gr_observedGeneration gr)
                 (old_listener_conditions g (l_name lis)) reported in
  let lr := ls_set_conditions conds lr in
  (final ++ [lr], gr_set_listeners (<[l_name lis := lr]> (gr_listeners gr)) gr).

Definition BuildGWStatus (g : Gateway) (rm : ReportMap) : option GatewayStatus * ReportMap :=
  match Gateway_report g rm with
  | None => (None, rm)
  | Some gr =>
      let '(listeners, gr) := foldl (build_listener g) ([], gr) (gw_listeners g) in
      let gr := gr_set_conditions (addMissingGatewayConditions (gr_conditions gr)) gr in
      let conds := merge_conditions (gr_observedGeneration gr)
                     (gs_conditions (gw_status g)) (gr_conditions gr) in
      (Some {| gs_conditions := conds; gs_listeners := listeners |},
       {| rm_gateways := <[gw_nn g := gr]> (rm_gateways rm); rm_routes := rm_routes rm |})
  end.

(** ** BuildRouteStatus *)
Definition old_parent_conditions {R} (h : HTTPRoute R) (p : ParentReference) : list Condition :=
  match List.find (λ s, bool_decide (rps_parentRef s = p)) (hr_statusParents h) with
  | Some s => rps_conditions s
  | None => []
  end.

Definition build_parent {R} (h : HTTPRoute R) (cName : string)
    (acc : list RouteParentStatus * RouteReport) (p : ParentReference) :
    list RouteParentStatus * RouteReport :=
  let '(final, rr) := acc in
  let '(prr, rr) := parentRef_of p rr in
  let prr := addMissingParentRefConditions prr in
  let rr := rr_set_parents (<[getParentRefKey p := prr]> (rr_parents rr)) rr in
  (final ++ [{| rps_parentRef := p; rps_controllerName := cName;
                rps_conditions := merge_conditions (rr_observedGeneration rr)
                                    (old_parent_conditions h p) prr |}], rr).

(** [spec.parentRefs], or those of the report for a delegatee that names none. *)
Definition status_parent_refs {R} (h : HTTPRoute R) (rr : RouteReport) : list ParentReference :=
  match hr_parentRefs h with
  | [] => parentRefs rr
  | refs => refs
  end.

Definition BuildRouteStatus {R} (h : HTTPRoute R) (cName : string) (rm : ReportMap) :
    option (list RouteParentStatus) * ReportMap :=
  match route_report h rm with
  | None => (None, rm)
  | Some rr =>
      let '(parents, rr) := foldl (build_parent h cName) ([], rr) (status_parent_refs h rr) in
      (Some parents,
       {| rm_gateways := rm_gateways rm; rm_routes := <[hr_nn h := rr]> (rm_routes rm) |})
  end.

(** ** Healthy conditions *)
Lemma add_missing_types ty reason st cs :
  types (add_missing ty reason st cs) = types cs ∨
  ((ty ∉ types cs) ∧ types (add_missing ty reason st cs) = types cs ++ [ty]).
Proof.
  unfold add_missing. destruct (FindStatusCondition cs ty) eqn:E; [by left|right].
  apply find_none in E. unfold types in *. by rewrite fmap_app.
Qed.

Lemma add_missing_in ty reason st cs : ty ∈ types (add_missing ty reason st cs).
Proof.
  unfold add_missing. destruct (FindStatusCondition cs ty) eqn:E.
  - apply find_some in E as [? <-]. by apply list_elem_of_fmap_2.
  - unfold types. rewrite fmap_app. set_solver.
Qed.

Lemma add_missing_mono ty reason st cs t :
  t ∈ types cs → t ∈ types (add_missing ty reason st cs).
Proof. destruct (add_missing_types ty reason st cs) as [->|[_ ->]]; set_solver. Qed.

Lemma add_missing_nodup ty reason st cs :
  NoDup (types cs) → NoDup (types (add_missing ty reason st cs)).
Proof.
  destruct (add_missing_types ty reason st cs) as [->|[? ->]]; [done|].
  intros. apply NoDup_app. split_and!; [done|set_solver|apply NoDup_singleton].
Qed.

Lemma add_missing_present ty reason st cs :
  ty ∈ types cs → add_missing ty reason st cs = cs.
Proof.
  unfold add_missing. intros. destruct (FindStatusCondition cs ty) eqn:E; [done|].
  by apply find_none in E.
Qed.

Lemma add_missing_incl ty reason st cs c : c ∈ cs → c ∈ add_missing ty reason st cs.
Proof. unfold add_missing. destruct (FindStatusCondition cs ty); set_solver. Qed.

Hint Resolve add_missing_in add_missing_mono add_missing_nodup add_missing_incl : gw.

Lemma parent_conditions_complete cs :
  "Accepted" ∈ types (addMissingParentRefConditions cs) ∧
  "ResolvedRefs" ∈ types (addMissingParentRefConditions cs).
Proof. unfold addMissingParentRefConditions. eauto with gw. Qed.

Lemma parent_conditions_idemp cs :
  addMissingParentRefConditions (addMissingParentRefConditions cs) =
  addMissingParentRefConditions cs.
Proof.
  pose proof (parent_conditions_complete cs) as [H1 H2].
  unfold addMissingParentRefConditions at 1.
  rewrite (add_missing_present "Accepted") by done. by rewrite add_missing_present.
Qed.

Lemma listener_conditions_complete cs t :
  t ∈ ["Accepted"; "Conflicted"; "ResolvedRefs"; "Programmed"] →
  t ∈ types (addMissingListenerConditions cs).
Proof.
  unfold addMissingListenerConditions. rewrite !elem_of_cons, elem_of_nil.
  intros [->|[->|[->|[->|[]]]]]; eauto 6 with gw.
Qed.

Lemma parent_conditions_nodup cs :
  NoDup (types cs) → NoDup (types (addMissingParentRefConditions cs)).
Proof. unfold addMissingParentRefConditions. eauto with gw. Qed.
Lemma listener_conditions_nodup cs :
  NoDup (types cs) → NoDup (types (addMissingListenerConditions cs)).
Proof. unfold addMissingListenerConditions. eauto with gw. Qed.
Lemma gateway_conditions_nodup cs :
  NoDup (types cs) → NoDup (types (addMissingGatewayConditions cs)).
Proof. unfold addMissingGatewayConditions. eauto with gw. Qed.

(** ** Merging *)

(** [f] publishes the reported condition [c]: all its fields, the report's generation,
    and the stored transition time when the stored condition had the same status. *)
Definition published (gen : Z) (old : list Condition) (c f : Condition) : Prop :=
  f = with_time (c_lastTransitionTime f) (with_generation gen c) ∧
  ∀ o, FindStatusCondition old (c_type c) = Some o → c_status o = c_status c →
       c_lastTransitionTime f = c_lastTransitionTime o.

Lemma published_types gen old cs fs :
  Forall2 (published gen old) cs fs → types fs = types cs.
Proof. induction 1 as [|c f cs fs [-> _]]; simpl; congruence. Qed.

Lemma merge_step_new gen old final c :
  c_type c ∉ types final →
  ∃ f, merge_step gen old final c = final ++ [f] ∧ published gen old c f.
Proof.
  intros Hc. unfold merge_step; simpl.
  destruct (FindStatusCondition old (c_type c)) as [o|] eqn:Eo.
  - pose proof (find_some _ _ _ Eo) as [_ Ho].
    destruct (set_present now final o [] (with_generation gen c)) as (t & -> & Ht); [done..|].
    eexists; split; [done|]. split; [done|].
    simpl. rewrite Eo. intros ? [= <-] Hst. by apply Ht.
  - destruct (set_absent now final (with_generation gen c)) as (t & ->); [done|].
    eexists; split; [done|]. split; [done|]. simpl. by rewrite Eo.
Qed.

Lemma merge_foldl_distinct gen old report final pre :
  Forall2 (published gen old) pre final → NoDup (types (pre ++ report)) →
  Forall2 (published gen old) (pre ++ report) (foldl (merge_step gen old) final report).
Proof.
  revert final pre. induction report as [|c report IH]; intros final pre HF Hnd; simpl.
  { by rewrite app_nil_r. }
  destruct (merge_step_new gen old final c) as (f & -> & Hf).
  { rewrite (published_types _ _ _ _ HF). unfold types in *.
    rewrite fmap_app, NoDup_app in Hnd. set_solver. }
  replace (pre ++ c :: report) with ((pre ++ [c]) ++ report) in * by by rewrite <-app_assoc.
  apply IH; [|done]. apply Forall2_app; [done|by constructor].
Qed.

Lemma merge_conditions_distinct gen old report :
  NoDup (types report) →
  Forall2 (published gen old) report (merge_conditions gen old report).
Proof. intros. by apply (merge_foldl_distinct gen old report [] []). Qed.

Lemma first_occurrence cs t :
  t ∈ types cs → ∃ pre o post, cs = pre ++ o :: post ∧ c_type o = t ∧ t ∉ types pre.
Proof.
  induction cs as [|c cs IH]; simpl; [set_solver|]. intros Hin.
  destruct (decide (c_type c = t)) as [Ht|Hne].
  - exists [], c, cs. split_and!; [done..|set_solver].
  - destruct IH as (pre & o & post & -> & Ho & Hpre); [set_solver|].
    exists (c :: pre), o, post. split_and!; [done..|set_solver].
Qed.

Lemma set_types cs c :
  types (SetStatusCondition now cs c) =
    if decide (c_type c ∈ types cs) then types cs else types cs ++ [c_type c].
Proof.
  case_decide as Hin.
  - apply first_occurrence in Hin as (pre & o & post & -> & Ho & Hpre).
    destruct (set_present now pre o post c) as (t & -> & _); [done..|].
    unfold types. rewrite !fmap_app. simpl. by rewrite Ho.
  - destruct (set_absent now cs c Hin) as (t & ->). unfold types. by rewrite fmap_app.
Qed.

Definition count_type (t : string) (cs : list Condition) : nat :=
  count_occ String.eq_dec (types cs) t.

Lemma count_type_0 t cs : t ∉ types cs → count_type t cs = 0.
Proof. intros. apply count_occ_not_In. by rewrite <-list_elem_of_In. Qed.

Lemma count_type_pos t cs : t ∈ types cs → 0 < count_type t cs.
Proof. intros. apply count_occ_In. by rewrite <-list_elem_of_In. Qed.

Lemma merge_step_count gen old final c t :
  count_type t (merge_step gen old final c) =
    if decide (t = c_type c) then
      if decide (t ∈ types old) then S (count_type t final) else Nat.max 1 (count_type t final)
    else count_type t final.
Proof.
  unfold merge_step, count_type. rewrite set_types. simpl.
  assert (∀ l, count_occ String.eq_dec (l ++ [c_type c]) t =
    count_occ String.eq_dec l t + if decide (t = c_type c) then 1 else 0) as Happ.
  { intros l. rewrite count_occ_app. simpl.
    destruct (String.eq_dec (c_type c) t); case_decide; congruence || done. }
  destruct (FindStatusCondition old (c_type c)) as [o|] eqn:Eo.
  - apply find_some in Eo as [Hin Ho].
    assert (c_type c ∈ types old) by (rewrite <-Ho; by apply list_elem_of_fmap_2).
    assert (types (final ++ [o]) = types final ++ [c_type c]) as E
      by (unfold types; by rewrite fmap_app, <-Ho).
    rewrite E, decide_True by set_solver. rewrite Happ.
    repeat case_decide; simplify_eq; lia || done.
  - apply find_none in Eo. destruct (decide (c_type c ∈ types final)) as [Hin|Hin].
    + case_decide; [|done]. simplify_eq. rewrite decide_False by done.
      apply count_type_pos in Hin. unfold count_type in Hin. lia.
    + rewrite Happ. case_decide; [|lia]. simplify_eq. rewrite decide_False by done.
      apply count_type_0 in Hin. unfold count_type in Hin. lia.
Qed.

Lemma merge_foldl_count gen old t report final :
  count_type t (foldl (merge_step gen old) final report) =
    if decide (t ∈ types old) then count_type t final + count_type t report
    else Nat.max (count_type t final) (Nat.min 1 (count_type t report)).
Proof.
  revert final. induction report as [|c report IH]; intros final; simpl.
  { change (count_type t []) with 0. case_decide; lia. }
  rewrite IH, merge_step_count. clear IH.
  assert (count_type t (c :: report) =
    (if decide (t = c_type c) then 1 else 0) + count_type t report) as ->.
  { unfold count_type. simpl.
    destruct (String.eq_dec (c_type c) t); case_decide; congruence || done. }
  destruct (decide (t ∈ types old)), (decide (t = c_type c)); destruct (count_type t report); simpl; lia.
Qed.

Lemma merge_conditions_count_eq gen old report t :
  count_type t (merge_conditions gen old report) =
    if decide (t ∈ types old) then count_type t report
    else Nat.min 1 (count_type t report).
Proof.
  unfold merge_conditions. rewrite merge_foldl_count.
  change (count_type t []) with 0. case_decide; lia.
Qed.
(** How often a condition type occurs in a published list: a type already present
    on the stored object occurs once per report of it, so a report that mentions such a
    type twice (two failing backends of one route) publishes a duplicate, stale entry;
    a type not yet stored is published exactly once however often it was reported. *)
Theorem merge_conditions_count gen old report t :
  count_type t (merge_conditions gen old report) =
    if decide (t ∈ types old) then count_type t report
    else Nat.min 1 (count_type t report).
Proof. apply merge_conditions_count_eq. Qed.

(** The first entry of a type in a published list is the last one reported. *)
Definition of_type (t : string) (c : Condition) : bool := bool_decide (c_type c = t).
Definition entry (gen : Z) (c : option Condition) (f : option Condition) : Prop :=
  match c with
  | Some c => ∃ time, f = Some (with_time time (with_generation gen c))
  | None => f = None
  end.
Lemma find_type_absent t cs : t ∉ types cs → List.find (of_type t) cs = None.
Proof. rewrite find_none_elem. intros Ht c Hc. apply bool_decide_eq_false_2. intros <-. apply Ht. by apply list_elem_of_fmap_2. Qed.
Lemma set_first cs c : ∃ time, ∀ t, List.find (of_type t) (SetStatusCondition now cs c) =
  if decide (c_type c = t) then Some (with_time time c) else List.find (of_type t) cs.
Proof.
  assert (∀ time t, of_type t (with_time time c) = bool_decide (c_type c = t)) as Hof by done.
  destruct (decide (c_type c ∈ types cs)) as [Hin|Hin].
  - apply first_occurrence in Hin as (pre & o & post & -> & Ho & Hpre). destruct (set_present now pre o post c) as (time & -> & _); [done..|].
    exists time. intros t. rewrite !find_app. cbn. rewrite Hof. assert (of_type t o = bool_decide (c_type c = t)) as -> by (unfold of_type; by rewrite Ho).
    case_decide; case_bool_decide; try done. subst t. by rewrite find_type_absent.
  - destruct (set_absent now cs c Hin) as (time & ->). exists time. intros t. rewrite find_app. cbn. rewrite Hof.
    case_decide as Ht; case_bool_decide; try done; [subst t; by rewrite find_type_absent|]. by destruct (List.find _ cs).
Qed.
Lemma merge_step_first gen old final c : ∃ time, ∀ t, List.find (of_type t) (merge_step gen old final c) =
  if decide (c_type c = t) then Some (with_time time (with_generation gen c)) else List.find (of_type t) final.
Proof.
  unfold merge_step. cbn. destruct (set_first (match FindStatusCondition old (c_type c) with Some o => final ++ [o] | None => final end) (with_generation gen c)) as (time & E).
  exists time. intros t. rewrite E. cbn. case_decide as Ht; [done|]. destruct (FindStatusCondition old (c_type c)) as [o|] eqn:Eo; [|done].
  rewrite find_app. cbn. apply find_some in Eo as [_ Eo]. unfold of_type at 2. rewrite Eo, bool_decide_eq_false_2 by done. by destruct (List.find _ final).
Qed.
Lemma merge_conditions_first gen old report t :
  entry gen (List.find (of_type t) (rev report)) (List.find (of_type t) (merge_conditions gen old report)).
Proof.
  unfold merge_conditions. induction report as [|c report IH] using rev_ind; [done|]. rewrite foldl_app, rev_app_distr. cbn.
  destruct (merge_step_first gen old (foldl (merge_step gen old) [] report) c) as (time & ->). unfold of_type at 1.
  case_decide; case_bool_decide; try done. cbn. by eexists.
Qed.

(** ** Route status *)
(** The healthy conditions of the mandatory types that are not reported. *)
Definition healthy_missing (cs : list Condition) : list Condition :=
  List.filter (λ c, negb (bool_decide (c_type c ∈ types cs)))
    [report_condition "Accepted" ConditionTrue "Accepted" ""; report_condition "ResolvedRefs" ConditionTrue "ResolvedRefs" ""].
Definition parent_report (rr : RouteReport) (p : ParentReference) : list Condition := default [] (rr_parents rr !! getParentRefKey p).
Definition reported (rr : RouteReport) (p : ParentReference) : list Condition := addMissingParentRefConditions (parent_report rr p).
Lemma add_missing_eq ty reason st cs :
  add_missing ty reason st cs = cs ++ if bool_decide (ty ∈ types cs) then [] else [report_condition ty st reason ""].
Proof.
  unfold add_missing. destruct (FindStatusCondition cs ty) as [c|] eqn:E.
  - apply find_some in E as [Hc <-]. rewrite bool_decide_eq_true_2 by by apply list_elem_of_fmap_2. by rewrite app_nil_r.
  - apply find_none in E. by rewrite bool_decide_eq_false_2.
Qed.
Lemma reported_eq rr p : reported rr p = parent_report rr p ++ healthy_missing (parent_report rr p).
Proof.
  unfold reported, addMissingParentRefConditions, healthy_missing. set (cs := parent_report rr p). rewrite !add_missing_eq, <-(assoc_L (++)). f_equal.
  cbn -[types]. set (add := if bool_decide ("Accepted" ∈ types cs) then [] else [report_condition "Accepted" ConditionTrue "Accepted" ""]).
  assert (bool_decide ("ResolvedRefs" ∈ types (cs ++ add)) = bool_decide ("ResolvedRefs" ∈ types cs)) as ->.
  { apply bool_decide_ext. unfold types. rewrite fmap_app, elem_of_app. split; [|by left]. intros [?|Hin]; [done|]. unfold add in Hin. case_bool_decide; set_solver. }
  unfold add. repeat case_bool_decide; done.
Qed.

Definition parent_status {R} (h : HTTPRoute R) (cName : string) (rr : RouteReport) (p : ParentReference) : RouteParentStatus :=
  {| rps_parentRef := p; rps_controllerName := cName;
     rps_conditions := merge_conditions (rr_observedGeneration rr)
                         (old_parent_conditions h p) (reported rr p) |}.

Lemma build_parent_step {R} (h : HTTPRoute R) cName final rr p :
  ∃ rr', build_parent h cName (final, rr) p = (final ++ [parent_status h cName rr p], rr') ∧
    rr_observedGeneration rr' = rr_observedGeneration rr ∧
    (∀ q, reported rr' q = reported rr q).
Proof.
  unfold build_parent, parent_status, parentRef_of.
  destruct (rr_parents rr !! getParentRefKey p) as [cs|] eqn:E; simpl;
    (eexists; split; [unfold reported, parent_report; by rewrite E|]; split; [done|]);
    intros q; unfold reported, parent_report; simpl;
    (destruct (decide (getParentRefKey p = getParentRefKey q)) as [<-|Hne];
     [by rewrite lookup_insert_eq, E; simpl; rewrite parent_conditions_idemp|]);
    by rewrite !lookup_insert_ne by done.
Qed.

Lemma parent_status_proper {R} (h : HTTPRoute R) cName rr rr' p :
  rr_observedGeneration rr' = rr_observedGeneration rr →
  (∀ q, reported rr' q = reported rr q) →
  parent_status h cName rr' p = parent_status h cName rr p.
Proof. intros Hg Hr. unfold parent_status. by rewrite Hg, Hr. Qed.

Lemma build_parents {R} (h : HTTPRoute R) cName refs final rr :
  ∃ rr', foldl (build_parent h cName) (final, rr) refs =
           (final ++ map (parent_status h cName rr) refs, rr') ∧
    rr_observedGeneration rr' = rr_observedGeneration rr ∧
    (∀ q, reported rr' q = reported rr q).
Proof.
  revert final rr. induction refs as [|p refs IH]; intros final rr; cbn [foldl map].
  { exists rr. by rewrite app_nil_r. }
  destruct (build_parent_step h cName final rr p) as (rr1 & -> & Hg1 & Hr1).
  destruct (IH (final ++ [parent_status h cName rr p]) rr1) as (rr2 & -> & Hg2 & Hr2).
  exists rr2. split_and!; [|congruence|congruence].
  rewrite <-app_assoc. simpl. do 3 f_equal. apply map_ext. intros. by apply parent_status_proper.
Qed.

(** C29. [BuildRouteStatus] publishes, for a route with a report, one parent status per
    parentRef of the spec (or of the report when the spec names none), in order. It is made
    of the conditions reported for the parent and a healthy Accepted and ResolvedRefs where
    these are not reported: the first entry of a type has the status, reason and message
    of the last report of it and the report's generation. A type that is not stored on the
    route occurs once however often it is reported; one that is stored occurs once per
    report, so that two failing references publish it twice. When the report for the parent
    mentions each type at most once, the conditions are exactly the reported ones in order,
    each with its stored transition time if its status did not change, and no type occurs
    twice. *)
Theorem build_route_status_correct {R} (h : HTTPRoute R) cName rm rr :
  route_report h rm = Some rr →
  ∃ parents, (BuildRouteStatus h cName rm).1 = Some parents ∧
    Forall2 (λ p s,
      let report := parent_report rr p ++ healthy_missing (parent_report rr p) in
      let old := old_parent_conditions h p in
      rps_parentRef s = p ∧ rps_controllerName s = cName ∧
      (∀ t, entry (rr_observedGeneration rr) (List.find (of_type t) (rev report)) (List.find (of_type t) (rps_conditions s))) ∧
      (∀ t, count_type t (rps_conditions s) = if decide (t ∈ types old) then count_type t report else Nat.min 1 (count_type t report)) ∧
      "Accepted" ∈ types report ∧ "ResolvedRefs" ∈ types report ∧
      (NoDup (types (parent_report rr p)) →
        Forall2 (published (rr_observedGeneration rr) old) report (rps_conditions s) ∧ NoDup (types (rps_conditions s))))
      (status_parent_refs h rr) parents.
Proof.
  intros Hrr. unfold BuildRouteStatus. rewrite Hrr.
  destruct (build_parents h cName (status_parent_refs h rr) [] rr) as (rr' & -> & _).
  eexists; split; [done|]. simpl. apply Forall2_fmap_r, Forall_Forall2_diag, Forall_true.
  intros p. unfold parent_status. cbn. rewrite <-reported_eq. unfold reported. split_and!; [done|done| | |apply parent_conditions_complete..|].
  - intros t. apply merge_conditions_first.
  - intros t. apply merge_conditions_count_eq.
  - intros Hp%parent_conditions_nodup. pose proof (merge_conditions_distinct (rr_observedGeneration rr) (old_parent_conditions h p) _ Hp) as Hm.
    split; [done|]. by rewrite <-(published_types _ _ _ _ Hm) in Hp.
Qed.

(** ** Gateway status *)
Definition listener_status (g : Gateway) (gr : GatewayReport) (lis : Listener) : ListenerStatus :=
  let lr := default (NewListenerReport (l_name lis)) (gr_listeners gr !! l_name lis) in
  ls_set_conditions
    (merge_conditions (gr_observedGeneration gr) (old_listener_conditions g (l_name lis))
       (addMissingListenerConditions (ls_conditions lr))) lr.

Lemma build_listener_step g final gr lis :
  ∃ gr', build_listener g (final, gr) lis = (final ++ [listener_status g gr lis], gr') ∧
    gr_observedGeneration gr' = gr_observedGeneration gr ∧
    gr_conditions gr' = gr_conditions gr ∧
    (∀ n, n ≠ l_name lis → gr_listeners gr' !! n = gr_listeners gr !! n).
Proof.
  unfold build_listener, listener_status, listener_of.
  destruct (gr_listeners gr !! l_name lis) as [lr|] eqn:E; simpl;
    (eexists; split; [done|]; split_and!; [done..|]);
    intros n Hn; simpl; by rewrite !lookup_insert_ne by done.
Qed.

Lemma build_listeners g ls final gr :
  NoDup (l_name <$> ls) →
  ∃ gr', foldl (build_listener g) (final, gr) ls =
           (final ++ map (listener_status g gr) ls, gr') ∧
    gr_observedGeneration gr' = gr_observedGeneration gr ∧
    gr_conditions gr' = gr_conditions gr.
Proof.
  revert final gr. induction ls as [|l ls IH]; intros final gr Hnd; cbn [foldl map].
  { exists gr. by rewrite app_nil_r. }
  apply NoDup_cons in Hnd as [Hl Hnd].
  destruct (build_listener_step g final gr l) as (gr1 & -> & Hg1 & Hc1 & Hl1).
  destruct (IH (final ++ [listener_status g gr l]) gr1 Hnd) as (gr2 & -> & Hg2 & Hc2).
  exists gr2. split_and!; [|congruence..].
  rewrite <-app_assoc. simpl. do 3 f_equal. apply map_ext_in. intros l' Hl'.
  unfold listener_status. rewrite Hl1, Hg1; [done|].
  intros E. apply Hl. rewrite <-E. apply list_elem_of_fmap_2. by apply list_elem_of_In.
Qed.

(** [BuildGWStatus] publishes one listener status per listener of the spec, in order
    and under its name, with all four listener condition types exactly once and every
    reported condition kept, and the gateway's own Accepted and Programmed conditions;
    all with the generation the report was made for. *)
Theorem build_gateway_status_correct g rm gr :
  Gateway_report g rm = Some gr →
  NoDup (l_name <$> gw_listeners g) →
  NoDup (types (gr_conditions gr)) →
  (∀ n lr, gr_listeners gr !! n = Some lr → ls_name lr = n ∧ NoDup (types (ls_conditions lr))) →
  ∃ st, (BuildGWStatus g rm).1 = Some st ∧
    Forall2 (published (gr_observedGeneration gr) (gs_conditions (gw_status g)))
      (addMissingGatewayConditions (gr_conditions gr)) (gs_conditions st) ∧
    Forall2 (λ l s,
      ls_name s = l_name l ∧ NoDup (types (ls_conditions s)) ∧
      (∀ t, t ∈ ["Accepted"; "Conflicted"; "ResolvedRefs"; "Programmed"] →
            t ∈ types (ls_conditions s)) ∧
      Forall2 (published (gr_observedGeneration gr) (old_listener_conditions g (l_name l)))
        (addMissingListenerConditions
           (default [] (ls_conditions <$> (gr_listeners gr !! l_name l))))
        (ls_conditions s))
      (gw_listeners g) (gs_listeners st).
Proof.
  intros Hgr Hnames Hconds Hls. unfold BuildGWStatus. rewrite Hgr.
  destruct (build_listeners g (gw_listeners g) [] gr Hnames) as (gr' & -> & Hg & Hc).
  eexists; split; [done|]; simpl. rewrite Hg, Hc.
  split; [by apply merge_conditions_distinct, gateway_conditions_nodup|].
  apply Forall2_fmap_r, Forall_Forall2_diag, Forall_true. intros l.
  unfold listener_status, compose; cbv zeta beta.
  assert (∃ lr, default (NewListenerReport (l_name l)) (gr_listeners gr !! l_name l) = lr ∧
    ls_name lr = l_name l ∧ NoDup (types (ls_conditions lr)) ∧
    default [] (ls_conditions <$> (gr_listeners gr !! l_name l)) = ls_conditions lr)
    as (lr & -> & Hn & Hnd & ->).
  { destruct (gr_listeners gr !! l_name l) as [lr|] eqn:E; simpl.
    - apply Hls in E as [??]. eauto.
    - eexists. split_and!; [done|done|constructor|done]. }
  apply listener_conditions_nodup in Hnd.
  pose proof (merge_conditions_distinct (gr_observedGeneration gr)
                (old_listener_conditions g (l_name l)) _ Hnd) as Hm.
  simpl. rewrite (published_types _ _ _ _ Hm). split_and!; try done.
  apply listener_conditions_complete.
Qed.
End Build.

(** ** Concrete statuses *)
Definition ex_meta : ObjectMeta :=
  {| om_name := "r"; om_namespace := "ns"; om_generation := 7; om_creation := 0;
     om_annotations := ∅ |}.
Definition ex_ref : ParentReference :=
  {| pr_group := None; pr_kind := None; pr_namespace := None; pr_name := "gw";
     pr_sectionName := None; pr_port := None |}.
Definition ex_stored : Condition :=
  {| c_type := "ResolvedRefs"; c_status := ConditionFalse; c_observedGeneration := 6;
     c_lastTransitionTime := 100; c_reason := "BackendNotFound"; c_message := "old" |}.
Definition ex_route : HTTPRoute unit :=
  {| hr_meta := ex_meta; hr_parentRefs := [ex_ref]; hr_hostnames := None; hr_rules := ();
     hr_statusParents := [{| rps_parentRef := ex_ref; rps_controllerName := "c";
                             rps_conditions := [ex_stored] |}] |}.
Definition ex_reported : Condition :=
  report_condition "ResolvedRefs" ConditionFalse "RefNotPermitted" "new".
Definition ex_route_report : RouteReport :=
  {| rr_parents := {[ getParentRefKey ex_ref := [ex_reported] ]}; rr_observedGeneration := 7 |}.
Definition ex_reports : ReportMap :=
  {| rm_gateways := ∅; rm_routes := {[ namespacedName ex_meta := ex_route_report ]} |}.

Lemma build_route_status_correct_witness :
  ∃ parents, (@BuildRouteStatus api_meta list_order 500 unit ex_route "c" ex_reports).1 = Some parents ∧
    map rps_parentRef parents = [ex_ref].
Proof.
  destruct (@build_route_status_correct api_meta list_order 500 unit ex_route "c" ex_reports
              ex_route_report) as (parents & Hp & HF).
  - reflexivity.
  - exists parents. split; [exact Hp|].
    apply Forall2_cons_inv_l in HF as (s & parents' & (Hs & _) & HF & ->).
    apply Forall2_nil_inv_l in HF as ->. simpl. by rewrite Hs.
Defined.

(** The stored time survives, since the status did not change. *)
Example route_status_keeps_time :
  (@BuildRouteStatus api_meta list_order 500 unit ex_route "c" ex_reports).1 =
  Some [{| rps_parentRef := ex_ref; rps_controllerName := "c";
           rps_conditions :=
             [{| c_type := "ResolvedRefs"; c_status := ConditionFalse; c_observedGeneration := 7;
                 c_lastTransitionTime := 100; c_reason := "RefNotPermitted"; c_message := "new" |};
              {| c_type := "Accepted"; c_status := ConditionTrue; c_observedGeneration := 7;
                 c_lastTransitionTime := 500; c_reason := "Accepted"; c_message := "" |}] |}].
Proof. vm_compute. reflexivity. Qed.

(** Two reports of a stored type publish it twice. *)
Lemma merge_conditions_count_witness :
  count_type "ResolvedRefs"
    (@merge_conditions api_meta 500 7 [ex_stored] [ex_reported; ex_reported]) = 2.
Proof. rewrite (@merge_conditions_count api_meta 500). reflexivity. Defined.

Definition ex_listener : Listener :=
  {| l_name := "http"; l_hostname := None; l_port := 80; l_protocol := "HTTP"; l_tls := None;
     l_allowedRoutes := None |}.
Definition ex_gateway : Gateway :=
  {| gw_meta := ex_meta; gw_listeners := [ex_listener];
     gw_status := {| gs_conditions := []; gs_listeners := [] |} |}.
Definition ex_gateway_report : GatewayReport :=
  {| gr_conditions := []; gr_listeners := ∅; gr_observedGeneration := 7 |}.

Lemma build_gateway_status_correct_witness :
  ∃ st, (@BuildGWStatus api_meta 500 ex_gateway
           {| rm_gateways := {[ gw_nn ex_gateway := ex_gateway_report ]}; rm_routes := ∅ |}).1 = Some st ∧
    map ls_name (gs_listeners st) = ["http"].
Proof.
  destruct (@build_gateway_status_correct api_meta 500 ex_gateway
              {| rm_gateways := {[ gw_nn ex_gateway := ex_gateway_report ]}; rm_routes := ∅ |}
              ex_gateway_report) as (st & Hst & _ & HF).
  - reflexivity.
  - apply NoDup_singleton.
  - constructor.
  - intros n lr Hn. simpl in Hn. by rewrite lookup_empty in Hn.
  - exists st. split; [exact Hst|].
    apply Forall2_cons_inv_l in HF as (s & ls & (Hs & _) & HF & ->).
    apply Forall2_nil_inv_l in HF as ->. simpl. by rewrite Hs.
Defined.
End Status.
