(* ===== verification/Heap.v ===== *)
(** * The memory shared by the route query and the route translator

    Translating delegated routes mutates HTTPRoute objects that several parents can see:
    [filterDelegatedChildren] writes the [Matches] field of the elements of a child's
    [spec.rules] array, and [mergeParentChildRouteMatch] writes the [Value] of a
    [*HTTPPathMatch]. Both kinds of cell live in a [Heap]; reading an object from the
    API server allocates it afresh. *)

From stdpp Require Import base gmap strings list fin_maps.
From Stdlib Require Import ZArith Lia.
From S2P Require Import Prelude GoLib GwApi.

Definition loc : Type := positive.

Abbreviation MMatch := (HTTPRouteMatch loc).
Abbreviation MRule := (HTTPRouteRule loc).
(** An HTTPRoute object in memory: [hr_rules] is the backing array of [spec.rules]. *)
Abbreviation MRoute := (HTTPRoute loc).

Record Heap := {
  h_rules : gmap loc (list MRule);
  h_paths : gmap loc HTTPPathMatch
}.

Definition empty_heap : Heap := {| h_rules := ∅; h_paths := ∅ |}.

Definition set_path (l : loc) (p : HTTPPathMatch) (h : Heap) : Heap :=
  {| h_rules := h_rules h; h_paths := <[l := p]> (h_paths h) |}.
Definition set_rules (l : loc) (rs : list MRule) (h : Heap) : Heap :=
  {| h_rules := <[l := rs]> (h_rules h); h_paths := h_paths h |}.

Definition new_path (p : HTTPPathMatch) (h : Heap) : loc * Heap :=
  let l := fresh (dom (h_paths h)) in (l, set_path l p h).
Definition new_rules (rs : list MRule) (h : Heap) : loc * Heap :=
  let l := fresh (dom (h_rules h)) in (l, set_rules l rs h).

(** ** Allocation of an object read from the API server *)
Definition load_match (m : HTTPRouteMatch HTTPPathMatch) (h : Heap) : MMatch * Heap :=
  let '(p, h) := match m_path m with
                 | Some pm => let '(l, h) := new_path pm h in (Some l, h)
                 | None => (None, h)
                 end in
  ({| m_path := p; m_headers := m_headers m; m_queryParams := m_queryParams m;
      m_method := m_method m |}, h).

Fixpoint load_matches (ms : list (HTTPRouteMatch HTTPPathMatch)) (h : Heap) : list MMatch * Heap :=
  match ms with
  | [] => ([], h)
  | m :: ms => let '(m', h) := load_match m h in
               let '(ms', h) := load_matches ms h in (m' :: ms', h)
  end.

Definition load_rule (r : HTTPRouteRule HTTPPathMatch) (h : Heap) : MRule * Heap :=
  let '(ms, h) := match r_matches r with
                  | Some ms => let '(ms, h) := load_matches ms h in (Some ms, h)
                  | None => (None, h)
                  end in
  ({| r_matches := ms; r_filters := r_filters r; r_backendRefs := r_backendRefs r |}, h).

Fixpoint load_rules (rs : list (HTTPRouteRule HTTPPathMatch)) (h : Heap) : list MRule * Heap :=
  match rs with
  | [] => ([], h)
  | r :: rs => let '(r', h) := load_rule r h in
               let '(rs', h) := load_rules rs h in (r' :: rs', h)
  end.

Definition load_route (k : KHTTPRoute) (h : Heap) : MRoute * Heap :=
  let '(rs, h) := load_rules (hr_rules k) h in
  let '(l, h) := new_rules rs h in
  ({| hr_meta := hr_meta k; hr_parentRefs := hr_parentRefs k; hr_hostnames := hr_hostnames k;
      hr_rules := l; hr_statusParents := hr_statusParents k |}, h).

(** ** Well-formed memory

    The Gateway API CRDs default [matches] to one match and the path of a match to
    PathPrefix "/", so every stored rule has matches and every match a complete path. *)
Definition path_type_known (t : PathMatchType) : Prop :=
  match t with PathMatchOther _ => False | _ => True end.
Definition pm_complete (p : HTTPPathMatch) : Prop :=
  (∃ t, pm_type p = Some t ∧ path_type_known t) ∧ is_Some (pm_value p).

Definition match_ok (h : Heap) (m : MMatch) : Prop := ∃ l, m_path m = Some l ∧ l ∈ dom (h_paths h).
Definition matches_ok (h : Heap) (ms : option (list MMatch)) : Prop :=
  match ms with Some ms => Forall (match_ok h) ms | None => True end.

(** What CRD defaulting and validation guarantee of references and filters: group and kind
    of a backend are set, an extension filter names its object, a redirect has its status
    code and a path modifier its replacement. *)
Definition ref_ok (b : BackendObjectReference) : Prop := is_Some (br_group b) ∧ is_Some (br_kind b).
Definition modifier_ok (p : HTTPPathModifier) : Prop :=
  match pmod_type p with
  | FullPathHTTPPathModifier => is_Some (pmod_replaceFullPath p)
  | PrefixMatchHTTPPathModifier => is_Some (pmod_replacePrefixMatch p)
  | PathModifierOther _ => True
  end.
Definition redirect_ok (r : HTTPRequestRedirectFilter) : Prop :=
  is_Some (rr_statusCode r) ∧ ∀ p, rr_path r = Some p → modifier_ok p.
Definition filter_ok (f : HTTPRouteFilter) : Prop :=
  (f_type f = FilterExtensionRef → is_Some (f_extensionRef f)) ∧
  (∀ r, f_requestRedirect f = Some r → redirect_ok r).
Definition spec_ok {P} (r : HTTPRouteRule P) : Prop :=
  Forall filter_ok (r_filters r) ∧ Forall (λ b, ref_ok (hb_ref b)) (r_backendRefs r).

Definition rule_ok (h : Heap) (r : MRule) : Prop := matches_ok h (r_matches r) ∧ spec_ok r.
(** A rule that is about to be translated has explicit matches. *)
Definition rule_ready (r : MRule) : Prop := is_Some (r_matches r).

Definition heap_ok (h : Heap) : Prop :=
  (∀ l p, h_paths h !! l = Some p → pm_complete p) ∧
  (∀ l rs, h_rules h !! l = Some rs → Forall (rule_ok h) rs).

(** Allocation and mutation only add cells. *)
Definition heap_le (h h' : Heap) : Prop :=
  dom (h_rules h) ⊆ dom (h_rules h') ∧ dom (h_paths h) ⊆ dom (h_paths h').

#[export] Instance heap_le_preorder : PreOrder heap_le.
Proof. split; [by split|]. intros ??? [??] [??]. split; by etrans. Qed.

Lemma match_ok_mono h h' m : heap_le h h' → match_ok h m → match_ok h' m.
Proof. intros [_ Hp] (l & ? & ?). exists l. set_solver. Qed.
Lemma matches_ok_mono h h' ms : heap_le h h' → matches_ok h ms → matches_ok h' ms.
Proof. destruct ms; simpl; [|done]. eauto using Forall_impl, match_ok_mono. Qed.
Lemma rule_ok_mono h h' r : heap_le h h' → rule_ok h r → rule_ok h' r.
Proof. intros ? []. split; [by eapply matches_ok_mono|done]. Qed.
Lemma rules_ok_mono h h' rs : heap_le h h' → Forall (rule_ok h) rs → Forall (rule_ok h') rs.
Proof. eauto using Forall_impl, rule_ok_mono. Qed.

Lemma set_path_le l p h : heap_le h (set_path l p h).
Proof. split; simpl; [done|]. rewrite dom_insert_L. set_solver. Qed.
Lemma set_rules_le l rs h : heap_le h (set_rules l rs h).
Proof. split; simpl; [|done]. rewrite dom_insert_L. set_solver. Qed.

#[export] Hint Resolve match_ok_mono matches_ok_mono rule_ok_mono rules_ok_mono
  set_path_le set_rules_le : gw.

Lemma set_path_ok l p h : heap_ok h → pm_complete p → heap_ok (set_path l p h).
Proof.
  intros [Hp Hr] Hpm. split.
  - simpl. intros l' p' Hl. apply lookup_insert_Some in Hl. naive_solver.
  - simpl. intros l' rs Hl. eauto with gw.
Qed.

Lemma set_rules_ok l rs h : heap_ok h → Forall (rule_ok h) rs → heap_ok (set_rules l rs h).
Proof.
  intros [Hp Hr] Hrs. split; [done|].
  intros l' rs' Hl. simpl in Hl. apply lookup_insert_Some in Hl as [[_ <-]|[_ Hl]]; eauto with gw.
Qed.

Lemma new_path_spec p h l h' :
  new_path p h = (l, h') → heap_ok h → pm_complete p →
  heap_ok h' ∧ heap_le h h' ∧ l ∈ dom (h_paths h').
Proof.
  unfold new_path. intros [= <- <-] ??. split_and!; [by apply set_path_ok|apply set_path_le|].
  simpl. rewrite dom_insert_L. set_solver.
Qed.

Lemma new_rules_spec rs h l h' :
  new_rules rs h = (l, h') → heap_ok h → Forall (rule_ok h) rs →
  heap_ok h' ∧ heap_le h h' ∧ h_rules h' !! l = Some rs ∧ (l ∉ dom (h_rules h)) ∧
  (∀ l', l' ∈ dom (h_rules h) → h_rules h' !! l' = h_rules h !! l').
Proof.
  unfold new_rules. intros [= <- <-] ??. simpl.
  pose proof (is_fresh (dom (h_rules h))).
  split_and!; [by apply set_rules_ok|apply set_rules_le|by rewrite lookup_insert_eq|done|].
  intros l' Hl'. rewrite lookup_insert_ne; [done|]. by intros <-.
Qed.

(** A stored object after CRD defaulting. *)
Definition match_defaulted (m : HTTPRouteMatch HTTPPathMatch) : Prop :=
  ∃ p, m_path m = Some p ∧ pm_complete p.
Definition rule_defaulted (r : HTTPRouteRule HTTPPathMatch) : Prop :=
  (∃ ms, r_matches r = Some ms ∧ Forall match_defaulted ms) ∧ spec_ok r.
Definition route_defaulted (k : KHTTPRoute) : Prop := Forall rule_defaulted (hr_rules k).

Lemma load_matches_spec ms : ∀ h ms' h',
  load_matches ms h = (ms', h') → heap_ok h → Forall match_defaulted ms →
  heap_ok h' ∧ heap_le h h' ∧ Forall (match_ok h') ms' ∧
  (∀ l, l ∈ dom (h_rules h) → h_rules h' !! l = h_rules h !! l).
Proof.
  induction ms as [|m ms IH]; simpl; intros h ms' h' E Hok Hms.
  { simplify_eq. split_and!; [done|done|constructor|done]. }
  apply Forall_cons in Hms as [(p & Hp & Hpm) Hms].
  destruct (load_match m h) as [m1 h1] eqn:E1. unfold load_match in E1. rewrite Hp in E1.
  destruct (new_path p h) as [l h2] eqn:E2. simplify_eq.
  destruct (new_path_spec _ _ _ _ E2 Hok Hpm) as (Hok1 & Hle1 & Hl).
  assert (h_rules h1 = h_rules h) as Hr1 by (unfold new_path in E2; by simplify_eq).
  destruct (load_matches ms h1) as [ms1 h3] eqn:E3. simplify_eq.
  destruct (IH _ _ _ E3 Hok1 Hms) as (Hok3 & Hle3 & Hms3 & Hr3).
  split_and!; [done|by etrans| |].
  - constructor; [|done]. exists l. split; [done|]. destruct Hle3 as [_ Hd]. set_solver.
  - intros l' Hl'. rewrite Hr3 by (by rewrite Hr1). by rewrite Hr1.
Qed.

Lemma load_rules_spec rs : ∀ h rs' h',
  load_rules rs h = (rs', h') → heap_ok h → Forall rule_defaulted rs →
  heap_ok h' ∧ heap_le h h' ∧ Forall (rule_ok h') rs' ∧ Forall rule_ready rs' ∧
  (∀ l, l ∈ dom (h_rules h) → h_rules h' !! l = h_rules h !! l).
Proof.
  induction rs as [|r rs IH]; simpl; intros h rs' h' E Hok Hrs.
  { simplify_eq. split_and!; [done|done|constructor|constructor|done]. }
  apply Forall_cons in Hrs as [[(ms & Hr & Hms) Hsp] Hrs].
  destruct (load_rule r h) as [r1 h1] eqn:E1. unfold load_rule in E1. rewrite Hr in E1.
  destruct (load_matches ms h) as [ms1 h2] eqn:E2. simplify_eq.
  destruct (load_matches_spec _ _ _ _ E2 Hok Hms) as (Hok1 & Hle1 & Hms1 & Hr1).
  destruct (load_rules rs h1) as [rs1 h3] eqn:E3. simplify_eq.
  destruct (IH _ _ _ E3 Hok1 Hrs) as (Hok3 & Hle3 & Hrs3 & Hrd3 & Hr3).
  split_and!; [done|by etrans| | |].
  - constructor; [|done]. split; [|done]. simpl. eauto using Forall_impl, match_ok_mono.
  - constructor; [|done]. by eexists.
  - intros l Hl. rewrite Hr3; [by apply Hr1|]. destruct Hle1. set_solver.
Qed.

(** Loading a defaulted object keeps the memory well formed, touches no other route's
    rules, and yields a route that is ready for translation. *)
Lemma load_route_spec k h r h' :
  load_route k h = (r, h') → heap_ok h → route_defaulted k →
  heap_ok h' ∧ heap_le h h' ∧ hr_nn r = hr_nn k ∧
  (∃ rs, h_rules h' !! hr_rules r = Some rs ∧ Forall (rule_ok h') rs ∧ Forall rule_ready rs) ∧
  (hr_rules r ∉ dom (h_rules h)) ∧
  (∀ l, l ∈ dom (h_rules h) → h_rules h' !! l = h_rules h !! l).
Proof.
  unfold load_route. intros E Hok Hk.
  destruct (load_rules (hr_rules k) h) as [rs h1] eqn:E1.
  destruct (new_rules rs h1) as [l h2] eqn:E2. simplify_eq. simpl.
  destruct (load_rules_spec _ _ _ _ E1 Hok Hk) as (Hok1 & Hle1 & Hrs & Hrd & Hr1).
  destruct (new_rules_spec _ _ _ _ E2 Hok1 Hrs) as (Hok2 & Hle2 & Hl & Hfresh & Hr2).
  split_and!; [done|by etrans|done| | |].
  - exists rs. split_and!; [done|by eauto with gw|done].
  - destruct Hle1. set_solver.
  - intros l' Hl'. rewrite Hr2; [by apply Hr1|]. destruct Hle1. set_solver.
Qed.

(** ** Reading through a pointer *)
Definition deref {S A} (what : string) (p : option A) : M S A :=
  match p with Some a => ret a | None => panic ("nil pointer dereference: " +:+ what) end.
Definition read_path (l : loc) : M Heap HTTPPathMatch := p <~ gets (λ h, h_paths h !! l) ;; deref "path" p.
Definition read_rules (l : loc) : M Heap (list MRule) := rs <~ gets (λ h, h_rules h !! l) ;; deref "rules" rs.
Definition read_rule (l : loc) (i : nat) : M Heap MRule :=
  rs <~ read_rules l ;;
  match rs !! i with Some r => ret r | None => panic "index out of range" end.
(** [rules[i] = r] *)
Definition write_rule (l : loc) (i : nat) (r : MRule) : M Heap unit :=
  rs <~ read_rules l ;;
  if decide (i < length rs) then modify (set_rules l (<[i := r]> rs)) else panic "index out of range".
Definition alloc_path (p : HTTPPathMatch) : M Heap loc := λ h, Ok (new_path p h).
Definition alloc_rules (rs : list MRule) : M Heap loc := λ h, Ok (new_rules rs h).

Lemma wp_deref {S A} what (p : option A) a Q (s : S) : p = Some a → Q a s → wp (deref what p) Q s.
Proof. by intros ->. Qed.

Lemma wp_read_path l p Q h : h_paths h !! l = Some p → Q p h → wp (read_path l) Q h.
Proof. intros Hl HQ. unfold read_path. wp_steps. by rewrite Hl. Qed.

Lemma wp_read_rules l rs Q h : h_rules h !! l = Some rs → Q rs h → wp (read_rules l) Q h.
Proof. intros Hl HQ. unfold read_rules. wp_steps. by rewrite Hl. Qed.

Lemma wp_read_rule l rs i r Q h :
  h_rules h !! l = Some rs → rs !! i = Some r → Q r h → wp (read_rule l i) Q h.
Proof.
  intros Hl Hi HQ. unfold read_rule. wp_step. eapply wp_read_rules; [done|]. by rewrite Hi.
Qed.

Lemma wp_write_rule l rs i r Q h :
  h_rules h !! l = Some rs → i < length rs → Q tt (set_rules l (<[i := r]> rs) h) →
  wp (write_rule l i r) Q h.
Proof.
  intros Hl Hi HQ. unfold write_rule. wp_step. eapply wp_read_rules; [done|].
  rewrite decide_True by done. by wp_step.
Qed.
