(* ===== verification/Query.v ===== *)
(** * query/: references, grants, hostnames and the routes of a gateway

    The API server (controller-runtime's client and scheme, label selectors) is the
    interface [K8sClient]; everything else is translated from backendmap.go, indexers.go,
    query.go, httproute.go and utils.go. *)

From stdpp Require Import base gmap strings list fin_maps sets.
From Stdlib Require Import ZArith Lia.
From S2P Require Import Prelude GoLib GwApi Reports Heap.

(** ** The API server *)
Record ReferenceGrantFrom := { rgf_group : string; rgf_kind : string; rgf_namespace : string }.
Record ReferenceGrantTo := { rgt_group : string; rgt_kind : string; rgt_name : option string }.
Record ReferenceGrant := {
  rg_meta : ObjectMeta; rg_from : list ReferenceGrantFrom; rg_to : list ReferenceGrantTo }.

Class K8sClient := {
  (** [client.Get] and [client.List] of HTTPRoutes *)
  get_httproute : NamespacedName → result KHTTPRoute;
  list_httproutes_in : string → result (list KHTTPRoute);
  list_httproutes_by_target : string → result (list KHTTPRoute);
  (** [client.List] of the grants of a namespace, by the from-namespace index *)
  list_grants : string → string → result (list ReferenceGrant);
  (** [len(scheme.VersionsForGroupKind(gk)) > 0] *)
  known_kind : GroupKind → bool;
  (** [scheme.New] of the preferred version followed by [client.Get] *)
  get_object : GroupKind → NamespacedName → result KObj;
  (** labels of a Namespace; empty when the Get fails *)
  namespace_labels : string → gmap string string;
  (** [metav1.LabelSelectorAsSelector] *)
  label_selector : LabelSelector → result (gmap string string → bool);
  (** [scheme.ObjectKinds] of an HTTPRoute object *)
  httproute_group_kind : result GroupKind
}.

Module Query.

(** ** backendmap.go *)
Record BackendMap (T : Type) := {
  bm_items : list (string * T); bm_errors : list (string * Err) }.
Arguments bm_items {T}.
Arguments bm_errors {T}.
Arguments Build_BackendMap {T}.

Definition NewBackendMap {T} : BackendMap T := {| bm_items := []; bm_errors := [] |}.

Definition backendToRefKey (ref : BackendObjectReference) : string :=
  ptr_or_default "" (br_group ref) +:+ "~" +:+
  ptr_or_default "" (br_kind ref) +:+ "~" +:+
  br_name ref +:+ "~" +:+
  ptr_or_default "" (br_namespace ref).

Definition bm_Add {T} (ref : BackendObjectReference) (v : T) (bm : BackendMap T) : BackendMap T :=
  {| bm_items := (backendToRefKey ref, v) :: bm_items bm; bm_errors := bm_errors bm |}.

Definition bm_AddError {T} (ref : BackendObjectReference) (e : Err) (bm : BackendMap T) : BackendMap T :=
  {| bm_items := bm_items bm; bm_errors := (backendToRefKey ref, e) :: bm_errors bm |}.

Definition bm_get {T} (ref : BackendObjectReference) (bm : BackendMap T) : result T :=
  let key := backendToRefKey ref in
  match assoc key (bm_errors bm) with
  | Some e => inl e
  | None => match assoc key (bm_items bm) with
            | Some v => inr v
            | None => inl ErrUnresolvedReference
            end
  end.

(** ** HTTPRouteInfo *)
Inductive HTTPRouteInfo : Type := MkInfo {
  hi_route : MRoute;
  hi_parentRef : ParentReference;
  hi_hostnameOverrides : list string;
  hi_backends : BackendMap KObj;
  hi_children : BackendMap (list HTTPRouteInfo)
}.

Definition hi_nn (i : HTTPRouteInfo) : NamespacedName := hr_nn (hi_route i).

Definition Hostnames (i : HTTPRouteInfo) : list string :=
  match hi_hostnameOverrides i with
  | [] => hostnames_of (hi_route i)
  | hs => hs
  end.

Definition hi_GetBackendForRef (i : HTTPRouteInfo) (ref : BackendObjectReference) : result KObj :=
  bm_get ref (hi_backends i).
Definition GetChildrenForRef (i : HTTPRouteInfo) (ref : BackendObjectReference) : result (list HTTPRouteInfo) :=
  bm_get ref (hi_children i).

(** The clone shares the rules array, the backends and the children, and drops the
    hostname overrides. *)
Definition Clone (i : HTTPRouteInfo) : HTTPRouteInfo :=
  {| hi_route := hi_route i; hi_parentRef := hi_parentRef i; hi_hostnameOverrides := [];
     hi_backends := hi_backends i; hi_children := hi_children i |}.

Definition UniqueRouteName (i : HTTPRouteInfo) (ruleIdx matchIdx : nat) : string :=
  hr_name (hi_route i) +:+ "-" +:+ hr_namespace (hi_route i) +:+ "-" +:+
  itoa ruleIdx +:+ "-" +:+ itoa matchIdx.

(** Number of generations below and including a route. *)
Fixpoint info_depth (i : HTTPRouteInfo) : nat :=
  S (max_list_with (λ kv, max_list_with info_depth kv.2) (bm_items (hi_children i))).

(** ** indexers.go *)
Definition resolveNs (ns : option string) : string := default "" ns.

Definition httpRouteToTargetIndexer {R} (h : HTTPRoute R) : list string :=
  flat_map (λ p,
    if nil_or_is (pr_group p) GatewayGroup && nil_or_is (pr_kind p) GatewayKind then
      let ns := resolveNs (pr_namespace p) in
      let ns := if bool_decide (ns = "") then hr_namespace h else ns in
      [nn_string {| nn_ns := ns; nn_name := pr_name p |}]
    else []) (hr_parentRefs h).

Definition refGrantFromIndexer (g : ReferenceGrant) : list string :=
  flat_map (λ f, if bool_decide (rgf_namespace f = "") then [] else [rgf_namespace f]) (rg_from g).

(** ** query.go: reference grants *)
Definition coreIfEmpty (s : string) : string := if bool_decide (s = "") then "core" else s.

Definition ReferenceAllowed (fromgk : GroupKind) (fromns : string) (togk : GroupKind)
    (toname : string) (grants : list ReferenceGrant) : bool :=
  existsb (λ g,
    existsb (λ from,
      bool_decide (rgf_namespace from = fromns) &&
      bool_decide (coreIfEmpty (gk_group fromgk) = coreIfEmpty (rgf_group from)) &&
      bool_decide (gk_kind fromgk = rgf_kind from) &&
      existsb (λ to,
        bool_decide (coreIfEmpty (gk_group togk) = coreIfEmpty (rgt_group to)) &&
        bool_decide (gk_kind togk = rgt_kind to) &&
        nil_or_is (rgt_name to) toname) (rg_to g)) (rg_from g)) grants.

(** ** query.go: parents and hostnames *)
Definition parentRefMatchListener (ref : ParentReference) (l : Listener) : bool :=
  nil_or_is (pr_port ref) (l_port l) && nil_or_is (pr_sectionName ref) (l_name l).

Definition getParentRefsForGw {R} (gw : Gateway) (h : HTTPRoute R) : list ParentReference :=
  List.filter (λ p,
    nil_or_is (pr_group p) GatewayGroup && nil_or_is (pr_kind p) GatewayKind &&
    bool_decide (default (hr_namespace h) (pr_namespace p) = om_namespace (gw_meta gw)) &&
    bool_decide (pr_name p = om_name (gw_meta gw))) (hr_parentRefs h).

(** [s[1:]] *)
Definition tail_string (s : string) : string :=
  match s with EmptyString => EmptyString | String _ s' => s' end.

Definition hostnameIntersect {R} (l : Listener) (h : HTTPRoute R) : bool * list string :=
  match l_hostname l with
  | None => (true, hostnames_of h)
  | Some lh =>
      if has_prefix lh "*." then
        match hr_hostnames h with
        | None => (true, [lh])
        | Some hs =>
            let kept := List.filter (λ hrHost, has_suffix hrHost (tail_string lh)) hs in
            (negb (bool_decide (kept = [])), kept)
        end
      else
        match hostnames_of h with
        | [] => (true, [lh])
        | hs =>
            if existsb (λ hrHost, bool_decide (hrHost = lh) ||
                 (has_prefix hrHost "*." && has_suffix lh (tail_string hrHost))) hs
            then (true, [lh]) else (false, [])
        end
  end.

Definition isRouteAllowed (group kind : string) (allowedKinds : list GroupKind) : bool :=
  existsb (λ k,
    let g := if bool_decide (gk_group k = "") then GatewayGroup else gk_group k in
    bool_decide (g = group) && bool_decide (gk_kind k = kind)) allowedKinds.

Definition isHttpRouteAllowed (ks : list GroupKind) : bool :=
  isRouteAllowed GatewayGroup HTTPRouteKind ks.

(** The source of a reference: an object or a fixed group, kind and namespace. *)
Record From := { from_group_kind : result GroupKind; from_namespace : string }.

Section Client.
Context `{K8sClient}.

Definition ObjToFrom {R} (h : HTTPRoute R) : From :=
  {| from_group_kind := httproute_group_kind; from_namespace := hr_namespace h |}.

Definition referenceAllowed (fromgk : GroupKind) (fromns : string) (togk : GroupKind)
    (tons toname : string) : result bool :=
  match list_grants tons fromns with
  | inl e => inl e
  | inr grants => inr (ReferenceAllowed fromgk fromns togk toname grants)
  end.

Definition getRef (from : From) (name : string) (ns : option string) (gk : GroupKind) : result KObj :=
  let fromNs := if bool_decide (from_namespace from = "") then "default" else from_namespace from in
  let ns := default fromNs ns in
  let permitted : result unit :=
    if bool_decide (ns = fromNs) then inr tt else
    match from_group_kind from with
    | inl e => inl e
    | inr fromgk =>
        match referenceAllowed fromgk fromNs gk ns name with
        | inl e => inl e
        | inr true => inr tt
        | inr false => inl ErrMissingReferenceGrant
        end
    end in
  match permitted with
  | inl e => inl e
  | inr _ =>
      if known_kind gk then get_object gk {| nn_ns := ns; nn_name := name |}
      else inl ErrUnknownBackendKind
  end.

Definition GetSecretForRef (from : From) (ref : SecretObjectReference) : result KObj :=
  getRef from (sr_name ref) (sr_namespace ref)
    {| gk_group := default "" (sr_group ref); gk_kind := default "Secret" (sr_kind ref) |}.

Definition GetLocalObjRef (from : From) (ref : LocalObjectReference) : result KObj :=
  if bool_decide (lr_kind ref = "") then inl ErrLocalObjRefMissingKind
  else getRef from (lr_name ref) None {| gk_group := lr_group ref; gk_kind := lr_kind ref |}.

Definition GetBackendForRef (from : From) (ref : BackendObjectReference) : result KObj :=
  getRef from (br_name ref) (br_namespace ref)
    {| gk_group := default "" (br_group ref); gk_kind := default "Service" (br_kind ref) |}.

(** ** Which routes a listener admits *)
Definition SameNamespace (ns : string) : string → bool := λ s, bool_decide (ns = s).
Definition AllNamespace : string → bool := λ _, true.
Definition NamespaceSelector (sel : gmap string string → bool) : string → bool :=
  λ s, sel (namespace_labels s).

Definition allowedRoutes (gw : Gateway) (l : Listener) : result ((string → bool) * list GroupKind) :=
  let http := [{| gk_group := GatewayGroup; gk_kind := HTTPRouteKind |}] in
  let none := [{| gk_group := ""; gk_kind := "" |}] in
  let protocolKinds :=
    if bool_decide (l_protocol l = HTTPSProtocolType) || bool_decide (l_protocol l = HTTPProtocolType) then http
    else if bool_decide (l_protocol l = TLSProtocolType) || bool_decide (l_protocol l = TCPProtocolType) then none
    else if bool_decide (l_protocol l = UDPProtocolType) then none
    else http in
  let same := SameNamespace (om_namespace (gw_meta gw)) in
  match l_allowedRoutes l with
  | None => inr (same, protocolKinds)
  | Some ar =>
      let kinds := match ar_kinds ar with
                   | None => protocolKinds
                   | Some ks => map (λ k, {| gk_group := default GatewayGroup (rgk_group k);
                                             gk_kind := rgk_kind k |}) ks
                   end in
      match ar_namespaces ar ≫= rn_from, ar_namespaces ar ≫= rn_selector with
      | Some NamespacesFromAll, _ => inr (AllNamespace, kinds)
      | Some NamespacesFromSelector, None => inl (ErrOther "selector must be set")
      | Some NamespacesFromSelector, Some sel =>
          match label_selector sel with
          | inl e => inl e
          | inr f => inr (NamespaceSelector f, kinds)
          end
      | _, _ => inr (same, kinds)
      end
  end.

(** ** httproute.go: backends and delegated children *)
Definition resolveRouteBackends (k : KHTTPRoute) : BackendMap KObj :=
  foldl (λ out ref,
    match GetBackendForRef (ObjToFrom k) (hb_ref ref) with
    | inl e => bm_AddError (hb_ref ref) e out
    | inr obj => bm_Add (hb_ref ref) obj out
    end) NewBackendMap (flat_map r_backendRefs (hr_rules k)).

Definition fetchChildRoutes (parentNamespace : string) (ref : HTTPBackendRef) : result (list KHTTPRoute) :=
  if negb (Backendref.RefIsHTTPRoute (hb_ref ref)) then inr [] else
  let delegatedNs := default parentNamespace (br_namespace (hb_ref ref)) in
  let name := br_name (hb_ref ref) in
  let found :=
    if bool_decide (name = "") || bool_decide (name = "*") then list_httproutes_in delegatedNs
    else match get_httproute {| nn_ns := delegatedNs; nn_name := name |} with
         | inl e => inl e
         | inr k => inr [k]
         end in
  match found with
  | inl e => inl e
  | inr [] => inl ErrUnresolvedReference
  | inr ks => inr ks
  end.

(** [fmt.Errorf("ignoring child route %s for parent %s: %w", parentRef, childRef, ...)] *)
Definition cyclic_error (parentRef childRef : NamespacedName) : Err :=
  ErrWrap ("ignoring child route " +:+ nn_string parentRef +:+ " for parent " +:+
           nn_string childRef +:+ ": ") ErrCyclicReference.

Definition delegation_parent_ref (parent : NamespacedName) : ParentReference :=
  {| pr_group := Some GatewayGroup; pr_kind := Some HTTPRouteKind;
     pr_namespace := Some (nn_ns parent); pr_name := nn_name parent;
     pr_sectionName := None; pr_port := None |}.

(** The visited set is one Go map shared by the whole recursion: it is returned, never
    restored. [refChildren] is declared per rule, so the children found for one backendRef
    of a rule are also stored under the following ones. *)
Fixpoint getDelegatedChildren (fuel : nat) (parent : KHTTPRoute) (visited : gset NamespacedName) :
    M Heap (gset NamespacedName * BackendMap (list HTTPRouteInfo)) :=
  match fuel with
  | O => no_fuel
  | S fuel =>
    let parentRef := hr_nn parent in
    let visited := {[parentRef]} ∪ visited in
    fold_range 0 (hr_rules parent) (visited, NewBackendMap) (λ _ rule '(visited, children),
      acc <~ fold_range 0 (r_backendRefs rule) ((visited, children), []) (λ _ ref '((visited, children), refChildren),
        if negb (Backendref.RefIsHTTPRoute (hb_ref ref)) then ret ((visited, children), refChildren) else
        match fetchChildRoutes (hr_namespace parent) ref with
        | inl e => ret ((visited, bm_AddError (hb_ref ref) e children), refChildren)
        | inr routes =>
            acc <~ fold_range 0 routes ((visited, children), refChildren) (λ _ child '((visited, children), refChildren),
              let childRef := hr_nn child in
              if bool_decide (childRef ∈ visited) then
                ret ((visited, bm_AddError (hb_ref ref) (cyclic_error parentRef childRef) children), refChildren)
              else
                mem <~ (λ h, Ok (load_route child h)) ;;
                sub <~ getDelegatedChildren fuel child visited ;;
                let info := {| hi_route := mem; hi_parentRef := delegation_parent_ref parentRef;
                               hi_hostnameOverrides := [];
                               hi_backends := resolveRouteBackends child;
                               hi_children := sub.2 |} in
                ret ((sub.1, children), refChildren ++ [info])) ;;
            let '((visited, children), refChildren) := acc in
            ret ((visited, bm_Add (hb_ref ref) refChildren children), refChildren)
        end) ;;
      ret acc.1)
  end.

(** [fuel] bounds the number of generations; the number of routes of the cluster is
    always enough (see [getDelegatedChildren_total]). *)
Definition GetHTTPRouteChain (fuel : nat) (k : KHTTPRoute) (mem : MRoute) (hostnames : list string)
    (parentRef : ParentReference) : M Heap HTTPRouteInfo :=
  sub <~ getDelegatedChildren fuel k ∅ ;;
  ret {| hi_route := mem; hi_parentRef := parentRef; hi_hostnameOverrides := hostnames;
         hi_backends := resolveRouteBackends k; hi_children := sub.2 |}.

(** ** GetRoutesForGateway *)
Record ListenerResult := { lr_error : option Err; lr_routes : list HTTPRouteInfo }.
Record RouteError := {
  re_route : MRoute; re_parentRef : ParentReference; re_reason : string; re_err : Err }.
Record RoutesForGwResult := {
  rg_listenerResults : gmap string ListenerResult;
  rg_routeErrors : list RouteError
}.

(** The local flags of the loop over the listeners. *)
Record AttachFlags := {
  anyRoutesAllowed : bool; anyListenerMatched : bool; anyHostsMatch : bool }.

Definition upd_result (n : string) (f : ListenerResult → ListenerResult)
    (ls : gmap string ListenerResult) : gmap string ListenerResult :=
  let lr := default {| lr_error := None; lr_routes := [] |} (ls !! n) in <[n := f lr]> ls.

(** What the loop body decides about one listener before it resolves the route. *)
Inductive Verdict :=
| VError (e : Err)          (** [allowedRoutes] failed *)
| VNotAllowed               (** kind or namespace not admitted *)
| VNoListener               (** admitted, but the parentRef names another listener *)
| VNoHost                   (** the hostnames do not intersect *)
| VAttach (hostnames : list string).

Definition verdict {R} (gw : Gateway) (h : HTTPRoute R) (ref : ParentReference) (l : Listener) : Verdict :=
  match allowedRoutes gw l with
  | inl e => VError e
  | inr (allowedNs, kinds) =>
      if negb (isHttpRouteAllowed kinds) then VNotAllowed
      else if negb (allowedNs (hr_namespace h)) then VNotAllowed
      else if negb (parentRefMatchListener ref l) then VNoListener
      else let '(ok, hostnames) := hostnameIntersect l h in
           if ok then VAttach hostnames else VNoHost
  end.

Definition attach_listener (fuel : nat) (gw : Gateway) (k : KHTTPRoute) (mem : MRoute)
    (ref : ParentReference) (l : Listener) (acc : gmap string ListenerResult * AttachFlags) :
    M Heap (gmap string ListenerResult * AttachFlags) :=
  let '(ls, fl) := acc in
  let ls := upd_result (l_name l) id ls in
  match verdict gw k ref l with
  | VError e =>
      ret (upd_result (l_name l) (λ lr, {| lr_error := Some e; lr_routes := lr_routes lr |}) ls, fl)
  | VNotAllowed => ret (ls, fl)
  | VNoListener =>
      ret (ls, {| anyRoutesAllowed := true; anyListenerMatched := anyListenerMatched fl;
                  anyHostsMatch := anyHostsMatch fl |})
  | VNoHost =>
      ret (ls, {| anyRoutesAllowed := true; anyListenerMatched := true;
                  anyHostsMatch := anyHostsMatch fl |})
  | VAttach hostnames =>
      info <~ GetHTTPRouteChain fuel k mem hostnames ref ;;
      ret (upd_result (l_name l) (λ lr, {| lr_error := lr_error lr; lr_routes := lr_routes lr ++ [info] |}) ls,
           {| anyRoutesAllowed := true; anyListenerMatched := true; anyHostsMatch := true |})
  end.

Definition no_flags : AttachFlags :=
  {| anyRoutesAllowed := false; anyListenerMatched := false; anyHostsMatch := false |}.

Definition ref_error (mem : MRoute) (ref : ParentReference) (fl : AttachFlags) : list RouteError :=
  let err reason e := [{| re_route := mem; re_parentRef := ref; re_reason := reason; re_err := e |}] in
  if negb (anyRoutesAllowed fl) then err "NotAllowedByListeners" ErrNotAllowedByListeners
  else if negb (anyListenerMatched fl) then err "NoMatchingParent" ErrNoMatchingParent
  else if negb (anyHostsMatch fl) then err "NoMatchingListenerHostname" ErrNoMatchingListenerHostname
  else [].

Definition GetRoutesForGateway (fuel : nat) (gw : Gateway) : M Heap (result RoutesForGwResult) :=
  match list_httproutes_by_target (nn_string (gw_nn gw)) with
  | inl e => ret (inl e)
  | inr ks =>
      out <~ fold_range 0 ks (∅, []) (λ _ k acc,
        mem <~ (λ h, Ok (load_route k h)) ;;
        fold_range 0 (getParentRefsForGw gw k) acc (λ _ ref '(ls, errs),
          r <~ fold_range 0 (gw_listeners gw) (ls, no_flags)
                 (λ _ l acc, attach_listener fuel gw k mem ref l acc) ;;
          ret (r.1, errs ++ ref_error mem ref r.2))) ;;
      ret (inr {| rg_listenerResults := out.1; rg_routeErrors := out.2 |})
  end.
End Client.

(** ** utils.go: reporting the outcome of a backend lookup *)
Definition resolved_refs_false (reason msg : string) : Condition :=
  Reports.report_condition "ResolvedRefs" ConditionFalse reason msg.

Definition backend_error_reason (e : Err) : string :=
  if errors_is e ErrUnknownBackendKind then "InvalidKind"
  else if errors_is e ErrMissingReferenceGrant then "RefNotPermitted"
  else if errors_is e ErrCyclicReference then "RefNotPermitted"
  else if errors_is e ErrUnresolvedReference then "BackendNotFound"
  else "BackendNotFound".

Definition ProcessBackendError (e : Err) (h : Reports.ParentRefReporter) : Reports.ReportMap → Reports.ReportMap :=
  Reports.ParentRefReporter_SetCondition h (resolved_refs_false (backend_error_reason e) (err_msg e)).

Definition ProcessBackendRef (r : result KObj) (h : Reports.ParentRefReporter) (ref : BackendObjectReference)
    (rm : Reports.ReportMap) : option string * Reports.ReportMap :=
  match r with
  | inl e => (None, ProcessBackendError e h rm)
  | inr (OUpstream m _) => (Some (om_name m), rm)
  | inr (OService m) =>
      let port := wrap_u32 (default 0%Z (br_port ref)) in
      if bool_decide (port = 0%Z) then
        (None, Reports.ParentRefReporter_SetCondition h (resolved_refs_false "UnsupportedValue" "invalid port value") rm)
      else (Some (om_name m), rm)
  | inr _ =>
      (None, Reports.ParentRefReporter_SetCondition h (resolved_refs_false "InvalidKind" "invalid backend type provided") rm)
  end.
End Query.
