(* ===== verification/QueryFacts.v ===== *)
(** * Properties of the query component *)

From stdpp Require Import base gmap strings list fin_maps sets.
From Stdlib Require Import ZArith Lia.
From S2P Require Import Prelude GoLib GwApi Reports Heap Query.

Import Query.

(** ** Backend map *)
Lemma bm_get_add {T} ref (v : T) bm :
  assoc (backendToRefKey ref) (bm_errors bm) = None → bm_get ref (bm_Add ref v bm) = inr v.
Proof. unfold bm_get; simpl. intros ->. by rewrite decide_True. Qed.

Lemma bm_get_in {T} ref (bm : BackendMap T) v :
  bm_get ref bm = inr v → (backendToRefKey ref, v) ∈ bm_items bm.
Proof.
  unfold bm_get. destruct (assoc _ (bm_errors bm)); [done|].
  destruct (assoc _ (bm_items bm)) eqn:E; [|done]. intros [= <-]. by apply assoc_elem.
Qed.

(** ** Reference grants *)
Definition permits (fromgk : GroupKind) (fromns : string) (togk : GroupKind) (toname : string)
    (g : ReferenceGrant) : Prop :=
  ∃ from to, from ∈ rg_from g ∧ to ∈ rg_to g ∧
    rgf_namespace from = fromns ∧
    coreIfEmpty (rgf_group from) = coreIfEmpty (gk_group fromgk) ∧ rgf_kind from = gk_kind fromgk ∧
    coreIfEmpty (rgt_group to) = coreIfEmpty (gk_group togk) ∧ rgt_kind to = gk_kind togk ∧
    (rgt_name to = None ∨ rgt_name to = Some toname).

Lemma ReferenceAllowed_spec fromgk fromns togk toname grants :
  ReferenceAllowed fromgk fromns togk toname grants = true ↔
  ∃ g, g ∈ grants ∧ permits fromgk fromns togk toname g.
Proof.
  unfold ReferenceAllowed, permits. rewrite existsb_elem.
  setoid_rewrite existsb_elem. setoid_rewrite andb_true_iff.
  setoid_rewrite existsb_elem. setoid_rewrite andb_true_iff.
  setoid_rewrite nil_or_is_true.
  split; intros (g & Hg & Hrest); exists g; (split; [done|]).
  - destruct Hrest as (f & Hf & Hfp & t & Ht & Htp & Hn). exists f, t.
    rewrite !andb_true_iff, !bool_decide_eq_true in *. naive_solver.
  - destruct Hrest as (f & t & Hf & Ht & ?). exists f. split; [done|].
    rewrite !andb_true_iff, !bool_decide_eq_true. split; [naive_solver|].
    exists t. rewrite !andb_true_iff, !bool_decide_eq_true. naive_solver.
Qed.

(** The from-namespace index of ReferenceGrants never hides a grant: evaluating a
    reference from a named namespace over the indexed grants gives the same decision as
    over all grants of the target namespace. *)
Theorem grant_index_complete fromgk fromns togk toname grants :
  fromns ≠ "" →
  ReferenceAllowed fromgk fromns togk toname
    (List.filter (λ g, bool_decide (fromns ∈ refGrantFromIndexer g)) grants) =
  ReferenceAllowed fromgk fromns togk toname grants.
Proof.
  intros Hns. apply eq_true_iff_eq. rewrite !ReferenceAllowed_spec.
  setoid_rewrite list_elem_of_In. setoid_rewrite filter_In.
  setoid_rewrite bool_decide_eq_true. split; [naive_solver|].
  intros (g & Hg & Hp). exists g. split_and!; [done| |done].
  destruct Hp as (f & t & Hf & _ & Hfns & _). unfold refGrantFromIndexer.
  apply elem_of_flat_map. exists f. split; [done|].
  rewrite bool_decide_false by congruence. set_solver.
Qed.

Lemma grant_index_complete_witness :
  let g := {| rg_meta := {| om_name := "g"; om_namespace := "backend"; om_generation := 1;
                            om_creation := 0; om_annotations := ∅ |};
              rg_from := [{| rgf_group := GatewayGroup; rgf_kind := HTTPRouteKind;
                             rgf_namespace := "app" |}];
              rg_to := [{| rgt_group := ""; rgt_kind := "Service"; rgt_name := None |}] |} in
  ReferenceAllowed {| gk_group := GatewayGroup; gk_kind := HTTPRouteKind |} "app"
    {| gk_group := "core"; gk_kind := "Service" |} "svc"
    (List.filter (λ g, bool_decide ("app" ∈ refGrantFromIndexer g)) [g]) = true.
Proof. intros g. rewrite grant_index_complete by done. reflexivity. Defined.

(** The target index of HTTPRoutes never hides an attachment: a route with a
    parentRef to a gateway is indexed under the gateway's name. *)
Theorem route_index_complete {R} (gw : Gateway) (h : HTTPRoute R) :
  om_namespace (gw_meta gw) ≠ "" → getParentRefsForGw gw h ≠ [] →
  nn_string (gw_nn gw) ∈ httpRouteToTargetIndexer h.
Proof.
  intros Hns Hrefs. destruct (getParentRefsForGw gw h) as [|p ps] eqn:E; [done|].
  assert (p ∈ getParentRefsForGw gw h) as Hp by (rewrite E; by left).
  unfold getParentRefsForGw in Hp.
  rewrite list_elem_of_In, filter_In, <-list_elem_of_In, !andb_true_iff, !bool_decide_eq_true in Hp.
  destruct Hp as (Hin & [[Hg Hk] Hpns] & Hname).
  apply elem_of_flat_map. exists p. split; [done|]. rewrite Hg, Hk. simpl.
  apply list_elem_of_singleton. unfold gw_nn, namespacedName. f_equal.
  unfold resolveNs. destruct (pr_namespace p) as [ns|]; simpl in *; subst;
    [rewrite bool_decide_false by done|]; by rewrite Hname, ?Hpns.
Qed.

Definition ex_gw : Gateway :=
  {| gw_meta := {| om_name := "gw"; om_namespace := "infra"; om_generation := 1; om_creation := 0;
                   om_annotations := ∅ |};
     gw_listeners := []; gw_status := {| gs_conditions := []; gs_listeners := [] |} |}.
Definition ex_attached : HTTPRoute unit :=
  {| hr_meta := {| om_name := "r"; om_namespace := "app"; om_generation := 1; om_creation := 0;
                   om_annotations := ∅ |};
     hr_parentRefs := [{| pr_group := None; pr_kind := None; pr_namespace := Some "infra";
                          pr_name := "gw"; pr_sectionName := None; pr_port := None |}];
     hr_hostnames := None; hr_rules := (); hr_statusParents := [] |}.

Lemma route_index_complete_witness :
  "infra/gw" ∈ httpRouteToTargetIndexer ex_attached.
Proof. by apply (route_index_complete ex_gw ex_attached). Defined.

Section Refs.
Context `{K8sClient}.

(** The namespace a reference starts from and the one it points to. *)
Definition from_ns (f : From) : string :=
  if bool_decide (from_namespace f = "") then "default" else from_namespace f.
Definition to_ns (f : From) (ns : option string) : string := default (from_ns f) ns.

(** C24. Cross-namespace references: [getRef] returns an object of another namespace only
    if some ReferenceGrant of that namespace permits exactly this reference; and if the
    grants were listed and none permits it the answer is [ErrMissingReferenceGrant],
    whatever the object store holds. A local reference never needs a grant. *)
Theorem getRef_authorized from name ns gk :
  (∀ obj, getRef from name ns gk = inr obj →
     to_ns from ns = from_ns from ∨
     ∃ fromgk grants g, from_group_kind from = inr fromgk ∧
       list_grants (to_ns from ns) (from_ns from) = inr grants ∧ g ∈ grants ∧
       permits fromgk (from_ns from) gk name g) ∧
  (∀ fromgk grants, to_ns from ns ≠ from_ns from → from_group_kind from = inr fromgk →
     list_grants (to_ns from ns) (from_ns from) = inr grants →
     (∀ g, g ∈ grants → ¬ permits fromgk (from_ns from) gk name g) →
     getRef from name ns gk = inl ErrMissingReferenceGrant) ∧
  (to_ns from ns = from_ns from → known_kind gk = true →
     getRef from name ns gk = get_object gk {| nn_ns := to_ns from ns; nn_name := name |}).
Proof.
  unfold getRef, referenceAllowed. fold (from_ns from). fold (to_ns from ns).
  split_and!.
  - intros obj. case_bool_decide as Hns; [by left|intros Hr; right].
    destruct (from_group_kind from) as [?|fromgk]; [done|].
    destruct (list_grants _ _) as [?|grants] eqn:Eg; [done|].
    destruct (ReferenceAllowed _ _ _ _ _) eqn:Ea; [|done].
    apply ReferenceAllowed_spec in Ea as (g & Hg & Hp). naive_solver.
  - intros fromgk grants Hns -> -> Hno. rewrite bool_decide_false by done.
    destruct (ReferenceAllowed _ _ _ _ _) eqn:Ea; [|done].
    apply ReferenceAllowed_spec in Ea as (g & Hg & Hp). exfalso. by eapply Hno.
  - intros Hns Hk. by rewrite bool_decide_true, Hk by done.
Qed.
End Refs.

(** ** Hostnames *)

(** [pat] (a listener or route hostname) covers [host], which may itself be a wildcard. *)
Definition host_covers (pat host : string) : Prop :=
  if has_prefix pat "*." then has_suffix host (tail_string pat) = true else host = pat.

Lemma host_covers_refl host : host_covers host host.
Proof.
  unfold host_covers. destruct (has_prefix host "*.") eqn:E; [|done].
  apply has_prefix_spec in E as [t ->]. apply has_suffix_spec. by exists "*".
Qed.

(** [hostnameIntersect] is sound: every hostname it returns is covered by the
    listener's hostname (when it has one) and, for a route with hostnames, by one of
    them; and a listener with a hostname never attaches a route under an empty list
    (which would later be read as the catch-all "*"). *)
Theorem hostnameIntersect_sound {R} (l : Listener) (h : HTTPRoute R) hs :
  hostnameIntersect l h = (true, hs) →
  (∀ x, x ∈ hs →
     (∀ lh, l_hostname l = Some lh → host_covers lh x) ∧
     (hostnames_of h ≠ [] → ∃ y, y ∈ hostnames_of h ∧ host_covers y x)) ∧
  (l_hostname l ≠ None → hs ≠ []).
Proof.
  unfold hostnameIntersect. destruct (l_hostname l) as [lh|] eqn:El; last first.
  { intros [= <-]. split; [|done]. intros x Hx. split; [done|].
    eauto using host_covers_refl. }
  destruct (has_prefix lh "*.") eqn:Ew.
  - unfold hostnames_of. destruct (hr_hostnames h) as [rh|]; simpl.
    + intros [= Hne Hhs]. apply negb_true_iff, bool_decide_eq_false in Hne.
      rewrite Hhs in Hne. split; [|done]. intros x Hx. rewrite <-Hhs in Hx.
      apply list_elem_of_In, filter_In in Hx as [Hin Hsuf]. apply list_elem_of_In in Hin. split.
      * intros ? [= <-]. unfold host_covers. by rewrite Ew.
      * eauto using host_covers_refl.
    + intros [= <-]. split; [|done]. intros x ->%list_elem_of_singleton. split; [|done].
      intros ? [= <-]. apply host_covers_refl.
  - destruct (hostnames_of h) as [|y0 rh] eqn:Eh.
    + intros [= <-]. split; [|done]. intros x ->%list_elem_of_singleton. split; [|done].
      intros ? [= <-]. apply host_covers_refl.
    + rewrite <-Eh. destruct (existsb _ _) eqn:Ex; [|done]. intros [= <-]. split; [|done].
      intros x ->%list_elem_of_singleton. split; [intros ? [= <-]; apply host_covers_refl|].
      intros _. apply existsb_elem in Ex as (y & Hy & Hcov). exists y. split; [done|].
      apply orb_true_iff in Hcov as [->%bool_decide_eq_true|[Hw Hs]%andb_true_iff];
        [apply host_covers_refl|]. unfold host_covers. by rewrite Hw.
Qed.

Lemma hostnameIntersect_sound_witness :
  let l := {| l_name := "l"; l_hostname := Some "*.example.com"; l_port := 80; l_protocol := "HTTP";
              l_tls := None; l_allowedRoutes := None |} in
  let h := {| hr_meta := hr_meta ex_attached; hr_parentRefs := [];
              hr_hostnames := Some ["a.example.com"; "b.other.com"]; hr_rules := ();
              hr_statusParents := [] |} in
  hostnameIntersect l h = (true, ["a.example.com"]) ∧ host_covers "*.example.com" "a.example.com".
Proof.
  intros l h. split; [reflexivity|].
  by apply (proj1 (hostnameIntersect_sound l h ["a.example.com"] eq_refl) "a.example.com"); [left|].
Defined.

(** A wildcard route hostname that is less specific than a wildcard listener hostname is
    not recognised as an intersection. *)
Example hostnameIntersect_nested_wildcard :
  let l := {| l_name := "l"; l_hostname := Some "*.bar.example.com"; l_port := 80;
              l_protocol := "HTTP"; l_tls := None; l_allowedRoutes := None |} in
  let h := {| hr_meta := hr_meta ex_attached; hr_parentRefs := [];
              hr_hostnames := Some ["*.example.com"]; hr_rules := (); hr_statusParents := [] |} in
  hostnameIntersect l h = (false, []) ∧
  host_covers "*.bar.example.com" "a.bar.example.com" ∧ host_covers "*.example.com" "a.bar.example.com".
Proof. done. Qed.

(** ** The tree of delegated routes *)

(** Every route of the tree has its rules array in memory. *)
Inductive wf_info (h : Heap) : HTTPRouteInfo → Prop :=
| wf_info_intro i :
    hr_rules (hi_route i) ∈ dom (h_rules h) →
    (∀ k cs c, (k, cs) ∈ bm_items (hi_children i) → c ∈ cs → wf_info h c) →
    wf_info h i.

(** No route occurs again below itself, nor any of [anc]. *)
Inductive acyclic (anc : gset NamespacedName) : HTTPRouteInfo → Prop :=
| acyclic_intro i :
    hi_nn i ∉ anc →
    (∀ k cs c, (k, cs) ∈ bm_items (hi_children i) → c ∈ cs → acyclic ({[hi_nn i]} ∪ anc) c) →
    acyclic anc i.

Lemma wf_info_mono h h' i : heap_le h h' → wf_info h i → wf_info h' i.
Proof.
  intros [Hd _]. induction 1 as [i Hr Hc IH]. constructor; [set_solver|]. eauto.
Qed.

Lemma acyclic_anti anc anc' i : anc' ⊆ anc → acyclic anc i → acyclic anc' i.
Proof.
  intros Hsub Hi. revert anc' Hsub. induction Hi as [anc i Hni Hc IH]; intros anc' Hsub.
  constructor; [set_solver|]. intros k cs c Hk Hcs. eapply IH; [done..|set_solver].
Qed.

(** The rules arrays of a tree and of its proper descendants. *)
Inductive tree_loc : HTTPRouteInfo → loc → Prop :=
| tree_loc_here i : tree_loc i (hr_rules (hi_route i))
| tree_loc_below i k cs c l :
    (k, cs) ∈ bm_items (hi_children i) → c ∈ cs → tree_loc c l → tree_loc i l.
Definition below (i : HTTPRouteInfo) (l : loc) : Prop :=
  ∃ k cs c, (k, cs) ∈ bm_items (hi_children i) ∧ c ∈ cs ∧ tree_loc c l.

Lemma wf_info_loc h i l : wf_info h i → tree_loc i l → l ∈ dom (h_rules h).
Proof. intros Hwf Hl. revert Hwf. induction Hl; inversion 1; subst; eauto. Qed.

Lemma wf_info_below h i l : wf_info h i → below i l → l ∈ dom (h_rules h).
Proof. intros Hwf (k & cs & c & ? & ? & ?). inversion Hwf; subst. eauto using wf_info_loc. Qed.

(** The cells of [h] are still there, and its rules arrays unchanged. *)
Definition heap_grows (h h' : Heap) : Prop :=
  heap_le h h' ∧ ∀ l, l ∈ dom (h_rules h) → h_rules h' !! l = h_rules h !! l.

#[export] Instance heap_grows_preorder : PreOrder heap_grows.
Proof.
  split; [by split|]. intros h1 h2 h3 [Hle1 H1] [Hle2 H2]. split; [by etrans|].
  intros l Hl. rewrite H2, H1; [done|done|]. destruct Hle1. set_solver.
Qed.

Section Tree.
Context `{K8sClient}.

(** The HTTPRoutes the API server can return: finitely many, after CRD defaulting. *)
Definition served (U : gset NamespacedName) (k : KHTTPRoute) : Prop :=
  hr_nn k ∈ U ∧ route_defaulted k.

Class FiniteCluster (U : gset NamespacedName) : Prop := {
  get_served : ∀ n k, get_httproute n = inr k → served U k;
  list_served : ∀ ns ks, list_httproutes_in ns = inr ks → Forall (served U) ks;
  target_served : ∀ t ks, list_httproutes_by_target t = inr ks → Forall (served U) ks
}.

Context (U : gset NamespacedName) `{!FiniteCluster U}.

Lemma fetch_served ns ref ks : fetchChildRoutes ns ref = inr ks → Forall (served U) ks.
Proof.
  unfold fetchChildRoutes. destruct (negb _); [intros [= <-]; constructor|].
  destruct (_ || _).
  - destruct (list_httproutes_in _) as [|[|k' ks']] eqn:E; [done..|]. intros [= <-].
    by eapply list_served.
  - destruct (get_httproute _) as [|k'] eqn:E; [done|]. intros [= <-].
    constructor; [by eapply get_served|constructor].
Qed.

(** A child loaded after [h0]: none of the arrays of its tree existed in [h0]. *)
Definition child_good (h0 h : Heap) (anc : gset NamespacedName) (c : HTTPRouteInfo) : Prop :=
  wf_info h c ∧ acyclic anc c ∧ ∀ l, tree_loc c l → l ∉ dom (h_rules h0).
Definition children_good (h0 h : Heap) (anc : gset NamespacedName) (bm : BackendMap (list HTTPRouteInfo)) : Prop :=
  ∀ k cs c, (k, cs) ∈ bm_items bm → c ∈ cs → child_good h0 h anc c.

Lemma child_good_mono h0 h h' anc c : heap_le h h' → child_good h0 h anc c → child_good h0 h' anc c.
Proof. intros ? (?&?&?). split_and!; eauto using wf_info_mono. Qed.

(** Loop invariant of [getDelegatedChildren]: [V0] is the visited set on entry, with the
    parent. *)
Definition tree_inv (h0 : Heap) (V0 v : gset NamespacedName)
    (bm : BackendMap (list HTTPRouteInfo)) (cs : list HTTPRouteInfo) (h : Heap) : Prop :=
  heap_ok h ∧ heap_grows h0 h ∧ V0 ⊆ v ∧ children_good h0 h V0 bm ∧
  Forall (child_good h0 h V0) cs.

Lemma tree_inv_error h0 V0 v bm cs h ref e :
  tree_inv h0 V0 v bm cs h → tree_inv h0 V0 v (bm_AddError ref e bm) cs h.
Proof. done. Qed.

Lemma tree_inv_add h0 V0 v bm cs h ref :
  tree_inv h0 V0 v bm cs h → tree_inv h0 V0 v (bm_Add ref cs bm) cs h.
Proof.
  intros (Hok & Hg & HV & Hbm & Hcs). split_and!; [done..| |done].
  intros k cs' c Hk Hc. simpl in Hk. apply elem_of_cons in Hk as [[= -> ->]|Hk]; [|by eapply Hbm].
  rewrite Forall_forall in Hcs. by apply Hcs.
Qed.

Lemma tree_inv_drop h0 V0 v bm cs h : tree_inv h0 V0 v bm cs h → tree_inv h0 V0 v bm [] h.
Proof. intros (?&?&?&?&?). split_and!; try done. Qed.

Definition tree_post (h0 : Heap) (V0 : gset NamespacedName) 
    (r : gset NamespacedName * BackendMap (list HTTPRouteInfo)) (h : Heap) : Prop :=
  tree_inv h0 V0 r.1 r.2 [] h.

(** One child: the invariant is kept when the recursive call meets its specification. *)
Lemma tree_inv_child h0 V0 v bm cs h child mem h1 sub h2 prf :
  tree_inv h0 V0 v bm cs h → hr_nn child ∉ v → route_defaulted child →
  load_route child h = (mem, h1) → tree_post h1 ({[hr_nn child]} ∪ v) sub h2 →
  tree_inv h0 V0 sub.1 bm
    (cs ++ [{| hi_route := mem; hi_parentRef := prf; hi_hostnameOverrides := [];
               hi_backends := resolveRouteBackends child; hi_children := sub.2 |}]) h2.
Proof.
  intros (Hok & Hg & HV & Hbm & Hcs) Hv Hdef Hload (Hok2 & Hg2 & HV2 & Hbm2 & _).
  destruct (load_route_spec _ _ _ _ Hload Hok Hdef) as (Hok1 & Hle1 & Hnn & (rs & Hrs & _) & Hfresh & Hk1).
  assert (heap_grows h h2) as Hgrow by (etrans; [by split|done]).
  split_and!; [done|by etrans|set_solver| |].
  - intros k cs' c ??. eapply child_good_mono; [apply Hgrow|by eapply Hbm].
  - apply Forall_app. split.
    + eapply Forall_impl; [exact Hcs|]. intros. eapply child_good_mono; [apply Hgrow|done].
    + constructor; [|constructor]. split_and!; [constructor; simpl|constructor; simpl|].
      * destruct Hg2 as [[Hd _] _]. apply Hd, elem_of_dom. by eexists.
      * intros k cs' c ??. by eapply Hbm2.
      * unfold hi_nn; simpl. rewrite Hnn. set_solver.
      * intros k cs' c Hk Hc. eapply acyclic_anti; [|by eapply Hbm2].
        unfold hi_nn; simpl. rewrite Hnn. set_solver.
      * destruct Hg as [[Hd _] _]. destruct Hle1 as [Hd1 _]. intros l Hl.
        inversion Hl as [|i k cs' c l' Hk Hc Hl']; subst; simpl in *; [set_solver|].
        destruct (Hbm2 _ _ _ Hk Hc) as (_ & _ & Hnew). specialize (Hnew _ Hl'). set_solver.
Qed.

Lemma remaining_decreases (V0 v : gset NamespacedName) c :
  c ∈ U → c ∉ v → V0 ⊆ v → size (U ∖ ({[c]} ∪ v)) < size (U ∖ V0).
Proof.
  intros Hc Hv Hsub. apply subset_size. split; [set_solver|].
  intros Hle. assert (c ∈ U ∖ ({[c]} ∪ v)) by (apply Hle; set_solver). set_solver.
Qed.

Lemma getDelegatedChildren_spec fuel : ∀ parent visited h,
  heap_ok h → size (U ∖ ({[hr_nn parent]} ∪ visited)) < fuel →
  wp (getDelegatedChildren fuel parent visited) (tree_post h ({[hr_nn parent]} ∪ visited)) h.
Proof.
  induction fuel as [|fuel IH]; intros parent visited h0 Hok Hfuel; [lia|].
  set (V0 := {[hr_nn parent]} ∪ visited) in *. simpl. fold V0.
  apply (wp_fold_range (λ acc, tree_post h0 V0 acc)).
  { split_and!; [done..| |constructor]. intros ??? Hk. simpl in Hk. set_solver. }
  intros _ rule [v bm] h _ Hinv. wp_step.
  eapply wp_mono; [apply (wp_fold_range (λ acc, tree_inv h0 V0 acc.1.1 acc.1.2 acc.2));
                   [exact Hinv|]|];
    last (intros [[v' bm'] cs'] h' Hinv'; by eapply tree_inv_drop).
  clear v bm h Hinv. intros _ ref [[v bm] cs] h _ Hinv.
  destruct (negb _); [done|].
  destruct (fetchChildRoutes _ _) as [e|routes] eqn:Efetch; [done|].
  apply fetch_served in Efetch. wp_step.
  eapply wp_mono; [apply (wp_fold_range (λ acc, tree_inv h0 V0 acc.1.1 acc.1.2 acc.2));
                   [exact Hinv|]|];
    last (intros [[v' bm'] cs'] h' Hinv'; by apply tree_inv_add).
  clear v bm cs h Hinv. intros _ child [[v bm] cs] h Hchild Hinv.
  rewrite Forall_forall in Efetch. destruct (Efetch _ Hchild) as [HU Hdef].
  case_bool_decide as Hv; [done|]. wp_step. unfold wp at 1.
  destruct (load_route child h) as [mem h1] eqn:Eload.
  pose proof Hinv as (Hokh & Hg & HV & _).
  destruct (load_route_spec _ _ _ _ Eload Hokh Hdef) as (Hok1 & _).
  wp_step. eapply wp_mono; [apply IH; [done|]|].
  { pose proof (remaining_decreases V0 v (hr_nn child) HU Hv HV). lia. }
  intros sub h2 Hsub. apply wp_ret. exact (tree_inv_child _ _ _ _ _ _ _ _ _ _ _ _ Hinv Hv Hdef Eload Hsub).
Qed.

Lemma chain_spec k mem hostnames ref h :
  heap_ok h → hr_rules mem ∈ dom (h_rules h) → hr_nn mem = hr_nn k →
  ∃ info h', GetHTTPRouteChain (S (size U)) k mem hostnames ref h = Ok (info, h') ∧
    hi_route info = mem ∧ hi_parentRef info = ref ∧ hi_hostnameOverrides info = hostnames ∧
    heap_ok h' ∧ heap_grows h h' ∧ wf_info h' info ∧ acyclic ∅ info ∧
    (∀ l, below info l → l ∉ dom (h_rules h)).
Proof.
  intros Hok Hmem Hnn.
  destruct (wp_run _ _ _ (getDelegatedChildren_spec (S (size U)) k ∅ h Hok
    ltac:(pose proof (subseteq_size (U ∖ ({[hr_nn k]} ∪ ∅)) U ltac:(set_solver)); lia)))
    as (sub & h' & Hrun & (Hok' & Hg & _ & Hbm & _)).
  unfold GetHTTPRouteChain, bind. rewrite Hrun. eexists _, h'. split; [done|].
  split_and!; [done..| | |].
  - constructor; simpl; [destruct Hg as [[Hd _] _]; set_solver|]. intros. by eapply Hbm.
  - constructor; simpl; [set_solver|]. intros. unfold hi_nn; simpl. rewrite Hnn.
    eapply Hbm; done.
  - intros l (k' & cs & c & Hk & Hc & Hl). by eapply Hbm.
Qed.

(** C23. Resolving the delegation tree of a route always terminates without a panic, even
    on cyclic references, within a recursion depth of the number of HTTPRoutes of the
    cluster plus one; no route occurs again below itself in the resulting tree, and the
    rules of already loaded routes are untouched. *)
Theorem GetHTTPRouteChain_total k mem hostnames ref h :
  heap_ok h → hr_rules mem ∈ dom (h_rules h) → hr_nn mem = hr_nn k →
  ∃ info h', GetHTTPRouteChain (S (size U)) k mem hostnames ref h = Ok (info, h') ∧
    hi_route info = mem ∧ heap_ok h' ∧ heap_grows h h' ∧ wf_info h' info ∧ acyclic ∅ info.
Proof.
  intros Hok Hmem Hnn. destruct (chain_spec k mem hostnames ref h Hok Hmem Hnn)
    as (info & h' & Hrun & Hroute & _ & _ & Hok' & Hg & Hwf & Hac & _). by exists info, h'.
Qed.

(** ** The routes of a gateway *)

(** What the Gateway API asks of a listener before a route attaches to it: its kinds
    include HTTPRoute (explicitly, or by its protocol), its namespace selection accepts the
    namespace of the route, and the parentRef names it. *)
Definition kind_admitted (l : Listener) : bool :=
  match l_allowedRoutes l ≫= ar_kinds with
  | Some kinds => existsb (λ g, bool_decide (rgk_group g ∈ [None; Some ""; Some GatewayGroup]) &&
                                bool_decide (rgk_kind g = HTTPRouteKind)) kinds
  | None => negb (bool_decide (l_protocol l ∈ [TLSProtocolType; TCPProtocolType; UDPProtocolType]))
  end.

Definition namespace_admitted (gw : Gateway) (l : Listener) (ns : string) : bool :=
  match (l_allowedRoutes l ≫= ar_namespaces) ≫= rn_from with
  | Some NamespacesFromAll => true
  | Some NamespacesFromSelector =>
      match (l_allowedRoutes l ≫= ar_namespaces) ≫= rn_selector with
      | Some sel => match label_selector sel with
                    | inr f => f (namespace_labels ns)
                    | inl _ => false
                    end
      | None => false
      end
  | _ => bool_decide (om_namespace (gw_meta gw) = ns)
  end.

(** How far a parentRef gets with a listener: 0 not admitted, 1 another listener is meant,
    2 no common hostname, 3 attached. *)
Definition stage (gw : Gateway) (k : KHTTPRoute) (ref : ParentReference) (l : Listener) : nat :=
  if negb (kind_admitted l && namespace_admitted gw l (hr_namespace k)) then 0
  else if negb (nil_or_is (pr_sectionName ref) (l_name l) && nil_or_is (pr_port ref) (l_port l)) then 1
  else if negb (hostnameIntersect l k).1 then 2 else 3.

(** What a route contributes to the listeners of one name. *)
Definition attachments_ref (gw : Gateway) (k : KHTTPRoute) (n : string) (ref : ParentReference)
    (ls : list Listener) : list (NamespacedName * ParentReference * list string) :=
  flat_map (λ l, if bool_decide (l_name l = n) then
                   if stage gw k ref l =? 3 then [(hr_nn k, ref, (hostnameIntersect l k).2)] else []
                 else []) ls.
Definition attachments (gw : Gateway) (ks : list KHTTPRoute) (n : string) :
    list (NamespacedName * ParentReference * list string) :=
  flat_map (λ k, flat_map (λ ref, attachments_ref gw k n ref (gw_listeners gw)) (getParentRefsForGw gw k)) ks.

(** The error of a parentRef that no listener accepts: the furthest stage any listener
    reached. *)
Definition reaches (s : nat) (n : nat) : bool := n =? s.
Definition expected_error (vs : list nat) : list string :=
  if existsb (reaches 3) vs then []
  else if existsb (reaches 2) vs then ["NoMatchingListenerHostname"]
  else if existsb (reaches 1) vs then ["NoMatchingParent"]
  else ["NotAllowedByListeners"].
Definition expected_errors_of (gw : Gateway) (k : KHTTPRoute) (refs : list ParentReference) :
    list (NamespacedName * ParentReference * string) :=
  flat_map (λ ref, map (λ r, (hr_nn k, ref, r))
    (expected_error (map (stage gw k ref) (gw_listeners gw)))) refs.
Definition expected_errors (gw : Gateway) (ks : list KHTTPRoute) :
    list (NamespacedName * ParentReference * string) :=
  flat_map (λ k, expected_errors_of gw k (getParentRefsForGw gw k)) ks.

Definition attached (n : string) (ls : gmap string ListenerResult) :
    list (NamespacedName * ParentReference * list string) :=
  map (λ i, (hi_nn i, hi_parentRef i, hi_hostnameOverrides i)) (from_option lr_routes [] (ls !! n)).
Definition reported (es : list RouteError) : list (NamespacedName * ParentReference * string) :=
  map (λ e, (hr_nn (re_route e), re_parentRef e, re_reason e)) es.

(** Every attached route is well formed in memory, its delegation tree has no cycle, its
    rules are in one of the arrays [roots] and all have explicit matches, and none of its
    descendants uses one of these arrays. *)
Definition attached_good (h : Heap) (roots : gset loc) (i : HTTPRouteInfo) : Prop :=
  wf_info h i ∧ acyclic ∅ i ∧ hr_rules (hi_route i) ∈ roots ∧ ∀ l, below i l → l ∉ roots.
Definition roots_ready (h : Heap) (roots : gset loc) : Prop :=
  ∀ l, l ∈ roots → ∃ rs, h_rules h !! l = Some rs ∧ Forall rule_ready rs.
Definition results_good (h : Heap) (roots : gset loc) (ls : gmap string ListenerResult) : Prop :=
  roots_ready h roots ∧
  ∀ n lr i, ls !! n = Some lr → i ∈ lr_routes lr → attached_good h roots i.

Lemma attached_upd n n' f ls :
  attached n (upd_result n' f ls) =
  if bool_decide (n' = n)
  then map (λ i, (hi_nn i, hi_parentRef i, hi_hostnameOverrides i))
         (lr_routes (f (default {| lr_error := None; lr_routes := [] |} (ls !! n))))
  else attached n ls.
Proof.
  unfold attached, upd_result. case_bool_decide as Hn.
  - subst. by rewrite lookup_insert_eq.
  - by rewrite lookup_insert_ne.
Qed.

Lemma attached_keep n n' f ls :
  (∀ lr, lr_routes (f lr) = lr_routes lr) → attached n (upd_result n' f ls) = attached n ls.
Proof.
  intros Hf. rewrite attached_upd. case_bool_decide; [|done]. rewrite Hf. unfold attached.
  by destruct (ls !! n).
Qed.

Lemma results_good_upd h roots n f ls :
  results_good h roots ls →
  (∀ lr i, i ∈ lr_routes (f lr) → i ∈ lr_routes lr ∨ attached_good h roots i) →
  results_good h roots (upd_result n f ls).
Proof.
  intros [Hr Hgood] Hf. split; [done|]. intros n' lr i Hl Hi. unfold upd_result in Hl.
  apply lookup_insert_Some in Hl as [[<- <-]|[_ Hl]]; [|by eapply Hgood].
  apply Hf in Hi as [Hi|]; [|done]. destruct (ls !! n) as [lr'|] eqn:E; simpl in Hi; [by eapply Hgood|].
  set_solver.
Qed.

Lemma roots_ready_grows h h' roots : heap_grows h h' → roots_ready h roots → roots_ready h' roots.
Proof.
  intros [_ Hk] Hr l Hl. destruct (Hr l Hl) as (rs & Hrs & ?). exists rs. split; [|done].
  rewrite Hk; [done|]. apply elem_of_dom. by exists rs.
Qed.

Lemma results_good_grows h h' roots ls :
  heap_grows h h' → results_good h roots ls → results_good h' roots ls.
Proof.
  intros Hg [Hr Hgood]. split; [by eapply roots_ready_grows|].
  intros n lr i Hl Hi. destruct (Hgood n lr i Hl Hi) as (?&?&?&?).
  split_and!; [|done..]. eapply wf_info_mono; [apply Hg|done].
Qed.

(** A freshly loaded route becomes a root. *)
Lemma results_good_root h h' roots l rs ls :
  heap_grows h h' → l ∉ dom (h_rules h) → h_rules h' !! l = Some rs → Forall rule_ready rs →
  results_good h roots ls → results_good h' ({[l]} ∪ roots) ls.
Proof.
  intros Hg Hl Hrs Hready Hgood. pose proof (results_good_grows _ _ _ _ Hg Hgood) as [Hr' Hgood'].
  split.
  - intros l' [->%elem_of_singleton|]%elem_of_union; [by exists rs|by apply Hr'].
  - intros n lr i Hn Hi. destruct (Hgood' n lr i Hn Hi) as (?&?&?&Hb).
    destruct (proj2 Hgood n lr i Hn Hi) as (Hwf&_). split_and!; [done..|set_solver|].
    intros l' Hl' [->%elem_of_singleton|]%elem_of_union; [|by eapply Hb].
    by eapply Hl, wf_info_below.
Qed.

(** The local flags record the furthest stage. *)
Definition flags_of (vs : list nat) : AttachFlags :=
  {| anyRoutesAllowed := existsb (reaches 1) vs || existsb (reaches 2) vs || existsb (reaches 3) vs;
     anyListenerMatched := existsb (reaches 2) vs || existsb (reaches 3) vs;
     anyHostsMatch := existsb (reaches 3) vs |}.

Lemma ref_error_expected mem ref vs :
  reported (ref_error mem ref (flags_of vs)) = map (λ r, (hr_nn mem, ref, r)) (expected_error vs).
Proof.
  unfold ref_error, flags_of, expected_error; simpl.
  by destruct (existsb (reaches 3) vs), (existsb (reaches 2) vs), (existsb (reaches 1) vs).
Qed.

(** The checks of the loop body compute the stage. *)
Definition code (v : Verdict) : nat :=
  match v with VError _ | VNotAllowed => 0 | VNoListener => 1 | VNoHost => 2 | VAttach _ => 3 end.

Lemma kinds_admitted ks :
  isHttpRouteAllowed (map (λ k, {| gk_group := default GatewayGroup (rgk_group k); gk_kind := rgk_kind k |}) ks) =
  existsb (λ g, bool_decide (rgk_group g ∈ [None; Some ""; Some GatewayGroup]) && bool_decide (rgk_kind g = HTTPRouteKind)) ks.
Proof.
  unfold isHttpRouteAllowed, isRouteAllowed. induction ks as [|k ks IH]; [done|]. simpl. rewrite IH. do 2 f_equal.
  destruct (rgk_group k) as [g|]; [|done]. simpl. destruct (decide (g = "")) as [->|]; [done|].
  rewrite (bool_decide_eq_false_2 (g = "")) by done. apply bool_decide_ext. set_solver.
Qed.

(** The kinds admitted by the protocol. *)
Lemma protocol_kinds p :
  isHttpRouteAllowed
    (if bool_decide (p = HTTPSProtocolType) || bool_decide (p = HTTPProtocolType)
     then [{| gk_group := GatewayGroup; gk_kind := HTTPRouteKind |}]
     else if bool_decide (p = TLSProtocolType) || bool_decide (p = TCPProtocolType) then [{| gk_group := ""; gk_kind := "" |}]
     else if bool_decide (p = UDPProtocolType) then [{| gk_group := ""; gk_kind := "" |}]
     else [{| gk_group := GatewayGroup; gk_kind := HTTPRouteKind |}]) =
  negb (bool_decide (p ∈ [TLSProtocolType; TCPProtocolType; UDPProtocolType])).
Proof.
  destruct (decide (p = HTTPSProtocolType)) as [->|]; [done|]. destruct (decide (p = HTTPProtocolType)) as [->|]; [done|].
  destruct (decide (p = TLSProtocolType)) as [->|]; [done|]. destruct (decide (p = TCPProtocolType)) as [->|]; [done|].
  destruct (decide (p = UDPProtocolType)) as [->|]; [done|].
  rewrite !bool_decide_eq_false_2 by (try done; set_solver). done.
Qed.

Lemma allowedRoutes_stage gw l ns :
  match allowedRoutes gw l with
  | inr (f, kinds) => isHttpRouteAllowed kinds = kind_admitted l ∧ f ns = namespace_admitted gw l ns
  | inl _ => namespace_admitted gw l ns = false
  end.
Proof.
  unfold allowedRoutes, kind_admitted, namespace_admitted.
  destruct (l_allowedRoutes l) as [ar|]; simpl; [|split; [apply protocol_kinds|done]].
  set (kinds := match ar_kinds ar with Some _ => _ | None => _ end).
  assert (isHttpRouteAllowed kinds =
    match ar_kinds ar with
    | Some kinds => existsb (λ g, bool_decide (rgk_group g ∈ [None; Some ""; Some GatewayGroup]) &&
                                  bool_decide (rgk_kind g = HTTPRouteKind)) kinds
    | None => negb (bool_decide (l_protocol l ∈ [TLSProtocolType; TCPProtocolType; UDPProtocolType]))
    end) as Hkinds by (subst kinds; destruct (ar_kinds ar); [apply kinds_admitted|apply protocol_kinds]).
  destruct (ar_namespaces ar ≫= rn_from) as [[]|]; destruct (ar_namespaces ar ≫= rn_selector) as [sel|];
    rewrite ?Hkinds; simpl; try done. by destruct (label_selector sel); rewrite ?Hkinds.
Qed.

Lemma verdict_stage gw k ref l :
  stage gw k ref l = code (verdict gw k ref l) ∧
  (∀ hs, verdict gw k ref l = VAttach hs → (hostnameIntersect l k).2 = hs).
Proof.
  unfold stage, verdict. pose proof (allowedRoutes_stage gw l (hr_namespace k)) as Hstage.
  destruct (allowedRoutes gw l) as [e|[f kinds]]; [by rewrite Hstage, andb_false_r|]. destruct Hstage as [-> ->].
  destruct (kind_admitted l); [|done]. destruct (namespace_admitted gw l _); [|done]. simpl.
  unfold parentRefMatchListener. rewrite (andb_comm (nil_or_is (pr_port ref) _)). destruct (_ && _); [|done]. simpl.
  destruct (hostnameIntersect l k) as [[] hs]; simpl; (split; [done|]); naive_solver.
Qed.

Definition listeners_inv (h0 : Heap) (roots : gset loc) (gw : Gateway) (k : KHTTPRoute) (ref : ParentReference)
    (ls0 : gmap string ListenerResult) (done : list Listener)
    (acc : gmap string ListenerResult * AttachFlags) (h : Heap) : Prop :=
  heap_ok h ∧ heap_grows h0 h ∧ results_good h roots acc.1 ∧
  (∀ n, attached n acc.1 = attached n ls0 ++ attachments_ref gw k n ref done) ∧
  acc.2 = flags_of (map (stage gw k ref) done).

Lemma flags_snoc vs v :
  flags_of (vs ++ [v]) =
  {| anyRoutesAllowed := anyRoutesAllowed (flags_of vs) || (reaches 1 v || reaches 2 v || reaches 3 v);
     anyListenerMatched := anyListenerMatched (flags_of vs) || (reaches 2 v || reaches 3 v);
     anyHostsMatch := anyHostsMatch (flags_of vs) || reaches 3 v |}.
Proof.
  unfold flags_of. rewrite !existsb_app. simpl. rewrite !orb_false_r.
  f_equal; destruct (existsb (reaches 1) vs), (existsb (reaches 2) vs), (existsb (reaches 3) vs),
    (reaches 1 v), (reaches 2 v), (reaches 3 v); done.
Qed.

(** One listener that does not attach the route: only its flags and error change. *)
Lemma listeners_inv_skip h0 roots gw k ref ls0 done ls ls' fl fl' h l v :
  verdict gw k ref l = v →
  listeners_inv h0 roots gw k ref ls0 done (ls, fl) h → reaches 3 (code v) = false →
  results_good h roots ls' → (∀ n, attached n ls' = attached n ls) →
  fl' = {| anyRoutesAllowed := anyRoutesAllowed fl || (reaches 1 (code v) || reaches 2 (code v));
           anyListenerMatched := anyListenerMatched fl || reaches 2 (code v);
           anyHostsMatch := anyHostsMatch fl |} →
  listeners_inv h0 roots gw k ref ls0 (done ++ [l]) (ls', fl') h.
Proof.
  intros Ev (Hok & Hg & Hgood & Hatt & Hfl) Hv Hgood' Hatt' ->. simpl in *.
  split_and!; [done..| |]; simpl.
  - intros n. rewrite Hatt', Hatt. f_equal. unfold attachments_ref. rewrite flat_map_app. simpl.
    destruct (verdict_stage gw k ref l) as [-> _]. rewrite Ev. by case_bool_decide; destruct v; rewrite ?app_nil_r.
  - rewrite map_app. cbn [map]. destruct (verdict_stage gw k ref l) as [-> _].
    rewrite flags_snoc, <-Hfl. simpl. by rewrite Ev, Hv, !orb_false_r.
Qed.

Lemma upd_result_id n ls : upd_result n id (upd_result n id ls) = upd_result n id ls.
Proof. unfold upd_result. rewrite lookup_insert_eq. simpl. by rewrite insert_insert_eq. Qed.

Lemma attach_listener_spec h0 roots gw k mem ref ls0 done l acc h :
  hr_nn mem = hr_nn k → hr_rules mem ∈ roots → roots ⊆ dom (h_rules h0) →
  listeners_inv h0 roots gw k ref ls0 done acc h →
  wp (attach_listener (S (size U)) gw k mem ref l acc)
     (listeners_inv h0 roots gw k ref ls0 (done ++ [l])) h.
Proof.
  intros Hnn Hmem Hroots Hinv. destruct acc as [ls fl]. unfold attach_listener.
  pose proof Hinv as (Hok & Hg & Hgood & Hatt & Hfl). simpl in Hfl, Hgood.
  assert (results_good h roots (upd_result (l_name l) id ls)) as Hgood1
    by (apply results_good_upd; [done|by left]).
  assert (∀ n, attached n (upd_result (l_name l) id ls) = attached n ls) as Hatt1
    by (intros; by apply attached_keep).
  destruct (verdict gw k ref l) as [e| | | |hs] eqn:Ev;
    [apply wp_ret; eapply (listeners_inv_skip _ _ _ _ _ _ _ _ _ _ _ _ _ _ Ev Hinv eq_refl);
     [try exact Hgood1|try exact Hatt1|cbn; rewrite ?orb_false_r, ?orb_true_r; by destruct fl]..|].
  - apply results_good_upd; [exact Hgood1|]. by left.
  - intros n. rewrite attached_keep by (intros; reflexivity). apply Hatt1.
  - wp_step. destruct (chain_spec k mem hs ref h Hok ltac:(destruct Hg as [[Hd _] _]; set_solver) Hnn)
      as (info & h' & Hrun & Hroute & Hpr & Hho & Hok' & Hg' & Hwf & Hac & Hbelow).
    unfold wp at 1. rewrite Hrun. apply wp_ret. split_and!; simpl; [done|by etrans| | |].
    + apply results_good_upd; [apply results_good_upd; [|by left]|].
      * by eapply results_good_grows.
      * intros lr i. simpl. rewrite elem_of_app, list_elem_of_singleton.
        intros [?| ->]; [by left|right]. split_and!; [done..|by rewrite Hroute|].
        intros l' Hl'. destruct Hg as [[Hd _] _]. specialize (Hbelow _ Hl'). set_solver.
    + intros n. rewrite attached_upd. unfold attachments_ref. rewrite flat_map_app. simpl.
      destruct (verdict_stage gw k ref l) as [Hst Hhs]. rewrite (assoc_L (++)), Hst, (Hhs hs Ev), Ev. cbn [code Nat.eqb].
      fold (attachments_ref gw k n ref done). rewrite <-Hatt.
      case_bool_decide as Hn; [subst n|by rewrite attached_keep, !app_nil_r].
      unfold attached, upd_result. rewrite lookup_insert_eq. simpl. rewrite map_app. simpl.
      unfold hi_nn. rewrite Hroute, Hnn, Hpr, Hho. by destruct (ls !! l_name l).
    + rewrite map_app. cbn [map]. destruct (verdict_stage gw k ref l) as [-> _].
      rewrite flags_snoc, Ev. cbn. by rewrite !orb_true_r.
Qed.

Definition gw_inv (h0 : Heap) (A : string → list (NamespacedName * ParentReference * list string))
    (E : list (NamespacedName * ParentReference * string))
    (acc : gmap string ListenerResult * list RouteError) (h : Heap) : Prop :=
  heap_ok h ∧ heap_grows h0 h ∧
  (∃ roots, roots ⊆ dom (h_rules h) ∧ results_good h roots acc.1) ∧
  (∀ n, attached n acc.1 = A n) ∧ reported acc.2 = E.

Lemma attach_ref_spec h0 roots gw k mem ref A E acc h :
  hr_nn mem = hr_nn k → hr_rules mem ∈ roots → roots ⊆ dom (h_rules h) →
  results_good h roots acc.1 → gw_inv h0 A E acc h →
  wp (r <~ fold_range 0 (gw_listeners gw) (acc.1, no_flags)
             (λ _ l acc, attach_listener (S (size U)) gw k mem ref l acc) ;;
      ret (r.1, acc.2 ++ ref_error mem ref r.2))
    (λ acc' h', gw_inv h0 (λ n, A n ++ attachments_ref gw k n ref (gw_listeners gw))
                  (E ++ expected_errors_of gw k [ref]) acc' h' ∧
                results_good h' roots acc'.1 ∧ heap_le h h') h.
Proof.
  intros Hnn Hmem Hroots Hgood (Hok & Hg & _ & HA & HE). wp_step.
  eapply wp_mono; [apply (wp_fold_range_prefix (listeners_inv h roots gw k ref acc.1) _ _ 0 [])|].
  - split_and!; [done..| |done]. intros n. simpl. by rewrite app_nil_r.
  - intros j done l acc' h' _ Hinv. by apply attach_listener_spec.
  - intros [ls fl] h' (Hok' & Hg' & Hgood' & Hatt & Hfl). apply wp_ret. simpl in *.
    split; [|split; [done|apply Hg']].
    split_and!; simpl; [done|by etrans| |by intros; rewrite Hatt, HA|].
    + exists roots. split; [|done]. destruct Hg' as [[Hd _] _]. set_solver.
    + unfold reported in *. rewrite map_app, HE, Hfl. f_equal. rewrite app_nil_r.
      fold (reported (ref_error mem ref (flags_of (map (stage gw k ref) (gw_listeners gw))))).
      by rewrite ref_error_expected, Hnn.
Qed.

Lemma attach_route_spec h0 gw k A E acc h :
  served U k → gw_inv h0 A E acc h →
  wp (mem <~ (λ h, Ok (load_route k h)) ;;
      fold_range 0 (getParentRefsForGw gw k) acc (λ _ ref '(ls, errs),
        r <~ fold_range 0 (gw_listeners gw) (ls, no_flags)
               (λ _ l acc, attach_listener (S (size U)) gw k mem ref l acc) ;;
        ret (r.1, errs ++ ref_error mem ref r.2)))
    (gw_inv h0 (λ n, A n ++ attachments gw [k] n) (E ++ expected_errors gw [k])) h.
Proof.
  intros [_ Hdef] (Hok & Hg & (roots & Hroots & Hgood) & HA & HE). wp_step. unfold wp at 1.
  destruct (load_route k h) as [mem h1] eqn:Eload.
  destruct (load_route_spec _ _ _ _ Eload Hok Hdef)
    as (Hok1 & Hle1 & Hnn & (rs & Hrs & _ & Hready) & Hfresh & Hk1).
  assert (heap_grows h h1) as Hg1 by by split.
  set (roots' := {[hr_rules mem]} ∪ roots).
  assert (roots' ⊆ dom (h_rules h1)) as Hroots'.
  { apply union_subseteq. split; [|destruct Hle1; set_solver].
    apply singleton_subseteq_l, elem_of_dom. by exists rs. }
  pose proof (results_good_root _ _ _ _ _ _ Hg1 Hfresh Hrs Hready Hgood) as Hgood1.
  eapply wp_mono; [apply (wp_fold_range_prefix (λ done acc h',
    gw_inv h0 (λ n, A n ++ flat_map (λ ref, attachments_ref gw k n ref (gw_listeners gw)) done)
      (E ++ expected_errors_of gw k done) acc h' ∧ results_good h' roots' acc.1 ∧ heap_le h1 h') _ _ 0 [])|].
  - split; [|done]. split_and!; [done|by etrans|by exists roots'| |].
    + intros n. simpl. by rewrite app_nil_r.
    + simpl. by rewrite app_nil_r.
  - intros j done ref [ls errs] h2 _ (Hinv & Hgood2 & Hle). eapply wp_mono.
    + eapply (attach_ref_spec h0 roots' gw k mem ref _ _ (ls, errs));
        [done|set_solver| |done|exact Hinv]. destruct Hle. set_solver.
    + intros [ls' errs'] h3 [(?&?&?&HA'&HE') [? ?]]. split; [|by split; [|etrans]].
      split_and!; [done..| |].
      * intros n. rewrite HA', flat_map_app. simpl. by rewrite app_nil_r, (assoc_L (++)).
      * rewrite HE'. unfold expected_errors_of. by rewrite flat_map_app, (assoc_L (++)).
  - intros [ls errs] h2 [(?&?&?&HA'&HE') _]. split_and!; [done..| |].
    + intros n. rewrite HA'. unfold attachments. simpl. by rewrite app_nil_r.
    + rewrite HE'. unfold expected_errors. simpl. by rewrite app_nil_r.
Qed.

Lemma routes_for_gateway_ok gw ks h :
  heap_ok h → list_httproutes_by_target (nn_string (gw_nn gw)) = inr ks →
  wp (GetRoutesForGateway (S (size U)) gw) (λ r h', ∃ out, r = inr out ∧
    gw_inv h (attachments gw ks) (expected_errors gw ks)
      (rg_listenerResults out, rg_routeErrors out) h') h.
Proof.
  intros Hok Hlist. unfold GetRoutesForGateway. rewrite Hlist. wp_step.
  pose proof (target_served _ _ Hlist) as Hserved. rewrite Forall_forall in Hserved.
  eapply wp_mono; [apply (wp_fold_range_prefix (λ done, gw_inv h (attachments gw done)
    (expected_errors gw done)) _ _ 0 [])|].
  - split_and!; [done..| |done|done]. exists ∅. by split.
  - intros j done k acc h1 Hk Hinv. eapply wp_mono; [eapply attach_route_spec; [by apply Hserved|exact Hinv]|].
    intros acc' h2 (?&?&?&HA&HE). split_and!; [done..| |].
    + intros n. rewrite HA. unfold attachments. by rewrite flat_map_app.
    + rewrite HE. unfold expected_errors. by rewrite flat_map_app.
  - intros acc h1 Hinv. apply wp_ret. eexists. split; [done|]. by destruct acc.
Qed.
(** C18. Routes of a gateway: when the API server lists the routes that target the
    gateway, [GetRoutesForGateway] returns without a panic; the routes attached to the
    listeners of each name are exactly the (route, parentRef, listener) combinations whose
    namespace, kind, section, port and hostname checks all pass, in that order and with
    the intersected hostnames; a parentRef that no listener accepts yields exactly one
    error, whose reason is the furthest stage any listener reached; and every attached
    delegation tree is well formed and acyclic. *)
Theorem GetRoutesForGateway_correct gw ks h :
  heap_ok h → list_httproutes_by_target (nn_string (gw_nn gw)) = inr ks →
  ∃ out h', GetRoutesForGateway (S (size U)) gw h = Ok (inr out, h') ∧
    heap_ok h' ∧ heap_grows h h' ∧
    (∃ roots, roots ⊆ dom (h_rules h') ∧ results_good h' roots (rg_listenerResults out)) ∧
    (∀ n, attached n (rg_listenerResults out) = attachments gw ks n) ∧
    reported (rg_routeErrors out) = expected_errors gw ks.
Proof.
  intros Hok Hlist. destruct (wp_run _ _ _ (routes_for_gateway_ok gw ks h Hok Hlist))
    as (r & h' & Hrun & out & -> & ?&?&?&?&?). by exists out, h'.
Qed.
End Tree.

(** ** A cluster in memory: the interface is inhabited *)
Definition mem_client (routes : list KHTTPRoute) (grants : list ReferenceGrant) (objs : list KObj) : K8sClient :=
  {| get_httproute n := match List.find (λ k, bool_decide (hr_nn k = n)) routes with
                        | Some k => inr k
                        | None => inl (ErrNotFound "httproute not found")
                        end;
     list_httproutes_in ns := inr (List.filter (λ k, bool_decide (hr_namespace k = ns)) routes);
     list_httproutes_by_target t :=
       inr (List.filter (λ k, bool_decide (t ∈ httpRouteToTargetIndexer k)) routes);
     list_grants tons fromns :=
       inr (List.filter (λ g, bool_decide (om_namespace (rg_meta g) = tons) &&
                              bool_decide (fromns ∈ refGrantFromIndexer g)) grants);
     known_kind gk := bool_decide (gk_kind gk ∈ ["Service"; "Upstream"; "HTTPRoute"]);
     get_object gk n := match List.find (λ o, bool_decide (namespacedName (obj_meta o) = n)) objs with
                        | Some o => inr o
                        | None => inl (ErrNotFound "object not found")
                        end;
     namespace_labels _ := ∅;
     label_selector _ := inl (ErrOther "no selector");
     httproute_group_kind := inr {| gk_group := GatewayGroup; gk_kind := HTTPRouteKind |} |}.

Lemma mem_client_finite routes grants objs :
  Forall route_defaulted routes →
  FiniteCluster (H := mem_client routes grants objs) (list_to_set (map hr_nn routes)).
Proof.
  intros Hdef. rewrite Forall_forall in Hdef.
  assert (∀ k, k ∈ routes → served (list_to_set (map hr_nn routes)) k) as Hs.
  { intros k Hk. split; [|by apply Hdef]. apply elem_of_list_to_set.
    by apply list_elem_of_In, in_map, list_elem_of_In. }
  split; simpl.
  - intros n k. case_match eqn:E; [|done]. intros [= <-].
    apply List.find_some in E as [Hin _]. by apply Hs, list_elem_of_In.
  - intros ns ks [= <-]. apply Forall_forall. intros k Hk. apply Hs.
    apply list_elem_of_In, filter_In in Hk as [? _]. by apply list_elem_of_In.
  - intros ns ks [= <-]. apply Forall_forall. intros k Hk. apply Hs.
    apply list_elem_of_In, filter_In in Hk as [? _]. by apply list_elem_of_In.
Qed.

Lemma empty_heap_ok : heap_ok empty_heap.
Proof. split; simpl; intros ??; by rewrite lookup_empty. Qed.

Definition ex_meta (ns n : string) : ObjectMeta :=
  {| om_name := n; om_namespace := ns; om_generation := 1; om_creation := 0; om_annotations := ∅ |}.
Definition ex_http_ref (n : string) : HTTPBackendRef :=
  {| hb_ref := {| br_group := Some GatewayGroup; br_kind := Some HTTPRouteKind; br_name := n;
                  br_namespace := None; br_port := None |}; hb_weight := None; hb_filters := [] |}.
Definition ex_svc_ref (ns : option string) (n : string) : HTTPBackendRef :=
  {| hb_ref := {| br_group := Some ""; br_kind := Some ServiceKind; br_name := n; br_namespace := ns;
                  br_port := Some 80%Z |}; hb_weight := None; hb_filters := [] |}.
Definition ex_rule (path : string) (refs : list HTTPBackendRef) : HTTPRouteRule HTTPPathMatch :=
  {| r_matches := Some [{| m_path := Some {| pm_type := Some PathMatchPathPrefix; pm_value := Some path |};
                           m_headers := []; m_queryParams := []; m_method := None |}];
     r_filters := []; r_backendRefs := refs |}.
Definition ex_route (n : string) (parents : list ParentReference)
    (rules : list (HTTPRouteRule HTTPPathMatch)) : KHTTPRoute :=
  {| hr_meta := ex_meta "app" n; hr_parentRefs := parents;
     hr_hostnames := match parents with [] => None | _ => Some ["a.example.com"] end;
     hr_rules := rules; hr_statusParents := [] |}.

(** A gateway with one listener, and a route that delegates to two children, which both
    delegate to the same leaf. *)
Definition ex_listener : Listener :=
  {| l_name := "http"; l_hostname := Some "*.example.com"; l_port := 80; l_protocol := "HTTP";
     l_tls := None;
     l_allowedRoutes := Some {| ar_namespaces := Some {| rn_from := Some NamespacesFromAll; rn_selector := None |};
                                ar_kinds := None |} |}.
Definition ex_gateway : Gateway :=
  {| gw_meta := ex_meta "infra" "gw"; gw_listeners := [ex_listener];
     gw_status := {| gs_conditions := []; gs_listeners := [] |} |}.
Definition ex_gw_ref (section : string) : ParentReference :=
  {| pr_group := None; pr_kind := None; pr_namespace := Some "infra"; pr_name := "gw";
     pr_sectionName := Some section; pr_port := None |}.
Definition ex_parent : KHTTPRoute :=
  ex_route "parent" [ex_gw_ref "http"; ex_gw_ref "https"]
    [ex_rule "/a" [ex_http_ref "left"]; ex_rule "/b" [ex_http_ref "right"]].
Definition ex_routes : list KHTTPRoute :=
  [ex_parent; ex_route "left" [] [ex_rule "/a" [ex_http_ref "leaf"]];
   ex_route "right" [] [ex_rule "/b" [ex_http_ref "leaf"]];
   ex_route "leaf" [] [ex_rule "/a/x" [ex_svc_ref (Some "backend") "svc"]]].
Definition ex_grant : ReferenceGrant :=
  {| rg_meta := ex_meta "backend" "grant";
     rg_from := [{| rgf_group := GatewayGroup; rgf_kind := HTTPRouteKind; rgf_namespace := "app" |}];
     rg_to := [{| rgt_group := ""; rgt_kind := "Service"; rgt_name := None |}] |}.
Definition ex_client : K8sClient := mem_client ex_routes [ex_grant] [OService (ex_meta "backend" "svc")].
Definition ex_universe : gset NamespacedName := list_to_set (map hr_nn ex_routes).

Lemma ex_rule_defaulted path refs :
  Forall (λ b, ref_ok (hb_ref b)) refs → rule_defaulted (ex_rule path refs).
Proof.
  intros Hrefs. split; [|by split; [constructor|]]. eexists. split; [reflexivity|].
  constructor; [|constructor]. eexists. split; [reflexivity|]. split; [by eexists; split|by eexists].
Qed.

Lemma ex_defaulted : Forall route_defaulted ex_routes.
Proof.
  repeat (constructor; [repeat (constructor; [apply ex_rule_defaulted; repeat constructor; by eexists|]);
                        constructor|]).
  constructor.
Qed.
#[export] Instance ex_finite : FiniteCluster (H := ex_client) ex_universe.
Proof. apply mem_client_finite, ex_defaulted. Qed.

Lemma getRef_authorized_witness :
  let from := {| from_group_kind := inr {| gk_group := GatewayGroup; gk_kind := HTTPRouteKind |};
                 from_namespace := "other" |} in
  @getRef ex_client from "svc" (Some "backend") {| gk_group := ""; gk_kind := "Service" |} =
    inl ErrMissingReferenceGrant.
Proof.
  intros from. eapply (proj1 (proj2 (@getRef_authorized ex_client from "svc" (Some "backend") _)));
    [discriminate|reflexivity|reflexivity|].
  intros g Hg. vm_compute in Hg. by apply elem_of_nil in Hg.
Defined.

Lemma GetHTTPRouteChain_total_witness :
  ∃ info h', @GetHTTPRouteChain ex_client (S (size ex_universe)) ex_parent
    (load_route ex_parent empty_heap).1 ["a.example.com"] (ex_gw_ref "http")
    (load_route ex_parent empty_heap).2 = Ok (info, h') ∧ acyclic ∅ info.
Proof.
  destruct (load_route_spec ex_parent empty_heap _ _ (surjective_pairing _) empty_heap_ok
    (Forall_inv ex_defaulted)) as (Hok & _ & Hnn & (rs & Hrs & _) & _ & _).
  destruct (@GetHTTPRouteChain_total ex_client ex_universe ex_finite ex_parent _ ["a.example.com"]
    (ex_gw_ref "http") _ Hok ltac:(apply elem_of_dom; by exists rs) Hnn)
    as (info & h' & Hrun & _ & _ & _ & _ & Hac). exists info, h'. exact (conj Hrun Hac).
Defined.

Lemma GetRoutesForGateway_correct_witness :
  ∃ out h', @GetRoutesForGateway ex_client (S (size ex_universe)) ex_gateway empty_heap = Ok (inr out, h') ∧
    attached "http" (rg_listenerResults out) =
      [({| nn_ns := "app"; nn_name := "parent" |}, ex_gw_ref "http", ["a.example.com"])] ∧
    reported (rg_routeErrors out) =
      [({| nn_ns := "app"; nn_name := "parent" |}, ex_gw_ref "https", "NoMatchingParent")].
Proof.
  destruct (@GetRoutesForGateway_correct ex_client ex_universe ex_finite ex_gateway [ex_parent]
    empty_heap empty_heap_ok ltac:(vm_compute; reflexivity))
    as (out & h' & Hrun & _ & _ & _ & Hatt & Herr).
  exists out, h'. split; [exact Hrun|]. split; [rewrite Hatt|rewrite Herr]; vm_compute; reflexivity.
Defined.

(** Two branches of a delegation tree that reach the same leaf: the second branch reports
    a cyclic reference, and its children cannot be retrieved at all. *)
Definition leaf_of (branch : string) (i : HTTPRouteInfo) : result (list NamespacedName) :=
  match GetChildrenForRef i (hb_ref (ex_http_ref branch)) with
  | inr [c] => match GetChildrenForRef c (hb_ref (ex_http_ref "leaf")) with
               | inr ls => inr (map hi_nn ls)
               | inl e => inl e
               end
  | inr _ => inr []
  | inl e => inl e
  end.
Example diamond_reported_as_cycle :
  match @GetHTTPRouteChain ex_client 5 ex_parent (load_route ex_parent empty_heap).1 []
          (ex_gw_ref "http") (load_route ex_parent empty_heap).2 with
  | Ok (i, _) => leaf_of "left" i = inr [{| nn_ns := "app"; nn_name := "leaf" |}] ∧
                 ∃ msg, leaf_of "right" i = inl (ErrWrap msg ErrCyclicReference)
  | _ => False
  end.
Proof. vm_compute. split; [reflexivity|]. eexists. reflexivity. Qed.

(** The second backendRef of a rule also receives the children of the first. *)
Example later_ref_inherits_children :
  let p := ex_route "parent" [] [ex_rule "/" [ex_http_ref "left"; ex_http_ref "leaf"]] in
  let cl := mem_client [p; ex_route "left" [] []; ex_route "leaf" [] []] [] [] in
  match @GetHTTPRouteChain cl 5 p (load_route p empty_heap).1 [] (ex_gw_ref "http")
          (load_route p empty_heap).2 with
  | Ok (i, _) => match GetChildrenForRef i (hb_ref (ex_http_ref "leaf")) with
                 | inr ls => map hr_name (map hi_route ls) = ["left"; "leaf"]
                 | inl _ => False
                 end
  | _ => False
  end.
Proof. vm_compute. reflexivity. Qed.
