(* ===== verification/RouteOrder.v ===== *)
(** * routeutils/: precedence of the routes of a virtual host

    sortable_route.go orders the routes of a host by the precedence rules of the Gateway
    API; utils.go records the policies a route came from. *)

From stdpp Require Import base gmap strings list sorting.
From Stdlib Require Import ZArith Ascii Lia.
From S2P Require Import Prelude GoLib GwApi Heap.

Module RouteOrder.

Record SortableRoute := { sr_route : Route; sr_httpRoute : MRoute; sr_idx : nat }.

Definition ToRoutes (a : list SortableRoute) : list Route := map sr_route a.

Definition ToSortable (route : MRoute) (routes : list Route) : list SortableRoute :=
  imap (λ i r, {| sr_route := r; sr_httpRoute := route; sr_idx := i |}) routes.

Definition path_len (p : PathSpecifier) : nat :=
  match p with Prefix s | Exact s | Regex s => String.length s end.

(** The decision of the path switch; [None]: go on with the other criteria. *)
Definition path_less (a b : option PathSpecifier) : option bool :=
  match a, b with
  | Some (Prefix pa), Some (Prefix pb) =>
      if bool_decide (String.length pa ≠ String.length pb)
      then Some (bool_decide (String.length pa < String.length pb)) else None
  | Some (Prefix _), Some (Exact _ | Regex _) => Some true
  | Some (Exact pa), Some (Exact pb) =>
      if bool_decide (String.length pa ≠ String.length pb)
      then Some (bool_decide (String.length pa < String.length pb)) else None
  | Some (Exact _), Some (Regex _ | Prefix _) => Some false
  | Some (Regex _), Some (Prefix _) => Some false
  | Some (Regex _), Some (Exact _) => Some true
  | _, _ => None
  end.

Definition matcher_less (matchA matchB : Matcher) (a b : SortableRoute) : bool :=
  match path_less (mt_path matchA) (mt_path matchB) with
  | Some r => r
  | None =>
      if bool_decide (length (mt_methods matchA) ≠ length (mt_methods matchB))
      then bool_decide (length (mt_methods matchA) < length (mt_methods matchB))
      else if bool_decide (length (mt_headers matchA) ≠ length (mt_headers matchB))
      then bool_decide (length (mt_headers matchA) < length (mt_headers matchB))
      else if bool_decide (length (mt_queryParameters matchA) ≠ length (mt_queryParameters matchB))
      then bool_decide (length (mt_queryParameters matchA) < length (mt_queryParameters matchB))
      else
        let ma := hr_meta (sr_httpRoute a) in
        let mb := hr_meta (sr_httpRoute b) in
        if bool_decide (om_creation ma ≠ om_creation mb)
        then bool_decide (om_creation mb < om_creation ma)%Z
        else if bool_decide (om_name ma ≠ om_name mb) || bool_decide (om_namespace ma ≠ om_namespace mb)
        then string_lt (nn_string (namespacedName mb)) (nn_string (namespacedName ma))
        else bool_decide (sr_idx b < sr_idx a)
  end.

(** True if A is lower priority than B. *)
Definition routeWrapperLessFunc (a b : SortableRoute) : res bool :=
  match rt_matchers (sr_route a), rt_matchers (sr_route b) with
  | matchA :: _, matchB :: _ => Ok (matcher_less matchA matchB a b)
  | _, _ => Panic "index out of range"
  end.

Definition Less (a b : SortableRoute) : res bool :=
  res_bind (routeWrapperLessFunc a b) (λ r, Ok (negb r)).

(** [sort.Stable(routes)] *)
Definition sort_routes (l : list SortableRoute) : res (list SortableRoute) := sort_stable_res Less l.

(** ** utils.go *)
Definition AppendSourceToRoute (newSources : list SourceRef) (preserveExisting : bool) (r : Route) : Route :=
  let sources := if preserveExisting then default [] (rt_metadata r) else [] in
  {| rt_matchers := rt_matchers r; rt_action := rt_action r; rt_options := rt_options r;
     rt_name := rt_name r; rt_metadata := Some (sources ++ newSources) |}.

(** ** Reference: the precedence as a lexicographic order on keys *)

Fixpoint lex_cmp (a b : list Z) : comparison :=
  match a, b with
  | x :: a', y :: b' => match (x ?= y)%Z with Eq => lex_cmp a' b' | c => c end
  | [], [] => Eq
  | [], _ => Lt
  | _, [] => Gt
  end.

Definition path_class (p : PathSpecifier) : Z :=
  match p with Prefix _ => 0 | Regex _ => 1 | Exact _ => 2 end%Z.
(** Only the lengths of prefixes and exact paths count. *)
Definition path_weight (p : PathSpecifier) : Z :=
  match p with Regex _ => 0%Z | p => Z.of_nat (path_len p) end.

(** A greater key is a higher priority: exact over regex over prefix paths, then longer
    paths, a method match, more headers, more query parameters, an older route. *)
Definition priority_key (p : PathSpecifier) (m : Matcher) (a : SortableRoute) : list Z :=
  [path_class p; path_weight p; Z.of_nat (length (mt_methods m)); Z.of_nat (length (mt_headers m));
   Z.of_nat (length (mt_queryParameters m)); - om_creation (hr_meta (sr_httpRoute a))]%Z.

(** A route as the translator emits it: one matcher, with a path. *)
Definition route_key (a : SortableRoute) : list Z :=
  match rt_matchers (sr_route a) with
  | [m] => match mt_path m with Some p => priority_key p m a | None => [] end
  | _ => []
  end.

Definition sr_nn (a : SortableRoute) : string := nn_string (hr_nn (sr_httpRoute a)).

(** Ties are broken by the name, then by the position in the HTTPRoute. *)
Definition full_key (a : SortableRoute) : list Z * string * nat := (route_key a, sr_nn a, sr_idx a).
Definition key_cmp (a b : list Z * string * nat) : comparison :=
  match lex_cmp a.1.1 b.1.1 with
  | Eq => match String.compare b.1.2 a.1.2 with
          | Eq => (b.2 ?= a.2)
          | c => c
          end
  | c => c
  end.
Definition lower (a b : SortableRoute) : bool :=
  match key_cmp (full_key a) (full_key b) with Lt => true | _ => false end.

Definition sortable_ok (a : SortableRoute) : Prop :=
  (∃ m p, rt_matchers (sr_route a) = [m] ∧ mt_path m = Some p) ∧
  contains_char "/"%char (hr_namespace (sr_httpRoute a)) = false.

Lemma nn_string_inj (a b : NamespacedName) :
  contains_char "/"%char (nn_ns a) = false → contains_char "/"%char (nn_ns b) = false →
  nn_string a = nn_string b → a = b.
Proof.
  destruct a as [na a], b as [nb b]. unfold nn_string; simpl. revert nb.
  induction na as [|c na IH]; intros [|d nb] Ha Hb He; simpl in *.
  - injection He as He. change (a = b) in He. by subst.
  - injection He as <- _. by rewrite bool_decide_true in Hb.
  - injection He as -> _. by rewrite bool_decide_true in Ha.
  - apply orb_false_iff in Ha as [_ Ha], Hb as [_ Hb]. injection He as <- He.
    by injection (IH nb Ha Hb He) as <- <-.
Qed.

Lemma lex_cmp_antisym a b : lex_cmp b a = CompOpp (lex_cmp a b).
Proof.
  revert b. induction a as [|x a IH]; intros [|y b]; simpl; try done.
  rewrite (Z.compare_antisym x y). destruct (x ?= y)%Z; simpl; auto.
Qed.

Lemma lex_cmp_eq a b : lex_cmp a b = Eq → a = b.
Proof.
  revert b. induction a as [|x a IH]; intros [|y b]; simpl; try done.
  destruct (x ?= y)%Z eqn:E; try done. intros ?. f_equal; [by apply Z.compare_eq|auto].
Qed.

Lemma lex_cmp_refl a : lex_cmp a a = Eq.
Proof. induction a as [|x a IH]; simpl; [done|]. by rewrite Z.compare_refl. Qed.

Lemma lex_cmp_trans a b c : lex_cmp a b = Lt → lex_cmp b c = Lt → lex_cmp a c = Lt.
Proof.
  revert b c. induction a as [|x a IH]; intros [|y b] [|z c]; simpl; try done.
  destruct (x ?= y)%Z eqn:E1, (y ?= z)%Z eqn:E2; try done; intros;
    rewrite ?Z.compare_eq_iff, ?Z.compare_lt_iff in *; subst;
    rewrite ?Z.compare_refl, ?E1, ?E2; eauto;
    assert ((x ?= z)%Z = Lt) as -> by (apply Z.compare_lt_iff; lia); done.
Qed.

Lemma string_compare_refl a : String.compare a a = Eq.
Proof. pose proof (String.compare_antisym a a) as H. by destruct (String.compare a a). Qed.

Lemma string_compare_trans a b c :
  String.compare a b = Lt → String.compare b c = Lt → String.compare a c = Lt.
Proof.
  pose proof (string_lt_trans a b c) as H. unfold string_lt in H.
  destruct (String.compare a b), (String.compare b c), (String.compare a c); naive_solver.
Qed.

Lemma key_cmp_antisym a b : key_cmp b a = CompOpp (key_cmp a b).
Proof.
  unfold key_cmp. rewrite (lex_cmp_antisym a.1.1), (String.compare_antisym b.1.2), (Nat.compare_antisym b.2).
  by destruct (lex_cmp _ _), (String.compare _ _), (b.2 ?= a.2).
Qed.

Lemma key_cmp_eq a b : key_cmp a b = Eq → a = b.
Proof.
  destruct a as [[k n] i], b as [[k' n'] i']. unfold key_cmp; simpl.
  destruct (lex_cmp k k') eqn:Ek; try done. destruct (String.compare n' n) eqn:En; try done.
  intros Hi%Nat.compare_eq. apply lex_cmp_eq in Ek. apply String.compare_eq_iff in En. by subst.
Qed.

Lemma key_cmp_trans a b c : key_cmp a b = Lt → key_cmp b c = Lt → key_cmp a c = Lt.
Proof.
  destruct a as [[ka na] ia], b as [[kb nb] ib], c as [[kc nc] ic]. unfold key_cmp; simpl.
  destruct (lex_cmp ka kb) eqn:E1, (lex_cmp kb kc) eqn:E2; try done.
  - apply lex_cmp_eq in E1, E2. subst. rewrite lex_cmp_refl.
    destruct (String.compare nb na) eqn:E3, (String.compare nc nb) eqn:E4; try done.
    + apply String.compare_eq_iff in E3, E4. subst.
      rewrite string_compare_refl, !Nat.compare_lt_iff. lia.
    + apply String.compare_eq_iff in E3. subst. by rewrite E4.
    + apply String.compare_eq_iff in E4. subst. by rewrite E3.
    + by rewrite (string_compare_trans _ _ _ E4 E3).
  - apply lex_cmp_eq in E1. subst. by rewrite E2.
  - apply lex_cmp_eq in E2. subst. by rewrite E1.
  - by rewrite (lex_cmp_trans _ _ _ E1 E2).
Qed.

(** [lower] is a strict order; routes it does not separate have the same key. *)
Lemma lower_asym a b : lower a b = true → lower b a = false.
Proof.
  unfold lower. rewrite (key_cmp_antisym (full_key a)). by destruct (key_cmp _ _).
Qed.

Lemma lower_negtrans a b c : lower a b = false → lower b c = false → lower a c = false.
Proof.
  unfold lower. intros Hab Hbc. destruct (key_cmp (full_key a) (full_key b)) eqn:E1; [|done|].
  - by rewrite (key_cmp_eq _ _ E1).
  - destruct (key_cmp (full_key a) (full_key c)) eqn:E2; [done| |done].
    pose proof (key_cmp_antisym (full_key a) (full_key b)) as E3. rewrite E1 in E3.
    by rewrite (key_cmp_trans _ _ _ E3 E2) in Hbc.
Qed.

Lemma lower_connex a b : lower a b = false → lower b a = false → full_key a = full_key b.
Proof.
  unfold lower. rewrite (key_cmp_antisym (full_key a)).
  destruct (key_cmp _ _) eqn:E; try done. intros _ _. by apply key_cmp_eq.
Qed.

(** One criterion of the comparator: counts, ages and names. *)
Lemma count_stage (x y : nat) (r : bool) :
  (if bool_decide (x ≠ y) then bool_decide (x < y) else r) =
  match (Z.of_nat x ?= Z.of_nat y)%Z with Lt => true | Gt => false | Eq => r end.
Proof. destruct (Z.compare_spec (Z.of_nat x) (Z.of_nat y)); repeat case_bool_decide; lia || done. Qed.

Lemma path_stage (x y : nat) (r : bool) :
  match (if bool_decide (x ≠ y) then Some (bool_decide (x < y)) else None) with
  | Some b => b | None => r
  end = match (Z.of_nat x ?= Z.of_nat y)%Z with Lt => true | Gt => false | Eq => r end.
Proof. rewrite <-count_stage. by destruct (bool_decide (x ≠ y)). Qed.

Lemma age_stage (x y : Z) (r : bool) :
  (if bool_decide (x ≠ y) then bool_decide (y < x)%Z else r) =
  match (- x ?= - y)%Z with Lt => true | Gt => false | Eq => r end.
Proof. destruct (Z.compare_spec (- x) (- y)); repeat case_bool_decide; lia || done. Qed.

Lemma name_stage (a b : ObjectMeta) (i j : nat) :
  contains_char "/"%char (om_namespace a) = false → contains_char "/"%char (om_namespace b) = false →
  (if bool_decide (om_name a ≠ om_name b) || bool_decide (om_namespace a ≠ om_namespace b)
   then string_lt (nn_string (namespacedName b)) (nn_string (namespacedName a))
   else bool_decide (j < i)) =
  match String.compare (nn_string (namespacedName b)) (nn_string (namespacedName a)) with
  | Lt => true | Gt => false
  | Eq => match (j ?= i) with Lt => true | _ => false end
  end.
Proof.
  intros Ha Hb.
  assert (bool_decide (j < i) = match (j ?= i) with Lt => true | _ => false end) as Hidx
    by (destruct (Nat.compare_spec j i); case_bool_decide; lia || done).
  destruct (decide (namespacedName a = namespacedName b)) as [Heq|Hne].
  - pose proof Heq as [= -> ->]. rewrite Heq, string_compare_refl.
    by rewrite !(bool_decide_false (_ ≠ _)) by naive_solver.
  - replace (bool_decide (om_name a ≠ om_name b) || bool_decide (om_namespace a ≠ om_namespace b))
      with true; [unfold string_lt|].
    + destruct (String.compare _ _) eqn:E; try done. apply String.compare_eq_iff in E.
      by apply nn_string_inj in E.
    + destruct a, b; simpl in *. unfold namespacedName in Hne; simpl in Hne.
      repeat case_bool_decide; naive_solver.
Qed.

(** The comparator of [sort.Stable] is the precedence of the Gateway API: on routes
    with one matcher and a path, [routeWrapperLessFunc] never panics and compares
    lexicographically (exact over regex over prefix, path length, method, number of
    headers, number of query parameters, age, name, index). *)
Theorem routeWrapperLessFunc_lexicographic a b :
  sortable_ok a → sortable_ok b → routeWrapperLessFunc a b = Ok (lower a b).
Proof.
  intros [(ma & pa & Ema & Epa) Hna] [(mb & pb & Emb & Epb) Hnb].
  unfold routeWrapperLessFunc. rewrite Ema, Emb. f_equal.
  unfold lower, full_key, key_cmp, route_key; simpl. rewrite Ema, Emb, Epa, Epb.
  unfold matcher_less. rewrite Epa, Epb.
  rewrite !count_stage, age_stage, name_stage by done.
  destruct pa, pb; simpl; try done; rewrite ?path_stage; unfold sr_nn, hr_nn;
    repeat match goal with |- context [(?x ?= ?y)%Z] => destruct (x ?= y)%Z; try done end;
    try match goal with |- context [String.compare ?x ?y] => destruct (String.compare x y) end; done.
Qed.

Definition ex_sortable (name : string) (p : PathSpecifier) : SortableRoute :=
  {| sr_route := {| rt_matchers := [{| mt_path := Some p; mt_headers := [];
                                       mt_queryParameters := []; mt_methods := [] |}];
                    rt_action := None; rt_options := empty_route_options; rt_name := name;
                    rt_metadata := None |};
     sr_httpRoute := {| hr_meta := {| om_name := name; om_namespace := "app"; om_generation := 1;
                                      om_creation := 0; om_annotations := ∅ |};
                        hr_parentRefs := []; hr_hostnames := None; hr_rules := 1%positive;
                        hr_statusParents := [] |}; sr_idx := 0 |}.

Lemma routeWrapperLessFunc_lexicographic_witness :
  routeWrapperLessFunc (ex_sortable "r" (Prefix "/longer/prefix")) (ex_sortable "r" (Exact "/a")) = Ok true.
Proof.
  rewrite routeWrapperLessFunc_lexicographic; [reflexivity| |];
    (split; [by eexists _, _|reflexivity]).
Defined.

(** [a] may stand before [b]. *)
Definition not_lower (a b : SortableRoute) : Prop := lower a b = false.

#[export] Instance not_lower_trans : Transitive not_lower.
Proof. intros ???. apply lower_negtrans. Qed.

Lemma sort_routes_eq l :
  Forall sortable_ok l → sort_routes l = Ok (sort_stable (λ a b, negb (lower a b)) l).
Proof.
  apply sort_stable_res_ok. intros a b Ha Hb. unfold Less.
  by rewrite routeWrapperLessFunc_lexicographic.
Qed.

Lemma sort_routes_sorted l :
  Forall sortable_ok l → ∃ l', sort_routes l = Ok l' ∧ l' ≡ₚ l ∧ StronglySorted not_lower l'.
Proof.
  intros Hl. eexists. split; [by apply sort_routes_eq|]. split; [apply sort_stable_perm|].
  apply sort_stable_sorted; [apply _| |]; unfold not_lower; intros a b.
  - apply negb_true_iff.
  - rewrite negb_false_iff. apply lower_asym.
Qed.

(** Sorting the routes of a host loses and duplicates none, puts no route before one
    of higher precedence, and for routes with different keys (different HTTPRoutes or
    positions) gives the same list whatever order they were collected in. *)
Theorem sort_routes_deterministic l :
  Forall sortable_ok l → NoDup (map full_key l) →
  ∃ l', sort_routes l = Ok l' ∧ l' ≡ₚ l ∧ StronglySorted not_lower l' ∧
    ∀ l2, l2 ≡ₚ l → sort_routes l2 = Ok l'.
Proof.
  intros Hl Hnd. destruct (sort_routes_sorted l Hl) as (l' & Hs & Hp & Hso).
  exists l'. split_and!; [done..|]. intros l2 Hp2.
  destruct (sort_routes_sorted l2) as (l2' & Hs2 & Hp2' & Hso2); [by rewrite Hp2|].
  rewrite Hs2. f_equal. eapply (StronglySorted_unique_strong not_lower); [|done..|by rewrite Hp2', Hp2, Hp].
  intros x y Hx Hy Hxy Hyx. rewrite Hp2', Hp2 in Hx. rewrite Hp in Hy.
  pose proof (lower_connex _ _ Hxy Hyx) as Hkey.
  apply list_elem_of_lookup in Hx as [i Hi], Hy as [j Hj].
  assert (i = j) as <- by (eapply NoDup_lookup; [done|by rewrite list_lookup_fmap, Hi|];
    by rewrite list_lookup_fmap, Hj, Hkey). congruence.
Qed.

Lemma sort_routes_deterministic_witness :
  let l := [ex_sortable "a" (Prefix "/a"); ex_sortable "b" (Regex ".*"); ex_sortable "c" (Exact "/");
            ex_sortable "d" (Prefix "/aa")] in
  ∃ l', sort_routes l = Ok l' ∧ map (λ s, rt_name (sr_route s)) l' = ["c"; "b"; "d"; "a"] ∧
    sort_routes (rev l) = Ok l'.
Proof.
  intros l. destruct (sort_routes_deterministic l) as (l' & Hl' & _ & _ & Hdet).
  - repeat (constructor; [split; [by eexists _, _|reflexivity]|]). constructor.
  - apply (bool_decide_unpack _). vm_compute. reflexivity.
  - exists l'. split; [exact Hl'|]. split.
    + vm_compute in Hl'. injection Hl' as <-. reflexivity.
    + apply Hdet. symmetry. apply Permutation_rev.
Defined.
End RouteOrder.
