(* ===== verification/PluginApi.v ===== *)
(** * translator/plugins/plugins.go: the interface of the translation plugins

    A route plugin edits one output route, may set conditions through the reporter of its
    context, and may keep state of its own: the only one that does is the RouteOption
    plugin, whose status cache is part of [PState]. *)

From stdpp Require Import base gmap strings list fin_maps.
From Stdlib Require Import ZArith Lia.
From S2P Require Import Prelude GoLib GwApi Reports Heap.

Import Reports.

(** The status cache entry of a policy: the status of each proxy, and route errors. *)
Record LegacyStatus := { lg_subresourceStatus : gmap string string; lg_routeErrors : list string }.

(** The same for the VirtualHostOption plugin, which also collects warnings. *)
Record ClassicStatus := {
  cl_subresourceStatus : gmap string string;
  cl_virtualHostErrors : list string;
  cl_warnings : list string
}.

Record PState := {
  ps_reports : ReportMap;
  ps_statusCache : gmap NamespacedName LegacyStatus;
  ps_vhostCache : gmap NamespacedName ClassicStatus
}.

Definition ps_set_reports (rm : ReportMap) (ps : PState) : PState :=
  {| ps_reports := rm; ps_statusCache := ps_statusCache ps; ps_vhostCache := ps_vhostCache ps |}.

Definition ps_report (f : ReportMap → ReportMap) : M PState unit :=
  modify (λ ps, ps_set_reports (f (ps_reports ps)) ps).
Definition ps_reporting {A} (f : ReportMap → A * ReportMap) : M PState A := λ ps,
  let '(a, rm) := f (ps_reports ps) in
  Ok (a, ps_set_reports rm ps).

Record RouteContext := {
  rc_listener : Listener;
  rc_route : MRoute;
  rc_hostnames : list string;
  rc_chain : list NamespacedName; (** the delegating routes, innermost first *)
  rc_rule : option MRule;
  rc_match : option MMatch;
  rc_reporter : ParentRefReporter
}.

(** [ApplyRoutePlugin]: the error and the edited route. The heap is only read. *)
Definition RoutePlugin : Type := Heap → RouteContext → Route → M PState (option Err * Route).

Lemma wp_ps_report f Q ps :
  Q tt (ps_set_reports (f (ps_reports ps)) ps) → wp (ps_report f) Q ps.
Proof. done. Qed.
Lemma wp_ps_reporting {A} (f : ReportMap → A * ReportMap) Q ps :
  Q (f (ps_reports ps)).1 (ps_set_reports (f (ps_reports ps)).2 ps) →
  wp (ps_reporting f) Q ps.
Proof. unfold wp, ps_reporting. by destruct (f (ps_reports ps)). Qed.

(** ** What the route translator relies on *)

(** Conditions are only ever appended, and gateway reports left alone. *)
Definition reports_le (rm rm' : ReportMap) : Prop :=
  rm_gateways rm' = rm_gateways rm ∧
  ∀ h cs, parent_conditions h rm = Some cs → ∃ cs', parent_conditions h rm' = Some (cs ++ cs').

#[export] Instance reports_le_preorder : PreOrder reports_le.
Proof.
  split.
  - intros rm. split; [done|]. intros h cs Hcs. exists []. by rewrite app_nil_r.
  - intros r1 r2 r3 [Hg1 H1] [Hg2 H2]. split; [congruence|]. intros h cs Hcs.
    apply H1 in Hcs as [cs1 Hcs]. apply H2 in Hcs as [cs2 Hcs].
    exists (cs1 ++ cs2). by rewrite (assoc_L (++)).
Qed.

Lemma set_condition_le h c rm : reports_le rm (ParentRefReporter_SetCondition h c rm).
Proof.
  split; [done|]. intros h' cs Hcs. destruct (decide (h = h')) as [->|Hne].
  - exists [c]. by apply parent_set_condition_same.
  - exists []. by rewrite app_nil_r, parent_set_condition_other.
Qed.

Lemma route_parent_reporter_le {R} (h : HTTPRoute R) p rm :
  let '(hd, rm') := route_parent_reporter h p rm in
  reports_le rm rm' ∧ is_Some (parent_conditions hd rm').
Proof.
  pose proof (route_parent_reporter_live h p rm) as Hlive.
  destruct (route_parent_reporter h p rm) as [hd rm'] eqn:E. split; [|done].
  unfold route_parent_reporter, reporter_Route, RouteReporter_ParentRef in E. injection E as <- <-.
  split; [by destruct (route_report h rm)|]. intros hd cs Hcs. exists []. rewrite app_nil_r.
  unfold parent_conditions in *. simpl.
  assert (rm_routes (match route_report h rm with Some _ => rm | None => newRouteReport h rm end) !! hd.1 ≫=
            (λ r, rr_parents r !! hd.2) = Some cs) as Hcs'.
  { unfold route_report. destruct (rm_routes rm !! hr_nn h) eqn:E; [done|]. simpl.
    rewrite lookup_insert_ne; [done|]. intros Heq. by rewrite <-Heq, E in Hcs. }
  rewrite lookup_alter. case_decide as Hk; [|done]. rewrite Hk.
  set (rm1 := match route_report h rm with Some _ => rm | None => newRouteReport h rm end) in *.
  destruct (rm_routes rm1 !! hd.1) as [r|]; [|done]. simpl in *. unfold parentRef_of.
  destruct (rr_parents r !! getParentRefKey p) eqn:Ep; [done|]. simpl.
  rewrite lookup_insert_ne; [done|]. intros Heq. by rewrite <-Heq, Ep in Hcs'.
Qed.

(** A context whose rule and match are well formed in memory. *)
Definition context_ok (h : Heap) (rc : RouteContext) : Prop :=
  heap_ok h ∧ is_Some (rc_match rc) ∧ (∀ r, rc_rule rc = Some r → rule_ok h r) ∧
  (∀ m, rc_match rc = Some m → m_path m = None ∨ match_ok h m).

(** The laws of a route plugin: it returns; it does not change the matchers or the name of
    the route, and never removes an action; it only adds conditions. *)
Definition plugin_ok (p : RoutePlugin) : Prop :=
  ∀ h rc r ps, context_ok h rc →
    wp (p h rc r) (λ out ps',
      rt_matchers out.2 = rt_matchers r ∧ rt_name out.2 = rt_name r ∧
      (is_Some (rt_action r) → is_Some (rt_action out.2)) ∧
      reports_le (ps_reports ps) (ps_reports ps')) ps.

(** [PluginRegistry.GetRoutePlugins] *)
Class RoutePlugins := {
  route_plugins : list RoutePlugin;
  route_plugins_ok : Forall plugin_ok route_plugins
}.

(** ** Listeners of a Proxy

    The Gateway API translation only makes aggregate listeners: HTTP filter chains that
    refer to virtual hosts by name. Options of listeners and virtual hosts are kept by
    field name. *)
Record VirtualHost := {
  vh_name : string; vh_domains : list string; vh_routes : list Route;
  vh_options : option (gmap string string); vh_metadata : option (list SourceRef)
}.
Record SslConfig := { ssl_secretRef : ResourceRef; ssl_sniDomains : list string }.
Record HttpFilterChain := {
  fc_sslConfig : option SslConfig; fc_virtualHostRefs : list string; fc_httpOptionsRef : string }.
Record AggregateListener := {
  al_virtualHosts : gmap string VirtualHost;
  al_httpOptions : gmap string (option (gmap string string));
  al_httpFilterChains : list HttpFilterChain
}.
Inductive ListenerType := TAggregate (a : AggregateListener) | TOther (gotype : string).
Record GlooListener := {
  gl_name : string; gl_bindAddress : string; gl_bindPort : Z; gl_type : ListenerType;
  gl_options : option (gmap string string); gl_metadata : option (list SourceRef)
}.

Record ListenerContext := { lc_gateway : Gateway; lc_gwListener : Listener }.
(** [ApplyListenerPlugin] *)
Definition ListenerPlugin : Type := ListenerContext → GlooListener → M PState (option Err * GlooListener).

(** A listener plugin returns, and leaves the routes, domains and filter chains alone. *)
Definition vhost_shape (v : VirtualHost) : string * list string * list Route := (vh_name v, vh_domains v, vh_routes v).
Definition chain_shape (c : HttpFilterChain) : option SslConfig * list string := (fc_sslConfig c, fc_virtualHostRefs c).
Definition listener_shape (l : GlooListener) :=
  (gl_name l, gl_bindPort l,
   match gl_type l with
   | TAggregate a => Some (vhost_shape <$> al_virtualHosts a, map chain_shape (al_httpFilterChains a))
   | TOther _ => None
   end).
Definition listener_plugin_ok (p : ListenerPlugin) : Prop :=
  ∀ lc l ps, wp (p lc l) (λ out ps', listener_shape out.2 = listener_shape l ∧
    ps_reports ps' = ps_reports ps) ps.

Class ListenerPlugins := {
  listener_plugins : list ListenerPlugin;
  listener_plugins_ok : Forall listener_plugin_ok listener_plugins
}.
