(* ===== verification/Plugins.v ===== *)
(** * translator/plugins/: the route plugins

    One Module per plugin package. Each [ApplyRoutePlugin] is a [RoutePlugin]; the lemmas
    [*_ok] discharge the plugin laws that the route translator relies on. *)

From stdpp Require Import base gmap strings list fin_maps pretty.
From Stdlib Require Import ZArith Lia.
From S2P Require Import Prelude GoLib GwApi Reports Heap Query RouteOrder PluginApi.

Import Reports Query.

(** ** utils/plugin_utils.go and utils/sort_objects.go *)
Module PluginUtils.

Definition FindAppliedRouteFilters (rc : RouteContext) (filterTypes : list HTTPRouteFilterType) : list HTTPRouteFilter :=
  match rc_rule rc with
  | None => []
  | Some rule =>
      flat_map (λ f, flat_map (λ ty, if bool_decide (f_type f = ty) then [f] else []) filterTypes) (r_filters rule)
  end.

Definition FindAppliedRouteFilter (rc : RouteContext) (filterType : HTTPRouteFilterType) : option HTTPRouteFilter :=
  match rc_rule rc with
  | None => None
  | Some rule => List.find (λ f, bool_decide (f_type f = filterType)) (r_filters rule)
  end.

(** Every ExtensionRef filter has its reference dereferenced. *)
Fixpoint ext_ref_filters (gk : GroupKind) (fs : list HTTPRouteFilter) : res (list (HTTPRouteFilter * LocalObjectReference)) :=
  match fs with
  | [] => Ok []
  | f :: fs =>
      if bool_decide (f_type f = FilterExtensionRef) then
        match f_extensionRef f with
        | None => Panic "nil pointer dereference: filter.ExtensionRef"
        | Some r =>
            res_bind (ext_ref_filters gk fs) (λ out,
              Ok (if bool_decide (lr_group r = gk_group gk) && bool_decide (lr_kind r = gk_kind gk)
                  then (f, r) :: out else out))
        end
      else ext_ref_filters gk fs
  end.
Definition FindExtensionRefFilters (rule : option MRule) (gk : GroupKind) :
    res (list (HTTPRouteFilter * LocalObjectReference)) :=
  match rule with
  | None => Ok []
  | Some rule => ext_ref_filters gk (r_filters rule)
  end.

(** [%T] of an object. *)
Definition go_type (o : KObj) : string :=
  match o with
  | OService _ | OSecret _ _ | OUpstream _ _ => "*v1." +:+
      match o with OService _ => "Service" | OSecret _ _ => "Secret" | _ => "Upstream" end
  | ODirectResponse _ _ _ => "*v1alpha1.DirectResponse"
  | ORouteOption _ => "*v1.RouteOption"
  | OOther _ t => t
  end.

(** [GetExtensionRefObjFrom[T]]; [cast] is the type assertion. *)
Definition GetExtensionRefObjFrom `{K8sClient} {T} (cast : KObj → option T) (tname : string) (from : From)
    (ref : LocalObjectReference) : result T :=
  match GetLocalObjRef from ref with
  | inl e => inl e
  | inr o => match cast o with
             | Some t => inr t
             | None => inl (ErrWrapSuffix ErrTypesNotEqual
                 ("generic object typeOf: '" +:+ tname +:+ "' localObj typeOf: '" +:+ go_type o +:+ "'"))
             end
  end.
Definition GetExtensionRefObj `{K8sClient} {R T} (cast : KObj → option T) (tname : string) (route : HTTPRoute R)
    (ref : LocalObjectReference) : result T :=
  GetExtensionRefObjFrom cast tname (ObjToFrom route) ref.

(** [SortByCreationTime]: older first, then by name. *)
Definition creation_less (a b : ObjectMeta) : bool :=
  if bool_decide (om_creation a = om_creation b)
  then string_lt (nn_string (namespacedName a)) (nn_string (namespacedName b))
  else bool_decide (om_creation a < om_creation b)%Z.
Definition SortByCreationTime {A} (meta : A → ObjectMeta) (l : list A) : list A :=
  sort_stable (λ a b, creation_less (meta a) (meta b)) l.

(** Only the first target reference counts; it exists because the policy was found by it. *)
Definition section_of {O} (p : Policy O) : res (option string) :=
  match pol_targetRefs p with
  | [] => Panic "index out of range"
  | tr :: _ => Ok match tr_sectionName tr with
                  | Some s => if bool_decide (s = "") then None else Some s
                  | None => None
                  end
  end.

Fixpoint split_by_section {O} (name : string) (items : list (Policy O)) : res (list (Policy O) * list (Policy O)) :=
  match items with
  | [] => Ok ([], [])
  | p :: items =>
      res_bind (section_of p) (λ sec,
        res_bind (split_by_section name items) (λ '(withSec, without),
          Ok match sec with
             | Some s => (if bool_decide (s = name) then p :: withSec else withSec, without)
             | None => (withSec, p :: without)
             end))
  end.

Definition GetPrioritizedListenerPolicies {O} (items : list (Policy O)) (listener : Listener) : res (list (Policy O)) :=
  res_bind (split_by_section (l_name listener) items) (λ '(withSec, without),
    Ok (SortByCreationTime pol_meta withSec ++ SortByCreationTime pol_meta without)).
End PluginUtils.

Import PluginUtils.

(** ** redirect/redirect_plugin.go *)
Module Redirect.
Definition translatePort (port : option Z) : option Z := wrap_u32 <$> port.
Definition translateHostname (hostname : option string) : string := default "" hostname.

Definition translateStatusCode (i : Z) : RedirectResponseCode :=
  if bool_decide (i = 301%Z) then MOVED_PERMANENTLY
  else if bool_decide (i = 302%Z) then FOUND
  else if bool_decide (i = 303%Z) then SEE_OTHER
  else if bool_decide (i = 307%Z) then TEMPORARY_REDIRECT
  else if bool_decide (i = 308%Z) then PERMANENT_REDIRECT
  else FOUND.

Definition translatePathRewrite (pathRewrite : option HTTPPathModifier) : M PState (option PathRewriteSpecifier) :=
  match pathRewrite with
  | None => ret None
  | Some p =>
      match pmod_type p with
      | FullPathHTTPPathModifier =>
          s <~ deref "ReplaceFullPath" (pmod_replaceFullPath p) ;; ret (Some (PathRedirect s))
      | PrefixMatchHTTPPathModifier =>
          s <~ deref "ReplacePrefixMatch" (pmod_replacePrefixMatch p) ;; ret (Some (PrefixRewrite s))
      | PathModifierOther _ => ret None
      end
  end.

Definition ApplyRoutePlugin : RoutePlugin := λ _ rc outputRoute,
  match FindAppliedRouteFilter rc FilterRequestRedirect with
  | None => ret (None, outputRoute)
  | Some filter =>
      match f_requestRedirect filter with
      | None => ret (Some (ErrOther "RequestRedirect filter supplied does not define requestRedirect config"), outputRoute)
      | Some config =>
          match rt_action outputRoute with
          | Some _ => ret (Some (ErrOther "RequestRedirect route cannot have destinations"), outputRoute)
          | None =>
              code <~ deref "StatusCode" (rr_statusCode config) ;;
              rewrite <~ translatePathRewrite (rr_path config) ;;
              ret (None, rt_set_action (Some (ARedirectAction
                {| ra_hostRedirect := translateHostname (rr_hostname config);
                   ra_pathRewrite := rewrite;
                   ra_responseCode := translateStatusCode code;
                   ra_httpsRedirect := match rr_scheme config with
                                       | Some s => bool_decide (to_lower s = "https")
                                       | None => false
                                       end;
                   ra_portRedirect := translatePort (rr_port config) |})) outputRoute)
          end
      end
  end.
End Redirect.

(** ** urlrewrite/url_rewrite_plugin.go *)
Module UrlRewrite.
Definition set_host (h : string) (o : RouteOptions) : RouteOptions :=
  {| ro_hostRewrite := Some (HostRewrite h); ro_regexRewrite := ro_regexRewrite o;
     ro_prefixRewrite := ro_prefixRewrite o; ro_headerManipulation := ro_headerManipulation o;
     ro_shadowing := ro_shadowing o; ro_other := ro_other o |}.
Definition set_regex (r : RegexMatchAndSubstitute) (o : RouteOptions) : RouteOptions :=
  {| ro_hostRewrite := ro_hostRewrite o; ro_regexRewrite := Some r;
     ro_prefixRewrite := ro_prefixRewrite o; ro_headerManipulation := ro_headerManipulation o;
     ro_shadowing := ro_shadowing o; ro_other := ro_other o |}.
Definition set_prefix (p : string) (o : RouteOptions) : RouteOptions :=
  {| ro_hostRewrite := ro_hostRewrite o; ro_regexRewrite := ro_regexRewrite o;
     ro_prefixRewrite := Some p; ro_headerManipulation := ro_headerManipulation o;
     ro_shadowing := ro_shadowing o; ro_other := ro_other o |}.

(** [routeCtx.Match.Path.Value], if all of it is set; a nil [Match] is a panic. *)
Definition match_path_value (h : Heap) (rc : RouteContext) : M PState (option string) :=
  m <~ deref "Match" (rc_match rc) ;;
  ret (m_path m ≫= λ l, h_paths h !! l ≫= pm_value).

Definition ApplyRoutePlugin : RoutePlugin := λ h rc outputRoute,
  match FindAppliedRouteFilter rc FilterURLRewrite with
  | None => ret (None, outputRoute)
  | Some filter =>
      match f_urlRewrite filter with
      | None => ret (Some (ErrOther "UrlRewrite filter supplied does not define urlRewrite config"), outputRoute)
      | Some config =>
          let outputRoute := match ur_hostname config with
                             | Some host => rt_set_options (set_host host (rt_options outputRoute)) outputRoute
                             | None => outputRoute
                             end in
          match ur_path config with
          | None => ret (None, outputRoute)
          | Some path =>
              match pmod_type path with
              | FullPathHTTPPathModifier =>
                  match pmod_replaceFullPath path with
                  | None => ret (Some (ErrOther "UrlRewrite filter supplied with Full Path rewrite type, but no Full Path supplied"), outputRoute)
                  | Some p =>
                      ret (None, rt_set_options (set_regex {| rx_regex := ".*"; rx_substitution := p |}
                                                   (rt_options outputRoute)) outputRoute)
                  end
              | PrefixMatchHTTPPathModifier =>
                  match pmod_replacePrefixMatch path with
                  | None => ret (Some (ErrOther "UrlRewrite filter supplied with prefix rewrite type, but no prefix supplied"), outputRoute)
                  | Some p =>
                      mv <~ match_path_value h rc ;;
                      match mv with
                      | Some v =>
                          if bool_decide (p = "/")
                          then ret (None, rt_set_options (set_regex
                                 {| rx_regex := "^" +:+ v +:+ "\/*"; rx_substitution := "/" |}
                                 (rt_options outputRoute)) outputRoute)
                          else ret (None, rt_set_options (set_prefix p (rt_options outputRoute)) outputRoute)
                      | None => ret (None, rt_set_options (set_prefix p (rt_options outputRoute)) outputRoute)
                      end
                  end
              | PathModifierOther _ => ret (None, outputRoute)
              end
          end
      end
  end.
End UrlRewrite.

(** ** headermodifier/header_modifier_plugin.go *)
Module HeaderModifier.
Definition translateHeaders (gwHeaders : list HTTPHeader) (add : bool) : list HeaderValueOption :=
  map (λ h, {| hv_key := h_name h; hv_value := h_value h; hv_append := add |}) gwHeaders.
Definition translateResponseHeaders : list HTTPHeader → bool → list HeaderValueOption := translateHeaders.
Definition requestHeadersToAdd (add set : list HTTPHeader) : list HeaderValueOption :=
  translateHeaders add true ++ translateHeaders set false.
Definition responseHeadersToAdd (add set : list HTTPHeader) : list HeaderValueOption :=
  translateResponseHeaders add true ++ translateResponseHeaders set false.

Definition set_headers (hm : HeaderManipulation) (r : Route) : Route :=
  let o := rt_options r in
  rt_set_options {| ro_hostRewrite := ro_hostRewrite o; ro_regexRewrite := ro_regexRewrite o;
                    ro_prefixRewrite := ro_prefixRewrite o; ro_headerManipulation := Some hm;
                    ro_shadowing := ro_shadowing o; ro_other := ro_other o |} r.
Definition headers_of (r : Route) : HeaderManipulation :=
  default empty_header_manipulation (ro_headerManipulation (rt_options r)).

Definition applyRequestFilter (config : option HTTPHeaderFilter) (r : Route) : option Err * Route :=
  match config with
  | None => (Some (ErrOther "RequestHeaderModifier filter supplied does not define requestHeaderModifier"), r)
  | Some config =>
      let hm := headers_of r in
      (None, set_headers {| hman_requestAdd := requestHeadersToAdd (hf_add config) (hf_set config);
                            hman_requestRemove := hf_remove config;
                            hman_responseAdd := hman_responseAdd hm;
                            hman_responseRemove := hman_responseRemove hm |} r)
  end.
Definition applyResponseFilter (config : option HTTPHeaderFilter) (r : Route) : option Err * Route :=
  match config with
  | None => (Some (ErrOther "Response filter supplied does not define requestHeaderModifier"), r)
  | Some config =>
      let hm := headers_of r in
      (None, set_headers {| hman_requestAdd := hman_requestAdd hm;
                            hman_requestRemove := hman_requestRemove hm;
                            hman_responseAdd := responseHeadersToAdd (hf_add config) (hf_set config);
                            hman_responseRemove := hf_remove config |} r)
  end.

(** The loop stops at the first error. *)
Fixpoint apply_filters (fs : list HTTPRouteFilter) (r : Route) : option Err * Route :=
  match fs with
  | [] => (None, r)
  | f :: fs =>
      let '(err, r) := if bool_decide (f_type f = FilterRequestHeaderModifier)
                       then applyRequestFilter (f_requestHeaderModifier f) r else (None, r) in
      let '(err, r) := if bool_decide (f_type f = FilterResponseHeaderModifier)
                       then applyResponseFilter (f_responseHeaderModifier f) r else (err, r) in
      match err with
      | Some e => (Some e, r)
      | None => apply_filters fs r
      end
  end.

Definition ApplyRoutePlugin : RoutePlugin := λ _ rc outputRoute,
  ret (apply_filters (FindAppliedRouteFilters rc [FilterRequestHeaderModifier; FilterResponseHeaderModifier]) outputRoute).
End HeaderModifier.

(** ** mirror/mirror_plugin.go *)
Module Mirror.
Section Mirror.
Context `{K8sClient}.
(** [kubernetes.DestinationToUpstreamRef]: the name passes through the sanitizer of the
    k8s-utils library. *)
Context (SanitizeNameV2 : string → string).

Definition UpstreamNamePrefix : string := "kube-svc:".
(** [%v] of an int32 *)
Definition int32_string (z : Z) : string := pretty z.
Definition UpstreamName (serviceNamespace serviceName : string) (servicePort : Z) : string :=
  SanitizeNameV2 (serviceNamespace +:+ "-" +:+ serviceName +:+ "-" +:+ int32_string servicePort).
Definition fakeUpstreamName (serviceName serviceNamespace : string) (port : Z) : string :=
  UpstreamNamePrefix +:+ UpstreamName serviceNamespace serviceName port.
Definition DestinationToUpstreamRef (ref : ResourceRef) (port : Z) : ResourceRef :=
  {| rf_name := fakeUpstreamName (rf_name ref) (rf_namespace ref) (wrap_i32 port);
     rf_namespace := rf_namespace ref |}.

Definition set_shadowing (u : ResourceRef) (r : Route) : Route :=
  let o := rt_options r in
  rt_set_options {| ro_hostRewrite := ro_hostRewrite o; ro_regexRewrite := ro_regexRewrite o;
                    ro_prefixRewrite := ro_prefixRewrite o; ro_headerManipulation := ro_headerManipulation o;
                    ro_shadowing := Some u; ro_other := ro_other o |} r.

Definition ApplyRoutePlugin : RoutePlugin := λ _ rc outputRoute,
  match FindAppliedRouteFilter rc FilterRequestMirror with
  | None => ret (None, outputRoute)
  | Some filter =>
      match f_requestMirror filter with
      | None => ret (Some (ErrOther "RequestMirror filter supplied does not define requestMirror config"), outputRoute)
      | Some backendRef =>
          match rt_action outputRoute with
          | None => ret (Some (ErrOther "RequestMirror must have destinations"), outputRoute)
          | Some _ =>
              let r := GetBackendForRef (ObjToFrom (rc_route rc)) backendRef in
              clusterName <~ ps_reporting (ProcessBackendRef r (rc_reporter rc) backendRef) ;;
              match clusterName, r with
              | Some clusterName, inr obj =>
                  let ref := {| rf_name := clusterName; rf_namespace := obj_namespace obj |} in
                  if Backendref.RefIsService backendRef then
                    let port := match br_port backendRef with Some p => wrap_u32 p | None => 0%Z end in
                    ret (None, set_shadowing (DestinationToUpstreamRef ref port) outputRoute)
                  else if Backendref.RefIsUpstream backendRef then ret (None, set_shadowing ref outputRoute)
                  else ret (Some (ErrOther "unsupported backend type for mirror filter"), outputRoute)
              | _, _ => ret (None, outputRoute)
              end
          end
      end
  end.
End Mirror.
End Mirror.

(** ** directresponse/direct_response_plugin.go *)
Module DirectResponse.
Section DirectResponse.
Context `{K8sClient}.

Definition DirectResponseGK : GroupKind := {| gk_group := "gateway.gloo.solo.io"; gk_kind := "DirectResponse" |}.
Definition ErrorResponseAction : Action := ADirectResponseAction 500 "".

Definition as_direct_response (o : KObj) : option (Z * string) :=
  match o with ODirectResponse _ status body => Some (status, body) | _ => None end.

Definition action_type (a : Action) : string :=
  match a with
  | ARouteAction _ => "*v1.Route_RouteAction"
  | ARedirectAction _ => "*v1.Route_RedirectAction"
  | ADirectResponseAction _ _ => "*v1.Route_DirectResponseAction"
  end.

Definition fail (rc : RouteContext) (ty reason msg : string) (e : Err) (outputRoute : Route) :
    M PState (option Err * Route) :=
  do! ps_report (ParentRefReporter_SetCondition (rc_reporter rc) (report_condition ty ConditionFalse reason msg)) ;;
  ret (Some e, rt_set_action (Some ErrorResponseAction) outputRoute).

Definition ApplyRoutePlugin : RoutePlugin := λ _ rc outputRoute,
  match FindExtensionRefFilters (rc_rule rc) DirectResponseGK with
  | Panic why => panic why
  | OutOfFuel => no_fuel
  | Ok [] => ret (None, outputRoute)
  | Ok [(_, ref)] =>
      match GetExtensionRefObj as_direct_response "*v1alpha1.DirectResponse" (rc_route rc) ref with
      | inl e => fail rc "ResolvedRefs" "BackendNotFound" (err_msg e) e outputRoute
      | inr (status, body) =>
          match rt_action outputRoute with
          | Some a =>
              let msg := "DirectResponse cannot be applied to route with existing action: " +:+ action_type a in
              fail rc "Accepted" "IncompatibleFilters" msg (ErrOther msg) outputRoute
          | None => ret (None, rt_set_action (Some (ADirectResponseAction status body)) outputRoute)
          end
      end
  | Ok filters =>
      let msg := "multiple DirectResponse extension refs found. expected 1, found " +:+ itoa (length filters) in
      fail rc "Accepted" "IncompatibleFilters" msg (ErrOther msg) outputRoute
  end.
End DirectResponse.
End DirectResponse.

(** ** gloo/pkg/utils/merge.go: shallow merge of options

    Every top-level field of the options message is a pointer, an interface, a map or a
    slice: a field is zero when it is unset. *)
Module Merge.
Definition is_set {A} (o : option A) : bool := match o with Some _ => true | None => false end.

(** [ShallowMerge(dst, src, false)] on one field: the new value, and whether [src] was used. *)
Definition ShallowMerge {A} (dst src : option A) : option A * bool :=
  if is_set src && negb (is_set dst) then (src, true) else (dst, false).

Definition merge_other (dst src : gmap string string) : gmap string string * bool :=
  (dst ∪ src, negb (bool_decide (dom src ⊆ dom dst))).

Definition ShallowMergeRouteOptions (dst src : option RouteOptions) : option RouteOptions * bool :=
  match src, dst with
  | None, _ => (dst, false)
  | Some s, None => (Some s, true)
  | Some s, Some d =>
      let '(host, b1) := ShallowMerge (ro_hostRewrite d) (ro_hostRewrite s) in
      let '(regex, b2) := ShallowMerge (ro_regexRewrite d) (ro_regexRewrite s) in
      let '(prefix, b3) := ShallowMerge (ro_prefixRewrite d) (ro_prefixRewrite s) in
      let '(hm, b4) := ShallowMerge (ro_headerManipulation d) (ro_headerManipulation s) in
      let '(sh, b5) := ShallowMerge (ro_shadowing d) (ro_shadowing s) in
      let '(other, b6) := merge_other (ro_other d) (ro_other s) in
      (Some {| ro_hostRewrite := host; ro_regexRewrite := regex; ro_prefixRewrite := prefix;
               ro_headerManipulation := hm; ro_shadowing := sh; ro_other := other |},
       b1 || b2 || b3 || b4 || b5 || b6)
  end.

(** The options of a virtual host are kept by field name. *)
Definition ShallowMergeVirtualHostOptions (dst src : option (gmap string string)) :
    option (gmap string string) * bool :=
  match src, dst with
  | None, _ => (dst, false)
  | Some s, None => (Some s, true)
  | Some s, Some d => let '(o, b) := merge_other d s in (Some o, b)
  end.
End Merge.

(** ** routeoptions/: RouteOptions attached by filter or by target reference *)

(** [client.List] of the RouteOptions of a namespace by the target index, and the error
    aggregation of the multierror library. *)
Class RouteOptionClient := {
  list_route_options : string → string → result (list (Policy RouteOptions));
  multierror : list Err → Err
}.

Module RouteOption.
Section RouteOption.
Context `{K8sClient} `{RouteOptionClient}.

Definition routeOptionGK : GroupKind := {| gk_group := "gateway.solo.io"; gk_kind := "RouteOption" |}.

(** indexers.go: only the first target reference is indexed. *)
Definition routeOptionTargetRefIndexer (p : Policy RouteOptions) : list string :=
  match pol_targetRefs p with
  | [] => []
  | tr :: _ =>
      if negb (bool_decide (tr_group tr = GatewayGroup)) then []
      else if negb (bool_decide (tr_kind tr = HTTPRouteKind)) then []
      else
        let ns := default "" (tr_namespace tr) in
        let ns := if bool_decide (ns = "") then om_namespace (pol_meta p) else ns in
        [nn_string {| nn_ns := ns; nn_name := tr_name tr |}]
  end.

Definition routeOptionToSourceRef (p : Policy RouteOptions) : SourceRef :=
  {| src_ref := {| rf_name := om_name (pol_meta p); rf_namespace := om_namespace (pol_meta p) |};
     src_kind := pol_kind p; src_generation := om_generation (pol_meta p) |}.

Definition as_route_option (o : KObj) : option (Policy RouteOptions) :=
  match o with ORouteOption p => Some p | _ => None end.

Definition errFilterNotFound (namespace : string) (ref : LocalObjectReference) : Err :=
  ErrOther ("extensionRef '" +:+ lr_group ref +:+ "' of type " +:+ lr_kind ref +:+ "." +:+ lr_name ref +:+
            " in namespace '" +:+ namespace +:+ "' not found").

(** [extensionRefLookup] *)
Definition extensionRefLookup (namespace : string) : From :=
  {| from_group_kind := inr routeOptionGK; from_namespace := namespace |}.

Definition lookupFilterAttachments (route : NamespacedName) (rule : option MRule) :
    res (result (list (Policy RouteOptions))) :=
  res_bind (FindExtensionRefFilters rule routeOptionGK) (λ filters,
    let '(out, errs) := foldl (λ '(out, errs) '(_, ref),
      match GetExtensionRefObjFrom as_route_option "*v1.RouteOption" (extensionRefLookup (nn_ns route)) ref with
      | inl e => (out, errs ++ [if is_not_found e then errFilterNotFound (nn_ns route) ref else e])
      | inr ro => (out ++ [ro], errs)
      end) ([], []) filters in
    Ok match errs with
       | [] => inr out
       | _ => inl (multierror errs)
       end).

(** Merging a list of policies in order: earlier ones win; those that contribute a field
    are the sources. *)
Definition merge_policies (start : option RouteOptions * list SourceRef) (ps : list (Policy RouteOptions)) :
    option RouteOptions * list SourceRef :=
  foldl (λ '(merged, sources) opt,
    let '(merged, used) := Merge.ShallowMergeRouteOptions merged (pol_options opt) in
    (merged, if used then sources ++ [routeOptionToSourceRef opt] else sources)) start ps.

(** [nilOptionIfEmpty] is folded into the result: no options, no RouteOption. *)
Definition GetRouteOptionForRouteRule (route : NamespacedName) (rule : option MRule) :
    res (result (option RouteOptions * list SourceRef)) :=
  res_bind (lookupFilterAttachments route rule) (λ filterAttachments,
    Ok match filterAttachments with
       | inl e => inl e
       | inr attachments =>
           let start := merge_policies (None, []) attachments in
           match list_route_options (nn_string route) (nn_ns route) with
           | inl e => inl e
           | inr items => inr (merge_policies start (SortByCreationTime pol_meta items))
           end
       end).

Definition handleAttachment (rc : RouteContext) : M PState (result (option (RouteOptions * list SourceRef))) :=
  match GetRouteOptionForRouteRule (hr_nn (rc_route rc)) (rc_rule rc) with
  | Panic why => panic why
  | OutOfFuel => no_fuel
  | Ok (inl e) =>
      if errors_is e ErrTypesNotEqual then ret (inl e)
      else do! ps_report (ParentRefReporter_SetCondition (rc_reporter rc)
                 (resolved_refs_false "BackendNotFound" (err_msg e))) ;; ret (inl e)
  | Ok (inr (None, _)) => ret (inr None)
  | Ok (inr (Some o, sources)) => ret (inr (Some (o, sources)))
  end.

Definition source_nn (s : SourceRef) : NamespacedName :=
  {| nn_ns := rf_namespace (src_ref s); nn_name := rf_name (src_ref s) |}.

(** A fresh status per source: an existing entry is replaced. *)
Definition trackAcceptedRouteOptions (sources : list SourceRef) : M PState unit :=
  modify (λ ps, {| ps_reports := ps_reports ps;
    ps_statusCache := foldl (λ c s, <[source_nn s := {| lg_subresourceStatus := ∅; lg_routeErrors := [] |}]> c)
                        (ps_statusCache ps) sources;
    ps_vhostCache := ps_vhostCache ps |}).

Definition ApplyRoutePlugin : RoutePlugin := λ _ rc outputRoute,
  att <~ handleAttachment rc ;;
  match att with
  | inl e => ret (Some e, outputRoute)
  | inr None => ret (None, outputRoute)
  | inr (Some (routeOptions, sources)) =>
      let '(merged, usedExistingSources) :=
        Merge.ShallowMergeRouteOptions (Some routeOptions) (Some (rt_options outputRoute)) in
      let outputRoute := rt_set_options (default empty_route_options merged) outputRoute in
      let outputRoute := RouteOrder.AppendSourceToRoute sources usedExistingSources outputRoute in
      do! trackAcceptedRouteOptions sources ;;
      ret (None, outputRoute)
  end.
End RouteOption.
End RouteOption.

(** ** The plugin laws *)
Section Laws.
Context `{K8sClient} `{RouteOptionClient} (SanitizeNameV2 : string → string).

Definition keeps (r : Route) (ps : PState) (out : option Err * Route) (ps' : PState) : Prop :=
  rt_matchers out.2 = rt_matchers r ∧ rt_name out.2 = rt_name r ∧
  (is_Some (rt_action r) → is_Some (rt_action out.2)) ∧
  reports_le (ps_reports ps) (ps_reports ps').

Lemma keeps_refl r ps e : keeps r ps (e, r) ps.
Proof. by split_and!. Qed.

Lemma keeps_options r ps e o : keeps r ps (e, rt_set_options o r) ps.
Proof. by split_and!. Qed.

Lemma keeps_action r ps e a : keeps r ps (e, rt_set_action (Some a) r) ps.
Proof. split_and!; [done..| |done]. by eexists. Qed.

Hint Resolve keeps_refl keeps_options keeps_action : core.

Lemma find_filter_ok h rc ty f :
  context_ok h rc → FindAppliedRouteFilter rc ty = Some f → filter_ok f ∧ f_type f = ty.
Proof.
  intros (_ & _ & Hr & _). unfold FindAppliedRouteFilter. destruct (rc_rule rc) as [rule|]; [|done].
  intros Hf%List.find_some. destruct Hf as [Hin Hty]. apply bool_decide_eq_true in Hty.
  destruct (Hr _ eq_refl) as [_ [Hfs _]]. rewrite Forall_forall in Hfs. split; [|done].
  by apply Hfs, list_elem_of_In.
Qed.

Lemma ext_ref_filters_ok gk fs :
  Forall filter_ok fs →
  ext_ref_filters gk fs = Ok (omap (λ f,
    if bool_decide (f_type f = FilterExtensionRef) then
      r ← f_extensionRef f;
      if bool_decide (lr_group r = gk_group gk) && bool_decide (lr_kind r = gk_kind gk) then Some (f, r) else None
    else None) fs).
Proof.
  induction 1 as [|f fs [Hf _] _ IH]; simpl; [done|]. rewrite IH.
  case_bool_decide as Hty; [|done]. destruct (Hf Hty) as [r ->]. simpl. by destruct (_ && _).
Qed.

Lemma FindExtensionRefFilters_ok h rc gk :
  context_ok h rc → ∃ fs, FindExtensionRefFilters (rc_rule rc) gk = Ok fs.
Proof.
  intros (_ & _ & Hr & _). unfold FindExtensionRefFilters. destruct (rc_rule rc) as [rule|]; [|by eexists].
  destruct (Hr _ eq_refl) as [_ [Hfs _]]. rewrite ext_ref_filters_ok by done. by eexists.
Qed.

Lemma Redirect_ok : plugin_ok Redirect.ApplyRoutePlugin.
Proof.
  intros h rc r ps Hc. change (wp (Redirect.ApplyRoutePlugin h rc r) (keeps r ps) ps).
  unfold Redirect.ApplyRoutePlugin. destruct (FindAppliedRouteFilter _ _) as [f|] eqn:Ef; [|by apply wp_ret].
  apply (find_filter_ok h) in Ef as [[_ Hf] _]; [|done].
  destruct (f_requestRedirect f) as [config|]; [|by apply wp_ret].
  destruct (Hf _ eq_refl) as [[code Hcode] Hp]. destruct (rt_action r); [by apply wp_ret|].
  wp_step. eapply wp_deref; [done|]. wp_step. unfold Redirect.translatePathRewrite.
  destruct (rr_path config) as [p|]; [|by apply wp_ret, wp_ret]. specialize (Hp _ eq_refl).
  unfold modifier_ok in Hp. destruct (pmod_type p); [destruct Hp..|by apply wp_ret, wp_ret];
    (wp_step; eapply wp_deref; [done|]; by apply wp_ret, wp_ret).
Qed.

Lemma UrlRewrite_ok : plugin_ok UrlRewrite.ApplyRoutePlugin.
Proof.
  intros h rc r ps Hc. change (wp (UrlRewrite.ApplyRoutePlugin h rc r) (keeps r ps) ps).
  unfold UrlRewrite.ApplyRoutePlugin. destruct (FindAppliedRouteFilter _ _) as [f|]; [|by apply wp_ret].
  destruct (f_urlRewrite f) as [config|]; [|by apply wp_ret].
  set (r1 := match ur_hostname config with Some _ => _ | None => _ end).
  assert (∃ o, r1 = rt_set_options o r) as [o ->].
  { unfold r1. destruct (ur_hostname config); [by eexists|]. exists (rt_options r). by destruct r. }
  assert (∀ e o', keeps r ps (e, rt_set_options o' (rt_set_options o r)) ps) as Hk by (intros; by split_and!).
  destruct (ur_path config) as [path|]; [|by apply wp_ret].
  destruct (pmod_type path); [| |by apply wp_ret].
  - by destruct (pmod_replaceFullPath path); apply wp_ret.
  - destruct (pmod_replacePrefixMatch path); [|by apply wp_ret].
    unfold UrlRewrite.match_path_value. destruct Hc as (_ & [m Hm] & _). wp_step.
    wp_step. eapply wp_deref; [done|]. apply wp_ret.
    destruct (_ ≫= _); [case_bool_decide|]; by apply wp_ret.
Qed.

Lemma HeaderModifier_ok : plugin_ok HeaderModifier.ApplyRoutePlugin.
Proof.
  intros h rc r ps _. unfold HeaderModifier.ApplyRoutePlugin. apply wp_ret.
  generalize (FindAppliedRouteFilters rc [FilterRequestHeaderModifier; FilterResponseHeaderModifier]) as fs.
  intros fs. enough (∃ o, (HeaderModifier.apply_filters fs r).2 = rt_set_options o r) as [o ->] by done.
  assert (∀ fs o, ∃ o', (HeaderModifier.apply_filters fs (rt_set_options o r)).2 = rt_set_options o' r) as Hall.
  { clear fs. induction fs as [|f fs IH]; intros o; simpl; [by eexists|].
    unfold HeaderModifier.applyRequestFilter, HeaderModifier.applyResponseFilter, HeaderModifier.set_headers.
    destruct (bool_decide (f_type f = FilterRequestHeaderModifier)),
      (bool_decide (f_type f = FilterResponseHeaderModifier)),
      (f_requestHeaderModifier f), (f_responseHeaderModifier f); simpl;
      try (by eexists); first [apply (IH _)|by eexists]. }
  specialize (Hall fs (rt_options r)). by destruct r.
Qed.

Lemma Mirror_ok : plugin_ok (Mirror.ApplyRoutePlugin SanitizeNameV2).
Proof.
  intros h rc r ps Hc. change (wp (Mirror.ApplyRoutePlugin SanitizeNameV2 h rc r) (keeps r ps) ps).
  unfold Mirror.ApplyRoutePlugin. destruct (FindAppliedRouteFilter _ _) as [f|]; [|by apply wp_ret].
  destruct (f_requestMirror f) as [ref|]; [|by apply wp_ret].
  destruct (rt_action r) as [a|] eqn:Ea; [|by apply wp_ret].
  wp_step. apply wp_ps_reporting. set (ps' := ps_set_reports _ _).
  assert (reports_le (ps_reports ps) (ps_reports ps')) as Hle.
  { unfold ps', ProcessBackendRef; simpl. repeat case_match; simpl; done || apply set_condition_le. }
  assert (∀ e o, keeps r ps (e, rt_set_options o r) ps') as Hk by (intros; split_and!; done).
  assert (∀ e, keeps r ps (e, r) ps') as Hk' by (intros; split_and!; done).
  destruct (ProcessBackendRef _ _ _ _).1; [|by apply wp_ret].
  destruct (GetBackendForRef _ _); [by apply wp_ret|].
  destruct (Backendref.RefIsService ref); [by apply wp_ret|].
  destruct (Backendref.RefIsUpstream ref); by apply wp_ret.
Qed.

Lemma DirectResponse_ok : plugin_ok DirectResponse.ApplyRoutePlugin.
Proof.
  intros h rc r ps Hc. change (wp (DirectResponse.ApplyRoutePlugin h rc r) (keeps r ps) ps).
  unfold DirectResponse.ApplyRoutePlugin.
  destruct (FindExtensionRefFilters_ok h rc DirectResponse.DirectResponseGK Hc) as [fs ->].
  assert (∀ ty reason msg e, wp (DirectResponse.fail rc ty reason msg e r) (keeps r ps) ps) as Hfail.
  { intros. unfold DirectResponse.fail. wp_step. apply wp_ps_report, wp_ret.
    split_and!; [done..|by eexists|apply set_condition_le]. }
  destruct fs as [|[f ref] [|f2 fs]]; [by apply wp_ret| |apply Hfail].
  destruct (GetExtensionRefObj _ _ _ _) as [e|[status body]]; [apply Hfail|].
  destruct (rt_action r); [apply Hfail|by apply wp_ret].
Qed.

Lemma lookupFilterAttachments_total h rc route :
  context_ok h rc → ∃ r, RouteOption.lookupFilterAttachments route (rc_rule rc) = Ok r.
Proof.
  intros Hc. unfold RouteOption.lookupFilterAttachments.
  destruct (FindExtensionRefFilters_ok h rc RouteOption.routeOptionGK Hc) as [fs ->]. simpl.
  destruct (foldl _ _ _) as [out errs]. by eexists.
Qed.

Lemma RouteOption_ok : plugin_ok RouteOption.ApplyRoutePlugin.
Proof.
  intros h rc r ps Hc. change (wp (RouteOption.ApplyRoutePlugin h rc r) (keeps r ps) ps).
  unfold RouteOption.ApplyRoutePlugin. wp_step.
  eapply (wp_mono _ (λ _ ps', reports_le (ps_reports ps) (ps_reports ps'))).
  { unfold RouteOption.handleAttachment, RouteOption.GetRouteOptionForRouteRule.
    destruct (lookupFilterAttachments_total h rc (hr_nn (rc_route rc)) Hc) as [att ->]. simpl.
    set (res := match att with inl _ => _ | inr _ => _ end).
    destruct res as [e|[[o|] sources]]; [|by apply wp_ret..].
    destruct (errors_is e ErrTypesNotEqual); [by apply wp_ret|].
    wp_step. apply wp_ps_report, wp_ret, set_condition_le. }
  intros [e|[[o sources]|]] ps' Hle; [by apply wp_ret| |by apply wp_ret].
  destruct (Merge.ShallowMergeRouteOptions _ _) as [merged used]. wp_step.
  unfold RouteOption.trackAcceptedRouteOptions. wp_step. apply wp_ret. by split_and!.
Qed.
End Laws.

(** ** registry/plugin_registry.go: the route plugins, in the order of [BuildPlugins]

    The listener and status plugins of the list are modelled with the policies; a direct
    response comes after every plugin that may set an action. *)
Definition BuildPlugins `{K8sClient} `{RouteOptionClient} (SanitizeNameV2 : string → string) : RoutePlugins :=
  {| route_plugins := [HeaderModifier.ApplyRoutePlugin; Mirror.ApplyRoutePlugin SanitizeNameV2;
                       Redirect.ApplyRoutePlugin; RouteOption.ApplyRoutePlugin;
                       UrlRewrite.ApplyRoutePlugin; DirectResponse.ApplyRoutePlugin];
     route_plugins_ok := Forall_cons_2 _ _ _ HeaderModifier_ok (Forall_cons_2 _ _ _ (Mirror_ok SanitizeNameV2)
       (Forall_cons_2 _ _ _ Redirect_ok (Forall_cons_2 _ _ _ RouteOption_ok
       (Forall_cons_2 _ _ _ UrlRewrite_ok (Forall_cons_2 _ _ _ DirectResponse_ok (Forall_nil_2 _)))))) |}.
