(* ===== verification/Policies.v ===== *)
(** * translator/plugins/: policies attached to listeners

    ListenerOptions, HttpListenerOptions and VirtualHostOptions target a Gateway or one of
    its listeners by section name; the three query packages differ only in the type they
    list. Options are maps from field names. *)

From stdpp Require Import base gmap strings list fin_maps pretty sorting.
From Stdlib Require Import ZArith Lia.
From S2P Require Import Prelude GoLib GwApi Reports Heap Query RouteOrder PluginApi Plugins.

Import Reports Query PluginUtils.

Definition Options : Type := gmap string string.

(** [client.List] by target index and namespace, and the generated hash of the options. *)
Class PolicyClient := {
  list_listener_options : string → string → result (list (Policy Options));
  list_http_listener_options : string → string → result (list (Policy Options));
  list_vhost_options : string → string → result (list (Policy Options));
  hash_http_options : option Options → Z
}.

Module PolicyQuery.
(** indexers.go of the three packages. *)
Definition targetRefIndexer {O} (p : Policy O) : list string :=
  match pol_targetRefs p with
  | [] => []
  | tr :: _ =>
      if negb (bool_decide (tr_group tr = GatewayGroup)) then []
      else if negb (bool_decide (tr_kind tr = GatewayKind)) then []
      else
        let ns := default "" (tr_namespace tr) in
        let ns := if bool_decide (ns = "") then om_namespace (pol_meta p) else ns in
        [nn_string {| nn_ns := ns; nn_name := tr_name tr |}]
  end.

(** [GetAttachedListenerOptions] and its two siblings. *)
Definition GetAttachedOptions {O} (list_options : string → string → result (list (Policy O)))
    (listener : Listener) (parentGw : Gateway) : res (result (list (Policy O))) :=
  let name := om_name (gw_meta parentGw) in
  let ns := om_namespace (gw_meta parentGw) in
  if bool_decide (name = "") || bool_decide (ns = "") then
    Ok (inl (ErrOther ("parent gateway must have name and namespace; received name: " +:+ name +:+
                       ", namespace: " +:+ ns)))
  else match list_options (nn_string (gw_nn parentGw)) ns with
       | inl e => Ok (inl e)
       | inr items => res_bind (GetPrioritizedListenerPolicies items listener) (λ ps, Ok (inr ps))
       end.
End PolicyQuery.

Definition policy_source {O} (p : Policy O) : SourceRef :=
  {| src_ref := {| rf_name := om_name (pol_meta p); rf_namespace := om_namespace (pol_meta p) |};
     src_kind := pol_kind p; src_generation := om_generation (pol_meta p) |}.

(** ** listenerutils/utils.go, vhostutils/utils.go *)
Definition AppendSourceToListener {O} (source : Policy O) (l : GlooListener) : GlooListener :=
  {| gl_name := gl_name l; gl_bindAddress := gl_bindAddress l; gl_bindPort := gl_bindPort l;
     gl_type := gl_type l; gl_options := gl_options l;
     gl_metadata := Some (default [] (gl_metadata l) ++ [policy_source source]) |}.
Definition AppendSourceToVirtualHost {O} (source : Policy O) (v : VirtualHost) : VirtualHost :=
  {| vh_name := vh_name v; vh_domains := vh_domains v; vh_routes := vh_routes v; vh_options := vh_options v;
     vh_metadata := Some (default [] (vh_metadata v) ++ [policy_source source]) |}.
Definition vh_set_options (o : option Options) (v : VirtualHost) : VirtualHost :=
  {| vh_name := vh_name v; vh_domains := vh_domains v; vh_routes := vh_routes v; vh_options := o;
     vh_metadata := vh_metadata v |}.
Definition gl_set_type (t : ListenerType) (l : GlooListener) : GlooListener :=
  {| gl_name := gl_name l; gl_bindAddress := gl_bindAddress l; gl_bindPort := gl_bindPort l;
     gl_type := t; gl_options := gl_options l; gl_metadata := gl_metadata l |}.
Definition gl_set_options (o : option Options) (l : GlooListener) : GlooListener :=
  {| gl_name := gl_name l; gl_bindAddress := gl_bindAddress l; gl_bindPort := gl_bindPort l;
     gl_type := gl_type l; gl_options := o; gl_metadata := gl_metadata l |}.

Definition ErrUnexpectedListener (gotype : string) : Err :=
  ErrWrapSuffix (ErrOther "unexpected listener type") ("expected AggregateListener, got " +:+ gotype).

(** ** listeneroptions/listener_options_plugin.go *)
Module ListenerOptions.
Definition listenerOptionTargetRefIndexer : Policy Options → list string := PolicyQuery.targetRefIndexer.
Definition GetAttachedListenerOptions `{PolicyClient} : Listener → Gateway → res (result (list (Policy Options))) :=
  PolicyQuery.GetAttachedOptions list_listener_options.

Definition ApplyListenerPlugin `{PolicyClient} : ListenerPlugin := λ lc outListener,
  att <~ lift_res (GetAttachedListenerOptions (lc_gwListener lc) (lc_gateway lc)) ;;
  ret match att with
      | inl e => (Some e, outListener)
      | inr [] => (None, outListener)
      | inr (optToUse :: _) => (None, gl_set_options (pol_options optToUse) outListener)
      end.
End ListenerOptions.

(** ** httplisteneroptions/httplistener_options_plugin.go *)
Module HttpListenerOptions.
Definition httpListenerOptionTargetRefIndexer : Policy Options → list string := PolicyQuery.targetRefIndexer.
Definition GetAttachedHttpListenerOptions `{PolicyClient} : Listener → Gateway → res (result (list (Policy Options))) :=
  PolicyQuery.GetAttachedOptions list_http_listener_options.

Definition wrap_i64 (z : Z) : Z := ((z + 2 ^ 63) mod 2 ^ 64 - 2 ^ 63)%Z.
(** gateway/pkg/translator/utils: the reference is the hash as a decimal int. *)
Definition HashAndStoreHttpOptions `{PolicyClient} (o : option Options) (byName : gmap string (option Options)) :
    string * gmap string (option Options) :=
  let ref := pretty (wrap_i64 (hash_http_options o)) in (ref, <[ref := o]> byName).

Definition set_ref (ref : string) (c : HttpFilterChain) : HttpFilterChain :=
  {| fc_sslConfig := fc_sslConfig c; fc_virtualHostRefs := fc_virtualHostRefs c; fc_httpOptionsRef := ref |}.

Definition ApplyListenerPlugin `{PolicyClient} : ListenerPlugin := λ lc outListener,
  att <~ lift_res (GetAttachedHttpListenerOptions (lc_gwListener lc) (lc_gateway lc)) ;;
  ret match att with
      | inl e => (Some e, outListener)
      | inr [] => (None, outListener)
      | inr (optToUse :: _) =>
          match gl_type outListener with
          | TOther gotype => (Some (ErrUnexpectedListener gotype), outListener)
          | TAggregate a =>
              let '(ref, byName) := HashAndStoreHttpOptions (pol_options optToUse) ∅ in
              (None, gl_set_type (TAggregate
                {| al_virtualHosts := al_virtualHosts a; al_httpOptions := byName;
                   al_httpFilterChains := map (set_ref ref) (al_httpFilterChains a) |}) outListener)
          end
      end.
End HttpListenerOptions.

(** ** virtualhostoptions/virtualhost_options_plugin.go *)
Module VirtualHostOptions.
Definition virtualHostOptionTargetRefIndexer : Policy Options → list string := PolicyQuery.targetRefIndexer.
Definition GetVirtualHostOptionsForListener `{PolicyClient} : Listener → Gateway → res (result (list (Policy Options))) :=
  PolicyQuery.GetAttachedOptions list_vhost_options.

Definition optionsToStr (opts : list (Policy Options)) : string := join ", " (map (λ o, nn_string (pol_nn o)) opts).

Definition empty_entry : ClassicStatus :=
  {| cl_subresourceStatus := ∅; cl_virtualHostErrors := []; cl_warnings := [] |}.
Definition getOrCreateEntry (key : NamespacedName) (c : gmap NamespacedName ClassicStatus) :
    ClassicStatus * gmap NamespacedName ClassicStatus :=
  match c !! key with
  | Some e => (e, c)
  | None => (empty_entry, <[key := empty_entry]> c)
  end.

Definition on_cache {A} (f : gmap NamespacedName ClassicStatus → A * gmap NamespacedName ClassicStatus) : M PState A := λ ps,
  let '(a, c) := f (ps_vhostCache ps) in
  Ok (a, {| ps_reports := ps_reports ps; ps_statusCache := ps_statusCache ps; ps_vhostCache := c |}).

(** The merged options, the policies used and those ignored. *)
Definition merge_attached (first : Policy Options) (rest : list (Policy Options)) :
    option Options * list (Policy Options) * list (Policy Options) :=
  foldl (λ '(merged, optionsUsed, ignored) opt,
    let '(merged, optionUsed) := Merge.ShallowMergeVirtualHostOptions merged (pol_options opt) in
    if optionUsed then (merged, optionsUsed ++ [opt], ignored) else (merged, optionsUsed, ignored ++ [opt]))
    (pol_options first, [first], []) rest.

Definition conflict_warning (lc : ListenerContext) (nn : NamespacedName) (optionsUsed : list (Policy Options)) : string :=
  "VirtualHostOption '" +:+ nn_string nn +:+ "' not attached to listener '" +:+ l_name (lc_gwListener lc) +:+
  "' on Gateway '" +:+ nn_string (gw_nn (lc_gateway lc)) +:+
  "' due to conflict with more specific or older VirtualHostOptions '" +:+ optionsToStr optionsUsed +:+ "'".

Definition apply_used (merged : option Options) (opt : Policy Options) (l : GlooListener) : GlooListener :=
  match gl_type l with
  | TAggregate a =>
      AppendSourceToListener opt (gl_set_type (TAggregate
        {| al_virtualHosts := (λ v, AppendSourceToVirtualHost opt (vh_set_options merged v)) <$> al_virtualHosts a;
           al_httpOptions := al_httpOptions a; al_httpFilterChains := al_httpFilterChains a |}) l)
  | TOther _ => l
  end.

(** One policy of [optionsIgnored]. *)
Definition warn_ignored (lc : ListenerContext) (optionsUsed : list (Policy Options)) (opt : Policy Options) :
    M PState unit :=
  let nn := pol_nn opt in
  on_cache (λ c, let '(e, c) := getOrCreateEntry nn c in
    (tt, <[nn := {| cl_subresourceStatus := cl_subresourceStatus e;
                    cl_virtualHostErrors := cl_virtualHostErrors e;
                    cl_warnings := cl_warnings e ++ [conflict_warning lc nn optionsUsed] |}]> c)).

Definition ApplyListenerPlugin `{PolicyClient} : ListenerPlugin := λ lc outListener,
  match gl_type outListener with
  | TOther gotype => ret (Some (ErrUnexpectedListener gotype), outListener)
  | TAggregate _ =>
      att <~ lift_res (GetVirtualHostOptionsForListener (lc_gwListener lc) (lc_gateway lc)) ;;
      match att with
      | inl e => ret (Some e, outListener)
      | inr [] => ret (None, outListener)
      | inr (first :: rest) =>
          let '(merged, optionsUsed, optionsIgnored) := merge_attached first rest in
          outListener <~ fold_range 0 optionsUsed outListener (λ _ opt l,
            do! on_cache (getOrCreateEntry (pol_nn opt)) ;;
            ret (apply_used merged opt l)) ;;
          do! for_range optionsIgnored (warn_ignored lc optionsUsed) ;;
          ret (None, outListener)
      end
  end.
End VirtualHostOptions.

(** ** Priorities *)
Lemma creation_less_spec a b :
  creation_less a b = true ↔
  (om_creation a < om_creation b)%Z ∨
  (om_creation a = om_creation b ∧
   string_lt (nn_string (namespacedName a)) (nn_string (namespacedName b)) = true).
Proof.
  unfold creation_less. case_bool_decide as Hc; [|rewrite bool_decide_eq_true]; intuition lia.
Qed.

Lemma creation_less_false a b :
  creation_less a b = false ↔
  (om_creation b < om_creation a)%Z ∨
  (om_creation a = om_creation b ∧
   string_lt (nn_string (namespacedName a)) (nn_string (namespacedName b)) = false).
Proof.
  unfold creation_less. case_bool_decide as Hc; [|rewrite bool_decide_eq_false]; intuition lia.
Qed.

(** [a] may stand before [b]: it is not newer, nor later in name among equally old ones. *)
Definition not_newer (a b : ObjectMeta) : Prop := creation_less b a = false.

#[export] Instance not_newer_trans : Transitive not_newer.
Proof.
  intros a b c. unfold not_newer. rewrite !creation_less_false, !string_lt_le.
  intros [?|[? H1]] [?|[? H2]]; [left; lia..|]. right. split; [congruence|]. by etrans.
Qed.

Lemma sort_by_creation_sorted {A} (meta : A → ObjectMeta) l :
  StronglySorted (λ a b, not_newer (meta a) (meta b)) (SortByCreationTime meta l).
Proof.
  apply sort_stable_sorted.
  - intros a b c. apply not_newer_trans.
  - intros a b. rewrite creation_less_spec. unfold not_newer. rewrite creation_less_false.
    intros [?|[? Hs]]; [left; lia|]. right. split; [done|]. by apply string_lt_asym.
  - done.
Qed.

Section Priority.
Context {O : Type}.

Definition section_name (p : Policy O) : option string :=
  match pol_targetRefs p with
  | [] => None
  | tr :: _ => match tr_sectionName tr with
               | Some s => if bool_decide (s = "") then None else Some s
               | None => None
               end
  end.

Lemma split_by_section_ok name (items : list (Policy O)) :
  Forall (λ p, pol_targetRefs p ≠ []) items →
  split_by_section name items =
    Ok (List.filter (λ p, bool_decide (section_name p = Some name)) items,
        List.filter (λ p, bool_decide (section_name p = None)) items).
Proof.
  induction 1 as [|p items Hp _ IH]; simpl; [done|]. rewrite IH.
  unfold section_of, section_name. destruct (pol_targetRefs p) as [|tr trs]; [done|]. simpl.
  destruct (tr_sectionName tr) as [s|]; simpl; [|done]. case_bool_decide; simpl; [done|].
  case_bool_decide; [subst; by rewrite bool_decide_true|]. by rewrite bool_decide_false by congruence.
Qed.
End Priority.

(** The policies that apply to a listener, most specific first: those naming the
    listener, then those naming no listener, each group oldest first and by name among
    equally old ones; policies for other listeners are dropped, and none is duplicated.
    The first target reference always exists, because policies are found by it. *)
Theorem GetPrioritizedListenerPolicies_spec {O} (items : list (Policy O)) listener :
  Forall (λ p, pol_targetRefs p ≠ []) items →
  ∃ withSec without, GetPrioritizedListenerPolicies items listener = Ok (withSec ++ without) ∧
    withSec ≡ₚ List.filter (λ p, bool_decide (section_name p = Some (l_name listener))) items ∧
    without ≡ₚ List.filter (λ p, bool_decide (section_name p = None)) items ∧
    StronglySorted (λ a b, not_newer (pol_meta a) (pol_meta b)) withSec ∧
    StronglySorted (λ a b, not_newer (pol_meta a) (pol_meta b)) without.
Proof.
  intros Hitems. unfold GetPrioritizedListenerPolicies. rewrite split_by_section_ok by done. simpl.
  eexists _, _. split; [done|].
  split_and!; [apply sort_stable_perm..|apply (sort_by_creation_sorted pol_meta)|apply (sort_by_creation_sorted pol_meta)].
Qed.

Definition ex_policy (n : string) (created : Z) (section : option string) : Policy Options :=
  {| pol_meta := {| om_name := n; om_namespace := "infra"; om_generation := 1; om_creation := created;
                    om_annotations := ∅ |};
     pol_kind := "VirtualHostOption";
     pol_targetRefs := [{| tr_group := GatewayGroup; tr_kind := GatewayKind; tr_name := "gw";
                           tr_namespace := None; tr_sectionName := section |}];
     pol_options := Some {[ n := n ]} |}.
Definition ex_policy_listener : Listener :=
  {| l_name := "http"; l_hostname := None; l_port := 80; l_protocol := "HTTP"; l_tls := None;
     l_allowedRoutes := None |}.

Lemma GetPrioritizedListenerPolicies_spec_witness :
  let items := [ex_policy "wide-new" 3 None; ex_policy "other" 0 (Some "https"); ex_policy "exact" 2 (Some "http");
                ex_policy "wide-old" 1 None] in
  ∃ out, GetPrioritizedListenerPolicies items ex_policy_listener = Ok out ∧
    map (λ p, om_name (pol_meta p)) out = ["exact"; "wide-old"; "wide-new"].
Proof.
  intros items. destruct (GetPrioritizedListenerPolicies_spec items ex_policy_listener) as (w & wo & Heq & _).
  - repeat (constructor; [discriminate|]). constructor.
  - exists (w ++ wo). split; [exact Heq|].
    assert (match GetPrioritizedListenerPolicies items ex_policy_listener with
            | Ok out => map (λ p, om_name (pol_meta p)) out | _ => [] end = ["exact"; "wide-old"; "wide-new"]) as Hc
      by (vm_compute; reflexivity).
    rewrite Heq in Hc. exact Hc.
Defined.

(** ** The listener plugins keep routes and filter chains *)
Section Laws.
Context `{PolicyClient}.

(** The indexes only return policies with a target reference. *)
Definition indexed (list_options : string → string → result (list (Policy Options))) : Prop :=
  ∀ nn ns items, list_options nn ns = inr items → Forall (λ p, pol_targetRefs p ≠ []) items.

Lemma GetAttachedOptions_total f listener gw :
  indexed f → ∃ r, PolicyQuery.GetAttachedOptions f listener gw = Ok r.
Proof.
  intros Hf. unfold PolicyQuery.GetAttachedOptions. destruct (_ || _); [by eexists|].
  destruct (f _ _) as [e|items] eqn:E; [by eexists|]. apply Hf in E.
  unfold GetPrioritizedListenerPolicies. rewrite split_by_section_ok by done. by eexists.
Qed.

Lemma ListenerOptions_ok : indexed list_listener_options → listener_plugin_ok ListenerOptions.ApplyListenerPlugin.
Proof.
  intros Hi lc l ps. unfold ListenerOptions.ApplyListenerPlugin. wp_step.
  destruct (GetAttachedOptions_total list_listener_options (lc_gwListener lc) (lc_gateway lc) Hi) as [r Hr].
  eapply wp_lift_res; [done|]. apply wp_ret. by destruct r as [e|[|p ps']].
Qed.

Lemma HttpListenerOptions_ok :
  indexed list_http_listener_options → listener_plugin_ok HttpListenerOptions.ApplyListenerPlugin.
Proof.
  intros Hi lc l ps. unfold HttpListenerOptions.ApplyListenerPlugin. wp_step.
  destruct (GetAttachedOptions_total list_http_listener_options (lc_gwListener lc) (lc_gateway lc) Hi) as [r Hr].
  eapply wp_lift_res; [done|]. apply wp_ret. destruct r as [e|[|p ps']]; [done..|].
  unfold listener_shape. destruct (gl_type l) as [a|] eqn:E; simpl; rewrite ?E; [|done].
  split; [|done]. do 3 f_equal. by rewrite map_map.
Qed.

Lemma apply_used_shape merged opt l : listener_shape (VirtualHostOptions.apply_used merged opt l) = listener_shape l.
Proof.
  unfold listener_shape, VirtualHostOptions.apply_used. destruct (gl_type l) as [a|] eqn:E; simpl; [|by rewrite E].
  do 3 f_equal. rewrite <-map_fmap_compose. by apply map_fmap_ext.
Qed.

Lemma VirtualHostOptions_ok :
  indexed list_vhost_options → listener_plugin_ok VirtualHostOptions.ApplyListenerPlugin.
Proof.
  intros Hi lc l ps. unfold VirtualHostOptions.ApplyListenerPlugin.
  destruct (gl_type l) as [a|] eqn:E; [|by apply wp_ret]. wp_step.
  destruct (GetAttachedOptions_total list_vhost_options (lc_gwListener lc) (lc_gateway lc) Hi) as [r Hr].
  eapply wp_lift_res; [done|]. destruct r as [e|[|p rest]]; [by apply wp_ret..|].
  destruct (VirtualHostOptions.merge_attached p rest) as [[merged used] ignored].
  assert (∀ A (f : _ → A * _) ps1 (Q : A → PState → Prop),
    (∀ a ps', ps_reports ps' = ps_reports ps1 → Q a ps') → wp (VirtualHostOptions.on_cache f) Q ps1) as Hcache.
  { intros A f ps1 Q HQ. unfold wp, VirtualHostOptions.on_cache. destruct (f _). by apply HQ. }
  wp_step. eapply wp_mono; [apply (wp_fold_range (λ l' ps', listener_shape l' = listener_shape l ∧
    ps_reports ps' = ps_reports ps)); [done|]|].
  { intros _ opt l' ps' _ [Hl Hps]. wp_step. apply Hcache. intros _ ps2 Hps2. apply wp_ret.
    rewrite apply_used_shape. split; congruence. }
  intros l' ps' [Hl Hps]. wp_step. eapply wp_mono; [apply (wp_for_range (λ ps2, ps_reports ps2 = ps_reports ps)); [done|]|].
  { intros opt ps2 _ Hps2. apply Hcache. intros _ ps3 Hps3. congruence. }
  simpl. intros ? ps2 Hps2. apply wp_ret. by split.
Qed.
End Laws.

(** The listener plugins of [BuildPlugins], in its order. *)
Definition BuildListenerPlugins `{PolicyClient} (Hv : indexed list_vhost_options)
    (Hh : indexed list_http_listener_options) (Hl : indexed list_listener_options) : ListenerPlugins :=
  {| listener_plugins := [VirtualHostOptions.ApplyListenerPlugin; HttpListenerOptions.ApplyListenerPlugin;
                          ListenerOptions.ApplyListenerPlugin];
     listener_plugins_ok := Forall_cons_2 _ _ _ (VirtualHostOptions_ok Hv) (Forall_cons_2 _ _ _
       (HttpListenerOptions_ok Hh) (Forall_cons_2 _ _ _ (ListenerOptions_ok Hl) (Forall_nil_2 _))) |}.
