(* ===== verification/PolicyFacts.v ===== *)
(** * Precedence of attached policies

    RouteOptions and VirtualHostOptions are merged field by field, earlier policies
    winning. The merge of one message into another is the interface [FieldMerge]; its
    laws give the meaning of merging a whole list of policies. *)

From stdpp Require Import base gmap strings list fin_maps sets.
From Stdlib Require Import ZArith Lia.
From S2P Require Import Prelude GoLib GwApi Reports Heap Query QueryFacts RouteOrder PluginApi Plugins Policies.

Import Reports Query PluginUtils.

Definition or_else {A} (a b : option A) : option A := match a with Some _ => a | None => b end.

(** A message whose top-level fields can be read by name, and its merge: unset fields of
    the destination are taken from the source, which is then said to be used. *)
Class FieldMerge (O F V : Type) := {
  field_value : F → O → option V;
  merge_options : option O → option O → option O * bool;
  merge_no_src d : merge_options d None = (d, false);
  merge_no_dst s : merge_options None (Some s) = (Some s, true);
  merge_both d s : ∃ m b, merge_options (Some d) (Some s) = (Some m, b) ∧
    (∀ f, field_value f m = or_else (field_value f d) (field_value f s)) ∧
    (b = true ↔ ∃ f, is_Some (field_value f s) ∧ field_value f d = None)
}.

Section Merging.
Context {O F V : Type} `{!FieldMerge O F V}.

(** The value of a field: the one of the first policy that sets it. *)
Definition first_set (f : F) (ps : list (Policy O)) : option V := head (omap (λ p, pol_options p ≫= field_value f) ps).

(** A policy contributes if it is the first with options, or sets a field that none of
    the policies before it sets. *)
Definition contributes (pre : list (Policy O)) (p : Policy O) : Prop :=
  ∃ o, pol_options p = Some o ∧
    ((∀ q, q ∈ pre → pol_options q = None) ∨ ∃ f, is_Some (field_value f o) ∧ first_set f pre = None).

(** [contributors pre ps used]: the policies of [ps] that contribute, after [pre]. *)
Inductive contributors : list (Policy O) → list (Policy O) → list (Policy O) → Prop :=
| contributors_nil pre : contributors pre [] []
| contributors_take pre p ps used :
    contributes pre p → contributors (pre ++ [p]) ps used → contributors pre (p :: ps) (p :: used)
| contributors_skip pre p ps used :
    ¬ contributes pre p → contributors (pre ++ [p]) ps used → contributors pre (p :: ps) used.

(** [m] is the merge of [ps]. *)
Definition represents (m : option O) (ps : list (Policy O)) : Prop :=
  (m = None ↔ ∀ q, q ∈ ps → pol_options q = None) ∧ ∀ f, m ≫= field_value f = first_set f ps.

Lemma first_set_snoc f ps p :
  first_set f (ps ++ [p]) = or_else (first_set f ps) (pol_options p ≫= field_value f).
Proof.
  unfold first_set. rewrite omap_app. simpl. destruct (omap _ ps) as [|v vs]; simpl; [|done].
  by destruct (pol_options p ≫= field_value f).
Qed.

Lemma represents_nil : represents None [].
Proof. split; [|done]. split; [|done]. set_solver. Qed.

Lemma represents_one p : represents (pol_options p) [p].
Proof.
  split.
  - split; [set_solver|]. intros Hq. apply Hq. left.
  - intros f. unfold first_set. simpl. by destruct (pol_options p ≫= field_value f).
Qed.

Lemma represents_step m pre p m' b :
  represents m pre → merge_options m (pol_options p) = (m', b) →
  represents m' (pre ++ [p]) ∧ (b = true ↔ contributes pre p).
Proof.
  intros [Hn Hf] Hm. unfold contributes. destruct (pol_options p) as [s|] eqn:Es.
  2:{ rewrite merge_no_src in Hm. injection Hm as <- <-. split; [split|].
      - rewrite Hn. set_solver.
      - intros f. rewrite first_set_snoc, Es, <-Hf. simpl. by destruct (m ≫= field_value f).
      - split; [done|]. by intros (o & [=] & _). }
  destruct m as [d|].
  - destruct (merge_both d s) as (m1 & b1 & Heq & Hfields & Hb). rewrite Heq in Hm. injection Hm as <- <-.
    split; [split|].
    + split; [done|]. intros Hall. exfalso. specialize (Hall p ltac:(set_solver)). congruence.
    + intros f. rewrite first_set_snoc, Es, <-Hf. apply Hfields.
    + rewrite Hb. split.
      * intros (f & Hs & Hd). exists s. split; [done|]. right. exists f. split; [done|]. by rewrite <-Hf.
      * intros (o & [= <-] & [Hall|(f & Hs & Hd)]); [by apply Hn in Hall|].
        exists f. split; [done|]. by rewrite <-Hf in Hd.
  - rewrite merge_no_dst in Hm. injection Hm as <- <-. split; [split|].
    + split; [done|]. intros Hall. exfalso. specialize (Hall p ltac:(set_solver)). congruence.
    + intros f. rewrite first_set_snoc, Es, <-Hf. done.
    + split; [|done]. intros _. exists s. split; [done|]. left. by apply Hn.
Qed.
End Merging.

(** ** The two instances *)
Inductive RouteField := FHostRewrite | FRegexRewrite | FPrefixRewrite | FHeaderManipulation | FShadowing | FOther (k : string).
Inductive RouteFieldValue :=
| VHostRewrite (v : HostRewriteType) | VRegexRewrite (v : RegexMatchAndSubstitute) | VPrefixRewrite (v : string)
| VHeaderManipulation (v : HeaderManipulation) | VShadowing (v : ResourceRef) | VOther (v : string).

Definition route_field (f : RouteField) (o : RouteOptions) : option RouteFieldValue :=
  match f with
  | FHostRewrite => VHostRewrite <$> ro_hostRewrite o
  | FRegexRewrite => VRegexRewrite <$> ro_regexRewrite o
  | FPrefixRewrite => VPrefixRewrite <$> ro_prefixRewrite o
  | FHeaderManipulation => VHeaderManipulation <$> ro_headerManipulation o
  | FShadowing => VShadowing <$> ro_shadowing o
  | FOther k => VOther <$> ro_other o !! k
  end.

Lemma ShallowMerge_value {A} (d s : option A) : (Merge.ShallowMerge d s).1 = or_else d s.
Proof. by destruct d, s. Qed.
Lemma ShallowMerge_used {A} (d s : option A) : (Merge.ShallowMerge d s).2 = true ↔ is_Some s ∧ d = None.
Proof.
  unfold Merge.ShallowMerge. destruct d, s; simpl; (split; [try done|try by intros [[? ?] ?]]); by eauto.
Qed.

Lemma merge_other_value d s k : (Merge.merge_other d s).1 !! k = or_else (d !! k) (s !! k).
Proof. unfold Merge.merge_other. simpl. rewrite lookup_union. by destruct (d !! k), (s !! k). Qed.
Lemma merge_other_used d s :
  (Merge.merge_other d s).2 = true ↔ ∃ k, is_Some (s !! k) ∧ d !! k = None.
Proof.
  unfold Merge.merge_other. simpl. rewrite negb_true_iff, bool_decide_eq_false. split.
  - intros Hne. destruct (decide (dom s ∖ dom d = ∅)) as [E|E].
    + exfalso. apply Hne. set_solver.
    + apply set_choose_L in E as [k Hk]. apply elem_of_difference in Hk as [Hs Hd].
      exists k. rewrite <-elem_of_dom, <-not_elem_of_dom. done.
  - intros (k & Hs & Hd) Hsub. rewrite <-elem_of_dom in Hs. apply not_elem_of_dom in Hd. by apply Hd, Hsub.
Qed.

Lemma route_options_merge d s : ∃ m b, Merge.ShallowMergeRouteOptions (Some d) (Some s) = (Some m, b) ∧
  (∀ f, route_field f m = or_else (route_field f d) (route_field f s)) ∧
  (b = true ↔ ∃ f, is_Some (route_field f s) ∧ route_field f d = None).
Proof.
  unfold Merge.ShallowMergeRouteOptions.
  pose proof (ShallowMerge_value (ro_hostRewrite d) (ro_hostRewrite s)) as V1.
  pose proof (ShallowMerge_used (ro_hostRewrite d) (ro_hostRewrite s)) as U1.
  destruct (Merge.ShallowMerge (ro_hostRewrite d) (ro_hostRewrite s)) as [h b1].
  pose proof (ShallowMerge_value (ro_regexRewrite d) (ro_regexRewrite s)) as V2.
  pose proof (ShallowMerge_used (ro_regexRewrite d) (ro_regexRewrite s)) as U2.
  destruct (Merge.ShallowMerge (ro_regexRewrite d) (ro_regexRewrite s)) as [x b2].
  pose proof (ShallowMerge_value (ro_prefixRewrite d) (ro_prefixRewrite s)) as V3.
  pose proof (ShallowMerge_used (ro_prefixRewrite d) (ro_prefixRewrite s)) as U3.
  destruct (Merge.ShallowMerge (ro_prefixRewrite d) (ro_prefixRewrite s)) as [p b3].
  pose proof (ShallowMerge_value (ro_headerManipulation d) (ro_headerManipulation s)) as V4.
  pose proof (ShallowMerge_used (ro_headerManipulation d) (ro_headerManipulation s)) as U4.
  destruct (Merge.ShallowMerge (ro_headerManipulation d) (ro_headerManipulation s)) as [hm b4].
  pose proof (ShallowMerge_value (ro_shadowing d) (ro_shadowing s)) as V5.
  pose proof (ShallowMerge_used (ro_shadowing d) (ro_shadowing s)) as U5.
  destruct (Merge.ShallowMerge (ro_shadowing d) (ro_shadowing s)) as [sh b5].
  pose proof (merge_other_value (ro_other d) (ro_other s)) as V6.
  pose proof (merge_other_used (ro_other d) (ro_other s)) as U6.
  destruct (Merge.merge_other (ro_other d) (ro_other s)) as [o b6]. simpl in *.
  eexists _, _. split; [done|]. split.
  - intros [| | | | |k]; simpl; rewrite ?V1, ?V2, ?V3, ?V4, ?V5, ?V6.
    all: match goal with |- _ <$> or_else ?a ?b = _ => by destruct a, b end.
  - rewrite !orb_true_iff, U1, U2, U3, U4, U5, U6. setoid_rewrite <-(fmap_is_Some VOther). split.
    + intros [[[[[[??]|[??]]|[??]]|[??]]|[??]]|(k&?&?)];
        [exists FHostRewrite|exists FRegexRewrite|exists FPrefixRewrite|exists FHeaderManipulation|exists FShadowing|exists (FOther k)];
        simpl; rewrite ?fmap_is_Some, ?fmap_None in *; done.
    + intros ([| | | | |k] & Hs & Hd); simpl in *; rewrite ?fmap_is_Some, ?fmap_None in *; try tauto.
      right. exists k. by rewrite fmap_is_Some.
Qed.

#[export] Instance route_merge : FieldMerge RouteOptions RouteField RouteFieldValue :=
  {| field_value := route_field; merge_options := Merge.ShallowMergeRouteOptions;
     merge_no_src d := eq_refl; merge_no_dst s := eq_refl; merge_both := route_options_merge |}.

Lemma vhost_options_merge (d s : Options) : ∃ m b, Merge.ShallowMergeVirtualHostOptions (Some d) (Some s) = (Some m, b) ∧
  (∀ k, m !! k = or_else (d !! k) (s !! k)) ∧ (b = true ↔ ∃ k, is_Some (s !! k) ∧ d !! k = None).
Proof.
  unfold Merge.ShallowMergeVirtualHostOptions.
  pose proof (merge_other_value d s) as V. pose proof (merge_other_used d s) as U.
  destruct (Merge.merge_other d s) as [m b]. by exists m, b.
Qed.
#[export] Instance vhost_merge : FieldMerge Options string string :=
  {| field_value := λ k o, o !! k; merge_options := Merge.ShallowMergeVirtualHostOptions;
     merge_no_src d := eq_refl; merge_no_dst s := eq_refl; merge_both := vhost_options_merge |}.

(** ** RouteOptions *)
Section RouteOption.
Context `{K8sClient} `{RouteOptionClient}.
Import RouteOption.

Lemma merge_policies_spec ps : ∀ pre m sources,
  represents m pre →
  ∃ m' used, merge_policies (m, sources) ps = (m', sources ++ map routeOptionToSourceRef used) ∧
    represents m' (pre ++ ps) ∧ contributors pre ps used.
Proof.
  induction ps as [|p ps IH]; intros pre m sources Hrep.
  { exists m, []. simpl. rewrite !app_nil_r. split_and!; [done..|constructor]. }
  destruct (Merge.ShallowMergeRouteOptions m (pol_options p)) as [m1 b] eqn:Em.
  destruct (represents_step m pre p m1 b Hrep Em) as [Hrep1 Hb].
  assert (merge_policies (m, sources) (p :: ps) =
    merge_policies (m1, if b then sources ++ [routeOptionToSourceRef p] else sources) ps) as ->.
  { unfold merge_policies. simpl. by rewrite Em. }
  destruct (IH (pre ++ [p]) m1 (if b then sources ++ [routeOptionToSourceRef p] else sources) Hrep1)
    as (m' & used & -> & Hrep' & Hc). rewrite <-(assoc_L (++)) in Hrep'. destruct b.
  - exists m', (p :: used). rewrite <-(assoc_L (++)). split_and!; [done..|]. constructor; [by apply Hb|done].
  - exists m', used. split_and!; [done..|]. constructor; [|done]. by rewrite <-Hb.
Qed.

(** RouteOptions on a route: when the lookups succeed and some attached RouteOption
    has options, every field of the route's options is the one of the first attached
    RouteOption that sets it, those of extension filters coming before those that target
    the route, and these by age; only a field that none of them sets keeps the value the
    route already had. The route's sources are the RouteOptions that contribute a field,
    in order, after the existing ones exactly when the route's own options contributed. *)
Theorem RouteOption_precedence h rc r ps attachments items :
  lookupFilterAttachments (hr_nn (rc_route rc)) (rc_rule rc) = Ok (inr attachments) →
  list_route_options (nn_string (hr_nn (rc_route rc))) (nn_ns (hr_nn (rc_route rc))) = inr items →
  let all := attachments ++ SortByCreationTime pol_meta items in
  (∃ p, p ∈ all ∧ is_Some (pol_options p)) →
  ∃ r' ps' used (keep : bool), ApplyRoutePlugin h rc r ps = Ok ((None, r'), ps') ∧
    (∀ f, route_field f (rt_options r') = or_else (first_set f all) (route_field f (rt_options r))) ∧
    contributors [] all used ∧
    (keep = true ↔ ∃ f, is_Some (route_field f (rt_options r)) ∧ first_set f all = None) ∧
    rt_metadata r' = Some ((if keep then default [] (rt_metadata r) else []) ++ map routeOptionToSourceRef used) ∧
    rt_action r' = rt_action r ∧ rt_matchers r' = rt_matchers r ∧ ps_reports ps' = ps_reports ps.
Proof.
  intros Hatt Hitems all (p0 & Hp0 & Ho0).
  destruct (merge_policies_spec attachments [] None [] represents_nil) as (m1 & used1 & Hm1 & Hrep1 & Hc1).
  destruct (merge_policies_spec (SortByCreationTime pol_meta items) attachments m1
    (map routeOptionToSourceRef used1) Hrep1) as (m2 & used2 & Hm2 & Hrep2 & Hc2). fold all in Hrep2.
  destruct m2 as [o|].
  2:{ exfalso. destruct Hrep2 as [[Hnone _] _]. specialize (Hnone eq_refl p0 Hp0). rewrite Hnone in Ho0. by destruct Ho0. }
  unfold ApplyRoutePlugin, handleAttachment, GetRouteOptionForRouteRule. rewrite Hitems, Hatt.
  cbn [res_bind]. rewrite Hm1. cbn [app]. rewrite Hm2.
  destruct (merge_both (FieldMerge := route_merge) o (rt_options r)) as (m & b & Heq & Hfields & Hb).
  change (Merge.ShallowMergeRouteOptions (Some o) (Some (rt_options r)) = (Some m, b)) in Heq.
  unfold bind, ret. rewrite Heq. eexists _, _, (used1 ++ used2), b. split; [done|].
  destruct Hrep2 as [_ Hvalue]. split_and!; simpl.
  - intros f. etrans; [apply Hfields|]. specialize (Hvalue f). simpl in Hvalue. by rewrite <-Hvalue.
  - clear -Hc1 Hc2. change attachments with ([] ++ attachments) in Hc2. subst all.
    induction Hc1 as [pre|pre p ps used Hp _ IH|pre p ps used Hp _ IH]; simpl in *.
    + by rewrite app_nil_r in Hc2.
    + constructor; [done|]. apply IH. by rewrite <-(assoc_L (++)).
    + apply contributors_skip; [done|]. apply IH. by rewrite <-(assoc_L (++)).
  - rewrite Hb. split; intros (f & Hs & Hd); exists f; (split; [done|]); specialize (Hvalue f); simpl in *; congruence.
  - rewrite map_app. by destruct b.
  - done.
  - done.
  - done.
Qed.
End RouteOption.

(** ** VirtualHostOptions *)
Section VirtualHostOption.
Context `{PolicyClient}.
Import VirtualHostOptions.

Lemma merge_attached_spec first rest :
  ∃ m used ignored, merge_attached first rest = (m, first :: used, ignored) ∧
    represents m (first :: rest) ∧ contributors [first] rest used ∧ rest ≡ₚ used ++ ignored.
Proof.
  unfold merge_attached. set (step := λ '(merged, optionsUsed, ignored) opt, _).
  enough (∀ ps pre m used0 ignored0, represents m pre → ∃ m' used ignored,
    foldl step (m, used0, ignored0) ps = (m', used0 ++ used, ignored0 ++ ignored) ∧
    represents m' (pre ++ ps) ∧ contributors pre ps used ∧ ps ≡ₚ used ++ ignored) as Hfold.
  { destruct (Hfold rest [first] (pol_options first) [first] [] (represents_one first))
      as (m & used & ignored & Hrun & ?). by exists m, used, ignored. }
  induction ps as [|p ps IH]; intros pre m used0 ignored0 Hrep.
  { exists m, [], []. rewrite !app_nil_r. split_and!; [done..|constructor|done]. }
  simpl. destruct (Merge.ShallowMergeVirtualHostOptions m (pol_options p)) as [m1 b] eqn:Em.
  destruct (represents_step m pre p m1 b Hrep Em) as [Hrep1 Hb]. destruct b.
  - destruct (IH (pre ++ [p]) m1 (used0 ++ [p]) ignored0 Hrep1) as (m' & used & ignored & -> & Hrep' & Hc & Hperm).
    rewrite <-(assoc_L (++)) in Hrep'. exists m', (p :: used), ignored. rewrite <-(assoc_L (++)).
    split_and!; [done..| |by rewrite Hperm]. constructor; [by apply Hb|done].
  - destruct (IH (pre ++ [p]) m1 used0 (ignored0 ++ [p]) Hrep1) as (m' & used & ignored & -> & Hrep' & Hc & Hperm).
    rewrite <-(assoc_L (++)) in Hrep'. exists m', used, (p :: ignored). rewrite <-(assoc_L (++)).
    split_and!; [done..| |by rewrite Hperm, Permutation_middle]. constructor; [|done]. by rewrite <-Hb.
Qed.

(** What the plugin does to a virtual host, and to the listener. *)
Definition vhost_with (m : option Options) (used : list (Policy Options)) (v : VirtualHost) : VirtualHost :=
  {| vh_name := vh_name v; vh_domains := vh_domains v; vh_routes := vh_routes v; vh_options := m;
     vh_metadata := Some (default [] (vh_metadata v) ++ map policy_source used) |}.
Definition listener_with (m : option Options) (used : list (Policy Options)) (a : AggregateListener) (l : GlooListener) :
    GlooListener :=
  {| gl_name := gl_name l; gl_bindAddress := gl_bindAddress l; gl_bindPort := gl_bindPort l;
     gl_type := TAggregate {| al_virtualHosts := vhost_with m used <$> al_virtualHosts a;
                              al_httpOptions := al_httpOptions a; al_httpFilterChains := al_httpFilterChains a |};
     gl_options := gl_options l;
     gl_metadata := Some (default [] (gl_metadata l) ++ map policy_source used) |}.

Lemma apply_used_with m used opt a l :
  apply_used m opt (listener_with m used a l) = listener_with m (used ++ [opt]) a l.
Proof.
  unfold apply_used, listener_with, AppendSourceToListener. simpl. do 2 f_equal; [f_equal|].
  - rewrite <-map_fmap_compose. apply map_fmap_ext. intros k v _.
    unfold vhost_with, AppendSourceToVirtualHost. simpl. by rewrite map_app, (assoc_L (++)).
  - by rewrite map_app, (assoc_L (++)).
Qed.

Lemma apply_used_first m opt a l :
  gl_type l = TAggregate a → apply_used m opt l = listener_with m [opt] a l.
Proof. intros Ha. unfold apply_used. by rewrite Ha. Qed.

Definition has_warning (c : gmap NamespacedName ClassicStatus) (n : NamespacedName) (w : string) : Prop :=
  ∃ e, c !! n = Some e ∧ w ∈ cl_warnings e.

Lemma wp_on_cache {A} (f : gmap NamespacedName ClassicStatus → A * gmap NamespacedName ClassicStatus) ps (Q : A → PState → Prop) :
  (∀ ps', ps_vhostCache ps' = (f (ps_vhostCache ps)).2 → Q (f (ps_vhostCache ps)).1 ps') → wp (on_cache f) Q ps.
Proof. intros HQ. unfold wp, on_cache. destruct (f _) as [x c] eqn:E. simpl in HQ. by apply HQ. Qed.

Lemma warn_ignored_ok lc used opt ps :
  wp (warn_ignored lc used opt) (λ _ ps',
    has_warning (ps_vhostCache ps') (pol_nn opt) (conflict_warning lc (pol_nn opt) used) ∧
    ∀ n w, has_warning (ps_vhostCache ps) n w → has_warning (ps_vhostCache ps') n w) ps.
Proof.
  unfold warn_ignored. apply wp_on_cache. intros ps' Hps'. unfold getOrCreateEntry in Hps'.
  destruct (ps_vhostCache ps !! pol_nn opt) as [e|] eqn:E; simpl in Hps'; unfold has_warning; rewrite Hps'; clear Hps'.
  - split; [eexists; rewrite lookup_insert_eq; split; [done|simpl; set_solver]|].
    intros n w (e' & He' & Hw). destruct (decide (n = pol_nn opt)) as [->|Hne].
    + eexists. rewrite lookup_insert_eq. split; [done|]. simpl. rewrite E in He'. injection He' as ->. set_solver.
    + exists e'. by rewrite lookup_insert_ne.
  - split; [eexists; rewrite lookup_insert_eq; split; [done|simpl; set_solver]|].
    intros n w (e' & He' & Hw). destruct (decide (n = pol_nn opt)) as [->|Hne]; [congruence|].
    exists e'. by rewrite !lookup_insert_ne.
Qed.

Lemma warn_all_ok lc used ignored : ∀ ps,
  wp (for_range ignored (warn_ignored lc used)) (λ _ ps',
    (∀ p, p ∈ ignored → has_warning (ps_vhostCache ps') (pol_nn p) (conflict_warning lc (pol_nn p) used)) ∧
    ∀ n w, has_warning (ps_vhostCache ps) n w → has_warning (ps_vhostCache ps') n w) ps.
Proof.
  induction ignored as [|p ignored IH]; intros ps; simpl.
  { apply wp_ret. split; [|done]. intros p Hp. by apply not_elem_of_nil in Hp. }
  wp_step. eapply wp_mono; [apply warn_ignored_ok|]. intros [] ps1 [Hw Hk].
  eapply wp_mono; [apply IH|]. intros [] ps2 [Hws Hk2]. split; [|by auto].
  intros q [->|Hq]%elem_of_cons; auto.
Qed.

(** VirtualHostOptions on a listener: every virtual host gets exactly the merged
    options, each field from the first (most specific, then oldest) policy that sets it,
    and names the first policy and those that contribute as its sources, as does the
    listener; each policy that contributes nothing is left with a conflict warning in the
    status cache; routes, domains and filter chains are untouched. *)
Theorem VirtualHostOptions_precedence lc l a first rest ps :
  gl_type l = TAggregate a →
  GetVirtualHostOptionsForListener (lc_gwListener lc) (lc_gateway lc) = Ok (inr (first :: rest)) →
  ∃ m used ignored ps', ApplyListenerPlugin lc l ps = Ok ((None, listener_with m (first :: used) a l), ps') ∧
    represents m (first :: rest) ∧ contributors [first] rest used ∧ rest ≡ₚ used ++ ignored ∧
    (∀ p, p ∈ ignored → has_warning (ps_vhostCache ps') (pol_nn p) (conflict_warning lc (pol_nn p) (first :: used))).
Proof.
  intros Ha Hatt. destruct (merge_attached_spec first rest) as (m & used & ignored & Hrun & Hrep & Hc & Hperm).
  exists m, used, ignored.
  enough (wp (ApplyListenerPlugin lc l) (λ out ps', out = (None, listener_with m (first :: used) a l) ∧
    ∀ p, p ∈ ignored → has_warning (ps_vhostCache ps') (pol_nn p) (conflict_warning lc (pol_nn p) (first :: used))) ps)
    as Hwp by (apply wp_run in Hwp as (out & ps' & ? & -> & ?); by exists ps').
  unfold ApplyListenerPlugin. rewrite Ha, Hatt. wp_step. eapply wp_lift_res; [done|]. cbn beta iota. rewrite Hrun.
  cbn beta iota. wp_step. eapply wp_mono; [apply (wp_fold_range_prefix (λ pre l' _,
    l' = match pre with [] => l | _ => listener_with m pre a l end) _ (first :: used) 0 []); [done|]|].
  { intros j pre opt l' ps1 _ ->. wp_step. apply wp_on_cache. intros ps2 _. apply wp_ret. destruct pre as [|p pre]; simpl.
    - by apply apply_used_first.
    - by apply apply_used_with. }
  simpl. intros l' ps1 ->. wp_step. eapply wp_mono; [apply warn_all_ok|]. intros [] ps2 [Hw _]. by apply wp_ret.
Qed.
End VirtualHostOption.

(** ** Witnesses *)
Definition ex_options (host : option string) (other : gmap string string) : RouteOptions :=
  {| ro_hostRewrite := HostRewrite <$> host; ro_regexRewrite := None; ro_prefixRewrite := None;
     ro_headerManipulation := None; ro_shadowing := None; ro_other := other |}.
Definition ex_route_option (n : string) (created : Z) (o : RouteOptions) : Policy RouteOptions :=
  {| pol_meta := {| om_name := n; om_namespace := "app"; om_generation := 1; om_creation := created;
                    om_annotations := ∅ |};
     pol_kind := "RouteOption"; pol_targetRefs := []; pol_options := Some o |}.
(** The newer one sets the timeout too, but may only contribute the retries. *)
Definition ex_older : Policy RouteOptions := ex_route_option "older" 1 (ex_options None {["timeout" := "1s"]}).
Definition ex_newer : Policy RouteOptions :=
  ex_route_option "newer" 2 (ex_options None (<["timeout" := "9s"]> {["retries" := "3"]})).
Definition ex_route_options : RouteOptionClient :=
  {| list_route_options _ _ := inr [ex_newer; ex_older]; multierror es := default (ErrOther "") (head es) |}.
Definition ex_context : RouteContext :=
  {| rc_listener := ex_listener; rc_route := (load_route ex_parent empty_heap).1; rc_hostnames := [];
     rc_chain := []; rc_rule := None; rc_match := None;
     rc_reporter := (hr_nn ex_parent, getParentRefKey (ex_gw_ref "http")) |}.
Definition ex_output : Route :=
  {| rt_matchers := []; rt_action := None; rt_options := ex_options (Some "a.com") ∅; rt_name := "r"; rt_metadata := None |}.
Definition ex_pstate : PState := {| ps_reports := NewReportMap; ps_statusCache := ∅; ps_vhostCache := ∅ |}.

Lemma RouteOption_precedence_witness :
  ∃ r' ps', @RouteOption.ApplyRoutePlugin ex_client ex_route_options empty_heap ex_context ex_output ex_pstate =
      Ok ((None, r'), ps') ∧
    route_field (FOther "timeout") (rt_options r') = Some (VOther "1s") ∧
    route_field (FOther "retries") (rt_options r') = Some (VOther "3") ∧
    route_field FHostRewrite (rt_options r') = Some (VHostRewrite (HostRewrite "a.com")).
Proof.
  destruct (@RouteOption_precedence ex_client ex_route_options empty_heap ex_context ex_output ex_pstate
    [] [ex_newer; ex_older]) as (r' & ps' & used & keep & Hrun & Hf & _).
  - reflexivity.
  - reflexivity.
  - exists ex_older. split; [vm_compute; left|by eexists].
  - exists r', ps'. split; [exact Hrun|]. rewrite !Hf. split_and!; vm_compute; reflexivity.
Defined.

Definition ex_vhost_policy (n : string) (created : Z) (o : Options) : Policy Options :=
  {| pol_meta := {| om_name := n; om_namespace := "infra"; om_generation := 1; om_creation := created;
                    om_annotations := ∅ |};
     pol_kind := "VirtualHostOption";
     pol_targetRefs := [{| tr_group := GatewayGroup; tr_kind := GatewayKind; tr_name := "gw"; tr_namespace := None;
                           tr_sectionName := None |}];
     pol_options := Some o |}.
Definition ex_first : Policy Options := ex_vhost_policy "first" 1 {["cors" := "a"]}.
Definition ex_second : Policy Options := ex_vhost_policy "second" 2 {["cors" := "b"]}.
Definition ex_policies : PolicyClient :=
  {| list_listener_options _ _ := inr []; list_http_listener_options _ _ := inr [];
     list_vhost_options _ _ := inr [ex_second; ex_first]; hash_http_options _ := 0%Z |}.
Definition ex_aggregate : AggregateListener :=
  {| al_virtualHosts := ∅; al_httpOptions := ∅; al_httpFilterChains := [] |}.
Definition ex_gloo_listener : GlooListener :=
  {| gl_name := "http"; gl_bindAddress := "::"; gl_bindPort := 8080; gl_type := TAggregate ex_aggregate;
     gl_options := None; gl_metadata := None |}.

Lemma VirtualHostOptions_precedence_witness :
  ∃ m used ignored ps',
    @VirtualHostOptions.ApplyListenerPlugin ex_policies {| lc_gateway := ex_gateway; lc_gwListener := ex_listener |}
      ex_gloo_listener ex_pstate = Ok ((None, listener_with m (ex_first :: used) ex_aggregate ex_gloo_listener), ps') ∧
    m ≫= field_value (FieldMerge := vhost_merge) "cors" = Some "a" ∧ [ex_second] ≡ₚ used ++ ignored.
Proof.
  destruct (@VirtualHostOptions_precedence ex_policies {| lc_gateway := ex_gateway; lc_gwListener := ex_listener |}
    ex_gloo_listener ex_aggregate ex_first [ex_second] ex_pstate)
    as (m & used & ignored & ps' & Hrun & [_ Hv] & _ & Hperm & _).
  - reflexivity.
  - vm_compute. reflexivity.
  - exists m, used, ignored, ps'. split; [exact Hrun|]. split; [rewrite Hv; vm_compute; reflexivity|exact Hperm].
Defined.
