(* ===== verification/ListenerValidation.v ===== *)
(** * listener/validation.go: which listeners of a Gateway are translated

    Listeners are checked for supported protocols and route kinds, then grouped by port in
    a Go map, whose iteration order decides the order of the result. *)

From stdpp Require Import base gmap strings list fin_maps sets.
From Stdlib Require Import ZArith Lia.
From S2P Require Import Prelude GoLib GwApi Reports.

Import Reports.

Module ListenerValidation.

Definition NormalizedHTTPSTLSType : string := "HTTPS/TLS".
Definition DefaultHostname : string := "*".

Record portProtocol := {
  pp_hostnames : gmap string nat;
  pp_protocol : gmap string bool;
  pp_listeners : list Listener
}.

Definition getSupportedProtocolsRoutes : gmap string (gmap string (list string)) :=
  <[HTTPProtocolType := {[ GatewayGroup := [HTTPRouteKind] ]}]>
  {[ HTTPSProtocolType := {[ GatewayGroup := [HTTPRouteKind] ]} ]}.

(** [reporter.Listener(&listener)] followed by one operation on it. *)
Definition on_listener (k : NamespacedName) (l : Listener) (f : ListenerReporter → ReportMap → ReportMap) :
    M ReportMap unit :=
  modify (λ rm, let '(hd, rm) := GatewayReporter_Listener k l rm in f hd rm).
Definition listener_condition (k : NamespacedName) (l : Listener) (c : Condition) : M ReportMap unit :=
  on_listener k l (λ hd, ListenerReporter_SetCondition hd c).

Definition unsupported_protocol : Condition := report_condition "Accepted" ConditionFalse "UnsupportedProtocol" "".
Definition invalid_route_kinds : Condition := report_condition "ResolvedRefs" ConditionFalse "InvalidRouteKinds" "".
Definition protocol_conflict : Condition := report_condition "Conflicted" ConditionTrue "ProtocolConflict"
  "Found conflicting protocols on listeners, a single port can only contain listeners with compatible protocols".
Definition hostname_conflict : Condition := report_condition "Conflicted" ConditionTrue "HostnameConflict"
  "Found conflicting hostnames on listeners, all listeners on a single port must have unique hostnames".

Definition default_group (rgk : RouteGroupKind) : RouteGroupKind :=
  {| rgk_group := Some (default GatewayGroup (rgk_group rgk)); rgk_kind := rgk_kind rgk |}.

Definition kind_supported (supported : gmap string (list string)) (rgk : RouteGroupKind) : bool :=
  match supported !! default "" (rgk_group rgk) with
  | None => false
  | Some kinds => bool_decide (rgk_kind rgk ∈ kinds)
  end.

Definition normalize (protocol : string) : string :=
  if bool_decide (protocol = HTTPSProtocolType) || bool_decide (protocol = TLSProtocolType)
  then NormalizedHTTPSTLSType else protocol.
Definition hostname_of (l : Listener) : string := default DefaultHostname (l_hostname l).

(** One iteration of the grouping loop. *)
Definition add_to_port (listener : Listener) (portListeners : gmap Z portProtocol) : gmap Z portProtocol :=
  let protocol := normalize (l_protocol listener) in
  let hostname := hostname_of listener in
  match portListeners !! l_port listener with
  | Some e =>
      <[l_port listener :=
        {| pp_hostnames := <[hostname := default 0 (pp_hostnames e !! hostname) + 1]> (pp_hostnames e);
           pp_protocol := <[protocol := true]> (pp_protocol e);
           pp_listeners := pp_listeners e ++ [listener] |}]> portListeners
  | None =>
      <[l_port listener :=
        {| pp_hostnames := {[ hostname := 1 ]}; pp_protocol := {[ protocol := true ]};
           pp_listeners := [listener] |}]> portListeners
  end.

Section Validate.
Context `{!GoRange string} `{!GoRange Z}.

Definition buildDefaultRouteKindsForProtocol (supported : gmap string (list string)) : list RouteGroupKind :=
  flat_map (λ '(group, kinds), map (λ kind, {| rgk_group := Some group; rgk_kind := kind |}) kinds)
    (go_range supported).

Definition validate_supported (k : NamespacedName) (listener : Listener) (valid : list Listener) :
    M ReportMap (list Listener) :=
  match getSupportedProtocolsRoutes !! l_protocol listener with
  | None => do! listener_condition k listener unsupported_protocol ;; ret valid
  | Some supported =>
      match l_allowedRoutes listener ≫= ar_kinds with
      | None | Some [] =>
          do! on_listener k listener (λ hd, ListenerReporter_SetSupportedKinds hd
                (buildDefaultRouteKindsForProtocol supported)) ;;
          ret (valid ++ [listener])
      | Some kinds =>
          let kinds := map default_group kinds in
          let found := List.filter (kind_supported supported) kinds in
          let invalid := List.filter (λ rgk, negb (kind_supported supported rgk)) kinds in
          do! on_listener k listener (λ hd, ListenerReporter_SetSupportedKinds hd found) ;;
          match invalid with
          | [] => ret (valid ++ [listener])
          | _ => do! listener_condition k listener invalid_route_kinds ;; ret valid
          end
      end
  end.

Definition validateSupportedRoutes (k : NamespacedName) (listeners : list Listener) : M ReportMap (list Listener) :=
  fold_range 0 listeners [] (λ _ listener valid, validate_supported k listener valid).

(** The conflict checks of one listener of a port. *)
Definition validate_conflicts (k : NamespacedName) (pp : portProtocol) (listener : Listener) (valid : list Listener) :
    M ReportMap (list Listener) :=
  if bool_decide (1 < size (pp_protocol pp)) then
    do! listener_condition k listener protocol_conflict ;; ret valid
  else if bool_decide (1 < default 0 (pp_hostnames pp !! hostname_of listener)) then
    do! listener_condition k listener hostname_conflict ;; ret valid
  else ret (valid ++ [listener]).

Definition validateListeners (gw : Gateway) (k : NamespacedName) : M ReportMap (list Listener) :=
  validListeners <~ validateSupportedRoutes k (gw_listeners gw) ;;
  let portListeners := foldl (λ m l, add_to_port l m) ∅ validListeners in
  validListeners <~ fold_range 0 (go_range portListeners) [] (λ _ '(_, pp) valid,
    fold_range 0 (pp_listeners pp) valid (λ _ listener valid, validate_conflicts k pp listener valid)) ;;
  do! (match validListeners with
       | [] =>
           do! modify (GatewayReporter_SetCondition k (report_condition "Accepted" ConditionFalse "ListenersNotValid" "")) ;;
           modify (GatewayReporter_SetCondition k (report_condition "Programmed" ConditionFalse "Invalid" ""))
       | _ => ret tt
       end) ;;
  ret validListeners.
End Validate.

(** ** Specification *)

(** Supported protocol and, if it restricts the route kinds, only supported kinds. *)
Definition rgk_ok (rgk : RouteGroupKind) : bool :=
  bool_decide (default GatewayGroup (rgk_group rgk) = GatewayGroup) && bool_decide (rgk_kind rgk = HTTPRouteKind).
Definition protocol_ok (l : Listener) : bool :=
  bool_decide (l_protocol l = HTTPProtocolType) || bool_decide (l_protocol l = HTTPSProtocolType).
Definition kinds_ok (l : Listener) : bool := forallb rgk_ok (default [] (l_allowedRoutes l ≫= ar_kinds)).
Definition supported (l : Listener) : bool := protocol_ok l && kinds_ok l.

Definition same_port (l l' : Listener) : bool := bool_decide (l_port l = l_port l').
Definition protocol_conflicts (ls : list Listener) (l : Listener) : bool :=
  existsb (λ l', same_port l l' && negb (bool_decide (normalize (l_protocol l) = normalize (l_protocol l')))) ls.
Definition hostname_conflicts (ls : list Listener) (l : Listener) : bool :=
  bool_decide (1 < length (List.filter (λ l', same_port l l' && bool_decide (hostname_of l = hostname_of l')) ls)).
Definition admissible (ls : list Listener) (l : Listener) : bool :=
  negb (protocol_conflicts ls l) && negb (hostname_conflicts ls l).

(** The condition a listener is given when it is not translated. *)
Definition first_condition (l : Listener) : list Condition :=
  if protocol_ok l then (if kinds_ok l then [] else [invalid_route_kinds]) else [unsupported_protocol].
Definition conflict_condition (ls : list Listener) (l : Listener) : list Condition :=
  if protocol_conflicts ls l then [protocol_conflict]
  else if hostname_conflicts ls l then [hostname_conflict] else [].
Definition rejection (listeners : list Listener) (l : Listener) : list Condition :=
  if supported l then conflict_condition (List.filter supported listeners) l else first_condition l.

(** ** Reports of listeners *)
Definition gateway_live (k : NamespacedName) (rm : ReportMap) : Prop := is_Some (rm_gateways rm !! k).
Definition conditions_of (k : NamespacedName) (n : string) (rm : ReportMap) : list Condition :=
  from_option ls_conditions [] (listener_report (k, n) rm).

(** Reports of gateways are added only. *)
Definition gateways_kept (rm rm' : ReportMap) : Prop := ∀ k, gateway_live k rm → gateway_live k rm'.
#[export] Instance gateways_kept_preorder : PreOrder gateways_kept.
Proof. split; [by intros rm k|]. intros r1 r2 r3 H1 H2 k Hk. by apply H2, H1. Qed.
Lemma alter_gateway_kept f k rm : gateways_kept rm (alter_gateway f k rm).
Proof. intros k' [g Hg]. unfold gateway_live. simpl. rewrite lookup_alter. case_decide; [subst; rewrite Hg|]; eauto. Qed.

(** Nothing but reports of listeners of [k] differs. *)
Definition gateway_conditions (k : NamespacedName) (rm : ReportMap) : list Condition :=
  from_option gr_conditions [] (rm_gateways rm !! k).
Definition listeners_only (k : NamespacedName) (rm rm' : ReportMap) : Prop :=
  rm_routes rm' = rm_routes rm ∧ gateway_conditions k rm' = gateway_conditions k rm ∧ gateways_kept rm rm'.

#[export] Instance listeners_only_preorder k : PreOrder (listeners_only k).
Proof.
  split; [by intros rm; split_and!|]. intros r1 r2 r3 (Hr1 & Hg1 & Hk1) (Hr2 & Hg2 & Hk2).
  split_and!; [congruence..|by etrans].
Qed.

Lemma alter_listener_conditions f hd rm k :
  gateway_conditions k (alter_listener f hd rm) = gateway_conditions k rm.
Proof.
  unfold gateway_conditions. simpl. rewrite lookup_alter. case_decide; [|done]. subst.
  by destruct (rm_gateways rm !! _).
Qed.

Lemma alter_listener_live f hd rm k' :
  is_Some (rm_gateways (alter_listener f hd rm) !! k') ↔ is_Some (rm_gateways rm !! k').
Proof. simpl. rewrite lookup_alter. case_decide; [|done]. subst. by destruct (rm_gateways rm !! _). Qed.

Lemma on_listener_spec k l f rm :
  gateway_live k rm →
  (∃ g, ∀ hd, f hd = alter_listener (g hd) hd) →
  ∃ rm', on_listener k l f rm = Ok (tt, rm') ∧ gateway_live k rm' ∧
    ∃ rm0, rm' = f (k, l_name l) rm0 ∧ (∀ n, conditions_of k n rm0 = conditions_of k n rm) ∧
      is_Some (listener_report (k, l_name l) rm0) ∧ gateway_live k rm0 ∧ listeners_only k rm rm'.
Proof.
  intros [g Hg] Hf. unfold on_listener, modify. simpl.
  set (rm0 := alter_gateway _ k rm). exists (f (k, l_name l) rm0).
  assert (gateway_live k rm0) as Hlive.
  { unfold gateway_live, rm0; simpl. rewrite lookup_alter_eq, Hg. by eexists. }
  destruct Hf as [fl Hf]. rewrite !Hf.
  split_and!; [done|by apply alter_listener_live|]. exists rm0. split_and!; [done| | |done|split; [done|split; [|by etrans; apply alter_gateway_kept]]].
  - intros n. unfold conditions_of, listener_report, rm0; simpl. rewrite lookup_alter_eq, Hg. simpl.
    unfold listener_of. destruct (gr_listeners g !! l_name l) eqn:E; [done|]. simpl.
    rewrite lookup_insert. case_decide as Hn; [|done]. subst. by rewrite E.
  - unfold listener_report, rm0; simpl. rewrite lookup_alter_eq, Hg. simpl. unfold listener_of.
    destruct (gr_listeners g !! l_name l) eqn:E; simpl; [by rewrite E|]. rewrite lookup_insert_eq. by eexists.
  - rewrite alter_listener_conditions. unfold gateway_conditions, rm0. simpl. rewrite lookup_alter_eq, Hg. simpl.
    unfold listener_of. by destruct (gr_listeners g !! l_name l).
Qed.

(** Setting a condition of a listener appends to that listener's conditions only. *)
Lemma wp_listener_condition k l c rm (Q : unit → ReportMap → Prop) :
  gateway_live k rm →
  (∀ rm', gateway_live k rm' →
     (∀ n, conditions_of k n rm' = conditions_of k n rm ++ if bool_decide (l_name l = n) then [c] else []) →
     listeners_only k rm rm' → Q tt rm') →
  wp (listener_condition k l c) Q rm.
Proof.
  intros Hlive HQ. unfold listener_condition.
  destruct (on_listener_spec k l (λ hd, ListenerReporter_SetCondition hd c) rm Hlive)
    as (rm' & Hrun & Hlive' & rm0 & -> & Hsame & [lr Hlr] & Hlive0 & Hroutes).
  { by eexists. }
  unfold wp. rewrite Hrun. apply HQ; [done| |done]. intros n. rewrite <-Hsame. unfold conditions_of.
  case_bool_decide as Hn.
  - subst. by rewrite (listener_set_condition_same _ _ _ _ Hlr), Hlr.
  - unfold ListenerReporter_SetCondition. rewrite alter_listener_other, app_nil_r; [done|]. congruence.
Qed.

Lemma wp_listener_kinds k l ks rm (Q : unit → ReportMap → Prop) :
  gateway_live k rm →
  (∀ rm', gateway_live k rm' → (∀ n, conditions_of k n rm' = conditions_of k n rm) →
     listeners_only k rm rm' → Q tt rm') →
  wp (on_listener k l (λ hd, ListenerReporter_SetSupportedKinds hd ks)) Q rm.
Proof.
  intros Hlive HQ.
  destruct (on_listener_spec k l (λ hd, ListenerReporter_SetSupportedKinds hd ks) rm Hlive)
    as (rm' & Hrun & Hlive' & rm0 & -> & Hsame & [lr Hlr] & [g Hg] & Hroutes).
  { by eexists. }
  unfold wp. rewrite Hrun. apply HQ; [done| |done]. intros n. rewrite <-Hsame. unfold conditions_of.
  destruct (decide (l_name l = n)) as [<-|Hn].
  - unfold listener_report in *; simpl in *. rewrite lookup_alter_eq, Hg in *. simpl in *.
    by rewrite lookup_alter_eq, Hlr.
  - unfold ListenerReporter_SetSupportedKinds. rewrite alter_listener_other; [done|]. congruence.
Qed.
End ListenerValidation.
