(* ===== verification/ListenerValidationFacts.v ===== *)
(** * Properties of the listener validation *)

From stdpp Require Import base gmap strings list fin_maps sets.
From Stdlib Require Import ZArith Lia.
From S2P Require Import Prelude GoLib GwApi Reports ListenerValidation.

Import Reports ListenerValidation.

(** ** Grouping by port *)
Definition on_port (p : Z) (ls : list Listener) : list Listener :=
  List.filter (λ l, bool_decide (l_port l = p)) ls.

(** The entry of a port after grouping [g], the listeners of that port. *)
Definition entry_ok (g : list Listener) (o : option portProtocol) : Prop :=
  match g with
  | [] => o = None
  | _ => ∃ pp, o = Some pp ∧ pp_listeners pp = g ∧
      (∀ h, default 0 (pp_hostnames pp !! h) = length (List.filter (λ l, bool_decide (hostname_of l = h)) g)) ∧
      (∀ pr, pr ∈ dom (pp_protocol pp) ↔ ∃ l, l ∈ g ∧ normalize (l_protocol l) = pr)
  end.

Lemma filter_snoc {A} (f : A → bool) x ls l :
  List.filter f (x ++ ls ++ [l]) = List.filter f (x ++ ls) ++ List.filter f [l].
Proof. by rewrite (assoc_L (++)), List.filter_app. Qed.

Lemma group_ports ls p : entry_ok (on_port p ls) (foldl (λ m l, add_to_port l m) ∅ ls !! p).
Proof.
  induction ls as [|l ls IH] using rev_ind; [done|].
  rewrite foldl_app. simpl. set (m := foldl _ ∅ ls) in *.
  unfold on_port. rewrite List.filter_app. fold (on_port p ls). simpl.
  case_bool_decide as Hp; last first.
  { rewrite app_nil_r. replace (add_to_port l m !! p) with (m !! p); [done|].
    unfold add_to_port. destruct (m !! l_port l); by rewrite lookup_insert_ne. }
  subst p. unfold add_to_port. set (g := on_port (l_port l) ls) in *.
  destruct g as [|l0 g0] eqn:Eg; simpl in IH.
  - rewrite IH. rewrite lookup_insert_eq. simpl. eexists. split; [done|]. split; [done|]. split; simpl.
    + intros h. rewrite lookup_singleton. case_decide; case_bool_decide; simpl; congruence || done.
    + intros pr. rewrite dom_singleton_L, elem_of_singleton. set_solver.
  - destruct IH as (pp & -> & Hls & Hh & Hpr). rewrite lookup_insert_eq. simpl.
    eexists. split; [done|]. simpl. rewrite Hls. split; [done|]. split.
    + intros h. pose proof (filter_snoc (λ l, bool_decide (hostname_of l = h)) [l0] g0 l) as Hsnoc. simpl in Hsnoc.
      etrans; [|symmetry; apply (f_equal length Hsnoc)]. rewrite length_app.
      specialize (Hh h). simpl in Hh. rewrite <-Hh, lookup_insert.
      destruct (decide (hostname_of l = h)) as [<-|Hd].
      * by rewrite bool_decide_true by done.
      * rewrite bool_decide_false by done. simpl. lia.
    + intros pr. rewrite dom_insert_L, elem_of_union, elem_of_singleton, Hpr. set_solver.
Qed.

Lemma size_gt_1 (m : gmap string bool) a :
  a ∈ dom m → 1 < size m ↔ ∃ b, b ∈ dom m ∧ b ≠ a.
Proof.
  intros Ha. rewrite <-size_dom.
  assert (size (dom m) = S (size (dom m ∖ {[a]}))) as ->.
  { rewrite (union_difference_singleton_L a (dom m) Ha) at 1.
    rewrite size_union, size_singleton by set_solver. done. }
  split.
  - intros Hs. destruct (decide (dom m ∖ {[a]} = ∅)) as [E|E]; [rewrite E, size_empty in Hs; lia|].
    apply set_choose_L in E as [b Hb]. exists b. set_solver.
  - intros (b & Hb & Hne). assert (size (dom m ∖ {[a]}) ≠ 0); [|lia].
    intros Hs%size_empty_inv. set_solver.
Qed.

(** The checks on a port's entry are the conflicts of the specification. *)
Lemma conflicts_of_entry ls l pp :
  entry_ok (on_port (l_port l) ls) (Some pp) → l ∈ ls →
  bool_decide (1 < size (pp_protocol pp)) = protocol_conflicts ls l ∧
  bool_decide (1 < default 0 (pp_hostnames pp !! hostname_of l)) = hostname_conflicts ls l.
Proof.
  intros Hent Hl. assert (l ∈ on_port (l_port l) ls) as Hg.
  { apply list_elem_of_In, filter_In. split; [by apply list_elem_of_In|]. by apply bool_decide_eq_true. }
  destruct (on_port (l_port l) ls) as [|l0 g0] eqn:Eg; [set_solver|]. rewrite <-Eg in *.
  assert (∃ pp', Some pp = Some pp' ∧ pp_listeners pp' = on_port (l_port l) ls ∧
    (∀ h, default 0 (pp_hostnames pp' !! h) =
      length (List.filter (λ l, bool_decide (hostname_of l = h)) (on_port (l_port l) ls))) ∧
    (∀ pr, pr ∈ dom (pp_protocol pp') ↔ ∃ l', l' ∈ on_port (l_port l) ls ∧ normalize (l_protocol l') = pr))
    as (pp' & Heq & _ & Hh & Hpr) by (rewrite Eg in *; exact Hent).
  injection Heq as <-.
  split.
  - apply eq_true_iff_eq. unfold protocol_conflicts. rewrite bool_decide_eq_true, existsb_elem.
    rewrite (size_gt_1 _ (normalize (l_protocol l))) by (apply Hpr; by exists l). split.
    + intros (pr & Hin & Hne). apply Hpr in Hin as (l' & Hl' & <-). exists l'.
      apply list_elem_of_In, filter_In in Hl' as [Hin Hp]. apply list_elem_of_In in Hin. split; [done|].
      apply bool_decide_eq_true in Hp. unfold same_port. rewrite (bool_decide_true _) by done.
      by rewrite bool_decide_false by congruence.
    + intros (l' & Hin & [Hp Hne]%andb_true_iff). unfold same_port in Hp.
      apply bool_decide_eq_true in Hp. apply negb_true_iff, bool_decide_eq_false in Hne.
      exists (normalize (l_protocol l')). split; [|congruence]. apply Hpr. exists l'. split; [|done].
      apply list_elem_of_In, filter_In. split; [by apply list_elem_of_In|]. by apply bool_decide_eq_true.
  - unfold hostname_conflicts. rewrite Hh.
    match goal with |- bool_decide (1 < length ?x) = bool_decide (1 < length ?y) =>
      enough (x = y) as -> by done end.
    unfold on_port. clear. induction ls as [|l' ls IH]; simpl; [done|].
    unfold same_port. rewrite (bool_decide_ext (l_port l = l_port l') (l_port l' = l_port l)) by done.
    rewrite (bool_decide_ext (hostname_of l = hostname_of l') (hostname_of l' = hostname_of l)) by done.
    destruct (bool_decide (l_port l' = l_port l)); simpl; [|apply IH].
    destruct (bool_decide (hostname_of l' = hostname_of l)); [f_equal|]; apply IH.
Qed.

Lemma flat_map_named (f : Listener → list Condition) ls l :
  NoDup (map l_name ls) → l ∈ ls →
  flat_map (λ x, if bool_decide (l_name x = l_name l) then f x else []) ls = f l.
Proof.
  induction ls as [|x ls IH]; simpl; [set_solver|]. intros [Hx Hnd]%NoDup_cons Hl.
  rewrite list_elem_of_fmap in Hx. apply elem_of_cons in Hl as [->|Hl].
  - rewrite bool_decide_true by done. rewrite <-(app_nil_r (f x)) at 2. f_equal.
    clear IH Hnd. induction ls as [|y ls IH]; simpl; [done|]. case_bool_decide as Hy.
    + exfalso. apply Hx. exists y. set_solver.
    + apply IH. intros (z & ? & ?). apply Hx. exists z. set_solver.
  - rewrite bool_decide_false; [by apply IH|]. intros Heq. apply Hx. exists l. done.
Qed.

Lemma flat_map_not_named (f : Listener → list Condition) ls n :
  n ∉ map l_name ls → flat_map (λ x, if bool_decide (l_name x = n) then f x else []) ls = [].
Proof.
  induction ls as [|x ls IH]; simpl; [done|]. rewrite not_elem_of_cons. intros [? ?].
  rewrite bool_decide_false by done. auto.
Qed.

Lemma NoDup_map_filter (P : Listener → bool) ls :
  NoDup (map l_name ls) → NoDup (map l_name (List.filter P ls)).
Proof.
  induction ls as [|l ls IH]; simpl; [done|]. intros [Hl Hnd]%NoDup_cons.
  destruct (P l); simpl; [|auto]. apply NoDup_cons. split; [|auto]. rewrite list_elem_of_fmap in Hl |- *.
  intros (x & Hx & Hin). apply Hl. exists x. split; [done|].
  apply list_elem_of_In, filter_In in Hin as [Hin _]. by apply list_elem_of_In.
Qed.

Lemma Permutation_filter (P : Listener → bool) ls ls' :
  ls ≡ₚ ls' → List.filter P ls ≡ₚ List.filter P ls'.
Proof.
  induction 1 as [|x ?? _ IH|x y ?|??? _ IH1 _ IH2]; simpl; [done| | |by rewrite IH1].
  - destruct (P x); [by rewrite IH|done].
  - destruct (P x), (P y); try done. apply perm_swap.
Qed.

Section Facts.
Context `{!GoRange string} `{!GoRange Z}.

Lemma supported_protocols l :
  getSupportedProtocolsRoutes !! l_protocol l =
  if protocol_ok l then Some ({[ GatewayGroup := [HTTPRouteKind] ]} : gmap string (list string)) else None.
Proof.
  unfold getSupportedProtocolsRoutes, protocol_ok.
  destruct (decide (l_protocol l = HTTPProtocolType)) as [->|H1]; [done|].
  destruct (decide (l_protocol l = HTTPSProtocolType)) as [->|H2]; [done|].
  rewrite !bool_decide_false by done. by rewrite lookup_insert_ne, lookup_singleton_ne by done.
Qed.

Lemma kind_supported_default rgk :
  kind_supported {[ GatewayGroup := [HTTPRouteKind] ]} (default_group rgk) = rgk_ok rgk.
Proof.
  unfold kind_supported, rgk_ok, default_group; simpl.
  destruct (decide (default GatewayGroup (rgk_group rgk) = GatewayGroup)) as [Hd|Hd].
  - rewrite Hd, lookup_singleton_eq, (bool_decide_true (GatewayGroup = _)) by done. simpl. apply bool_decide_ext. set_solver.
  - by rewrite lookup_singleton_ne, bool_decide_false by done.
Qed.

(** Invariant of the reports during validation: every listener's conditions so far. *)
Definition reports_inv (k : NamespacedName) (rm0 : ReportMap) (cs : string → list Condition) (rm : ReportMap) : Prop :=
  gateway_live k rm ∧ listeners_only k rm0 rm ∧ ∀ n, conditions_of k n rm = conditions_of k n rm0 ++ cs n.

Definition named_conditions (f : Listener → list Condition) (ls : list Listener) (n : string) : list Condition :=
  flat_map (λ l, if bool_decide (l_name l = n) then f l else []) ls.

Lemma reports_inv_same k rm0 f ls l rm rm' :
  reports_inv k rm0 (named_conditions f ls) rm → gateway_live k rm' → listeners_only k rm rm' →
  (∀ n, conditions_of k n rm' = conditions_of k n rm ++ if bool_decide (l_name l = n) then f l else []) →
  reports_inv k rm0 (named_conditions f (ls ++ [l])) rm'.
Proof.
  intros (_ & Hr & Hc) Hlive Hr' Hc'. split_and!; [done|by etrans|]. intros n.
  rewrite Hc', Hc. unfold named_conditions. rewrite flat_map_app. simpl. by rewrite app_nil_r, (assoc_L (++)).
Qed.

Lemma validate_supported_spec k rm0 l ls valid rm :
  valid = List.filter supported ls →
  reports_inv k rm0 (named_conditions first_condition ls) rm →
  wp (validate_supported k l valid) (λ valid' rm', valid' = List.filter supported (ls ++ [l]) ∧
    reports_inv k rm0 (named_conditions first_condition (ls ++ [l])) rm') rm.
Proof.
  intros -> Hinv. unfold validate_supported. rewrite supported_protocols, List.filter_app. simpl.
  change (supported l) with (protocol_ok l && kinds_ok l). pose proof Hinv as (Hlive & _ & _).
  pose proof (eq_refl : first_condition l =
    if protocol_ok l then (if kinds_ok l then [] else [invalid_route_kinds]) else [unsupported_protocol]) as Hfc.
  assert (∀ c (b : bool), first_condition l = [c] → b = false →
    wp (do! listener_condition k l c ;; ret (List.filter supported ls))
      (λ valid' rm', valid' = List.filter supported ls ++ (if b then [l] else []) ∧
        reports_inv k rm0 (named_conditions first_condition (ls ++ [l])) rm') rm) as Hreject.
  { intros c b Hc ->. wp_step. apply wp_listener_condition; [done|]. intros rm' Hl' Hcs Hr. apply wp_ret.
    rewrite app_nil_r. split; [done|]. eapply reports_inv_same; [done..|]. intros n. by rewrite Hcs, Hc. }
  destruct (protocol_ok l) eqn:Ep; simpl; [|by apply (Hreject _ false)].
  assert (∀ ks, kinds_ok l = true → wp (do! on_listener k l (λ hd, ListenerReporter_SetSupportedKinds hd ks) ;;
      ret (List.filter supported ls ++ [l]))
      (λ valid' rm', valid' = List.filter supported ls ++ (if kinds_ok l then [l] else []) ∧
        reports_inv k rm0 (named_conditions first_condition (ls ++ [l])) rm') rm) as Haccept.
  { intros ks Hk. wp_step. apply wp_listener_kinds; [done|]. intros rm' Hl' Hcs Hr. apply wp_ret.
    rewrite Hk. split; [done|]. eapply reports_inv_same; [done..|]. intros n. rewrite Hcs.
    rewrite Hfc, Hk. by case_bool_decide; rewrite app_nil_r. }
  destruct (l_allowedRoutes l ≫= ar_kinds) as [[|rgk rgks]|] eqn:Ek;
    [apply Haccept; unfold kinds_ok; by rewrite Ek| |apply Haccept; unfold kinds_ok; by rewrite Ek].
  assert (∀ rgks, List.filter (λ rgk, negb (kind_supported {[ GatewayGroup := [HTTPRouteKind] ]} rgk))
    (map default_group rgks) = [] ↔ forallb rgk_ok rgks = true) as Hinvalid.
  { clear. induction rgks as [|r rs IH]; simpl; [done|]. rewrite kind_supported_default.
    destruct (rgk_ok r); simpl; [apply IH|]. done. }
  specialize (Hinvalid (rgk :: rgks)).
  assert (kinds_ok l = forallb rgk_ok (rgk :: rgks)) as Hko by (unfold kinds_ok; by rewrite Ek).
  rewrite <-Hko in Hinvalid. destruct (List.filter _ (map default_group (rgk :: rgks))) as [|bad bads] eqn:Eb.
  - apply Haccept. by apply Hinvalid.
  - assert (kinds_ok l = false) as Hk by (apply not_true_iff_false; intros H%Hinvalid; done).
    wp_step. apply wp_listener_kinds; [done|]. intros rm1 Hl1 Hcs1 Hr1.
    wp_step. apply wp_listener_condition; [done|]. intros rm' Hl' Hcs Hr. apply wp_ret.
    rewrite Hk, app_nil_r. split; [done|]. eapply reports_inv_same; [done|done| |].
    { by etrans. }
    intros n. by rewrite Hcs, Hcs1, Hfc, Hk.
Qed.
Lemma validateSupportedRoutes_spec k ls rm :
  gateway_live k rm →
  wp (validateSupportedRoutes k ls) (λ valid rm', valid = List.filter supported ls ∧
    reports_inv k rm (named_conditions first_condition ls) rm') rm.
Proof.
  intros Hlive. unfold validateSupportedRoutes.
  apply (wp_fold_range_prefix (λ pre valid rm', valid = List.filter supported pre ∧
    reports_inv k rm (named_conditions first_condition pre) rm') _ ls 0 []).
  - split_and!; [done..|]. split; [done|]. split; [done|]. intros n. by rewrite app_nil_r.
  - intros j pre x acc s _ [Hacc Hinv]. by apply validate_supported_spec.
Qed.

Lemma validate_conflicts_spec k rm0 vs pp l pre valid rm :
  entry_ok (on_port (l_port l) vs) (Some pp) → l ∈ vs →
  valid = List.filter (admissible vs) pre →
  reports_inv k rm0 (named_conditions (conflict_condition vs) pre) rm →
  wp (validate_conflicts k pp l valid) (λ valid' rm', valid' = List.filter (admissible vs) (pre ++ [l]) ∧
    reports_inv k rm0 (named_conditions (conflict_condition vs) (pre ++ [l])) rm') rm.
Proof.
  intros Hent Hl -> Hinv. destruct (conflicts_of_entry vs l pp Hent Hl) as [Hp Hh].
  unfold validate_conflicts. rewrite Hp, Hh, List.filter_app. simpl.
  change (admissible vs l) with (negb (protocol_conflicts vs l) && negb (hostname_conflicts vs l)).
  pose proof (eq_refl : conflict_condition vs l = if protocol_conflicts vs l then [protocol_conflict]
    else if hostname_conflicts vs l then [hostname_conflict] else []) as Hcc.
  pose proof Hinv as (Hlive & _).
  assert (∀ c, conflict_condition vs l = [c] →
    wp (do! listener_condition k l c ;; ret (List.filter (admissible vs) pre))
      (λ valid' rm', valid' = List.filter (admissible vs) pre ++ [] ∧
        reports_inv k rm0 (named_conditions (conflict_condition vs) (pre ++ [l])) rm') rm) as Hreject.
  { intros c Hc. wp_step. apply wp_listener_condition; [done|]. intros rm' Hl' Hcs Hr. apply wp_ret.
    rewrite app_nil_r. split; [done|]. eapply reports_inv_same; [done..|]. intros n. by rewrite Hcs, Hc. }
  destruct (protocol_conflicts vs l) eqn:E1; simpl; [by apply Hreject|].
  destruct (hostname_conflicts vs l) eqn:E2; simpl; [by apply Hreject|].
  apply wp_ret. split; [done|]. eapply reports_inv_same; [done..|].
  intros n. rewrite Hcc. by destruct (bool_decide (l_name l = n)); rewrite app_nil_r.
Qed.

Lemma validate_port_spec k rm0 vs p pp pre valid rm :
  entry_ok (on_port p vs) (Some pp) →
  valid = List.filter (admissible vs) pre →
  reports_inv k rm0 (named_conditions (conflict_condition vs) pre) rm →
  wp (fold_range 0 (pp_listeners pp) valid (λ _ listener valid, validate_conflicts k pp listener valid))
    (λ valid' rm', valid' = List.filter (admissible vs) (pre ++ on_port p vs) ∧
      reports_inv k rm0 (named_conditions (conflict_condition vs) (pre ++ on_port p vs)) rm') rm.
Proof.
  intros Hent -> Hinv.
  assert (pp_listeners pp = on_port p vs) as ->.
  { destruct (on_port p vs); [done|]. by destruct Hent as (? & [= <-] & ? & _). }
  apply (wp_fold_range_prefix (λ done valid rm', valid = List.filter (admissible vs) done ∧
    reports_inv k rm0 (named_conditions (conflict_condition vs) done) rm') _ _ 0 pre); [done|].
  intros j pre' x acc s Hx [Hacc Hinv']. unfold on_port in Hx.
  apply list_elem_of_In, filter_In in Hx as [Hx Hp]. apply list_elem_of_In in Hx.
  apply bool_decide_eq_true in Hp. subst p. by apply validate_conflicts_spec.
Qed.

(** The ports partition the listeners. *)
Lemma on_ports_perm ls ps :
  NoDup ps → (∀ l, l ∈ ls → l_port l ∈ ps) → flat_map (λ p, on_port p ls) ps ≡ₚ ls.
Proof.
  revert ls. induction ps as [|p ps IH]; intros ls Hnd Hin; simpl.
  { destruct ls as [|l ls]; [done|]. exfalso. by eapply not_elem_of_nil, (Hin l), list_elem_of_here. }
  apply NoDup_cons in Hnd as [Hp Hnd].
  set (rest := List.filter (λ l, negb (bool_decide (l_port l = p))) ls).
  assert (flat_map (λ q, on_port q ls) ps = flat_map (λ q, on_port q rest) ps) as ->.
  { clear IH Hin Hnd. induction ps as [|q ps IH]; simpl; [done|]. apply not_elem_of_cons in Hp as [Hq Hp].
    rewrite IH by done. f_equal. unfold rest, on_port. clear -Hq. induction ls as [|l ls IH]; simpl; [done|].
    destruct (decide (l_port l = p)) as [->|Hlp].
    - rewrite (bool_decide_true (p = p)), (bool_decide_false (p = q)) by done. exact IH.
    - rewrite (bool_decide_false (l_port l = p)) by done. simpl. by rewrite IH. }
  rewrite IH; [|done|].
  - unfold on_port, rest. clear. induction ls as [|l ls IH]; simpl; [done|].
    case_bool_decide; simpl; [by rewrite IH|]. by rewrite <-Permutation_middle, IH.
  - intros l Hl. unfold rest in Hl. apply list_elem_of_In, filter_In in Hl as [Hl Hne].
    apply list_elem_of_In in Hl. apply negb_true_iff, bool_decide_eq_false in Hne.
    specialize (Hin l Hl). set_solver.
Qed.

Lemma ports_of_valid vs l :
  l ∈ vs → l_port l ∈ (go_range (foldl (λ m l, add_to_port l m) ∅ vs)).*1.
Proof.
  intros Hl. pose proof (group_ports vs (l_port l)) as Hent.
  assert (l ∈ on_port (l_port l) vs) as Hg.
  { apply list_elem_of_In, filter_In. split; [by apply list_elem_of_In|]. by apply bool_decide_eq_true. }
  destruct (on_port (l_port l) vs); [set_solver|]. destruct Hent as (pp & Hpp & _).
  apply list_elem_of_fmap. exists (l_port l, pp). split; [done|]. by apply go_range_elem.
Qed.

(** The listeners of the ports, in the order of the ports' iteration. *)
Definition by_port (vs : list Listener) : list Listener :=
  flat_map (λ '(p, _), on_port p vs) (go_range (foldl (λ m l, add_to_port l m) ∅ vs)).

Lemma by_port_perm vs : by_port vs ≡ₚ vs.
Proof.
  unfold by_port. set (m := foldl _ _ _). assert (∀ kvs : list (Z * portProtocol),
    flat_map (λ '(p, _), on_port p vs) kvs = flat_map (λ p, on_port p vs) kvs.*1) as ->.
  { induction kvs as [|[p pp] kvs IH]; simpl; [done|]. by rewrite IH. }
  apply on_ports_perm; [apply go_range_nodup|]. intros l Hl. by apply ports_of_valid.
Qed.

Lemma conflicts_spec k rm vs :
  gateway_live k rm →
  wp (fold_range 0 (go_range (foldl (λ m l, add_to_port l m) ∅ vs)) [] (λ _ '(_, pp) valid,
      fold_range 0 (pp_listeners pp) valid (λ _ listener valid, validate_conflicts k pp listener valid)))
    (λ valid rm', valid = List.filter (admissible vs) (by_port vs) ∧
      reports_inv k rm (named_conditions (conflict_condition vs) (by_port vs)) rm') rm.
Proof.
  intros Hlive. unfold by_port. set (m := foldl _ _ _).
  apply (wp_fold_range_prefix (λ pre valid rm',
    valid = List.filter (admissible vs) (flat_map (λ '(p, _), on_port p vs) pre) ∧
    reports_inv k rm (named_conditions (conflict_condition vs) (flat_map (λ '(p, _), on_port p vs) pre)) rm')
    _ _ 0 []).
  - split; [done|]. split; [done|]. split; [done|]. intros n. by rewrite app_nil_r.
  - intros j pre [p pp] acc s Hin [Hacc Hinv]. rewrite flat_map_app. simpl. rewrite app_nil_r.
    apply validate_port_spec; [|done|done]. apply go_range_elem in Hin. rewrite <-Hin. apply group_ports.
Qed.
(** The Gateway conditions set when no listener is left. *)
Definition no_listeners_conditions : list Condition :=
  [report_condition "Accepted" ConditionFalse "ListenersNotValid" "";
   report_condition "Programmed" ConditionFalse "Invalid" ""].

Lemma set_gateway_condition k c rm :
  gateway_live k rm →
  gateway_live k (GatewayReporter_SetCondition k c rm) ∧
  gateway_conditions k (GatewayReporter_SetCondition k c rm) = gateway_conditions k rm ++ [c] ∧
  ∀ n, conditions_of k n (GatewayReporter_SetCondition k c rm) = conditions_of k n rm.
Proof.
  intros [g Hg]. unfold gateway_live, gateway_conditions, conditions_of, listener_report; simpl.
  rewrite lookup_alter_eq, Hg. simpl. split; [by eexists|]. done.
Qed.

Lemma named_conditions_elem f ls l n :
  NoDup (map l_name ls) → l ∈ ls → l_name l = n → named_conditions f ls n = f l.
Proof. intros Hnd Hl <-. by apply flat_map_named. Qed.

Lemma named_conditions_filter f (P : Listener → bool) ls l :
  NoDup (map l_name ls) → l ∈ ls →
  named_conditions f (List.filter P ls) (l_name l) = if P l then f l else [].
Proof.
  intros Hnd Hl. unfold named_conditions.
  rewrite <-(flat_map_named (λ l, if P l then f l else []) ls l Hnd Hl). clear Hl.
  induction ls as [|x ls IH]; simpl; [done|]. apply NoDup_cons in Hnd as [_ Hnd].
  destruct (P x) eqn:E; simpl; rewrite (IH Hnd); [done|].
  by destruct (bool_decide (l_name x = l_name l)).
Qed.

Lemma named_conditions_perm f ls ls' l :
  ls ≡ₚ ls' → NoDup (map l_name ls) → named_conditions f ls' (l_name l) = named_conditions f ls (l_name l).
Proof.
  intros Hperm Hnd. pose proof (Permutation_map l_name Hperm) as Hn. unfold named_conditions.
  destruct (decide (l_name l ∈ map l_name ls)) as [Hin|Hin].
  - apply list_elem_of_fmap in Hin as (x & -> & Hin).
    rewrite !flat_map_named; [done|done|done|by rewrite <-Hn|by rewrite <-Hperm].
  - rewrite !flat_map_not_named; [done|done|by rewrite <-Hn].
Qed.

Lemma validateListeners_ok gw k rm :
  gateway_live k rm → NoDup (map l_name (gw_listeners gw)) →
  wp (validateListeners gw k) (λ out rm',
    out ≡ₚ List.filter (admissible (List.filter supported (gw_listeners gw)))
             (List.filter supported (gw_listeners gw)) ∧
    (∀ l, l ∈ gw_listeners gw →
       conditions_of k (l_name l) rm' = conditions_of k (l_name l) rm ++ rejection (gw_listeners gw) l) ∧
    gateway_conditions k rm' = gateway_conditions k rm ++ (match out with [] => no_listeners_conditions | _ => [] end) ∧
    rm_routes rm' = rm_routes rm ∧ gateway_live k rm' ∧ gateways_kept rm rm') rm.
Proof.
  intros Hlive Hnd. unfold validateListeners. set (ls := gw_listeners gw) in *.
  wp_step. eapply wp_mono; [by apply validateSupportedRoutes_spec|].
  intros ? rm1 [-> (Hl1 & (Hr1 & Hg1 & Hk1) & Hc1)]. set (vs := List.filter supported ls) in *.
  wp_step. eapply wp_mono; [by apply conflicts_spec|].
  intros out rm2 [-> (Hl2 & (Hr2 & Hg2 & Hk2) & Hc2)].
  assert (∀ l, l ∈ ls → conditions_of k (l_name l) rm2 = conditions_of k (l_name l) rm ++ rejection ls l) as Hc.
  { intros l Hl. rewrite Hc2, Hc1, <-(assoc_L (++)). f_equal.
    rewrite (named_conditions_perm (conflict_condition vs) vs);
      [|symmetry; apply by_port_perm|by apply NoDup_map_filter].
    unfold vs at 2. rewrite named_conditions_filter, (named_conditions_elem _ ls l) by done.
    unfold rejection, first_condition, supported. fold vs.
    destruct (protocol_ok l), (kinds_ok l); simpl; by rewrite ?app_nil_r. }
  pose proof (by_port_perm vs) as Hperm.
  destruct (List.filter (admissible vs) (by_port vs)) as [|o out] eqn:Eo.
  - destruct (set_gateway_condition k (report_condition "Accepted" ConditionFalse "ListenersNotValid" "") rm2 Hl2)
      as (Hl3 & Hg3 & Hc3).
    destruct (set_gateway_condition k (report_condition "Programmed" ConditionFalse "Invalid" "") _ Hl3)
      as (Hl4 & Hg4 & Hc4).
    wp_steps. split_and!; [|intros l Hl; rewrite Hc4, Hc3; by apply Hc| |simpl; congruence|done|by do 2 (etrans; [done|]); etrans; apply alter_gateway_kept].
    + rewrite <-Eo. by apply Permutation_filter.
    + rewrite Hg4, Hg3, Hg2, Hg1, <-(assoc_L (++)). done.
  - wp_steps. split_and!; [|exact Hc| |congruence|done|by etrans].
    + rewrite <-Eo. by apply Permutation_filter.
    + rewrite Hg2, Hg1. by rewrite app_nil_r.
Qed.
(** C19. [validateListeners] never panics and, whatever the iteration order of the port
    map, keeps exactly the listeners whose protocol and route kinds are supported and that
    share their port with no supported listener of another protocol nor of the same
    hostname; every rejected listener gets exactly one condition, the first of
    UnsupportedProtocol, InvalidRouteKinds, ProtocolConflict and HostnameConflict that
    applies to it, accepted ones get none; the Gateway itself is marked not accepted and not
    programmed exactly when no listener is left. *)
Theorem validateListeners_correct gw k rm :
  gateway_live k rm → NoDup (map l_name (gw_listeners gw)) →
  ∃ out rm', validateListeners gw k rm = Ok (out, rm') ∧
    out ≡ₚ List.filter (admissible (List.filter supported (gw_listeners gw)))
             (List.filter supported (gw_listeners gw)) ∧
    (∀ l, l ∈ gw_listeners gw →
       conditions_of k (l_name l) rm' = conditions_of k (l_name l) rm ++ rejection (gw_listeners gw) l) ∧
    gateway_conditions k rm' = gateway_conditions k rm ++ (match out with [] => no_listeners_conditions | _ => [] end) ∧
    rm_routes rm' = rm_routes rm.
Proof.
  intros Hlive Hnd. destruct (wp_run _ _ _ (validateListeners_ok gw k rm Hlive Hnd))
    as (out & rm' & Hrun & Hout & Hc & Hg & Hr & _ & _). by exists out, rm'.
Qed.
End Facts.

(** Two listeners on port 80 that share a hostname, one of another hostname, an HTTPS and
    an HTTP listener on port 443, and a UDP listener. *)
Definition ex_l (name : string) (port : Z) (protocol : string) (hostname : option string) : Listener :=
  {| l_name := name; l_hostname := hostname; l_port := port; l_protocol := protocol; l_tls := None;
     l_allowedRoutes := None |}.
Definition ex_conflicting : Gateway :=
  {| gw_meta := {| om_name := "gw"; om_namespace := "infra"; om_generation := 1; om_creation := 0;
                   om_annotations := ∅ |};
     gw_listeners := [ex_l "a" 80 "HTTP" (Some "a.com"); ex_l "b" 80 "HTTP" (Some "a.com");
                      ex_l "c" 80 "HTTP" None; ex_l "d" 443 "HTTPS" None; ex_l "e" 443 "HTTP" None;
                      ex_l "f" 53 "UDP" None];
     gw_status := {| gs_conditions := []; gs_listeners := [] |} |}.

Lemma validateListeners_correct_witness :
  ∃ out rm', @validateListeners list_order list_order ex_conflicting (gw_nn ex_conflicting)
      (newGatewayReport ex_conflicting NewReportMap) = Ok (out, rm') ∧
    out ≡ₚ [ex_l "c" 80 "HTTP" None] ∧
    map c_reason (conditions_of (gw_nn ex_conflicting) "b" rm') = ["HostnameConflict"].
Proof.
  destruct (@validateListeners_correct list_order list_order ex_conflicting (gw_nn ex_conflicting)
    (newGatewayReport ex_conflicting NewReportMap)) as (out & rm' & Hrun & Hout & Hc & _).
  - vm_compute. by eexists.
  - apply (bool_decide_unpack _). vm_compute. exact I.
  - exists out, rm'. split; [exact Hrun|]. split.
    + rewrite Hout. vm_compute. done.
    + etrans; [apply (f_equal (map c_reason)), (Hc (ex_l "b" 80 "HTTP" (Some "a.com"))); right; left|].
      vm_compute. reflexivity.
Defined.
