(* ===== verification/Delegation.v ===== *)
(** * httproute/delegation_helpers.go: which rules of a child route a parent match selects

    A child is cloned before its rules are filtered, but the clone shares the array of
    rules and the path objects with the original: the effects on them are writes to the
    [Heap]. *)

From stdpp Require Import base gmap strings list fin_maps sorting.
From Stdlib Require Import ZArith Lia.
From S2P Require Import Prelude GoLib GwApi Heap Query QueryFacts.

Import Query.

Module Delegation.

Definition inheritMatcherAnnotation : string := "delegation.gateway.solo.io/inherit-parent-matcher".

Definition shouldInheritMatcher {R} (route : HTTPRoute R) : bool :=
  match om_annotations (hr_meta route) !! inheritMatcherAnnotation with
  | None => false
  | Some val => bool_decide (to_lower val ∈ ["true"; "yes"; "enabled"])
  end.

(** The parentRefs of a child, when it has any, must name the delegating route. *)
Definition parentRefMatches (parentRef : NamespacedName) (childNs : string) (ref : ParentReference) : bool :=
  ptr_is (pr_group ref) GatewayGroup && ptr_is (pr_kind ref) HTTPRouteKind &&
  bool_decide (pr_name ref = nn_name parentRef) &&
  bool_decide (default childNs (pr_namespace ref) = nn_ns parentRef).

(** [for each parent element, some child element is DeepEqual to it] *)
Definition superset {A} `{EqDecision A} (child parent : list A) : bool :=
  forallb (λ p, existsb (λ c, bool_decide (p = c)) child) parent.

Definition isDelegatedRouteMatch (parent : MMatch) (parentRef : NamespacedName) (child : MMatch)
    (childNs : string) (parentRefs : list ParentReference) : M Heap bool :=
  if negb (bool_decide (parentRefs = [])) && negb (existsb (parentRefMatches parentRef childNs) parentRefs)
  then ret false else
  match m_path parent with
  | None => ret false
  | Some pl =>
      pp <~ read_path pl ;;
      if negb (ptr_is (pm_type pp) PathMatchPathPrefix) then ret false else
      parentPath <~ deref "parent.Path.Value" (pm_value pp) ;;
      match m_path child with
      | None => ret false
      | Some cl =>
          cp <~ read_path cl ;;
          match pm_type cp with
          | None => ret false
          | Some _ =>
              childPath <~ deref "child.Path.Value" (pm_value cp) ;;
              ret (has_prefix childPath parentPath &&
                   superset (m_headers child) (m_headers parent) &&
                   superset (m_queryParams child) (m_queryParams parent) &&
                   match m_method parent with
                   | None => true
                   | Some m => ptr_is (m_method child) m
                   end)
          end
      end
  end.

Section Merge.
Context `{!GoRange string}.

(** The map of [mergeHeaders] and [mergeQueries]: the parent's values, the last of a name
    winning, then the child's for the names not yet present; and its values by name. *)
Definition merge_map {A} (name : A → string) (parent child : list A) : gmap string A :=
  foldl (λ merged h, match merged !! name h with Some _ => merged | None => <[name h := h]> merged end)
    (foldl (λ merged h, <[name h := h]> merged) ∅ parent) child.
Definition merge_named {A} (name : A → string) (parent child : list A) : list A :=
  sort_stable (λ a b, string_lt (name a) (name b)) (map snd (go_range (merge_map name parent child))).

Definition mergeHeaders (parent child : list HTTPHeaderMatch) : list HTTPHeaderMatch :=
  merge_named hm_name parent child.
Definition mergeQueries (parent child : list HTTPQueryParamMatch) : list HTTPQueryParamMatch :=
  merge_named qm_name parent child.

(** Returns the child's match; the path object it points to is written in place. *)
Definition mergeParentChildRouteMatch (parent child : MMatch) : M Heap MMatch :=
  cl <~ match m_path child with
        | Some cl => ret cl
        | None => alloc_path {| pm_type := Some PathMatchPathPrefix; pm_value := Some "" |}
        end ;;
  pl <~ deref "parent.Path" (m_path parent) ;;
  pp <~ read_path pl ;;
  pv <~ deref "parent.Path.Value" (pm_value pp) ;;
  cp <~ read_path cl ;;
  cv <~ deref "child.Path.Value" (pm_value cp) ;;
  do! modify (set_path cl {| pm_type := pm_type cp; pm_value := Some (path_join pv cv) |}) ;;
  ret {| m_path := Some cl;
         m_headers := mergeHeaders (m_headers parent) (m_headers child);
         m_queryParams := mergeQueries (m_queryParams parent) (m_queryParams child);
         m_method := match m_method parent with Some m => Some m | None => m_method child end |}.

Definition set_matches (ms : list MMatch) (r : MRule) : MRule :=
  {| r_matches := match ms with [] => None | _ => Some ms end;
     r_filters := r_filters r; r_backendRefs := r_backendRefs r |}.

Definition set_route_rules (l : loc) (i : HTTPRouteInfo) : HTTPRouteInfo :=
  let r := hi_route i in
  {| hi_route := {| hr_meta := hr_meta r; hr_parentRefs := hr_parentRefs r; hr_hostnames := hr_hostnames r;
                    hr_rules := l; hr_statusParents := hr_statusParents r |};
     hi_parentRef := hi_parentRef i; hi_hostnameOverrides := hi_hostnameOverrides i;
     hi_backends := hi_backends i; hi_children := hi_children i |}.

(** The matches of one rule that are valid under the parent's match. *)
Definition valid_matches (parentRef : NamespacedName) (parentMatch : MMatch) (child : HTTPRouteInfo)
    (inheritMatcher : bool) (rule : MRule) : M Heap (list MMatch) :=
  let matches := default [] (r_matches rule) in
  let start := if inheritMatcher && bool_decide (matches = []) then [parentMatch] else [] in
  fold_range 0 matches start (λ _ m valid,
    if inheritMatcher then
      m' <~ mergeParentChildRouteMatch parentMatch m ;; ret (valid ++ [m'])
    else
      ok <~ isDelegatedRouteMatch parentMatch parentRef m (hr_namespace (hi_route child))
              (hr_parentRefs (hi_route child)) ;;
      ret (if ok then valid ++ [m] else valid)).

Definition filter_rule (parentRef : NamespacedName) (parentMatch : MMatch) (child : HTTPRouteInfo)
    (inheritMatcher : bool) (i : nat) (validRules : list MRule) : M Heap (list MRule) :=
  let l := hr_rules (hi_route child) in
  rule <~ read_rule l i ;;
  valid <~ valid_matches parentRef parentMatch child inheritMatcher rule ;;
  cur <~ read_rule l i ;;
  do! write_rule l i (set_matches valid cur) ;;
  if bool_decide (valid = []) then ret validRules else
  validRule <~ read_rule l i ;;
  ret (validRules ++ [set_matches valid validRule]).

(** One child: its clone with the valid rules, unless there are none. *)
Definition filter_child (parentRef : NamespacedName) (parentMatch : MMatch) (child : HTTPRouteInfo)
    (selected : list HTTPRouteInfo) : M Heap (list HTTPRouteInfo) :=
  let child := Clone child in
  let inheritMatcher := shouldInheritMatcher (hi_route child) in
  rules <~ read_rules (hr_rules (hi_route child)) ;;
  validRules <~ fold_range 0 rules [] (λ i _ validRules,
    filter_rule parentRef parentMatch child inheritMatcher i validRules) ;;
  if bool_decide (length validRules = 0) then ret selected else
  l <~ alloc_rules validRules ;;
  ret (selected ++ [set_route_rules l child]).

Definition filterDelegatedChildren (parentRef : NamespacedName) (parentMatch : MMatch)
    (children : list HTTPRouteInfo) : M Heap (list HTTPRouteInfo) :=
  fold_range 0 children [] (λ _ child selected, filter_child parentRef parentMatch child selected).
End Merge.
End Delegation.
