(* ===== verification/DelegationFacts.v ===== *)
(** * Properties of the delegation helpers *)

From stdpp Require Import base gmap strings list fin_maps sorting.
From Stdlib Require Import ZArith Lia.
From S2P Require Import Prelude GoLib GwApi Heap Query QueryFacts Delegation.

Import Query Delegation.

(** ** Merging headers and query parameters *)
Section MergeFacts.
Context {A : Type} (name : A → string).

Definition named (n : string) (h : A) : bool := bool_decide (name h = n).

Lemma merge_parent_lookup (parent : list A) (m : gmap string A) n :
  foldl (λ merged h, <[name h := h]> merged) m parent !! n =
  match List.find (named n) (rev parent) with Some h => Some h | None => m !! n end.
Proof.
  revert m. induction parent as [|h parent IH]; intros m; simpl; [done|].
  rewrite IH, find_app. destruct (List.find (named n) (rev parent)); [done|]. simpl.
  unfold named. case_bool_decide as Hn; [by rewrite Hn, lookup_insert_eq|by rewrite lookup_insert_ne].
Qed.

Lemma merge_child_lookup (child : list A) (m : gmap string A) n :
  foldl (λ merged h, match merged !! name h with Some _ => merged | None => <[name h := h]> merged end)
    m child !! n =
  match m !! n with Some h => Some h | None => List.find (named n) child end.
Proof.
  revert m. induction child as [|h child IH]; intros m; simpl; [by destruct (m !! n)|].
  rewrite IH. unfold named at 2. case_bool_decide as Hn.
  - subst n. destruct (m !! name h) eqn:E; [by rewrite E|by rewrite lookup_insert_eq].
  - destruct (m !! name h) eqn:E; [done|]. by rewrite lookup_insert_ne.
Qed.

(** The merged value of a name: the parent's last one, else the child's first one. *)
Definition merged_value (parent child : list A) (n : string) : option A :=
  match List.find (named n) (rev parent) with
  | Some h => Some h
  | None => List.find (named n) child
  end.

Lemma merge_map_lookup parent child n :
  merge_map name parent child !! n = merged_value parent child n.
Proof.
  unfold merge_map, merged_value. rewrite merge_child_lookup, merge_parent_lookup, lookup_empty.
  by destruct (List.find _ _).
Qed.

Lemma merged_value_name parent child n h : merged_value parent child n = Some h → name h = n.
Proof.
  unfold merged_value, named.
  destruct (List.find _ (rev parent)) eqn:E1; [intros [= ->]|intros E1'];
    [apply List.find_some in E1 as [_ E2]|apply List.find_some in E1' as [_ E2]];
    by apply bool_decide_eq_true in E2.
Qed.

Context `{!GoRange string}.

Lemma merge_named_elem parent child h :
  h ∈ merge_named name parent child ↔ merged_value parent child (name h) = Some h.
Proof.
  unfold merge_named. rewrite sort_stable_perm, list_elem_of_fmap. split.
  - intros ([n h'] & -> & Hin). apply go_range_elem in Hin. rewrite merge_map_lookup in Hin.
    simpl. by rewrite (merged_value_name _ _ _ _ Hin).
  - intros Hv. exists (name h, h). split; [done|]. by apply go_range_elem; rewrite merge_map_lookup.
Qed.

Lemma merge_named_nodup parent child : NoDup (map name (merge_named name parent child)).
Proof.
  unfold merge_named. rewrite (Permutation_map name (sort_stable_perm _ _)), map_map.
  erewrite map_ext_in; [apply (go_range_nodup (merge_map name parent child))|].
  intros [n h] Hin. apply list_elem_of_In, go_range_elem in Hin. rewrite merge_map_lookup in Hin.
  by apply merged_value_name in Hin.
Qed.

Definition name_le (a b : A) : Prop := String.le (name a) (name b).

Lemma merge_named_sorted parent child : StronglySorted name_le (merge_named name parent child).
Proof.
  apply sort_stable_sorted.
  - intros a b c. unfold name_le. apply transitivity.
  - intros x y. rewrite string_lt_spec. unfold name_le.
    destruct (total String.le (name x) (name y)); tauto.
  - intros x y. apply string_lt_le.
Qed.
End MergeFacts.

(** Merged headers do not depend on Go's map iteration order: they are sorted by
    name, one per name, the parent's (last) value taking precedence over the child's
    (first). *)
Theorem mergeHeaders_spec (o : GoRange string) parent child :
  StronglySorted (name_le hm_name) (mergeHeaders parent child) ∧
  NoDup (map hm_name (mergeHeaders parent child)) ∧
  (∀ h, h ∈ mergeHeaders parent child ↔ merged_value hm_name parent child (hm_name h) = Some h) ∧
  ∀ o' : GoRange string, @mergeHeaders o' parent child = @mergeHeaders o parent child.
Proof.
  split_and!; [apply merge_named_sorted|apply merge_named_nodup|apply merge_named_elem|].
  intros o'. eapply (StronglySorted_unique_strong (name_le hm_name)); [|apply merge_named_sorted..|].
  - intros x y Hx Hy Hxy Hyx. unfold mergeHeaders in *. rewrite merge_named_elem in Hx, Hy.
    assert (hm_name x = hm_name y) as Hn by by apply (anti_symm String.le). congruence.
  - apply NoDup_Permutation; [eapply NoDup_fmap_1, merge_named_nodup..|].
    intros x. unfold mergeHeaders. by rewrite !merge_named_elem.
Qed.

(** ** Matching a child's match against the parent's *)
Lemma match_path_complete h m :
  heap_ok h → match_ok h m → ∃ l p, m_path m = Some l ∧ h_paths h !! l = Some p ∧ pm_complete p.
Proof.
  intros [Hp _] (l & Hl & [p Hlp]%elem_of_dom). exists l, p. eauto.
Qed.

Definition path_type_of (h : Heap) (m : MMatch) : option PathMatchType :=
  m_path m ≫= λ l, h_paths h !! l ≫= pm_type.
Definition path_value_of (h : Heap) (m : MMatch) : option string :=
  m_path m ≫= λ l, h_paths h !! l ≫= pm_value.

(** What it means for a parent's match to delegate to a child's. *)
Record delegates (h : Heap) (parentRef : NamespacedName) (parent child : MMatch) (childNs : string)
    (parentRefs : list ParentReference) : Prop := {
  dg_parent : parentRefs = [] ∨ ∃ ref, ref ∈ parentRefs ∧ pr_group ref = Some GatewayGroup ∧
    pr_kind ref = Some HTTPRouteKind ∧
    {| nn_ns := default childNs (pr_namespace ref); nn_name := pr_name ref |} = parentRef;
  dg_type : path_type_of h parent = Some PathMatchPathPrefix;
  dg_path : ∃ pp rest, path_value_of h parent = Some pp ∧ path_value_of h child = Some (pp +:+ rest);
  dg_headers : ∀ x, x ∈ m_headers parent → x ∈ m_headers child;
  dg_query : ∀ x, x ∈ m_queryParams parent → x ∈ m_queryParams child;
  dg_method : m_method parent = None ∨ m_method child = m_method parent
}.

Lemma superset_spec {A} `{EqDecision A} (child parent : list A) :
  superset child parent = true ↔ ∀ x, x ∈ parent → x ∈ child.
Proof.
  unfold superset. rewrite forallb_elem. setoid_rewrite existsb_elem.
  setoid_rewrite bool_decide_eq_true. split; [|naive_solver].
  intros H x Hx. by destruct (H x Hx) as (y & ? & ->).
Qed.

Lemma parentRefMatches_spec parentRef childNs ref :
  parentRefMatches parentRef childNs ref = true ↔
  pr_group ref = Some GatewayGroup ∧ pr_kind ref = Some HTTPRouteKind ∧
  {| nn_ns := default childNs (pr_namespace ref); nn_name := pr_name ref |} = parentRef.
Proof.
  unfold parentRefMatches. rewrite !andb_true_iff, !ptr_is_true, !bool_decide_eq_true.
  destruct parentRef; simpl. naive_solver.
Qed.

Definition delegatesb (h : Heap) (parentRef : NamespacedName) (parent child : MMatch) (childNs : string)
    (parentRefs : list ParentReference) : bool :=
  match isDelegatedRouteMatch parent parentRef child childNs parentRefs h with
  | Ok (b, _) => b
  | _ => false
  end.

Lemma isDelegatedRouteMatch_correct h parentRef parent child childNs parentRefs :
  heap_ok h → match_ok h parent → match_ok h child →
  wp (isDelegatedRouteMatch parent parentRef child childNs parentRefs)
    (λ b h', h' = h ∧ (b = true ↔ delegates h parentRef parent child childNs parentRefs)) h.
Proof.
  intros Hok Hp Hc.
  destruct (match_path_complete _ _ Hok Hp) as (pl & pp & Hpl & Hpp & (pt & Hpt & _) & [pv Hpv]).
  destruct (match_path_complete _ _ Hok Hc) as (cl & cp & Hcl & Hcp & (ct & Hct & _) & [cv Hcv]).
  unfold isDelegatedRouteMatch.
  destruct (negb (bool_decide (parentRefs = [])) && negb (existsb _ parentRefs)) eqn:Eref.
  { apply wp_ret. split; [done|]. apply andb_true_iff in Eref as [Hne Hex].
    rewrite negb_true_iff, bool_decide_eq_false in Hne. rewrite negb_true_iff in Hex.
    split; [done|]. intros [[?|(ref & Hin & Href)] _ _ _ _ _]; [done|].
    apply not_true_iff_false in Hex. destruct Hex. apply existsb_elem. exists ref.
    by rewrite parentRefMatches_spec. }
  rewrite Hpl. wp_step. eapply wp_read_path; [done|].
  destruct (ptr_is (pm_type pp) PathMatchPathPrefix) eqn:Et; simpl; last first.
  { apply wp_ret. split; [done|]. split; [done|]. intros [_ Hty _ _ _ _]. exfalso.
    unfold path_type_of in Hty. rewrite Hpl in Hty. simpl in Hty. rewrite Hpp in Hty.
    simpl in Hty. by rewrite Hty in Et. }
  wp_step. eapply wp_deref; [done|]. rewrite Hcl. wp_step. eapply wp_read_path; [done|].
  rewrite Hct. wp_step. eapply wp_deref; [done|]. apply wp_ret. split; [done|].
  rewrite !andb_true_iff, has_prefix_spec, !superset_spec. apply ptr_is_true in Et. split.
  - intros [[[[rest ->] Hh] Hq] Hm]. split; [| | |done|done|].
    + destruct (bool_decide (parentRefs = [])) eqn:Ene; [left; by apply bool_decide_eq_true in Ene|right].
      simpl in Eref. apply negb_false_iff, existsb_elem in Eref as (ref & Hin & Href).
      exists ref. by rewrite parentRefMatches_spec in Href.
    + unfold path_type_of. rewrite Hpl. simpl. by rewrite Hpp.
    + exists pv, rest. unfold path_value_of. rewrite Hpl, Hcl. simpl. by rewrite Hpp, Hcp.
    + destruct (m_method parent) as [m|]; [right; by apply ptr_is_true|by left].
  - intros [_ _ (pv' & rest & Hv1 & Hv2) Hh Hq Hm].
    unfold path_value_of in Hv1, Hv2. rewrite Hpl in Hv1. rewrite Hcl in Hv2. simpl in *.
    rewrite Hpp in Hv1. rewrite Hcp in Hv2. simpl in *. simplify_eq.
    split_and!; [by exists rest|done|done|].
    destruct (m_method parent) as [m|]; [|done]. apply ptr_is_true. naive_solver.
Qed.

Lemma isDelegatedRouteMatch_run h parentRef parent child childNs parentRefs :
  heap_ok h → match_ok h parent → match_ok h child →
  isDelegatedRouteMatch parent parentRef child childNs parentRefs h =
    Ok (delegatesb h parentRef parent child childNs parentRefs, h) ∧
  (delegatesb h parentRef parent child childNs parentRefs = true ↔
   delegates h parentRef parent child childNs parentRefs).
Proof.
  intros Hok Hp Hc.
  destruct (wp_run _ _ _ (isDelegatedRouteMatch_correct h parentRef parent child childNs parentRefs Hok Hp Hc))
    as (b & h' & Hrun & -> & Hb). unfold delegatesb. by rewrite Hrun.
Qed.

(** ** Merging and filtering: memory *)
Section Filter.
Context `{!GoRange string}.

Lemma heap_ok_path h l p : heap_ok h → h_paths h !! l = Some p → pm_complete p.
Proof. intros [Hp _]. apply Hp. Qed.

(** The merged match has the joined path and the merged headers, parameters and method;
    the rules are untouched. *)
Lemma mergeParentChildRouteMatch_correct h parent child :
  heap_ok h → match_ok h parent → matches_ok h (Some [child]) ∨ m_path child = None →
  wp (mergeParentChildRouteMatch parent child) (λ m h',
    heap_ok h' ∧ heap_le h h' ∧ h_rules h' = h_rules h ∧ match_ok h' m ∧
    m_headers m = mergeHeaders (m_headers parent) (m_headers child) ∧
    m_queryParams m = mergeQueries (m_queryParams parent) (m_queryParams child) ∧
    m_method m = match m_method parent with Some x => Some x | None => m_method child end ∧
    (∀ pv, path_value_of h parent = Some pv →
       path_value_of h' m = Some (path_join pv (default "" (path_value_of h child))))) h.
Proof.
  intros Hok Hp Hc. unfold mergeParentChildRouteMatch.
  assert (wp match m_path child with
             | Some cl => ret cl
             | None => alloc_path {| pm_type := Some PathMatchPathPrefix; pm_value := Some "" |}
             end (λ cl h1, heap_ok h1 ∧ heap_le h h1 ∧ h_rules h1 = h_rules h ∧
       (∀ l p, h_paths h !! l = Some p → h_paths h1 !! l = Some p) ∧
       ∃ cp, h_paths h1 !! cl = Some cp ∧ pm_complete cp ∧
             pm_value cp = Some (default "" (path_value_of h child))) h) as Halloc.
  { destruct (m_path child) as [cl|] eqn:Ecl.
    - destruct Hc as [Hc|]; [|done]. apply Forall_inv in Hc.
      destruct (match_path_complete _ _ Hok Hc) as (l & p & Hl & Hlp & Hcomp).
      apply wp_ret. split_and!; [done..|]. assert (l = cl) as <- by congruence.
      exists p. split_and!; [done..|]. unfold path_value_of. rewrite Ecl. simpl. rewrite Hlp. simpl.
      destruct Hcomp as [_ [v ->]]. done.
    - set (np := {| pm_type := Some PathMatchPathPrefix; pm_value := Some "" |}).
      assert (pm_complete np) as Hnp by (split; [by eexists; split|by eexists]).
      unfold alloc_path, wp. destruct (new_path np h) as [l h1] eqn:E.
      destruct (new_path_spec _ _ _ _ E Hok Hnp) as (Hok1 & Hle1 & _).
      unfold new_path in E. injection E as <- <-. pose proof (is_fresh (dom (h_paths h))) as Hf.
      split_and!; [done|done|done| |].
      + intros l p Hl. simpl. rewrite lookup_insert_ne; [done|]. intros <-.
        by apply Hf, elem_of_dom; exists p.
      + exists np. split_and!; [simpl; by rewrite lookup_insert_eq|done|].
        unfold path_value_of. by rewrite Ecl. }
  wp_step. eapply wp_mono; [exact Halloc|]. clear Halloc.
  intros cl h1 (Hok1 & Hle1 & Hr1 & Hkeep & cp & Hcp & (Hty & _) & Hcv).
  destruct (match_path_complete _ _ Hok Hp) as (pl & pp & Hpl & Hpp & _ & [pv Hpv]).
  wp_step. eapply wp_deref; [done|]. wp_step. eapply wp_read_path; [by apply Hkeep|].
  wp_step. eapply wp_deref; [done|]. wp_step. eapply wp_read_path; [done|].
  wp_step. eapply wp_deref; [done|]. wp_steps.
  split_and!; [|etrans; [done|apply set_path_le]|done| |done|done|done|].
  - apply set_path_ok; [done|]. split; [done|by eexists].
  - exists cl. split; [done|]. simpl. rewrite dom_insert_L. set_solver.
  - intros pv' Hpv'. unfold path_value_of in Hpv'.
    rewrite Hpl in Hpv'. simpl in Hpv'. rewrite Hpp in Hpv'. simpl in Hpv'.
    unfold path_value_of at 1. simpl. rewrite lookup_insert_eq. simpl. congruence.
Qed.

Lemma valid_matches_ok h parentRef parentMatch child inherit rule :
  heap_ok h → match_ok h parentMatch → rule_ok h rule →
  wp (valid_matches parentRef parentMatch child inherit rule)
    (λ ms h', heap_ok h' ∧ heap_le h h' ∧ h_rules h' = h_rules h ∧ Forall (match_ok h') ms) h.
Proof.
  intros Hok Hp [Hms _]. unfold valid_matches.
  set (start := if inherit && bool_decide (default [] (r_matches rule) = []) then [parentMatch] else []).
  assert (Forall (match_ok h) start) as Hstart
    by (unfold start; destruct (inherit && _); repeat constructor; done).
  assert (Forall (match_ok h) (default [] (r_matches rule))) as Hdef
    by (destruct (r_matches rule); [done|constructor]).
  rewrite Forall_forall in Hdef.
  apply (wp_fold_range (λ ms h', heap_ok h' ∧ heap_le h h' ∧ h_rules h' = h_rules h ∧ Forall (match_ok h') ms)).
  { by split_and!. }
  intros _ m valid h1 Hm (Hok1 & Hle1 & Hr1 & Hv). specialize (Hdef m Hm).
  destruct inherit; wp_step.
  - eapply wp_mono; [apply mergeParentChildRouteMatch_correct; [done|by eauto with gw|left; simpl]|].
    { constructor; [by eauto with gw|constructor]. }
    intros m' h2 (Hok2 & Hle2 & Hr2 & Hm' & _). apply wp_ret.
    split_and!; [done|by etrans|by rewrite Hr2|].
    apply Forall_app. split; [eauto using Forall_impl, match_ok_mono|by constructor].
  - eapply wp_mono; [apply isDelegatedRouteMatch_correct; by eauto with gw|].
    intros b h2 [-> _]. apply wp_ret. split_and!; [done..|].
    destruct b; [|done]. apply Forall_app. split; [done|]. constructor; [by eauto with gw|constructor].
Qed.

Lemma set_matches_ok h ms r : Forall (match_ok h) ms → rule_ok h r → rule_ok h (set_matches ms r).
Proof. intros Hms [_ Hs]. split; [|done]. by destruct ms. Qed.

(** Filtering one rule keeps the array's length and every other array, and the rule it
    may add is ready for translation. *)
Lemma filter_rule_ok h l rs parentRef parentMatch child inherit i valid :
  heap_ok h → match_ok h parentMatch → hr_rules (hi_route child) = l →
  h_rules h !! l = Some rs → i < length rs →
  Forall (rule_ok h) valid → Forall rule_ready valid →
  wp (filter_rule parentRef parentMatch child inherit i valid) (λ valid' h',
    heap_ok h' ∧ heap_le h h' ∧ (∀ l', l' ≠ l → h_rules h' !! l' = h_rules h !! l') ∧
    (∃ rs', h_rules h' !! l = Some rs' ∧ length rs' = length rs) ∧
    Forall (rule_ok h') valid' ∧ Forall rule_ready valid') h.
Proof.
  intros Hok Hp Hl Hrs Hi Hval Hrd. unfold filter_rule. rewrite Hl.
  destruct (lookup_lt_is_Some_2 rs i Hi) as [rule Hrule].
  assert (rule_ok h rule) as Hrok.
  { pose proof (proj2 Hok _ _ Hrs) as Hall. rewrite Forall_forall in Hall.
    eapply Hall, list_elem_of_lookup_2, Hrule. }
  wp_step. eapply wp_read_rule; [done..|]. wp_step.
  eapply wp_mono; [by apply valid_matches_ok|]. intros ms h1 (Hok1 & Hle1 & Hr1 & Hms). simpl.
  wp_step. eapply wp_read_rule; [by rewrite Hr1|done|].
  wp_step. eapply wp_write_rule; [by rewrite Hr1|done|].
  set (r' := set_matches ms rule). set (h2 := set_rules l (<[i:=r']> rs) h1).
  assert (rule_ok h1 r') as Hr' by (apply set_matches_ok; [done|by eapply rule_ok_mono]).
  assert (heap_ok h2) as Hok2.
  { apply set_rules_ok; [done|]. apply Forall_insert; [|done].
    eapply rules_ok_mono; [done|]. by eapply Hok. }
  assert (heap_le h1 h2) as Hle2 by apply set_rules_le.
  assert (∀ l', l' ≠ l → h_rules h2 !! l' = h_rules h !! l') as Hother
    by (intros; simpl; by rewrite lookup_insert_ne, Hr1).
  assert (Forall (rule_ok h2) valid) as Hval2 by (eapply rules_ok_mono; [|done]; by etrans).
  assert (h_rules h2 !! l = Some (<[i:=r']> rs)) as Hl2 by (simpl; by rewrite lookup_insert_eq).
  assert (length (<[i:=r']> rs) = length rs) as Hlen by apply length_insert.
  case_bool_decide as Hms0.
  - apply wp_ret. split_and!; [done|by etrans|done|by eexists|done|done].
  - wp_step. eapply wp_read_rule; [done|by apply list_lookup_insert_eq|]. apply wp_ret.
    split_and!; [done|by etrans|done|by eexists| |].
    + apply Forall_app. split; [done|]. constructor; [|constructor]. apply set_matches_ok.
      * eapply Forall_impl; [exact Hms|]. intros. by eapply match_ok_mono.
      * by eapply rule_ok_mono.
    + apply Forall_app. split; [done|]. constructor; [|constructor].
      unfold rule_ready, set_matches; simpl. destruct ms; [done|by eexists].
Qed.

(** A selected child: the clone of one of the children with a new array of rules that are
    ready for translation. *)
Definition selected_from (h0 h : Heap) (children : list HTTPRouteInfo) (c' : HTTPRouteInfo) : Prop :=
  ∃ c l rs, c ∈ children ∧ c' = set_route_rules l (Clone c) ∧ (l ∉ dom (h_rules h0)) ∧
    h_rules h !! l = Some rs ∧ Forall rule_ready rs.

(** The rules arrays of [h0] that no child uses are unchanged. *)
Definition frame (h0 h : Heap) (touched : loc → Prop) : Prop :=
  ∀ l, l ∈ dom (h_rules h0) → ¬ touched l → h_rules h !! l = h_rules h0 !! l.

Definition filter_inv (h0 : Heap) (children sel : list HTTPRouteInfo) (h : Heap) : Prop :=
  heap_ok h ∧ heap_le h0 h ∧
  frame h0 h (λ l, ∃ c, c ∈ children ∧ hr_rules (hi_route c) = l) ∧
  Forall (selected_from h0 h children) sel.

Lemma filter_child_ok h0 h parentRef parentMatch children child sel :
  match_ok h0 parentMatch → child ∈ children → hr_rules (hi_route child) ∈ dom (h_rules h0) →
  filter_inv h0 children sel h →
  wp (filter_child parentRef parentMatch child sel) (filter_inv h0 children) h.
Proof.
  intros Hp Hin Hdom (Hok & Hle & Hframe & Hsel). unfold filter_child.
  set (l := hr_rules (hi_route child)) in *. simpl. fold l.
  assert (l ∈ dom (h_rules h)) as [rs Hrs]%elem_of_dom by (destruct Hle; set_solver).
  wp_step. eapply wp_read_rules; [done|]. wp_step.
  eapply wp_mono; [apply (wp_fold_range_ix (λ valid h',
    heap_ok h' ∧ heap_le h h' ∧ (∀ l', l' ≠ l → h_rules h' !! l' = h_rules h !! l') ∧
    (∃ rs', h_rules h' !! l = Some rs' ∧ length rs' = length rs) ∧
    Forall (rule_ok h') valid ∧ Forall rule_ready valid))|].
  { split_and!; [done|done|done|by exists rs|constructor|constructor]. }
  { intros i r valid h1 Hi (Hok1 & Hle1 & Ho1 & (rs1 & Hrs1 & Hlen1) & Hv1 & Hrd1).
    eapply wp_mono; [eapply (filter_rule_ok h1 l rs1); [done|by eauto with gw|done|done| |done|done]|].
    - rewrite Hlen1. by eapply lookup_lt_Some.
    - intros valid' h2 (?&?&Ho2&(rs2&?&?)&?&?). split_and!; [done|by etrans| |exists rs2|done|done].
      + intros. by rewrite Ho2, Ho1.
      + split; [done|congruence]. }
  intros valid h1 (Hok1 & Hle1 & Ho1 & _ & Hv1 & Hrd1).
  assert (frame h0 h1 (λ l, ∃ c, c ∈ children ∧ hr_rules (hi_route c) = l)) as Hframe1.
  { intros l' Hl' Hn. rewrite Ho1; [by apply Hframe|]. intros ->. apply Hn. by exists child. }
  assert (Forall (selected_from h0 h1 children) sel) as Hsel1.
  { eapply Forall_impl; [exact Hsel|]. intros c' (c & l' & rs' & ? & ? & Hf & ? & ?).
    exists c, l', rs'. split_and!; [done..| |done]. rewrite Ho1; [done|]. by intros ->. }
  case_bool_decide; [apply wp_ret; split_and!; [done|by etrans|done|done]|].
  wp_step. unfold wp at 1, alloc_rules. destruct (new_rules valid h1) as [l2 h2] eqn:E.
  destruct (new_rules_spec _ _ _ _ E Hok1 Hv1) as (Hok2 & Hle2 & Hl2 & Hfresh & Hk2).
  assert (dom (h_rules h0) ⊆ dom (h_rules h1)) as Hd by (destruct Hle, Hle1; set_solver).
  apply wp_ret. split_and!; [done|do 2 (etrans; [done|]); done| |].
  - intros l' Hl' Hn. rewrite Hk2 by set_solver. by apply Hframe1.
  - apply Forall_app. split.
    + eapply Forall_impl; [exact Hsel1|]. intros c' (c & l' & rs' & ? & ? & Hf & Hl' & ?).
      exists c, l', rs'. split_and!; [done..| |done]. rewrite Hk2; [done|]. apply elem_of_dom. by eexists.
    + constructor; [|constructor]. exists child, l2, valid. split_and!; [done|done|set_solver|done|done].
Qed.

Lemma filterDelegatedChildren_ok h parentRef parentMatch children :
  heap_ok h → match_ok h parentMatch →
  Forall (λ c, hr_rules (hi_route c) ∈ dom (h_rules h)) children →
  wp (filterDelegatedChildren parentRef parentMatch children) (filter_inv h children) h.
Proof.
  intros Hok Hp Hdom. rewrite Forall_forall in Hdom.
  apply (wp_fold_range (filter_inv h children)); [by split_and!|].
  intros _ c sel h1 Hc Hinv. apply filter_child_ok; auto.
Qed.

(** ** What a parent's match selects of its children *)
Definition rules_at (h : Heap) (i : HTTPRouteInfo) : list MRule :=
  default [] (h_rules h !! hr_rules (hi_route i)).
Definition rule_matches (r : MRule) : list MMatch := default [] (r_matches r).
Definition inherits (c : HTTPRouteInfo) : bool := shouldInheritMatcher (hi_route c).

Definition delegated_matches (h : Heap) (parentRef : NamespacedName) (parentMatch : MMatch)
    (c : HTTPRouteInfo) (r : MRule) : list MMatch :=
  List.filter (λ m, delegatesb h parentRef parentMatch m (hr_namespace (hi_route c))
                      (hr_parentRefs (hi_route c))) (rule_matches r).
(** A match that inherits the parent's: its path object stays its own. *)
Definition inherited_match (parentMatch m : MMatch) : MMatch :=
  {| m_path := m_path m; m_headers := mergeHeaders (m_headers parentMatch) (m_headers m);
     m_queryParams := mergeQueries (m_queryParams parentMatch) (m_queryParams m);
     m_method := match m_method parentMatch with Some x => Some x | None => m_method m end |}.
(** The matches selected in a rule of a child: all of them, merged with the parent's, when
    the child inherits (the parent's match itself if the rule has none), else those that the
    parent's match delegates to. *)
Definition selected_matches (h : Heap) (parentRef : NamespacedName) (parentMatch : MMatch)
    (c : HTTPRouteInfo) (r : MRule) : list MMatch :=
  if inherits c then
    match rule_matches r with [] => [parentMatch] | ms => map (inherited_match parentMatch) ms end
  else delegated_matches h parentRef parentMatch c r.
(** The rules selected of a child, with the selected matches. *)
Definition selected_rules (h : Heap) (parentRef : NamespacedName) (parentMatch : MMatch)
    (c : HTTPRouteInfo) : list MRule :=
  flat_map (λ r, match selected_matches h parentRef parentMatch c r with
                 | [] => []
                 | ms => [set_matches ms r]
                 end) (rules_at h c).
Definition selected_children (h : Heap) (parentRef : NamespacedName) (parentMatch : MMatch)
    (children : list HTTPRouteInfo) : list (HTTPRouteInfo * list MRule) :=
  flat_map (λ c, match selected_rules h parentRef parentMatch c with [] => [] | rs => [(c, rs)] end) children.

(** The path objects of matches that inherit, and what becomes of one. *)
Definition joined_paths (c : HTTPRouteInfo) (rs : list MRule) : list loc :=
  if inherits c then omap m_path (flat_map rule_matches rs) else [].
Definition child_paths (h : Heap) (c : HTTPRouteInfo) : list loc := joined_paths c (rules_at h c).
Definition joined_path (pv : string) (p : HTTPPathMatch) : HTTPPathMatch :=
  {| pm_type := pm_type p; pm_value := Some (path_join pv (default "" (pm_value p))) |}.
Definition join_paths (pv : string) (ls : list loc) (m : gmap loc HTTPPathMatch) : gmap loc HTTPPathMatch :=
  foldl (λ m l, alter (joined_path pv) l m) m ls.
Definition with_paths (m : gmap loc HTTPPathMatch) (h : Heap) : Heap := {| h_rules := h_rules h; h_paths := m |}.

Lemma join_paths_app pv ls ls' m : join_paths pv (ls ++ ls') m = join_paths pv ls' (join_paths pv ls m).
Proof. apply foldl_app. Qed.
Lemma join_paths_cons pv l ls m : join_paths pv (l :: ls) m = join_paths pv ls (alter (joined_path pv) l m).
Proof. done. Qed.
Lemma join_paths_other pv ls m l : l ∉ ls → join_paths pv ls m !! l = m !! l.
Proof.
  revert m. induction ls as [|k ls IH]; intros m Hl; [done|]. rewrite join_paths_cons, IH by set_solver. apply lookup_alter_ne. set_solver.
Qed.
Lemma join_paths_once pv ls m l : NoDup ls → l ∈ ls → join_paths pv ls m !! l = joined_path pv <$> m !! l.
Proof.
  revert m. induction ls as [|k ls IH]; intros m; [set_solver|]. intros [Hk Hnd]%NoDup_cons Hl. rewrite join_paths_cons. destruct (decide (l = k)) as [->|Hne].
  - by rewrite join_paths_other, lookup_alter_eq.
  - rewrite IH by set_solver. by rewrite lookup_alter_ne.
Qed.
Lemma join_paths_dom pv ls m : dom (join_paths pv ls m) = dom m.
Proof. revert m. induction ls as [|k ls IH]; intros m; [done|]. by rewrite join_paths_cons, IH, dom_alter_L. Qed.
Lemma join_paths_ok pv ls h : heap_ok h → heap_ok (with_paths (join_paths pv ls (h_paths h)) h).
Proof.
  revert h. induction ls as [|k ls IH]; intros h Hok; [by destruct h|].
  apply (IH (with_paths (alter (joined_path pv) k (h_paths h)) h)). destruct Hok as [Hp Hr]. split.
  - intros l p Hl. cbn in Hl. apply lookup_alter_Some in Hl as [(-> & q & Hq & ->)|[_ Hl]]; [|by eauto].
    destruct (Hp _ _ Hq) as [Ht _]. split; [done|by eexists].
  - intros l rs Hl. eapply rules_ok_mono; [|by eapply Hr]. split; [done|]. cbn. by rewrite dom_alter_L.
Qed.
Lemma join_paths_le pv ls h : heap_le h (with_paths (join_paths pv ls (h_paths h)) h).
Proof. split; [done|]. cbn. by rewrite join_paths_dom. Qed.

Definition path_value (h : Heap) (m : MMatch) : string := default "" (path_value_of h m).
Lemma merge_run h parent child : heap_ok h → match_ok h parent → match_ok h child →
  mergeParentChildRouteMatch parent child h =
    Ok (inherited_match parent child, with_paths (join_paths (path_value h parent) (option_list (m_path child)) (h_paths h)) h).
Proof.
  intros Hok Hp Hc. destruct (match_path_complete _ _ Hok Hp) as (pl & pp & Hpl & Hpp & _ & [pv Hpv]).
  destruct (match_path_complete _ _ Hok Hc) as (cl & cp & Hcl & Hcp & _ & [cv Hcv]).
  unfold mergeParentChildRouteMatch, inherited_match, path_value, path_value_of. rewrite Hcl, Hpl. cbn. rewrite Hpp. cbn. rewrite Hpv.
  unfold bind, ret, deref, read_path, gets, modify. cbn. rewrite Hpp. cbn. rewrite Hpv. cbn. rewrite Hcp. cbn. rewrite Hcv. cbn.
  unfold set_path, with_paths. repeat f_equal. apply map_eq. intros l. destruct (decide (l = cl)) as [->|Hne].
  - rewrite lookup_insert_eq, lookup_alter_eq, Hcp. cbn. unfold joined_path. by rewrite Hcv.
  - by rewrite lookup_insert_ne, lookup_alter_ne.
Qed.

(** A delegation test only reads the two path objects. *)
Lemma delegatesb_paths h h' parentRef parent child ns refs :
  (∀ l, m_path parent = Some l ∨ m_path child = Some l → h_paths h' !! l = h_paths h !! l) →
  delegatesb h' parentRef parent child ns refs = delegatesb h parentRef parent child ns refs.
Proof.
  intros Heq. unfold delegatesb, isDelegatedRouteMatch. destruct (_ && _); [done|].
  destruct (m_path parent) as [pl|]; [|done].
  unfold read_path, bind, gets. rewrite Heq by auto. destruct (h_paths h !! pl) as [pp|]; simpl; [|done].
  destruct (negb _); [done|]. destruct (pm_value pp); simpl; [|done].
  destruct (m_path child) as [cl|]; [|done]. rewrite Heq by auto.
  destruct (h_paths h !! cl) as [cp|]; simpl; [|done].
  destruct (pm_type cp); [|done]. by destruct (pm_value cp).
Qed.

(** The path objects of the matches a rule that is tested uses, and the parent's, are the
    same in both memories. *)
Definition same_paths (h h' : Heap) (parentMatch : MMatch) (c : HTTPRouteInfo) (r : MRule) : Prop :=
  ∀ l, m_path parentMatch = Some l ∨ inherits c = false ∧ (∃ m, m ∈ rule_matches r ∧ m_path m = Some l) → h_paths h' !! l = h_paths h !! l.
Lemma selected_matches_paths h h' parentRef pm c r :
  same_paths h h' pm c r → selected_matches h' parentRef pm c r = selected_matches h parentRef pm c r.
Proof.
  intros Hs. unfold selected_matches. destruct (inherits c) eqn:Hi; [done|]. unfold delegated_matches.
  apply filter_ext_in. intros m Hm%list_elem_of_In. apply delegatesb_paths. intros l Hl. apply Hs. destruct Hl; [by left|right; eauto].
Qed.
Lemma path_value_same h h' pm c r : same_paths h h' pm c r → path_value h' pm = path_value h pm.
Proof.
  intros Hs. unfold path_value, path_value_of. destruct (m_path pm) as [l|] eqn:E; [|done]. cbn. rewrite Hs; [done|by left].
Qed.
Lemma rule_matches_ok h r : rule_ok h r → Forall (match_ok h) (rule_matches r).
Proof. intros [Hms _]. unfold rule_matches. destruct (r_matches r); [done|constructor]. Qed.
Lemma selected_matches_ok h h0 parentRef pm c r :
  match_ok h pm → rule_ok h r → Forall (match_ok h) (selected_matches h0 parentRef pm c r).
Proof.
  intros Hp Hms%rule_matches_ok. unfold selected_matches, delegated_matches. destruct (inherits c).
  - destruct (rule_matches r) as [|m ms]; [by repeat constructor|]. apply Forall_map. exact Hms.
  - apply Forall_forall. intros m Hm. apply list_elem_of_In, filter_In in Hm as [Hm _]. apply list_elem_of_In in Hm.
    rewrite Forall_forall in Hms. auto.
Qed.

Lemma valid_matches_tested h parentRef pm child rule : heap_ok h → match_ok h pm → rule_ok h rule →
  valid_matches parentRef pm child false rule h = Ok (delegated_matches h parentRef pm child rule, h).
Proof.
  intros Hok Hp Hms%rule_matches_ok. unfold valid_matches, delegated_matches. cbn. fold (rule_matches rule).
  enough (∀ i acc, fold_range i (rule_matches rule) acc (λ _ m valid,
      ok <~ isDelegatedRouteMatch pm parentRef m (hr_namespace (hi_route child)) (hr_parentRefs (hi_route child)) ;;
      ret (if ok then valid ++ [m] else valid)) h =
    Ok (acc ++ List.filter (λ m, delegatesb h parentRef pm m (hr_namespace (hi_route child)) (hr_parentRefs (hi_route child))) (rule_matches rule), h)) as -> by done.
  induction Hms as [|m ms Hm _ IH]; intros i acc; simpl; [by rewrite app_nil_r|].
  unfold bind. destruct (isDelegatedRouteMatch_run h parentRef pm m (hr_namespace (hi_route child)) (hr_parentRefs (hi_route child)) Hok Hp Hm) as [-> _].
  simpl. rewrite IH. destruct (delegatesb _ _ _ _ _ _); [|done]. by rewrite <-(assoc_L (++)).
Qed.
Lemma valid_matches_inherited h parentRef pm child rule : heap_ok h → match_ok h pm → rule_ok h rule →
  (∀ l, l ∈ omap m_path (rule_matches rule) → m_path pm ≠ Some l) →
  valid_matches parentRef pm child true rule h =
    Ok (match rule_matches rule with [] => [pm] | ms => map (inherited_match pm) ms end,
        with_paths (join_paths (path_value h pm) (omap m_path (rule_matches rule)) (h_paths h)) h).
Proof.
  intros Hok Hp Hms%rule_matches_ok Hown. unfold valid_matches. cbn. fold (rule_matches rule).
  enough (∀ h i acc, heap_ok h → match_ok h pm → Forall (match_ok h) (rule_matches rule) →
    fold_range i (rule_matches rule) acc (λ _ m valid, m' <~ mergeParentChildRouteMatch pm m ;; ret (valid ++ [m'])) h =
    Ok (acc ++ map (inherited_match pm) (rule_matches rule), with_paths (join_paths (path_value h pm) (omap m_path (rule_matches rule)) (h_paths h)) h)) as ->
    by (done || by destruct (rule_matches rule)).
  clear h Hok Hp Hms. induction (rule_matches rule) as [|m ms IH]; intros h i acc Hok Hp Hms; cbn [fold_range map]; [rewrite app_nil_r; by destruct h|].
  apply Forall_cons in Hms as [Hm Hms]. unfold bind. rewrite merge_run by done. cbn [ret].
  set (h1 := with_paths _ h). assert (heap_le h h1) as Hle by apply join_paths_le.
  rewrite IH; [|intros l Hin; apply Hown; cbn; destruct (m_path m); [by right|done]|by apply join_paths_ok|by eapply match_ok_mono|eapply Forall_impl; [exact Hms|intros; by eapply match_ok_mono]].
  rewrite <-(assoc_L (++)). destruct Hm as (l & Hl & _).
  assert (path_value h1 pm = path_value h pm) as ->.
  { unfold path_value, path_value_of. destruct (m_path pm) as [k|] eqn:Ek; [|done]. cbn. rewrite Hl. cbn. rewrite lookup_alter_ne; [done|].
    intros ->. eapply (Hown k); [|done]. cbn. rewrite Hl. by left. }
  unfold with_paths, h1. cbn. by rewrite Hl.
Qed.

Definition matched (child : HTTPRouteInfo) (pm : MMatch) (rule : MRule) : Prop := ∀ l, l ∈ joined_paths child [rule] → m_path pm ≠ Some l.
Lemma valid_matches_exact h parentRef pm child rule : heap_ok h → match_ok h pm → rule_ok h rule → matched child pm rule →
  valid_matches parentRef pm child (inherits child) rule h =
    Ok (selected_matches h parentRef pm child rule, with_paths (join_paths (path_value h pm) (joined_paths child [rule]) (h_paths h)) h).
Proof.
  intros Hok Hp Hr. unfold matched, joined_paths, selected_matches. destruct (inherits child); cbn; rewrite ?app_nil_r; intros Hown.
  - by apply valid_matches_inherited.
  - rewrite valid_matches_tested by done. by destruct h.
Qed.

(** One rule of a child: its matches are replaced in place, and it is selected if some are
    left. *)
Lemma filter_rule_exact h l pre r post parentRef pm child valid :
  heap_ok h → match_ok h pm → hr_rules (hi_route child) = l →
  h_rules h !! l = Some (pre ++ r :: post) → matched child pm r →
  let ms := selected_matches h parentRef pm child r in
  filter_rule parentRef pm child (inherits child) (length pre) valid h =
    Ok (match ms with [] => valid | _ => valid ++ [set_matches ms r] end,
        set_rules l (pre ++ set_matches ms r :: post) (with_paths (join_paths (path_value h pm) (joined_paths child [r]) (h_paths h)) h)).
Proof.
  intros Hok Hp Hl Hrs Hm ms. assert (rule_ok h r) as Hr.
  { pose proof (proj2 Hok _ _ Hrs) as Hall. apply Forall_app in Hall as [_ Hall]. by apply Forall_inv in Hall. }
  assert (∀ h' rs x, h_rules h' !! l = Some rs → rs !! length pre = Some x → read_rule l (length pre) h' = Ok (x, h')) as Hread.
  { intros h' rs x E1 E2. unfold read_rule, read_rules, bind, gets, deref, ret. by rewrite E1, E2. }
  assert ((pre ++ r :: post) !! length pre = Some r) as Hmid by by rewrite list_lookup_middle.
  unfold filter_rule. rewrite Hl. unfold bind at 1. rewrite (Hread _ _ _ Hrs Hmid).
  unfold bind at 1. rewrite valid_matches_exact by done. fold ms. set (h1 := with_paths _ h).
  unfold bind at 1. rewrite (Hread h1 _ _ Hrs Hmid). unfold bind at 1.
  replace (write_rule l (length pre) (set_matches ms r) h1) with (@Ok (unit * Heap) (tt, set_rules l (pre ++ set_matches ms r :: post) h1)).
  - destruct ms eqn:Ems; [by rewrite bool_decide_true|]. rewrite bool_decide_false by done.
    unfold bind. erewrite (Hread _ (pre ++ set_matches (_ :: _) r :: post)); [|simpl; by rewrite lookup_insert_eq|by rewrite list_lookup_middle]. done.
  - unfold write_rule, read_rules, bind, gets, deref, ret. simpl. rewrite Hrs. simpl.
    rewrite decide_True by (rewrite length_app; simpl; lia). unfold modify. by rewrite insert_app_r_alt, Nat.sub_diag by lia.
Qed.

(** The array of rules of a child afterwards. *)
Definition cut (h : Heap) (parentRef : NamespacedName) (pm : MMatch) (c : HTTPRouteInfo) (rs : list MRule) : list MRule :=
  map (λ r, set_matches (selected_matches h parentRef pm c r) r) rs.
(** What the memory and the selection are after some children: the new routes are clones of
    the children that keep a rule, with arrays of their own. *)
Definition is_selected (h : Heap) (x : HTTPRouteInfo * list MRule) (c' : HTTPRouteInfo) : Prop :=
  c' = set_route_rules (hr_rules (hi_route c')) (Clone x.1) ∧ h_rules h !! hr_rules (hi_route c') = Some x.2.
Record mem_inv (h0 : Heap) parentRef pm (done_ : list HTTPRouteInfo) (h : Heap) : Prop := {
  mi_ok : heap_ok h;
  mi_le : heap_le h0 h;
  mi_paths : h_paths h = join_paths (path_value h0 pm) (flat_map (child_paths h0) done_) (h_paths h0);
  mi_frame : frame h0 h (λ l, ∃ c, c ∈ done_ ∧ hr_rules (hi_route c) = l);
  mi_cut c : c ∈ done_ → h_rules h !! hr_rules (hi_route c) = Some (cut h0 parentRef pm c (rules_at h0 c)) }.
Definition sel_inv (h0 : Heap) parentRef pm (done_ sel : list HTTPRouteInfo) (h : Heap) : Prop :=
  Forall2 (is_selected h) (selected_children h0 parentRef pm done_) sel ∧
  Forall (λ c', hr_rules (hi_route c') ∉ dom (h_rules h0)) sel ∧ NoDup (map (λ c', hr_rules (hi_route c')) sel).

(** No match that inherits shares its path object with the parent's match, or with a match
    that is tested. *)
Definition own_paths (h : Heap) (pm : MMatch) (children : list HTTPRouteInfo) : Prop :=
  ∀ l, l ∈ flat_map (child_paths h) children →
    m_path pm ≠ Some l ∧ ∀ c r m, c ∈ children → inherits c = false → r ∈ rules_at h c → m ∈ rule_matches r → m_path m ≠ Some l.

(** The rules of one child, one after the other. *)
Definition loop_inv (h0 h : Heap) parentRef pm (child : HTTPRouteInfo) (rs pre valid : list MRule) (h' : Heap) : Prop :=
  h' = set_rules (hr_rules (hi_route child)) (cut h0 parentRef pm child pre ++ drop (length pre) rs)
         (with_paths (join_paths (path_value h0 pm) (joined_paths child pre) (h_paths h)) h) ∧
  valid = flat_map (λ r, match selected_matches h0 parentRef pm child r with [] => [] | ms => [set_matches ms r] end) pre ∧ heap_ok h'.
Lemma joined_paths_app c rs rs' : joined_paths c (rs ++ rs') = joined_paths c rs ++ joined_paths c rs'.
Proof. unfold joined_paths. destruct (inherits c); [|done]. by rewrite flat_map_app, omap_app. Qed.
Lemma filter_rules_exact h0 h rs parentRef pm child :
  heap_ok h → match_ok h pm → h_rules h !! hr_rules (hi_route child) = Some rs →
  (∀ l, l ∈ joined_paths child rs → m_path pm ≠ Some l) → (∀ r, r ∈ rs → same_paths h0 h pm child r) →
  wp (fold_range 0 rs [] (λ i _ validRules, filter_rule parentRef pm child (inherits child) i validRules))
    (λ valid h', loop_inv h0 h parentRef pm child rs rs valid h') h.
Proof.
  intros Hok Hp Hrs Hown Hsame. set (l := hr_rules (hi_route child)) in *.
  apply (wp_fold_range_split (λ pre valid h', loop_inv h0 h parentRef pm child rs pre valid h')).
  { split_and!; [|done|done]. fold l. cbn. rewrite drop_0.
    assert (joined_paths child [] = []) as -> by (unfold joined_paths; by destruct (inherits child)).
    destruct h; unfold set_rules; simpl in *. by rewrite insert_id. }
  intros pre r post valid h1 Hsplit (E1 & -> & Hok1). fold l in E1.
  assert (drop (length pre) rs = r :: post) as Hdrop by (rewrite Hsplit; apply drop_app_length). rewrite Hdrop in E1.
  assert (∀ k, k ∈ joined_paths child pre → k ∈ joined_paths child rs) as Hsub by (intros k Hk; rewrite Hsplit, joined_paths_app; set_solver).
  assert (∀ k, k ∈ joined_paths child [r] → k ∈ joined_paths child rs) as Hsub'.
  { intros k Hk. rewrite Hsplit. change (r :: post) with ([r] ++ post). rewrite !joined_paths_app. set_solver. }
  assert (same_paths h0 h1 pm child r) as Hsame1.
  { intros k Hk. rewrite <-(Hsame r) by (done || set_solver). rewrite E1. cbn. apply join_paths_other.
    destruct Hk as [Hk|[Hi _]]; [|unfold joined_paths; rewrite Hi; set_solver]. intros Hin. by eapply Hown; [apply Hsub|]. }
  assert (length pre = length (cut h0 parentRef pm child pre)) as Hlen by (symmetry; apply length_map).
  assert (match_ok h1 pm) as Hp1.
  { eapply match_ok_mono; [|exact Hp]. rewrite E1. etrans; [apply join_paths_le|apply set_rules_le]. }
  unfold wp. rewrite Hlen. erewrite filter_rule_exact; [|done|done|reflexivity|rewrite E1; cbn; by rewrite lookup_insert_eq|].
  2: { intros k Hk. apply Hown. auto. }
  rewrite (selected_matches_paths h0 h1), (path_value_same h0 h1 pm child r) by done. split_and!.
  - rewrite E1. unfold set_rules, with_paths. cbn. rewrite insert_insert_eq. f_equal.
    + f_equal. unfold cut. rewrite map_app, <-(assoc_L (++)). cbn. do 2 f_equal.
      by rewrite length_app, <-drop_drop, Hdrop.
    + by rewrite joined_paths_app, join_paths_app.
  - rewrite flat_map_app. simpl. rewrite app_nil_r. destruct (selected_matches _ _ _ _ _); [by rewrite app_nil_r|done].
  - pose proof (proj2 Hok1 l) as Hall. rewrite E1 in Hall. cbn in Hall. specialize (Hall _ (lookup_insert_eq _ _ _)). rewrite <-E1 in Hall.
    apply set_rules_ok; [by apply join_paths_ok|]. eapply rules_ok_mono; [apply join_paths_le|].
    apply Forall_app in Hall as [Ha [Hr Hb]%Forall_cons]. apply Forall_app. split; [done|]. constructor; [|done].
    apply set_matches_ok; [|done]. by apply selected_matches_ok.
Qed.

Lemma is_selected_mono h h' xs sel : (∀ l, l ∈ dom (h_rules h) → h_rules h' !! l = h_rules h !! l ∨ l ∉ map (λ c', hr_rules (hi_route c')) sel) →
  Forall2 (is_selected h) xs sel → Forall2 (is_selected h') xs sel.
Proof.
  intros Hk. induction 1 as [|x c' xs sel [E Hl] _ IH]; constructor.
  - split; [done|]. destruct (Hk (hr_rules (hi_route c'))) as [->|Hn]; [apply elem_of_dom; by eexists|done|]. destruct Hn. by left.
  - apply IH. intros l Hd. destruct (Hk l Hd) as [?|Hn]; [by left|right]. set_solver.
Qed.
Lemma is_selected_dom h xs sel : Forall2 (is_selected h) xs sel → Forall (λ c', hr_rules (hi_route c') ∈ dom (h_rules h)) sel.
Proof. induction 1 as [|x c' xs sel [_ Hl] _ IH]; constructor; [apply elem_of_dom; by eexists|done]. Qed.

(** The memory after the rules of one more child. *)
Lemma child_mem h0 h parentRef pm done_ child rs h1 : match_ok h0 pm → h_rules h0 !! hr_rules (hi_route child) = Some rs →
  (∀ c, c ∈ done_ → hr_rules (hi_route c) ≠ hr_rules (hi_route child)) → mem_inv h0 parentRef pm done_ h → heap_ok h1 →
  h1 = set_rules (hr_rules (hi_route child)) (cut h0 parentRef pm child rs) (with_paths (join_paths (path_value h0 pm) (joined_paths child rs) (h_paths h)) h) →
  mem_inv h0 parentRef pm (done_ ++ [child]) h1.
Proof.
  intros Hp Hrs0 Hdist [Hok Hle Hpaths Hframe Hcut] Hok1 E1. assert (rules_at h0 child = rs) as Hat by (unfold rules_at; by rewrite Hrs0).
  split; [done| | | |].
  - etrans; [exact Hle|]. rewrite E1. etrans; [apply join_paths_le|apply set_rules_le].
  - rewrite E1, flat_map_app, join_paths_app, <-Hpaths. cbn. rewrite app_nil_r. unfold child_paths. by rewrite Hat.
  - intros l' Hl' Hn'. rewrite E1. cbn. rewrite lookup_insert_ne by (intros <-; apply Hn'; exists child; set_solver).
    apply Hframe; [done|]. intros (c & ? & ?). apply Hn'. exists c. set_solver.
  - intros c [Hc| ->%list_elem_of_singleton]%elem_of_app; rewrite E1; cbn.
    + rewrite lookup_insert_ne by (intros E; by apply (Hdist c)). by apply Hcut.
    + by rewrite lookup_insert_eq, Hat.
Qed.
(** A new array changes none of it. *)
Lemma alloc_mem h0 parentRef pm done_ h h2 : mem_inv h0 parentRef pm done_ h → heap_ok h2 → heap_le h h2 → h_paths h2 = h_paths h →
  (∀ l, l ∈ dom (h_rules h) → h_rules h2 !! l = h_rules h !! l) → mem_inv h0 parentRef pm done_ h2.
Proof.
  intros [Hok Hle Hpaths Hframe Hcut] Hok2 Hle2 Hp2 Hk. split; [done|by etrans|by rewrite Hp2| |].
  - intros l Hl Hn. rewrite Hk; [by apply Hframe|]. destruct Hle. set_solver.
  - intros c Hc. rewrite Hk; [by apply Hcut|]. apply elem_of_dom. by eexists; apply Hcut.
Qed.
Lemma child_rules_ok h0 h1 parentRef pm child rs : match_ok h1 pm → Forall (rule_ok h1) rs → rules_at h0 child = rs →
  Forall (rule_ok h1) (selected_rules h0 parentRef pm child).
Proof.
  intros Hp Hall Hat. rewrite Forall_forall in Hall. apply Forall_forall. intros r' (r & Hr & Hr')%elem_of_flat_map. rewrite Hat in Hr.
  assert (r' = set_matches (selected_matches h0 parentRef pm child r) r) as -> by (destruct (selected_matches h0 parentRef pm child r); set_solver).
  apply set_matches_ok; [|by apply Hall]. apply selected_matches_ok; [done|by apply Hall].
Qed.
Lemma child_same h0 h parentRef pm done_ child r : own_paths h0 pm (done_ ++ [child]) → mem_inv h0 parentRef pm done_ h →
  r ∈ rules_at h0 child → same_paths h0 h pm child r.
Proof.
  intros Hown [_ _ Hpaths _ _] Hr k Hk. rewrite Hpaths. apply join_paths_other. intros Hin.
  destruct (Hown k) as [Hpm Hn]; [rewrite flat_map_app; set_solver|]. destruct Hk as [Hk|[Hi (m & Hm & Hk)]]; [done|].
  eapply (Hn child r m); [set_solver|done..].
Qed.

Lemma filter_child_exact h0 h parentRef pm done_ child sel :
  match_ok h0 pm → hr_rules (hi_route child) ∈ dom (h_rules h0) → own_paths h0 pm (done_ ++ [child]) →
  (∀ c, c ∈ done_ → hr_rules (hi_route c) ≠ hr_rules (hi_route child)) →
  mem_inv h0 parentRef pm done_ h → sel_inv h0 parentRef pm done_ sel h →
  wp (filter_child parentRef pm child sel)
    (λ sel' h', mem_inv h0 parentRef pm (done_ ++ [child]) h' ∧ sel_inv h0 parentRef pm (done_ ++ [child]) sel' h') h.
Proof.
  intros Hp Hdom Hown Hdist Hmem (Hsel & Hnew & Hnd). pose proof (λ r, child_same h0 h parentRef pm done_ child r Hown Hmem) as Hsame.
  unfold filter_child. set (l := hr_rules (hi_route child)) in *. simpl. fold l. pose proof Hdom as [rs Hrs0]%elem_of_dom.
  assert (rules_at h0 child = rs) as Hat by (unfold rules_at; fold l; by rewrite Hrs0). rewrite Hat in Hsame.
  pose proof (mi_ok _ _ _ _ _ Hmem) as Hok. pose proof (mi_le _ _ _ _ _ Hmem) as Hle.
  assert (h_rules h !! l = Some rs) as Hrs by (rewrite (mi_frame _ _ _ _ _ Hmem); [done|done|]; naive_solver).
  wp_step. eapply wp_read_rules; [done|]. wp_step. change (shouldInheritMatcher (hi_route child)) with (inherits child).
  eapply wp_mono; [apply (filter_rules_exact h0 h rs parentRef pm (Clone child)); [done|by eapply match_ok_mono|done| |done]|].
  { intros k Hk. apply (Hown k). rewrite flat_map_app. cbn. unfold child_paths at 2. rewrite Hat. set_solver. }
  intros valid h1 (E1 & -> & Hok1). rewrite drop_all, app_nil_r in E1.
  pose proof (child_mem _ _ _ _ _ _ _ _ Hp Hrs0 Hdist Hmem Hok1 E1) as Hmem1.
  change (flat_map _ rs) with (flat_map (λ r, match selected_matches h0 parentRef pm child r with [] => [] | ms => [set_matches ms r] end) rs).
  rewrite <-Hat. fold (selected_rules h0 parentRef pm child).
  assert (Forall2 (is_selected h1) (selected_children h0 parentRef pm done_) sel) as Hsel1.
  { eapply is_selected_mono; [|exact Hsel]. intros k Hk. destruct (decide (k = l)) as [->|Hne].
    - right. intros (c' & E & Hc')%list_elem_of_fmap. rewrite Forall_forall in Hnew. apply (Hnew c' Hc'). by rewrite <-E.
    - left. rewrite E1. cbn. by rewrite lookup_insert_ne. }
  unfold sel_inv. assert (selected_children h0 parentRef pm (done_ ++ [child]) = selected_children h0 parentRef pm done_ ++
    match selected_rules h0 parentRef pm child with [] => [] | rs => [(child, rs)] end) as ->
    by (unfold selected_children; rewrite flat_map_app; cbn; by rewrite app_nil_r).
  case_bool_decide as Hlen0; [apply nil_length_inv in Hlen0; rewrite Hlen0, app_nil_r; apply wp_ret; by split_and!|].
  wp_step. unfold wp at 1, alloc_rules. destruct (new_rules _ h1) as [l2 h2] eqn:E.
  assert (heap_le h h1) as Hle1 by (rewrite E1; etrans; [apply join_paths_le|apply set_rules_le]).
  destruct (new_rules_spec _ _ _ _ E Hok1) as (Hok2 & Hle2 & Hl2 & Hfresh & Hk2).
  { eapply child_rules_ok; [do 2 (eapply match_ok_mono; [done|]); exact Hp| |exact Hat]. eapply rules_ok_mono; [exact Hle1|by eapply Hok]. }
  apply wp_ret. split_and!.
  - eapply alloc_mem; [done..| |done]. unfold new_rules in E. by injection E as <- <-.
  - destruct (selected_rules h0 parentRef pm child) as [|r rs'] eqn:Er; [done|]. apply Forall2_app.
    + eapply is_selected_mono; [|exact Hsel1]. intros k Hk. left. auto.
    + constructor; [|constructor]. by split.
  - apply Forall_app. split; [done|]. constructor; [|constructor]. cbn. destruct Hle, Hle1. set_solver.
  - rewrite map_app. apply NoDup_app. split_and!; [done| |apply NoDup_singleton]. cbn. intros k (c' & Ek & Hc')%list_elem_of_fmap Ek'%list_elem_of_singleton.
    apply is_selected_dom in Hsel1. rewrite Forall_forall in Hsel1. apply Hfresh. rewrite <-Ek', Ek. by apply Hsel1.
Qed.
End Filter.

(** C22. Delegation is exact. When the children have arrays of rules of their own, and no
    match that inherits shares its path object with the parent's match or with one that is
    tested, the selected routes are, in order, clones of the children that keep a rule,
    each with a new array of exactly those rules. A child that is annotated to inherit
    keeps every rule, its matches merged with the parent's (a rule without matches gets the
    parent's); any other keeps the matches that the parent's match delegates to (see
    [delegates]). The memory changes in two ways only: the array of rules of a child has
    the selected matches in place of the matches of each rule, and the path of a match that
    inherits is joined to the parent's, once per match that points to it. *)
Theorem filterDelegatedChildren_exact (o : GoRange string) h parentRef parentMatch children :
  heap_ok h → match_ok h parentMatch → own_paths h parentMatch children →
  Forall (λ c, hr_rules (hi_route c) ∈ dom (h_rules h)) children →
  NoDup (map (λ c, hr_rules (hi_route c)) children) →
  ∃ out h', filterDelegatedChildren parentRef parentMatch children h = Ok (out, h') ∧
    Forall2 (is_selected h') (selected_children h parentRef parentMatch children) out ∧
    Forall (λ c', hr_rules (hi_route c') ∉ dom (h_rules h)) out ∧ NoDup (map (λ c', hr_rules (hi_route c')) out) ∧
    (∀ c r m, c ∈ children → inherits c = false → r ∈ rules_at h c →
      m ∈ selected_matches h parentRef parentMatch c r ↔
      m ∈ rule_matches r ∧ delegates h parentRef parentMatch m (hr_namespace (hi_route c)) (hr_parentRefs (hi_route c))) ∧
    h_paths h' = join_paths (path_value h parentMatch) (flat_map (child_paths h) children) (h_paths h) ∧
    (∀ c, c ∈ children → h_rules h' !! hr_rules (hi_route c) = Some (cut h parentRef parentMatch c (rules_at h c))) ∧
    (∀ l, l ∈ dom (h_rules h) → l ∉ map (λ c, hr_rules (hi_route c)) children → h_rules h' !! l = h_rules h !! l).
Proof.
  intros Hok Hp Hown Hall Hnd. rewrite Forall_forall in Hall.
  destruct (wp_run (filterDelegatedChildren parentRef parentMatch children)
    (λ out h', mem_inv h parentRef parentMatch children h' ∧ sel_inv h parentRef parentMatch children out h') h)
    as (out & h' & Hrun & [Hok' _ Hpaths Hframe Hcut] & Hsel & Hnew & Hndo).
  { apply (wp_fold_range_split (λ pre sel h', mem_inv h parentRef parentMatch pre h' ∧ sel_inv h parentRef parentMatch pre sel h')).
    { split; [|by split_and!; constructor]. split; [done|done|done|done|]. by intros c ?%elem_of_nil. }
    intros pre c post sel h1 -> [Hmem Hs]. apply (filter_child_exact h h1); [done|apply Hall; set_solver| | |done|done].
    - intros l Hl. destruct (Hown l) as [H1 H2]; [rewrite flat_map_app in *; cbn in *; set_solver|]. split; [done|].
      intros c' r m Hc'. apply H2. set_solver.
    - intros c' Hc' Heq. rewrite map_app in Hnd. apply NoDup_app in Hnd as (_ & Hdisj & _).
      eapply (Hdisj (hr_rules (hi_route c))); [apply list_elem_of_fmap; by exists c'|]. simpl. by left. }
  exists out, h'. split_and!; try done.
  - intros c r m Hc Hi Hr. unfold selected_matches. rewrite Hi. unfold delegated_matches. rewrite list_elem_of_In, filter_In, <-list_elem_of_In.
    cut (m ∈ rule_matches r → delegatesb h parentRef parentMatch m (hr_namespace (hi_route c)) (hr_parentRefs (hi_route c)) = true ↔ delegates h parentRef parentMatch m (hr_namespace (hi_route c)) (hr_parentRefs (hi_route c))); [naive_solver|].
    intros Hm. apply isDelegatedRouteMatch_run; [done|done|].
    unfold rules_at in Hr. destruct (h_rules h !! hr_rules (hi_route c)) as [rs|] eqn:E; [|by apply elem_of_nil in Hr].
    pose proof (proj2 Hok _ _ E) as Hrs. rewrite Forall_forall in Hrs. pose proof (rule_matches_ok _ _ (Hrs r Hr)) as Hms. rewrite Forall_forall in Hms. auto.
  - intros l Hl Hn. apply Hframe; [done|]. intros (c & Hc & <-). apply Hn. apply list_elem_of_fmap. by exists c.
Qed.

(** ** Examples *)
Definition ex_order : GoRange string := list_order.

(** A parent with the prefixes "/a" and "/b", and a child with one rule for each. *)
Definition ex_child (inherit : bool) (paths : list string) : KHTTPRoute :=
  {| hr_meta := {| om_name := "child"; om_namespace := "app"; om_generation := 1; om_creation := 0;
                   om_annotations := if inherit then {[ inheritMatcherAnnotation := "true" ]} else ∅ |};
     hr_parentRefs := []; hr_hostnames := None;
     hr_rules := map (λ p, ex_rule p [ex_svc_ref None "svc"]) paths; hr_statusParents := [] |}.
Definition ex_info (k : KHTTPRoute) (h : Heap) : HTTPRouteInfo * Heap :=
  let '(m, h) := load_route k h in
  ({| hi_route := m; hi_parentRef := ex_gw_ref "http"; hi_hostnameOverrides := [];
      hi_backends := NewBackendMap; hi_children := NewBackendMap |}, h).
Definition ex_delegation (inherit : bool) (paths : list string) : list MMatch * HTTPRouteInfo * Heap :=
  let '(c, h) := ex_info (ex_child inherit paths) empty_heap in
  let '(ms, h) := load_matches [ {| m_path := Some {| pm_type := Some PathMatchPathPrefix; pm_value := Some "/a" |};
                                    m_headers := []; m_queryParams := []; m_method := None |};
                                 {| m_path := Some {| pm_type := Some PathMatchPathPrefix; pm_value := Some "/b" |};
                                    m_headers := []; m_queryParams := []; m_method := None |} ] h in
  (ms, c, h).
Definition ex_parent_nn : NamespacedName := {| nn_ns := "app"; nn_name := "parent" |}.

(** The paths of the rules selected under the first parent match, and under the second one
    after it. *)
Definition ex_selected (h : Heap) (out : list HTTPRouteInfo) : list (list (option string)) :=
  map (λ c, flat_map (λ r, map (path_value_of h) (default [] (r_matches r))) (rules_at h c)) out.
Definition ex_run (inherit : bool) (paths : list string) : option (list (list (option string)) * list (list (option string))) :=
  let '(ms, c, h) := ex_delegation inherit paths in
  match ms with
  | [a; b] =>
      match @filterDelegatedChildren ex_order ex_parent_nn a [c] h with
      | Ok (out1, h1) =>
          match @filterDelegatedChildren ex_order ex_parent_nn b [c] h1 with
          | Ok (out2, h2) => Some (ex_selected h1 out1, ex_selected h2 out2)
          | _ => None
          end
      | _ => None
      end
  | _ => None
  end.

(** The clone is shallow: selecting the rules for "/a" removes the match "/b/x" from the
    shared child, and "/b" then selects nothing although the child matches it. *)
Example second_match_loses_rules :
  ex_run false ["/a/x"; "/b/x"] = Some ([[Some "/a/x"]], []).
Proof. vm_compute. reflexivity. Qed.

(** With inheritance the shared path object is joined once per parent match. *)
Example inherited_path_joined_twice :
  ex_run true ["/x"] = Some ([[Some "/a/x"]], [[Some "/b/a/x"]]).
Proof. vm_compute. reflexivity. Qed.

Lemma ex_delegation_ok inherit paths :
  let '(ms, c, h) := ex_delegation inherit paths in
  heap_ok h ∧ Forall (match_ok h) ms ∧ hr_rules (hi_route c) ∈ dom (h_rules h) ∧
  hr_meta (hi_route c) = hr_meta (ex_child inherit paths).
Proof.
  unfold ex_delegation, ex_info. destruct (load_route (ex_child inherit paths) empty_heap) as [r h1] eqn:E1.
  destruct (load_matches _ h1) as [ms' h2] eqn:E2.
  destruct (load_route_spec _ _ _ _ E1 empty_heap_ok) as (Hok1 & _ & _ & (rs & Hrs & _) & _).
  { apply Forall_forall. intros rule (p & <- & _)%list_elem_of_In%in_map_iff.
    apply ex_rule_defaulted. repeat constructor; by eexists. }
  destruct (load_matches_spec _ _ _ _ E2 Hok1) as (Hok2 & Hle & Hms & Hk).
  { repeat (constructor; [eexists; split; [reflexivity|split; [by eexists|by eexists]]|]). constructor. }
  split_and!; [done|done| |].
  - simpl. destruct Hle as [Hd _]. apply Hd, elem_of_dom. by exists rs.
  - unfold load_route in E1. destruct (load_rules _ _), (new_rules _ _). by injection E1 as <- <-.
Qed.

(** With a child that is tested, and with one that inherits: the paths and the headers. *)
Lemma filterDelegatedChildren_exact_witness :
  (let '(ms, c, h) := ex_delegation false ["/a/x"; "/b/x"; "/a"] in
   match ms with
   | a :: _ => ∃ out h', @filterDelegatedChildren ex_order ex_parent_nn a [c] h = Ok (out, h') ∧ ex_selected h' out = [[Some "/a/x"; Some "/a"]]
   | [] => False
   end) ∧
  (let '(ms, c, h) := ex_delegation true ["/x"; "/y"] in
   match ms with
   | a :: _ => ∃ out h', @filterDelegatedChildren ex_order ex_parent_nn a [c] h = Ok (out, h') ∧ ex_selected h' out = [[Some "/a/x"; Some "/a/y"]]
   | [] => False
   end).
Proof.
  split.
  - pose proof (ex_delegation_ok false ["/a/x"; "/b/x"; "/a"]) as Hex.
    destruct (ex_delegation false ["/a/x"; "/b/x"; "/a"]) as [[ms c] h] eqn:E.
    destruct Hex as (Hok & Hms & Hdom & Hmeta). destruct ms as [|a ms]; [discriminate E|].
    destruct (filterDelegatedChildren_exact ex_order h ex_parent_nn a [c] Hok (Forall_inv Hms)) as (out & h' & Hrun & _).
    + intros l Hl. vm_compute in E. injection E as <- <- <- <-. vm_compute in Hl. by apply elem_of_nil in Hl.
    + constructor; [exact Hdom|constructor].
    + apply NoDup_singleton.
    + exists out, h'. split; [exact Hrun|]. vm_compute in E. injection E as <- <- <- <-. vm_compute in Hrun. injection Hrun as <- <-. reflexivity.
  - pose proof (ex_delegation_ok true ["/x"; "/y"]) as Hex. destruct (ex_delegation true ["/x"; "/y"]) as [[ms c] h] eqn:E.
    destruct Hex as (Hok & Hms & Hdom & Hmeta). destruct ms as [|a ms]; [discriminate E|].
    destruct (filterDelegatedChildren_exact ex_order h ex_parent_nn a [c] Hok (Forall_inv Hms)) as (out & h' & Hrun & _).
    + intros l Hl. split.
      * vm_compute in E. injection E as <- <- <- <-. vm_compute in Hl. intros [= <-]. by repeat (apply elem_of_cons in Hl as [Hl|Hl]; [discriminate Hl|]); apply elem_of_nil in Hl.
      * intros c' r m ->%list_elem_of_singleton Hi. unfold inherits, shouldInheritMatcher in Hi. rewrite Hmeta in Hi. discriminate Hi.
    + constructor; [exact Hdom|constructor].
    + apply NoDup_singleton.
    + exists out, h'. split; [exact Hrun|]. vm_compute in E. injection E as <- <- <- <-. vm_compute in Hrun. injection Hrun as <- <-. reflexivity.
Defined.
