(* ===== verification/HttpRoute.v ===== *)
(** * httproute/: an HTTPRoute and the tree it delegates to become Gloo routes

    gateway_http_route_translator.go and delegation.go. The objects the recursion mutates
    are one [World]: the plugin state with the reports, the shared memory, the set of
    routes on the current branch and the delegation chain. The output slices are
    accumulators. *)

From stdpp Require Import base gmap strings list fin_maps sets.
From Stdlib Require Import ZArith Lia.
From S2P Require Import Prelude GoLib GwApi Reports Heap Query PluginApi Delegation.

Import Reports Query Delegation.

Record World := {
  w_ps : PState;
  w_heap : Heap;
  w_visited : gset NamespacedName;
  w_chain : list NamespacedName
}.

Definition on_ps {A} (m : M PState A) : M World A := λ w,
  match m (w_ps w) with
  | Ok (a, ps) => Ok (a, {| w_ps := ps; w_heap := w_heap w; w_visited := w_visited w; w_chain := w_chain w |})
  | Panic why => Panic why
  | OutOfFuel => OutOfFuel
  end.
Definition on_heap {A} (m : M Heap A) : M World A := λ w,
  match m (w_heap w) with
  | Ok (a, h) => Ok (a, {| w_ps := w_ps w; w_heap := h; w_visited := w_visited w; w_chain := w_chain w |})
  | Panic why => Panic why
  | OutOfFuel => OutOfFuel
  end.
Definition set_visited (f : gset NamespacedName → gset NamespacedName) : M World unit :=
  modify (λ w, {| w_ps := w_ps w; w_heap := w_heap w; w_visited := f (w_visited w); w_chain := w_chain w |}).
Definition set_chain (f : list NamespacedName → list NamespacedName) : M World unit :=
  modify (λ w, {| w_ps := w_ps w; w_heap := w_heap w; w_visited := w_visited w; w_chain := f (w_chain w) |}).
Definition report (hd : ParentRefReporter) (c : Condition) : M World unit :=
  on_ps (ps_report (ParentRefReporter_SetCondition hd c)).

Module HttpRoute.

(** ** Matchers *)
Definition translateGlooHeaderMatcher (header : HTTPHeaderMatch) : HeaderMatcher :=
  {| ghm_name := hm_name header; ghm_value := hm_value header;
     ghm_regex := ptr_is (hm_type header) MatchRegularExpression |}.

Definition parsePath (path : option HTTPPathMatch) : PathMatchType * string :=
  (default PathMatchPathPrefix (path ≫= pm_type), default "/" (path ≫= pm_value)).

Definition translateGlooMatcher (h : Heap) (match_ : MMatch) : Matcher :=
  let headers := map translateGlooHeaderMatcher (m_headers match_) in
  let queryParamMatchers := map (λ param,
    {| gqm_name := qm_name param; gqm_value := qm_value param; gqm_regex := false |}) (m_queryParams match_) in
  let '(pathType, pathValue) := parsePath (m_path match_ ≫= λ l, h_paths h !! l) in
  {| mt_path := match pathType with
                | PathMatchPathPrefix => Some (Prefix pathValue)
                | PathMatchExact => Some (Exact pathValue)
                | PathMatchRegularExpression => Some (Regex pathValue)
                | PathMatchOther _ => None
                end;
     mt_headers := headers;
     mt_queryParameters := queryParamMatchers;
     mt_methods := match m_method match_ with Some m => [m] | None => [] end |}.

(** ** Destinations *)
Definition ParameterGroup : string := "gloo.solo.io".
Definition ParameterKind : string := "Parameter".

Definition awsMissingFuncRefError : Err := ErrOther
  "upstreams must have a logical name specified in the backend ref via the parameters extensionref".
Definition azureMissingFuncRefError : Err := ErrOther
  "upstreams must have a function name specified in the backend ref via the parameters extensionref".
Definition nonFunctionUpstreamWithParameterError : Err := ErrOther
  "parameters extensionref is only supported for aws and azure upstreams".

Definition is_parameter_filter (f : HTTPRouteFilter) : bool :=
  bool_decide (f_type f = FilterExtensionRef) &&
  match f_extensionRef f with
  | None => false
  | Some r => bool_decide (lr_group r = ParameterGroup) && bool_decide (lr_kind r = ParameterKind)
  end.

Definition sectionName (filters : list HTTPRouteFilter) : string :=
  match List.find is_parameter_filter filters with
  | Some f => from_option lr_name "" (f_extensionRef f)
  | None => ""
  end.

Definition makeDestinationSpec (t : UpstreamType) (filters : list HTTPRouteFilter) : result (option DestinationSpec) :=
  let sectionName := sectionName filters in
  match t with
  | UpstreamAws => if bool_decide (sectionName = "") then inl awsMissingFuncRefError
                   else inr (Some (DestAws sectionName))
  | UpstreamAzure => if bool_decide (sectionName = "") then inl azureMissingFuncRefError
                     else inr (Some (DestAzure sectionName))
  | UpstreamOther => if bool_decide (sectionName = "") then inr None
                     else inl nonFunctionUpstreamWithParameterError
  end.

(** One backendRef that is not a delegation. *)
Definition add_destination (gwroute : HTTPRouteInfo) (reporter : ParentRefReporter) (backendRef : HTTPBackendRef)
    (ds : list WeightedDestination) : M World (list WeightedDestination) :=
  let ref := hb_ref backendRef in
  let r := hi_GetBackendForRef gwroute ref in
  ptrClusterName <~ on_ps (ps_reporting (ProcessBackendRef r reporter ref)) ;;
  let '(clusterName, ns) := match ptrClusterName, r with
                            | Some c, inr obj => (c, obj_namespace obj)
                            | _, _ => ("blackhole_cluster", "blackhole_ns")
                            end in
  let weight := match hb_weight backendRef with Some w => wrap_u32 w | None => 1%Z end in
  let port := match br_port ref with Some p => wrap_u32 p | None => 0%Z end in
  let dref := {| rf_name := clusterName; rf_namespace := ns |} in
  let add ty spec := ds ++ [{| wd_destination := {| d_type := ty; d_spec := spec |}; wd_weight := weight |}] in
  if Backendref.RefIsService ref then ret (add (DestKube dref port) None)
  else if Backendref.RefIsUpstream ref then
    match r with
    | inr (OUpstream _ t) =>
        match makeDestinationSpec t (hb_filters backendRef) with
        | inl err =>
            do! report reporter (resolved_refs_false "BackendNotFound" (err_msg err)) ;; ret ds
        | inr spec => ret (add (DestUpstream dref) spec)
        end
    | _ => ret ds
    end
  else
    (* the log message dereferences both pointers *)
    do! deref "backendRef.Kind" (br_kind ref) ;;
    do! deref "backendRef.Group" (br_group ref) ;;
    ret ds.

Definition destination_action (ds : list WeightedDestination) (outputRoute : Route) : Route :=
  match ds with
  | [] => outputRoute
  | [d] => rt_set_action (Some (ARouteAction (Single (wd_destination d)))) outputRoute
  | _ => rt_set_action (Some (ARouteAction (Multi ds))) outputRoute
  end.

(** ** Delegation *)
Definition validateChildRoute {R} (route : HTTPRoute R) : option Err :=
  match hostnames_of route with
  | [] => None
  | _ => Some (ErrOther "spec.hostnames must be unset on a delegatee route as they are inherited from the parent route")
  end.

Definition loop_message (parentRef childRef : NamespacedName) : string :=
  "cyclic reference detected while evaluating delegated routes for parent: " +:+ nn_string parentRef +:+
  "; child route " +:+ nn_string childRef +:+ " will be ignored".

Definition rule_with_matches (rule : MRule) : MRule :=
  match r_matches rule with
  | Some _ => rule
  | None => {| r_matches := Some [{| m_path := None; m_headers := []; m_queryParams := []; m_method := None |}];
               r_filters := r_filters rule; r_backendRefs := r_backendRefs rule |}
  end.

Section Translate.
Context `{!GoRange string} `{!RoutePlugins}.
Context (gwListener : Listener).

(** The recursive call: [translateGatewayHTTPRouteRulesUtil] with its outputs. *)
Definition Translate : Type :=
  HTTPRouteInfo → ParentRefReporter → list string → list Route → M World (list Route).

(** One child of a delegation. *)
Definition flatten_child (rec : Translate) (parentRef : NamespacedName) (hostnames : list string)
    (parentReporter : ParentRefReporter) (child : HTTPRouteInfo) (outputs : list Route) : M World (list Route) :=
  let childRef := hi_nn child in
  visited <~ gets w_visited ;;
  if bool_decide (childRef ∈ visited) then
    do! report parentReporter (resolved_refs_false "RefNotPermitted" (loop_message parentRef childRef)) ;;
    ret outputs
  else
    reporter <~ on_ps (ps_reporting (route_parent_reporter (hi_route child) (delegation_parent_ref parentRef))) ;;
    match validateChildRoute (hi_route child) with
    | Some err =>
        do! report reporter (report_condition "Accepted" ConditionFalse "UnsupportedValue" (err_msg err)) ;;
        ret outputs
    | None => rec child reporter hostnames outputs
    end.

Definition flattenDelegatedRoutes (rec : Translate) (parent : HTTPRouteInfo) (backendRef : HTTPBackendRef)
    (parentReporter : ParentRefReporter) (parentMatch : MMatch) (outputs : list Route) :
    M World (option Err * list Route) :=
  let parentRef := hi_nn parent in
  do! set_visited (λ v, {[parentRef]} ∪ v) ;;
  do! set_chain (cons parentRef) ;;
  res <~ match GetChildrenForRef parent (hb_ref backendRef) with
         | inl err => ret (Some err, outputs)
         | inr [] => ret (Some (ErrOther ("unresolved reference " +:+ Backendref.ToString (hb_ref backendRef))), outputs)
         | inr rawChildren =>
             children <~ on_heap (filterDelegatedChildren parentRef parentMatch rawChildren) ;;
             outputs <~ fold_range 0 children outputs (λ _ child outputs,
               flatten_child rec parentRef (hostnames_of (hi_route parent)) parentReporter child outputs) ;;
             ret (None, outputs)
         end ;;
  (* the deferred calls *)
  do! set_chain (@tail _) ;;
  do! set_visited (λ v, v ∖ {[parentRef]}) ;;
  ret res.

Definition setRouteAction (rec : Translate) (gwroute : HTTPRouteInfo) (rule : MRule) (outputRoute : Route)
    (reporter : ParentRefReporter) (match_ : MMatch) (outputs : list Route) :
    M World (bool * Route * list Route) :=
  acc <~ fold_range 0 (r_backendRefs rule) ([], false, outputs) (λ _ backendRef '(ds, delegates, outputs),
    if Backendref.RefIsHTTPRoute (hb_ref backendRef) then
      r <~ flattenDelegatedRoutes rec gwroute backendRef reporter match_ outputs ;;
      match r.1 with
      | Some err => do! on_ps (ps_report (ProcessBackendError err reporter)) ;; ret (ds, true, r.2)
      | None => ret (ds, true, r.2)
      end
    else
      ds <~ add_destination gwroute reporter backendRef ds ;;
      ret (ds, delegates, outputs)) ;;
  let '(ds, delegates, outputs) := acc in
  ret (delegates, destination_action ds outputRoute, outputs).

(** ** Rules *)
Definition apply_plugin (p : RoutePlugin) (rc : RouteContext) (r : Route) : M World Route :=
  h <~ gets w_heap ;;
  out <~ on_ps (p h rc r) ;;
  ret out.2.

(** Every plugin runs on the output route and then on every delegated one; errors are
    only logged. *)
Definition apply_plugins (rc : RouteContext) (outputRoute : Route) (delegatedRoutes : list Route) :
    M World (Route * list Route) :=
  fold_range 0 route_plugins (outputRoute, delegatedRoutes) (λ _ plugin '(outputRoute, delegatedRoutes),
    outputRoute <~ apply_plugin plugin rc outputRoute ;;
    delegatedRoutes <~ fold_range 0 delegatedRoutes [] (λ _ child out,
      child <~ apply_plugin plugin rc child ;; ret (out ++ [child])) ;;
    ret (outputRoute, delegatedRoutes)).

Definition internal_error_action : Action := ADirectResponseAction 500 "".

Definition translate_match (rec : Translate) (gwroute : HTTPRouteInfo) (rule : MRule) (ruleIdx : nat)
    (reporter : ParentRefReporter) (hostnames : list string) (idx : nat) (match_ : MMatch)
    (acc : list Route * list (option Route)) : M World (list Route * list (option Route)) :=
  let '(outputs, routes) := acc in
  h <~ gets w_heap ;;
  let outputRoute :=
    {| rt_matchers := [translateGlooMatcher h match_]; rt_action := None; rt_options := empty_route_options;
       rt_name := UniqueRouteName gwroute ruleIdx idx; rt_metadata := None |} in
  set <~ (if bool_decide (r_backendRefs rule = []) then ret (false, outputRoute, [])
          else setRouteAction rec gwroute rule outputRoute reporter match_ []) ;;
  let '(delegates, outputRoute, delegatedRoutes) := set in
  chain <~ gets w_chain ;;
  let rtCtx := {| rc_listener := gwListener; rc_route := hi_route gwroute; rc_hostnames := hostnames;
                  rc_chain := chain; rc_rule := Some rule; rc_match := Some match_; rc_reporter := reporter |} in
  pl <~ apply_plugins rtCtx outputRoute delegatedRoutes ;;
  let '(outputRoute, delegatedRoutes) := pl in
  let outputs := outputs ++ delegatedRoutes in
  let outputRoute := match rt_action outputRoute with
                     | None => if delegates then outputRoute
                               else rt_set_action (Some internal_error_action) outputRoute
                     | Some _ => outputRoute
                     end in
  match rt_action outputRoute with
  | None => ret (outputs, routes ++ [None])
  | Some _ =>
      h <~ gets w_heap ;;
      ret (outputs, routes ++ [Some (rt_set_matchers [translateGlooMatcher h match_] outputRoute)])
  end.

Definition translateGatewayHTTPRouteRule (rec : Translate) (gwroute : HTTPRouteInfo) (rule : MRule) (ruleIdx : nat)
    (reporter : ParentRefReporter) (outputs : list Route) (hostnames : list string) :
    M World (list Route * list (option Route)) :=
  fold_range 0 (default [] (r_matches rule)) (outputs, []) (λ idx match_ acc,
    translate_match rec gwroute rule ruleIdx reporter hostnames idx match_ acc).

Fixpoint translateGatewayHTTPRouteRulesUtil (fuel : nat) : Translate :=
  λ route reporter hostnames outputs,
  match fuel with
  | O => no_fuel
  | S fuel =>
      let loc := hr_rules (hi_route route) in
      rules <~ on_heap (read_rules loc) ;;
      fold_range 0 rules outputs (λ ruleIdx _ outputs,
        rule <~ on_heap (read_rule loc ruleIdx) ;;
        out <~ translateGatewayHTTPRouteRule (translateGatewayHTTPRouteRulesUtil fuel) route
                 (rule_with_matches rule) ruleIdx reporter outputs hostnames ;;
        ret (out.1 ++ omap id out.2))
  end.

(** [fuel]: the depth of the delegation tree, [info_depth route], is enough. The visited
    set and the chain are created empty. *)
Definition TranslateGatewayHTTPRouteRules (fuel : nat) (route : HTTPRouteInfo) (reporter : ParentRefReporter) :
    M (PState * Heap) (list Route) := λ s,
  match translateGatewayHTTPRouteRulesUtil fuel route reporter (hostnames_of (hi_route route)) []
          {| w_ps := s.1; w_heap := s.2; w_visited := ∅; w_chain := [] |} with
  | Ok (routes, w) => Ok (routes, (w_ps w, w_heap w))
  | Panic why => Panic why
  | OutOfFuel => OutOfFuel
  end.
End Translate.
End HttpRoute.
