(* ===== verification/HttpRouteFacts.v ===== *)
(** * Properties of the HTTPRoute translation *)

From stdpp Require Import base gmap strings list fin_maps sets.
From Stdlib Require Import ZArith Lia.
From S2P Require Import Prelude GoLib GwApi Reports Heap Query QueryFacts PluginApi Delegation DelegationFacts HttpRoute.

Import Reports Query Delegation HttpRoute.

(** ** Lifting *)
Definition with_ps (ps : PState) (w : World) : World :=
  {| w_ps := ps; w_heap := w_heap w; w_visited := w_visited w; w_chain := w_chain w |}.
Definition with_heap (h : Heap) (w : World) : World :=
  {| w_ps := w_ps w; w_heap := h; w_visited := w_visited w; w_chain := w_chain w |}.

Lemma with_heap_id w : with_heap (w_heap w) w = w.
Proof. by destruct w. Qed.

Lemma wp_on_ps {A} (m : M PState A) Q w :
  wp m (λ a ps, Q a (with_ps ps w)) (w_ps w) → wp (on_ps m) Q w.
Proof. unfold wp, on_ps. by destruct (m (w_ps w)) as [[a ps]| |]. Qed.
Lemma wp_on_heap {A} (m : M Heap A) Q w :
  wp m (λ a h, Q a (with_heap h w)) (w_heap w) → wp (on_heap m) Q w.
Proof. unfold wp, on_heap. by destruct (m (w_heap w)) as [[a h]| |]. Qed.
(** ** What a step of the translation may change *)
Record step (w : World) (touched : loc → Prop) (w' : World) : Prop := {
  st_ok : heap_ok (w_heap w');
  st_le : heap_le (w_heap w) (w_heap w');
  st_frame : frame (w_heap w) (w_heap w') touched;
  st_visited : w_visited w' = w_visited w;
  st_chain : w_chain w' = w_chain w;
  st_reports : reports_le (ps_reports (w_ps w)) (ps_reports (w_ps w'))
}.

Lemma step_refl w T : heap_ok (w_heap w) → step w T w.
Proof. by split. Qed.

Lemma step_trans w1 w2 w3 T : step w1 T w2 → step w2 T w3 → step w1 T w3.
Proof.
  intros [? Hle1 Hf1 ? ? ?] [? Hle2 Hf2 ? ? ?]. split; [done|by etrans| |congruence|congruence|by etrans].
  intros l Hl HT. rewrite Hf2; [by apply Hf1| |done]. destruct Hle1. set_solver.
Qed.

Lemma step_weaken w w' (T T' : loc → Prop) : (∀ l, T l → T' l) → step w T w' → step w T' w'.
Proof. intros HT [? ? Hf ? ? ?]. split; try done. intros l Hl Hn. apply Hf; naive_solver. Qed.

(** Only the plugin state changes. *)
Lemma step_ps w T ps :
  heap_ok (w_heap w) → reports_le (ps_reports (w_ps w)) (ps_reports ps) → step w T (with_ps ps w).
Proof. by split. Qed.

Lemma wp_report w hd c T (Q : unit → World → Prop) :
  heap_ok (w_heap w) → (∀ w', step w T w' → w_heap w' = w_heap w → Q tt w') → wp (report hd c) Q w.
Proof.
  intros Hok HQ. unfold report. apply wp_on_ps, wp_ps_report, HQ; [|done].
  apply step_ps; [done|]. apply set_condition_le.
Qed.

Lemma ProcessBackendError_le e hd rm : reports_le rm (ProcessBackendError e hd rm).
Proof. apply set_condition_le. Qed.

Lemma ProcessBackendRef_le r hd ref rm : reports_le rm (ProcessBackendRef r hd ref rm).2.
Proof. unfold ProcessBackendRef. repeat case_match; simpl; done || apply set_condition_le. Qed.

(** ** Routes and trees *)
Definition matcher_ok (r : Route) : Prop := ∃ m p, rt_matchers r = [m] ∧ mt_path m = Some p.

Inductive tree_nn : HTTPRouteInfo → NamespacedName → Prop :=
| tree_nn_here i : tree_nn i (hi_nn i)
| tree_nn_below i k cs c n :
    (k, cs) ∈ bm_items (hi_children i) → c ∈ cs → tree_nn c n → tree_nn i n.

Definition unique_name (n : NamespacedName) (ruleIdx matchIdx : nat) : string :=
  nn_name n +:+ "-" +:+ nn_ns n +:+ "-" +:+ itoa ruleIdx +:+ "-" +:+ itoa matchIdx.

(** An output route: one matcher with a path, an action, and the name of a rule and match
    of a route of the tree. *)
Definition output_ok (i : HTTPRouteInfo) (r : Route) : Prop :=
  matcher_ok r ∧ is_Some (rt_action r) ∧ ∃ n a b, tree_nn i n ∧ rt_name r = unique_name n a b.

Definition extends (i : HTTPRouteInfo) (outputs out : list Route) : Prop :=
  ∃ new, out = outputs ++ new ∧ Forall (output_ok i) new.

Lemma extends_refl i outputs : extends i outputs outputs.
Proof. exists []. by rewrite app_nil_r. Qed.
Lemma extends_trans i o1 o2 o3 : extends i o1 o2 → extends i o2 o3 → extends i o1 o3.
Proof.
  intros (n1 & -> & ?) (n2 & -> & ?). exists (n1 ++ n2).
  split; [by rewrite (assoc_L (++))|by apply Forall_app].
Qed.
Lemma extends_child i k cs c outputs out :
  (k, cs) ∈ bm_items (hi_children i) → c ∈ cs → extends c outputs out → extends i outputs out.
Proof.
  intros Hk Hc (new & -> & Hnew). exists new. split; [done|]. eapply Forall_impl; [exact Hnew|].
  intros r (?&?& n & a & b & ? & ?). split_and!; [done..|]. exists n, a, b. split; [|done].
  by eapply tree_nn_below.
Qed.

(** A selected child denotes the same tree as its original. *)
Lemma tree_nn_selected l c n : tree_nn (set_route_rules l (Clone c)) n ↔ tree_nn c n.
Proof.
  split; inversion 1; subst; try (by eapply tree_nn_below);
    [exact (tree_nn_here c)|exact (tree_nn_here (set_route_rules l (Clone c)))].
Qed.
Lemma below_selected l c l' : below (set_route_rules l (Clone c)) l' ↔ below c l'.
Proof. done. Qed.
Lemma acyclic_selected anc l c : acyclic anc c → acyclic anc (set_route_rules l (Clone c)).
Proof. inversion 1; subst. by constructor. Qed.
Lemma wf_info_selected h l c :
  l ∈ dom (h_rules h) → wf_info h c → wf_info h (set_route_rules l (Clone c)).
Proof. inversion 2; subst. by constructor. Qed.

Lemma max_list_with_ge {A} (f : A → nat) l x : x ∈ l → f x ≤ max_list_with f l.
Proof. induction 1; simpl; lia. Qed.

Lemma info_depth_child i k cs c :
  (k, cs) ∈ bm_items (hi_children i) → c ∈ cs → info_depth c < info_depth i.
Proof.
  intros Hk Hc. destruct i as [r p o b ch]. simpl in *. apply le_n_S.
  trans (max_list_with info_depth cs).
  - by apply (max_list_with_ge info_depth).
  - by apply (max_list_with_ge (λ kv : string * list HTTPRouteInfo, max_list_with info_depth kv.2) (bm_items ch) (k, cs)).
Qed.

Lemma info_depth_selected l c : info_depth (set_route_rules l (Clone c)) = info_depth c.
Proof. by destruct c. Qed.

(** ** Matchers *)
Lemma translateGlooMatcher_path h m :
  heap_ok h → m_path m = None ∨ match_ok h m → ∃ p, mt_path (translateGlooMatcher h m) = Some p.
Proof.
  intros Hok Hm. unfold translateGlooMatcher, parsePath; simpl.
  destruct Hm as [->|Hm]; [by eexists|].
  destruct (match_path_complete _ _ Hok Hm) as (l & p & -> & Hp & (t & Ht & Hkn) & _).
  simpl. rewrite Hp. simpl. rewrite Ht. destruct t; [by eexists..|done].
Qed.

Section Facts.
Context `{!GoRange string} `{!RoutePlugins} (gwListener : Listener).

Lemma add_destination_ok i hd b ds w T :
  heap_ok (w_heap w) → ref_ok (hb_ref b) → wp (add_destination i hd b ds) (λ _ w', step w T w') w.
Proof.
  intros Hok [[g Hg] [k Hk]]. unfold add_destination. wp_step. apply wp_on_ps, wp_ps_reporting.
  set (w1 := with_ps _ w).
  assert (step w T w1) as Hst by (apply step_ps; [done|apply ProcessBackendRef_le]).
  set (cn := match _, hi_GetBackendForRef i (hb_ref b) with Some _, _ => _ | _, _ => _ end).
  destruct cn as [cn ns]. destruct (Backendref.RefIsService _); [by apply wp_ret|].
  destruct (Backendref.RefIsUpstream _).
  - destruct (hi_GetBackendForRef i (hb_ref b)) as [|[]]; try by apply wp_ret.
    destruct (makeDestinationSpec _ _); [|by apply wp_ret]. wp_step.
    eapply wp_report; [apply Hst|]. intros w' Hst' _. apply wp_ret. by eapply step_trans.
  - wp_step. eapply wp_deref; [done|]. wp_step. eapply wp_deref; [done|]. by apply wp_ret.
Qed.

Lemma apply_plugin_ok p rc r w T :
  p ∈ route_plugins → context_ok (w_heap w) rc →
  wp (apply_plugin p rc r) (λ r' w', step w T w' ∧ w_heap w' = w_heap w ∧
    rt_matchers r' = rt_matchers r ∧ rt_name r' = rt_name r ∧
    (is_Some (rt_action r) → is_Some (rt_action r'))) w.
Proof.
  intros Hp Hc. pose proof route_plugins_ok as Hall. rewrite Forall_forall in Hall.
  unfold apply_plugin. do 2 wp_step. wp_step. apply wp_on_ps.
  eapply wp_mono; [by apply Hall|]. intros out ps' (?&?&?&?). apply wp_ret.
  split_and!; [|done..]. apply step_ps; [apply Hc|done].
Qed.

Definition same_shape (r r' : Route) : Prop :=
  rt_matchers r' = rt_matchers r ∧ rt_name r' = rt_name r ∧
  (is_Some (rt_action r) → is_Some (rt_action r')).

Lemma apply_plugins_ok rc r ds w T :
  context_ok (w_heap w) rc →
  wp (apply_plugins rc r ds) (λ out w', step w T w' ∧ w_heap w' = w_heap w ∧
    same_shape r out.1 ∧ Forall2 same_shape ds out.2) w.
Proof.
  intros Hc. unfold apply_plugins.
  apply (wp_fold_range (λ out w', step w T w' ∧ w_heap w' = w_heap w ∧
    same_shape r out.1 ∧ Forall2 same_shape ds out.2)).
  { split_and!; [apply step_refl, Hc|done|done|]. apply Forall_Forall2_diag.
    apply Forall_forall. done. }
  intros _ p [r1 ds1] w1 Hp (Hst1 & Hh1 & Hr1 & Hds1). wp_step.
  eapply wp_mono; [apply (apply_plugin_ok _ _ _ _ T); [done|by rewrite Hh1]|].
  intros r2 w2 (Hst2 & Hh2 & Hr2). wp_step.
  eapply wp_mono; [apply (wp_fold_range_prefix (λ done_ out w', step w2 T w' ∧ w_heap w' = w_heap w2 ∧
    Forall2 same_shape done_ out) _ _ 0 [])|].
  - split_and!; [apply step_refl, Hst2|done|constructor].
  - intros _ pre d out w3 _ (Hst3 & Hh3 & Hout). wp_step.
    eapply wp_mono; [apply (apply_plugin_ok _ _ _ _ T); [done|by rewrite Hh3, Hh2, Hh1]|].
    intros d' w4 (Hst4 & Hh4 & Hd'). apply wp_ret. split_and!; [by eapply step_trans|congruence|].
    apply Forall2_app; [done|]. by constructor.
  - intros out w3 (Hst3 & Hh3 & Hout). apply wp_ret. split_and!.
    + eapply step_trans; [exact Hst1|]. by eapply step_trans.
    + congruence.
    + destruct Hr1 as (?&?&?), Hr2 as (?&?&?). simpl in *. split_and!; [congruence|congruence|auto].
    + eapply Forall2_trans; [|exact Hds1|exact Hout].
      intros a b c (?&?&?) (?&?&?). split_and!; [congruence|congruence|auto].
Qed.

(** ** The recursion *)

(** A route whose tree can be translated from [w]: well formed, acyclic below the routes
    of the current branch, with explicit matches, and its own rules array not used again
    below it. *)
Record translatable (w : World) (i : HTTPRouteInfo) : Prop := {
  tr_wf : wf_info (w_heap w) i;
  tr_acyclic : acyclic (w_visited w) i;
  tr_ready : ∃ rs, h_rules (w_heap w) !! hr_rules (hi_route i) = Some rs ∧ Forall rule_ready rs;
  tr_below : ¬ below i (hr_rules (hi_route i))
}.

Definition translate_spec (n : nat) (rec : Translate) : Prop :=
  ∀ i hd hs outputs w, info_depth i ≤ n → heap_ok (w_heap w) → translatable w i →
    wp (rec i hd hs outputs) (λ out w', step w (below i) w' ∧ extends i outputs out) w.

(** From a step that spares the rules array of a route, the route stays translatable. *)
Lemma translatable_step w w' T i :
  step w T w' → ¬ T (hr_rules (hi_route i)) → translatable w i → translatable w' i.
Proof.
  intros [Hok Hle Hf Hv _ _] HT [Hwf Hac (rs & Hrs & Hrd) Hb]. split; [by eapply wf_info_mono|by rewrite Hv| |done].
  exists rs. split; [|done]. rewrite Hf; [done| |done]. apply elem_of_dom. by exists rs.
Qed.

Lemma flatten_child_ok n rec parent k cs c l hs hd outputs w :
  translate_spec n rec → (k, cs) ∈ bm_items (hi_children parent) → c ∈ cs → info_depth c ≤ n →
  let c' := set_route_rules l (Clone c) in
  heap_ok (w_heap w) → translatable w c' →
  wp (flatten_child rec (hi_nn parent) hs hd c' outputs)
    (λ out w', step w (below parent) w' ∧ extends parent outputs out) w.
Proof.
  intros Hrec Hk Hc Hdepth c' Hok Htr. unfold flatten_child. do 2 wp_step.
  case_bool_decide as Hv; [destruct Htr as [_ Hac _ _]; by inversion Hac|].
  wp_step. apply wp_on_ps, wp_ps_reporting.
  pose proof (route_parent_reporter_le (hi_route c') (delegation_parent_ref (hi_nn parent)) (ps_reports (w_ps w)))
    as Hrep. destruct (route_parent_reporter _ _ _) as [hd' rm']. destruct Hrep as [Hrep _]. simpl.
  set (w1 := with_ps _ w). assert (step w (below parent) w1) as Hst by by apply step_ps.
  destruct (validateChildRoute _).
  - wp_step. eapply wp_report; [done|]. intros w2 Hst2 _. apply wp_ret.
    split; [by eapply step_trans|apply extends_refl].
  - eapply wp_mono; [apply Hrec; [unfold c'; by rewrite info_depth_selected|done|]|].
    { destruct Htr. by split. }
    intros out w2 [Hst2 Hout].  split.
    + eapply step_trans; [done|]. eapply step_weaken; [|done].
      intros l' (k' & cs' & c2 & ? & ? & ?). exists k, cs, c. split_and!; [done..|].
      by eapply tree_loc_below.
    + eapply extends_child; [done..|]. destruct Hout as (new & -> & Hnew). exists new. split; [done|].
      eapply Forall_impl; [exact Hnew|]. intros r (?&?& nn & a & b & Hnn & ?).
      split_and!; [done..|]. exists nn, a, b. split; [|done]. by apply tree_nn_selected in Hnn.
Qed.

Lemma flattenDelegatedRoutes_ok n rec parent b hd m outputs w :
  translate_spec n rec → info_depth parent ≤ S n → heap_ok (w_heap w) → match_ok (w_heap w) m →
  wf_info (w_heap w) parent → acyclic (w_visited w) parent →
  wp (flattenDelegatedRoutes rec parent b hd m outputs)
    (λ r w', step w (below parent) w' ∧ extends parent outputs r.2) w.
Proof.
  intros Hrec Hdepth Hok Hm Hwf Hac. unfold flattenDelegatedRoutes, set_visited, set_chain.
  inversion Hac as [i0 Hnv Hkids]; subst. inversion Hwf as [i' Hdom Hwfk]; subst.
  do 2 wp_step. do 2 wp_step. wp_step.
  set (w0 := {| w_ps := w_ps w; w_heap := w_heap w; w_visited := {[hi_nn parent]} ∪ w_visited w;
                w_chain := hi_nn parent :: w_chain w |}).
  eapply (wp_mono _ (λ r w', step w0 (below parent) w' ∧ extends parent outputs r.2)); last first.
  { intros [e out] w' [[? ? ? Hv Hch ?] Hext]. do 4 wp_step. apply wp_ret. split; [|done].
    split; simpl; [done..| |by rewrite Hch|done]. rewrite Hv. simpl. set_solver. }
  destruct (GetChildrenForRef parent (hb_ref b)) as [e|cs] eqn:Eget.
  { apply wp_ret. split; [by apply step_refl|apply extends_refl]. }
  apply bm_get_in in Eget. set (key := backendToRefKey (hb_ref b)) in *.
  destruct cs as [|c0 cs0]; [apply wp_ret; split; [by apply step_refl|apply extends_refl]|].
  set (cs := c0 :: cs0) in *. wp_step. apply wp_on_heap.
  eapply wp_mono; [apply (filterDelegatedChildren_ok (w_heap w) (hi_nn parent) m cs); [done|done|]|].
  { apply Forall_forall. intros c Hc. specialize (Hwfk _ _ _ Eget Hc). by inversion Hwfk. }
  intros sel h1 (Hok1 & Hle1 & Hfr1 & Hsel). set (w1 := with_heap h1 w0).
  assert (step w0 (below parent) w1) as Hst1.
  { split; [done|done| |done..]. intros l Hl Hn. apply Hfr1; [done|]. intros (c & Hc & <-). apply Hn.
    exists key, cs, c. split_and!; [done..|apply tree_loc_here]. }
  assert (∀ c', c' ∈ sel → ∃ c l, c ∈ cs ∧ c' = set_route_rules l (Clone c) ∧ (¬ below parent l) ∧ 
    translatable w1 c') as Htr.
  { intros c' Hc'. rewrite Forall_forall in Hsel. destruct (Hsel _ Hc') as (c & l & rs & Hc & -> & Hl & Hrs & Hrd).
    assert (¬ below parent l) as Hnb by (intros Hb; by eapply Hl, wf_info_below).
    exists c, l. split_and!; [done..|]. split.
    - apply wf_info_selected; [apply elem_of_dom; by exists rs|]. eapply wf_info_mono; [done|]. by eapply Hwfk.
    - apply acyclic_selected. by eapply Hkids.
    - by exists rs.
    - intros (k' & cs' & c2 & ? & ? & ?). apply Hnb. exists key, cs, c. split_and!; [done..|].
      by eapply tree_loc_below. }
  wp_step. eapply wp_mono; [apply (wp_fold_range (λ out w', step w1 (below parent) w' ∧ extends parent outputs out))|].
  - split; [by apply step_refl|apply extends_refl].
  - intros _ c' out w2 Hc' [Hst2 Hext2]. destruct (Htr _ Hc') as (c & l & Hc & -> & Hnb & Htrc).
    eapply wp_mono; [eapply (flatten_child_ok n); [done|done|done| |apply Hst2|by eapply translatable_step]|].
    + pose proof (info_depth_child _ _ _ _ Eget Hc). lia.
    + intros out' w3 [Hst3 Hext3]. split; [by eapply step_trans|by eapply extends_trans].
  - intros out w2 [Hst2 Hext2]. apply wp_ret. split; [by eapply step_trans|done].
Qed.

(** What a rule of a route needs to be translated in [w]. *)
Definition rule_context (n : nat) (w : World) (i : HTTPRouteInfo) (rule : MRule) : Prop :=
  info_depth i ≤ S n ∧ heap_ok (w_heap w) ∧ wf_info (w_heap w) i ∧ acyclic (w_visited w) i ∧
  rule_ok (w_heap w) rule.

Lemma rule_context_step n w w' T i rule :
  step w T w' → rule_context n w i rule → rule_context n w' i rule.
Proof.
  intros [Hok Hle _ Hv _ _] (?&?&?&?&?).
  split_and!; [done|done|by eapply wf_info_mono|by rewrite Hv|by eapply rule_ok_mono].
Qed.

Lemma setRouteAction_ok n rec i rule r hd m outputs w :
  translate_spec n rec → rule_context n w i rule → match_ok (w_heap w) m →
  wp (setRouteAction rec i rule r hd m outputs) (λ out w', step w (below i) w' ∧
    extends i outputs out.2 ∧ same_shape r out.1.2) w.
Proof.
  intros Hrec Hctx Hm. unfold setRouteAction. wp_step.
  eapply wp_mono; [apply (wp_fold_range (λ acc w', step w (below i) w' ∧ extends i outputs acc.2))|].
  - split; [by apply step_refl, Hctx|apply extends_refl].
  - intros _ b [[ds del] outs] w1 Hb [Hst Hext]. simpl in *.
    pose proof (rule_context_step _ _ _ _ _ _ Hst Hctx) as (Hd1 & Hok1 & Hwf1 & Hac1 & _ & _ & Hrefs).
    rewrite Forall_forall in Hrefs.
    destruct (Backendref.RefIsHTTPRoute _).
    + wp_step. eapply wp_mono; [apply (flattenDelegatedRoutes_ok n); try done|].
      { eapply match_ok_mono; [apply Hst|done]. }
      intros [e out] w2 [Hst2 Hext2]. simpl in *.
      assert (step w (below i) w2) as Hst' by by eapply step_trans.
      destruct e as [e|]; [|apply wp_ret; split; [done|by eapply extends_trans]].
      wp_step. apply wp_on_ps, wp_ps_report, wp_ret. split; [|by eapply extends_trans].
      eapply step_trans; [done|]. apply step_ps; [apply Hst'|apply ProcessBackendError_le].
    + wp_step. eapply wp_mono; [apply (add_destination_ok _ _ _ _ _ (below i)); [done|by apply Hrefs]|].
      intros ds' w2 Hst2. apply wp_ret. split; [by eapply step_trans|done].
  - intros [[ds del] outs] w1 [Hst Hext]. apply wp_ret. split_and!; [done|done|].
    destruct ds as [|d [|d2 ds]]; simpl; split_and!; try done; intros; by eexists.
Qed.

Definition routes_ok (i : HTTPRouteInfo) (routes : list (option Route)) : Prop :=
  Forall (λ o, ∀ r, o = Some r → output_ok i r) routes.

Lemma output_ok_shape i r r' : same_shape r r' → output_ok i r → output_ok i r'.
Proof.
  intros (Hm & Hn & Ha) ((m & p & Hr & Hp) & Hact & nn & a & b & Hnn & Hname).
  split_and!; [|auto|].
  - exists m, p. by rewrite Hm.
  - exists nn, a, b. by rewrite Hn.
Qed.

Lemma translate_match_ok n rec i rule ruleIdx hd hs idx m outputs routes w :
  translate_spec n rec → rule_context n w i rule → match_ok (w_heap w) m → routes_ok i routes →
  wp (translate_match gwListener rec i rule ruleIdx hd hs idx m (outputs, routes))
    (λ acc w', step w (below i) w' ∧ extends i outputs acc.1 ∧ routes_ok i acc.2) w.
Proof.
  intros Hrec Hctx Hm Hroutes. unfold translate_match. do 2 wp_step.
  set (r0 := {| rt_matchers := _ |}). wp_step.
  eapply (wp_mono _ (λ out w', step w (below i) w' ∧ extends i [] out.2 ∧ same_shape r0 out.1.2)).
  { case_bool_decide; [|by eapply setRouteAction_ok].
    apply wp_ret. split_and!; [by apply step_refl, Hctx|apply extends_refl|done..]. }
  intros [[del r1] ds] w1 (Hst1 & Hext1 & Hr1). do 2 wp_step. simpl in *.
  assert (match_ok (w_heap w1) m) as Hm1 by (eapply match_ok_mono; [apply Hst1|done]).
  wp_step. eapply wp_mono; [apply (apply_plugins_ok _ _ _ _ (below i))|].
  { split_and!; simpl; [apply Hst1|by eexists| |].
    - intros ? [= <-]. eapply rule_ok_mono; [apply Hst1|apply Hctx].
    - intros ? [= <-]. by right. }
  intros [r2 ds2] w2 (Hst2 & Hh2 & Hr2 & Hds2). simpl in *.
  assert (step w (below i) w2) as Hst by by eapply step_trans.
  assert (extends i outputs (outputs ++ ds2)) as Hext.
  { exists ds2. split; [done|]. destruct Hext1 as (new & -> & Hnew). simpl in Hds2.
    clear -Hds2 Hnew. induction Hds2 as [|d d' ds ds' Hd _ IH]; [done|].
    apply Forall_cons in Hnew as [? ?]. constructor; [by eapply output_ok_shape|auto]. }
  destruct Hr1 as (Hrm1 & Hrn1 & _), Hr2 as (Hrm2 & Hrn2 & _).
  set (r3 := match rt_action r2 with Some _ => r2 | None => _ end).
  assert (rt_name r2 = rt_name r0) as Hname2 by (etrans; [exact Hrn2|exact Hrn1]).
  assert (rt_name r3 = rt_name r0) as Hname by (unfold r3; by destruct (rt_action r2), del).
  destruct (rt_action r3) as [a|] eqn:Ea.
  - do 2 wp_step. apply wp_ret. split_and!; [done|done|].
    apply Forall_app. split; [done|]. constructor; [|constructor]. intros r [= <-]. split_and!; simpl.
    + destruct (translateGlooMatcher_path (w_heap w2) m) as [p Hp]; [apply Hst|right; by rewrite Hh2|].
      by eexists _, p.
    + rewrite Ea. by eexists.
    + exists (hi_nn i), ruleIdx, idx. split; [apply tree_nn_here|]. by rewrite Hname.
  - apply wp_ret. split_and!; [done|done|]. apply Forall_app. split; [done|].
    constructor; [done|constructor].
Qed.

Lemma translate_rule_ok n rec i rule ruleIdx hd hs outputs w :
  translate_spec n rec → rule_context n w i rule → rule_ready rule →
  wp (translateGatewayHTTPRouteRule gwListener rec i rule ruleIdx hd outputs hs)
    (λ acc w', step w (below i) w' ∧ extends i outputs acc.1 ∧ routes_ok i acc.2) w.
Proof.
  intros Hrec Hctx [ms Hms]. unfold translateGatewayHTTPRouteRule. rewrite Hms. simpl.
  assert (Forall (match_ok (w_heap w)) ms) as Hall.
  { destruct Hctx as (_&_&_&_& Hr & _). by rewrite Hms in Hr. }
  rewrite Forall_forall in Hall.
  apply (wp_fold_range (λ acc w', step w (below i) w' ∧ extends i outputs acc.1 ∧ routes_ok i acc.2)).
  - split_and!; [by apply step_refl, Hctx|apply extends_refl|constructor].
  - intros idx m [outs routes] w1 Hm (Hst & Hext & Hro). simpl in *.
    eapply wp_mono; [apply (translate_match_ok n); [done|by eapply rule_context_step| |done]|].
    + eapply match_ok_mono; [apply Hst|by apply Hall].
    + intros acc w2 (?&?&?). split_and!; [by eapply step_trans|by eapply extends_trans|done].
Qed.

Lemma rule_with_matches_ready rule : rule_ready rule → rule_with_matches rule = rule.
Proof. unfold rule_with_matches. by intros [ms ->]. Qed.

(** The master lemma: translating a tree within its depth. *)
Lemma translate_ok fuel : translate_spec fuel (translateGatewayHTTPRouteRulesUtil gwListener fuel).
Proof.
  induction fuel as [|fuel IH]; intros i hd hs outputs w Hdepth Hok Htr; [destruct i; simpl in Hdepth; lia|].
  simpl. pose proof Htr as [Hwf Hac (rs & Hrs & Hrd) Hb].
  wp_step. apply wp_on_heap. eapply wp_read_rules; [done|].
  rewrite Forall_forall in Hrd. rewrite with_heap_id.
  apply (wp_fold_range_ix (λ out w', step w (below i) w' ∧ extends i outputs out)).
  { split; [by apply step_refl|apply extends_refl]. }
  intros idx rule outs w1 Hidx [Hst Hext].
  assert (h_rules (w_heap w1) !! hr_rules (hi_route i) = Some rs) as Hrs1.
  { destruct Hst as [_ _ Hf _ _ _]. rewrite Hf; [done| |done]. apply elem_of_dom. by exists rs. }
  wp_step. apply wp_on_heap. eapply wp_read_rule; [done..|].
  rewrite with_heap_id.
  assert (rule ∈ rs) as Hin by by eapply list_elem_of_lookup_2.
  rewrite rule_with_matches_ready by by apply Hrd.
  wp_step. eapply wp_mono; [apply (translate_rule_ok fuel); [done| |by apply Hrd]|].
  - destruct Hst as [Hok1 Hle1 _ Hv _ _]. split_and!; [done|done|by eapply wf_info_mono|by rewrite Hv|].
    pose proof (proj2 Hok1 _ _ Hrs1) as Hall. rewrite Forall_forall in Hall. auto.
  - intros [outs' routes] w2 (Hst2 & Hext2 & Hro). apply wp_ret. simpl in *.
    split; [by eapply step_trans|]. eapply extends_trans; [done|]. eapply extends_trans; [done|].
    exists (omap id routes). split; [done|]. apply Forall_forall. intros r Hr.
    apply list_elem_of_omap in Hr as (o & Ho & Heq). unfold routes_ok in Hro. rewrite Forall_forall in Hro.
    by eapply Hro.
Qed.

Lemma translate_rules_ok fuel i hd ps h :
  info_depth i ≤ fuel → heap_ok h → wf_info h i → acyclic ∅ i →
  (∃ rs, h_rules h !! hr_rules (hi_route i) = Some rs ∧ Forall rule_ready rs) →
  ¬ below i (hr_rules (hi_route i)) →
  wp (TranslateGatewayHTTPRouteRules gwListener fuel i hd) (λ routes s',
    Forall (output_ok i) routes ∧ reports_le (ps_reports ps) (ps_reports s'.1) ∧
    heap_ok s'.2 ∧ heap_le h s'.2 ∧ frame h s'.2 (below i)) (ps, h).
Proof.
  intros Hfuel Hok Hwf Hac Hrd Hb.
  set (w := {| w_ps := ps; w_heap := h; w_visited := ∅; w_chain := [] |}).
  destruct (wp_run _ _ _ (translate_ok fuel i hd (hostnames_of (hi_route i)) [] w Hfuel Hok
    ltac:(by split))) as (routes & w' & Hrun & [Hok' Hle' Hf' _ _ Hrep] & new & -> & Hnew).
  unfold wp, TranslateGatewayHTTPRouteRules. simpl. fold w. by rewrite Hrun.
Qed.

(** C15. Translating an HTTPRoute: for a route whose tree is well formed, acyclic and not
    aliased with its own rules (as [GetRoutesForGateway] builds it), the translation
    returns without a panic once the fuel reaches the depth of the tree; every output
    route has exactly one matcher, which has a path, an action, and the name of a rule
    and match of a route of the tree; conditions are only appended to the reports and no
    gateway report changes; the memory stays well formed. *)
Theorem TranslateGatewayHTTPRouteRules_correct fuel i hd ps h :
  info_depth i ≤ fuel → heap_ok h → wf_info h i → acyclic ∅ i →
  (∃ rs, h_rules h !! hr_rules (hi_route i) = Some rs ∧ Forall rule_ready rs) →
  ¬ below i (hr_rules (hi_route i)) →
  ∃ routes ps' h', TranslateGatewayHTTPRouteRules gwListener fuel i hd (ps, h) = Ok (routes, (ps', h')) ∧
    Forall (output_ok i) routes ∧ reports_le (ps_reports ps) (ps_reports ps') ∧
    heap_ok h' ∧ heap_le h h' ∧ frame h h' (below i).
Proof.
  intros Hfuel Hok Hwf Hac Hrd Hb.
  destruct (wp_run _ _ _ (translate_rules_ok fuel i hd ps h Hfuel Hok Hwf Hac Hrd Hb))
    as (routes & [ps' h'] & Hrun & ?). by exists routes, ps', h'.
Qed.
End Facts.

(** ** Backends of a rule that does not delegate *)

(** The conditions reported for one backendRef, and the destination it contributes. *)
Definition backend_conditions (i : HTTPRouteInfo) (b : HTTPBackendRef) : list Condition :=
  let ref := hb_ref b in
  match hi_GetBackendForRef i ref with
  | inl e => [resolved_refs_false (backend_error_reason e) (err_msg e)]
  | inr (OUpstream _ t) =>
      if Backendref.RefIsUpstream ref then
        match makeDestinationSpec t (hb_filters b) with
        | inl e => [resolved_refs_false "BackendNotFound" (err_msg e)]
        | inr _ => []
        end
      else []
  | inr (OService _) =>
      if bool_decide (wrap_u32 (default 0%Z (br_port ref)) = 0%Z)
      then [resolved_refs_false "UnsupportedValue" "invalid port value"] else []
  | inr _ => [resolved_refs_false "InvalidKind" "invalid backend type provided"]
  end.

(** The cluster a reference stands for: the object's name, or the blackhole cluster. *)
Definition backend_cluster (i : HTTPRouteInfo) (ref : BackendObjectReference) : ResourceRef :=
  match hi_GetBackendForRef i ref with
  | inr (OUpstream m _) => {| rf_name := om_name m; rf_namespace := om_namespace m |}
  | inr (OService m) =>
      if bool_decide (wrap_u32 (default 0%Z (br_port ref)) = 0%Z)
      then {| rf_name := "blackhole_cluster"; rf_namespace := "blackhole_ns" |}
      else {| rf_name := om_name m; rf_namespace := om_namespace m |}
  | _ => {| rf_name := "blackhole_cluster"; rf_namespace := "blackhole_ns" |}
  end.

Definition backend_destination (i : HTTPRouteInfo) (b : HTTPBackendRef) : option WeightedDestination :=
  let ref := hb_ref b in
  let weighted ty spec := {| wd_destination := {| d_type := ty; d_spec := spec |};
                             wd_weight := from_option wrap_u32 1%Z (hb_weight b) |} in
  if Backendref.RefIsService ref then
    Some (weighted (DestKube (backend_cluster i ref) (from_option wrap_u32 0%Z (br_port ref))) None)
  else if Backendref.RefIsUpstream ref then
    match hi_GetBackendForRef i ref with
    | inr (OUpstream _ t) =>
        match makeDestinationSpec t (hb_filters b) with
        | inl _ => None
        | inr spec => Some (weighted (DestUpstream (backend_cluster i ref)) spec)
        end
    | _ => None
    end
  else None.

Definition add_conditions (hd : ParentRefReporter) (cs : list Condition) (rm : ReportMap) : ReportMap :=
  foldl (λ rm c, ParentRefReporter_SetCondition hd c rm) rm cs.

Lemma add_conditions_app hd cs1 cs2 rm :
  add_conditions hd (cs1 ++ cs2) rm = add_conditions hd cs2 (add_conditions hd cs1 rm).
Proof. apply foldl_app. Qed.

Lemma add_conditions_same hd new rm cs :
  parent_conditions hd rm = Some cs → parent_conditions hd (add_conditions hd new rm) = Some (cs ++ new).
Proof.
  revert rm cs. induction new as [|c new IH]; intros rm cs Hcs; simpl; [by rewrite app_nil_r|].
  rewrite (IH _ (cs ++ [c])) by by apply parent_set_condition_same. by rewrite <-(assoc_L (++)).
Qed.

Definition with_conditions (hd : ParentRefReporter) (cs : list Condition) (w : World) : World :=
  with_ps (ps_set_reports (add_conditions hd cs (ps_reports (w_ps w))) (w_ps w)) w.

Lemma with_conditions_app hd cs1 cs2 w :
  with_conditions hd (cs1 ++ cs2) w = with_conditions hd cs2 (with_conditions hd cs1 w).
Proof. unfold with_conditions. simpl. by rewrite add_conditions_app. Qed.

Lemma ref_upstream_not_service ref :
  Backendref.RefIsUpstream ref = true → Backendref.RefIsService ref = false.
Proof. apply Backendref.ref_kinds_exclusive. Qed.

Lemma add_destination_run i hd b ds w :
  ref_ok (hb_ref b) →
  add_destination i hd b ds w =
    Ok (ds ++ option_list (backend_destination i b), with_conditions hd (backend_conditions i b) w).
Proof.
  intros [[g Hg] [k Hk]].
  unfold add_destination, backend_destination, backend_conditions, backend_cluster, ProcessBackendRef,
    with_conditions, report, on_ps, ps_reporting, ps_report, modify, bind, ret, deref.
  rewrite Hg, Hk. destruct w as [[rm ca vc] h v c]. simpl.
  destruct (Backendref.RefIsUpstream (hb_ref b)) eqn:Eu.
  - rewrite (ref_upstream_not_service _ Eu).
    destruct (hi_GetBackendForRef i (hb_ref b)) as [e|[]]; simpl; try case_bool_decide; simpl;
      rewrite ?app_nil_r; try done.
    by destruct (makeDestinationSpec t (hb_filters b)); simpl; rewrite ?app_nil_r.
  - destruct (Backendref.RefIsService (hb_ref b));
      destruct (hi_GetBackendForRef i (hb_ref b)) as [e|[]]; simpl; try case_bool_decide; simpl;
      rewrite ?app_nil_r; by destruct (br_port (hb_ref b)), (hb_weight b).
Qed.

(** The action of a rule that does not delegate: its destinations are, in order, one
    per backendRef of kind Service (the blackhole cluster when the Service is missing, not
    permitted or has no port, so that its share of the traffic fails rather than moving
    to the others) and one per resolved Upstream with a valid function reference, each with
    its weight; every backendRef that cannot be used adds its condition to the parent, and
    nothing else changes. *)
Theorem setRouteAction_backends `{!GoRange string} rec i rule r hd m outputs w cs :
  Forall (λ b, ref_ok (hb_ref b) ∧ Backendref.RefIsHTTPRoute (hb_ref b) = false) (r_backendRefs rule) →
  parent_conditions hd (ps_reports (w_ps w)) = Some cs →
  ∃ w', setRouteAction rec i rule r hd m outputs w =
      Ok (false, destination_action (omap (backend_destination i) (r_backendRefs rule)) r, outputs, w') ∧
    parent_conditions hd (ps_reports (w_ps w')) =
      Some (cs ++ flat_map (backend_conditions i) (r_backendRefs rule)) ∧
    w_heap w' = w_heap w ∧ w_visited w' = w_visited w ∧ w_chain w' = w_chain w.
Proof.
  intros Hrefs Hcs. exists (with_conditions hd (flat_map (backend_conditions i) (r_backendRefs rule)) w).
  split_and!; [|by apply add_conditions_same|done..].
  unfold setRouteAction. unfold bind at 1.
  match goal with |- context [fold_range 0 _ _ ?body] => set (f := body) end.
  enough (∀ n ds w, fold_range n (r_backendRefs rule) (ds, false, outputs) f w =
    Ok (ds ++ omap (backend_destination i) (r_backendRefs rule), false, outputs,
        with_conditions hd (flat_map (backend_conditions i) (r_backendRefs rule)) w)) as -> by done.
  clear Hcs. induction Hrefs as [|b bs [Hb Hd] _ IH]; intros n ds w'; simpl.
  { rewrite app_nil_r. unfold with_conditions. simpl. by destruct w' as [[] ? ? ?]. }
  unfold bind at 1, f at 1. rewrite Hd. unfold bind at 1. rewrite add_destination_run by done.
  unfold ret at 1. rewrite IH, with_conditions_app.
  by destruct (backend_destination i b); simpl; rewrite ?app_nil_r, <-?(assoc_L (++)).
Qed.

(** ** Examples *)
Definition no_plugins : RoutePlugins := {| route_plugins := []; route_plugins_ok := Forall_nil_2 _ |}.

(** The tree of the example cluster, loaded in memory. *)
Definition ex_load : MRoute * Heap := load_route ex_parent empty_heap.
Definition ex_chain : M Heap HTTPRouteInfo :=
  @GetHTTPRouteChain ex_client (S (size ex_universe)) ex_parent ex_load.1 ["a.example.com"] (ex_gw_ref "http").
Definition ex_ps : PState := {| ps_reports := NewReportMap; ps_statusCache := ∅; ps_vhostCache := ∅ |}.
Definition ex_translate (i : HTTPRouteInfo) : M (PState * Heap) (list Route) :=
  @TranslateGatewayHTTPRouteRules ex_order no_plugins ex_listener (info_depth i) i
    (hi_nn i, getParentRefKey (ex_gw_ref "http")).

Lemma TranslateGatewayHTTPRouteRules_correct_witness :
  ∃ i h routes s', ex_chain ex_load.2 = Ok (i, h) ∧ ex_translate i (ex_ps, h) = Ok (routes, s') ∧
    Forall (output_ok i) routes.
Proof.
  destruct (load_route ex_parent empty_heap) as [mem h0] eqn:E.
  destruct (load_route_spec ex_parent empty_heap _ _ E empty_heap_ok (Forall_inv ex_defaulted))
    as (Hok & _ & Hnn & (rs & Hrs & _ & Hrd) & _).
  destruct (@chain_spec ex_client ex_universe ex_finite ex_parent mem ["a.example.com"] (ex_gw_ref "http") h0 Hok
    ltac:(apply elem_of_dom; by exists rs) Hnn) as (i & h & Hrun & Hi & _ & _ & Hok' & Hg & Hwf & Hac & Hb).
  destruct (@TranslateGatewayHTTPRouteRules_correct ex_order no_plugins ex_listener (info_depth i) i
    (hi_nn i, getParentRefKey (ex_gw_ref "http")) ex_ps h (le_n _) Hok' Hwf Hac) as (routes & ps' & h' & Ht & Ho & _).
  - exists rs. rewrite Hi. split; [|exact Hrd]. rewrite <-Hrs. apply Hg. apply elem_of_dom. by exists rs.
  - intros Hl. apply Hb in Hl. apply Hl. rewrite Hi. apply elem_of_dom. by exists rs.
  - exists i, h, routes, (ps', h'). split; [|exact (conj Ht Ho)].
    unfold ex_chain, ex_load. rewrite E. exact Hrun.
Defined.

Definition ex_http_port : HTTPBackendRef := ex_svc_ref (Some "backend") "svc".
Lemma setRouteAction_backends_witness :
  let i := {| hi_route := ex_load.1; hi_parentRef := ex_gw_ref "http"; hi_hostnameOverrides := [];
              hi_backends := bm_Add (hb_ref ex_http_port) (OService (ex_meta "backend" "svc")) NewBackendMap;
              hi_children := NewBackendMap |} in
  let rule := {| r_matches := None; r_filters := []; r_backendRefs := [ex_http_port; ex_svc_ref None "gone"] |} in
  let hd := (hi_nn i, getParentRefKey (ex_gw_ref "http")) in
  let w := {| w_ps := {| ps_reports := (route_parent_reporter ex_load.1 (ex_gw_ref "http") NewReportMap).2;
                         ps_statusCache := ∅; ps_vhostCache := ∅ |};
              w_heap := ex_load.2; w_visited := ∅; w_chain := [] |} in
  let r := {| rt_matchers := []; rt_action := None; rt_options := empty_route_options; rt_name := "r";
              rt_metadata := None |} in
  ∃ w' a, @setRouteAction ex_order (λ _ _ _ _, no_fuel) i rule r hd
      {| m_path := None; m_headers := []; m_queryParams := []; m_method := None |} [] w =
      Ok (false, rt_set_action (Some a) r, [], w') ∧
    parent_conditions hd (ps_reports (w_ps w')) =
      Some [resolved_refs_false "BackendNotFound" "unresolved reference"].
Proof.
  intros i rule hd w r.
  destruct (@setRouteAction_backends ex_order (λ _ _ _ _, no_fuel) i rule r hd
    {| m_path := None; m_headers := []; m_queryParams := []; m_method := None |} [] w [])
    as (w' & Hrun & Hcs & _).
  - repeat (constructor; [split; [split; by eexists|reflexivity]|]). constructor.
  - vm_compute. reflexivity.
  - eexists w', _. split; [exact Hrun|exact Hcs].
Defined.

(** The two delegating rules of the parent: "/a" is served by the leaf, while the second
    branch to the leaf was refused as a cycle, so nothing serves "/b". *)
Example ex_translation :
  match ex_chain ex_load.2 with
  | Ok (i, h) => match ex_translate i (ex_ps, h) with
                 | Ok (routes, _) =>
                     map (λ r, (rt_name r, rt_action r)) routes =
                       [("leaf-app-0-0", Some (ARouteAction (Single
                           {| d_type := DestKube {| rf_name := "svc"; rf_namespace := "backend" |} 80;
                              d_spec := None |})))]
                 | _ => False
                 end
  | _ => False
  end.
Proof. vm_compute. reflexivity. Qed.
