(* ===== verification/ListenerTranslator.v ===== *)
(** * listener/gateway_listener_translator.go: the listeners of a Gateway become Gloo listeners

    With ports/ports.go, sslutils/ssl_utils.go and gloo's utils/sanitize.go. Listeners
    that end up on the same Envoy port are merged into one Gloo listener with several
    filter chains. Certificates are checked by the standard library and client-go: the
    interface [X509]. *)

From stdpp Require Import base gmap strings list fin_maps sets.
From Stdlib Require Import ZArith Ascii Lia.
From S2P Require Import Prelude GoLib GwApi Reports Heap Query RouteOrder PluginApi HttpRoute ListenerValidation.

Import Reports Query RouteOrder HttpRoute ListenerValidation.

(** crypto/tls and client-go's util/cert, on the bytes of a Secret. *)
Class X509 := {
  certificates : Type;
  X509KeyPair : string → string → option Err;
  ParseCertsPEM : string → result certificates;
  EncodeCertificates : certificates → result string
}.

(** ** ports.go, sanitize.go *)
Module Ports.
Definition portOffset : Z := 8000.
Definition TranslatePort (u : Z) : Z := if (1024 <=? u)%Z then u else wrap_u16 (u + portOffset).
End Ports.

Definition SanitizeForEnvoy (resourceName : string) : string :=
  if contains_char "."%char resourceName then replace_char "."%char "_"%char resourceName else resourceName.

(** ** ssl_utils.go *)
Module SslUtils.
Definition TLSCertKey : string := "tls.crt".
Definition TLSPrivateKeyKey : string := "tls.key".

Definition InvalidTlsSecretError (m : ObjectMeta) (err : Err) : Err :=
  ErrWrap (om_namespace m +:+ "." +:+ om_name m +:+ " is not a valid TLS secret: ") err.
Definition NoCertificateFoundError : Err := ErrOther "no certificate information found".

Section Validate.
Context `{X509}.

Definition isValidSslKeyPair (certChain privateKey : string) : option Err :=
  if bool_decide (certChain = "") || bool_decide (privateKey = "") then Some NoCertificateFoundError else
  match X509KeyPair certChain privateKey with
  | Some err => Some err
  | None =>
      match ParseCertsPEM certChain with
      | inl err => Some err
      | inr candidateCert =>
          match EncodeCertificates candidateCert with
          | inl err => Some err
          | inr reencoded =>
              if bool_decide (trim_space reencoded = trim_space certChain) then None
              else Some (ErrOther "certificate chain does not match parsed certificate")
          end
      end
  end.

Definition validatedCertData (m : ObjectMeta) (data : gmap string string) : option Err :=
  match isValidSslKeyPair (default "" (data !! TLSCertKey)) (default "" (data !! TLSPrivateKeyKey)) with
  | Some err => Some (InvalidTlsSecretError m err)
  | None => None
  end.

Definition ValidateTlsSecret (m : ObjectMeta) (data : gmap string string) : option Err := validatedCertData m data.
End Validate.
End SslUtils.

Module ListenerTranslator.

Record httpFilterChainParent := {
  hp_gatewayListenerName : string; hp_routesWithHosts : list HTTPRouteInfo }.
Record httpsFilterChain := {
  hs_gatewayListenerName : string;
  hs_sniDomain : option string;
  hs_tls : option GatewayTLSConfig;
  hs_routesWithHosts : list HTTPRouteInfo
}.
Record mergedListener := {
  ml_name : string;
  ml_gatewayNamespace : string;
  ml_port : Z;
  ml_httpFilterChain : option (list httpFilterChainParent);
  ml_httpsFilterChains : list httpsFilterChain;
  ml_listenerReporter : ListenerReporter;
  ml_listener : Listener
}.

(** ** Merging listeners by port *)
Definition finalPort (listener : Listener) : Z := Ports.TranslatePort (wrap_u16 (l_port listener)).

(** [for _, lis := range ml.listeners { if lis.port == finalPort { ...; return } }]: the
    first listener of the port is edited in place; [None] when there is none. *)
Fixpoint update_port (p : Z) (f : mergedListener → mergedListener) (ls : list mergedListener) :
    option (list mergedListener) :=
  match ls with
  | [] => None
  | lis :: ls' => if bool_decide (ml_port lis = p) then Some (f lis :: ls')
                  else match update_port p f ls' with
                       | Some ls'' => Some (lis :: ls'')
                       | None => None
                       end
  end.

Definition appendHttpListener (gatewayNamespace : string) (listener : Listener) (routes : list HTTPRouteInfo)
    (reporter : ListenerReporter) (ls : list mergedListener) : list mergedListener :=
  let parent := {| hp_gatewayListenerName := l_name listener; hp_routesWithHosts := routes |} in
  let merge lis :=
    {| ml_name := ml_name lis +:+ "~" +:+ l_name listener;
       ml_gatewayNamespace := ml_gatewayNamespace lis; ml_port := ml_port lis;
       ml_httpFilterChain := match ml_httpFilterChain lis with
                             | Some parents => Some (parents ++ [parent])
                             | None => Some [parent]
                             end;
       ml_httpsFilterChains := ml_httpsFilterChains lis;
       ml_listenerReporter := ml_listenerReporter lis; ml_listener := ml_listener lis |} in
  match update_port (finalPort listener) merge ls with
  | Some ls' => ls'
  | None => ls ++ [{| ml_name := l_name listener; ml_gatewayNamespace := gatewayNamespace;
                      ml_port := finalPort listener; ml_httpFilterChain := Some [parent];
                      ml_httpsFilterChains := []; ml_listenerReporter := reporter; ml_listener := listener |}]
  end.

Definition appendHttpsListener (gatewayNamespace : string) (listener : Listener) (routes : list HTTPRouteInfo)
    (reporter : ListenerReporter) (ls : list mergedListener) : list mergedListener :=
  let mfc := {| hs_gatewayListenerName := l_name listener; hs_sniDomain := l_hostname listener;
                hs_tls := l_tls listener; hs_routesWithHosts := routes |} in
  let merge lis :=
    {| ml_name := ml_name lis +:+ "~" +:+ l_name listener;
       ml_gatewayNamespace := ml_gatewayNamespace lis; ml_port := ml_port lis;
       ml_httpFilterChain := ml_httpFilterChain lis;
       ml_httpsFilterChains := ml_httpsFilterChains lis ++ [mfc];
       ml_listenerReporter := ml_listenerReporter lis; ml_listener := ml_listener lis |} in
  match update_port (finalPort listener) merge ls with
  | Some ls' => ls'
  | None => ls ++ [{| ml_name := l_name listener; ml_gatewayNamespace := gatewayNamespace;
                      ml_port := finalPort listener; ml_httpFilterChain := None;
                      ml_httpsFilterChains := [mfc]; ml_listenerReporter := reporter; ml_listener := listener |}]
  end.

(** The error of an unsupported protocol is dropped by the caller. *)
Definition appendListener (gatewayNamespace : string) (listener : Listener) (routes : list HTTPRouteInfo)
    (reporter : ListenerReporter) (ls : list mergedListener) : list mergedListener :=
  if bool_decide (l_protocol listener = HTTPProtocolType) then
    appendHttpListener gatewayNamespace listener routes reporter ls
  else if bool_decide (l_protocol listener = HTTPSProtocolType) then
    appendHttpsListener gatewayNamespace listener routes reporter ls
  else ls.

Definition routes_of (routesForGw : RoutesForGwResult) (listener : Listener) : list HTTPRouteInfo :=
  match rg_listenerResults routesForGw !! l_name listener with
  | Some result => lr_routes result
  | None => []
  end.

Definition mergeGWListeners (gatewayNamespace : string) (listeners : list Listener)
    (routesForGw : RoutesForGwResult) (reporter : NamespacedName) : M ReportMap (list mergedListener) :=
  fold_range 0 listeners [] (λ _ listener ml,
    listenerReporter <~ (λ rm, Ok (GatewayReporter_Listener reporter listener rm)) ;;
    ret (appendListener gatewayNamespace listener (routes_of routesForGw listener) listenerReporter ml)).

Definition makeVhostName (parentName domain : string) : string :=
  SanitizeForEnvoy (parentName +:+ "~" +:+ domain).

(** ** Routes by host *)
Abbreviation RoutesByHost := (gmap string (list SortableRoute)) (only parsing).
Abbreviation State := (PState * Heap)%type (only parsing).

Definition with_reports {A} (m : M ReportMap A) : M State A := λ s,
  match m (ps_reports s.1) with
  | Ok (a, rm) => Ok (a, (ps_set_reports rm s.1, s.2))
  | Panic why => Panic why
  | OutOfFuel => OutOfFuel
  end.
Definition with_pstate {A} (m : M PState A) : M State A := λ s,
  match m s.1 with
  | Ok (a, ps) => Ok (a, (ps, s.2))
  | Panic why => Panic why
  | OutOfFuel => OutOfFuel
  end.

Definition append_route (host : string) (rs : list SortableRoute) (m : RoutesByHost) : RoutesByHost :=
  <[host := default [] (m !! host) ++ rs]> m.

Definition hosts_or_any (i : HTTPRouteInfo) : list string :=
  match Hostnames i with [] => ["*"] | hs => hs end.

(** One virtual host of a filter chain. *)
Definition make_vhost (parentName host : string) (routes : list SortableRoute) : VirtualHost :=
  {| vh_name := makeVhostName parentName host; vh_domains := [host]; vh_routes := ToRoutes routes;
     vh_options := None; vh_metadata := None |}.

Section Translate.
Context `{!GoRange string} `{!GoRange Z} `{!RoutePlugins} `{!ListenerPlugins} `{K8sClient} `{X509}.

Definition build_route (gwListener : Listener) (routeWithHosts : HTTPRouteInfo) (routesByHost : RoutesByHost) :
    M State RoutesByHost :=
  parentRefReporter <~ with_reports (λ rm, Ok (route_parent_reporter (hi_route routeWithHosts)
                                                 (hi_parentRef routeWithHosts) rm)) ;;
  routes <~ TranslateGatewayHTTPRouteRules gwListener (info_depth routeWithHosts) routeWithHosts parentRefReporter ;;
  match routes with
  | [] => ret routesByHost
  | _ => ret (foldl (λ m host, append_route host (ToSortable (hi_route routeWithHosts) routes) m)
                routesByHost (hosts_or_any routeWithHosts))
  end.

Definition buildRoutesPerHost (routesByHost : RoutesByHost) (routes : list HTTPRouteInfo) (gwListener : Listener) :
    M State RoutesByHost :=
  fold_range 0 routes routesByHost (λ _ routeWithHosts m, build_route gwListener routeWithHosts m).

(** The loop over the hosts, in map order. *)
Definition build_vhosts (parentName : string) (routesByHost : RoutesByHost) :
    M State (list string * gmap string VirtualHost) :=
  out <~ fold_range 0 (go_range routesByHost) ([], ∅) (λ _ '(host, vhostRoutes) '(refs, vhosts),
    sorted <~ lift_res (sort_routes vhostRoutes) ;;
    let v := make_vhost parentName host sorted in
    ret (refs ++ [vh_name v], <[vh_name v := v]> vhosts)) ;;
  ret (sort_strings out.1, out.2).

Definition translateHttpFilterChain (parents : list httpFilterChainParent) (parentName : string)
    (listener : Listener) : M State (HttpFilterChain * gmap string VirtualHost) :=
  routesByHost <~ fold_range 0 parents ∅ (λ _ parent m, buildRoutesPerHost m (hp_routesWithHosts parent) listener) ;;
  v <~ build_vhosts parentName routesByHost ;;
  ret ({| fc_sslConfig := None; fc_virtualHostRefs := v.1; fc_httpOptionsRef := "" |}, v.2).

(** ** TLS *)
Definition translateSslConfig (parentNamespace : string) (sniDomain : option string)
    (tls : option GatewayTLSConfig) : res (result (option SslConfig)) :=
  match tls with
  | None => Ok (inr None)
  | Some tls =>
      if negb (ptr_is (tls_mode tls) TLSModeTerminate) then Ok (inr None) else
      match tls_certificateRefs tls with
      | [] => Ok (inr None)
      | certRef :: _ =>
          match GetSecretForRef {| from_group_kind := inr {| gk_group := GatewayGroup; gk_kind := "Gateway" |};
                                   from_namespace := parentNamespace |} certRef with
          | inl err => Ok (inl err)
          | inr (OSecret m data) =>
              match SslUtils.ValidateTlsSecret m data with
              | Some err => Ok (inl err)
              | None =>
                  Ok (inr (Some
                    {| ssl_secretRef := {| rf_name := sr_name certRef;
                                           rf_namespace := default parentNamespace (sr_namespace certRef) |};
                       ssl_sniDomains := match sniDomain with Some d => [d] | None => [] end |}))
              end
          | inr _ => Panic "interface conversion: client.Object is not *v1.Secret"
          end
      end
  end.

Definition ssl_error_reason (err : Err) : string :=
  if negb (errors_is err ErrMissingReferenceGrant) then "InvalidCertificateRef" else "RefNotPermitted".

Definition translateHttpsFilterChain (mfc : httpsFilterChain) (parentName gatewayNamespace : string)
    (listener : Listener) (listenerReporter : ListenerReporter) :
    M State (option HttpFilterChain * gmap string VirtualHost) :=
  routesByHost <~ buildRoutesPerHost ∅ (hs_routesWithHosts mfc) listener ;;
  v <~ build_vhosts parentName routesByHost ;;
  ssl <~ lift_res (translateSslConfig gatewayNamespace (hs_sniDomain mfc) (hs_tls mfc)) ;;
  match ssl with
  | inl err =>
      do! with_reports (modify (ListenerReporter_SetCondition listenerReporter
            (report_condition "ResolvedRefs" ConditionFalse (ssl_error_reason err) ""))) ;;
      do! with_reports (modify (ListenerReporter_SetCondition listenerReporter
            (report_condition "Programmed" ConditionFalse "Invalid" ""))) ;;
      ret (None, ∅)
  | inr sslConfig =>
      ret (Some {| fc_sslConfig := sslConfig; fc_virtualHostRefs := v.1; fc_httpOptionsRef := "" |}, v.2)
  end.

(** ** Listeners *)

(** [for vhostRef, vhost := range vhosts { mergedVhosts[vhostRef] = vhost }] *)
Definition merge_vhosts (vhosts mergedVhosts : gmap string VirtualHost) : gmap string VirtualHost :=
  foldl (λ m '(vhostRef, vhost), <[vhostRef := vhost]> m) mergedVhosts (go_range vhosts).

Definition translateListener (ml : mergedListener) : M State GlooListener :=
  acc <~ match ml_httpFilterChain ml with
         | Some parents =>
             c <~ translateHttpFilterChain parents (ml_name ml) (ml_listener ml) ;;
             ret ([c.1], merge_vhosts c.2 ∅)
         | None => ret ([], ∅)
         end ;;
  acc <~ fold_range 0 (ml_httpsFilterChains ml) acc (λ _ mfc '(chains, mergedVhosts),
    c <~ translateHttpsFilterChain mfc (hs_gatewayListenerName mfc) (ml_gatewayNamespace ml)
           (ml_listener ml) (ml_listenerReporter ml) ;;
    match c.1 with
    | None => ret (chains, mergedVhosts)
    | Some chain => ret (chains ++ [chain], merge_vhosts c.2 mergedVhosts)
    end) ;;
  ret {| gl_name := ml_name ml; gl_bindAddress := "::"; gl_bindPort := wrap_u32 (ml_port ml);
         gl_type := TAggregate {| al_virtualHosts := acc.2; al_httpOptions := ∅; al_httpFilterChains := acc.1 |};
         gl_options := None; gl_metadata := None |}.

(** Every listener plugin runs; errors are only logged. *)
Definition translateListeners (gateway : Gateway) (mls : list mergedListener) : M State (list GlooListener) :=
  fold_range 0 mls [] (λ _ ml listeners,
    listener <~ translateListener ml ;;
    listener <~ fold_range 0 listener_plugins listener (λ _ plugin listener,
      out <~ with_pstate (plugin {| lc_gateway := gateway; lc_gwListener := ml_listener ml |} listener) ;;
      ret out.2) ;;
    ret (listeners ++ [listener])).

Definition TranslateListeners (gateway : Gateway) (routesForGw : RoutesForGwResult) : M State (list GlooListener) :=
  reporter <~ with_reports (λ rm, Ok (reporter_Gateway gateway rm)) ;;
  validatedListeners <~ with_reports (validateListeners gateway reporter) ;;
  reporter <~ with_reports (λ rm, Ok (reporter_Gateway gateway rm)) ;;
  mergedListeners <~ with_reports (mergeGWListeners (om_namespace (gw_meta gateway)) validatedListeners
                                     routesForGw reporter) ;;
  translateListeners gateway mergedListeners.
End Translate.
End ListenerTranslator.
