(* ===== verification/ListenerTranslatorFacts.v ===== *)
(** * Properties of the listener translation *)

From stdpp Require Import base gmap strings list fin_maps sets sorting.
From Stdlib Require Import ZArith Ascii Sorted Lia.
From S2P Require Import Prelude GoLib GwApi Reports Heap Query QueryFacts RouteOrder PluginApi Delegation DelegationFacts HttpRoute HttpRouteFacts ListenerValidation ListenerValidationFacts ListenerTranslator.

Import Reports Query RouteOrder Delegation HttpRoute ListenerValidation ListenerTranslator.

(** ** Ports *)

(** [TranslatePort] maps every 16-bit port to an unprivileged one without overflow,
    and two ports end up on the same Envoy port exactly when they are equal or one is
    privileged and the other is 8000 above it (so 80 collides with 8080). *)
Theorem TranslatePort_unprivileged u v :
  (0 ≤ u < 2 ^ 16)%Z → (0 ≤ v < 2 ^ 16)%Z →
  (1024 ≤ Ports.TranslatePort u < 2 ^ 16)%Z ∧
  (Ports.TranslatePort u = Ports.TranslatePort v ↔
     u = v ∨ ((u < 1024)%Z ∧ v = (u + 8000)%Z) ∨ ((v < 1024)%Z ∧ u = (v + 8000)%Z)).
Proof.
  intros Hu Hv. unfold Ports.TranslatePort, Ports.portOffset.
  destruct (Z.leb_spec 1024 u), (Z.leb_spec 1024 v); rewrite ?wrap_u16_id by lia; lia.
Qed.

Lemma TranslatePort_unprivileged_witness :
  (1024 ≤ Ports.TranslatePort 80 < 2 ^ 16)%Z ∧ Ports.TranslatePort 80 = Ports.TranslatePort 8080.
Proof.
  destruct (TranslatePort_unprivileged 80 8080 ltac:(lia) ltac:(lia)) as [Hr Heq]. split; [exact Hr|].
  apply Heq. right. left. lia.
Defined.

Lemma finalPort_range l : (1024 ≤ finalPort l < 2 ^ 16)%Z.
Proof.
  unfold finalPort, Ports.TranslatePort, Ports.portOffset. pose proof (wrap_u16_range (l_port l)).
  destruct (Z.leb_spec 1024 (wrap_u16 (l_port l))); rewrite ?wrap_u16_id by lia; lia.
Qed.

(** ** Merging: reference definition *)
Definition ports_step (ps : list Z) (l : Listener) : list Z :=
  if bool_decide (finalPort l ∈ ps) then ps else ps ++ [finalPort l].
(** The Envoy ports in order of first use. *)
Definition first_ports (ls : list Listener) : list Z := foldl ports_step [] ls.

Definition is_http (l : Listener) : bool := bool_decide (l_protocol l = HTTPProtocolType).
Definition on_final_port (p : Z) (ls : list Listener) : list Listener :=
  List.filter (λ l, bool_decide (finalPort l = p)) ls.

Section Merge.
Context (gatewayNamespace : string) (routesForGw : RoutesForGwResult) (reporter : NamespacedName).

Definition parent_of (l : Listener) : httpFilterChainParent :=
  {| hp_gatewayListenerName := l_name l; hp_routesWithHosts := routes_of routesForGw l |}.
Definition chain_of (l : Listener) : httpsFilterChain :=
  {| hs_gatewayListenerName := l_name l; hs_sniDomain := l_hostname l; hs_tls := l_tls l;
     hs_routesWithHosts := routes_of routesForGw l |}.

(** The Gloo listener of a port: named after its listeners, one HTTP filter chain for all
    HTTP listeners, one HTTPS chain per HTTPS listener, reported under the first one. *)
Definition merged_of (p : Z) (l0 : Listener) (ls : list Listener) : mergedListener :=
  {| ml_name := join "~" (map l_name (l0 :: ls));
     ml_gatewayNamespace := gatewayNamespace;
     ml_port := p;
     ml_httpFilterChain := match List.filter is_http (l0 :: ls) with
                           | [] => None
                           | hs => Some (map parent_of hs)
                           end;
     ml_httpsFilterChains := map chain_of (List.filter (λ l, negb (is_http l)) (l0 :: ls));
     ml_listenerReporter := (reporter, l_name l0);
     ml_listener := l0 |}.
Definition merged_port (listeners : list Listener) (p : Z) : list mergedListener :=
  match on_final_port p listeners with [] => [] | l0 :: ls => [merged_of p l0 ls] end.
Definition merged_spec (listeners : list Listener) : list mergedListener :=
  flat_map (merged_port listeners) (first_ports listeners).

Lemma first_ports_spec ls :
  NoDup (first_ports ls) ∧ ∀ p, p ∈ first_ports ls ↔ ∃ l, l ∈ ls ∧ finalPort l = p.
Proof.
  induction ls as [|l ls [IHn IHe]] using rev_ind; [split; [constructor|set_solver]|].
  unfold first_ports. rewrite foldl_app. fold (first_ports ls). simpl. unfold ports_step.
  case_bool_decide as Hp; (split; [|set_solver]); [done|].
  apply NoDup_app. split_and!; [done|set_solver|apply NoDup_singleton].
Qed.

Lemma on_final_port_snoc p ls l :
  on_final_port p (ls ++ [l]) = on_final_port p ls ++ if bool_decide (finalPort l = p) then [l] else [].
Proof. unfold on_final_port. rewrite List.filter_app. simpl. by case_bool_decide. Qed.

Lemma on_final_port_cons p ls : p ∈ first_ports ls ↔ ∃ l0 rest, on_final_port p ls = l0 :: rest.
Proof.
  rewrite (proj2 (first_ports_spec ls)). split.
  - intros (l & Hl & Hp). assert (l ∈ on_final_port p ls) as Hin.
    { apply list_elem_of_In, filter_In. split; [by apply list_elem_of_In|]. by apply bool_decide_eq_true. }
    destruct (on_final_port p ls) as [|l0 rest]; [set_solver|eauto].
  - intros (l0 & rest & Heq). assert (l0 ∈ on_final_port p ls) as Hin by (rewrite Heq; left).
    apply list_elem_of_In, filter_In in Hin as [Hin Hp]. apply bool_decide_eq_true in Hp.
    exists l0. split; [by apply list_elem_of_In|done].
Qed.

Lemma update_port_None p f ls : p ∉ map ml_port ls → update_port p f ls = None.
Proof.
  induction ls as [|m ls IH]; simpl; [done|]. rewrite not_elem_of_cons. intros [Hm Hls].
  rewrite bool_decide_false by done. by rewrite IH.
Qed.

(** On a list with one entry per port, the entry of the port is edited. *)
Lemma update_port_Some p f (g : Z → list mergedListener) ps m :
  NoDup ps → p ∈ ps → g p = [m] → (∀ q x, x ∈ g q → ml_port x = q) →
  update_port p f (flat_map g ps) = Some (flat_map (λ q, if bool_decide (q = p) then [f m] else g q) ps).
Proof.
  intros Hnd Hp Hg Hport. induction ps as [|q ps IH]; [set_solver|].
  apply NoDup_cons in Hnd as [Hq Hnd]. simpl. destruct (decide (q = p)) as [->|Hne].
  - rewrite Hg, bool_decide_true by done. simpl. rewrite bool_decide_true by (apply Hport; rewrite Hg; left).
    do 2 f_equal. clear IH Hnd Hp. induction ps as [|q ps IH]; simpl; [done|].
    rewrite not_elem_of_cons in Hq. destruct Hq as [Hq Hps]. rewrite bool_decide_false by done.
    by rewrite IH.
  - rewrite (bool_decide_false (q = p)) by done.
    assert (p ∈ ps) as Hps by set_solver. specialize (IH Hnd Hps).
    assert (∀ xs, (∀ x, x ∈ xs → ml_port x ≠ p) → update_port p f (xs ++ flat_map g ps) =
      Some (xs ++ flat_map (λ q, if bool_decide (q = p) then [f m] else g q) ps)) as Hskip.
    { induction xs as [|x xs IHx]; intros Hx; simpl; [done|].
      rewrite bool_decide_false by (apply Hx; left). rewrite IHx; [done|]. set_solver. }
    apply Hskip. intros x Hx Heq. apply Hne. rewrite <-(Hport q x Hx). done.
Qed.

Lemma flat_map_ext_in {A B} (f g : A → list B) xs :
  (∀ x, x ∈ xs → f x = g x) → flat_map f xs = flat_map g xs.
Proof. induction xs as [|x xs IH]; intros Hfg; simpl; [done|]. rewrite Hfg, IH; [done|set_solver|left]. Qed.

Lemma merged_port_port ls q x : x ∈ merged_port ls q → ml_port x = q.
Proof. unfold merged_port. destruct (on_final_port q ls); set_solver. Qed.

Lemma join_snoc sep x xs y : join sep ((x :: xs) ++ [y]) = join sep (x :: xs) +:+ sep +:+ y.
Proof.
  revert x. induction xs as [|z xs IH]; intros x; [done|]. simpl in *. rewrite IH.
  by rewrite !string_append_assoc.
Qed.
Lemma append_merged merge ls l :
  (∀ p l0 rest, merge (merged_of p l0 rest) = merged_of p l0 (rest ++ [l])) →
  match update_port (finalPort l) merge (merged_spec ls) with
  | Some ls' => ls'
  | None => merged_spec ls ++ [merged_of (finalPort l) l []]
  end = merged_spec (ls ++ [l]).
Proof.
  intros Hmerge. set (p := finalPort l). pose proof (first_ports_spec ls) as [Hnd Hports].
  assert (first_ports (ls ++ [l]) = ports_step (first_ports ls) l) as Hfp.
  { unfold first_ports. by rewrite foldl_app. }
  unfold merged_spec at 3. rewrite Hfp. unfold ports_step. fold p. case_bool_decide as Hp.
  - destruct (proj1 (on_final_port_cons p ls) Hp) as (l0 & rest & Hon).
    assert (merged_port ls p = [merged_of p l0 rest]) as Hm by (unfold merged_port; by rewrite Hon).
    unfold merged_spec. erewrite update_port_Some; [|done|done|exact Hm|apply merged_port_port].
    apply flat_map_ext_in. intros q _. unfold merged_port at 2. rewrite on_final_port_snoc. fold p.
    case_bool_decide as Hq.
    + subst q. rewrite Hon, bool_decide_true by done. simpl. by rewrite Hmerge.
    + rewrite (bool_decide_false (p = q)) by done. by rewrite app_nil_r.
  - assert (on_final_port p ls = []) as Hon.
    { destruct (on_final_port p ls) as [|l0 rest] eqn:E; [done|]. exfalso. apply Hp, on_final_port_cons. eauto. }
    rewrite update_port_None; [|].
    + rewrite flat_map_app. simpl. rewrite app_nil_r. f_equal.
      * apply flat_map_ext_in. intros q Hq. unfold merged_port. rewrite on_final_port_snoc. fold p.
        rewrite bool_decide_false by (intros <-; done). by rewrite app_nil_r.
      * unfold merged_port. rewrite on_final_port_snoc, Hon. fold p. by rewrite bool_decide_true.
    + intros (m & Hm & Hin)%list_elem_of_fmap. apply elem_of_flat_map in Hin as (q & Hq & Hin).
      apply merged_port_port in Hin. congruence.
Qed.

Lemma appendListener_merged ls l :
  protocol_ok l = true →
  appendListener gatewayNamespace l (routes_of routesForGw l) (reporter, l_name l) (merged_spec ls) =
  merged_spec (ls ++ [l]).
Proof.
  intros Hok. unfold appendListener, protocol_ok in *. destruct (bool_decide (l_protocol l = HTTPProtocolType)) eqn:Eh.
  - unfold appendHttpListener. assert (is_http l = true) as Hh by done.
    rewrite <-(append_merged (λ lis,
      {| ml_name := ml_name lis +:+ "~" +:+ l_name l;
         ml_gatewayNamespace := ml_gatewayNamespace lis; ml_port := ml_port lis;
         ml_httpFilterChain := match ml_httpFilterChain lis with
                               | Some parents => Some (parents ++ [parent_of l])
                               | None => Some [parent_of l]
                               end;
         ml_httpsFilterChains := ml_httpsFilterChains lis;
         ml_listenerReporter := ml_listenerReporter lis; ml_listener := ml_listener lis |})).
    + unfold merged_of; simpl. by rewrite Hh.
    + intros p l0 rest. unfold merged_of; simpl. f_equal.
      * rewrite map_app. apply symmetry, join_snoc.
      * rewrite List.filter_app. simpl. rewrite Hh.
        destruct (is_http l0); simpl; [by rewrite map_app|].
        destruct (List.filter is_http rest); simpl; [done|]. by rewrite map_app.
      * rewrite List.filter_app. simpl. rewrite Hh. simpl. by rewrite app_nil_r.
  - simpl in Hok. rewrite Hok. unfold appendHttpsListener. assert (is_http l = false) as Hh by done.
    rewrite <-(append_merged (λ lis,
      {| ml_name := ml_name lis +:+ "~" +:+ l_name l;
         ml_gatewayNamespace := ml_gatewayNamespace lis; ml_port := ml_port lis;
         ml_httpFilterChain := ml_httpFilterChain lis;
         ml_httpsFilterChains := ml_httpsFilterChains lis ++ [chain_of l];
         ml_listenerReporter := ml_listenerReporter lis; ml_listener := ml_listener lis |})).
    + unfold merged_of; simpl. by rewrite Hh.
    + intros p l0 rest. unfold merged_of; simpl. f_equal.
      * rewrite map_app. apply symmetry, join_snoc.
      * rewrite List.filter_app. simpl. rewrite Hh. by rewrite app_nil_r.
      * rewrite List.filter_app. simpl. rewrite Hh. simpl. destruct (is_http l0); simpl; by rewrite map_app.
Qed.

(** Creating listener reports changes nothing that already exists. *)
Definition reports_same (rm rm' : ReportMap) : Prop :=
  rm_routes rm' = rm_routes rm ∧ gateways_kept rm rm' ∧
  ∀ k n, conditions_of k n rm' = conditions_of k n rm.

Lemma GatewayReporter_Listener_same k l rm : reports_same rm (GatewayReporter_Listener k l rm).2.
Proof.
  split; [done|]. simpl. split.
  - intros k' [g Hg]. unfold gateway_live. simpl. rewrite lookup_alter. case_decide; [subst; rewrite Hg|]; eauto.
  - intros k' n. unfold conditions_of, listener_report. simpl. rewrite lookup_alter.
    case_decide; [|done]. subst. destruct (rm_gateways rm !! k') as [g|]; simpl; [|done].
    unfold listener_of. destruct (gr_listeners g !! l_name l) eqn:E; simpl; [done|].
    rewrite lookup_insert. case_decide; [|done]. subst. by rewrite E.
Qed.

Lemma mergeGWListeners_ok listeners rm :
  Forall (λ l, protocol_ok l = true) listeners →
  wp (mergeGWListeners gatewayNamespace listeners routesForGw reporter)
    (λ mls rm', mls = merged_spec listeners ∧ reports_same rm rm') rm.
Proof.
  intros Hok. rewrite Forall_forall in Hok. unfold mergeGWListeners.
  apply (wp_fold_range_prefix (λ pre mls rm', mls = merged_spec pre ∧ reports_same rm rm') _ listeners 0 []).
  - by split_and!.
  - intros j pre l mls rm' Hl [-> (Hr & Hg & Hc)]. wp_step. unfold wp at 1.
    destruct (GatewayReporter_Listener_same reporter l rm') as (Hr' & Hg' & Hc').
    destruct (GatewayReporter_Listener reporter l rm') as [hd rm2] eqn:E. simpl in *.
    assert (hd = (reporter, l_name l)) as -> by (unfold GatewayReporter_Listener in E; congruence).
    apply wp_ret. split; [by apply appendListener_merged, Hok|].
    split_and!; [congruence|by etrans|]. intros. by rewrite Hc', Hc.
Qed.
Lemma merged_port_small ls q : merged_port ls q = [] ∨ ∃ m, merged_port ls q = [m] ∧ ml_port m = q.
Proof. unfold merged_port. destruct (on_final_port q ls); [by left|right]. by eexists. Qed.

Lemma merged_spec_ports ls : map ml_port (merged_spec ls) = first_ports ls.
Proof.
  unfold merged_spec. assert (∀ ps, (∀ p, p ∈ ps → p ∈ first_ports ls) →
    map ml_port (flat_map (merged_port ls) ps) = ps) as H; [|by apply H].
  induction ps as [|p ps IH]; intros Hps; simpl; [done|]. rewrite map_app, IH by set_solver.
  destruct (proj1 (on_final_port_cons p ls) (Hps p (list_elem_of_here _ _))) as (l0 & rest & Hon).
  unfold merged_port. by rewrite Hon.
Qed.

(** What a merged listener is made of. *)
Lemma merged_spec_elem ls m :
  m ∈ merged_spec ls →
  ml_gatewayNamespace m = gatewayNamespace ∧
  (∀ parent, parent ∈ default [] (ml_httpFilterChain m) → ∃ l, l ∈ ls ∧ parent = parent_of l) ∧
  (∀ mfc, mfc ∈ ml_httpsFilterChains m → ∃ l, l ∈ ls ∧ mfc = chain_of l).
Proof.
  intros (p & _ & Hm)%elem_of_flat_map. unfold merged_port in Hm.
  destruct (on_final_port p ls) as [|l0 rest] eqn:Eon; [set_solver|].
  apply list_elem_of_singleton in Hm as ->.
  assert (∀ f l, l ∈ List.filter f (l0 :: rest) → l ∈ ls) as Hin.
  { intros f l Hl. apply list_elem_of_In, filter_In in Hl as [Hl _]. rewrite <-Eon in Hl.
    apply filter_In in Hl as [Hl _]. by apply list_elem_of_In. }
  unfold merged_of; cbn [ml_gatewayNamespace ml_httpFilterChain ml_httpsFilterChains]. split_and!; [done| |].
  - intros parent Hp. destruct (List.filter is_http (l0 :: rest)) as [|h hs] eqn:Eh; [by apply not_elem_of_nil in Hp|].
    rewrite <-Eh in Hp. apply list_elem_of_fmap in Hp as (l & -> & Hl). exists l. split; [by eapply Hin|done].
  - intros mfc (l & -> & Hl)%list_elem_of_fmap. exists l. split; [by eapply Hin|done].
Qed.

(** Merging: for listeners of supported protocols, the merged listeners are exactly
    one per Envoy port, in order of first use; the one of a port is named after all its
    listeners, joined by "~", has one HTTP filter chain holding the routes of all the HTTP
    listeners (none if there are none) and one HTTPS chain per HTTPS listener, in listener
    order, and reports and plugins see it as the first listener of the port. *)
Theorem mergeGWListeners_spec listeners rm :
  Forall (λ l, protocol_ok l = true) listeners →
  ∃ mls rm', mergeGWListeners gatewayNamespace listeners routesForGw reporter rm = Ok (mls, rm') ∧
    mls = merged_spec listeners ∧ NoDup (map ml_port mls) ∧
    (∀ p, p ∈ map ml_port mls ↔ ∃ l, l ∈ listeners ∧ finalPort l = p) ∧ rm_routes rm' = rm_routes rm.
Proof.
  intros Hok. destruct (wp_run _ _ _ (mergeGWListeners_ok listeners rm Hok)) as (mls & rm' & Hrun & -> & Hr & _).
  exists (merged_spec listeners), rm'. rewrite merged_spec_ports.
  destruct (first_ports_spec listeners) as [Hnd He]. by split_and!.
Qed.
End Merge.

Lemma mergeGWListeners_spec_witness :
  let ls := [ex_l "a" 80 "HTTP" None; ex_l "b" 443 "HTTPS" (Some "b.com"); ex_l "c" 8080 "HTTP" None;
             ex_l "d" 443 "HTTPS" (Some "d.com")] in
  let none := {| rg_listenerResults := ∅; rg_routeErrors := [] |} in
  let k := {| nn_ns := "infra"; nn_name := "gw" |} in
  ∃ mls rm', mergeGWListeners "infra" ls none k NewReportMap = Ok (mls, rm') ∧
    map (λ m, (ml_name m, ml_port m)) mls = [("a~c", 8080%Z); ("b~d", 8443%Z)] ∧
    map (λ m, map hs_sniDomain (ml_httpsFilterChains m)) mls = [[]; [Some "b.com"; Some "d.com"]].
Proof.
  intros ls none k. destruct (mergeGWListeners_spec "infra" none k ls NewReportMap) as (mls & rm' & Hrun & Hmls & _).
  - repeat constructor.
  - exists mls, rm'. split; [exact Hrun|]. rewrite Hmls. by vm_compute.
Defined.

(** ** Virtual hosts *)

(** The steps of the translation: memory grows, conditions of routes are only added, and
    listeners keep their reports. *)
Record lstep (s s' : PState * Heap) : Prop := {
  lst_ok : heap_ok s'.2;
  lst_le : heap_le s.2 s'.2;
  lst_conditions : ∀ h cs, parent_conditions h (ps_reports s.1) = Some cs →
    ∃ cs', parent_conditions h (ps_reports s'.1) = Some (cs ++ cs');
  lst_gateways : gateways_kept (ps_reports s.1) (ps_reports s'.1)
}.

Lemma lstep_refl s : heap_ok s.2 → lstep s s.
Proof. intros Hok. split; [done|done| |done]. intros h cs Hcs. exists []. by rewrite app_nil_r. Qed.

Lemma lstep_trans s1 s2 s3 : lstep s1 s2 → lstep s2 s3 → lstep s1 s3.
Proof.
  intros [_ L1 C1 K1] [O2 L2 C2 K2]. split; [done|by etrans| |by etrans]. intros h cs Hcs.
  destruct (C1 _ _ Hcs) as [cs1 Hcs1]. destruct (C2 _ _ Hcs1) as [cs2 Hcs2].
  exists (cs1 ++ cs2). by rewrite (assoc_L (++)).
Qed.

(** The steps of the routes' translation also leave the gateways' reports alone. *)
Definition bstep (s s' : PState * Heap) : Prop :=
  heap_ok s'.2 ∧ heap_le s.2 s'.2 ∧ reports_le (ps_reports s.1) (ps_reports s'.1).

Lemma bstep_refl s : heap_ok s.2 → bstep s s.
Proof. intros Hok. by split. Qed.
Lemma bstep_trans s1 s2 s3 : bstep s1 s2 → bstep s2 s3 → bstep s1 s3.
Proof. intros (_ & L1 & R1) (O2 & L2 & R2). split_and!; [done|by etrans|by etrans]. Qed.
Lemma bstep_lstep s s' : bstep s s' → lstep s s'.
Proof. intros (O & L & R). split; [done|done|apply R|]. intros k. unfold gateway_live. by destruct R as [-> _]. Qed.

(** A step that leaves the memory alone. *)
Lemma lstep_reports s rm :
  heap_ok s.2 → (∀ h cs, parent_conditions h (ps_reports s.1) = Some cs → ∃ cs', parent_conditions h rm = Some (cs ++ cs')) →
  gateways_kept (ps_reports s.1) rm → lstep s (ps_set_reports rm s.1, s.2).
Proof. intros. by split. Qed.

Lemma routes_same_conditions (rm rm' : ReportMap) h cs :
  rm_routes rm' = rm_routes rm → parent_conditions h rm = Some cs →
  ∃ cs', parent_conditions h rm' = Some (cs ++ cs').
Proof. intros Hr Hcs. exists []. rewrite app_nil_r. unfold parent_conditions in *. by rewrite Hr. Qed.

Lemma wp_with_reports {A} (m : M ReportMap A) Q s :
  wp m (λ a rm, Q a (ps_set_reports rm s.1, s.2)) (ps_reports s.1) → wp (with_reports m) Q s.
Proof. unfold wp, with_reports. by destruct (m _) as [[a rm]| |]. Qed.
Lemma wp_with_pstate {A} (m : M PState A) Q s :
  wp m (λ a ps, Q a (ps, s.2)) s.1 → wp (with_pstate m) Q s.
Proof. unfold wp, with_pstate. by destruct (m _) as [[a ps]| |]. Qed.

(** A route of the virtual host of [host]: output of one of the attached routes that
    serve the host. *)
Definition serves (infos : list HTTPRouteInfo) (host : string) (sr : SortableRoute) : Prop :=
  ∃ i, i ∈ infos ∧ host ∈ hosts_or_any i ∧ sr_httpRoute sr = hi_route i ∧ output_ok i (sr_route sr).
Definition by_host_ok (infos : list HTTPRouteInfo) (m : gmap string (list SortableRoute)) : Prop :=
  ∀ host rs, m !! host = Some rs → rs ≠ [] ∧ Forall (serves infos host) rs.

Lemma serves_mono infos infos' host sr : infos ⊆ infos' → serves infos host sr → serves infos' host sr.
Proof. intros Hi (i & ? & ?). exists i. split; [by apply Hi|done]. Qed.

Lemma ToSortable_serves infos i host rs :
  i ∈ infos → host ∈ hosts_or_any i → Forall (output_ok i) rs →
  Forall (serves infos host) (ToSortable (hi_route i) rs).
Proof.
  intros Hi Hh Hrs. rewrite Forall_forall in Hrs. apply Forall_forall. intros sr Hsr.
  unfold ToSortable in Hsr. apply list_elem_of_lookup in Hsr as [n Hn].
  apply list_lookup_imap_Some in Hn as (r & Hr & ->).
  exists i. split_and!; [done..|]. apply Hrs. by eapply list_elem_of_lookup_2.
Qed.

Lemma append_routes_ok infos i rs hosts m :
  i ∈ infos → hosts ⊆ hosts_or_any i → rs ≠ [] → Forall (output_ok i) rs → by_host_ok infos m →
  by_host_ok infos (foldl (λ m host, append_route host (ToSortable (hi_route i) rs) m) m hosts).
Proof.
  intros Hi Hhosts Hne Hrs. revert m. induction hosts as [|host hosts IH]; intros m Hm; simpl; [done|].
  apply IH; [set_solver|]. intros h l. unfold append_route. rewrite lookup_insert. case_decide as Hd; [|apply Hm].
  subst h. intros [= <-]. split.
  { destruct rs; [done|]. intros [_ [=]]%app_eq_nil. }
  apply Forall_app. split.
  - destruct (m !! host) eqn:E; [by eapply Hm|constructor].
  - apply ToSortable_serves; [done| |done]. apply Hhosts. left.
Qed.

(** A virtual host: named after its listener and its only domain, with the routes of that
    host in order of precedence. *)
Definition vhost_ok (infos : list HTTPRouteInfo) (v : VirtualHost) : Prop :=
  ∃ parentName host rs, vhost_shape v = vhost_shape (make_vhost parentName host rs) ∧ rs ≠ [] ∧
    StronglySorted not_lower rs ∧ Forall (serves infos host) rs.
Definition vhosts_ok (infos : list HTTPRouteInfo) (vhosts : gmap string VirtualHost) : Prop :=
  ∀ k v, vhosts !! k = Some v → vh_name v = k ∧ vhost_ok infos v.
(** The references of a filter chain are sorted and resolve. *)
Definition refs_ok (vhosts : gmap string VirtualHost) (refs : list string) : Prop :=
  StronglySorted String.le refs ∧ ∀ r, r ∈ refs → r ∈ dom vhosts.

(** Kubernetes namespaces have no slash. *)
Definition slash_free (i : HTTPRouteInfo) : Prop :=
  contains_char "/"%char (hr_namespace (hi_route i)) = false.

Lemma serves_sortable infos host rs :
  Forall slash_free infos → Forall (serves infos host) rs → Forall sortable_ok rs.
Proof.
  intros Hsl Hrs. rewrite Forall_forall in Hsl. eapply Forall_impl; [done|].
  intros sr (i & Hi & _ & Hr & Hm & _). split; [done|]. rewrite Hr. by apply Hsl.
Qed.

Lemma vhosts_ok_mono infos infos' vhosts : infos ⊆ infos' → vhosts_ok infos vhosts → vhosts_ok infos' vhosts.
Proof.
  intros Hsub Hv k v Hk. destruct (Hv k v Hk) as [? (pn & host & rs & ?&?&?&Hrs)]. split; [done|].
  exists pn, host, rs. split_and!; [done..|]. eapply Forall_impl; [done|]. intros sr. by apply serves_mono.
Qed.

Lemma refs_ok_mono (vhosts vhosts' : gmap string VirtualHost) refs :
  dom vhosts ⊆ dom vhosts' → refs_ok vhosts refs → refs_ok vhosts' refs.
Proof. intros Hd [? Hr]. split; [done|]. intros r Hin. by apply Hd, Hr. Qed.

(** ** Listeners *)
Definition infos_of (ml : mergedListener) : list HTTPRouteInfo :=
  flat_map hp_routesWithHosts (default [] (ml_httpFilterChain ml)) ++
  flat_map hs_routesWithHosts (ml_httpsFilterChains ml).

(** The Gloo listener of a merged listener, up to what the listener plugins may edit:
    every reference of its filter chains is to one of its virtual hosts. *)
Definition listener_ok (ml : mergedListener) (l : GlooListener) : Prop :=
  gl_name l = ml_name ml ∧ gl_bindPort l = wrap_u32 (ml_port ml) ∧
  ∃ a, gl_type l = TAggregate a ∧ vhosts_ok (infos_of ml) (al_virtualHosts a) ∧
    Forall (λ c, refs_ok (al_virtualHosts a) (fc_virtualHostRefs c)) (al_httpFilterChains a).

Lemma listener_ok_shape ml l l' : listener_shape l' = listener_shape l → listener_ok ml l → listener_ok ml l'.
Proof.
  unfold listener_shape. intros Hs (Hn & Hp & a & Ha & Hv & Hc). rewrite Ha in Hs.
  destruct (gl_type l') as [a'|] eqn:Ea'; [|done]. injection Hs as Hn' Hp' Hv' Hc'.
  split_and!; [congruence|congruence|]. exists a'. split; [done|].
  assert (∀ k, vhost_shape <$> al_virtualHosts a' !! k = vhost_shape <$> al_virtualHosts a !! k) as Hk.
  { intros k. by rewrite <-!lookup_fmap, Hv'. }
  assert (dom (al_virtualHosts a') = dom (al_virtualHosts a)) as Hdom.
  { by rewrite <-(dom_fmap_L vhost_shape), Hv', dom_fmap_L. }
  split.
  - intros k v' Hv1. specialize (Hk k). rewrite Hv1 in Hk. simpl in Hk. symmetry in Hk.
    apply fmap_Some in Hk as (v & Hv2 & Heq). destruct (Hv k v Hv2) as [Hname (pn & host & rs & Hsh & ?&?&?)].
    pose proof Heq as Heq'. unfold vhost_shape in Heq'. injection Heq' as Hname' _ _.
    split; [congruence|]. exists pn, host, rs. split_and!; [congruence|done..].
  - assert (map fc_virtualHostRefs (al_httpFilterChains a') = map fc_virtualHostRefs (al_httpFilterChains a)) as Hrefs.
    { apply (f_equal (map snd)) in Hc'. by rewrite !map_map in Hc'. }
    rewrite Forall_forall in Hc. apply Forall_forall. intros c' Hin.
    assert (fc_virtualHostRefs c' ∈ map fc_virtualHostRefs (al_httpFilterChains a)) as Hin'.
    { rewrite <-Hrefs. apply list_elem_of_fmap. by exists c'. }
    apply list_elem_of_fmap in Hin' as (c & -> & Hinc). by eapply refs_ok_mono, Hc; [rewrite Hdom|].
Qed.

Section Facts.
Context `{!GoRange string} `{!GoRange Z} `{!RoutePlugins} `{!ListenerPlugins} `{K8sClient} `{X509}.

Lemma build_route_ok roots infos gwListener i m s :
  i ∈ infos → attached_good s.2 roots i → heap_ok s.2 → roots_ready s.2 roots → by_host_ok infos m →
  wp (build_route gwListener i m) (λ m' s', by_host_ok infos m' ∧ bstep s s' ∧ roots_ready s'.2 roots) s.
Proof.
  intros Hi (Hwf & Hac & Hroot & Hbelow) Hok Hready Hm. unfold build_route. wp_step.
  apply wp_with_reports. unfold wp at 1.
  pose proof (route_parent_reporter_le (hi_route i) (hi_parentRef i) (ps_reports s.1)) as Hrep.
  destruct (route_parent_reporter _ _ _) as [hd rm1]. destruct Hrep as [Hle1 _].
  set (ps1 := ps_set_reports rm1 s.1).
  assert (bstep s (ps1, s.2)) as Hst1.
  { by split_and!. }
  wp_step. eapply wp_mono; [apply (translate_rules_ok gwListener _ i hd ps1 s.2); [done..| |]|].
  - by apply Hready.
  - intros Hb. by apply (Hbelow _ Hb).
  - intros rs s2 (Hrs & Hle2 & Hok2 & Hhle2 & Hframe).
    assert (bstep s s2) as Hst2.
    { eapply bstep_trans; [exact Hst1|]. by split_and!. }
    assert (roots_ready s2.2 roots) as Hready2.
    { intros l Hl. destruct (Hready l Hl) as (rl & Hrl & Hrd). exists rl. split; [|done].
      rewrite Hframe; [done|apply elem_of_dom; by exists rl|]. intros Hb. by apply (Hbelow _ Hb). }
    destruct rs as [|r rs]; apply wp_ret; (split; [|done]); [done|]. by apply append_routes_ok.
Qed.

Lemma attached_good_step roots (s s' : PState * Heap) i : heap_le s.2 s'.2 → attached_good s.2 roots i → attached_good s'.2 roots i.
Proof. intros Hst (?&?&?&?). split_and!; [|done..]. by eapply wf_info_mono. Qed.

Lemma buildRoutesPerHost_ok roots infos gwListener rs m s :
  rs ⊆ infos → Forall (attached_good s.2 roots) rs → heap_ok s.2 → roots_ready s.2 roots → by_host_ok infos m →
  wp (buildRoutesPerHost m rs gwListener)
    (λ m' s', by_host_ok infos m' ∧ bstep s s' ∧ roots_ready s'.2 roots) s.
Proof.
  intros Hsub Hgood Hok Hready Hm. rewrite Forall_forall in Hgood. unfold buildRoutesPerHost.
  apply (wp_fold_range (λ m' s', by_host_ok infos m' ∧ bstep s s' ∧ roots_ready s'.2 roots)).
  - split_and!; [done|by apply bstep_refl|done].
  - intros j i m1 s1 Hi (Hm1 & Hst1 & Hr1). eapply wp_mono; [apply (build_route_ok roots infos)|].
    + by apply Hsub.
    + eapply attached_good_step; [apply Hst1|by apply Hgood].
    + apply Hst1.
    + done.
    + done.
    + intros m2 s2 (? & ? & ?). split_and!; [done|by eapply bstep_trans|done].
Qed.

Lemma build_vhosts_ok infos parentName m s :
  Forall slash_free infos → by_host_ok infos m →
  wp (build_vhosts parentName m) (λ out s', vhosts_ok infos out.2 ∧ refs_ok out.2 out.1 ∧ s' = s) s.
Proof.
  intros Hsl Hm. unfold build_vhosts. wp_step.
  eapply wp_mono; [apply (wp_fold_range (λ out s', vhosts_ok infos out.2 ∧
    (∀ r, r ∈ out.1 → r ∈ dom out.2) ∧ s' = s))|].
  - split_and!; [|set_solver|done]. intros k v; simpl; by rewrite lookup_empty.
  - intros j [host rs] [refs vhosts] s1 Hin (Hv & Hr & ->). apply go_range_elem in Hin.
    destruct (Hm _ _ Hin) as [Hne Hrs]. wp_step.
    destruct (sort_routes_sorted rs (serves_sortable _ _ _ Hsl Hrs)) as (rs' & Hs & Hp & Hsorted).
    eapply wp_lift_res; [done|]. apply wp_ret. simpl. split_and!; [| |done].
    + intros k v. rewrite lookup_insert. case_decide as Hk; [|apply Hv]. intros [= <-]. split; [done|].
      exists parentName, host, rs'. split_and!; [done| |done|].
      * intros ->. by apply Permutation_nil in Hp.
      * by rewrite Hp.
    + intros r [Hr'|Hr']%elem_of_app; [set_solver|]. apply list_elem_of_singleton in Hr'. set_solver.
  - intros [refs vhosts] s1 (Hv & Hr & ->). apply wp_ret. split_and!; [done| |done]. split; simpl.
    + apply sort_strings_sorted.
    + intros r. rewrite sort_strings_perm. apply Hr.
Qed.
Lemma merge_vhosts_ok infos vhosts merged :
  vhosts_ok infos vhosts → vhosts_ok infos merged →
  vhosts_ok infos (merge_vhosts vhosts merged) ∧
  dom vhosts ⊆ dom (merge_vhosts vhosts merged) ∧ dom merged ⊆ dom (merge_vhosts vhosts merged).
Proof.
  intros Hv. unfold merge_vhosts.
  assert (∀ kvs : list (string * VirtualHost), (∀ k v, (k, v) ∈ kvs → vhosts !! k = Some v) → ∀ m, vhosts_ok infos m →
    let m' := foldl (λ m '(vhostRef, vhost), <[vhostRef:=vhost]> m) m kvs in
    vhosts_ok infos m' ∧ (∀ k, k ∈ kvs.*1 → k ∈ dom m') ∧ dom m ⊆ dom m') as Hfold.
  { induction kvs as [|[k v] kvs IH]; intros Hkvs m Hm; simpl; [split_and!; [done|set_solver|done]|].
    destruct (IH ltac:(intros; apply Hkvs; by right) (<[k:=v]> m)) as (H1' & H2' & H3').
    - intros k' v'. rewrite lookup_insert. case_decide; [|apply Hm]. intros [= <-]. subst. apply Hv, Hkvs. left.
    - split_and!; [done| |set_solver]. intros k' [->|Hk']%elem_of_cons; [set_solver|auto]. }
  intros Hm. destruct (Hfold (go_range vhosts)) with (m := merged) as (H1' & H2' & H3'); [|done|].
  - intros k v. apply go_range_elem.
  - split_and!; [done| |done]. intros k Hk. apply H2'. apply elem_of_dom in Hk as [v Hk].
    apply list_elem_of_fmap. exists (k, v). split; [done|]. by apply go_range_elem.
Qed.

(** ** TLS *)
Definition is_secret (o : KObj) : Prop := ∃ m data, o = OSecret m data.
Definition gateway_from (ns : string) : From :=
  {| from_group_kind := inr {| gk_group := GatewayGroup; gk_kind := "Gateway" |}; from_namespace := ns |}.
(** The certificate references that resolve at all resolve to Secrets. *)
Definition certs_are_secrets (ns : string) (tls : option GatewayTLSConfig) : Prop :=
  ∀ t ref o, tls = Some t → ref ∈ tls_certificateRefs t → GetSecretForRef (gateway_from ns) ref = inr o → is_secret o.

Lemma translateSslConfig_total ns sni tls :
  certs_are_secrets ns tls → ∃ r, translateSslConfig ns sni tls = Ok r.
Proof.
  intros Hc. unfold translateSslConfig. destruct tls as [t|]; [|eauto].
  destruct (negb _); [eauto|]. destruct (tls_certificateRefs t) as [|ref refs] eqn:E; [eauto|].
  fold (gateway_from ns). destruct (GetSecretForRef (gateway_from ns) ref) as [e|o] eqn:Eo; [eauto|].
  destruct (Hc t ref o) as (m & data & ->); [done|rewrite E; left|done|]. destruct (SslUtils.ValidateTlsSecret m data); eauto.
Qed.

Section Roots.
Context (roots : gset loc).

Definition ready (s : PState * Heap) (rs : list HTTPRouteInfo) : Prop :=
  heap_ok s.2 ∧ roots_ready s.2 roots ∧ Forall (λ i, attached_good s.2 roots i ∧ slash_free i) rs.

Lemma ready_good s rs : ready s rs → Forall (attached_good s.2 roots) rs ∧ Forall slash_free rs.
Proof. intros (_ & _ & Hr). split; (eapply Forall_impl; [done|]); by intros ? []. Qed.

Lemma ready_step s s' rs : lstep s s' → roots_ready s'.2 roots → ready s rs → ready s' rs.
Proof.
  intros Hst Hr (Hok & _ & Hrs). split_and!; [apply Hst|done|]. eapply Forall_impl; [done|].
  intros i [Hg ?]. split; [|done]. eapply attached_good_step; [apply Hst|done].
Qed.

Lemma ready_sub s rs rs' : rs' ⊆ rs → ready s rs → ready s rs'.
Proof.
  intros Hsub (Hok & Hr & Hrs). split_and!; [done..|]. rewrite Forall_forall in Hrs. apply Forall_forall. auto.
Qed.

Lemma translateHttpFilterChain_ok parents parentName listener s :
  ready s (flat_map hp_routesWithHosts parents) →
  wp (translateHttpFilterChain parents parentName listener) (λ out s',
    vhosts_ok (flat_map hp_routesWithHosts parents) out.2 ∧ refs_ok out.2 (fc_virtualHostRefs out.1) ∧
    lstep s s' ∧ roots_ready s'.2 roots) s.
Proof.
  intros Hready. set (infos := flat_map hp_routesWithHosts parents) in *.
  pose proof Hready as (Hok & Hr & _). destruct (ready_good _ _ Hready) as [Hgood Hsl].
  unfold translateHttpFilterChain. wp_step.
  eapply wp_mono; [apply (wp_fold_range (λ m s', by_host_ok infos m ∧ bstep s s' ∧ roots_ready s'.2 roots))|].
  - split_and!; [|by apply bstep_refl|done]. intros host rs. by rewrite lookup_empty.
  - intros j parent m s1 Hp (Hm & Hst & Hr1).
    assert (hp_routesWithHosts parent ⊆ infos) as Hsub.
    { intros i Hi. apply elem_of_flat_map. by exists parent. }
    eapply wp_mono; [apply (buildRoutesPerHost_ok roots infos); [done| |apply Hst|done|done]|].
    + rewrite Forall_forall in Hgood. apply Forall_forall. intros i Hi.
      eapply attached_good_step; [apply Hst|]. by apply Hgood, Hsub.
    + intros m2 s2 (?&?&?). split_and!; [done|by eapply bstep_trans|done].
  - intros m s1 (Hm & Hst & Hr1). wp_step. eapply wp_mono; [by apply build_vhosts_ok|].
    intros out s2 (Hv & Href & ->). apply wp_ret. split_and!; [done|done|by apply bstep_lstep|done].
Qed.

(** A failed TLS configuration: the chain is dropped, and the reason reported. *)
Definition ssl_conditions (err : Err) : list Condition :=
  [report_condition "ResolvedRefs" ConditionFalse (ssl_error_reason err) "";
   report_condition "Programmed" ConditionFalse "Invalid" ""].
Definition ssl_reports (hd : ListenerReporter) (err : Err) (rm : ReportMap) : ReportMap :=
  foldl (λ rm c, ListenerReporter_SetCondition hd c rm) rm (ssl_conditions err).

Lemma translateHttpsFilterChain_ok mfc parentName ns listener hd s :
  ready s (hs_routesWithHosts mfc) → certs_are_secrets ns (hs_tls mfc) →
  wp (translateHttpsFilterChain mfc parentName ns listener hd) (λ out s', ∃ s1, bstep s s1 ∧
    roots_ready s'.2 roots ∧ s'.2 = s1.2 ∧
    match translateSslConfig ns (hs_sniDomain mfc) (hs_tls mfc) with
    | Ok (inl err) => out = (None, ∅) ∧ ps_reports s'.1 = ssl_reports hd err (ps_reports s1.1)
    | Ok (inr cfg) => (∃ refs, out.1 = Some {| fc_sslConfig := cfg; fc_virtualHostRefs := refs; fc_httpOptionsRef := "" |} ∧
        refs_ok out.2 refs) ∧ vhosts_ok (hs_routesWithHosts mfc) out.2 ∧ s' = s1
    | _ => False
    end) s.
Proof.
  intros Hready Hcerts. pose proof Hready as (Hok & Hr & _). destruct (ready_good _ _ Hready) as [Hgood Hsl].
  unfold translateHttpsFilterChain. wp_step.
  eapply wp_mono; [apply (buildRoutesPerHost_ok roots (hs_routesWithHosts mfc)); [done..|]|].
  { intros host rs. by rewrite lookup_empty. }
  intros m s1 (Hm & Hst & Hr1). wp_step. eapply wp_mono; [by apply build_vhosts_ok|].
  intros [refs vhosts] s2 (Hv & Href & ->). wp_step.
  destruct (translateSslConfig_total ns (hs_sniDomain mfc) (hs_tls mfc) Hcerts) as [[err|cfg] Hssl].
  - eapply wp_lift_res; [done|]. rewrite Hssl. wp_step. apply wp_with_reports, wp_modify. wp_step.
    apply wp_with_reports, wp_modify, wp_ret. by exists s1.
  - eapply wp_lift_res; [done|]. rewrite Hssl. apply wp_ret. exists s1. split_and!; [done..| |done|done].
    by exists refs.
Qed.
Lemma ssl_reports_step hd err s :
  heap_ok s.2 → lstep s (ps_set_reports (ssl_reports hd err (ps_reports s.1)) s.1, s.2).
Proof.
  intros Hok. apply lstep_reports; [done|intros h cs; by apply routes_same_conditions|]. unfold ssl_reports. by repeat (etrans; [|apply alter_gateway_kept]).
Qed.

Lemma lstep_same s s1 rm :
  s.2 = s1.2 → ps_reports s.1 = rm → lstep s1 (ps_set_reports rm s1.1, s1.2) → lstep s1 s.
Proof. destruct s as [ps h], s1 as [ps1 h1]. simpl. intros -> Hrm [????]. split; simpl in *; rewrite ?Hrm; done. Qed.

Definition aggregate_ok (infos : list HTTPRouteInfo) (acc : list HttpFilterChain * gmap string VirtualHost) : Prop :=
  vhosts_ok infos acc.2 ∧ Forall (λ c, refs_ok acc.2 (fc_virtualHostRefs c)) acc.1.

Lemma aggregate_add infos infos' acc (chain : HttpFilterChain) vhosts :
  infos' ⊆ infos → aggregate_ok infos acc → vhosts_ok infos' vhosts → refs_ok vhosts (fc_virtualHostRefs chain) →
  aggregate_ok infos (acc.1 ++ [chain], merge_vhosts vhosts acc.2).
Proof.
  intros Hsub [Hv Hc] Hv' Href. destruct (merge_vhosts_ok infos vhosts acc.2) as (Hm & Hd1 & Hd2); [|done|].
  { by eapply vhosts_ok_mono. }
  split; [done|]. simpl. apply Forall_app. split.
  - eapply Forall_impl; [done|]. intros c. by apply refs_ok_mono.
  - constructor; [|done]. by apply (refs_ok_mono vhosts).
Qed.

Lemma https_chain_ok infos mfc ns listener hd acc s :
  ready s infos → hs_routesWithHosts mfc ⊆ infos → certs_are_secrets ns (hs_tls mfc) → aggregate_ok infos acc →
  wp (c <~ translateHttpsFilterChain mfc (hs_gatewayListenerName mfc) ns listener hd ;;
      match c.1 with
      | None => ret acc
      | Some chain => ret (acc.1 ++ [chain], merge_vhosts c.2 acc.2)
      end) (λ acc' s', aggregate_ok infos acc' ∧ lstep s s' ∧ roots_ready s'.2 roots) s.
Proof.
  intros Hready Hsub Hcerts Hacc. wp_step.
  eapply wp_mono; [apply translateHttpsFilterChain_ok; [by eapply ready_sub|done]|].
  intros [chain vhosts] s' (s1 & Hst & Hr & Hheap & Hres). apply bstep_lstep in Hst.
  destruct (translateSslConfig _ _ _) as [[err|cfg]| |]; [| |done..]; simpl in Hres.
  - destruct Hres as [[= -> ->] Hrm]. apply wp_ret. split_and!; [done| |done].
    eapply lstep_trans; [exact Hst|]. eapply lstep_same; [done|exact Hrm|]. apply ssl_reports_step, Hst.
  - destruct Hres as ((refs & -> & Href) & Hv & ->). apply wp_ret. split_and!; [|done|done].
    by eapply aggregate_add.
Qed.

Lemma translateListener_ok ml s :
  ready s (infos_of ml) →
  Forall (λ mfc, certs_are_secrets (ml_gatewayNamespace ml) (hs_tls mfc)) (ml_httpsFilterChains ml) →
  wp (translateListener ml) (λ l s', listener_ok ml l ∧ lstep s s' ∧ roots_ready s'.2 roots) s.
Proof.
  intros Hready Hcerts. pose proof Hready as (Hok & Hr & _). unfold translateListener. wp_step.
  eapply (wp_mono _ (λ acc s1, aggregate_ok (infos_of ml) acc ∧ lstep s s1 ∧ roots_ready s1.2 roots)).
  { destruct (ml_httpFilterChain ml) as [parents|] eqn:Ep.
    - assert (flat_map hp_routesWithHosts parents ⊆ infos_of ml) as Hsub.
      { unfold infos_of. rewrite Ep. simpl. set_solver. }
      wp_step. eapply wp_mono; [apply translateHttpFilterChain_ok; by eapply ready_sub|].
      intros [chain vhosts] s1 (Hv & Href & Hst & Hr1). apply wp_ret. split_and!; [|done|done].
      apply (aggregate_add _ (flat_map hp_routesWithHosts parents) ([], ∅)); [done| |done|done].
      split; [|done]. intros k v. simpl. by rewrite lookup_empty.
    - apply wp_ret. split_and!; [|by apply lstep_refl|done]. split; [|done]. intros k v. simpl. by rewrite lookup_empty. }
  intros acc s1 (Hacc & Hst & Hr1). wp_step. rewrite Forall_forall in Hcerts.
  eapply wp_mono; [apply (wp_fold_range (λ acc s2, aggregate_ok (infos_of ml) acc ∧ lstep s s2 ∧ roots_ready s2.2 roots));
    [done|]|].
  - intros j mfc [chains vhosts] s2 Hin (Hacc2 & Hst2 & Hr2).
    eapply wp_mono; [apply (https_chain_ok (infos_of ml) mfc _ _ _ (chains, vhosts));
      [by eapply ready_step| |by apply Hcerts|done]|].
    + intros i Hi. unfold infos_of. apply elem_of_app. right. apply elem_of_flat_map. by exists mfc.
    + intros acc3 s3 (?&?&?). split_and!; [done|by eapply lstep_trans|done].
  - intros [chains vhosts] s2 ((Hv & Hc) & Hst2 & Hr2). apply wp_ret. split_and!; [|done|done].
    split_and!; [done..|]. by eexists.
Qed.

Lemma translateListeners_ok gateway mls s :
  heap_ok s.2 → roots_ready s.2 roots →
  Forall (λ ml, ready s (infos_of ml) ∧
    Forall (λ mfc, certs_are_secrets (ml_gatewayNamespace ml) (hs_tls mfc)) (ml_httpsFilterChains ml)) mls →
  wp (translateListeners gateway mls) (λ ls s', Forall2 listener_ok mls ls ∧ lstep s s') s.
Proof.
  intros Hok Hr Hmls. rewrite Forall_forall in Hmls. unfold translateListeners.
  eapply wp_mono; [apply (wp_fold_range_prefix (λ pre ls s', Forall2 listener_ok pre ls ∧ lstep s s' ∧
    roots_ready s'.2 roots) _ mls 0 [])|].
  - split_and!; [constructor|by apply lstep_refl|done].
  - intros j pre ml ls s1 Hml (Hls & Hst & Hr1). destruct (Hmls _ Hml) as [Hready Hcerts]. wp_step.
    eapply wp_mono; [apply translateListener_ok; [by eapply ready_step|done]|].
    intros l s2 (Hl & Hst2 & Hr2). wp_step.
    eapply wp_mono; [apply (wp_fold_range (λ l s3, listener_ok ml l ∧ lstep s s3 ∧ roots_ready s3.2 roots))|].
    + split_and!; [done|by eapply lstep_trans|done].
    + intros _ plugin l1 s3 Hp (Hl1 & Hst3 & Hr3). wp_step. apply wp_with_pstate.
      pose proof listener_plugins_ok as Hall. rewrite Forall_forall in Hall.
      eapply wp_mono; [apply (Hall _ Hp)|]. intros [e l2] ps (Hshape & Hrep). apply wp_ret. simpl in *.
      split_and!; [by eapply listener_ok_shape| |done]. eapply lstep_trans; [exact Hst3|].
      split; simpl; [apply Hst3|done| |by rewrite Hrep]. intros h cs Hcs. exists []. by rewrite Hrep, app_nil_r.
    + intros l1 s3 (Hl1 & Hst3 & Hr3). apply wp_ret. split_and!; [|done|done]. by apply Forall2_app, Forall2_cons_2.
  - by intros ls s1 (?&?&?).
Qed.
End Roots.
End Facts.
