(* ===== verification/GatewayTranslator.v ===== *)
(** * translator/gateway_translator.go: a Gateway becomes a Proxy *)

From stdpp Require Import base gmap strings list fin_maps sets.
From Stdlib Require Import ZArith Lia.
From S2P Require Import Prelude GoLib GwApi Reports Heap Query RouteOrder PluginApi HttpRoute ListenerValidation ListenerTranslator.

Import Reports Query HttpRoute ListenerTranslator.

Record Proxy := {
  px_name : string; px_namespace : string; px_labels : gmap string string;
  px_listeners : list GlooListener
}.

Module GatewayTranslator.

Definition ProxyTypeKey : string := "created_by".
Definition GatewayApiProxyValue : string := "gloo-kube-gateway-api".
Definition GatewayNamespaceKey : string := "gateway_namespace".

(** [proxyMetadata], with the listeners of the Proxy. *)
Definition make_proxy (gateway : Gateway) (writeNamespace : string) (listeners : list GlooListener) : Proxy :=
  {| px_name := om_namespace (gw_meta gateway) +:+ "-" +:+ om_name (gw_meta gateway);
     px_namespace := writeNamespace;
     px_labels := <[ProxyTypeKey := GatewayApiProxyValue]>
                  {[ GatewayNamespaceKey := om_namespace (gw_meta gateway) ]};
     px_listeners := listeners |}.

Section Translate.
Context `{!GoRange string} `{!GoRange Z} `{!RoutePlugins} `{!ListenerPlugins} `{K8sClient} `{X509}.

Definition report_route_error (rErr : RouteError) (rm : ReportMap) : ReportMap :=
  let '(hd, rm) := route_parent_reporter (re_route rErr) (re_parentRef rErr) rm in
  ParentRefReporter_SetCondition hd (report_condition "Accepted" ConditionFalse (re_reason rErr) "") rm.

Definition report_attached (gateway : Gateway) (routesForGw : RoutesForGwResult) (listener : Listener)
    (rm : ReportMap) : ReportMap :=
  let availRoutes := length (routes_of routesForGw listener) in
  let '(k, rm) := reporter_Gateway gateway rm in
  let '(hd, rm) := GatewayReporter_Listener k listener rm in
  ListenerReporter_SetAttachedRoutes hd (Z.of_nat availRoutes) rm.

(** The heap is the memory of the objects loaded by the queries. *)
Definition TranslateProxy (fuel : nat) (gateway : Gateway) (writeNamespace : string) :
    M (PState * Heap) (option Proxy) :=
  routesForGw <~ (λ s, match GetRoutesForGateway fuel gateway s.2 with
                       | Ok (r, h) => Ok (r, (s.1, h))
                       | Panic why => Panic why
                       | OutOfFuel => OutOfFuel
                       end) ;;
  match routesForGw with
  | inl _ => ret None
  | inr routesForGw =>
      do! for_range (rg_routeErrors routesForGw) (λ rErr, with_reports (modify (report_route_error rErr))) ;;
      do! for_range (gw_listeners gateway) (λ listener, with_reports (modify (report_attached gateway routesForGw listener))) ;;
      listeners <~ TranslateListeners gateway routesForGw ;;
      ret (Some (make_proxy gateway writeNamespace listeners))
  end.
End Translate.
End GatewayTranslator.
