(* ===== verification/GatewayTranslatorFacts.v ===== *)
(** * End to end: the TLS of HTTPS listeners, and the Proxy of a Gateway *)

From stdpp Require Import base gmap strings list fin_maps sets sorting.
From Stdlib Require Import ZArith Ascii Lia.
From S2P Require Import Prelude GoLib GwApi Reports Heap Query QueryFacts RouteOrder PluginApi Delegation DelegationFacts HttpRoute HttpRouteFacts ListenerValidation ListenerValidationFacts ListenerTranslator ListenerTranslatorFacts GatewayTranslator.

Import Reports Query HttpRoute ListenerValidation ListenerTranslator GatewayTranslator.

(** ** TLS *)
Section Tls.
Context `{!GoRange string} `{!RoutePlugins} `{K8sClient} `{X509}.

(** A namespace may use an object: it is its own, or a ReferenceGrant permits it. *)
Definition may_refer (fromgk : GroupKind) (fromNs ns name : string) (gk : GroupKind) : Prop :=
  ns = fromNs ∨ ∃ grants, list_grants ns fromNs = inr grants ∧ ReferenceAllowed fromgk fromNs gk name grants = true.

Definition secret_kind (ref : SecretObjectReference) : GroupKind :=
  {| gk_group := default "" (sr_group ref); gk_kind := default "Secret" (sr_kind ref) |}.
Definition gateway_group_kind : GroupKind := {| gk_group := GatewayGroup; gk_kind := "Gateway" |}.

(** The certificate chain and key of a Secret are usable by Envoy. *)
Definition usable_pair (data : gmap string string) : Prop :=
  ∃ cert key certs pem, data !! "tls.crt" = Some cert ∧ data !! "tls.key" = Some key ∧
    cert ≠ "" ∧ key ≠ "" ∧ X509KeyPair cert key = None ∧
    ParseCertsPEM cert = inr certs ∧ EncodeCertificates certs = inr pem ∧ trim_space pem = trim_space cert.

Lemma ValidateTlsSecret_None m data : SslUtils.ValidateTlsSecret m data = None ↔ usable_pair data.
Proof.
  unfold SslUtils.ValidateTlsSecret, SslUtils.validatedCertData, SslUtils.isValidSslKeyPair, usable_pair.
  change SslUtils.TLSCertKey with "tls.crt". change SslUtils.TLSPrivateKeyKey with "tls.key". split.
  - destruct (data !! "tls.crt") as [cert|] eqn:Ec; simpl; [|done].
    destruct (data !! "tls.key") as [key|] eqn:Ek; simpl; [|by rewrite orb_true_r].
    destruct (bool_decide (cert = "")) eqn:E1, (bool_decide (key = "")) eqn:E2; simpl; try done.
    apply bool_decide_eq_false in E1, E2.
    destruct (X509KeyPair cert key) eqn:Ep; [done|].
    destruct (ParseCertsPEM cert) as [|certs] eqn:Epe; [done|].
    destruct (EncodeCertificates certs) as [|pem] eqn:Een; [done|].
    destruct (bool_decide (trim_space pem = trim_space cert)) eqn:Et; [|done].
    apply bool_decide_eq_true in Et. intros _. by exists cert, key, certs, pem.
  - intros (cert & key & certs & pem & -> & -> & Hc & Hk & Hp & Hpe & Hen & Ht). simpl.
    rewrite (bool_decide_false (cert = "")), (bool_decide_false (key = "")) by done. simpl.
    by rewrite Hp, Hpe, Hen, bool_decide_true.
Qed.

Lemma GetSecretForRef_allowed ns ref o :
  ns ≠ "" → GetSecretForRef (gateway_from ns) ref = inr o →
  let ns' := default ns (sr_namespace ref) in
  get_object (secret_kind ref) {| nn_ns := ns'; nn_name := sr_name ref |} = inr o ∧
  may_refer gateway_group_kind ns ns' (sr_name ref) (secret_kind ref).
Proof.
  intros Hns. unfold GetSecretForRef, getRef, gateway_from, may_refer. simpl. fold (secret_kind ref).
  rewrite (bool_decide_false (ns = "")) by done. set (ns' := default ns (sr_namespace ref)).
  case_bool_decide as Heq.
  - destruct (known_kind _); [|done]. eauto.
  - unfold referenceAllowed. fold gateway_group_kind. destruct (list_grants ns' ns) as [|grants] eqn:Eg; [done|].
    destruct (ReferenceAllowed gateway_group_kind ns (secret_kind ref) (sr_name ref) grants) eqn:Ea; [|done].
    destruct (known_kind _); [|done]. intros Ho. split; [done|]. right. by exists grants.
Qed.

(** C28. A listener only gets an SSL configuration from a usable certificate it may read:
    when [translateSslConfig] returns one, the listener terminates TLS, its first
    certificateRef resolves to a Secret in the Gateway's namespace or in one whose
    ReferenceGrants permit it, the Secret holds a certificate chain and key that form a
    valid pair and survive re-encoding, and the configuration names that Secret and the
    listener's hostname. *)
Theorem translateSslConfig_sound ns sni tls cfg :
  ns ≠ "" → translateSslConfig ns sni tls = Ok (inr (Some cfg)) →
  ∃ t ref rest m data, tls = Some t ∧ tls_mode t = Some TLSModeTerminate ∧ tls_certificateRefs t = ref :: rest ∧
    let ns' := default ns (sr_namespace ref) in
    get_object (secret_kind ref) {| nn_ns := ns'; nn_name := sr_name ref |} = inr (OSecret m data) ∧
    may_refer gateway_group_kind ns ns' (sr_name ref) (secret_kind ref) ∧ usable_pair data ∧
    cfg = {| ssl_secretRef := {| rf_name := sr_name ref; rf_namespace := ns' |};
             ssl_sniDomains := option_list sni |}.
Proof.
  intros Hns. unfold translateSslConfig. destruct tls as [t|]; [|done].
  destruct (ptr_is (tls_mode t) TLSModeTerminate) eqn:Em; simpl; [|done]. apply ptr_is_true in Em.
  destruct (tls_certificateRefs t) as [|ref rest] eqn:Er; [done|]. fold (gateway_from ns).
  destruct (GetSecretForRef (gateway_from ns) ref) as [|o] eqn:Eo; [done|].
  destruct (GetSecretForRef_allowed _ _ _ Hns Eo) as [Hget Hmay].
  destruct o as [| |m data| | |]; try done. destruct (SslUtils.ValidateTlsSecret m data) eqn:Ev; [done|].
  intros [= <-]. exists t, ref, rest, m, data. split_and!; try done. by eapply ValidateTlsSecret_None.
Qed.

(** A failed certificate: when the SSL configuration of an HTTPS listener fails, the
    routes are still translated (so their errors are reported), but the filter chain and
    its virtual hosts are dropped and the listener's reporter gets exactly ResolvedRefs
    false, with reason RefNotPermitted when a ReferenceGrant is missing and
    InvalidCertificateRef otherwise, and Programmed false. *)
Theorem translateHttpsFilterChain_error roots mfc parentName ns listener k n err s lr :
  ready roots s (hs_routesWithHosts mfc) → certs_are_secrets ns (hs_tls mfc) →
  translateSslConfig ns (hs_sniDomain mfc) (hs_tls mfc) = Ok (inl err) →
  listener_report (k, n) (ps_reports s.1) = Some lr →
  ∃ s', translateHttpsFilterChain mfc parentName ns listener (k, n) s = Ok (None, ∅, s') ∧
    conditions_of k n (ps_reports s'.1) = ls_conditions lr ++
      [report_condition "ResolvedRefs" ConditionFalse
         (if errors_is err ErrMissingReferenceGrant then "RefNotPermitted" else "InvalidCertificateRef") "";
       report_condition "Programmed" ConditionFalse "Invalid" ""] ∧
    lstep s s'.
Proof.
  intros Hready Hcerts Herr Hlr.
  destruct (wp_run _ _ _ (translateHttpsFilterChain_ok roots mfc parentName ns listener (k, n) s Hready Hcerts))
    as (out & s' & Hrun & s1 & Hst & Hr & Hheap & Hres). rewrite Herr in Hres. destruct Hres as [-> Hrm].
  exists s'. split; [done|]. pose proof (bstep_lstep _ _ Hst) as Hst'. destruct Hst as (Hok & _ & [Hg _]).
  assert (listener_report (k, n) (ps_reports s1.1) = Some lr) as Hlr1 by (unfold listener_report in *; by rewrite Hg).
  split.
  - rewrite Hrm. unfold conditions_of, ssl_reports, ssl_conditions. simpl foldl.
    erewrite listener_set_condition_same; [|by apply listener_set_condition_same]. simpl.
    rewrite <-(assoc_L (++)). unfold ssl_error_reason. by destruct (errors_is err ErrMissingReferenceGrant).
  - eapply lstep_trans; [exact Hst'|]. eapply lstep_same; [done|exact Hrm|]. by apply ssl_reports_step.
Qed.
End Tls.

(** A terminating listener with a certificate in its own namespace. *)
Definition ex_pem : string := "CERT
".
Definition ex_tls_client (data : gmap string string) : K8sClient :=
  {| get_httproute _ := inl (ErrNotFound ""); list_httproutes_in _ := inr []; list_httproutes_by_target _ := inr [];
     list_grants _ _ := inr []; known_kind gk := bool_decide (gk_kind gk = "Secret");
     get_object _ n := inr (OSecret (ex_meta (nn_ns n) (nn_name n)) data);
     namespace_labels _ := ∅; label_selector _ := inl (ErrOther "no selector");
     httproute_group_kind := inr {| gk_group := GatewayGroup; gk_kind := HTTPRouteKind |} |}.
Definition ex_x509 : X509 :=
  {| certificates := string; X509KeyPair c k := if bool_decide (c = k) then Some (ErrOther "bad pair") else None;
     ParseCertsPEM c := inr c; EncodeCertificates c := inr c |}.
Definition ex_cert_ref (ns : option string) : SecretObjectReference :=
  {| sr_group := None; sr_kind := None; sr_name := "cert"; sr_namespace := ns |}.
Definition ex_tls (ns : option string) : option GatewayTLSConfig :=
  Some {| tls_mode := Some TLSModeTerminate; tls_certificateRefs := [ex_cert_ref ns] |}.
Definition ex_pair : gmap string string := <["tls.crt" := ex_pem]> {["tls.key" := "KEY"]}.

Lemma translateSslConfig_sound_witness :
  @translateSslConfig (ex_tls_client ex_pair) ex_x509 "infra" (Some "a.com") (ex_tls None) =
    Ok (inr (Some {| ssl_secretRef := {| rf_name := "cert"; rf_namespace := "infra" |}; ssl_sniDomains := ["a.com"] |})) ∧
  @usable_pair ex_x509 ex_pair.
Proof.
  assert (@translateSslConfig (ex_tls_client ex_pair) ex_x509 "infra" (Some "a.com") (ex_tls None) =
    Ok (inr (Some {| ssl_secretRef := {| rf_name := "cert"; rf_namespace := "infra" |}; ssl_sniDomains := ["a.com"] |})))
    as Hrun by (vm_compute; reflexivity).
  split; [exact Hrun|].
  destruct (@translateSslConfig_sound (ex_tls_client ex_pair) ex_x509 "infra" _ _ _ ltac:(discriminate) Hrun)
    as (t & ref & rest & m & data & _ & _ & _ & Hget & _ & Hpair & _).
  injection Hget as _ <-. exact Hpair.
Defined.

Lemma translateHttpsFilterChain_error_witness :
  let mfc := {| hs_gatewayListenerName := "https"; hs_sniDomain := None; hs_tls := ex_tls (Some "other");
                hs_routesWithHosts := [] |} in
  let k := {| nn_ns := "infra"; nn_name := "gw" |} in
  let g := {| gr_conditions := []; gr_listeners := {["https" := NewListenerReport "https"]};
              gr_observedGeneration := 1 |} in
  let ps := {| ps_reports := {| rm_gateways := {[k := g]}; rm_routes := ∅ |};
               ps_statusCache := ∅; ps_vhostCache := ∅ |} in
  ∃ s', @translateHttpsFilterChain ex_order no_plugins (ex_tls_client ex_pair) ex_x509 mfc "https" "infra"
      (ex_l "https" 443 "HTTPS" None) (k, "https") (ps, empty_heap) = Ok (None, ∅, s') ∧
    map c_reason (conditions_of k "https" (ps_reports s'.1)) = ["RefNotPermitted"; "Invalid"].
Proof.
  intros mfc k g ps.
  destruct (@translateHttpsFilterChain_error ex_order no_plugins (ex_tls_client ex_pair) ex_x509 ∅ mfc "https" "infra"
    (ex_l "https" 443 "HTTPS" None) k "https" ErrMissingReferenceGrant (ps, empty_heap) (NewListenerReport "https"))
    as (s' & Hrun & Hcs & _).
  - split; [exact empty_heap_ok|]. split; [intros l Hl; by apply elem_of_empty in Hl|constructor].
  - intros t ref o _ _ Ho. unfold GetSecretForRef, getRef in Ho.
    repeat (case_match; [|done] || case_match); try done; injection Ho as <-; by eexists _, _.
  - vm_compute. reflexivity.
  - vm_compute. reflexivity.
  - exists s'. split; [exact Hrun|]. rewrite Hcs. reflexivity.
Defined.

(** ** The Proxy *)
(** The listeners of a Gateway that are translated. *)
Definition admitted (gw : Gateway) : list Listener :=
  List.filter (admissible (List.filter supported (gw_listeners gw))) (List.filter supported (gw_listeners gw)).

Lemma admitted_elem gw l : l ∈ admitted gw → l ∈ gw_listeners gw ∧ protocol_ok l = true.
Proof.
  intros [Hl _]%list_elem_of_In%filter_In. apply filter_In in Hl as [Hl Hs]. split; [by apply list_elem_of_In|].
  by apply andb_true_iff in Hs as [? _].
Qed.

Lemma reporter_Gateway_same gw rm :
  rm_routes (reporter_Gateway gw rm).2 = rm_routes rm ∧ gateway_live (gw_nn gw) (reporter_Gateway gw rm).2 ∧
  gateways_kept rm (reporter_Gateway gw rm).2 ∧
  (gateway_live (gw_nn gw) rm → (reporter_Gateway gw rm).2 = rm).
Proof.
  unfold reporter_Gateway, Gateway_report, gateway_live. simpl.
  destruct (rm_gateways rm !! gw_nn gw) eqn:E; split_and!; [done|rewrite E; eauto|done|done|done| | |by intros [? ?]].
  - simpl. rewrite lookup_insert_eq. eauto.
  - intros k [g Hg]. unfold gateway_live. simpl. rewrite lookup_insert. case_decide; eauto.
Qed.

(** A condition of a route's parent, in the reports. *)
Definition has_condition (rm : ReportMap) (n : NamespacedName) (ref : ParentReference) (c : Condition) : Prop :=
  ∃ cs, parent_conditions (n, getParentRefKey ref) rm = Some cs ∧ c ∈ cs.

Lemma lstep_memory (s s' : PState * Heap) h : lstep (s.1, h) s' → lstep (s.1, s'.2) s'.
Proof. intros [H1 H2 H3 H4]. by split. Qed.
Lemma has_condition_step s s' n ref c :
  lstep s s' → has_condition (ps_reports s.1) n ref c → has_condition (ps_reports s'.1) n ref c.
Proof.
  intros Hst (cs & Hcs & Hin). destruct (lst_conditions _ _ Hst _ _ Hcs) as [cs' Hcs'].
  exists (cs ++ cs'). split; [done|]. apply elem_of_app. by left.
Qed.

Section Facts.
Context `{!GoRange string} `{!GoRange Z} `{!RoutePlugins} `{!ListenerPlugins} `{K8sClient} `{X509}.

Definition route_error_condition (reason : string) : Condition := report_condition "Accepted" ConditionFalse reason "".

Lemma report_route_error_ok e s :
  heap_ok s.2 →
  lstep s (ps_set_reports (report_route_error e (ps_reports s.1)) s.1, s.2) ∧
  has_condition (report_route_error e (ps_reports s.1)) (hr_nn (re_route e)) (re_parentRef e)
    (route_error_condition (re_reason e)).
Proof.
  intros Hok. unfold report_route_error.
  pose proof (route_parent_reporter_le (re_route e) (re_parentRef e) (ps_reports s.1)) as Hrep.
  destruct (route_parent_reporter _ _ _) as [hd rm] eqn:E. destruct Hrep as [Hle [cs Hcs]].
  assert (hd = (hr_nn (re_route e), getParentRefKey (re_parentRef e))) as ->.
  { unfold route_parent_reporter, reporter_Route, RouteReporter_ParentRef in E. congruence. }
  set (c := report_condition _ _ _ _). split.
  - apply lstep_reports; [done| |].
    + intros h cs1 Hcs1. eapply (reports_le_preorder).(PreOrder_Transitive); [exact Hle| |done]. apply set_condition_le.
    + intros k. unfold gateway_live. simpl. by destruct Hle as [-> _].
  - exists (cs ++ [c]). split; [by apply parent_set_condition_same|set_solver].
Qed.

Lemma report_errors_ok errs s :
  heap_ok s.2 →
  wp (for_range errs (λ rErr, with_reports (modify (report_route_error rErr)))) (λ _ s', lstep s s' ∧ s'.2 = s.2 ∧
    ∀ e, e ∈ errs → has_condition (ps_reports s'.1) (hr_nn (re_route e)) (re_parentRef e)
      (route_error_condition (re_reason e))) s.
Proof.
  revert s. induction errs as [|e errs IH]; intros s Hok; simpl.
  { apply wp_ret. split_and!; [by apply lstep_refl|done|set_solver]. }
  destruct (report_route_error_ok e s Hok) as [Hst Hc]. wp_step. apply wp_with_reports, wp_modify.
  eapply wp_mono; [by apply IH|]. intros [] s' (Hst' & Hheap & Hall). split_and!; [by eapply lstep_trans|done|].
  intros e' [->|He]%elem_of_cons; [|by apply Hall]. by eapply has_condition_step.
Qed.

Lemma report_attached_ok gw routesForGw ls s :
  heap_ok s.2 →
  wp (for_range ls (λ listener, with_reports (modify (report_attached gw routesForGw listener))))
    (λ _ s', lstep s s' ∧ s'.2 = s.2) s.
Proof.
  intros Hok. apply (wp_for_range (λ s', lstep s s' ∧ s'.2 = s.2)); [split; [by apply lstep_refl|done]|].
  intros l s' _ [Hst Hheap]. apply wp_with_reports, wp_modify. split; [|done].
  eapply lstep_trans; [exact Hst|]. apply lstep_reports; [apply Hst| |].
  - intros h cs. apply routes_same_conditions. apply (reporter_Gateway_same gw (ps_reports s'.1)).
  - unfold report_attached. etrans; [apply (reporter_Gateway_same gw)|]. etrans; apply alter_gateway_kept.
Qed.

Lemma TranslateListeners_ok gw rfg roots s :
  heap_ok s.2 → NoDup (map l_name (gw_listeners gw)) →
  results_good s.2 roots (rg_listenerResults rfg) →
  (∀ n lr i, rg_listenerResults rfg !! n = Some lr → i ∈ lr_routes lr → slash_free i) →
  (∀ l, l ∈ gw_listeners gw → certs_are_secrets (om_namespace (gw_meta gw)) (l_tls l)) →
  wp (TranslateListeners gw rfg) (λ ls s', lstep s s' ∧ gateway_live (gw_nn gw) (ps_reports s'.1) ∧ ∃ out, out ≡ₚ admitted gw ∧
    Forall2 listener_ok (merged_spec (om_namespace (gw_meta gw)) rfg (gw_nn gw) out) ls) s.
Proof.
  intros Hok Hnd [Hr Hgood] Hslash Hcerts. unfold TranslateListeners.
  destruct (reporter_Gateway_same gw (ps_reports s.1)) as (Hr1 & Hlive1 & Hk1 & _). wp_step. apply wp_with_reports.
  unfold wp at 1. destruct (reporter_Gateway gw (ps_reports s.1)) as [k rm1] eqn:Ek.
  cbn [snd] in Hr1, Hlive1, Hk1.
  assert (k = gw_nn gw) as -> by (unfold reporter_Gateway in Ek; congruence).
  wp_step. apply wp_with_reports. eapply wp_mono; [by apply validateListeners_ok|].
  intros out rm2 (Hout & _ & _ & Hr2 & Hlive2 & Hk2). wp_step. apply wp_with_reports. unfold wp at 1.
  destruct (reporter_Gateway_same gw rm2) as (_ & _ & _ & Hsame). specialize (Hsame Hlive2).
  change (ps_reports (ps_set_reports rm2 _, _).1) with rm2.
  destruct (reporter_Gateway gw rm2) as [k' rm2'] eqn:Ek2. cbn [snd] in Hsame. subst rm2'.
  assert (k' = gw_nn gw) as -> by (unfold reporter_Gateway in Ek2; congruence).
  fold (admitted gw) in Hout.
  wp_step. apply wp_with_reports. eapply wp_mono; [apply mergeGWListeners_ok|].
  { apply Forall_forall. intros l Hl. rewrite Hout in Hl. by apply admitted_elem in Hl as [_ ?]. }
  simpl. intros mls rm3 [-> (Hr3 & Hk3 & _)].
  assert (lstep s (ps_set_reports rm3 s.1, s.2)) as Hst.
  { apply lstep_reports; [done| |by do 2 (etrans; [done|])]. intros h cs. apply routes_same_conditions. simpl in Hr2; congruence. }
  eapply wp_mono; [apply (translateListeners_ok roots); [done|done|]|].
  - apply Forall_forall. intros ml Hml. destruct (merged_spec_elem _ _ _ _ _ Hml) as (Hns & Hparents & Hchains).
    assert (∀ l i, i ∈ routes_of rfg l → attached_good s.2 roots i ∧ slash_free i) as Hroutes.
    { intros l i Hi. unfold routes_of in Hi. destruct (rg_listenerResults rfg !! l_name l) eqn:E; [|set_solver].
      split; [by eapply Hgood|by eapply Hslash]. }
    split.
    + split_and!; [done|done|]. apply Forall_forall. intros i [Hi|Hi]%elem_of_app.
      * apply elem_of_flat_map in Hi as (parent & Hp & Hi). apply Hparents in Hp as (l & _ & ->). by apply (Hroutes l).
      * apply elem_of_flat_map in Hi as (mfc & Hp & Hi). apply Hchains in Hp as (l & _ & ->). by apply (Hroutes l).
    + apply Forall_forall. intros mfc Hm. rewrite Hns. apply Hchains in Hm as (l & Hl & ->). apply Hcerts.
      rewrite Hout in Hl. by apply admitted_elem in Hl as [? _].
  - intros ls s' [Hls Hst']. split; [by eapply lstep_trans|]. split; [by apply (lst_gateways _ _ Hst'), Hk3|]. by exists out.
Qed.
Lemma Forall2_ports mls ls :
  Forall2 listener_ok mls ls → (∀ m, m ∈ mls → (0 ≤ ml_port m < 2 ^ 16)%Z) → map gl_bindPort ls = map ml_port mls.
Proof.
  induction 1 as [|m l mls ls (_ & Hp & _) _ IH]; intros Hr; simpl; [done|]. rewrite Hp, IH by set_solver.
  f_equal. assert (m ∈ m :: mls) as Hm by left. specialize (Hr m Hm). apply wrap_u32_id. lia.
Qed.

Lemma attached_slash_free gw ks (ls : gmap string ListenerResult) :
  Forall (λ k : KHTTPRoute, contains_char "/"%char (hr_namespace k) = false) ks →
  (∀ n, attached n ls = attachments gw ks n) →
  ∀ n lr i, ls !! n = Some lr → i ∈ lr_routes lr → slash_free i.
Proof.
  intros Hks Hatt n lr i Hn Hi. rewrite Forall_forall in Hks.
  assert ((hi_nn i, hi_parentRef i, hi_hostnameOverrides i) ∈ attachments gw ks n) as Hin.
  { rewrite <-Hatt. unfold attached. rewrite Hn. apply list_elem_of_fmap. by exists i. }
  unfold attachments in Hin. apply elem_of_flat_map in Hin as (k & Hk & Hin).
  apply elem_of_flat_map in Hin as (ref & _ & Hin). unfold attachments_ref in Hin.
  apply elem_of_flat_map in Hin as (l & _ & Hin).
  destruct (bool_decide _); [|set_solver]. destruct (stage gw k ref l =? 3); [|set_solver].
  apply list_elem_of_singleton in Hin. injection Hin as Hns _ _. specialize (Hks k Hk).
  unfold slash_free, hr_namespace in *. by rewrite Hns.
Qed.

Context (U : gset NamespacedName) `{!FiniteCluster U}.

Lemma TranslateProxy_ok gw writeNamespace ks ps h :
  heap_ok h → list_httproutes_by_target (nn_string (gw_nn gw)) = inr ks →
  Forall (λ k : KHTTPRoute, contains_char "/"%char (hr_namespace k) = false) ks →
  NoDup (map l_name (gw_listeners gw)) →
  (∀ l, l ∈ gw_listeners gw → certs_are_secrets (om_namespace (gw_meta gw)) (l_tls l)) →
  wp (TranslateProxy (S (size U)) gw writeNamespace) (λ r s', ∃ ls rfg out,
    r = Some (make_proxy gw writeNamespace ls) ∧ lstep (ps, s'.2) s' ∧ gateway_live (gw_nn gw) (ps_reports s'.1) ∧
    (∀ n, attached n (rg_listenerResults rfg) = attachments gw ks n) ∧ out ≡ₚ admitted gw ∧
    Forall2 listener_ok (merged_spec (om_namespace (gw_meta gw)) rfg (gw_nn gw) out) ls ∧
    (∀ n ref reason, (n, ref, reason) ∈ expected_errors gw ks →
       has_condition (ps_reports s'.1) n ref (route_error_condition reason))) (ps, h).
Proof.
  intros Hok Hlist Hslash Hnd Hcerts. unfold TranslateProxy. wp_step.
  pose proof (routes_for_gateway_ok U gw ks h Hok Hlist) as Hwp. unfold wp at 1. simpl.
  unfold wp in Hwp. destruct (GetRoutesForGateway (S (size U)) gw h) as [[r h1]| |]; [|done..].
  destruct Hwp as (rfg & -> & Hok1 & _ & (roots & _ & Hgood) & Hatt & Herr). wp_step.
  eapply wp_mono; [by apply report_errors_ok|]. intros [] s1 (Hst1 & Hheap1 & Herrs). wp_step.
  eapply wp_mono; [apply report_attached_ok, Hst1|]. intros [] s2 (Hst2 & Hheap2). wp_step.
  simpl in Hheap1. eapply wp_mono; [apply (TranslateListeners_ok gw rfg roots)|].
  - apply Hst2.
  - done.
  - by rewrite Hheap2, Hheap1.
  - by eapply attached_slash_free.
  - done.
  - intros ls s3 (Hst3 & Hlive & out & Hout & Hls). apply wp_ret. exists ls, rfg, out. split_and!; [done| |done..|].
    { apply (lstep_memory (ps, h1) _ h1). eapply lstep_trans; [exact Hst1|]. by eapply lstep_trans. }
    intros n ref reason Hin. simpl in Herr. rewrite <-Herr in Hin.
    apply list_elem_of_fmap in Hin as (e & [= -> -> ->] & He).
    eapply has_condition_step; [exact Hst3|]. eapply has_condition_step; [exact Hst2|]. by apply Herrs.
Qed.

(** C1. The whole translation: when the API server lists the routes of the Gateway, its
    listeners have distinct names and the certificate references that resolve name
    Secrets, [TranslateProxy] returns a Proxy without a panic. The Proxy has one listener
    per Envoy port of the admitted listeners, as merging prescribes, on distinct ports;
    each listener serves the routes the queries attach to it: every reference of a
    filter chain is to one of its virtual hosts, whose routes are outputs of attached
    routes for that host, sorted by precedence, each with one matcher, a path and an
    action; and every parentRef no listener accepts is reported on its route. *)
Theorem TranslateProxy_correct gw writeNamespace ks ps h :
  heap_ok h → list_httproutes_by_target (nn_string (gw_nn gw)) = inr ks →
  Forall (λ k : KHTTPRoute, contains_char "/"%char (hr_namespace k) = false) ks →
  NoDup (map l_name (gw_listeners gw)) →
  (∀ l, l ∈ gw_listeners gw → certs_are_secrets (om_namespace (gw_meta gw)) (l_tls l)) →
  ∃ px s' rfg out, TranslateProxy (S (size U)) gw writeNamespace (ps, h) = Ok (Some px, s') ∧
    (∀ n, attached n (rg_listenerResults rfg) = attachments gw ks n) ∧
    out ≡ₚ admitted gw ∧
    Forall2 listener_ok (merged_spec (om_namespace (gw_meta gw)) rfg (gw_nn gw) out) (px_listeners px) ∧
    NoDup (map gl_bindPort (px_listeners px)) ∧
    (∀ p, p ∈ map gl_bindPort (px_listeners px) ↔ ∃ l, l ∈ admitted gw ∧ finalPort l = p) ∧
    (∀ n ref reason, (n, ref, reason) ∈ expected_errors gw ks →
       has_condition (ps_reports s'.1) n ref (route_error_condition reason)).
Proof.
  intros Hok Hlist Hslash Hnd Hcerts. pose proof (TranslateProxy_ok gw writeNamespace ks ps h Hok Hlist Hslash Hnd Hcerts) as Hwp.
  apply wp_run in Hwp as (r & s' & Hrun & ls & rfg & out & -> & _ & _ & Hatt & Hout & Hls & Herr).
  exists (make_proxy gw writeNamespace ls), s', rfg, out. simpl.
  set (mls := merged_spec _ _ _ _) in *.
  assert (map ml_port mls = first_ports out) as Hports by apply merged_spec_ports.
  destruct (first_ports_spec out) as [Hndp Hfp].
  assert (map gl_bindPort ls = first_ports out) as Hbind.
  { rewrite <-Hports. apply Forall2_ports; [done|]. intros m Hm.
    assert (ml_port m ∈ first_ports out) as Hin by (rewrite <-Hports; apply list_elem_of_fmap; by exists m).
    apply Hfp in Hin as (l & _ & <-). pose proof (finalPort_range l). lia. }
  rewrite Hbind. split_and!; [done..| |done]. intros p. rewrite Hfp. by setoid_rewrite Hout.
Qed.

(** Without the routes of the Gateway there is no Proxy. *)
Lemma TranslateProxy_unlisted gw writeNamespace e s :
  list_httproutes_by_target (nn_string (gw_nn gw)) = inl e → TranslateProxy (S (size U)) gw writeNamespace s = Ok (None, s).
Proof. intros Hl. destruct s as [ps h]. unfold TranslateProxy, bind, GetRoutesForGateway. by rewrite Hl. Qed.
End Facts.

Definition ex_listener_plugins : ListenerPlugins :=
  {| listener_plugins := []; listener_plugins_ok := Forall_nil_2 _ |}.
Definition ex_TranslateProxy (gw : Gateway) : M (PState * Heap) (option Proxy) :=
  @TranslateProxy ex_order list_order no_plugins ex_listener_plugins ex_client ex_x509 (S (size ex_universe)) gw "gloo-system".

Lemma TranslateProxy_correct_witness :
  ∃ px s', ex_TranslateProxy ex_gateway (ex_ps, empty_heap) = Ok (Some px, s') ∧
    NoDup (map gl_bindPort (px_listeners px)) ∧ 8080%Z ∈ map gl_bindPort (px_listeners px) ∧
    has_condition (ps_reports s'.1) {| nn_ns := "app"; nn_name := "parent" |} (ex_gw_ref "https")
      (route_error_condition "NoMatchingParent").
Proof.
  destruct (@TranslateProxy_correct ex_order list_order no_plugins ex_listener_plugins ex_client ex_x509
    ex_universe ex_finite ex_gateway "gloo-system" [ex_parent] ex_ps empty_heap empty_heap_ok)
    as (px & s' & rfg & out & Hrun & _ & _ & _ & Hnd & Hports & Herr).
  - vm_compute. reflexivity.
  - repeat constructor.
  - apply (bool_decide_unpack _). vm_compute. exact I.
  - intros l Hl t ref o Ht. apply list_elem_of_singleton in Hl as ->. discriminate Ht.
  - exists px, s'. split; [exact Hrun|]. split; [exact Hnd|]. split.
    + apply Hports. exists ex_listener. split; [|vm_compute; reflexivity].
      assert (admitted ex_gateway = [ex_listener]) as -> by (vm_compute; reflexivity). left.
    + apply Herr. vm_compute. left.
Defined.

(** The Proxy of the example Gateway, computed. *)
Example ex_proxy :
  match ex_TranslateProxy ex_gateway (ex_ps, empty_heap) with
  | Ok (Some px, _) =>
      (px_name px, map (λ l, (gl_name l, gl_bindPort l,
         match gl_type l with
         | TAggregate a => map (λ kv, (kv.1, vh_domains kv.2, map rt_name (vh_routes kv.2)))
                             (map_to_list (al_virtualHosts a))
         | TOther _ => []
         end)) (px_listeners px)) =
      ("infra-gw", [("http", 8080%Z, [("http~a_example_com", ["a.example.com"], ["leaf-app-0-0"])])])
  | _ => False
  end.
Proof. vm_compute. reflexivity. Qed.
