(* ===== verification/StatusSyncer.v ===== *)
(** * status/status_syncer.go: which proxy reports reach the status plugins

    The syncer is a state machine with two events, both under one lock: the translation
    queues the proxies of a sync iteration with the registry of the plugins that produced
    them, and gloo hands back proxies with their reports. Registries and the effect of
    their status plugins are parameters. *)

From stdpp Require Import base gmap strings list fin_maps.
From Stdlib Require Import ZArith Lia.
From S2P Require Import Prelude GoLib GwApi.

Module StatusSyncer.

(** The metadata of a Proxy that the syncer reads. *)
Record ProxyMeta := { pm_nn : NamespacedName; pm_labels : gmap string string; pm_annotations : gmap string string }.
Record ProxyWithReports := { pwr_proxy : ProxyMeta; pwr_reports : string }.

Definition ProxyTypeKey : string := "created_by".
Definition GatewayApiProxyValue : string := "gloo-kube-gateway-api".
Definition ProxySyncId : string := "proxy_sync_id".

Definition getProxyNameNamespace (p : ProxyMeta) : NamespacedName := pm_nn p.

Definition filterProxiesByControllerName (reports : list ProxyWithReports) : list ProxyWithReports :=
  List.filter (λ r, bool_decide (default "" (pm_labels (pwr_proxy r) !! ProxyTypeKey) = GatewayApiProxyValue)) reports.

Section Syncer.
Context {Registry W : Type} `{!GoRange Z}.
(** [registry.GetStatusPlugins()], each with its effect on the outside world. *)
Context (status_plugins : Registry → list (list ProxyWithReports → M W (option Err))).

Record Factory := {
  registryPerSync : gmap Z Registry;
  resyncsPerProxy : gmap NamespacedName Z;
  (** a present entry is a non-nil slice *)
  resyncsPerIteration : gmap Z (list NamespacedName)
}.

Definition NewStatusSyncerFactory : Factory :=
  {| registryPerSync := ∅; resyncsPerProxy := ∅; resyncsPerIteration := ∅ |}.

Definition queue_proxy (totalSyncCount : Z) (f : Factory) (proxy : ProxyMeta) : Factory :=
  {| registryPerSync := registryPerSync f;
     resyncsPerProxy := <[getProxyNameNamespace proxy := totalSyncCount]> (resyncsPerProxy f);
     resyncsPerIteration := <[totalSyncCount := default [] (resyncsPerIteration f !! totalSyncCount) ++
                                                  [getProxyNameNamespace proxy]]> (resyncsPerIteration f) |}.

Definition QueueStatusForProxies (proxiesToQueue : list ProxyMeta) (pluginRegistry : Registry) (totalSyncCount : Z)
    (f : Factory) : Factory :=
  let f := foldl (queue_proxy totalSyncCount) f proxiesToQueue in
  {| registryPerSync := <[totalSyncCount := pluginRegistry]> (registryPerSync f);
     resyncsPerProxy := resyncsPerProxy f; resyncsPerIteration := resyncsPerIteration f |}.

(** The sync iteration of a proxy; without the annotation, the one of the previous proxy. *)
Definition sync_count (previous : Z) (p : ProxyMeta) : Z :=
  match pm_annotations p !! ProxySyncId with
  | Some syncId => atoi syncId
  | None => previous
  end.

Abbreviation Batches := (gmap Z (list ProxyWithReports)) (only parsing).

(** One iteration of the loop over the reports. *)
Definition collect (acc : Factory * Batches * Z) (r : ProxyWithReports) : Factory * Batches * Z :=
  let '(f, proxiesToReport, proxySyncCount) := acc in
  let proxySyncCount := sync_count proxySyncCount (pwr_proxy r) in
  let proxyKey := getProxyNameNamespace (pwr_proxy r) in
  if bool_decide (proxySyncCount < default 0 (resyncsPerProxy f !! proxyKey))%Z then (f, proxiesToReport, proxySyncCount)
  else match resyncsPerIteration f !! proxySyncCount with
       | None => (f, proxiesToReport, proxySyncCount)
       | Some queued =>
           let updatedList := List.filter (λ n, negb (bool_decide (n = proxyKey))) queued in
           ({| registryPerSync := registryPerSync f;
               resyncsPerProxy := delete proxyKey (resyncsPerProxy f);
               resyncsPerIteration := <[proxySyncCount := updatedList]> (resyncsPerIteration f) |},
            <[proxySyncCount := default [] (proxiesToReport !! proxySyncCount) ++ [r]]> proxiesToReport,
            proxySyncCount)
       end.

(** Every status plugin runs; errors are only logged. *)
Definition applyStatusPlugins (registry : Registry) (proxiesWithReports : list ProxyWithReports) : M W unit :=
  let proxies := filterProxiesByControllerName proxiesWithReports in
  for_range (status_plugins registry) (λ plugin, do! plugin proxies ;; ret tt).

Definition on_world {A} (m : M W A) : M (Factory * W) A := λ s,
  match m s.2 with
  | Ok (a, w) => Ok (a, (s.1, w))
  | Panic why => Panic why
  | OutOfFuel => OutOfFuel
  end.

(** One iteration of the loop over the batches. *)
Definition report_batch (syncCount : Z) (proxies : list ProxyWithReports) : M (Factory * W) unit :=
  f <~ gets fst ;;
  do! (match registryPerSync f !! syncCount with
       | Some plugins => on_world (applyStatusPlugins plugins proxies)
       | None => ret tt
       end) ;;
  modify (λ '(f, w),
    (if bool_decide (resyncsPerIteration f = ∅)
     then {| registryPerSync := delete syncCount (registryPerSync f);
             resyncsPerProxy := resyncsPerProxy f; resyncsPerIteration := resyncsPerIteration f |}
     else f, w)).

Definition HandleProxyReports (proxiesWithReports : list ProxyWithReports) : M (Factory * W) unit := λ s,
  let '(f, proxiesToReport, _) :=
    foldl collect (s.1, ∅, 0%Z) (filterProxiesByControllerName proxiesWithReports) in
  for_range (go_range proxiesToReport) (λ '(syncCount, proxies), report_batch syncCount proxies) (f, s.2).
End Syncer.
End StatusSyncer.
