(* ===== verification/StatusSyncerFacts.v ===== *)
(** * Properties of the status syncer *)

From stdpp Require Import base gmap strings list fin_maps relations.
From Stdlib Require Import ZArith Lia.
From S2P Require Import Prelude GoLib GwApi StatusSyncer.

Import StatusSyncer.

Definition key (r : ProxyWithReports) : NamespacedName := pm_nn (pwr_proxy r).
(** The sync iteration in a report's annotation. *)
Definition sync_id (r : ProxyWithReports) : Z := sync_count 0 (pwr_proxy r).
Definition annotated (r : ProxyWithReports) : Prop := is_Some (pm_annotations (pwr_proxy r) !! ProxySyncId).

Lemma annotated_count prev r : annotated r → sync_count prev (pwr_proxy r) = sync_id r.
Proof. intros [s Hs]. unfold sync_id, sync_count. by rewrite Hs. Qed.

Section Facts.
Context {Registry W : Type} `{!GoRange Z}.
Context (status_plugins : Registry → list (list ProxyWithReports → M W (option Err))).
Abbreviation Fac := (Factory (Registry := Registry)).

(** A report is accepted unless a newer iteration of its proxy is queued, or its own
    iteration never was. *)
Definition accepted (f : Fac) (r : ProxyWithReports) : bool :=
  negb (bool_decide (sync_id r < default 0 (resyncsPerProxy f !! key r))%Z) &&
  match resyncsPerIteration f !! sync_id r with Some _ => true | None => false end.

Definition accept (f : Fac) (r : ProxyWithReports) : Fac :=
  {| registryPerSync := registryPerSync f;
     resyncsPerProxy := delete (key r) (resyncsPerProxy f);
     resyncsPerIteration := <[sync_id r := List.filter (λ n, negb (bool_decide (n = key r)))
       (default [] (resyncsPerIteration f !! sync_id r))]> (resyncsPerIteration f) |}.

Lemma collect_spec f b prev r :
  annotated r →
  collect (f, b, prev) r =
  if accepted f r then (accept f r, <[sync_id r := default [] (b !! sync_id r) ++ [r]]> b, sync_id r)
  else (f, b, sync_id r).
Proof.
  intros Ha. unfold collect. rewrite (annotated_count prev r Ha). unfold accepted, accept, getProxyNameNamespace.
  fold (key r). case_bool_decide; simpl; [done|]. by destruct (resyncsPerIteration f !! sync_id r).
Qed.

Lemma accepted_other f r r' : key r ≠ key r' → accepted f r = true → accepted (accept f r) r' = accepted f r'.
Proof.
  intros Hk Hr. unfold accepted in *. simpl. rewrite lookup_delete_ne by done. f_equal.
  destruct (decide (sync_id r = sync_id r')) as [<-|Hd]; [|by rewrite lookup_insert_ne].
  rewrite lookup_insert_eq. apply andb_true_iff in Hr as [_ Hr].
  by destruct (resyncsPerIteration f !! sync_id r).
Qed.

(** The accepted reports of one iteration. *)
Definition batch_of (f : Fac) (rs : list ProxyWithReports) (n : Z) : list ProxyWithReports :=
  List.filter (λ r, accepted f r && bool_decide (sync_id r = n)) rs.
Definition extend_batch (old : option (list ProxyWithReports)) (l : list ProxyWithReports) : option (list ProxyWithReports) :=
  match l with [] => old | _ => Some (default [] old ++ l) end.

(** The factory after a call: accepted proxies are no longer queued; nothing else changes
    for the other proxies, and neither registries nor iterations disappear. *)
Record handled (f : Fac) (rs : list ProxyWithReports) (f' : Fac) : Prop := {
  h_registries : registryPerSync f' = registryPerSync f;
  h_iterations : ∀ n, is_Some (resyncsPerIteration f' !! n) ↔ is_Some (resyncsPerIteration f !! n);
  h_done : ∀ r, r ∈ rs → accepted f r = true → resyncsPerProxy f' !! key r = None;
  h_kept : ∀ p, (∀ r, r ∈ rs → accepted f r = true → key r ≠ p) → resyncsPerProxy f' !! p = resyncsPerProxy f !! p
}.

Lemma batch_of_ext f f' rs n :
  (∀ r, r ∈ rs → accepted f' r = accepted f r) → batch_of f' rs n = batch_of f rs n.
Proof.
  unfold batch_of. induction rs as [|r rs IH]; intros Hext; simpl; [done|].
  rewrite (Hext r) by left. rewrite IH; [done|]. intros r' Hr'. apply Hext. by right.
Qed.

Lemma collect_all rs : ∀ f b prev,
  Forall annotated rs → NoDup (map key rs) →
  ∃ f' b' n', foldl collect (f, b, prev) rs = (f', b', n') ∧ handled f rs f' ∧
    ∀ n, b' !! n = extend_batch (b !! n) (batch_of f rs n).
Proof.
  induction rs as [|r rs IH]; intros f b prev Ha Hnd.
  { exists f, b, prev. split; [done|]. split; [|done]. split; [done..|set_solver|done]. }
  apply Forall_cons in Ha as [Har Ha]. simpl in Hnd. apply NoDup_cons in Hnd as [Hr Hnd].
  cbn [foldl]. rewrite collect_spec by done. destruct (accepted f r) eqn:Eacc.
  - assert (∀ r', r' ∈ rs → accepted (accept f r) r' = accepted f r') as Hsame.
    { intros r' Hr'. apply accepted_other; [|done]. intros Hk. apply Hr. rewrite Hk.
      apply list_elem_of_fmap. by exists r'. }
    destruct (IH (accept f r) (<[sync_id r := default [] (b !! sync_id r) ++ [r]]> b) (sync_id r) Ha Hnd)
      as (f' & b' & n' & Hrun & [H1 H2 H3 H4] & Hb).
    exists f', b', n'. split; [done|]. split; [split|].
    + by rewrite H1.
    + intros n. rewrite H2. simpl. rewrite lookup_insert. case_decide as Hn; [|done]. subst n.
      apply andb_true_iff in Eacc as [_ Eacc].
      destruct (resyncsPerIteration f !! sync_id r); [split; intros _; by eexists|done].
    + intros r' [->|Hr']%elem_of_cons Hacc; [|apply H3; [done|by rewrite Hsame]].
      rewrite H4; [simpl; apply lookup_delete_eq|]. intros r2 Hr2 _ Hk. apply Hr. rewrite <-Hk.
      apply list_elem_of_fmap. by exists r2.
    + intros p Hp. rewrite H4; simpl.
      * apply lookup_delete_ne. apply Hp; [left|done].
      * intros r2 Hr2 Hacc. apply Hp; [by right|]. by rewrite <-Hsame.
    + intros n. rewrite Hb, (batch_of_ext f) by done. unfold batch_of at 2. simpl. rewrite Eacc. simpl.
      fold (batch_of f rs n). rewrite lookup_insert. case_decide as Hn.
      * subst n. rewrite bool_decide_true by done. simpl. unfold extend_batch.
        destruct (batch_of f rs (sync_id r)); [done|]. simpl. by rewrite <-(assoc_L (++)).
      * by rewrite bool_decide_false by done.
  - destruct (IH f b (sync_id r) Ha Hnd) as (f' & b' & n' & Hrun & [H1 H2 H3 H4] & Hb).
    exists f', b', n'. split; [done|]. split; [split|]; [done|done| | |].
    + intros r' [->|Hr']%elem_of_cons Hacc; [congruence|auto].
    + intros p Hp. apply H4. intros r2 Hr2. apply Hp. by right.
    + intros n. rewrite Hb. unfold batch_of at 2. simpl. by rewrite Eacc.
Qed.
(** Registries are untouched, and a batch only exists if some iteration is recorded. *)
Lemma collect_registries rs : ∀ (f : Fac) b prev,
  (b = ∅ ∨ resyncsPerIteration f ≠ ∅) →
  ∃ f' b' n', foldl collect (f, b, prev) rs = (f', b', n') ∧
    registryPerSync f' = registryPerSync f ∧ (b' = ∅ ∨ resyncsPerIteration f' ≠ ∅).
Proof.
  induction rs as [|r rs IH]; intros f b prev Hb; [by exists f, b, prev|].
  cbn [foldl]. unfold collect at 2. case_bool_decide; [by apply IH|].
  destruct (resyncsPerIteration f !! _); [|by apply IH].
  match goal with |- context [foldl collect (?f1, ?b1, ?n1) rs] =>
    destruct (IH f1 b1 n1) as (f' & b' & n' & Hrun & Hreg & Hb') end.
  - right. simpl. apply insert_non_empty.
  - exists f', b', n'. by rewrite Hreg.
Qed.

(** Delivering a batch: the status plugins of the iteration's registry, if there is one. *)
Definition deliver (registries : gmap Z Registry) (n : Z) (ps : list ProxyWithReports) : M W unit :=
  match registries !! n with
  | Some plugins => applyStatusPlugins status_plugins plugins ps
  | None => ret tt
  end.
Definition deliver_all (registries : gmap Z Registry) (batches : list (Z * list ProxyWithReports)) : M W unit :=
  for_range batches (λ '(n, ps), deliver registries n ps).

Lemma report_batch_deliver (f : Fac) n ps w :
  resyncsPerIteration f ≠ ∅ →
  report_batch status_plugins n ps (f, w) = on_world (deliver (registryPerSync f) n ps) (f, w).
Proof.
  intros Hne. unfold report_batch, bind, gets, modify, on_world, deliver. cbn [fst snd].
  destruct (registryPerSync f !! n) as [g|]; simpl.
  - destruct (applyStatusPlugins status_plugins g ps w) as [[[] w']| |]; [|done..]. by rewrite bool_decide_false.
  - by rewrite bool_decide_false.
Qed.

Lemma report_batches (f : Fac) w bs :
  (bs = [] ∨ resyncsPerIteration f ≠ ∅) →
  for_range bs (λ '(n, ps), report_batch status_plugins n ps) (f, w) =
  on_world (deliver_all (registryPerSync f) bs) (f, w).
Proof.
  intros [->|Hne]; [done|]. revert w. induction bs as [|[n ps] bs IH]; intros w; [done|].
  cbn [for_range]. unfold bind. rewrite report_batch_deliver by done. unfold deliver_all. cbn [for_range].
  unfold on_world at 1 2, bind. cbn [fst snd].
  destruct (deliver (registryPerSync f) n ps w) as [[[] w']| |]; [|done..]. apply IH.
Qed.

Lemma go_range_empty {V} : go_range (∅ : gmap Z V) = [].
Proof. apply Permutation_nil. symmetry. rewrite (go_range_perm ∅). by rewrite map_to_list_empty. Qed.

Lemma HandleProxyReports_run reports f w :
  ∃ f' b' n', foldl collect (f, ∅, 0%Z) (filterProxiesByControllerName reports) = (f', b', n') ∧
    registryPerSync f' = registryPerSync f ∧
    HandleProxyReports status_plugins reports (f, w) =
      on_world (deliver_all (registryPerSync f) (go_range b')) (f', w).
Proof.
  destruct (collect_registries (filterProxiesByControllerName reports) f ∅ 0%Z) as (f' & b' & n' & Hrun & Hreg & Hb);
    [by left|]. exists f', b', n'. split; [done|]. split; [done|].
  unfold HandleProxyReports. cbn [fst snd]. rewrite Hrun. rewrite report_batches, Hreg; [done|].
  destruct Hb as [->|]; [left; apply go_range_empty|by right].
Qed.

(** Handling reports: for annotated reports of distinct proxies, exactly the accepted
    ones are delivered, grouped by iteration in the order received, each group to the
    status plugins of the registry that produced it; delivered proxies leave the queue and
    every other proxy stays queued as it was. *)
Theorem HandleProxyReports_exact reports f w :
  let rs := filterProxiesByControllerName reports in
  Forall annotated rs → NoDup (map key rs) →
  ∃ f' batches, handled f rs f' ∧
    (∀ n, batches !! n = extend_batch None (batch_of f rs n)) ∧
    HandleProxyReports status_plugins reports (f, w) =
      on_world (deliver_all (registryPerSync f) (go_range batches)) (f', w).
Proof.
  intros rs Ha Hnd. destruct (HandleProxyReports_run reports f w) as (f' & b' & n' & Hrun & _ & Heq).
  destruct (collect_all rs f ∅ 0%Z Ha Hnd) as (f2 & b2 & n2 & Hrun2 & Hh & Hb).
  fold rs in Hrun. rewrite Hrun in Hrun2. injection Hrun2 as <- <- _. exists f', b'. split_and!; [done| |done].
  intros n. by rewrite Hb, lookup_empty.
Qed.

(** Registries are never released: whatever is reported, handling leaves the
    registries of all iterations in place, although it means to drop those whose proxies
    have all been handled. *)
Theorem registries_never_released reports f w f' w' :
  HandleProxyReports status_plugins reports (f, w) = Ok (tt, (f', w')) → registryPerSync f' = registryPerSync f.
Proof.
  destruct (HandleProxyReports_run reports f w) as (f1 & b' & n' & _ & Hreg & ->). unfold on_world. simpl.
  destruct (deliver_all _ _ w) as [[[] w1]| |]; [|done..]. by intros [= <- _].
Qed.

(** ** Reachable states *)
Inductive step : Fac * W → Fac * W → Prop :=
| step_queue proxies registry n f w : step (f, w) (QueueStatusForProxies proxies registry n f, w)
| step_handle reports s s' : HandleProxyReports status_plugins reports s = Ok (tt, s') → step s s'.
Definition reachable (w0 : W) : Fac * W → Prop := rtc step (NewStatusSyncerFactory, w0).

(** A queued proxy is listed in its iteration, which has a registry. *)
Definition queued_ok (f : Fac) : Prop :=
  ∀ p n, resyncsPerProxy f !! p = Some n →
    (∃ l, resyncsPerIteration f !! n = Some l ∧ p ∈ l) ∧ is_Some (registryPerSync f !! n).

Lemma collect_queued (f : Fac) b prev r :
  queued_ok f → queued_ok (collect (f, b, prev) r).1.1.
Proof.
  intros Hq. unfold collect. case_bool_decide; [done|]. unfold getProxyNameNamespace. fold (key r).
  destruct (resyncsPerIteration f !! sync_count prev (pwr_proxy r)) as [l|] eqn:El; [|done].
  intros p n. simpl. rewrite lookup_delete_Some. intros [Hp Hn].
  destruct (Hq p n Hn) as [(l' & Hl' & Hin) Hreg]. split; [|done].
  destruct (decide (sync_count prev (pwr_proxy r) = n)) as [<-|Hne].
  - rewrite lookup_insert_eq. eexists. split; [done|]. rewrite El in Hl'. injection Hl' as ->.
    apply list_elem_of_In, filter_In. split; [by apply list_elem_of_In|]. by rewrite bool_decide_false by congruence.
  - rewrite lookup_insert_ne by done. by exists l'.
Qed.

Lemma queue_queued proxies registry n f : queued_ok f → queued_ok (QueueStatusForProxies proxies registry n f).
Proof.
  intros Hq. unfold QueueStatusForProxies.
  enough (∀ f : Fac, (∀ p m, resyncsPerProxy f !! p = Some m →
      (∃ l, resyncsPerIteration f !! m = Some l ∧ p ∈ l) ∧ (is_Some (registryPerSync f !! m) ∨ m = n)) →
    let f' := foldl (queue_proxy n) f proxies in
    ∀ p m, resyncsPerProxy f' !! p = Some m →
      (∃ l, resyncsPerIteration f' !! m = Some l ∧ p ∈ l) ∧ (is_Some (registryPerSync f' !! m) ∨ m = n)) as Hfold.
  { intros p m Hp. simpl in *. destruct (Hfold f) with (p := p) (m := m) as [Hl Hreg]; [|done|].
    - intros p' m' Hp'. destruct (Hq p' m' Hp'). auto.
    - split; [done|]. rewrite lookup_insert. case_decide; [by eexists|]. destruct Hreg; [done|congruence]. }
  clear Hq f. induction proxies as [|x proxies IH]; intros f Hf; [done|]. apply IH. intros p m. simpl.
  rewrite lookup_insert_Some. intros [[<- <-]|[Hne Hp]].
  - split; [|by right]. rewrite lookup_insert_eq. eexists. split; [done|]. apply elem_of_app. right. left.
  - destruct (Hf p m Hp) as [(l & Hl & Hin) Hreg]. split; [|done].
    destruct (decide (n = m)) as [<-|Hnm]; [|rewrite lookup_insert_ne by done; by exists l].
    rewrite lookup_insert_eq. eexists. split; [done|]. apply elem_of_app. left. by rewrite Hl.
Qed.

Lemma collect_all_queued rs : ∀ (f : Fac) b prev, queued_ok f → queued_ok (foldl collect (f, b, prev) rs).1.1.
Proof.
  induction rs as [|r rs IH]; intros f b prev Hq; [done|]. cbn [foldl].
  pose proof (collect_queued f b prev r Hq) as H1. destruct (collect (f, b, prev) r) as [[f1 b1] n1]. by apply IH.
Qed.

Lemma step_queued s s' : step s s' → queued_ok s.1 → queued_ok s'.1.
Proof.
  intros [proxies registry n f w|reports [f w] s1 Hh] Hq; [by apply queue_queued|].
  destruct (HandleProxyReports_run reports f w) as (f1 & b1 & n1 & Hrun & _ & Heq). rewrite Heq in Hh.
  unfold on_world in Hh. cbn [fst snd] in Hh. destruct (deliver_all _ _ w) as [[[] w1]| |]; [|done..]. injection Hh as <-.
  pose proof (collect_all_queued (filterProxiesByControllerName reports) f ∅ 0%Z Hq) as Hf1. by rewrite Hrun in Hf1.
Qed.

Lemma reachable_queued w0 f w : reachable w0 (f, w) → queued_ok f.
Proof.
  intros Hr. change f with (f, w).1. assert (queued_ok (NewStatusSyncerFactory (Registry := Registry), w0).1) as H0.
  { intros p n. simpl. by rewrite lookup_empty. }
  revert H0. unfold reachable in Hr. induction Hr as [|s1 s2 s3 Hs _ IH]; [done|]. intros H1. by apply IH, (step_queued s1).
Qed.

(** C30. Delivery: in every reachable state, when the report of a queued proxy arrives
    with the iteration it was last queued for, that report is delivered to the status
    plugins of the very registry that iteration was queued with, and the proxy leaves the
    queue; when it arrives with an older iteration, it is dropped and the proxy stays
    queued. *)
Theorem queued_report_delivered w0 f w reports r n :
  reachable w0 (f, w) →
  let rs := filterProxiesByControllerName reports in
  Forall annotated rs → NoDup (map key rs) → r ∈ rs → resyncsPerProxy f !! key r = Some n →
  ∃ f' batches, HandleProxyReports status_plugins reports (f, w) =
      on_world (deliver_all (registryPerSync f) (go_range batches)) (f', w) ∧
    (sync_id r = n → (∃ g ps, registryPerSync f !! n = Some g ∧ (n, ps) ∈ go_range batches ∧ r ∈ ps) ∧
       resyncsPerProxy f' !! key r = None) ∧
    ((sync_id r < n)%Z → (∀ m ps, (m, ps) ∈ go_range batches → r ∉ ps) ∧ resyncsPerProxy f' !! key r = Some n).
Proof.
  intros Hr rs Ha Hnd Hin Hn. destruct (reachable_queued _ _ _ Hr _ _ Hn) as [(l & Hl & Hkey) [g Hg]].
  destruct (HandleProxyReports_exact reports f w Ha Hnd) as (f' & batches & [_ _ Hdone Hkept] & Hb & Hrun).
  exists f', batches. split; [done|]. split.
  - intros Hid. assert (accepted f r = true) as Hacc.
    { unfold accepted. rewrite Hn, Hid, Hl. simpl. by rewrite bool_decide_false by lia. }
    split; [|by apply Hdone]. exists g, (batch_of f rs n).
    assert (r ∈ batch_of f rs n) as Hrb.
    { apply list_elem_of_In, filter_In. split; [by apply list_elem_of_In|]. rewrite Hacc. by apply bool_decide_eq_true. }
    split_and!; [done| |done]. apply go_range_elem. rewrite Hb. fold rs.
    by destruct (batch_of f rs n); [set_solver|].
  - intros Hlt. assert (accepted f r = false) as Hacc.
    { unfold accepted. rewrite Hn. simpl. by rewrite bool_decide_true by lia. }
    split.
    + intros m ps Hm Hrm. apply go_range_elem in Hm. rewrite Hb in Hm. fold rs in Hm.
      assert (r ∈ batch_of f rs m) as Hrb by (destruct (batch_of f rs m); [done|]; by injection Hm as <-).
      apply list_elem_of_In, filter_In in Hrb as [_ Hrb]. by rewrite Hacc in Hrb.
    + rewrite Hkept; [done|]. intros r' Hr' Hacc' Hk. assert (r' = r) as ->; [|congruence].
      apply list_elem_of_lookup in Hr' as [i Hi], Hin as [j Hj].
      assert (i = j) as <-; [|pose proof (eq_trans (eq_sym Hi) Hj) as Hij; by injection Hij].
      subst rs. eapply NoDup_lookup; [exact Hnd|by rewrite list_lookup_fmap, Hi|]. by rewrite list_lookup_fmap, Hj, Hk.
Qed.
End Facts.

(** ** Examples: a trace of the deliveries *)
Definition Trace : Type := list (string * list string).
(** A registry is a name; its only status plugin records what it is given. *)
Definition ex_status_plugins (registry : string) : list (list ProxyWithReports → M Trace (option Err)) :=
  [λ rs w, Ok (None, w ++ [(registry, map (λ r, nn_name (key r)) rs)])].
Definition ex_proxy (n : string) (sync : string) : ProxyMeta :=
  {| pm_nn := {| nn_ns := "gloo-system"; nn_name := n |}; pm_labels := {[ProxyTypeKey := GatewayApiProxyValue]};
     pm_annotations := {[ProxySyncId := sync]} |}.
Definition ex_report (n sync : string) : ProxyWithReports := {| pwr_proxy := ex_proxy n sync; pwr_reports := "" |}.
Definition ex_handle : list ProxyWithReports → M (Factory (Registry := string) * Trace) unit :=
  @HandleProxyReports string Trace list_order ex_status_plugins.

Definition ex_queued : Factory (Registry := string) :=
  QueueStatusForProxies [ex_proxy "a" "2"; ex_proxy "b" "2"] "r2" 2
    (QueueStatusForProxies [ex_proxy "a" "1"] "r1" 1 NewStatusSyncerFactory).

Lemma HandleProxyReports_exact_witness :
  ∃ f' batches, handled ex_queued [ex_report "a" "1"; ex_report "b" "2"] f' ∧
    ex_handle [ex_report "a" "1"; ex_report "b" "2"] (ex_queued, []) =
      on_world (deliver_all ex_status_plugins (registryPerSync ex_queued) (@go_range Z _ _ list_order _ batches)) (f', []) ∧
    batches !! 2%Z = Some [ex_report "b" "2"] ∧ batches !! 1%Z = None.
Proof.
  destruct (@HandleProxyReports_exact string Trace list_order ex_status_plugins
    [ex_report "a" "1"; ex_report "b" "2"] ex_queued []) as (f' & batches & Hh & Hb & Hrun).
  - repeat (constructor; [by eexists|]). constructor.
  - apply (bool_decide_unpack _). vm_compute. exact I.
  - exists f', batches. split; [exact Hh|]. split; [exact Hrun|]. rewrite !Hb. split; vm_compute; reflexivity.
Defined.

Lemma queued_report_delivered_witness :
  ∃ f' batches, ex_handle [ex_report "b" "2"] (ex_queued, []) =
      on_world (deliver_all ex_status_plugins (registryPerSync ex_queued) (@go_range Z _ _ list_order _ batches)) (f', []) ∧
    (∃ ps, (2%Z, ps) ∈ @go_range Z _ _ list_order _ batches ∧ ex_report "b" "2" ∈ ps) ∧
    resyncsPerProxy f' !! key (ex_report "b" "2") = None.
Proof.
  destruct (@queued_report_delivered string Trace list_order ex_status_plugins [] ex_queued []
    [ex_report "b" "2"] (ex_report "b" "2") 2) as (f' & batches & Hrun & Hsame & _).
  - unfold reachable. eapply rtc_l; [apply step_queue|]. eapply rtc_l; [apply step_queue|]. apply rtc_refl.
  - repeat (constructor; [by eexists|]). constructor.
  - repeat constructor. apply not_elem_of_nil.
  - left.
  - vm_compute. reflexivity.
  - exists f', batches. split; [exact Hrun|]. destruct (Hsame eq_refl) as [(g & ps & _ & Hin & Hr) Hnone].
    split; [by exists ps|exact Hnone].
Defined.

Lemma registries_never_released_witness :
  match ex_handle [ex_report "a" "2"; ex_report "b" "2"] (ex_queued, []) with
  | Ok (_, (f', w')) => registryPerSync f' = registryPerSync ex_queued ∧ w' = [("r2", ["a"; "b"])]
  | _ => False
  end.
Proof.
  destruct (ex_handle [ex_report "a" "2"; ex_report "b" "2"] (ex_queued, [])) as [[[] [f' w']]| |] eqn:E.
  - split; [exact (@registries_never_released string Trace list_order ex_status_plugins _ _ _ _ _ E)|].
    assert (match ex_handle [ex_report "a" "2"; ex_report "b" "2"] (ex_queued, []) with
            | Ok (_, (_, w)) => w | _ => [] end = [("r2", ["a"; "b"])]) as Hw by (vm_compute; reflexivity).
    rewrite E in Hw. exact Hw.
  - assert (match ex_handle [ex_report "a" "2"; ex_report "b" "2"] (ex_queued, []) with
            | Ok _ => True | _ => False end) as Hok by (vm_compute; exact I). by rewrite E in Hok.
  - assert (match ex_handle [ex_report "a" "2"; ex_report "b" "2"] (ex_queued, []) with
            | Ok _ => True | _ => False end) as Hok by (vm_compute; exact I). by rewrite E in Hok.
Defined.

(** After the latest iteration of "a" has been reported, a report of the older iteration is
    still delivered, to the older plugins; and the latest one is delivered again. *)
Example stale_report_delivered :
  match (do! ex_handle [ex_report "a" "2"] ;; do! ex_handle [ex_report "a" "1"] ;; ex_handle [ex_report "a" "2"])
          (ex_queued, []) with
  | Ok (_, (_, w)) => w = [("r2", ["a"]); ("r1", ["a"]); ("r2", ["a"])]
  | _ => False
  end.
Proof. vm_compute. reflexivity. Qed.

(** A proxy without the annotation is counted in the iteration of the proxy before it. *)
Example unannotated_inherits_iteration :
  let b := {| pwr_proxy := {| pm_nn := {| nn_ns := "gloo-system"; nn_name := "c" |};
                              pm_labels := {[ProxyTypeKey := GatewayApiProxyValue]}; pm_annotations := ∅ |};
              pwr_reports := "" |} in
  match ex_handle [ex_report "a" "2"; b] (ex_queued, []) with
  | Ok (_, (_, w)) => w = [("r2", ["a"; "c"])]
  | _ => False
  end.
Proof. vm_compute. reflexivity. Qed.
