(* ===== verification/ProxySyncer.v ===== *)
(** * The proxy syncer

    gateway2/proxy_syncer/queue.go and proxy_syncer.go: what triggers a translation of all
    Gateways, and what is done with its outcome. A queue holds one item, and several
    goroutines may enqueue at once: a call of [Enqueue] is two steps, between which other
    calls run. A resync translates every Gateway, queues the Proxies with the status
    syncer, writes the statuses that changed and hands the Proxies to the reconciler. The
    answers of the API server are inputs of a resync and its writes are recorded; an error
    of a write is only logged. The translator and the plugins come from the interface of
    extensions/extensions.go ([K8sGatewayExtensions]). The secret controller that fills one
    of the queues, secrets/controller.go, is here too. *)

From stdpp Require Import base gmap strings list fin_maps.
From Stdlib Require Import ZArith.
From S2P Require Import Prelude GoLib GwApi Reports Heap Status Query RouteOrder PluginApi HttpRoute ListenerTranslator GatewayTranslator StatusSyncer.

Import Reports Status.Status StatusSyncer.

Module ProxySyncer.
(** ** queue.go *)
Section Queue.
Context {T : Type}.

(** The channel has one place. The two [select]s of [Enqueue]: *)
Definition drain (queue : option T) : option T := None.
Definition offer (t : T) (queue : option T) : option T := match queue with None => Some t | Some _ => queue end.
Definition Enqueue (t : T) (queue : option T) : option T := offer t (drain queue).

(** Calls of [Enqueue] that have not returned, and what is left of them. *)
Inductive call := Draining (t : T) | Offering (t : T).
Record Queue := { q_item : option T; q_calls : gmap nat call }.
Definition NewAsyncQueue : Queue := {| q_item := None; q_calls := ∅ |}.
Inductive queue_event :=
| Called (i : nat) (t : T) | Drained (i : nat) | Returned (i : nat)
(** [Next] and [Dequeue] *)
| Received.
Definition queue_step (q : Queue) (e : queue_event) : option Queue :=
  match e with
  | Called i t => match q_calls q !! i with
      | None => Some {| q_item := q_item q; q_calls := <[i := Draining t]> (q_calls q) |} | Some _ => None end
  | Drained i => match q_calls q !! i with
      | Some (Draining t) => Some {| q_item := drain (q_item q); q_calls := <[i := Offering t]> (q_calls q) |} | _ => None end
  | Returned i => match q_calls q !! i with
      | Some (Offering t) => Some {| q_item := offer t (q_item q); q_calls := delete i (q_calls q) |} | _ => None end
  | Received => match q_item q with
      | Some _ => Some {| q_item := None; q_calls := q_calls q |} | None => None end
  end.
Fixpoint queue_run (es : list queue_event) (q : Queue) : option Queue :=
  match es with
  | [] => Some q
  | e :: es => queue_step q e ≫= queue_run es
  end.
End Queue.

(** ** secrets/controller.go *)
Record KubeSecret := { ks_meta : NamespacedName; ks_type : string; ks_data : gmap string string }.
Record TlsSecret := { ts_meta : NamespacedName; PrivateKey : string; CertChain : string; RootCa : string }.
Abbreviation SecretInputs := (list TlsSecret) (only parsing).
Definition parsed_secret (s : KubeSecret) : list TlsSecret :=
  if negb (bool_decide (ks_type s = "kubernetes.io/tls")) && negb (bool_decide (ks_type s = "Opaque")) then []
  else [{| ts_meta := ks_meta s; PrivateKey := default "" (ks_data s !! "tls.key"); CertChain := default "" (ks_data s !! "tls.crt");
           RootCa := default "" (ks_data s !! "ca.crt") |}].
(** The error, and the queue. *)
Definition ReconcileSecrets (secretList : result (list KubeSecret)) (queue : option SecretInputs) : option Err * option SecretInputs :=
  match secretList with
  | inl err => (Some err, queue)
  | inr items => (None, Enqueue (flat_map parsed_secret items) queue)
  end.

(** ** proxy_syncer.go *)
Record SyncedProxy := { sp_proxy : Proxy; sp_annotations : gmap string string }.
Definition proxy_meta (p : SyncedProxy) : ProxyMeta :=
  {| pm_nn := {| nn_ns := px_namespace (sp_proxy p); nn_name := px_name (sp_proxy p) |};
     pm_labels := px_labels (sp_proxy p); pm_annotations := sp_annotations p |}.
(** A Gateway as it is listed: its status also has addresses. *)
Record ListedGateway := { lg_gateway : Gateway; lg_addresses : list string }.
Definition listed_nn (g : ListedGateway) : NamespacedName := gw_nn (lg_gateway g).
(** What the API server answers during one resync. *)
Record Answers := {
  an_client : K8sClient; an_now : Z; an_gateways : result (list ListedGateway); an_routes : result (list KHTTPRoute) }.
(** What is written: a merge patch leaves the addresses alone. *)
Inductive ApiCall :=
| PatchGatewayStatus (gateway : NamespacedName) (status : GatewayStatus)
| UpdateRouteStatus (route : NamespacedName) (parents : list RouteParentStatus)
| ReconcileProxies (namespace : string) (proxies : list SyncedProxy) (selector : gmap string string).

(** extensions.go, and the getters of the plugin registry. The state of the plugins of a
    registry is a [PState], which also has the reports of the translation. *)
Class K8sGatewayExtensions (W : Type) := {
  GetTranslator : K8sClient → Gateway → option (string → M (PState * Heap) (option Proxy));
  GetPostTranslationPlugins : PState → list (list Gateway → M W (option Err));
  GetStatusPlugins : PState → list (list ProxyWithReports → M W (option Err))
}.
(** [cmp.Equal] with the options of the syncer; the statuses of Gateways with addresses. *)
Class CmpEqual := {
  gateway_Equal : GatewayStatus * list string → GatewayStatus * list string → bool;
  route_Equal : list RouteParentStatus → list RouteParentStatus → bool
}.
Definition timeless (c : Condition) : Condition := with_time 0 c.
Definition timeless_listener (l : ListenerStatus) : ListenerStatus := ls_set_conditions (map timeless (ls_conditions l)) l.
Definition timeless_gateway (s : GatewayStatus) : GatewayStatus :=
  {| gs_conditions := map timeless (gs_conditions s); gs_listeners := map timeless_listener (gs_listeners s) |}.
Definition timeless_parent (p : RouteParentStatus) : RouteParentStatus :=
  {| rps_parentRef := rps_parentRef p; rps_controllerName := rps_controllerName p; rps_conditions := map timeless (rps_conditions p) |}.
(** Equal objects differ in transition times only. *)
Class CmpEqualLaws `{CmpEqual} := {
  gateway_Equal_sound a b : gateway_Equal a b = true → timeless_gateway a.1 = timeless_gateway b.1 ∧ a.2 = b.2;
  route_Equal_sound a b : route_Equal a b = true → map timeless_parent a = map timeless_parent b
}.

Record Syncer {W : Type} := {
  secretsWarmed : bool; totalResyncs : nat;
  statusSyncer : Factory (Registry := PState); world : W;
  (** the writes so far *)
  calls : list ApiCall }.
Arguments Syncer : clear implicits.

Section Syncer.
Context {W : Type} `{!K8sGatewayExtensions W, !CmpEqual, !ApiMeta, !GoRange ParentRefKey, !GoRange Z}.
Context (controllerName writeNamespace : string).

Definition NewProxySyncer (w : W) : Syncer W :=
  {| secretsWarmed := false; totalResyncs := 0; statusSyncer := NewStatusSyncerFactory; world := w; calls := [] |}.

(** A step of the status syncer, or on the world. *)
Definition on_status {A} (m : M (Factory * W) A) : M (Syncer W) A := λ s,
  match m (statusSyncer s, world s) with
  | Ok (a, (f, w)) => Ok (a, {| secretsWarmed := secretsWarmed s; totalResyncs := totalResyncs s; statusSyncer := f; world := w; calls := calls s |})
  | Panic why => Panic why
  | OutOfFuel => OutOfFuel
  end.
Definition api_call (c : ApiCall) : M (Syncer W) unit := modify (λ s,
  {| secretsWarmed := secretsWarmed s; totalResyncs := totalResyncs s; statusSyncer := statusSyncer s; world := world s; calls := calls s ++ [c] |}).

Definition kubeGatewayProxyLabels : gmap string string := {[ ProxyTypeKey := GatewayApiProxyValue ]}.
Definition CreatePluginRegistry : PState := {| ps_reports := NewReportMap; ps_statusCache := ∅; ps_vhostCache := ∅ |}.

(** The annotations of a Proxy that has just been translated are nil. *)
Definition annotate (n : nat) (p : Proxy) : SyncedProxy := {| sp_proxy := p; sp_annotations := {[ ProxySyncId := itoa n ]} |}.
Definition translate_gateway (client : K8sClient) (n : nat) (g : Gateway) (acc : list SyncedProxy * list Gateway) :
    M (PState * Heap) (list SyncedProxy * list Gateway) :=
  match GetTranslator client g with
  | None => ret acc
  | Some TranslateProxy =>
      proxy <~ TranslateProxy writeNamespace ;;
      ret (match proxy with
           | Some p => (acc.1 ++ [annotate n p], acc.2 ++ [g])
           | None => acc end)
  end.
Definition applyPostTranslationPlugins (registry : PState) (gateways : list Gateway) : M (Syncer W) unit :=
  on_status (on_world (for_range (GetPostTranslationPlugins registry) (λ plugin, do! plugin gateways ;; ret tt))).

(** Building a status completes the reports. *)
Definition syncStatus (now : Z) (gwl : list ListedGateway) (rm : ReportMap) : M (Syncer W) ReportMap :=
  fold_range 0 gwl rm (λ _ g rm,
    let '(status, rm) := BuildGWStatus now (lg_gateway g) rm in
    do! (match status with
         | None => ret tt
         | Some status => if gateway_Equal (gw_status (lg_gateway g), lg_addresses g) (status, []) then ret tt
                          else api_call (PatchGatewayStatus (listed_nn g) status)
         end) ;;
    ret rm).
Definition syncRouteStatus (now : Z) (routes : result (list KHTTPRoute)) (rm : ReportMap) : M (Syncer W) unit :=
  match routes with
  | inl _ => ret tt
  | inr rl =>
      do! fold_range 0 rl rm (λ _ route rm,
        let '(status, rm) := BuildRouteStatus now route controllerName rm in
        do! (match status with
             | None => ret tt
             | Some parents => if route_Equal (hr_statusParents route) parents then ret tt else api_call (UpdateRouteStatus (hr_nn route) parents)
             end) ;;
        ret rm) ;;
      ret tt
  end.
Definition reconcileProxies (proxies : list SyncedProxy) : M (Syncer W) unit :=
  api_call (ReconcileProxies writeNamespace proxies kubeGatewayProxyLabels).

Definition resyncProxies (a : Answers) : M (Syncer W) unit :=
  warmed <~ gets secretsWarmed ;;
  if negb warmed then ret tt
  else
    do! modify (λ s, {| secretsWarmed := secretsWarmed s; totalResyncs := totalResyncs s + 1; statusSyncer := statusSyncer s; world := world s; calls := calls s |}) ;;
    match an_gateways a with
    | inl _ => ret tt
    | inr gwl =>
        n <~ gets totalResyncs ;;
        let! (proxies, translatedGateways, (pluginRegistry, _)) <~ lift_res
          (fold_range 0 gwl ([], []) (λ _ g acc, translate_gateway (an_client a) n (lg_gateway g) acc) (CreatePluginRegistry, empty_heap)) ;;
        let rm := ps_reports pluginRegistry in
        do! applyPostTranslationPlugins pluginRegistry translatedGateways ;;
        do! on_status (modify (λ '(f, w), (QueueStatusForProxies (map proxy_meta proxies) pluginRegistry (Z.of_nat n) f, w))) ;;
        rm <~ syncStatus (an_now a) gwl rm ;;
        do! syncRouteStatus (an_now a) (an_routes a) rm ;;
        reconcileProxies proxies
    end.

(** The loop of [Start]: an event of one of its queues. *)
Definition on_genericEvent (a : Answers) : M (Syncer W) unit := resyncProxies a.
Definition on_secretEvent (a : Answers) : M (Syncer W) unit :=
  do! modify (λ s, {| secretsWarmed := true; totalResyncs := totalResyncs s; statusSyncer := statusSyncer s; world := world s; calls := calls s |}) ;;
  resyncProxies a.

(** ** The syncer with its queues and the status syncer *)
Record System := { genericEvent : option unit; secretEvent : option SecretInputs; syncer : Syncer W }.
Definition NewSystem (w : W) : System := {| genericEvent := None; secretEvent := None; syncer := NewProxySyncer w |}.
Inductive system_step : System → System → Prop :=
| step_Kick s : system_step s {| genericEvent := Enqueue tt (genericEvent s); secretEvent := secretEvent s; syncer := syncer s |}
| step_ReconcileSecrets l s : system_step s {| genericEvent := genericEvent s; secretEvent := (ReconcileSecrets l (secretEvent s)).2; syncer := syncer s |}
| step_genericEvent a q y y' : on_genericEvent a y = Ok (tt, y') →
    system_step {| genericEvent := Some tt; secretEvent := q; syncer := y |} {| genericEvent := None; secretEvent := q; syncer := y' |}
| step_secretEvent a i q y y' : on_secretEvent a y = Ok (tt, y') →
    system_step {| genericEvent := q; secretEvent := Some i; syncer := y |} {| genericEvent := q; secretEvent := None; syncer := y' |}
(** gloo hands Proxies with their reports to the status syncer. *)
| step_reports rs g q y y' : on_status (HandleProxyReports GetStatusPlugins rs) y = Ok (tt, y') →
    system_step {| genericEvent := g; secretEvent := q; syncer := y |} {| genericEvent := g; secretEvent := q; syncer := y' |}.
Definition reachable (w : W) : System → Prop := rtc system_step (NewSystem w).
End Syncer.

(** The implementation in extensions.go: one translator, for Gateways of any class. *)
Section Extensions.
Context {W : Type} `{!GoRange string} `{!GoRange Z} `{!RoutePlugins} `{!ListenerPlugins} `{X509}.
Definition k8sGatewayExtensions (fuel : nat) (statusPlugins : PState → list (list ProxyWithReports → M W (option Err))) : K8sGatewayExtensions W :=
  {| GetTranslator client gw := Some (λ writeNamespace, @GatewayTranslator.TranslateProxy _ _ _ _ client _ fuel gw writeNamespace);
     GetPostTranslationPlugins _ := []; GetStatusPlugins := statusPlugins |}.
End Extensions.
End ProxySyncer.
