(* ===== verification/ProxySyncerFacts.v ===== *)
(** * What the proxy syncer does

    The queue loses no wake-up, whatever the interleaving of its callers. A resync writes
    exactly the statuses that changed, and queues and reconciles the same Proxies under one
    number; reports of those Proxies reach the plugins that translated them. In every
    reachable state a queued Proxy awaits the report of the last sync that wrote it. *)

From stdpp Require Import base gmap strings list fin_maps relations sorting pretty.
From Stdlib Require Import ZArith Ascii Lia.
From S2P Require Import Prelude GoLib GwApi Reports Heap Status Query QueryFacts RouteOrder PluginApi HttpRoute HttpRouteFacts ListenerValidation ListenerTranslator ListenerTranslatorFacts GatewayTranslator GatewayTranslatorFacts StatusSyncer StatusSyncerFacts ProxySyncer.

Import ListenerValidation Reports Status.Status StatusSyncer ProxySyncer.

(** ** The queue *)
Section Queue.
Context {T : Type}.

Lemma queue_run_app (es es' : list (@queue_event T)) q : queue_run (es ++ es') q = queue_run es q ≫= queue_run es'.
Proof. revert q. induction es as [|e es IH]; intros q; cbn; [done|]. destruct (queue_step q e); cbn; [apply IH|done]. Qed.

(** Something is there, or will be once the calls under way return. *)
Definition pending (q : @Queue T) : Prop := is_Some (q_item q) ∨ ∃ i t, q_calls q !! i = Some (Offering t).
Lemma pending_step q e q' : queue_step q e = Some q' → e ≠ Received → pending q → pending q'.
Proof.
  intros Hs He Hp. destruct e as [i t|i|i|]; cbn in Hs; [..|done]; destruct (q_calls q !! i) as [[t'|t']|] eqn:E; try done; injection Hs as <-; unfold pending; cbn.
  - destruct Hp as [?|(j & u & Hj)]; [by left|right]. exists j, u. rewrite lookup_insert_ne; [done|congruence].
  - right. exists i, t'. by rewrite lookup_insert_eq.
  - left. destruct (q_item q); cbn; eauto.
Qed.
Lemma pending_run es q q' : queue_run es q = Some q' → Received ∉ es → pending q → pending q'.
Proof.
  revert q. induction es as [|e es IH]; intros q; cbn; [by intros [= ->]|]. intros (q1 & Hs & Hr)%bind_Some [He Hes]%not_elem_of_cons Hp.
  by apply (IH q1), (pending_step q e).
Qed.
Lemma returned_pending i q q' : queue_step q (Returned i) = Some q' → pending q'.
Proof.
  cbn. destruct (q_calls q !! i) as [[t'|t']|]; [done| |done]. intros [= <-]. left. cbn. destruct (q_item q); cbn; eauto.
Qed.

(** Items come from calls. *)
Definition origin (es : list (@queue_event T)) (q : @Queue T) : Prop :=
  (∀ t, q_item q = Some t → ∃ i, Called i t ∈ es) ∧
  ∀ j t, q_calls q !! j = Some (Draining t) ∨ q_calls q !! j = Some (Offering t) → ∃ i, Called i t ∈ es.
Lemma origin_step es q e q' : origin es q → queue_step q e = Some q' → origin (es ++ [e]) q'.
Proof.
  intros [Hi Hc] Hs. assert (origin (es ++ [e]) q) as [Hi' Hc'] by (split; [intros t [i Ht]%Hi|intros j t [i Ht]%Hc]; exists i; apply elem_of_app; by left).
  destruct e as [i t|i|i|]; cbn in Hs.
  - destruct (q_calls q !! i); [done|]. injection Hs as <-. split; cbn; [done|]. intros j u. rewrite !lookup_insert.
    case_decide; [|by apply Hc']. intros [[= ->]|[=]]. exists i. apply elem_of_app. right. by left.
  - destruct (q_calls q !! i) as [[t'|t']|] eqn:E; try done. injection Hs as <-. split; cbn; [done|]. intros j u. rewrite !lookup_insert.
    case_decide; [|by apply Hc']. intros [[=]|[= ->]]. apply (Hc' i). by left.
  - destruct (q_calls q !! i) as [[t'|t']|] eqn:E; try done. injection Hs as <-. split; cbn.
    + intros u Hu. destruct (q_item q) eqn:Eq; cbn in Hu; [by apply Hi'|]. injection Hu as ->. apply (Hc' i). by right.
    + intros j u. rewrite !lookup_delete. case_decide; [by intros [|]|by apply Hc'].
  - destruct (q_item q); [|done]. injection Hs as <-. by split.
Qed.
Lemma origin_run es' : ∀ es q q', origin es q → queue_run es' q = Some q' → origin (es ++ es') q'.
Proof.
  induction es' as [|e es' IH]; intros es q q' Ho; cbn; [intros [= <-]; by rewrite app_nil_r|]. intros (q1 & Hs & Hr)%bind_Some.
  rewrite (cons_middle e es es'), (assoc_L (++)). apply (IH _ q1); [by eapply origin_step|done].
Qed.

(** C16. No wake-up is lost: once a call of [Enqueue] has returned and no item has been received
    since, the queue holds an item that some call put there as soon as no call is under
    way, however the calls overlapped. *)
Theorem queue_no_lost_wakeup (pre post : list (@queue_event T)) (i : nat) (q : @Queue T) (Hrun : queue_run (pre ++ Returned i :: post) NewAsyncQueue = Some q)
    (Hnone : Received ∉ post) (Hidle : q_calls q = ∅) :
  ∃ t j, q_item q = Some t ∧ Called j t ∈ pre ++ Returned i :: post.
Proof.
  assert (origin [] (@NewAsyncQueue T)) as Ho by (split; [done|intros j t; cbn; rewrite lookup_empty; by intros [|]]).
  destruct (origin_run _ _ _ _ Ho Hrun) as [Hi _]. rewrite queue_run_app in Hrun. apply bind_Some in Hrun as (q1 & _ & Hrun). cbn in Hrun.
  apply bind_Some in Hrun as (q2 & Hs & Hrun). apply returned_pending in Hs. apply (pending_run _ _ _ Hrun Hnone) in Hs as [[t Ht]|(j & t & Hj)].
  - destruct (Hi t Ht) as [j Hj]. by exists t, j.
  - by rewrite Hidle, lookup_empty in Hj.
Qed.
End Queue.

(** ** Numbers of syncs *)
Lemma digit_of_char x : (x < 10)%N → digit_of (pretty_N_char x) = Some (Z.of_N x).
Proof. intros Hx. assert (x ∈ (N.of_nat <$> seq 0 10)) as Hin; [|cbn in Hin; set_solver]. apply list_elem_of_fmap. exists (N.to_nat x). rewrite elem_of_seq. lia. Qed.
Lemma atoi_pretty_go x : ∀ s, (x < 2 ^ 64)%N → atoi_digits 0 (pretty_N_go x s) = atoi_digits (Z.of_N x) s.
Proof.
  induction (N.lt_wf_0 x) as [x _ IH]. intros s Hx. destruct (decide (x = 0)%N) as [->|Hne]; [by rewrite pretty_N_go_0|].
  assert (x / 10 < x)%N as Hlt by (apply N.div_lt; lia). rewrite pretty_N_go_step by lia. rewrite IH by lia. cbn [atoi_digits].
  pose proof (N.mod_lt x 10 ltac:(done)) as Hm. rewrite digit_of_char by done.
  assert (10 * Z.of_N (x / 10) + Z.of_N (x mod 10) = Z.of_N x)%Z as -> by (pose proof (N.div_mod x 10); lia).
  assert ((2 ^ 64 <=? Z.of_N x)%Z = false) as -> by lia. done.
Qed.
Lemma atoi_of_digits s n : atoi_digits 0 s = Some n → s ≠ "" → atoi s = Z.min n (2 ^ 63 - 1).
Proof.
  intros Hs Hne. destruct s as [|a s]; [done|]. assert (is_Some (digit_of a)) as [d Hd]. { cbn in Hs. destruct (digit_of a); [eauto|done]. }
  assert (a ≠ "-"%char ∧ a ≠ "+"%char) as [H1 H2] by (split; intros ->; vm_compute in Hd; discriminate).
  assert (atoi (String a s) = Z.min (default 0%Z (atoi_digits 0 (String a s))) (2 ^ 63 - 1)) as ->; [|by rewrite Hs].
  clear -H1 H2. destruct a as [[] [] [] [] [] [] [] []]; try done; destruct s; done.
Qed.
Lemma atoi_itoa n : (Z.of_nat n < 2 ^ 63)%Z → atoi (itoa n) = Z.of_nat n.
Proof.
  intros Hn. destruct n as [|n]; [done|]. unfold itoa, pretty, pretty_N. rewrite decide_False by lia.
  rewrite (atoi_of_digits _ (Z.of_nat (S n))); [lia| |].
  - rewrite atoi_pretty_go by lia. cbn [atoi_digits]. by rewrite nat_N_Z.
  - rewrite pretty_N_go_step by lia. intros He.
    assert (∀ x s, pretty_N_go x s = "" → s = "") as Hgo; [|by apply Hgo in He].
    clear. intros x. induction (N.lt_wf_0 x) as [x _ IH]. intros s. destruct (decide (x = 0)%N) as [->|Hne]; [by rewrite pretty_N_go_0|].
    rewrite pretty_N_go_step by lia. intros He%IH; [done|]. apply N.div_lt; lia.
Qed.

(** ** Building statuses one after the other *)
Section Statuses.
Context `{!ApiMeta, !GoRange ParentRefKey}.
Variable now : Z.

Lemma BuildGWStatus_ext g rm rm' : Gateway_report g rm = Gateway_report g rm' → (BuildGWStatus now g rm).1 = (BuildGWStatus now g rm').1.
Proof. intros Hg. unfold BuildGWStatus. rewrite Hg. destruct (Gateway_report g rm') as [gr|]; [|done]. by destruct (foldl _ _ _). Qed.
Lemma BuildGWStatus_frame g rm : rm_routes (BuildGWStatus now g rm).2 = rm_routes rm ∧
  ∀ k, k ≠ gw_nn g → rm_gateways (BuildGWStatus now g rm).2 !! k = rm_gateways rm !! k.
Proof.
  unfold BuildGWStatus. destruct (Gateway_report g rm) as [gr|]; [|done]. destruct (foldl _ _ _). cbn. split; [done|]. intros k Hk. by apply lookup_insert_ne.
Qed.
Lemma BuildGWStatus_some g rm : gateway_live (gw_nn g) rm → is_Some (BuildGWStatus now g rm).1.
Proof. intros [gr Hg]. unfold BuildGWStatus, Gateway_report. rewrite Hg. destruct (foldl _ _ _). cbn. eauto. Qed.
Lemma BuildRouteStatus_ext {R} (h : HTTPRoute R) c rm rm' : route_report h rm = route_report h rm' → (BuildRouteStatus now h c rm).1 = (BuildRouteStatus now h c rm').1.
Proof. intros Hh. unfold BuildRouteStatus. rewrite Hh. destruct (route_report h rm') as [rr|]; [|done]. by destruct (foldl _ _ _). Qed.
Lemma BuildRouteStatus_frame {R} (h : HTTPRoute R) c rm k : k ≠ hr_nn h → rm_routes (BuildRouteStatus now h c rm).2 !! k = rm_routes rm !! k.
Proof. intros Hk. unfold BuildRouteStatus. destruct (route_report h rm) as [rr|]; [|done]. destruct (foldl _ _ _). cbn. by apply lookup_insert_ne. Qed.
End Statuses.

Section Writes.
Context `{!CmpEqual, !ApiMeta, !GoRange ParentRefKey}.
Context (controllerName : string) (now : Z).

(** The write for one Gateway or route, from the reports as the translation left them. *)
Definition gateway_write (rm : ReportMap) (g : ListedGateway) : option ApiCall :=
  status ← (BuildGWStatus now (lg_gateway g) rm).1;
  if gateway_Equal (gw_status (lg_gateway g), lg_addresses g) (status, []) then None else Some (PatchGatewayStatus (listed_nn g) status).
Definition route_write (rm : ReportMap) (h : KHTTPRoute) : option ApiCall :=
  parents ← (BuildRouteStatus now h controllerName rm).1;
  if route_Equal (hr_statusParents h) parents then None else Some (UpdateRouteStatus (hr_nn h) parents).
(** The same, with the reports as they change. *)
Fixpoint gateway_writes (gwl : list ListedGateway) (rm : ReportMap) : list ApiCall * ReportMap :=
  match gwl with
  | [] => ([], rm)
  | g :: gwl => let '(cs, rm') := gateway_writes gwl (BuildGWStatus now (lg_gateway g) rm).2 in (option_list (gateway_write rm g) ++ cs, rm')
  end.
Fixpoint route_writes (rl : list KHTTPRoute) (rm : ReportMap) : list ApiCall :=
  match rl with
  | [] => []
  | h :: rl => option_list (route_write rm h) ++ route_writes rl (BuildRouteStatus now h controllerName rm).2
  end.

Lemma omap_option_list {A B} (f : A → option B) l : omap f l = flat_map (λ x, option_list (f x)) l.
Proof. induction l as [|x l IH]; cbn; [done|]. by destruct (f x); cbn; rewrite <-IH. Qed.
Lemma gateway_write_ext rm rm' g : rm_gateways rm !! listed_nn g = rm_gateways rm' !! listed_nn g → gateway_write rm g = gateway_write rm' g.
Proof. intros Hg. unfold gateway_write. by rewrite (BuildGWStatus_ext now _ rm rm'). Qed.
Lemma route_write_ext rm rm' h : rm_routes rm !! hr_nn h = rm_routes rm' !! hr_nn h → route_write rm h = route_write rm' h.
Proof. intros Hh. unfold route_write. by rewrite (BuildRouteStatus_ext now _ _ rm rm'). Qed.
(** The reports of one object do not depend on the others'. *)
Lemma gateway_writes_frame gwl : ∀ rm, rm_routes (gateway_writes gwl rm).2 = rm_routes rm.
Proof.
  induction gwl as [|g gwl IH]; intros rm; cbn; [done|]. specialize (IH (BuildGWStatus now (lg_gateway g) rm).2).
  destruct (gateway_writes gwl _) as [cs rm']. cbn in *. rewrite IH. apply BuildGWStatus_frame.
Qed.
Lemma gateway_writes_alone gwl rm0 : ∀ rm, NoDup (map listed_nn gwl) →
  (∀ g, g ∈ gwl → rm_gateways rm !! listed_nn g = rm_gateways rm0 !! listed_nn g) → (gateway_writes gwl rm).1 = omap (gateway_write rm0) gwl.
Proof.
  rewrite omap_option_list. induction gwl as [|g gwl IH]; intros rm; cbn; [done|]. intros [Hg Hnd]%NoDup_cons Hsame.
  specialize (IH (BuildGWStatus now (lg_gateway g) rm).2 Hnd). destruct (gateway_writes gwl _) as [cs rm']. cbn in *.
  rewrite (gateway_write_ext rm rm0) by (apply Hsame; by left). f_equal. apply IH. intros g' Hg'. rewrite <-Hsame by by right.
  apply BuildGWStatus_frame. intros E. apply Hg. apply list_elem_of_fmap. by exists g'.
Qed.
Lemma route_writes_alone rl rm0 : ∀ rm, NoDup (map hr_nn rl) →
  (∀ h, h ∈ rl → rm_routes rm !! hr_nn h = rm_routes rm0 !! hr_nn h) → route_writes rl rm = omap (route_write rm0) rl.
Proof.
  rewrite omap_option_list. induction rl as [|h rl IH]; intros rm; cbn; [done|]. intros [Hh Hnd]%NoDup_cons Hsame.
  rewrite (route_write_ext rm rm0) by (apply Hsame; by left). f_equal. apply IH; [done|]. intros h' Hh'. rewrite <-Hsame by by right.
  apply BuildRouteStatus_frame. intros E. apply Hh. apply list_elem_of_fmap. by exists h'.
Qed.
End Writes.

(** ** Queued Proxies *)
Section Queued.
Context {Registry : Type}.
Abbreviation Fac := (Factory (Registry := Registry)).

Lemma queue_proxies n ps : ∀ f : Fac, let f' := foldl (queue_proxy n) f ps in
  (∀ k, resyncsPerProxy f' !! k = if bool_decide (k ∈ map pm_nn ps) then Some n else resyncsPerProxy f !! k) ∧
  (∀ m, m ≠ n → resyncsPerIteration f' !! m = resyncsPerIteration f !! m) ∧
  (is_Some (resyncsPerIteration f !! n) ∨ ps ≠ [] → is_Some (resyncsPerIteration f' !! n)).
Proof.
  induction ps as [|p ps IH]; intros f; cbn [foldl map]. { split_and!; [done|done|by intros [?|?]]. }
  destruct (IH (queue_proxy n f p)) as (Hp & Hi & Hn). split_and!.
  - intros k. rewrite Hp. cbn. unfold getProxyNameNamespace. rewrite lookup_insert. case_bool_decide as Hk.
    + rewrite bool_decide_eq_true_2; [done|by right].
    + case_decide as E; [subst; rewrite bool_decide_eq_true_2; [done|by left]|]. rewrite bool_decide_eq_false_2; [done|]. intros [->|?]%elem_of_cons; done.
  - intros m Hm. rewrite Hi by done. cbn. by rewrite lookup_insert_ne.
  - intros _. apply Hn. left. cbn. rewrite lookup_insert_eq. eauto.
Qed.
Lemma queued_lookup ps (g : Registry) n f k : resyncsPerProxy (QueueStatusForProxies ps g n f) !! k =
  if bool_decide (k ∈ map pm_nn ps) then Some n else resyncsPerProxy f !! k.
Proof. unfold QueueStatusForProxies. cbn. apply queue_proxies. Qed.
Lemma filter_owned rs : (∀ r, r ∈ rs → pm_labels (pwr_proxy r) !! ProxyTypeKey = Some GatewayApiProxyValue) → filterProxiesByControllerName rs = rs.
Proof.
  intros Hrs. unfold filterProxiesByControllerName. induction rs as [|r rs IH]; cbn; [done|].
  rewrite Hrs by by left. cbn. rewrite bool_decide_eq_true_2 by done. f_equal. apply IH. intros. apply Hrs. by right.
Qed.
Lemma go_range_singleton `{!GoRange Z} {V} n (v : V) : go_range {[ n := v ]} = [(n, v)].
Proof. apply Permutation_singleton_r. rewrite go_range_perm. by rewrite map_to_list_singleton. Qed.

(** Reports of Proxies just queued all go to the plugins they were queued with. *)
Lemma queued_delivered {W} `{!GoRange Z} (plugins : Registry → list (list ProxyWithReports → M W (option Err))) ps (g : Registry) n f rs w :
  rs ≠ [] → map pwr_proxy rs ≡ₚ ps → NoDup (map pm_nn ps) →
  (∀ p, p ∈ ps → sync_count 0 p = n ∧ is_Some (pm_annotations p !! ProxySyncId) ∧ pm_labels p !! ProxyTypeKey = Some GatewayApiProxyValue) →
  ∃ f', HandleProxyReports plugins rs (QueueStatusForProxies ps g n f, w) = on_world (applyStatusPlugins plugins g rs) (f', w) ∧
    ∀ p, p ∈ ps → resyncsPerProxy f' !! pm_nn p = None.
Proof.
  intros Hne Hperm Hnd Hps. set (f1 := QueueStatusForProxies ps g n f).
  assert (∀ r, r ∈ rs → pwr_proxy r ∈ ps) as Hin. { intros r Hr. rewrite <-Hperm. apply list_elem_of_fmap. by exists r. }
  assert (filterProxiesByControllerName rs = rs) as Hfilter by (apply filter_owned; intros r Hr; by apply Hps, Hin).
  assert (Forall annotated rs) as Hann by (apply Forall_forall; intros r Hr; by apply Hps, Hin).
  assert (NoDup (map key rs)) as Hkeys.
  { assert (map key rs ≡ₚ map pm_nn ps) as ->; [|done]. rewrite <-Hperm, map_map. done. }
  assert (∀ r, r ∈ rs → accepted f1 r = true ∧ sync_id r = n) as Hacc.
  { intros r Hr. pose proof (Hin r Hr) as Hp. destruct (Hps _ Hp) as (Hid & _ & _). split; [|done]. unfold accepted, sync_id. rewrite Hid.
    assert (bool_decide (key r ∈ map pm_nn ps) = true) as Hkey by (apply bool_decide_eq_true_2, list_elem_of_fmap; by exists (pwr_proxy r)).
    assert (resyncsPerProxy f1 !! key r = Some n) as Hq by (unfold f1; rewrite queued_lookup; by rewrite Hkey).
    rewrite Hq. cbn. rewrite bool_decide_eq_false_2 by lia. cbn.
    destruct (queue_proxies n ps f) as (_ & _ & Hn). destruct Hn as [l ->]; [right; by intros ->; apply elem_of_nil in Hp|done]. }
  destruct (HandleProxyReports_run plugins rs f1 w) as (f' & b' & m & Hrun & Hreg & ->). rewrite Hfilter in Hrun.
  destruct (collect_all rs f1 ∅ 0%Z Hann Hkeys) as (f2 & b2 & m2 & Hrun2 & [_ _ Hdone _] & Hb). rewrite Hrun in Hrun2. injection Hrun2 as <- <- <-.
  assert (b' = {[ n := rs ]}) as ->.
  { apply map_eq. intros k. rewrite Hb, lookup_empty. destruct (decide (k = n)) as [->|Hk].
    - rewrite lookup_singleton_eq. assert (batch_of f1 rs n = rs) as ->; [|by destruct rs].
      unfold batch_of. clear -Hacc. induction rs as [|r rs IH]; cbn; [done|]. destruct (Hacc r ltac:(by left)) as [-> ->].
      rewrite bool_decide_eq_true_2 by done. cbn. f_equal. apply IH. intros. apply Hacc. by right.
    - rewrite lookup_singleton_ne by done. destruct (batch_of f1 rs k) as [|r l] eqn:E; [done|]. exfalso.
      assert (r ∈ batch_of f1 rs k) as Hr by (rewrite E; by left). apply elem_of_filter_bool in Hr as [Hr Hk']. destruct (Hacc r Hr) as [_ Hid].
      apply andb_prop in Hk' as [_ Hk'%bool_decide_eq_true]. congruence. }
  rewrite go_range_singleton. exists f'. split.
  - unfold deliver_all, on_world. cbn [for_range fst snd]. unfold bind, deliver. unfold f1. cbn [registryPerSync QueueStatusForProxies].
    rewrite lookup_insert_eq. by destruct (applyStatusPlugins plugins g rs w) as [[[] w1]| |].
  - intros p Hp. rewrite <-Hperm in Hp. apply list_elem_of_fmap in Hp as (r & -> & Hr). apply Hdone; [done|]. by apply Hacc.
Qed.
End Queued.

(** ** A resync *)
(** What the translator and the plugins promise: they return, keep the memory well formed
    and the reports of other Gateways, and a Proxy is named after its Gateway, which has a
    report. *)
Class K8sGatewayExtensionsLaws {W : Type} `{!K8sGatewayExtensions W} := {
  translatable : K8sClient → Gateway → Prop;
  translator_ok client g T ns ps h : GetTranslator client g = Some T → translatable client g → heap_ok h →
    wp (T ns) (λ r s', heap_ok s'.2 ∧ gateways_kept (ps_reports ps) (ps_reports s'.1) ∧ ∀ p, r = Some p →
      gateway_live (gw_nn g) (ps_reports s'.1) ∧ px_labels p !! ProxyTypeKey = Some GatewayApiProxyValue ∧
      px_namespace p = ns ∧ px_name p = om_namespace (gw_meta g) +:+ "-" +:+ om_name (gw_meta g)) (ps, h);
  post_plugins_ok registry plugin gws w : plugin ∈ GetPostTranslationPlugins registry → ∃ e w', plugin gws w = Ok (e, w')
}.

Section Syncer.
Context {W : Type} `{!K8sGatewayExtensions W, !CmpEqual, !ApiMeta, !GoRange ParentRefKey, !GoRange Z}.
Context (controllerName writeNamespace : string).

(** The translation of the Gateways one after the other. *)
Inductive translations (client : K8sClient) (n : nat) :
    list ListedGateway → PState * Heap → list SyncedProxy → list Gateway → PState * Heap → Prop :=
| tr_nil s : translations client n [] s [] [] s
| tr_none g gwl s ps gws s' : GetTranslator client (lg_gateway g) = None → translations client n gwl s ps gws s' →
    translations client n (g :: gwl) s ps gws s'
| tr_failed g gwl T s s1 ps gws s' : GetTranslator client (lg_gateway g) = Some T → T writeNamespace s = Ok (None, s1) →
    translations client n gwl s1 ps gws s' → translations client n (g :: gwl) s ps gws s'
| tr_proxy g gwl T s p s1 ps gws s' : GetTranslator client (lg_gateway g) = Some T → T writeNamespace s = Ok (Some p, s1) →
    translations client n gwl s1 ps gws s' → translations client n (g :: gwl) s (annotate n p :: ps) (lg_gateway g :: gws) s'.

Lemma translate_all_inv client n gwl : ∀ i acc s out s',
  fold_range i gwl acc (λ _ g acc, translate_gateway writeNamespace client n (lg_gateway g) acc) s = Ok (out, s') →
  ∃ ps gws, out = (acc.1 ++ ps, acc.2 ++ gws) ∧ translations client n gwl s ps gws s'.
Proof.
  induction gwl as [|g gwl IH]; intros i [ps0 gws0] s out s'; cbn.
  { intros [= <- <-]. exists [], []. rewrite !app_nil_r. split; [done|constructor]. }
  unfold bind at 1. unfold translate_gateway at 1. destruct (GetTranslator client (lg_gateway g)) as [T|] eqn:ET.
  - unfold bind. destruct (T writeNamespace s) as [[[p|] s1]| |] eqn:Er; [| |done..].
    + intros (ps & gws & -> & Ht)%IH. exists (annotate n p :: ps), (lg_gateway g :: gws). split; [cbn; by rewrite <-!(assoc_L (++))|]. by eapply tr_proxy.
    + intros (ps & gws & -> & Ht)%IH. exists ps, gws. split; [done|]. by eapply tr_failed.
  - intros (ps & gws & -> & Ht)%IH. exists ps, gws. split; [done|]. by eapply tr_none.
Qed.

Lemma syncStatus_run now gwl : ∀ rm (s : Syncer W), syncStatus now gwl rm s =
  Ok ((gateway_writes now gwl rm).2, {| secretsWarmed := secretsWarmed s; totalResyncs := totalResyncs s; statusSyncer := statusSyncer s; world := world s;
                                       calls := calls s ++ (gateway_writes now gwl rm).1 |}).
Proof.
  unfold syncStatus. generalize 0. induction gwl as [|g gwl IH]; intros i rm s; cbn [fold_range gateway_writes].
  { cbn. rewrite app_nil_r. by destruct s. }
  unfold bind at 1. unfold gateway_write. destruct (BuildGWStatus now (lg_gateway g) rm) as [[st|] rm1]; cbn.
  - destruct (gateway_Equal _ _); cbn; rewrite IH; destruct (gateway_writes now gwl rm1); cbn; by rewrite <-?(assoc_L (++)).
  - rewrite IH. by destruct (gateway_writes now gwl rm1).
Qed.
Definition routes_written (a : Answers) (rm : ReportMap) : list ApiCall :=
  match an_routes a with inl _ => [] | inr rl => route_writes controllerName (an_now a) rl rm end.
Lemma syncRouteStatus_run a rm (s : Syncer W) : syncRouteStatus controllerName (an_now a) (an_routes a) rm s =
  Ok (tt, {| secretsWarmed := secretsWarmed s; totalResyncs := totalResyncs s; statusSyncer := statusSyncer s; world := world s; calls := calls s ++ routes_written a rm |}).
Proof.
  unfold syncRouteStatus, routes_written. destruct (an_routes a) as [e|rl]; [cbn; rewrite app_nil_r; by destruct s|].
  enough (∀ i rm (s : Syncer W), ∃ rm', fold_range i rl rm (λ _ route rm,
        let '(status, rm) := BuildRouteStatus (an_now a) route controllerName rm in
        do! (match status with
             | None => ret tt
             | Some parents => if route_Equal (hr_statusParents route) parents then ret tt else api_call (UpdateRouteStatus (hr_nn route) parents)
             end) ;;
        ret rm) s = Ok (rm', {| secretsWarmed := secretsWarmed s; totalResyncs := totalResyncs s; statusSyncer := statusSyncer s; world := world s;
                                calls := calls s ++ route_writes controllerName (an_now a) rl rm |})) as Hrun.
  { unfold bind at 1. destruct (Hrun 0 rm s) as (rm' & ->). done. }
  clear rm s. induction rl as [|h rl IH]; intros i rm s; cbn [fold_range route_writes].
  { exists rm. cbn. rewrite app_nil_r. by destruct s. }
  unfold bind at 1. unfold route_write. destruct (BuildRouteStatus (an_now a) h controllerName rm) as [[st|] rm1]; cbn.
  - destruct (route_Equal _ _); cbn.
    + apply IH.
    + destruct (IH (i + 1) rm1 {| secretsWarmed := secretsWarmed s; totalResyncs := totalResyncs s; statusSyncer := statusSyncer s; world := world s;
        calls := calls s ++ [UpdateRouteStatus (hr_nn h) st] |}) as (rm' & Hr). exists rm'. cbn [calls secretsWarmed totalResyncs statusSyncer world] in Hr. rewrite <-(assoc_L (++)) in Hr. exact Hr.
  - apply IH.
Qed.

(** The state after a resync that translates. *)
Definition resynced (a : Answers) (s : Syncer W) (gwl : list ListedGateway) (proxies : list SyncedProxy) (registry : PState) (w' : W) : Syncer W :=
  let n := totalResyncs s + 1 in
  {| secretsWarmed := secretsWarmed s; totalResyncs := n; world := w';
     statusSyncer := QueueStatusForProxies (map proxy_meta proxies) registry (Z.of_nat n) (statusSyncer s);
     calls := calls s ++ (gateway_writes (an_now a) gwl (ps_reports registry)).1 ++ routes_written a (gateway_writes (an_now a) gwl (ps_reports registry)).2 ++
              [ReconcileProxies writeNamespace proxies kubeGatewayProxyLabels] |}.
Definition post_run (registry : PState) (gws : list Gateway) : M W unit :=
  for_range (GetPostTranslationPlugins registry) (λ plugin, do! plugin gws ;; ret tt).
Lemma resync_run a (s : Syncer W) : resyncProxies controllerName writeNamespace a s =
  if negb (secretsWarmed s) then Ok (tt, s)
  else let n := totalResyncs s + 1 in
    match an_gateways a with
    | inl _ => Ok (tt, {| secretsWarmed := secretsWarmed s; totalResyncs := n; statusSyncer := statusSyncer s; world := world s; calls := calls s |})
    | inr gwl =>
        res_bind (fold_range 0 gwl ([], []) (λ _ g acc, translate_gateway writeNamespace (an_client a) n (lg_gateway g) acc) (CreatePluginRegistry, empty_heap))
          (λ '((proxies, gws), (registry, _)), res_bind (post_run registry gws (world s)) (λ '(_, w'), Ok (tt, resynced a s gwl proxies registry w')))
    end.
Proof.
  unfold resyncProxies. cbn. destruct (secretsWarmed s) eqn:Hw; cbn; [|done]. unfold bind at 1. cbn. destruct (an_gateways a) as [e|gwl]; [by rewrite Hw|].
  unfold bind at 1. cbn. unfold bind at 1, lift_res. cbn.
  destruct (fold_range 0 gwl _ _ _) as [[[proxies gws] [registry h]]| |]; [|done..]. cbn.
  unfold bind at 1, applyPostTranslationPlugins, on_status, on_world. cbn. fold (post_run registry gws).
  destruct (post_run registry gws (world s)) as [[[] w']| |]; [|done..]. cbn.
  rewrite syncStatus_run. cbn. unfold bind at 1. rewrite syncRouteStatus_run. unfold resynced, reconcileProxies, api_call, modify. cbn.
  by rewrite <-!(assoc_L (++)).
Qed.

Section Total.
Context `{!K8sGatewayExtensionsLaws}.

Definition proxy_of (n : nat) (p : SyncedProxy) : Prop :=
  pm_annotations (proxy_meta p) !! ProxySyncId = Some (itoa n) ∧ pm_labels (proxy_meta p) !! ProxyTypeKey = Some GatewayApiProxyValue ∧
  nn_ns (pm_nn (proxy_meta p)) = writeNamespace.
Lemma translate_all_ok client n gwl : ∀ i acc s, heap_ok s.2 → (∀ g, g ∈ gwl → translatable client (lg_gateway g)) →
  wp (fold_range i gwl acc (λ _ g acc, translate_gateway writeNamespace client n (lg_gateway g) acc)) (λ out s', ∃ ps gws,
    out = (acc.1 ++ ps, acc.2 ++ gws) ∧ translations client n gwl s ps gws s' ∧ gateways_kept (ps_reports s.1) (ps_reports s'.1) ∧
    Forall (proxy_of n) ps ∧ Forall2 (λ p g, px_name (sp_proxy p) = om_namespace (gw_meta g) +:+ "-" +:+ om_name (gw_meta g) ∧
      gateway_live (gw_nn g) (ps_reports s'.1)) ps gws ∧ sublist gws (map lg_gateway gwl)) s.
Proof.
  induction gwl as [|g gwl IH]; intros i [ps0 gws0] s Hok Hall; cbn [fold_range].
  { apply wp_ret. exists [], []. rewrite !app_nil_r. split_and!; [done|constructor|done|constructor..]. }
  assert (∀ g', g' ∈ gwl → translatable client (lg_gateway g')) as Hall' by (intros; apply Hall; by right).
  apply wp_bind. unfold translate_gateway at 1. destruct (GetTranslator client (lg_gateway g)) as [T|] eqn:ET.
  - apply wp_bind. destruct s as [rs h]. pose proof (translator_ok client _ T writeNamespace rs h ET (Hall g ltac:(by left)) Hok) as Hw.
    apply wp_run in Hw as (r & s1 & Hr & Hok1 & Hk1 & Hp). unfold wp at 1. rewrite Hr. apply wp_ret. destruct r as [p|].
    + destruct (Hp p eq_refl) as (Hlive & Hl & Hns & Hn). eapply wp_mono; [by apply IH|]. intros out s' (ps & gws & -> & Ht & Hk & Hps & Hgws & Hsub).
      exists (annotate n p :: ps), (lg_gateway g :: gws). split_and!.
      * cbn. by rewrite <-!(assoc_L (++)).
      * by eapply tr_proxy.
      * by etrans.
      * constructor; [|done]. split_and!; [exact (lookup_singleton_eq _ _)|done|done].
      * constructor; [|done]. split; [done|]. by apply Hk.
      * by constructor.
    + eapply wp_mono; [by apply IH|]. intros out s' (ps & gws & -> & Ht & Hk & Hps & Hgws & Hsub).
      exists ps, gws. split_and!; [done|by eapply tr_failed|by etrans|done|done|by constructor].
  - apply wp_ret. eapply wp_mono; [by apply IH|]. intros out s' (ps & gws & -> & Ht & Hk & Hps & Hgws & Hsub).
    exists ps, gws. split_and!; [done|by eapply tr_none|done|done|done|by constructor].
Qed.
Lemma post_run_ok registry gws w : ∃ w', post_run registry gws w = Ok (tt, w').
Proof.
  unfold post_run. assert (∀ p, p ∈ GetPostTranslationPlugins registry → ∀ w, ∃ e w', p gws w = Ok (e, w')) as Hall by (intros; by eapply post_plugins_ok).
  revert w. induction (GetPostTranslationPlugins registry) as [|p ps IH]; intros w; cbn; [eauto|].
  destruct (Hall p ltac:(by left) w) as (e & w1 & Hw). unfold bind at 1 2. rewrite Hw. cbn. apply IH. intros. apply Hall. by right.
Qed.

Definition routes_of (a : Answers) : list KHTTPRoute := match an_routes a with inl _ => [] | inr rl => rl end.
Lemma resynced_calls a (s : Syncer W) gwl proxies registry w' : NoDup (map listed_nn gwl) → NoDup (map hr_nn (routes_of a)) →
  calls (resynced a s gwl proxies registry w') = calls s ++ omap (gateway_write (an_now a) (ps_reports registry)) gwl ++
    omap (route_write controllerName (an_now a) (ps_reports registry)) (routes_of a) ++ [ReconcileProxies writeNamespace proxies kubeGatewayProxyLabels].
Proof.
  intros Hg Hr. unfold resynced. cbn [calls]. rewrite (gateway_writes_alone _ _ (ps_reports registry)) by done. do 3 f_equal.
  unfold routes_written, routes_of in *. destruct (an_routes a) as [e|rl]; [done|]. apply route_writes_alone; [done|]. intros h _. by rewrite gateway_writes_frame.
Qed.
Lemma resync_total a (s : Syncer W) gwl (Hw : secretsWarmed s = true) (Hg : an_gateways a = inr gwl)
    (Ht : ∀ g, g ∈ gwl → translatable (an_client a) (lg_gateway g)) :
  ∃ proxies gws registry h w', resyncProxies controllerName writeNamespace a s = Ok (tt, resynced a s gwl proxies registry w') ∧
    translations (an_client a) (totalResyncs s + 1) gwl (CreatePluginRegistry, empty_heap) proxies gws (registry, h) ∧
    Forall (proxy_of (totalResyncs s + 1)) proxies ∧
    Forall2 (λ p g, px_name (sp_proxy p) = om_namespace (gw_meta g) +:+ "-" +:+ om_name (gw_meta g) ∧ gateway_live (gw_nn g) (ps_reports registry)) proxies gws.
Proof.
  pose proof (translate_all_ok (an_client a) (totalResyncs s + 1) gwl 0 ([], []) (CreatePluginRegistry, empty_heap) empty_heap_ok Ht) as Hwp.
  apply wp_run in Hwp as (out & [registry h] & Hrun & ps & gws & -> & Htr & _ & Hps & Hgws & _).
  destruct (post_run_ok registry gws (world s)) as [w' Hpost]. exists ps, gws, registry, h, w'. split_and!; [|done..].
  rewrite resync_run, Hw, Hg. cbn [negb]. cbv zeta. rewrite Hrun. cbn [res_bind fst snd app]. by rewrite Hpost.
Qed.

(** C5. A resync after the secrets are known, of Gateways that can be translated, returns:
    the Gateways are translated one after the other with the same registry; each Proxy is
    annotated with the number of the sync, queued under it with the registry, and handed
    to the reconciler; and the only other writes are, for each Gateway and route, the
    status built from the reports where it is not stored already. Every translated Gateway
    ends with the status that was built for it, up to transition times. *)
Theorem resync_exact `{!CmpEqualLaws} a (s : Syncer W) gwl (Hw : secretsWarmed s = true) (Hg : an_gateways a = inr gwl)
    (Hgs : NoDup (map listed_nn gwl)) (Hrs : NoDup (map hr_nn (routes_of a))) (Ht : ∀ g, g ∈ gwl → translatable (an_client a) (lg_gateway g)) :
  let n := totalResyncs s + 1 in
  ∃ proxies gws registry h s', resyncProxies controllerName writeNamespace a s = Ok (tt, s') ∧
    translations (an_client a) n gwl (CreatePluginRegistry, empty_heap) proxies gws (registry, h) ∧ Forall (proxy_of n) proxies ∧
    totalResyncs s' = n ∧ statusSyncer s' = QueueStatusForProxies (map proxy_meta proxies) registry (Z.of_nat n) (statusSyncer s) ∧
    calls s' = calls s ++ omap (gateway_write (an_now a) (ps_reports registry)) gwl ++
      omap (route_write controllerName (an_now a) (ps_reports registry)) (routes_of a) ++ [ReconcileProxies writeNamespace proxies kubeGatewayProxyLabels] ∧
    ∀ g, g ∈ gwl → lg_gateway g ∈ gws → ∃ st, (BuildGWStatus (an_now a) (lg_gateway g) (ps_reports registry)).1 = Some st ∧
      (PatchGatewayStatus (listed_nn g) st ∈ calls s' ∨ timeless_gateway (gw_status (lg_gateway g)) = timeless_gateway st ∧ lg_addresses g = []).
Proof.
  intros n. destruct (resync_total a s gwl Hw Hg Ht) as (proxies & gws & registry & h & w' & Hrun & Htr & Hps & Hgws).
  exists proxies, gws, registry, h, (resynced a s gwl proxies registry w'). rewrite resynced_calls by done.
  split_and!; [done..|]. intros g Hin Hgw. apply list_elem_of_lookup in Hgw as [i Hi].
  destruct (Forall2_lookup_r _ _ _ _ _ Hgws Hi) as (p & _ & _ & Hlive). apply (BuildGWStatus_some (an_now a)) in Hlive as [st Hst].
  exists st. split; [done|]. destruct (gateway_Equal (gw_status (lg_gateway g), lg_addresses g) (st, [])) eqn:E; [right; by apply gateway_Equal_sound in E|left].
  apply elem_of_app. right. apply elem_of_app. left. apply list_elem_of_omap. exists g. split; [done|]. unfold gateway_write. rewrite Hst. cbn. by rewrite E.
Qed.

(** C6. From the translation to the statuses: when gloo hands back the Proxies of a resync with
    their reports, in any order, all of them reach the status plugins of the registry that
    translated them, in one batch, and none of them is queued afterwards. *)
Theorem written_reports_delivered a (s : Syncer W) gwl (Hw : secretsWarmed s = true) (Hg : an_gateways a = inr gwl)
    (Ht : ∀ g, g ∈ gwl → translatable (an_client a) (lg_gateway g)) (Hn : (Z.of_nat (totalResyncs s + 1) < 2 ^ 63)%Z) :
  ∃ proxies gws registry h s' cs, resyncProxies controllerName writeNamespace a s = Ok (tt, s') ∧
    translations (an_client a) (totalResyncs s + 1) gwl (CreatePluginRegistry, empty_heap) proxies gws (registry, h) ∧
    calls s' = cs ++ [ReconcileProxies writeNamespace proxies kubeGatewayProxyLabels] ∧
    ∀ rs, rs ≠ [] → map pwr_proxy rs ≡ₚ map proxy_meta proxies → NoDup (map pm_nn (map proxy_meta proxies)) →
      ∃ f', HandleProxyReports GetStatusPlugins rs (statusSyncer s', world s') = on_world (applyStatusPlugins GetStatusPlugins registry rs) (f', world s') ∧
        ∀ p, p ∈ proxies → resyncsPerProxy f' !! pm_nn (proxy_meta p) = None.
Proof.
  destruct (resync_total a s gwl Hw Hg Ht) as (proxies & gws & registry & h & w' & Hrun & Htr & Hps & _).
  exists proxies, gws, registry, h, (resynced a s gwl proxies registry w'). eexists. split_and!; [done..|unfold resynced; cbn [calls]; by rewrite !(assoc_L (++))|].
  intros rs Hne Hperm Hnd. destruct (queued_delivered GetStatusPlugins (map proxy_meta proxies) registry (Z.of_nat (totalResyncs s + 1)) (statusSyncer s) rs w') as (f' & Hh & Hdone); [done..| |].
  - intros p Hp. apply list_elem_of_fmap in Hp as (q & -> & Hq). rewrite Forall_forall in Hps. destruct (Hps q Hq) as (Ha & Hl & _).
    unfold sync_count. rewrite Ha. split_and!; [by apply atoi_itoa|eauto|done].
  - exists f'. split; [exact Hh|]. intros p Hp. apply Hdone, list_elem_of_fmap. by exists p.
Qed.
End Total.

(** ** Runs *)
Definition numbered (n : nat) (p : SyncedProxy) : Prop := sp_annotations p !! ProxySyncId = Some (itoa n).
Lemma translations_numbered client n gwl s ps gws s' : translations client n gwl s ps gws s' → Forall (numbered n) ps.
Proof. induction 1; [constructor|done..|]. constructor; [exact (lookup_singleton_eq _ _)|done]. Qed.

Definition written (c : ApiCall) : option (list SyncedProxy) := match c with ReconcileProxies _ ps _ => Some ps | _ => None end.
(** The last sync that wrote a Proxy is [n]. *)
Definition last_written (cs : list ApiCall) (k : NamespacedName) (n : nat) : Prop :=
  ∃ pre ns ps sel post, cs = pre ++ ReconcileProxies ns ps sel :: post ∧ (∃ p, p ∈ ps ∧ pm_nn (proxy_meta p) = k ∧ numbered n p) ∧
    ∀ c ps' p, c ∈ post → written c = Some ps' → p ∈ ps' → pm_nn (proxy_meta p) ≠ k.
Record sound (y : Syncer W) : Prop := {
  so_cold : secretsWarmed y = false → calls y = [];
  so_numbers : ∃ ids, Forall2 (λ n ps, Forall (numbered n) ps) ids (omap written (calls y)) ∧ StronglySorted lt ids ∧ Forall (λ n, 1 ≤ n ≤ totalResyncs y) ids;
  so_queued : ∀ k z, resyncsPerProxy (statusSyncer y) !! k = Some z →
    ∃ n, z = Z.of_nat n ∧ 1 ≤ n ≤ totalResyncs y ∧ last_written (calls y) k n
}.

Lemma writes_unwritten now gwl : ∀ rm, omap written (gateway_writes now gwl rm).1 = [].
Proof.
  induction gwl as [|g gwl IH]; intros rm; cbn; [done|]. specialize (IH (BuildGWStatus now (lg_gateway g) rm).2). destruct (gateway_writes now gwl _) as [cs rm']. cbn in *.
  unfold gateway_write. destruct (BuildGWStatus now (lg_gateway g) rm).1 as [st|]; cbn; [|done]. by destruct (gateway_Equal _ _).
Qed.
Lemma routes_unwritten a rm : omap written (routes_written a rm) = [].
Proof.
  unfold routes_written. destruct (an_routes a) as [e|rl]; [done|]. revert rm. induction rl as [|h rl IH]; intros rm; cbn; [done|].
  unfold route_write. destruct (BuildRouteStatus (an_now a) h controllerName rm).1 as [st|]; cbn; [|apply IH]. destruct (route_Equal _ _); cbn; apply IH.
Qed.
Lemma last_written_app cs k n ds : last_written cs k n → (∀ ps p, ps ∈ omap written ds → p ∈ ps → pm_nn (proxy_meta p) ≠ k) → last_written (cs ++ ds) k n.
Proof.
  intros (pre & ns & ps & sel & post & -> & Hp & Hpost) Hds. exists pre, ns, ps, sel, (post ++ ds). rewrite <-(assoc_L (++)). split_and!; [done|done|].
  intros c ps' p [Hc|Hc]%elem_of_app Hw Hin; [by eapply Hpost|]. apply (Hds ps'); [|done]. apply list_elem_of_omap. by exists c.
Qed.
Lemma resync_sound a y y' : resyncProxies controllerName writeNamespace a y = Ok (tt, y') → sound y → sound y'.
Proof.
  rewrite resync_run. destruct (secretsWarmed y) eqn:Hw; cbn [negb]; [|by intros [= <-]]. cbv zeta. destruct (an_gateways a) as [e|gwl].
  { intros [= <-] [Hc (ids & H1 & H2 & H3) Hq]. split; cbn; [congruence| |].
    - exists ids. split_and!; [done|done|]. eapply Forall_impl; [done|]. cbn. lia.
    - intros k z (n & Hz & Hn & Hl)%Hq. exists n. split_and!; [done|lia|lia|done]. }
  destruct (fold_range 0 gwl _ _ _) as [[[proxies gws] [registry h]]| |] eqn:Hf; [|done..]. cbn [res_bind].
  apply translate_all_inv in Hf as (ps & gws' & [= -> ->] & Htr). apply translations_numbered in Htr.
  destruct (post_run registry _ (world y)) as [[[] w']| |]; [|done..]. cbn [res_bind]. intros [= <-] [Hc (ids & H1 & H2 & H3) Hq].
  set (n := totalResyncs y + 1). set (ds := (gateway_writes (an_now a) gwl (ps_reports registry)).1 ++ routes_written a (gateway_writes (an_now a) gwl (ps_reports registry)).2 ++
    [ReconcileProxies writeNamespace ps kubeGatewayProxyLabels]).
  assert (omap written ds = [ps]) as Hds by (unfold ds; by rewrite !omap_app, writes_unwritten, routes_unwritten).
  split; unfold resynced; cbn [secretsWarmed calls totalResyncs statusSyncer]; fold ds; fold n; [congruence| |].
  - exists (ids ++ [n]). rewrite omap_app, Hds. split_and!.
    + apply Forall2_app; [done|]. by constructor.
    + apply StronglySorted_app. split_and!; [|done|by repeat constructor]. intros i j Hi ->%list_elem_of_singleton. rewrite Forall_forall in H3. specialize (H3 i Hi). lia.
    + apply Forall_app. split; [|constructor; [lia|done]]. eapply Forall_impl; [done|]. cbn. lia.
  - intros k z. rewrite queued_lookup. case_bool_decide as Hk.
    + intros [= <-]. exists n. split_and!; [done|lia|done|]. rewrite map_map in Hk. apply list_elem_of_fmap in Hk as (p & Hpk & Hp).
      rewrite Forall_forall in Htr. unfold ds. rewrite !(assoc_L (++)). eexists _, writeNamespace, ps, kubeGatewayProxyLabels, [].
      split_and!; [done|exists p; split_and!; [done|done|by apply Htr]|]. intros c ps' p' Hin. by apply elem_of_nil in Hin.
    + intros (m & Hz & Hm & Hl)%Hq. exists m. split_and!; [done|lia|lia|]. apply last_written_app; [done|]. rewrite Hds.
      intros ps' p ->%list_elem_of_singleton Hp E. apply Hk. rewrite map_map. apply list_elem_of_fmap. by exists p.
Qed.

Lemma collect_shrinks rs : ∀ (f : Factory (Registry := PState)) b prev k z,
  resyncsPerProxy (foldl collect (f, b, prev) rs).1.1 !! k = Some z → resyncsPerProxy f !! k = Some z.
Proof.
  induction rs as [|r rs IH]; intros f b prev k z; [done|]. cbn [foldl]. unfold collect at 2. case_bool_decide; [apply IH|].
  destruct (resyncsPerIteration f !! _); [|apply IH]. intros Hk%IH. cbn in Hk. by apply lookup_delete_Some in Hk as [_ ?].
Qed.
Lemma reports_sound rs y y' : on_status (HandleProxyReports GetStatusPlugins rs) y = Ok (tt, y') → sound y → sound y'.
Proof.
  unfold on_status. destruct (HandleProxyReports_run GetStatusPlugins rs (statusSyncer y) (world y)) as (f' & b' & m & Hrun & _ & ->).
  unfold on_world. cbn [fst snd]. destruct (deliver_all _ _ _ _) as [[[] w1]| |]; [|done..]. intros [= <-] [Hc Hi Hq]. split; cbn; [done|done|].
  intros k z Hk. apply Hq. apply (collect_shrinks (filterProxiesByControllerName rs) _ ∅ 0%Z). by rewrite Hrun.
Qed.

(** C7. In every reachable state of the syncer, its queues and the status syncer: nothing has
    been written before the secrets were known; the Proxies of each reconciliation carry
    one number, larger than all earlier ones; and a Proxy that is queued awaits the report
    of the very last sync that wrote it. *)
Theorem reachable_sound w s (Hr : reachable controllerName writeNamespace w s) : sound (syncer s).
Proof.
  unfold reachable in Hr. apply rtc_ind_r with (P := λ s, sound (syncer s)) in Hr; [done| |].
  - split; cbn; [done|exists []; split_and!; constructor|]. intros k z. by rewrite lookup_empty.
  - clear. intros s1 s2 _ Hs H1. destruct Hs as [s|l s|a q y y' Hy|a i q y y' Hy|rs g q y y' Hy]; cbn [syncer] in *; [done|done|by eapply resync_sound| |by eapply reports_sound].
    apply (resync_sound a {| secretsWarmed := true; totalResyncs := totalResyncs y; statusSyncer := statusSyncer y; world := world y; calls := calls y |}); [exact Hy|].
    destruct H1 as [_ Hi Hq]. by split.
Qed.
End Syncer.

(** A Gateway with addresses, which the status that is built never has, is written at every
    resync. *)
Lemma addresses_always_patched `{CmpEqualLaws} `{!ApiMeta} now rm g st :
  lg_addresses g ≠ [] → (BuildGWStatus now (lg_gateway g) rm).1 = Some st → gateway_write now rm g = Some (PatchGatewayStatus (listed_nn g) st).
Proof.
  intros Ha Hst. unfold gateway_write. rewrite Hst. cbn. destruct (gateway_Equal _ _) eqn:E; [|done]. by apply gateway_Equal_sound in E as [_ ?].
Qed.

(** ** The extensions of the repository *)
Section Extensions.
Context {W : Type} `{!GoRange string} `{!GoRange Z} `{!RoutePlugins} `{!ListenerPlugins} `{X509}.
Context (U : gset NamespacedName) (plugins : PState → list (list ProxyWithReports → M W (option Err))).

(** What [TranslateProxy] asks of the cluster. *)
Definition cluster_translatable (client : K8sClient) (gw : Gateway) : Prop :=
  @FiniteCluster client U ∧ NoDup (map l_name (gw_listeners gw)) ∧
  (∀ ks, @list_httproutes_by_target client (nn_string (gw_nn gw)) = inr ks → Forall (λ k : KHTTPRoute, contains_char "/"%char (hr_namespace k) = false) ks) ∧
  (∀ l, l ∈ gw_listeners gw → @certs_are_secrets client (om_namespace (gw_meta gw)) (l_tls l)).
Program Definition k8sGatewayExtensions_laws : @K8sGatewayExtensionsLaws W (k8sGatewayExtensions (S (size U)) plugins) :=
  {| translatable := cluster_translatable |}.
Next Obligation.
  intros client g T ns ps h [= <-] (HU & Hnd & Hslash & Hcerts) Hok. destruct (@list_httproutes_by_target client (nn_string (gw_nn g))) as [e|ks] eqn:El.
  - unfold wp. rewrite (TranslateProxy_unlisted U g ns e (ps, h) El). by split_and!.
  - eapply wp_mono; [apply (@TranslateProxy_ok _ _ _ _ client _ U HU g ns ks ps h); auto|]. cbn beta. intros r s' (ls & rfg & out & -> & Hst & Hlive & _).
    split_and!; [apply Hst|apply Hst|]. intros p [= <-]. split_and!; [done|exact (lookup_insert_eq _ _ _)|done|done].
Qed.
Next Obligation. intros registry plugin gws w Hin. by apply elem_of_nil in Hin. Qed.
End Extensions.

(** ** Examples *)
(** Two overlapping calls: the first one waits between its two steps. *)
Definition ex_overlapping : list (@queue_event string) := [Called 0 "old"; Drained 0; Called 1 "new"; Drained 1; Returned 0; Returned 1].
Lemma queue_no_lost_wakeup_witness : ∃ q t, queue_run ex_overlapping NewAsyncQueue = Some q ∧ q_item q = Some t.
Proof.
  destruct (queue_run ex_overlapping NewAsyncQueue) as [q|] eqn:E; [|revert E; vm_compute; discriminate]. exists q.
  destruct (queue_no_lost_wakeup [Called 0 "old"; Drained 0; Called 1 "new"; Drained 1; Returned 0] [] 1 q E) as (t & j & Ht & _).
  - apply not_elem_of_nil.
  - revert E. vm_compute. intros [= <-]. reflexivity.
  - exists t. split; [reflexivity|exact Ht].
Defined.
(** The later item is dropped, by the branch that "should never happen". *)
Example newest_item_dropped : q_item <$> queue_run ex_overlapping NewAsyncQueue = Some (Some "old").
Proof. vm_compute. reflexivity. Qed.

#[local] Instance Condition_eq_dec : EqDecision Condition.
Proof. solve_decision. Defined.
#[local] Instance RouteGroupKind_eq_dec : EqDecision RouteGroupKind.
Proof. solve_decision. Defined.
#[local] Instance ListenerStatus_eq_dec : EqDecision ListenerStatus.
Proof. solve_decision. Defined.
#[local] Instance GatewayStatus_eq_dec : EqDecision GatewayStatus.
Proof. solve_decision. Defined.
#[local] Instance RouteParentStatus_eq_dec : EqDecision RouteParentStatus.
Proof. solve_decision. Defined.
#[local] Instance ex_cmp : CmpEqual :=
  {| gateway_Equal a b := bool_decide (timeless_gateway a.1 = timeless_gateway b.1 ∧ a.2 = b.2);
     route_Equal a b := bool_decide (map timeless_parent a = map timeless_parent b) |}.
#[local] Instance ex_cmp_laws : CmpEqualLaws.
Proof. split; intros a b; cbn; by rewrite bool_decide_eq_true. Qed.
#[local] Existing Instances api_meta list_order no_plugins ex_listener_plugins GatewayTranslatorFacts.ex_x509.

(** Status plugins that record the Proxies they are given. *)
Definition ex_recorder (_ : PState) : list (list ProxyWithReports → M (list string) (option Err)) :=
  [λ rs w, Ok (None, w ++ map (λ r, nn_name (pm_nn (pwr_proxy r))) rs)].
#[local] Instance ex_extensions : K8sGatewayExtensions (list string) := k8sGatewayExtensions (S (size QueryFacts.ex_universe)) ex_recorder.
#[local] Instance ex_extensions_laws : K8sGatewayExtensionsLaws := k8sGatewayExtensions_laws QueryFacts.ex_universe ex_recorder.
Definition ex_listed (status : GatewayStatus) (addresses : list string) : ListedGateway :=
  {| lg_gateway := {| gw_meta := gw_meta QueryFacts.ex_gateway; gw_listeners := gw_listeners QueryFacts.ex_gateway; gw_status := status |}; lg_addresses := addresses |}.
Definition no_status : GatewayStatus := {| gs_conditions := []; gs_listeners := [] |}.
Definition ex_answers (g : ListedGateway) : Answers :=
  {| an_client := QueryFacts.ex_client; an_now := 5; an_gateways := inr [g]; an_routes := inr QueryFacts.ex_routes |}.
Definition ex_warm : Syncer (list string) := {| secretsWarmed := true; totalResyncs := 0; statusSyncer := NewStatusSyncerFactory; world := []; calls := [] |}.
Definition ex_resync (g : ListedGateway) : M (Syncer (list string)) unit := resyncProxies "controller" "gloo-system" (ex_answers g).

Lemma ex_translatable st addresses : translatable QueryFacts.ex_client (lg_gateway (ex_listed st addresses)).
Proof.
  split; [exact QueryFacts.ex_finite|]. split_and!.
  - apply NoDup_singleton.
  - intros ks Hks. assert (ks = [QueryFacts.ex_parent]) as ->; [|repeat constructor]. revert Hks. vm_compute. by intros [= <-].
  - intros l Hl t ref o Ht. apply list_elem_of_singleton in Hl as ->. discriminate Ht.
Qed.
Lemma ex_routes_distinct : NoDup (map hr_nn QueryFacts.ex_routes).
Proof. apply (bool_decide_unpack _). vm_compute. exact I. Qed.

Lemma resync_exact_witness : ∃ s' proxies, ex_resync (ex_listed no_status []) ex_warm = Ok (tt, s') ∧ totalResyncs s' = 1 ∧
  ReconcileProxies "gloo-system" proxies kubeGatewayProxyLabels ∈ calls s'.
Proof.
  destruct (resync_exact "controller" "gloo-system" (ex_answers (ex_listed no_status [])) ex_warm [ex_listed no_status []])
    as (proxies & gws & registry & h & s' & Hrun & _ & _ & Hn & _ & Hcalls & _).
  - reflexivity.
  - reflexivity.
  - apply NoDup_singleton.
  - exact ex_routes_distinct.
  - intros g ->%list_elem_of_singleton. apply ex_translatable.
  - exists s', proxies. split; [exact Hrun|]. split; [exact Hn|]. rewrite Hcalls, !elem_of_app. right. right. right. left.
Defined.
Lemma written_reports_delivered_witness : ∃ proxies s' cs, ex_resync (ex_listed no_status []) ex_warm = Ok (tt, s') ∧
  calls s' = cs ++ [ReconcileProxies "gloo-system" proxies kubeGatewayProxyLabels].
Proof.
  destruct (written_reports_delivered "controller" "gloo-system" (ex_answers (ex_listed no_status [])) ex_warm [ex_listed no_status []])
    as (proxies & gws & registry & h & s' & cs & Hrun & _ & Hcalls & _).
  - reflexivity.
  - reflexivity.
  - intros g ->%list_elem_of_singleton. apply ex_translatable.
  - reflexivity.
  - exists proxies, s', cs. split; [exact Hrun|exact Hcalls].
Defined.
(** The secrets become known, and the syncer translates. *)
Lemma ex_system_reachable : ∃ s, reachable "controller" "gloo-system" [] s ∧ totalResyncs (syncer s) = 1.
Proof.
  destruct (resync_total "controller" "gloo-system" (ex_answers (ex_listed no_status [])) ex_warm [ex_listed no_status []])
    as (proxies & gws & registry & h & w' & Hrun & _); [done|done|intros g ->%list_elem_of_singleton; apply ex_translatable|].
  exists {| genericEvent := None; secretEvent := None;
    syncer := resynced "controller" "gloo-system" (ex_answers (ex_listed no_status [])) ex_warm [ex_listed no_status []] proxies registry w' |}.
  split; [|reflexivity]. unfold reachable. eapply rtc_l; [apply (step_ReconcileSecrets _ _ (inr []))|].
  eapply rtc_once. eapply (step_secretEvent _ _ (ex_answers (ex_listed no_status []))). exact Hrun.
Qed.
Lemma reachable_sound_witness : ∃ (s : @System (list string)) ids, totalResyncs (syncer s) = 1 ∧ Forall2 (λ n ps, Forall (numbered n) ps) ids (omap written (calls (syncer s))) ∧ StronglySorted lt ids.
Proof.
  destruct ex_system_reachable as (s & Hr & Hn). destruct (reachable_sound "controller" "gloo-system" [] s Hr) as [_ (ids & H1 & H2 & _) _].
  exists s, ids. split; [exact Hn|]. split; [exact H1|exact H2].
Defined.

(** A run, computed: before the secrets nothing happens; then the Gateway and the routes
    get their statuses, and the Proxy is reconciled. *)
Definition call_name (c : ApiCall) : string * list string :=
  match c with
  | PatchGatewayStatus g _ => ("gateway", [nn_name g])
  | UpdateRouteStatus r _ => ("route", [nn_name r])
  | ReconcileProxies ns ps _ => ("proxies", map (λ p, px_name (sp_proxy p) +:+ " " +:+ default "" (sp_annotations p !! ProxySyncId)) ps)
  end.
Definition ex_run {A} (m : M (Syncer (list string)) A) : list (string * list string) * list string :=
  match m (NewProxySyncer []) with Ok (_, s) => (map call_name (calls s), world s) | _ => ([], []) end.
Definition ex_first : ListedGateway := ex_listed no_status [].
Example cold_then_warm :
  ex_run (on_genericEvent "controller" "gloo-system" (ex_answers ex_first)) = ([], []) ∧
  ex_run (on_secretEvent "controller" "gloo-system" (ex_answers ex_first)) =
    ([("gateway", ["gw"]); ("route", ["parent"]); ("route", ["left"]); ("route", ["right"]); ("route", ["leaf"]); ("proxies", ["infra-gw 1"])], []).
Proof. split; vm_compute; reflexivity. Qed.

(** The report of the Proxy reaches the plugins; a second resync makes the report of the
    first a stale one. *)
Definition ex_report (n : string) : ProxyWithReports :=
  {| pwr_proxy := {| pm_nn := {| nn_ns := "gloo-system"; nn_name := "infra-gw" |}; pm_labels := kubeGatewayProxyLabels; pm_annotations := {[ ProxySyncId := n ]} |};
     pwr_reports := "" |}.
Definition ex_report_run (resyncs : list unit) (n : string) : list string :=
  (ex_run (do! on_secretEvent "controller" "gloo-system" (ex_answers ex_first) ;;
           do! for_range resyncs (λ _, on_genericEvent "controller" "gloo-system" (ex_answers ex_first)) ;;
           on_status (HandleProxyReports GetStatusPlugins [ex_report n]))).2.
Example reports_of_last_sync : ex_report_run [] "1" = ["infra-gw"] ∧ ex_report_run [tt] "1" = [] ∧ ex_report_run [tt] "2" = ["infra-gw"].
Proof. split_and!; vm_compute; reflexivity. Qed.

(** Gateways of different namespaces may give Proxies of one name. *)
Definition ex_named (ns n : string) : Gateway :=
  {| gw_meta := {| om_name := n; om_namespace := ns; om_generation := 1; om_creation := 0; om_annotations := ∅ |}; gw_listeners := []; gw_status := no_status |}.
Example proxy_names_collide : px_name (GatewayTranslator.make_proxy (ex_named "a" "b-c") "gloo-system" []) = px_name (GatewayTranslator.make_proxy (ex_named "a-b" "c") "gloo-system" []).
Proof. reflexivity. Qed.
