(* ===== verification/DeployerMerge.v ===== *)
(** * The deployer's configuration, and the parameters of a Gateway over those of its class

    api/v1alpha1/gateway_parameters_types.go and kube_types.go: every field of these structs
    may be unset: pointers, slices and maps are options, since the merge distinguishes a nil
    slice or map from an empty one; the plain strings of Kubernetes' types are unset when
    empty. The structs of k8s.io/api carry the fields the merge reads or writes; those it
    only moves around are the types of [CoreV1].

    deployer/merge.go: each [deepMerge] of the source writes the fields of [*dst] in place
    and returns it, or returns one of its arguments; here each returns the pointed-to value.
    [dst] and its parts are not shared, so the result stands for both. Only the outermost
    function's caller drops the returned pointer: that one returns the final [*dst] as well. *)

From stdpp Require Import base gmap strings list fin_maps.
From Stdlib Require Import ZArith.
From S2P Require Import Prelude GoLib GwApi.

(** Types of k8s.io/api/core/v1 that are only copied. *)
Class CoreV1 := {
  Container : Type; EnvVar : Type; ContainerPort : Type; Toleration : Type; LocalObjectReference : Type;
  Sysctl : Type; NodeSelectorTerm : Type; PreferredSchedulingTerm : Type; PodAffinityTerm : Type;
  WeightedPodAffinityTerm : Type; Quantity : Type; ResourceClaim : Type
}.

Section Types.
Context `{!CoreV1}.

Record Image := {
  im_Registry : option string; im_Repository : option string; im_Tag : option string;
  im_Digest : option string; im_PullPolicy : option string }.

Record SELinuxOptions := { se_User : string; se_Role : string; se_Type : string; se_Level : string }.
Record WindowsSecurityContextOptions := {
  wo_GMSACredentialSpecName : option string; wo_GMSACredentialSpec : option string;
  wo_RunAsUserName : option string; wo_HostProcess : option bool }.
Record SeccompProfile := { sp_Type : string; sp_LocalhostProfile : option string }.
Record Capabilities := { cp_Add : option (list string); cp_Drop : option (list string) }.

Record SecurityContext := {
  sc_Capabilities : option Capabilities;
  sc_SELinuxOptions : option SELinuxOptions;
  sc_WindowsOptions : option WindowsSecurityContextOptions;
  sc_RunAsUser : option Z; sc_RunAsGroup : option Z; sc_RunAsNonRoot : option bool;
  sc_Privileged : option bool; sc_ReadOnlyRootFilesystem : option bool; sc_AllowPrivilegeEscalation : option bool;
  sc_ProcMount : option string;
  sc_SeccompProfile : option SeccompProfile }.

Record PodSecurityContext := {
  ps_SELinuxOptions : option SELinuxOptions;
  ps_WindowsOptions : option WindowsSecurityContextOptions;
  ps_RunAsUser : option Z; ps_RunAsGroup : option Z; ps_RunAsNonRoot : option bool;
  ps_SupplementalGroups : option (list Z);
  ps_FSGroup : option Z;
  ps_Sysctls : option (list Sysctl);
  ps_FSGroupChangePolicy : option string;
  ps_SeccompProfile : option SeccompProfile }.

Record ResourceRequirements := {
  rr_Limits : option (gmap string Quantity); rr_Requests : option (gmap string Quantity);
  rr_Claims : option (list ResourceClaim) }.

Record NodeSelector := { ns_NodeSelectorTerms : option (list NodeSelectorTerm) }.
Record NodeAffinity := { na_Required : option NodeSelector; na_Preferred : option (list PreferredSchedulingTerm) }.
Record PodAffinity := { pa_Required : option (list PodAffinityTerm); pa_Preferred : option (list WeightedPodAffinityTerm) }.
Record PodAntiAffinity := { paa_Required : option (list PodAffinityTerm); paa_Preferred : option (list WeightedPodAffinityTerm) }.
Record Affinity := {
  af_NodeAffinity : option NodeAffinity; af_PodAffinity : option PodAffinity; af_PodAntiAffinity : option PodAntiAffinity }.

Record Service := {
  sv_Type : option string; sv_ClusterIP : option string;
  sv_ExtraLabels : option (gmap string string); sv_ExtraAnnotations : option (gmap string string) }.

Record Pod := {
  pt_ExtraLabels : option (gmap string string); pt_ExtraAnnotations : option (gmap string string);
  pt_SecurityContext : option PodSecurityContext;
  pt_ImagePullSecrets : option (list LocalObjectReference);
  pt_NodeSelector : option (gmap string string);
  pt_Affinity : option Affinity;
  pt_Tolerations : option (list Toleration) }.

Record ProxyDeployment := { pd_Replicas : option Z }.

Record EnvoyBootstrap := { eb_LogLevel : option string; eb_ComponentLogLevels : option (gmap string string) }.
Record EnvoyContainer := {
  ec_Bootstrap : option EnvoyBootstrap; ec_Image : option Image;
  ec_SecurityContext : option SecurityContext; ec_Resources : option ResourceRequirements }.

Record SdsBootstrap := { sb_LogLevel : option string }.
Record SdsContainer := {
  sd_Image : option Image; sd_SecurityContext : option SecurityContext;
  sd_Resources : option ResourceRequirements; sd_Bootstrap : option SdsBootstrap }.

Record IstioContainer := {
  ic_Image : option Image; ic_SecurityContext : option SecurityContext; ic_Resources : option ResourceRequirements;
  ic_LogLevel : option string; ic_IstioDiscoveryAddress : option string;
  ic_IstioMetaMeshId : option string; ic_IstioMetaClusterId : option string }.
Record IstioIntegration := {
  is_IstioProxyContainer : option IstioContainer; is_CustomSidecars : option (list Container) }.

Record StatsConfig := {
  st_Enabled : option bool; st_RoutePrefixRewrite : option string;
  st_EnableStatsRoute : option bool; st_StatsRoutePrefixRewrite : option string }.

Record CustomLabel := {
  cl_Name : string; cl_MetadataNamespace : option string; cl_MetdataKey : string; cl_KeyDelimiter : option string }.
Record AiExtensionStats := { ais_CustomLabels : option (list CustomLabel) }.
Record AiExtension := {
  ai_Enabled : option bool; ai_Image : option Image; ai_SecurityContext : option SecurityContext;
  ai_Resources : option ResourceRequirements; ai_Env : option (list EnvVar);
  ai_Ports : option (list ContainerPort); ai_Stats : option AiExtensionStats }.

Record KubernetesProxyConfig := {
  kp_Deployment : option ProxyDeployment;
  kp_EnvoyContainer : option EnvoyContainer;
  kp_SdsContainer : option SdsContainer;
  kp_PodTemplate : option Pod;
  kp_Service : option Service;
  kp_Istio : option IstioIntegration;
  kp_Stats : option StatsConfig;
  kp_AiExtension : option AiExtension;
  kp_FloatingUserId : option bool }.

(** [SelfManagedGateway] has no field. *)
Record SelfManagedGateway := {}.
Record GatewayParametersSpec := { sp_Kube : option KubernetesProxyConfig; sp_SelfManaged : option SelfManagedGateway }.
Record GatewayParameters := { gp_meta : NamespacedName; gp_Spec : GatewayParametersSpec }.
End Types.

(** ** Leaves *)
Definition mergePointers {T} (dst src : option T) : option T :=
  match src with
  | None => dst
  | Some _ => src
  end.

Definition deepMergeMaps {V} (dst src : option (gmap string V)) : option (gmap string V) :=
  match src with
  | None => dst
  | Some s => match dst with
              | None => src
              | Some d => if bool_decide (s = ∅) then src else Some (s ∪ d)
              end
  end.

Definition deepMergeSlices {T} (dst src : option (list T)) : option (list T) :=
  match src with
  | None => dst
  | Some s => match dst, s with
              | None, _ | _, [] => src
              | Some d, _ => Some (d ++ s)
              end
  end.

Definition mergeComparable {T} `{EqDecision T} (zero dst src : T) : T :=
  if bool_decide (src = zero) then dst else src.

(** The two tests every struct merge starts with. *)
Definition merge_structs {T} (fields : T → T → T) (dst src : option T) : option T :=
  match src with
  | None => dst
  | Some s => match dst with
              | None => src
              | Some d => Some (fields d s)
              end
  end.

Section Merge.
Context `{!CoreV1}.

Definition deepMergeImage : option Image → option Image → option Image :=
  merge_structs (λ dst src,
    {| im_Registry := if src.(im_Registry) is Some _ then src.(im_Registry) else dst.(im_Registry);
       im_Repository := if src.(im_Repository) is Some _ then src.(im_Repository) else dst.(im_Repository);
       im_Tag := if src.(im_Tag) is Some _ then src.(im_Tag) else dst.(im_Tag);
       im_Digest := if src.(im_Digest) is Some _ then src.(im_Digest) else dst.(im_Digest);
       im_PullPolicy := if src.(im_PullPolicy) is Some _ then src.(im_PullPolicy) else dst.(im_PullPolicy) |}).

Definition deepMergeSELinuxOptions : option SELinuxOptions → option SELinuxOptions → option SELinuxOptions :=
  merge_structs (λ dst src,
    {| se_User := mergeComparable "" dst.(se_User) src.(se_User);
       se_Role := mergeComparable "" dst.(se_Role) src.(se_Role);
       se_Type := mergeComparable "" dst.(se_Type) src.(se_Type);
       se_Level := mergeComparable "" dst.(se_Level) src.(se_Level) |}).

(** The first line assigns the name from the spec. *)
Definition deepMergeWindowsSecurityContextOptions : option WindowsSecurityContextOptions →
    option WindowsSecurityContextOptions → option WindowsSecurityContextOptions :=
  merge_structs (λ dst src,
    {| wo_GMSACredentialSpecName := mergePointers dst.(wo_GMSACredentialSpec) src.(wo_GMSACredentialSpec);
       wo_GMSACredentialSpec := mergePointers dst.(wo_GMSACredentialSpec) src.(wo_GMSACredentialSpec);
       wo_RunAsUserName := mergePointers dst.(wo_RunAsUserName) src.(wo_RunAsUserName);
       wo_HostProcess := mergePointers dst.(wo_HostProcess) src.(wo_HostProcess) |}).

Definition deepMergeSeccompProfile : option SeccompProfile → option SeccompProfile → option SeccompProfile :=
  merge_structs (λ dst src,
    {| sp_Type := mergeComparable "" dst.(sp_Type) src.(sp_Type);
       sp_LocalhostProfile := mergePointers dst.(sp_LocalhostProfile) src.(sp_LocalhostProfile) |}).

Definition deepMergeCapabilities : option Capabilities → option Capabilities → option Capabilities :=
  merge_structs (λ dst src,
    {| cp_Add := deepMergeSlices dst.(cp_Add) src.(cp_Add);
       cp_Drop := deepMergeSlices dst.(cp_Drop) src.(cp_Drop) |}).

Definition deepMergeSecurityContext : option SecurityContext → option SecurityContext → option SecurityContext :=
  merge_structs (λ dst src,
    {| sc_Capabilities := deepMergeCapabilities dst.(sc_Capabilities) src.(sc_Capabilities);
       sc_SELinuxOptions := deepMergeSELinuxOptions dst.(sc_SELinuxOptions) src.(sc_SELinuxOptions);
       sc_WindowsOptions := deepMergeWindowsSecurityContextOptions dst.(sc_WindowsOptions) src.(sc_WindowsOptions);
       sc_RunAsUser := mergePointers dst.(sc_RunAsUser) src.(sc_RunAsUser);
       sc_RunAsGroup := mergePointers dst.(sc_RunAsGroup) src.(sc_RunAsGroup);
       sc_RunAsNonRoot := mergePointers dst.(sc_RunAsNonRoot) src.(sc_RunAsNonRoot);
       sc_Privileged := mergePointers dst.(sc_Privileged) src.(sc_Privileged);
       sc_ReadOnlyRootFilesystem := mergePointers dst.(sc_ReadOnlyRootFilesystem) src.(sc_ReadOnlyRootFilesystem);
       sc_AllowPrivilegeEscalation := mergePointers dst.(sc_AllowPrivilegeEscalation) src.(sc_AllowPrivilegeEscalation);
       sc_ProcMount := mergePointers dst.(sc_ProcMount) src.(sc_ProcMount);
       sc_SeccompProfile := deepMergeSeccompProfile dst.(sc_SeccompProfile) src.(sc_SeccompProfile) |}).

Definition deepMergePodSecurityContext : option PodSecurityContext → option PodSecurityContext → option PodSecurityContext :=
  merge_structs (λ dst src,
    {| ps_SELinuxOptions := deepMergeSELinuxOptions dst.(ps_SELinuxOptions) src.(ps_SELinuxOptions);
       ps_WindowsOptions := deepMergeWindowsSecurityContextOptions dst.(ps_WindowsOptions) src.(ps_WindowsOptions);
       ps_RunAsUser := mergePointers dst.(ps_RunAsUser) src.(ps_RunAsUser);
       ps_RunAsGroup := mergePointers dst.(ps_RunAsGroup) src.(ps_RunAsGroup);
       ps_RunAsNonRoot := mergePointers dst.(ps_RunAsNonRoot) src.(ps_RunAsNonRoot);
       ps_SupplementalGroups := deepMergeSlices dst.(ps_SupplementalGroups) src.(ps_SupplementalGroups);
       ps_FSGroup := mergePointers dst.(ps_FSGroup) src.(ps_FSGroup);
       ps_Sysctls := deepMergeSlices dst.(ps_Sysctls) src.(ps_Sysctls);
       ps_FSGroupChangePolicy := mergePointers dst.(ps_FSGroupChangePolicy) src.(ps_FSGroupChangePolicy);
       ps_SeccompProfile := deepMergeSeccompProfile dst.(ps_SeccompProfile) src.(ps_SeccompProfile) |}).

(** The claims of [src] are not merged. *)
Definition deepMergeResourceRequirements : option ResourceRequirements → option ResourceRequirements →
    option ResourceRequirements :=
  merge_structs (λ dst src,
    {| rr_Limits := deepMergeMaps dst.(rr_Limits) src.(rr_Limits);
       rr_Requests := deepMergeMaps dst.(rr_Requests) src.(rr_Requests);
       rr_Claims := dst.(rr_Claims) |}).

Definition deepMergeNodeSelector : option NodeSelector → option NodeSelector → option NodeSelector :=
  merge_structs (λ dst src,
    {| ns_NodeSelectorTerms := deepMergeSlices dst.(ns_NodeSelectorTerms) src.(ns_NodeSelectorTerms) |}).

Definition deepMergeNodeAffinity : option NodeAffinity → option NodeAffinity → option NodeAffinity :=
  merge_structs (λ dst src,
    {| na_Required := deepMergeNodeSelector dst.(na_Required) src.(na_Required);
       na_Preferred := deepMergeSlices dst.(na_Preferred) src.(na_Preferred) |}).

Definition deepMergePodAffinity : option PodAffinity → option PodAffinity → option PodAffinity :=
  merge_structs (λ dst src,
    {| pa_Required := deepMergeSlices dst.(pa_Required) src.(pa_Required);
       pa_Preferred := deepMergeSlices dst.(pa_Preferred) src.(pa_Preferred) |}).

Definition deepMergePodAntiAffinity : option PodAntiAffinity → option PodAntiAffinity → option PodAntiAffinity :=
  merge_structs (λ dst src,
    {| paa_Required := deepMergeSlices dst.(paa_Required) src.(paa_Required);
       paa_Preferred := deepMergeSlices dst.(paa_Preferred) src.(paa_Preferred) |}).

Definition deepMergeAffinity : option Affinity → option Affinity → option Affinity :=
  merge_structs (λ dst src,
    {| af_NodeAffinity := deepMergeNodeAffinity dst.(af_NodeAffinity) src.(af_NodeAffinity);
       af_PodAffinity := deepMergePodAffinity dst.(af_PodAffinity) src.(af_PodAffinity);
       af_PodAntiAffinity := deepMergePodAntiAffinity dst.(af_PodAntiAffinity) src.(af_PodAntiAffinity) |}).

Definition deepMergePodTemplate : option Pod → option Pod → option Pod :=
  merge_structs (λ dst src,
    {| pt_ExtraLabels := deepMergeMaps dst.(pt_ExtraLabels) src.(pt_ExtraLabels);
       pt_ExtraAnnotations := deepMergeMaps dst.(pt_ExtraAnnotations) src.(pt_ExtraAnnotations);
       pt_SecurityContext := deepMergePodSecurityContext dst.(pt_SecurityContext) src.(pt_SecurityContext);
       pt_ImagePullSecrets := deepMergeSlices dst.(pt_ImagePullSecrets) src.(pt_ImagePullSecrets);
       pt_NodeSelector := deepMergeMaps dst.(pt_NodeSelector) src.(pt_NodeSelector);
       pt_Affinity := deepMergeAffinity dst.(pt_Affinity) src.(pt_Affinity);
       pt_Tolerations := deepMergeSlices dst.(pt_Tolerations) src.(pt_Tolerations) |}).

Definition deepMergeService : option Service → option Service → option Service :=
  merge_structs (λ dst src,
    {| sv_Type := if src.(sv_Type) is Some _ then src.(sv_Type) else dst.(sv_Type);
       sv_ClusterIP := if src.(sv_ClusterIP) is Some _ then src.(sv_ClusterIP) else dst.(sv_ClusterIP);
       sv_ExtraLabels := deepMergeMaps dst.(sv_ExtraLabels) src.(sv_ExtraLabels);
       sv_ExtraAnnotations := deepMergeMaps dst.(sv_ExtraAnnotations) src.(sv_ExtraAnnotations) |}).

Definition deepMergeSdsBootstrap : option SdsBootstrap → option SdsBootstrap → option SdsBootstrap :=
  merge_structs (λ dst src,
    {| sb_LogLevel := if src.(sb_LogLevel) is Some _ then src.(sb_LogLevel) else dst.(sb_LogLevel) |}).

Definition deepMergeSdsContainer : option SdsContainer → option SdsContainer → option SdsContainer :=
  merge_structs (λ dst src,
    {| sd_Image := deepMergeImage dst.(sd_Image) src.(sd_Image);
       sd_SecurityContext := deepMergeSecurityContext dst.(sd_SecurityContext) src.(sd_SecurityContext);
       sd_Resources := deepMergeResourceRequirements dst.(sd_Resources) src.(sd_Resources);
       sd_Bootstrap := deepMergeSdsBootstrap dst.(sd_Bootstrap) src.(sd_Bootstrap) |}).

(** The last three fields keep the value of the class when it has one. *)
Definition deepMergeIstioContainer : option IstioContainer → option IstioContainer → option IstioContainer :=
  merge_structs (λ dst src,
    {| ic_Image := deepMergeImage dst.(ic_Image) src.(ic_Image);
       ic_SecurityContext := deepMergeSecurityContext dst.(ic_SecurityContext) src.(ic_SecurityContext);
       ic_Resources := deepMergeResourceRequirements dst.(ic_Resources) src.(ic_Resources);
       ic_LogLevel := if src.(ic_LogLevel) is Some _ then src.(ic_LogLevel) else dst.(ic_LogLevel);
       ic_IstioDiscoveryAddress :=
         if dst.(ic_IstioDiscoveryAddress) is Some _ then dst.(ic_IstioDiscoveryAddress) else src.(ic_IstioDiscoveryAddress);
       ic_IstioMetaMeshId := if dst.(ic_IstioMetaMeshId) is Some _ then dst.(ic_IstioMetaMeshId) else src.(ic_IstioMetaMeshId);
       ic_IstioMetaClusterId :=
         if dst.(ic_IstioMetaClusterId) is Some _ then dst.(ic_IstioMetaClusterId) else src.(ic_IstioMetaClusterId) |}).

Definition mergeCustomSidecars (dst src : option (list Container)) : option (list Container) :=
  match src with
  | None => dst
  | Some _ => src
  end.

Definition deepMergeIstioIntegration : option IstioIntegration → option IstioIntegration → option IstioIntegration :=
  merge_structs (λ dst src,
    {| is_IstioProxyContainer := deepMergeIstioContainer dst.(is_IstioProxyContainer) src.(is_IstioProxyContainer);
       is_CustomSidecars := mergeCustomSidecars dst.(is_CustomSidecars) src.(is_CustomSidecars) |}).

Definition deepMergeEnvoyBootstrap : option EnvoyBootstrap → option EnvoyBootstrap → option EnvoyBootstrap :=
  merge_structs (λ dst src,
    {| eb_LogLevel := if src.(eb_LogLevel) is Some _ then src.(eb_LogLevel) else dst.(eb_LogLevel);
       eb_ComponentLogLevels := deepMergeMaps dst.(eb_ComponentLogLevels) src.(eb_ComponentLogLevels) |}).

Definition deepMergeEnvoyContainer : option EnvoyContainer → option EnvoyContainer → option EnvoyContainer :=
  merge_structs (λ dst src,
    {| ec_Bootstrap := deepMergeEnvoyBootstrap dst.(ec_Bootstrap) src.(ec_Bootstrap);
       ec_Image := deepMergeImage dst.(ec_Image) src.(ec_Image);
       ec_SecurityContext := deepMergeSecurityContext dst.(ec_SecurityContext) src.(ec_SecurityContext);
       ec_Resources := deepMergeResourceRequirements dst.(ec_Resources) src.(ec_Resources) |}).

Definition deepMergeStatsConfig : option StatsConfig → option StatsConfig → option StatsConfig :=
  merge_structs (λ dst src,
    {| st_Enabled := mergePointers dst.(st_Enabled) src.(st_Enabled);
       st_RoutePrefixRewrite := mergeComparable None dst.(st_RoutePrefixRewrite) src.(st_RoutePrefixRewrite);
       st_EnableStatsRoute := mergeComparable None dst.(st_EnableStatsRoute) src.(st_EnableStatsRoute);
       st_StatsRoutePrefixRewrite := mergeComparable None dst.(st_StatsRoutePrefixRewrite) src.(st_StatsRoutePrefixRewrite) |}).

Definition deepMergeDeployment : option ProxyDeployment → option ProxyDeployment → option ProxyDeployment :=
  merge_structs (λ dst src, {| pd_Replicas := mergePointers dst.(pd_Replicas) src.(pd_Replicas) |}).

Definition deepMergeAIExtensionStats : option AiExtensionStats → option AiExtensionStats → option AiExtensionStats :=
  merge_structs (λ dst src, {| ais_CustomLabels := deepMergeSlices dst.(ais_CustomLabels) src.(ais_CustomLabels) |}).

Definition deepMergeAIExtension : option AiExtension → option AiExtension → option AiExtension :=
  merge_structs (λ dst src,
    {| ai_Enabled := mergePointers dst.(ai_Enabled) src.(ai_Enabled);
       ai_Image := deepMergeImage dst.(ai_Image) src.(ai_Image);
       ai_SecurityContext := deepMergeSecurityContext dst.(ai_SecurityContext) src.(ai_SecurityContext);
       ai_Resources := deepMergeResourceRequirements dst.(ai_Resources) src.(ai_Resources);
       ai_Env := deepMergeSlices dst.(ai_Env) src.(ai_Env);
       ai_Ports := deepMergeSlices dst.(ai_Ports) src.(ai_Ports);
       ai_Stats := deepMergeAIExtensionStats dst.(ai_Stats) src.(ai_Stats) |}).

(** The assignments to the fields of [dstKube]. *)
Definition merge_kube (dstKube srcKube : KubernetesProxyConfig) : KubernetesProxyConfig :=
  {| kp_Deployment := deepMergeDeployment dstKube.(kp_Deployment) srcKube.(kp_Deployment);
     kp_EnvoyContainer := deepMergeEnvoyContainer dstKube.(kp_EnvoyContainer) srcKube.(kp_EnvoyContainer);
     kp_SdsContainer := deepMergeSdsContainer dstKube.(kp_SdsContainer) srcKube.(kp_SdsContainer);
     kp_PodTemplate := deepMergePodTemplate dstKube.(kp_PodTemplate) srcKube.(kp_PodTemplate);
     kp_Service := deepMergeService dstKube.(kp_Service) srcKube.(kp_Service);
     kp_Istio := deepMergeIstioIntegration dstKube.(kp_Istio) srcKube.(kp_Istio);
     kp_Stats := deepMergeStatsConfig dstKube.(kp_Stats) srcKube.(kp_Stats);
     kp_AiExtension := deepMergeAIExtension dstKube.(kp_AiExtension) srcKube.(kp_AiExtension);
     kp_FloatingUserId := mergePointers dstKube.(kp_FloatingUserId) srcKube.(kp_FloatingUserId) |}.

(** The object [dst] points to afterwards, and the returned pointer. *)
Definition deepMergeGatewayParameters (dst src : option GatewayParameters) :
    res (option GatewayParameters * option GatewayParameters) :=
  match src with
  | None => Ok (dst, dst)
  | Some s =>
      match sp_SelfManaged (gp_Spec s) with
      | Some self =>
          match dst with
          | None => Panic "dst.Spec of a nil GatewayParameters"
          | Some d => let d := Some {| gp_meta := gp_meta d; gp_Spec := {| sp_Kube := None; sp_SelfManaged := Some self |} |} in
                      Ok (d, d)
          end
      | None =>
          match sp_Kube (gp_Spec s) with
          | None => Ok (dst, dst)
          | Some srcKube =>
              match dst with
              | None => Ok (dst, src)
              | Some d =>
                  match sp_Kube (gp_Spec d) with
                  | None => Ok (dst, src)
                  | Some dstKube =>
                      let d := Some {| gp_meta := gp_meta d;
                                       gp_Spec := {| sp_Kube := Some (merge_kube dstKube srcKube);
                                                     sp_SelfManaged := sp_SelfManaged (gp_Spec d) |} |} in
                      Ok (d, d)
                  end
              end
          end
      end
  end.
End Merge.
