(* ===== verification/Deployer.v ===== *)
(** * deployer/deployer.go, values.go, values_helpers.go: from a Gateway to the values of its chart

    The API server, the rendering of the Helm chart and the JSON encoding of the AI stats
    are parameters; everything between them is modelled. *)

From stdpp Require Import base gmap strings list fin_maps.
From Stdlib Require Import ZArith.
From S2P Require Import Prelude GoLib GwApi ListenerTranslator DeployerMerge.

(** ** Kubernetes objects and inputs *)
Record ParametersReference := { pr_Name : string; pr_Namespace : option string }.
Record GatewayClass := { gc_name : string; gc_namespace : string; gc_ParametersRef : option ParametersReference }.

(** The Gateway, with the metadata only the deployer reads. *)
Record DeployedGateway := {
  dg_gateway : Gateway; dg_GatewayClassName : string; dg_Kind : string; dg_APIVersion : string; dg_UID : string }.
Definition dg_name (gw : DeployedGateway) : string := om_name (gw_meta (dg_gateway gw)).
Definition dg_ns (gw : DeployedGateway) : string := om_namespace (gw_meta (dg_gateway gw)).

(** The inputs that reach the values: the socket of the xds server, the Istio setting. *)
Record Inputs := { in_XdsHost : string; in_XdsPort : Z; in_IntegrationEnabled : bool }.

Definition GatewayParametersAnnotationName : string := "gateway.gloo.solo.io/gateway-parameters-name".

(** ** Helm values *)
Record helmPort := { hp_Port : Z; hp_Protocol : string; hp_Name : string; hp_TargetPort : Z }.
Record helmImage := {
  hi_Registry : option string; hi_Repository : option string; hi_Tag : option string;
  hi_Digest : option string; hi_PullPolicy : option string }.
Record helmService := {
  hs_Type : option string; hs_ClusterIP : option string;
  hs_ExtraAnnotations : option (gmap string string); hs_ExtraLabels : option (gmap string string) }.
Record helmXds := { hx_Host : string; hx_Port : Z }.
Record helmIstio := { hI_Enabled : bool }.
Record sdsBootstrap := { hb_LogLevel : option string }.
Record helmStatsConfig := {
  ht_Enabled : option bool; ht_RoutePrefixRewrite : option string;
  ht_EnableStatsRoute : option bool; ht_StatsPrefixRewrite : option string }.

Section Values.
Context `{!CoreV1}.

Record helmSdsContainer := {
  hc_Image : helmImage; hc_Resources : option ResourceRequirements;
  hc_SecurityContext : option SecurityContext; hc_SdsBootstrap : sdsBootstrap }.
Record helmIstioContainer := {
  hn_Image : helmImage; hn_LogLevel : option string; hn_Resources : option ResourceRequirements;
  hn_SecurityContext : option SecurityContext; hn_IstioDiscoveryAddress : option string;
  hn_IstioMetaMeshId : option string; hn_IstioMetaClusterId : option string }.
Record helmAIExtension := {
  ha_Enabled : bool; ha_Image : helmImage; ha_SecurityContext : option SecurityContext;
  ha_Resources : option ResourceRequirements; ha_Env : option (list EnvVar);
  ha_Ports : option (list ContainerPort); ha_Stats : option string }.

(** The fields [getValues] sets: the name overrides and the autoscaling stay nil. *)
Record helmGateway := {
  hg_Name : string; hg_GatewayName : string; hg_GatewayNamespace : string;
  hg_Ports : list helmPort; hg_Xds : helmXds;
  hg_ReplicaCount : option Z; hg_Service : option helmService;
  hg_ExtraPodAnnotations : option (gmap string string); hg_ExtraPodLabels : option (gmap string string);
  hg_ImagePullSecrets : option (list LocalObjectReference); hg_PodSecurityContext : option PodSecurityContext;
  hg_NodeSelector : option (gmap string string); hg_Affinity : option Affinity; hg_Tolerations : option (list Toleration);
  hg_SdsContainer : option helmSdsContainer; hg_IstioContainer : option helmIstioContainer; hg_Istio : option helmIstio;
  hg_LogLevel : option string; hg_ComponentLogLevel : option string;
  hg_Image : option helmImage; hg_Resources : option ResourceRequirements; hg_SecurityContext : option SecurityContext;
  hg_Stats : option helmStatsConfig; hg_AIExtension : option helmAIExtension }.

(** ** values_helpers.go *)
Definition getPortsValues (gw : Gateway) : list helmPort :=
  foldl (λ gwPorts l,
    let listenerPort := wrap_u16 (l_port l) in
    if existsb (λ p, bool_decide (hp_Port p = listenerPort)) gwPorts then gwPorts
    else gwPorts ++ [{| hp_Port := listenerPort; hp_TargetPort := Ports.TranslatePort listenerPort;
                        hp_Name := l_name l; hp_Protocol := "TCP" |}]) [] (gw_listeners gw).

Definition getServiceValues (svcConfig : option Service) : helmService :=
  {| hs_Type := svcConfig ≫= sv_Type; hs_ClusterIP := svcConfig ≫= sv_ClusterIP;
     hs_ExtraAnnotations := svcConfig ≫= sv_ExtraAnnotations; hs_ExtraLabels := svcConfig ≫= sv_ExtraLabels |}.

Definition getImageValues (image : option Image) : helmImage :=
  match image with
  | None => {| hi_Registry := None; hi_Repository := None; hi_Tag := None; hi_Digest := None; hi_PullPolicy := None |}
  | Some i => {| hi_Registry := im_Registry i; hi_Repository := im_Repository i; hi_Tag := im_Tag i;
                 hi_Digest := im_Digest i; hi_PullPolicy := im_PullPolicy i |}
  end.

Definition getSdsContainerValues (sdsContainerConfig : option SdsContainer) : option helmSdsContainer :=
  match sdsContainerConfig with
  | None => None
  | Some c => Some {| hc_Image := getImageValues (sd_Image c); hc_Resources := sd_Resources c;
                      hc_SecurityContext := sd_SecurityContext c;
                      hc_SdsBootstrap := match sd_Bootstrap c with
                                         | Some bootstrap => {| hb_LogLevel := sb_LogLevel bootstrap |}
                                         | None => {| hb_LogLevel := None |}
                                         end |}
  end.

Definition getIstioContainerValues (config : option IstioContainer) : option helmIstioContainer :=
  match config with
  | None => None
  | Some c => Some {| hn_Image := getImageValues (ic_Image c); hn_LogLevel := ic_LogLevel c;
                      hn_Resources := ic_Resources c; hn_SecurityContext := ic_SecurityContext c;
                      hn_IstioDiscoveryAddress := ic_IstioDiscoveryAddress c;
                      hn_IstioMetaMeshId := ic_IstioMetaMeshId c; hn_IstioMetaClusterId := ic_IstioMetaClusterId c |}
  end.

(** Both branches of the source are the same. *)
Definition getIstioValues (integrationEnabled : bool) (istioConfig : option IstioIntegration) : helmIstio :=
  {| hI_Enabled := integrationEnabled |}.

Definition getStatsValues (statsConfig : option StatsConfig) : option helmStatsConfig :=
  match statsConfig with
  | None => None
  | Some s => Some {| ht_Enabled := st_Enabled s; ht_RoutePrefixRewrite := st_RoutePrefixRewrite s;
                      ht_EnableStatsRoute := st_EnableStatsRoute s; ht_StatsPrefixRewrite := st_StatsRoutePrefixRewrite s |}
  end.

Definition ComponentLogLevelEmptyError (key value : string) : Err :=
  ErrOther ("an empty key or value was provided in componentLogLevels: key=" +:+ key +:+ ", value=" +:+ value).

(** The loop over the map, in its iteration order. *)
Fixpoint component_parts (vals : list (string * string)) : Err + list string :=
  match vals with
  | [] => inr []
  | (k, v) :: vals' =>
      if bool_decide (k = "") || bool_decide (v = "") then inl (ComponentLogLevelEmptyError k v)
      else match component_parts vals' with
           | inl err => inl err
           | inr parts => inr ((k +:+ ":" +:+ v) :: parts)
           end
  end.

Definition ComponentLogLevelsToString `{!GoRange string} (vals : gmap string string) : Err + string :=
  if bool_decide (size vals = 0) then inr "" else
  match component_parts (go_range vals) with
  | inl err => inl err
  | inr parts => inr (join "," (sort_strings parts))
  end.

(** [json.Marshal] of the stats. *)
Context (json_Marshal : AiExtensionStats → Err + string).

Definition getAIExtensionValues (config : option AiExtension) : res (Err + option helmAIExtension) :=
  match config with
  | None => Ok (inr None)
  | Some c =>
      match (match ai_Stats c with
             | Some stats => match json_Marshal stats with inl err => inl err | inr byt => inr (Some byt) end
             | None => inr None
             end) with
      | inl err => Ok (inl err)
      | inr byt =>
          match ai_Enabled c with
          | None => Panic "*config.GetEnabled()"
          | Some enabled =>
              Ok (inr (Some {| ha_Enabled := enabled; ha_Image := getImageValues (ai_Image c);
                               ha_SecurityContext := ai_SecurityContext c; ha_Resources := ai_Resources c;
                               ha_Env := ai_Env c; ha_Ports := ai_Ports c; ha_Stats := byt |}))
          end
      end
  end.

(** ** deployer.go *)
Definition clear_user (s : SecurityContext) : SecurityContext :=
  {| sc_Capabilities := sc_Capabilities s; sc_SELinuxOptions := sc_SELinuxOptions s; sc_WindowsOptions := sc_WindowsOptions s;
     sc_RunAsUser := None; sc_RunAsGroup := sc_RunAsGroup s; sc_RunAsNonRoot := sc_RunAsNonRoot s;
     sc_Privileged := sc_Privileged s; sc_ReadOnlyRootFilesystem := sc_ReadOnlyRootFilesystem s;
     sc_AllowPrivilegeEscalation := sc_AllowPrivilegeEscalation s; sc_ProcMount := sc_ProcMount s;
     sc_SeccompProfile := sc_SeccompProfile s |}.

Definition clear_pod_user (s : PodSecurityContext) : PodSecurityContext :=
  {| ps_SELinuxOptions := ps_SELinuxOptions s; ps_WindowsOptions := ps_WindowsOptions s;
     ps_RunAsUser := None; ps_RunAsGroup := ps_RunAsGroup s; ps_RunAsNonRoot := ps_RunAsNonRoot s;
     ps_SupplementalGroups := ps_SupplementalGroups s; ps_FSGroup := ps_FSGroup s; ps_Sysctls := ps_Sysctls s;
     ps_FSGroupChangePolicy := ps_FSGroupChangePolicy s; ps_SeccompProfile := ps_SeccompProfile s |}.

(** The object [dstKube] after the call. *)
Definition applyFloatingUserId (dstKube : KubernetesProxyConfig) : KubernetesProxyConfig :=
  match kp_FloatingUserId dstKube with
  | Some true =>
      {| kp_Deployment := kp_Deployment dstKube;
         kp_EnvoyContainer := (λ c, {| ec_Bootstrap := ec_Bootstrap c; ec_Image := ec_Image c;
                                       ec_SecurityContext := clear_user <$> ec_SecurityContext c;
                                       ec_Resources := ec_Resources c |}) <$> kp_EnvoyContainer dstKube;
         kp_SdsContainer := (λ c, {| sd_Image := sd_Image c; sd_SecurityContext := clear_user <$> sd_SecurityContext c;
                                     sd_Resources := sd_Resources c; sd_Bootstrap := sd_Bootstrap c |}) <$>
                              kp_SdsContainer dstKube;
         kp_PodTemplate := (λ p, {| pt_ExtraLabels := pt_ExtraLabels p; pt_ExtraAnnotations := pt_ExtraAnnotations p;
                                    pt_SecurityContext := clear_pod_user <$> pt_SecurityContext p;
                                    pt_ImagePullSecrets := pt_ImagePullSecrets p; pt_NodeSelector := pt_NodeSelector p;
                                    pt_Affinity := pt_Affinity p; pt_Tolerations := pt_Tolerations p |}) <$>
                             kp_PodTemplate dstKube;
         kp_Service := kp_Service dstKube;
         kp_Istio := (λ i, {| is_IstioProxyContainer :=
                                (λ c, {| ic_Image := ic_Image c; ic_SecurityContext := clear_user <$> ic_SecurityContext c;
                                         ic_Resources := ic_Resources c; ic_LogLevel := ic_LogLevel c;
                                         ic_IstioDiscoveryAddress := ic_IstioDiscoveryAddress c;
                                         ic_IstioMetaMeshId := ic_IstioMetaMeshId c;
                                         ic_IstioMetaClusterId := ic_IstioMetaClusterId c |}) <$> is_IstioProxyContainer i;
                              is_CustomSidecars := is_CustomSidecars i |}) <$> kp_Istio dstKube;
         kp_Stats := kp_Stats dstKube;
         kp_AiExtension := (λ a, {| ai_Enabled := ai_Enabled a; ai_Image := ai_Image a;
                                    ai_SecurityContext := clear_user <$> ai_SecurityContext a;
                                    ai_Resources := ai_Resources a; ai_Env := ai_Env a; ai_Ports := ai_Ports a;
                                    ai_Stats := ai_Stats a |}) <$> kp_AiExtension dstKube;
         kp_FloatingUserId := kp_FloatingUserId dstKube |}
  | _ => dstKube
  end.

Context `{!GoRange string}.

Definition default_values (d : Inputs) (gw : DeployedGateway) : helmGateway :=
  {| hg_Name := dg_name gw; hg_GatewayName := dg_name gw; hg_GatewayNamespace := dg_ns gw;
     hg_Ports := getPortsValues (dg_gateway gw);
     hg_Xds := {| hx_Host := in_XdsHost d; hx_Port := in_XdsPort d |};
     hg_ReplicaCount := None; hg_Service := None; hg_ExtraPodAnnotations := None; hg_ExtraPodLabels := None;
     hg_ImagePullSecrets := None; hg_PodSecurityContext := None; hg_NodeSelector := None; hg_Affinity := None;
     hg_Tolerations := None; hg_SdsContainer := None; hg_IstioContainer := None; hg_Istio := None; hg_LogLevel := None;
     hg_ComponentLogLevel := None; hg_Image := None; hg_Resources := None; hg_SecurityContext := None;
     hg_Stats := None; hg_AIExtension := None |}.

Definition getValues (d : Inputs) (gw : DeployedGateway) (gwParam : option GatewayParameters) : res (Err + helmGateway) :=
  let vals := default_values d gw in
  match gwParam with
  | None => Ok (inr vals)
  | Some p =>
      let kubeProxyConfig := applyFloatingUserId <$> sp_Kube (gp_Spec p) in
      let deployConfig := kubeProxyConfig ≫= kp_Deployment in
      let podConfig := kubeProxyConfig ≫= kp_PodTemplate in
      let envoyContainerConfig := kubeProxyConfig ≫= kp_EnvoyContainer in
      let svcConfig := kubeProxyConfig ≫= kp_Service in
      let istioConfig := kubeProxyConfig ≫= kp_Istio in
      let compLogLevels := (envoyContainerConfig ≫= ec_Bootstrap) ≫= eb_ComponentLogLevels in
      match ComponentLogLevelsToString (default ∅ compLogLevels) with
      | inl err => Ok (inl err)
      | inr compLogLevelStr =>
          res_bind (getAIExtensionValues (kubeProxyConfig ≫= kp_AiExtension)) (λ ai,
          match ai with
          | inl err => Ok (inl err)
          | inr aiExtension =>
              Ok (inr
                {| hg_Name := hg_Name vals; hg_GatewayName := hg_GatewayName vals;
                   hg_GatewayNamespace := hg_GatewayNamespace vals; hg_Ports := hg_Ports vals; hg_Xds := hg_Xds vals;
                   hg_ReplicaCount := deployConfig ≫= pd_Replicas;
                   hg_Service := Some (getServiceValues svcConfig);
                   hg_ExtraPodAnnotations := podConfig ≫= pt_ExtraAnnotations;
                   hg_ExtraPodLabels := podConfig ≫= pt_ExtraLabels;
                   hg_ImagePullSecrets := podConfig ≫= pt_ImagePullSecrets;
                   hg_PodSecurityContext := podConfig ≫= pt_SecurityContext;
                   hg_NodeSelector := podConfig ≫= pt_NodeSelector;
                   hg_Affinity := podConfig ≫= pt_Affinity;
                   hg_Tolerations := podConfig ≫= pt_Tolerations;
                   hg_SdsContainer := getSdsContainerValues (kubeProxyConfig ≫= kp_SdsContainer);
                   hg_IstioContainer := getIstioContainerValues (istioConfig ≫= is_IstioProxyContainer);
                   hg_Istio := Some (getIstioValues (in_IntegrationEnabled d) istioConfig);
                   hg_LogLevel := (envoyContainerConfig ≫= ec_Bootstrap) ≫= eb_LogLevel;
                   hg_ComponentLogLevel := Some compLogLevelStr;
                   hg_Image := Some (getImageValues (envoyContainerConfig ≫= ec_Image));
                   hg_Resources := envoyContainerConfig ≫= ec_Resources;
                   hg_SecurityContext := envoyContainerConfig ≫= ec_SecurityContext;
                   hg_Stats := getStatsValues (kubeProxyConfig ≫= kp_Stats);
                   hg_AIExtension := aiExtension |})
          end)
      end
  end.

(** [d.cli.Get] of the two kinds. *)
Class DeployerClient := {
  cli_get_parameters : NamespacedName → Err + GatewayParameters;
  cli_get_class : string → Err + GatewayClass
}.
Context `{!DeployerClient}.

Definition getGatewayParametersError (err : Err) (gwpNamespace gwpName gwNamespace gwName resourceType : string) : Err :=
  ErrWrap ("(" +:+ gwpNamespace +:+ "." +:+ gwpName +:+ ") for " +:+ resourceType +:+ " (" +:+ gwNamespace +:+ "." +:+
           gwName +:+ "): ") (ErrWrap "could not retrieve GatewayParameters: " err).

Definition getGatewayClassFromGateway (gw : DeployedGateway) : Err + GatewayClass :=
  if bool_decide (dg_GatewayClassName gw = "") then inl (ErrOther "GatewayClassName must not be empty") else
  match cli_get_class (dg_GatewayClassName gw) with
  | inl _ => inl (ErrOther ("failed to get GatewayClass for Gateway " +:+ dg_name gw +:+ "/" +:+ dg_ns gw))
  | inr gwc => inr gwc
  end.

Definition getGatewayParametersForGatewayClass (gwc : GatewayClass) : Err + GatewayParameters :=
  match gc_ParametersRef gwc with
  | None => inl (ErrOther ("no default GatewayParameters associated with GatewayClass " +:+ gc_namespace gwc +:+ "/" +:+
                           gc_name gwc))
  | Some paramRef =>
      let gwpName := pr_Name paramRef in
      if bool_decide (gwpName = "") then inl (ErrOther "no GatewayParameters found for GatewayClass") else
      let gwpNamespace := default "" (pr_Namespace paramRef) in
      match cli_get_parameters {| nn_ns := gwpNamespace; nn_name := gwpName |} with
      | inl err => inl (getGatewayParametersError err gwpNamespace gwpName (gc_namespace gwc) (gc_name gwc) "GatewayClass")
      | inr gwp => inr gwp
      end
  end.

Definition getDefaultGatewayParameters (gw : DeployedGateway) : Err + GatewayParameters :=
  match getGatewayClassFromGateway gw with
  | inl err => inl err
  | inr gwc => getGatewayParametersForGatewayClass gwc
  end.

(** The pointer returned by the merge is dropped: the result is [*mergedGwp] after it. *)
Definition getGatewayParametersForGateway (gw : DeployedGateway) : res (Err + option GatewayParameters) :=
  let gwpName := default "" (om_annotations (gw_meta (dg_gateway gw)) !! GatewayParametersAnnotationName) in
  if bool_decide (gwpName = "") then
    Ok (match getDefaultGatewayParameters gw with inl err => inl err | inr p => inr (Some p) end)
  else
    let gwpNamespace := dg_ns gw in
    match cli_get_parameters {| nn_ns := gwpNamespace; nn_name := gwpName |} with
    | inl err => Ok (inl (getGatewayParametersError err gwpNamespace gwpName (dg_ns gw) (dg_name gw) "Gateway"))
    | inr gwp =>
        match getDefaultGatewayParameters gw with
        | inl err => Ok (inl err)
        | inr defaultGwp =>
            res_bind (deepMergeGatewayParameters (Some defaultGwp) (Some gwp)) (λ '(mergedGwp, _), Ok (inr mergedGwp))
        end
    end.

(** ** Objects *)
Record OwnerReference := {
  or_Kind : string; or_APIVersion : string; or_Controller : bool; or_UID : string; or_Name : string }.
Record Object := { ob_kind : string; ob_name : string; ob_namespace : string; ob_owners : list OwnerReference; ob_content : string }.

Definition set_namespace (ns : string) (o : Object) : Object :=
  {| ob_kind := ob_kind o; ob_name := ob_name o; ob_namespace := ns; ob_owners := ob_owners o; ob_content := ob_content o |}.
Definition set_owners (l : list OwnerReference) (o : Object) : Object :=
  {| ob_kind := ob_kind o; ob_name := ob_name o; ob_namespace := ob_namespace o; ob_owners := l; ob_content := ob_content o |}.

(** [jsonConvert] and [d.Render]: the chart rendered with the values. *)
Context (Render : string → string → helmGateway → Err + list Object).

Definition renderChartToObjects (gw : DeployedGateway) (vals : helmGateway) : Err + list Object :=
  match Render (dg_name gw) (dg_ns gw) vals with
  | inl err => inl err
  | inr objs => inr (set_namespace (dg_ns gw) <$> objs)
  end.

Definition GetObjsToDeploy (d : Inputs) (gw : DeployedGateway) : res (Err + list Object) :=
  res_bind (getGatewayParametersForGateway gw) (λ r,
  match r with
  | inl err => Ok (inl err)
  | inr gwParam =>
      match gwParam ≫= (λ p, sp_SelfManaged (gp_Spec p)) with
      | Some _ => Ok (inr [])
      | None =>
          res_bind (getValues d gw gwParam) (λ v,
          match v with
          | inl err => Ok (inl (ErrWrap ("failed to get values to render objects for gateway " +:+ dg_ns gw +:+ "." +:+
                                         dg_name gw +:+ ": ") err))
          | inr vals =>
              match renderChartToObjects gw vals with
              | inl err => Ok (inl (ErrWrap ("failed to get objects to deploy for gateway " +:+ dg_ns gw +:+ "." +:+
                                             dg_name gw +:+ ": ") err))
              | inr objs =>
                  Ok (inr (set_owners [{| or_Kind := dg_Kind gw; or_APIVersion := dg_APIVersion gw; or_Controller := true;
                                          or_UID := dg_UID gw; or_Name := dg_name gw |}] <$> objs))
              end
          end)
      end
  end).
End Values.
