(* ===== verification/DeployerFacts.v ===== *)
(** * The deployer: what the merge, the values and the objects are

    A setting is a path to a leaf of the configuration with the rule that merges it; the
    merge is correct when every setting obeys its rule, independently of the others. *)

From stdpp Require Import base gmap strings list fin_maps sorting.
From Stdlib Require Import ZArith Lia.
From S2P Require Import Prelude GoLib GwApi ListenerTranslator ListenerTranslatorFacts DeployerMerge Deployer.
Import ListenerTranslator.

(** ** The rules of the leaves: [d] is the value of the class, [s] the one of the Gateway *)
Definition Rule (V : Type) : Type := option V → option V → option V.

(** The Gateway's value wins. *)
Definition override {V} : Rule V := λ d s, if s is Some _ then s else d.
(** The class's value wins. *)
Definition keep {V} : Rule V := λ d s, if d is Some _ then d else s.
(** Entries of both, the Gateway's on a common key; an empty map of the Gateway clears. *)
Definition overlay {V} : Rule (gmap string V) := λ d s,
  match s with
  | Some m => Some (if decide (m = ∅) then ∅ else m ∪ default ∅ d)
  | None => d
  end.
(** Both lists, the class's first; an empty list of the Gateway clears. *)
Definition extend {V} : Rule (list V) := λ d s,
  match s with
  | Some [] => Some []
  | Some l => Some (default [] d ++ l)
  | None => d
  end.

Definition nonempty (s : string) : option string := if bool_decide (s = "") then None else Some s.

Section Settings.
Context `{!CoreV1}.

(** [part sel merge]: [sel] selects a nested struct, [merge] merges structs of its type. *)
Inductive part : ∀ {S T : Type}, (S → option T) → (option S → option S → option S) →
    (option T → option T → option T) → Prop :=
| part_capabilities : part sc_Capabilities deepMergeSecurityContext deepMergeCapabilities
| part_selinux : part sc_SELinuxOptions deepMergeSecurityContext deepMergeSELinuxOptions
| part_windows : part sc_WindowsOptions deepMergeSecurityContext deepMergeWindowsSecurityContextOptions
| part_seccomp : part sc_SeccompProfile deepMergeSecurityContext deepMergeSeccompProfile
| part_pod_selinux : part ps_SELinuxOptions deepMergePodSecurityContext deepMergeSELinuxOptions
| part_pod_windows : part ps_WindowsOptions deepMergePodSecurityContext deepMergeWindowsSecurityContextOptions
| part_pod_seccomp : part ps_SeccompProfile deepMergePodSecurityContext deepMergeSeccompProfile
| part_node_required : part na_Required deepMergeNodeAffinity deepMergeNodeSelector
| part_node_affinity : part af_NodeAffinity deepMergeAffinity deepMergeNodeAffinity
| part_pod_affinity : part af_PodAffinity deepMergeAffinity deepMergePodAffinity
| part_pod_anti_affinity : part af_PodAntiAffinity deepMergeAffinity deepMergePodAntiAffinity
| part_pod_context : part pt_SecurityContext deepMergePodTemplate deepMergePodSecurityContext
| part_affinity : part pt_Affinity deepMergePodTemplate deepMergeAffinity
| part_sds_image : part sd_Image deepMergeSdsContainer deepMergeImage
| part_sds_context : part sd_SecurityContext deepMergeSdsContainer deepMergeSecurityContext
| part_sds_resources : part sd_Resources deepMergeSdsContainer deepMergeResourceRequirements
| part_sds_bootstrap : part sd_Bootstrap deepMergeSdsContainer deepMergeSdsBootstrap
| part_istio_image : part ic_Image deepMergeIstioContainer deepMergeImage
| part_istio_context : part ic_SecurityContext deepMergeIstioContainer deepMergeSecurityContext
| part_istio_resources : part ic_Resources deepMergeIstioContainer deepMergeResourceRequirements
| part_istio_container : part is_IstioProxyContainer deepMergeIstioIntegration deepMergeIstioContainer
| part_envoy_bootstrap : part ec_Bootstrap deepMergeEnvoyContainer deepMergeEnvoyBootstrap
| part_envoy_image : part ec_Image deepMergeEnvoyContainer deepMergeImage
| part_envoy_context : part ec_SecurityContext deepMergeEnvoyContainer deepMergeSecurityContext
| part_envoy_resources : part ec_Resources deepMergeEnvoyContainer deepMergeResourceRequirements
| part_ai_image : part ai_Image deepMergeAIExtension deepMergeImage
| part_ai_context : part ai_SecurityContext deepMergeAIExtension deepMergeSecurityContext
| part_ai_resources : part ai_Resources deepMergeAIExtension deepMergeResourceRequirements
| part_ai_stats : part ai_Stats deepMergeAIExtension deepMergeAIExtensionStats
| part_deployment : part kp_Deployment (merge_structs merge_kube) deepMergeDeployment
| part_envoy : part kp_EnvoyContainer (merge_structs merge_kube) deepMergeEnvoyContainer
| part_sds : part kp_SdsContainer (merge_structs merge_kube) deepMergeSdsContainer
| part_pod : part kp_PodTemplate (merge_structs merge_kube) deepMergePodTemplate
| part_service : part kp_Service (merge_structs merge_kube) deepMergeService
| part_istio : part kp_Istio (merge_structs merge_kube) deepMergeIstioIntegration
| part_stats : part kp_Stats (merge_structs merge_kube) deepMergeStatsConfig
| part_ai : part kp_AiExtension (merge_structs merge_kube) deepMergeAIExtension.

(** [setting get merge rule]: a leaf of the structs that [merge] merges. *)
Inductive setting : ∀ {S V : Type}, (S → option V) → (option S → option S → option S) → Rule V → Prop :=
| into {S T V} (sel : S → option T) mS mT (get : T → option V) rule :
    part sel mS mT → setting get mT rule → setting (λ s, sel s ≫= get) mS rule
| registry : setting im_Registry deepMergeImage override
| repository : setting im_Repository deepMergeImage override
| tag : setting im_Tag deepMergeImage override
| digest : setting im_Digest deepMergeImage override
| pull_policy : setting im_PullPolicy deepMergeImage override
| selinux_user : setting (nonempty ∘ se_User) deepMergeSELinuxOptions override
| selinux_role : setting (nonempty ∘ se_Role) deepMergeSELinuxOptions override
| selinux_type : setting (nonempty ∘ se_Type) deepMergeSELinuxOptions override
| selinux_level : setting (nonempty ∘ se_Level) deepMergeSELinuxOptions override
| gmsa_spec : setting wo_GMSACredentialSpec deepMergeWindowsSecurityContextOptions override
| windows_user : setting wo_RunAsUserName deepMergeWindowsSecurityContextOptions override
| host_process : setting wo_HostProcess deepMergeWindowsSecurityContextOptions override
| seccomp_type : setting (nonempty ∘ sp_Type) deepMergeSeccompProfile override
| seccomp_profile : setting sp_LocalhostProfile deepMergeSeccompProfile override
| cap_add : setting cp_Add deepMergeCapabilities extend
| cap_drop : setting cp_Drop deepMergeCapabilities extend
| run_as_user : setting sc_RunAsUser deepMergeSecurityContext override
| run_as_group : setting sc_RunAsGroup deepMergeSecurityContext override
| run_as_non_root : setting sc_RunAsNonRoot deepMergeSecurityContext override
| privileged : setting sc_Privileged deepMergeSecurityContext override
| read_only_root : setting sc_ReadOnlyRootFilesystem deepMergeSecurityContext override
| escalation : setting sc_AllowPrivilegeEscalation deepMergeSecurityContext override
| proc_mount : setting sc_ProcMount deepMergeSecurityContext override
| pod_run_as_user : setting ps_RunAsUser deepMergePodSecurityContext override
| pod_run_as_group : setting ps_RunAsGroup deepMergePodSecurityContext override
| pod_run_as_non_root : setting ps_RunAsNonRoot deepMergePodSecurityContext override
| supplemental_groups : setting ps_SupplementalGroups deepMergePodSecurityContext extend
| fs_group : setting ps_FSGroup deepMergePodSecurityContext override
| sysctls : setting ps_Sysctls deepMergePodSecurityContext extend
| fs_group_policy : setting ps_FSGroupChangePolicy deepMergePodSecurityContext override
| limits : setting rr_Limits deepMergeResourceRequirements overlay
| requests : setting rr_Requests deepMergeResourceRequirements overlay
| node_terms : setting ns_NodeSelectorTerms deepMergeNodeSelector extend
| node_preferred : setting na_Preferred deepMergeNodeAffinity extend
| affinity_required : setting pa_Required deepMergePodAffinity extend
| affinity_preferred : setting pa_Preferred deepMergePodAffinity extend
| anti_required : setting paa_Required deepMergePodAntiAffinity extend
| anti_preferred : setting paa_Preferred deepMergePodAntiAffinity extend
| pod_labels : setting pt_ExtraLabels deepMergePodTemplate overlay
| pod_annotations : setting pt_ExtraAnnotations deepMergePodTemplate overlay
| pull_secrets : setting pt_ImagePullSecrets deepMergePodTemplate extend
| node_selector : setting pt_NodeSelector deepMergePodTemplate overlay
| tolerations : setting pt_Tolerations deepMergePodTemplate extend
| service_type : setting sv_Type deepMergeService override
| cluster_ip : setting sv_ClusterIP deepMergeService override
| service_labels : setting sv_ExtraLabels deepMergeService overlay
| service_annotations : setting sv_ExtraAnnotations deepMergeService overlay
| sds_log_level : setting sb_LogLevel deepMergeSdsBootstrap override
| istio_log_level : setting ic_LogLevel deepMergeIstioContainer override
| discovery_address : setting ic_IstioDiscoveryAddress deepMergeIstioContainer keep
| mesh_id : setting ic_IstioMetaMeshId deepMergeIstioContainer keep
| cluster_id : setting ic_IstioMetaClusterId deepMergeIstioContainer keep
| sidecars : setting is_CustomSidecars deepMergeIstioIntegration override
| envoy_log_level : setting eb_LogLevel deepMergeEnvoyBootstrap override
| component_log_levels : setting eb_ComponentLogLevels deepMergeEnvoyBootstrap overlay
| stats_enabled : setting st_Enabled deepMergeStatsConfig override
| stats_rewrite : setting st_RoutePrefixRewrite deepMergeStatsConfig override
| stats_route : setting st_EnableStatsRoute deepMergeStatsConfig override
| stats_route_rewrite : setting st_StatsRoutePrefixRewrite deepMergeStatsConfig override
| replicas : setting pd_Replicas deepMergeDeployment override
| custom_labels : setting ais_CustomLabels deepMergeAIExtensionStats extend
| ai_enabled : setting ai_Enabled deepMergeAIExtension override
| ai_env : setting ai_Env deepMergeAIExtension extend
| ai_ports : setting ai_Ports deepMergeAIExtension extend
| floating_user : setting kp_FloatingUserId (merge_structs merge_kube) override.

(** A setting of a possibly nil struct. *)
Definition at_ptr {S V} (get : S → option V) (p : option S) : option V := p ≫= get.

Lemma override_None_r {V} (d : option V) : override d None = d.
Proof. done. Qed.
Lemma rule_none_r {S V} (get : S → option V) m rule d : setting get m rule → rule d None = d.
Proof. induction 1; try done; by destruct d. Qed.
Lemma overlay_None {V} (s : option (gmap string V)) : overlay None s = s.
Proof. destruct s as [m|]; [|done]. simpl. destruct (decide (m = ∅)) as [->|]; [done|by simpl; rewrite map_union_empty]. Qed.
Lemma extend_None {V} (s : option (list V)) : extend None s = s.
Proof. by destruct s as [[]|]. Qed.
Lemma override_None {V} (s : option V) : override None s = s.
Proof. by destruct s. Qed.
Lemma rule_none_l {S V} (get : S → option V) m rule s : setting get m rule → rule None s = s.
Proof. induction 1; auto using overlay_None, extend_None, override_None. Qed.

Lemma part_merge {S T} (sel : S → option T) mS mT : part sel mS mT →
  ∃ f, mS = merge_structs f ∧ ∀ d s, sel (f d s) = mT (sel d) (sel s).
Proof. destruct 1; eexists; (split; [reflexivity|reflexivity]). Qed.

Lemma nonempty_merge d s : nonempty (mergeComparable "" d s) = override (nonempty d) (nonempty s).
Proof.
  unfold nonempty, mergeComparable. destruct (decide (s = "")) as [->|Hs]; [done|].
  by rewrite !(bool_decide_eq_false_2 (s = "")).
Qed.
Lemma maps_overlay {V} (d s : option (gmap string V)) : deepMergeMaps d s = overlay d s.
Proof.
  destruct s as [s|]; [|done]. destruct d as [d|]; [|by rewrite overlay_None]. simpl.
  destruct (decide (s = ∅)) as [->|Hs]; [done|]. by rewrite (bool_decide_eq_false_2 (s = ∅)).
Qed.
Lemma slices_extend {V} (d s : option (list V)) : deepMergeSlices d s = extend d s.
Proof. by destruct d as [d|], s as [[|x s]|]. Qed.
Lemma pointers_override {V} (d s : option V) : mergePointers d s = override d s.
Proof. by destruct s. Qed.
Lemma comparable_override {V} `{EqDecision V} (d s : option V) : mergeComparable None d s = override d s.
Proof. unfold mergeComparable. by destruct s. Qed.

Lemma leaf_merge {S V} (get : S → option V) m rule : setting get m rule →
  ∃ f, m = merge_structs f ∧ ∀ d s, get (f d s) = rule (get d) (get s).
Proof.
  induction 1.
  { match goal with
    | Hp : part ?sel _ _, IH : ∃ f, _ = merge_structs f ∧ _ |- _ =>
        destruct IH as (g & -> & IH), (part_merge _ _ _ Hp) as (f & -> & Hf); exists f; (split; [done|]);
        intros d s; rewrite Hf; destruct (sel d), (sel s); simpl; [apply IH| | |]; symmetry;
        eauto using rule_none_l, rule_none_r
    end. }
  all: eexists; (split; [reflexivity|]); intros d s; simpl;
    rewrite ?nonempty_merge, ?maps_overlay, ?slices_extend, ?pointers_override, ?comparable_override; done.
Qed.

(** [setting]s of a whole configuration. *)
Definition kube_setting {V} (get : KubernetesProxyConfig → option V) (rule : Rule V) : Prop :=
  setting get (merge_structs merge_kube) rule.

Lemma merge_kube_setting {V} (get : KubernetesProxyConfig → option V) rule d s :
  kube_setting get rule → get (merge_kube d s) = rule (get d) (get s).
Proof.
  intros Hset. destruct (leaf_merge _ _ _ Hset) as (f & Hf & Hm). rewrite <-Hm. f_equal.
  assert (merge_structs merge_kube (Some d) (Some s) = merge_structs f (Some d) (Some s)) as E by by rewrite Hf.
  by injection E.
Qed.

(** ** The two leaves that do not follow a rule of their own

    [struct_path sel merge]: [sel] selects a nested struct of a whole configuration, by parts. *)
Inductive struct_path : ∀ {T : Type}, (KubernetesProxyConfig → option T) → (option T → option T → option T) → Prop :=
| path_root : struct_path Some (merge_structs merge_kube)
| path_part {S T} (sel : KubernetesProxyConfig → option S) (g : S → option T) mS mT :
    struct_path sel mS → part g mS mT → struct_path (λ k, sel k ≫= g) mT.
Lemma part_none {S T} (sel : S → option T) mS mT : part sel mS mT → (∀ x, mT None x = x) ∧ ∀ x, mT x None = x.
Proof. by destruct 1; split; intros []. Qed.
Lemma path_merge {T} (sel : KubernetesProxyConfig → option T) m : struct_path sel m → ∀ d s, sel (merge_kube d s) = m (sel d) (sel s).
Proof.
  induction 1 as [|S T sel g mS mT _ IH Hpart]; intros d s; [done|]. rewrite IH. destruct (part_merge _ _ _ Hpart) as (f & -> & Hf), (part_none _ _ _ Hpart) as [Hl Hr].
  destruct (sel d), (sel s); cbn; [apply Hf|by rewrite Hr|by rewrite Hl|by rewrite Hl].
Qed.
(** The claims of a Gateway's resources are lost where the class has resources at all. *)
Definition claims_rule (d s r : option ResourceRequirements) : Prop :=
  (r ≫= rr_Claims) = match d with Some d => rr_Claims d | None => s ≫= rr_Claims end.
(** The name of the credential spec is overwritten with the merged spec where both the class
    and the Gateway have Windows options. *)
Definition gmsa_name_rule (d s r : option WindowsSecurityContextOptions) : Prop :=
  (r ≫= wo_GMSACredentialSpecName) =
  match d, s with
  | Some d, Some s => override (wo_GMSACredentialSpec d) (wo_GMSACredentialSpec s)
  | Some w, None | None, Some w => wo_GMSACredentialSpecName w
  | None, None => None
  end.
Lemma claims_merge d s : claims_rule d s (deepMergeResourceRequirements d s).
Proof. by destruct d, s. Qed.
Lemma gmsa_name_merge d s : gmsa_name_rule d s (deepMergeWindowsSecurityContextOptions d s).
Proof. by destruct d, s. Qed.

(** What the parameters [r] of a Gateway are, from those of its class [d] and its own [s]:
    every field of the configuration is a [setting], or one of the two above. *)
Definition merged_params (d s r : GatewayParameters) : Prop :=
  gp_meta r = gp_meta d ∧
  match sp_SelfManaged (gp_Spec s), sp_Kube (gp_Spec d), sp_Kube (gp_Spec s) with
  | Some self, _, _ => sp_Kube (gp_Spec r) = None ∧ sp_SelfManaged (gp_Spec r) = Some self
  | None, Some kd, Some ks =>
      sp_SelfManaged (gp_Spec r) = sp_SelfManaged (gp_Spec d) ∧
      ∃ k, sp_Kube (gp_Spec r) = Some k ∧
           (∀ V (get : KubernetesProxyConfig → option V) rule, kube_setting get rule → get k = rule (get kd) (get ks)) ∧
           (∀ sel, struct_path sel deepMergeResourceRequirements → claims_rule (sel kd) (sel ks) (sel k)) ∧
           (∀ sel, struct_path sel deepMergeWindowsSecurityContextOptions → gmsa_name_rule (sel kd) (sel ks) (sel k))
  | None, _, _ => r = d
  end.

Lemma merge_params_ok d s :
  ∃ r p, deepMergeGatewayParameters (Some d) (Some s) = Ok (Some r, p) ∧ merged_params d s r.
Proof.
  unfold deepMergeGatewayParameters, merged_params.
  destruct (sp_SelfManaged (gp_Spec s)) as [self|]; [by eexists _, _|].
  destruct (sp_Kube (gp_Spec s)) as [ks|]; [|by eexists _, _; destruct (sp_Kube (gp_Spec d))].
  destruct (sp_Kube (gp_Spec d)) as [kd|]; [|by eexists _, _].
  eexists _, _. split; [done|]. split; [done|]. split; [done|]. eexists. split; [done|].
  split_and!.
  - intros V get rule Hs. by apply merge_kube_setting.
  - intros sel Hsel. rewrite (path_merge sel _ Hsel). apply claims_merge.
  - intros sel Hsel. rewrite (path_merge sel _ Hsel). apply gmsa_name_merge.
Qed.
End Settings.

Lemma errors_is_refl e : errors_is e e = true.
Proof.
  assert (bool_decide (e = e) = true) as H by by apply bool_decide_eq_true_2.
  destruct e; cbn [errors_is]; by rewrite H.
Qed.
Lemma errors_is_wrap msg e target : errors_is e target = true → errors_is (ErrWrap msg e) target = true.
Proof. intros H. simpl. by rewrite H, orb_true_r. Qed.

Section Parameters.
Context `{!CoreV1, !DeployerClient}.

Definition annotation (gw : DeployedGateway) : string :=
  default "" (om_annotations (gw_meta (dg_gateway gw)) !! GatewayParametersAnnotationName).

(** C31. The configuration of a Gateway: without the annotation it is that of its class;
    with it, and both parameters objects found, every setting of the class is merged with
    the Gateway's own by its rule: the Gateway's value wins where it is set, the class's for
    the discovery address, mesh and cluster of Istio; maps are overlaid and lists appended,
    except that an empty map or list of the Gateway, which is not nil, replaces the class's.
    Two fields are merged otherwise: the resource claims are the class's where it has
    resources, and the name of the Windows credential spec becomes the merged spec where
    both have Windows options. A self-managed Gateway loses the class's configuration, and a
    class with no configuration makes the Gateway's own be ignored. The lookup never panics
    and errors name the object that is missing. *)
Theorem getGatewayParametersForGateway_correct gw :
  let own := cli_get_parameters {| nn_ns := dg_ns gw; nn_name := annotation gw |} in
  let def := getDefaultGatewayParameters gw in
  if decide (annotation gw = "") then
    getGatewayParametersForGateway gw = Ok (match def with inl err => inl err | inr d => inr (Some d) end)
  else match own, def with
       | inl err, _ => ∃ e, getGatewayParametersForGateway gw = Ok (inl e) ∧ errors_is e err = true
       | inr _, inl err => getGatewayParametersForGateway gw = Ok (inl err)
       | inr s, inr d => ∃ r, getGatewayParametersForGateway gw = Ok (inr (Some r)) ∧ merged_params d s r
       end.
Proof.
  intros own def. unfold getGatewayParametersForGateway. fold (annotation gw). fold own def.
  destruct (decide (annotation gw = "")) as [->|Ha]; [done|].
  rewrite (bool_decide_eq_false_2 (annotation gw = "")) by done.
  destruct own as [err|s].
  - eexists. split; [done|]. by apply errors_is_wrap, errors_is_wrap, errors_is_refl.
  - destruct def as [err|d]; [done|].
    destruct (merge_params_ok d s) as (r & p & -> & Hr). by exists r.
Qed.
End Parameters.

(** ** Ports *)
Section Ports.
Context `{!CoreV1}.

Definition port_of (l : Listener) : helmPort :=
  {| hp_Port := wrap_u16 (l_port l); hp_TargetPort := finalPort l; hp_Name := l_name l; hp_Protocol := "TCP" |}.

Definition first_on_port (ls : list Listener) (p : helmPort) : Prop :=
  ∃ pre l post, ls = pre ++ l :: post ∧ p = port_of l ∧ Forall (λ l', wrap_u16 (l_port l') ≠ wrap_u16 (l_port l)) pre.

Lemma first_on_port_snoc ls l p :
  first_on_port (ls ++ [l]) p ↔
  first_on_port ls p ∨ p = port_of l ∧ Forall (λ l', wrap_u16 (l_port l') ≠ wrap_u16 (l_port l)) ls.
Proof.
  split.
  - intros (pre & l' & post & Hls & -> & Hpre). destruct post as [|x post _] using rev_ind.
    + apply app_inj_tail in Hls as [-> ->]. by right.
    + rewrite app_comm_cons, app_assoc in Hls. apply app_inj_tail in Hls as [-> ->]. left. by exists pre, l', post.
  - intros [(pre & l' & post & -> & -> & Hpre)|[-> Hls]].
    + exists pre, l', (post ++ [l]). by rewrite <-app_assoc.
    + by exists ls, l, [].
Qed.

Lemma port_seen ps l :
  existsb (λ p, bool_decide (hp_Port p = wrap_u16 (l_port l))) ps = true ↔ wrap_u16 (l_port l) ∈ (hp_Port <$> ps).
Proof.
  rewrite existsb_elem. setoid_rewrite bool_decide_eq_true.
  rewrite list_elem_of_fmap. naive_solver.
Qed.

(** The service exposes each port number of the listeners once, in the order and under
    the name of its first listener, and forwards it to the port Envoy listens on for
    every listener of that port. *)
Theorem getPortsValues_spec gw :
  NoDup (hp_Port <$> getPortsValues gw) ∧
  (∀ p, p ∈ getPortsValues gw ↔ first_on_port (gw_listeners gw) p) ∧
  (∀ l, l ∈ gw_listeners gw → ∃ p, p ∈ getPortsValues gw ∧ hp_Port p = wrap_u16 (l_port l) ∧ hp_TargetPort p = finalPort l).
Proof.
  unfold getPortsValues. induction (gw_listeners gw) as [|l ls (Hnd & Hfirst & Hall)] using rev_ind.
  { split_and!; [constructor| |set_solver]. intros p. split; [set_solver|]. by intros ([] & ? & ? & ? & _). }
  rewrite foldl_app. simpl. set (ps := foldl _ _ ls) in *. destruct (existsb _ ps) eqn:Hseen.
  - apply port_seen in Hseen as Hin.
    apply list_elem_of_fmap in Hin as (q & Hq & Hqin). split_and!; [done| |].
    + intros p. rewrite first_on_port_snoc, Hfirst. split; [by left|]. intros [|[-> Hls]]; [done|].
      apply Hfirst in Hqin as (pre & l' & post & -> & -> & _). exfalso.
      rewrite Forall_forall in Hls. apply (Hls l'); [set_solver|done].
    + intros l' [Hl'| ->%list_elem_of_singleton]%elem_of_app; [by apply Hall|].
      exists q. split_and!; [done|done|]. apply Hfirst in Hqin as (pre & l' & post & _ & -> & _). simpl in *.
      unfold finalPort. by rewrite Hq.
  - assert (wrap_u16 (l_port l) ∉ (hp_Port <$> ps)) as Hnin by (rewrite <-port_seen; congruence).
    assert (Forall (λ l', wrap_u16 (l_port l') ≠ wrap_u16 (l_port l)) ls) as Hfresh.
    { apply Forall_forall. intros l' Hl' Heq. destruct (Hall l' Hl') as (p & Hp & Hport & _).
      apply Hnin. rewrite <-Heq, <-Hport. by apply list_elem_of_fmap_2. }
    split_and!.
    + rewrite fmap_app. apply NoDup_app. split_and!; [done| |apply NoDup_singleton].
      intros x Hx ->%list_elem_of_singleton. done.
    + intros p. rewrite first_on_port_snoc, <-Hfirst, elem_of_app, list_elem_of_singleton. unfold port_of, finalPort.
      naive_solver.
    + intros l' [Hl'| ->%list_elem_of_singleton]%elem_of_app.
      * destruct (Hall l' Hl') as (p & ? & ?). exists p. set_solver.
      * eexists. rewrite elem_of_app, list_elem_of_singleton. by split; [right|].
Qed.
End Ports.

(** ** Component log levels *)
Section LogLevels.
Context `{!GoRange string}.

Definition level_string (kv : string * string) : string := kv.1 +:+ ":" +:+ kv.2.
Definition levels_ok (vals : gmap string string) : Prop := map_Forall (λ k v, k ≠ "" ∧ v ≠ "") vals.

Lemma component_parts_ok l :
  Forall (λ kv, kv.1 ≠ "" ∧ kv.2 ≠ "") l → component_parts l = inr (map level_string l).
Proof.
  induction 1 as [|[k v] l [Hk Hv] _ IH]; [done|]. simpl in *.
  by rewrite !bool_decide_eq_false_2, IH by done.
Qed.

Lemma component_parts_error l : ¬ Forall (λ kv, kv.1 ≠ "" ∧ kv.2 ≠ "") l →
  ∃ k v, (k, v) ∈ l ∧ (k = "" ∨ v = "") ∧ component_parts l = inl (ComponentLogLevelEmptyError k v).
Proof.
  induction l as [|[k v] l IH]; intros Hl; [by destruct Hl|]. simpl.
  destruct (bool_decide (k = "") || bool_decide (v = "")) eqn:E.
  { exists k, v. split_and!; [by left| |done]. apply orb_true_iff in E as [?%bool_decide_eq_true|?%bool_decide_eq_true]; auto. }
  apply orb_false_iff in E as [Hk%bool_decide_eq_false Hv%bool_decide_eq_false].
  destruct IH as (k' & v' & Hin & Hor & ->); [by intros ?; apply Hl; constructor|].
  exists k', v'. split_and!; [by right|done|done].
Qed.

Lemma sort_strings_unique l1 l2 : l1 ≡ₚ l2 → sort_strings l1 = sort_strings l2.
Proof.
  intros Hp. apply (StronglySorted_unique String.le); [apply sort_strings_sorted..|].
  by rewrite !sort_strings_perm.
Qed.

(** The log levels: with no empty key or value they are printed as the sorted
    comma-separated list of their entries, whatever the iteration order of the map;
    otherwise the error names one of the entries at fault. *)
Theorem ComponentLogLevelsToString_spec vals :
  (levels_ok vals → ComponentLogLevelsToString vals = inr (join "," (sort_strings (map level_string (map_to_list vals))))) ∧
  (¬ levels_ok vals → ∃ k v, vals !! k = Some v ∧ (k = "" ∨ v = "") ∧
     ComponentLogLevelsToString vals = inl (ComponentLogLevelEmptyError k v)).
Proof.
  unfold ComponentLogLevelsToString. destruct (decide (size vals = 0)) as [E|E].
  { apply map_size_empty_inv in E as ->. split; [by rewrite map_to_list_empty|]. intros []. apply map_Forall_empty. }
  rewrite (bool_decide_eq_false_2 (size vals = 0)) by done. unfold levels_ok. rewrite !map_Forall_to_list.
  assert (go_range vals ≡ₚ map_to_list vals) as Hp by apply go_range_perm. split; intros Hok.
  - rewrite component_parts_ok.
    + do 2 f_equal. apply sort_strings_unique. by rewrite Hp.
    + rewrite Hp. eapply Forall_impl; [exact Hok|]. by intros [].
  - destruct (component_parts_error (go_range vals)) as (k & v & Hin & Hor & ->).
    { intros Hl. apply Hok. rewrite <-Hp. eapply Forall_impl; [exact Hl|]. by intros []. }
    exists k, v. by rewrite <-go_range_elem.
Qed.
End LogLevels.

(** The entries are sorted as printed: a key that extends another comes first when its next
    byte is below ":". *)
Example levels_not_sorted_by_key :
  @ComponentLogLevelsToString list_order {["http" := "info"; "http-x" := "debug"]} = inr "http-x:debug,http:info".
Proof. reflexivity. Qed.

(** ** Values and objects *)
Section Objects.
Context `{!CoreV1, !GoRange string, !DeployerClient}.
Context (json_Marshal : AiExtensionStats → Err + string) (Render : string → string → helmGateway → Err + list Object).

(** The user ids the containers of the proxy would run as. *)
Definition run_as_users (v : helmGateway) : list (option Z) :=
  [hg_PodSecurityContext v ≫= ps_RunAsUser; hg_SecurityContext v ≫= sc_RunAsUser;
   (hg_SdsContainer v ≫= hc_SecurityContext) ≫= sc_RunAsUser;
   (hg_IstioContainer v ≫= hn_SecurityContext) ≫= sc_RunAsUser;
   (hg_AIExtension v ≫= ha_SecurityContext) ≫= sc_RunAsUser].

Definition configured_users (k : KubernetesProxyConfig) : list (option Z) :=
  [(kp_PodTemplate k ≫= pt_SecurityContext) ≫= ps_RunAsUser;
   (kp_EnvoyContainer k ≫= ec_SecurityContext) ≫= sc_RunAsUser;
   (kp_SdsContainer k ≫= sd_SecurityContext) ≫= sc_RunAsUser;
   ((kp_Istio k ≫= is_IstioProxyContainer) ≫= ic_SecurityContext) ≫= sc_RunAsUser;
   (kp_AiExtension k ≫= ai_SecurityContext) ≫= sc_RunAsUser].

Definition kube_of (p : option GatewayParameters) : option KubernetesProxyConfig := p ≫= (λ p, sp_Kube (gp_Spec p)).
Definition ai_of (p : option GatewayParameters) : option AiExtension := kube_of p ≫= kp_AiExtension.
Definition levels_of (p : option GatewayParameters) : gmap string string :=
  default ∅ (((kube_of p ≫= kp_EnvoyContainer) ≫= ec_Bootstrap) ≫= eb_ComponentLogLevels).

Lemma floating_clears k : kp_FloatingUserId k = Some true → configured_users (applyFloatingUserId k) = replicate 5 None.
Proof.
  intros Hf. unfold configured_users, applyFloatingUserId. rewrite Hf. simpl. repeat f_equal.
  - by destruct (kp_PodTemplate k) as [p|]; [simpl; destruct (pt_SecurityContext p)|].
  - by destruct (kp_EnvoyContainer k) as [p|]; [simpl; destruct (ec_SecurityContext p)|].
  - by destruct (kp_SdsContainer k) as [p|]; [simpl; destruct (sd_SecurityContext p)|].
  - destruct (kp_Istio k) as [i|]; [|done]. simpl. by destruct (is_IstioProxyContainer i) as [p|]; [simpl; destruct (ic_SecurityContext p)|].
  - by destruct (kp_AiExtension k) as [p|]; [simpl; destruct (ai_SecurityContext p)|].
Qed.

Lemma not_floating_keeps k : kp_FloatingUserId k ≠ Some true → applyFloatingUserId k = k.
Proof. unfold applyFloatingUserId. by destruct (kp_FloatingUserId k) as [[]|]. Qed.

Lemma floating_other k :
  kp_Deployment (applyFloatingUserId k) = kp_Deployment k ∧ kp_Service (applyFloatingUserId k) = kp_Service k ∧
  kp_Stats (applyFloatingUserId k) = kp_Stats k ∧ (kp_AiExtension k = None → kp_AiExtension (applyFloatingUserId k) = None) ∧
  (∀ a, kp_AiExtension k = Some a → ∃ a', kp_AiExtension (applyFloatingUserId k) = Some a' ∧
     ai_Enabled a' = ai_Enabled a ∧ ai_Stats a' = ai_Stats a) ∧
  ((kp_EnvoyContainer (applyFloatingUserId k) ≫= ec_Bootstrap) = (kp_EnvoyContainer k ≫= ec_Bootstrap)).
Proof.
  unfold applyFloatingUserId. destruct (kp_FloatingUserId k) as [[]|]; simpl; split_and!; eauto.
  - by intros ->.
  - intros a ->. by eexists.
  - by destruct (kp_EnvoyContainer k).
Qed.

Definition is_floating (p : GatewayParameters) : bool :=
  match kube_of (Some p) with Some k => bool_decide (kp_FloatingUserId k = Some true) | None => false end.

(** The values of a Gateway whose parameters are [p]. *)
Definition values_ok (d : Inputs) (gw : DeployedGateway) (p : GatewayParameters) (v : helmGateway) : Prop :=
  hg_Name v = dg_name gw ∧ hg_GatewayNamespace v = dg_ns gw ∧ hg_Ports v = getPortsValues (dg_gateway gw) ∧
  hg_Xds v = {| hx_Host := in_XdsHost d; hx_Port := in_XdsPort d |} ∧
  hg_ReplicaCount v = ((kube_of (Some p) ≫= kp_Deployment) ≫= pd_Replicas) ∧
  hg_ComponentLogLevel v = Some (join "," (sort_strings (map level_string (map_to_list (levels_of (Some p)))))) ∧
  run_as_users v = (if is_floating p then replicate 5 None
                    else match kube_of (Some p) with Some k => configured_users k | None => replicate 5 None end).

Definition stats_fail (p : GatewayParameters) : Prop :=
  ∃ a st e, ai_of (Some p) = Some a ∧ ai_Stats a = Some st ∧ json_Marshal st = inl e.

Lemma getAIExtensionValues_ok c :
  (∀ a, c = Some a → is_Some (ai_Enabled a)) →
  ∃ r, getAIExtensionValues json_Marshal c = Ok r ∧
    match r with
    | inl e => ∃ a st, c = Some a ∧ ai_Stats a = Some st ∧ json_Marshal st = inl e
    | inr v => (v ≫= ha_SecurityContext) = (c ≫= ai_SecurityContext)
    end.
Proof.
  intros Hen. destruct c as [a|]; [|by eexists]. destruct (Hen a eq_refl) as [b Hb]. simpl.
  rewrite Hb. destruct (ai_Stats a) as [st|] eqn:Est; [|by eexists].
  destruct (json_Marshal st) as [e|byt] eqn:Ej; [|by eexists]. eexists. split; [done|]. by exists a, st.
Qed.

Lemma sds_users c : ((getSdsContainerValues c ≫= hc_SecurityContext) ≫= sc_RunAsUser) = ((c ≫= sd_SecurityContext) ≫= sc_RunAsUser).
Proof. by destruct c. Qed.
Lemma istio_users c : ((getIstioContainerValues c ≫= hn_SecurityContext) ≫= sc_RunAsUser) = ((c ≫= ic_SecurityContext) ≫= sc_RunAsUser).
Proof. by destruct c. Qed.

Lemma ai_ready_floating p k :
  sp_Kube (gp_Spec p) = Some k → (∀ a, ai_of (Some p) = Some a → is_Some (ai_Enabled a)) →
  ∀ a, kp_AiExtension (applyFloatingUserId k) = Some a → is_Some (ai_Enabled a).
Proof.
  intros Hk Hai a Ha. unfold ai_of, kube_of in Hai. simpl in Hai. rewrite Hk in Hai. simpl in Hai.
  destruct (floating_other k) as (_ & _ & _ & Hnone & Hsome & _).
  destruct (kp_AiExtension k) as [a0|]; [|by rewrite Hnone in Ha].
  destruct (Hsome a0 eq_refl) as (a' & Ha' & Hen & _). rewrite Ha' in Ha. injection Ha as <-. rewrite Hen. eauto.
Qed.

Lemma getValues_ok d gw p :
  (∀ a, ai_of (Some p) = Some a → is_Some (ai_Enabled a)) →
  ∃ r, getValues json_Marshal d gw (Some p) = Ok r ∧
    match r with
    | inl _ => ¬ levels_ok (levels_of (Some p)) ∨ stats_fail p
    | inr v => values_ok d gw p v
    end.
Proof.
  intros Hai. unfold getValues. set (k := applyFloatingUserId <$> sp_Kube (gp_Spec p)).
  assert (((k ≫= kp_EnvoyContainer) ≫= ec_Bootstrap) = ((kube_of (Some p) ≫= kp_EnvoyContainer) ≫= ec_Bootstrap)) as Hboot.
  { subst k. unfold kube_of. simpl. destruct (sp_Kube (gp_Spec p)) as [k|]; [|done]. simpl. apply floating_other. }
  rewrite Hboot. fold (levels_of (Some p)).
  destruct (ComponentLogLevelsToString_spec (levels_of (Some p))) as [Hok Herr].
  destruct (decide (levels_ok (levels_of (Some p)))) as [Hl|Hl].
  2: { destruct (Herr Hl) as (? & ? & _ & _ & ->). eexists. split; [done|]. by left. }
  rewrite Hok by done. simpl.
  destruct (getAIExtensionValues_ok (k ≫= kp_AiExtension)) as (r & -> & Hr).
  { subst k. destruct (sp_Kube (gp_Spec p)) as [k|] eqn:Ek; [|done]. by eapply ai_ready_floating. }
  destruct r as [e|ai]; simpl.
  - eexists. split; [done|]. right. destruct Hr as (a & st & Ha & Hst & Hj).
    subst k. destruct (sp_Kube (gp_Spec p)) as [k|] eqn:Ek; [|done]. simpl in Ha.
    destruct (floating_other k) as (_ & _ & _ & Hnone & Hsome & _).
    destruct (kp_AiExtension k) as [a0|] eqn:Ea; [|by rewrite Hnone in Ha].
    destruct (Hsome a0 eq_refl) as (a' & Ha' & _ & Hst'). rewrite Ha' in Ha. injection Ha as <-.
    exists a0, st, e. unfold ai_of, kube_of. simpl. rewrite Ek. simpl. by rewrite <-Hst'.
  - eexists. split; [done|]. unfold values_ok, run_as_users, is_floating. simpl. split_and!; try done.
    + subst k. unfold kube_of. simpl. destruct (sp_Kube (gp_Spec p)) as [k|]; [|done]. simpl. by destruct (floating_other k) as [-> _].
    + rewrite Hr. rewrite sds_users, istio_users. subst k. unfold kube_of. simpl.
      destruct (sp_Kube (gp_Spec p)) as [k|]; [|done]. simpl. fold (configured_users (applyFloatingUserId k)).
      case_bool_decide; [by apply floating_clears|by rewrite not_floating_keeps].
Qed.

Definition owned_by (gw : DeployedGateway) (o o' : Object) : Prop :=
  ob_kind o' = ob_kind o ∧ ob_name o' = ob_name o ∧ ob_content o' = ob_content o ∧ ob_namespace o' = dg_ns gw ∧
  ob_owners o' = [{| or_Kind := dg_Kind gw; or_APIVersion := dg_APIVersion gw; or_Controller := true;
                     or_UID := dg_UID gw; or_Name := dg_name gw |}].

(** Deploying a Gateway whose AI extension, if any, says whether it is enabled never
    panics: a self-managed Gateway gets nothing; otherwise the objects are those the chart
    renders for the Gateway's values, in order, in the Gateway's namespace and owned by it
    alone, and an error means that a log level is empty, the stats do not encode or the
    chart does not render. With a floating user id no container has a fixed user. *)
Theorem GetObjsToDeploy_correct d gw p :
  getGatewayParametersForGateway gw = Ok (inr (Some p)) →
  (∀ a, ai_of (Some p) = Some a → is_Some (ai_Enabled a)) →
  ∃ r, GetObjsToDeploy json_Marshal Render d gw = Ok r ∧
    match sp_SelfManaged (gp_Spec p), r with
    | Some _, _ => r = inr []
    | None, inr objs => ∃ v rendered, values_ok d gw p v ∧ Render (dg_name gw) (dg_ns gw) v = inr rendered ∧
                          Forall2 (owned_by gw) rendered objs
    | None, inl _ => ¬ levels_ok (levels_of (Some p)) ∨ stats_fail p ∨
                     ∃ v e, values_ok d gw p v ∧ Render (dg_name gw) (dg_ns gw) v = inl e
    end.
Proof.
  intros Hp Hai. unfold GetObjsToDeploy. rewrite Hp. cbn [res_bind mbind option_bind].
  destruct (sp_SelfManaged (gp_Spec p)); [by eexists|].
  destruct (getValues_ok d gw p Hai) as (r & -> & Hr). cbn [res_bind].
  destruct r as [e|v]; [eexists; split; [done|]; naive_solver|].
  unfold renderChartToObjects. destruct (Render _ _ v) as [e|rendered] eqn:Er.
  - eexists. split; [done|]. right. right. by exists v, e.
  - eexists. split; [done|]. exists v, rendered. split_and!; [done..|].
    clear Er. induction rendered; constructor; [by split_and!|done].
Qed.

(** An AI extension that leaves "enabled" unset, which its schema allows, makes the
    deployment panic. *)
Theorem ai_extension_without_enabled_panics d gw p a :
  getGatewayParametersForGateway gw = Ok (inr (Some p)) → sp_SelfManaged (gp_Spec p) = None →
  levels_ok (levels_of (Some p)) → ai_of (Some p) = Some a → ai_Enabled a = None → ai_Stats a = None →
  ∃ why, GetObjsToDeploy json_Marshal Render d gw = Panic why.
Proof.
  intros Hp Hself Hl Ha Hen Hst. unfold GetObjsToDeploy. rewrite Hp. cbn [res_bind mbind option_bind]. rewrite Hself.
  unfold getValues. unfold ai_of, kube_of in Ha. simpl in Ha. destruct (sp_Kube (gp_Spec p)) as [k|] eqn:Ek; [|done].
  simpl in Ha. destruct (floating_other k) as (_ & _ & _ & _ & Hsome & Hboot).
  destruct (Hsome a Ha) as (a' & Ha' & Hen' & Hst').
  cbn [fmap option_fmap option_map mbind option_bind]. rewrite Hboot, Ha'.
  assert (default ∅ ((kp_EnvoyContainer k ≫= ec_Bootstrap) ≫= eb_ComponentLogLevels) = levels_of (Some p)) as ->.
  { unfold levels_of, kube_of. simpl. by rewrite Ek. }
  destruct (ComponentLogLevelsToString_spec (levels_of (Some p))) as [-> _]; [|done].
  unfold getAIExtensionValues. rewrite Hst', Hst, Hen', Hen. by eexists.
Qed.
End Objects.

(** ** A cluster *)
Definition ex_core : CoreV1 :=
  {| Container := string; EnvVar := string; ContainerPort := Z; Toleration := string; LocalObjectReference := string;
     Sysctl := string; NodeSelectorTerm := string; PreferredSchedulingTerm := string; PodAffinityTerm := string;
     WeightedPodAffinityTerm := string; Quantity := Z; ResourceClaim := string |}.
#[local] Existing Instance ex_core.
#[local] Existing Instance list_order.

Definition no_kube : KubernetesProxyConfig :=
  {| kp_Deployment := None; kp_EnvoyContainer := None; kp_SdsContainer := None; kp_PodTemplate := None; kp_Service := None;
     kp_Istio := None; kp_Stats := None; kp_AiExtension := None; kp_FloatingUserId := None |}.
Definition ex_kube (replicas : option Z) (user : option Z) (ai : option AiExtension) (floating : option bool) : KubernetesProxyConfig :=
  {| kp_Deployment := (λ r, {| pd_Replicas := Some r |}) <$> replicas;
     kp_EnvoyContainer :=
       (λ u, {| ec_Bootstrap := Some {| eb_LogLevel := Some "info"; eb_ComponentLogLevels := Some {["http" := "info"]} |};
                ec_Image := None;
                ec_SecurityContext := Some {| sc_Capabilities := None; sc_SELinuxOptions := None; sc_WindowsOptions := None;
                  sc_RunAsUser := Some u; sc_RunAsGroup := None; sc_RunAsNonRoot := None; sc_Privileged := None;
                  sc_ReadOnlyRootFilesystem := None; sc_AllowPrivilegeEscalation := None; sc_ProcMount := None;
                  sc_SeccompProfile := None |};
                ec_Resources := None |}) <$> user;
     kp_SdsContainer := None; kp_PodTemplate := None; kp_Service := None;
     kp_Istio := None; kp_Stats := None; kp_AiExtension := ai; kp_FloatingUserId := floating |}.
Definition ex_ai (enabled : option bool) : AiExtension :=
  {| ai_Enabled := enabled; ai_Image := None; ai_SecurityContext := None; ai_Resources := None; ai_Env := None;
     ai_Ports := None; ai_Stats := None |}.
Definition ex_params (n : string) (k : option KubernetesProxyConfig) : GatewayParameters :=
  {| gp_meta := {| nn_ns := "infra"; nn_name := n |}; gp_Spec := {| sp_Kube := k; sp_SelfManaged := None |} |}.

Definition ex_client (cls own : GatewayParameters) : DeployerClient :=
  {| cli_get_parameters := λ n, if decide (n = gp_meta cls) then inr cls
                                else if decide (n = gp_meta own) then inr own else inl (ErrNotFound "parameters");
     cli_get_class := λ n, if decide (n = "gloo") then
         inr {| gc_name := "gloo"; gc_namespace := "";
                gc_ParametersRef := Some {| pr_Name := nn_name (gp_meta cls); pr_Namespace := Some "infra" |} |}
       else inl (ErrNotFound "class") |}.

Definition ex_gw : DeployedGateway :=
  {| dg_gateway := {| gw_meta := {| om_name := "gw"; om_namespace := "infra"; om_generation := 1; om_creation := 0;
                                    om_annotations := {[GatewayParametersAnnotationName := "own"]} |};
                      gw_listeners := [{| l_name := "http"; l_hostname := None; l_port := 80; l_protocol := "HTTP";
                                          l_tls := None; l_allowedRoutes := None |}];
                      gw_status := {| gs_conditions := []; gs_listeners := [] |} |};
     dg_GatewayClassName := "gloo"; dg_Kind := "Gateway"; dg_APIVersion := "v1"; dg_UID := "1" |}.
Definition ex_inputs : Inputs := {| in_XdsHost := "gloo"; in_XdsPort := 9977; in_IntegrationEnabled := false |}.

(** The Gateway's replicas and floating user over the class's. *)
Definition ex_class_params : GatewayParameters := ex_params "class" (Some (ex_kube (Some 1%Z) (Some 10101%Z) None None)).
Definition ex_merged : GatewayParameters := ex_params "class" (Some (ex_kube (Some 3%Z) (Some 10101%Z) None (Some true))).
Definition ex_render (name ns : string) (v : helmGateway) : Err + list Object :=
  inr [{| ob_kind := "Deployment"; ob_name := name; ob_namespace := ""; ob_owners := [];
          ob_content := if hg_ReplicaCount v is Some 3%Z then "3 replicas" else "" |}].

Lemma GetObjsToDeploy_correct_witness :
  let cli := ex_client ex_class_params (ex_params "own" (Some (ex_kube (Some 3%Z) None None (Some true)))) in
  getGatewayParametersForGateway ex_gw = Ok (inr (Some ex_merged)) ∧
  ∃ v rendered objs, GetObjsToDeploy (λ _, inr "{}") ex_render ex_inputs ex_gw = Ok (inr objs) ∧
    values_ok ex_inputs ex_gw ex_merged v ∧ Forall2 (owned_by ex_gw) rendered objs ∧ length objs = 1.
Proof.
  intros cli. assert (getGatewayParametersForGateway ex_gw = Ok (inr (Some ex_merged))) as Hp by (vm_compute; reflexivity).
  split; [done|]. destruct (GetObjsToDeploy_correct (λ _, inr "{}") ex_render ex_inputs ex_gw ex_merged Hp) as (r & Hr & Hspec).
  - intros a Ha. vm_compute in Ha. discriminate.
  - destruct r as [e|objs].
    + exfalso. vm_compute in Hr. discriminate.
    + cbv [sp_SelfManaged gp_Spec ex_merged ex_params] in Hspec. destruct Hspec as (v & rendered & Hv & Hrend & Hall).
      exists v, rendered, objs. split_and!; [done..|].
      rewrite <-(Forall2_length _ _ _ Hall). injection Hrend as <-. reflexivity.
Defined.

Lemma ai_extension_without_enabled_panics_witness :
  let cli := ex_client (ex_params "class" (Some (ex_kube None None (Some (ex_ai None)) None))) (ex_params "own" None) in
  ∃ why, GetObjsToDeploy (λ _, inr "{}") ex_render ex_inputs ex_gw = Panic why.
Proof.
  intros cli.
  apply (ai_extension_without_enabled_panics (λ _, inr "{}") ex_render ex_inputs ex_gw
           (ex_params "class" (Some (ex_kube None None (Some (ex_ai None)) None))) (ex_ai None)); try reflexivity.
  vm_compute. intros ?? [=].
Defined.

(** A class whose parameters have no Kubernetes configuration: the Gateway's replicas are lost. *)
Example class_without_kube_ignores_the_gateway :
  let cli := ex_client (ex_params "class" None) (ex_params "own" (Some (ex_kube (Some 3%Z) None None None))) in
  getGatewayParametersForGateway ex_gw = Ok (inr (Some (ex_params "class" None))).
Proof. vm_compute. reflexivity. Qed.

(** The name of the Windows credential spec is overwritten with the merged spec, here nil. *)
Example gmsa_name_lost :
  let name n := Some {| wo_GMSACredentialSpecName := n; wo_GMSACredentialSpec := None;
                        wo_RunAsUserName := None; wo_HostProcess := None |} in
  deepMergeWindowsSecurityContextOptions (name (Some "class")) (name (Some "own")) = name None.
Proof. reflexivity. Qed.

(** An empty map of the Gateway clears the labels of the class. *)
Example empty_map_clears : deepMergeMaps (Some {["team" := "a"]}) (Some ∅) = Some (∅ : gmap string string).
Proof. reflexivity. Qed.

(** The resource claims of the Gateway are dropped. *)
Example claims_lost :
  let claims l := Some {| rr_Limits := None; rr_Requests := None; rr_Claims := l |} in
  deepMergeResourceRequirements (claims None) (claims (Some ["gpu"])) = claims None.
Proof. reflexivity. Qed.

(** The paths of Envoy's resources and Windows options. *)
Example envoy_paths :
  struct_path (λ k, (Some k ≫= kp_EnvoyContainer) ≫= ec_Resources) deepMergeResourceRequirements ∧
  struct_path (λ k, ((Some k ≫= kp_EnvoyContainer) ≫= ec_SecurityContext) ≫= sc_WindowsOptions) deepMergeWindowsSecurityContextOptions.
Proof. split; repeat (eapply path_part; [|constructor]); constructor. Qed.

(** Istio's discovery address of the class stays. *)
Example discovery_address_setting :
  kube_setting (λ k, kp_Istio k ≫= λ i, is_IstioProxyContainer i ≫= ic_IstioDiscoveryAddress) keep.
Proof. eapply into; [apply part_istio|]. eapply into; [apply part_istio_container|]. apply discovery_address. Qed.
