(* ===== verification/GatewayController.v ===== *)
(** * The gateway controller

    gateway2/controller/gw_controller.go and the reconcilers of controller.go: a Gateway is
    deployed ([GetObjsToDeploy] of the deployer), its addresses are taken from the Services
    it owns, and the proxy syncer is kicked. The API server answers requests and is a
    parameter ([ReconcilerClient]); what is asked of it is recorded. Registration of the
    watches is not modelled. *)

From stdpp Require Import base gmap strings list fin_maps.
From Stdlib Require Import ZArith.
From S2P Require Import Prelude GoLib GwApi Status ListenerTranslator DeployerMerge Deployer DeployerFacts.

Module Controller.
(** ** Services and addresses *)
Inductive AddressType := HostnameAddressType | IPAddressType.
Record Address := { ad_Type : AddressType; ad_Value : string }.
(** An ingress is a hostname and an IP. *)
Record Service := {
  (** the UID of the controlling owner *)
  sv_controller : option string;
  sv_Type : string; sv_Ingress : list (string * string); sv_ClusterIPs : list string; sv_ClusterIP : string }.

Definition getDesiredAddresses (svc : Service) : list Address :=
  if bool_decide (sv_Type svc = "LoadBalancer") then
    flat_map (λ '(hostname, ip),
      (if bool_decide (hostname = "") then [] else [{| ad_Type := HostnameAddressType; ad_Value := hostname |}]) ++
      (if bool_decide (ip = "") then [] else [{| ad_Type := IPAddressType; ad_Value := ip |}])) (sv_Ingress svc)
  else match sv_ClusterIPs svc with
       | [] => if bool_decide (sv_ClusterIP svc = "") then [] else [{| ad_Type := IPAddressType; ad_Value := sv_ClusterIP svc |}]
       | ips => map (λ ip, {| ad_Type := IPAddressType; ad_Value := ip |}) ips
       end.
(** [slices.Equal]: the type of an address is a pointer, and the pointers of the desired
    addresses have just been made. *)
Definition slices_Equal (desired actual : list Address) : bool :=
  match desired, actual with [], [] => true | _, _ => false end.

(** ** The API server *)
Record FetchedGateway := { fg_gateway : DeployedGateway; fg_deleted : bool; fg_addresses : list Address }.
Class ReconcilerClient := {
  get_namespace_annotations : string → result (gmap string string);
  get_gateway : NamespacedName → result FetchedGateway;
  get_service : NamespacedName → result Service;
  (** the addresses of the Gateway in the answer *)
  patch_addresses : NamespacedName → list Address → result (list Address);
  apply_object : Object → option Err;
  (** the printed kind of an object *)
  gvk_String : Object → string
}.
Inductive Call :=
| PatchAddresses (gateway : NamespacedName) (addresses : list Address)
| Apply (o : Object)
| Kicked.
Definition IgnoreNotFound (err : Err) : option Err := if is_not_found err then None else Some err.
Definition GatewayAutoDeployAnnotationKey : string := "gateway.gloo.solo.io/auto-deploy".

Section Reconciler.
Context `{!CoreV1, !GoRange string, !DeployerClient, !ReconcilerClient}.
Context (json_Marshal : AiExtensionStats → Err + string) (Render : string → string → helmGateway → Err + list Object).
Context (autoProvision : bool) (inputs : Inputs).

Definition call (c : Call) : M (list Call) unit := modify (λ cs, cs ++ [c]).
Definition fetched_nn (gw : DeployedGateway) : NamespacedName := {| nn_ns := dg_ns gw; nn_name := dg_name gw |}.

(** The error, and the addresses of the Gateway in memory: they are set before the patch,
    which reads the answer into the Gateway. *)
Definition updateStatus (gw : DeployedGateway) (actual : list Address) (svcnns : NamespacedName) : M (list Call) (option Err * list Address) :=
  match get_service svcnns with
  | inl err => ret (IgnoreNotFound err, actual)
  | inr svc =>
      match sv_controller svc with
      | None => ret (None, actual)
      | Some uid =>
          if negb (bool_decide (dg_UID gw = uid)) then ret (None, actual)
          else let desired := getDesiredAddresses svc in
            if slices_Equal desired actual then ret (None, actual)
            else do! call (PatchAddresses (fetched_nn gw) desired) ;;
              match patch_addresses (fetched_nn gw) desired with
              | inl err => ret (Some err, desired)
              | inr patched => ret (None, patched)
              end
      end
  end.
Definition object_nn (o : Object) : NamespacedName := {| nn_ns := ob_namespace o; nn_name := ob_name o |}.
(** The loop over the objects: whether to requeue. *)
Definition update_object (gw : DeployedGateway) (acc : bool * list Address) (o : Object) : M (list Call) (bool * list Address) :=
  if bool_decide (ob_kind o = "Service") then
    let! (err, actual) <~ updateStatus gw acc.2 (object_nn o) ;;
    ret (match err with Some _ => true | None => acc.1 end, actual)
  else ret acc.
Fixpoint DeployObjs (objs : list Object) : M (list Call) (option Err) :=
  match objs with
  | [] => ret None
  | o :: objs =>
      do! call (Apply o) ;;
      match apply_object o with
      | Some err => ret (Some (ErrWrap ("failed to apply object " +:+ gvk_String o +:+ " " +:+ ob_name o +:+ ": ") err))
      | None => DeployObjs objs
      end
  end.
(** Whether to requeue, and the error. *)
Definition Reconcile (req : NamespacedName) : M (list Call) (bool * option Err) :=
  match get_namespace_annotations (nn_ns req) with
  | inl err => ret (false, Some err)
  | inr annotations =>
      if negb autoProvision && negb (bool_decide (annotations !! GatewayAutoDeployAnnotationKey = Some "true")) then ret (false, None)
      else match get_gateway req with
      | inl err => ret (false, IgnoreNotFound err)
      | inr gw =>
          if fg_deleted gw then ret (false, None)
          else
            objs <~ lift_res (GetObjsToDeploy json_Marshal Render inputs (fg_gateway gw)) ;;
            match objs with
            | inl err => ret (false, Some err)
            | inr objs =>
                let! (requeue, _) <~ fold_range 0 objs (false, fg_addresses gw) (λ _ o acc, update_object (fg_gateway gw) acc o) ;;
                err <~ DeployObjs objs ;;
                match err with
                | Some err => ret (requeue, Some err)
                | None => do! call Kicked ;; ret (requeue, None)
                end
            end
      end
  end.
End Reconciler.

(** ** controller.go *)
(** The index of Gateways by their parameters. *)
Definition gatewayToParams (annotations : gmap string string) : list string :=
  let gwpName := default "" (annotations !! GatewayParametersAnnotationName) in
  if bool_decide (gwpName = "") then [] else [gwpName].
(** Children whose status changes do not trigger the controller. *)
Definition shouldIgnoreStatusChild (kind : string) : bool := bool_decide (kind = "Deployment").
(** The conditions a class of the controller gets. *)
Definition class_condition (generation : Z) (ty reason : string) : Condition :=
  {| c_type := ty; c_status := ConditionTrue; c_observedGeneration := generation; c_lastTransitionTime := 0; c_reason := reason; c_message := "" |}.
Definition ReconcileGatewayClasses `{!ApiMeta} (now : Z) (fetched : result (Z * list Condition)) (update : list Condition → option Err) :
    option Err * option (list Condition) :=
  match fetched with
  | inl err => (IgnoreNotFound err, None)
  | inr (generation, conditions) =>
      let conditions := SetStatusCondition now conditions (class_condition generation "Accepted" "Accepted") in
      let conditions := SetStatusCondition now conditions (class_condition generation "SupportedVersion" "SupportedVersion") in
      (update conditions, Some conditions)
  end.
End Controller.
Import Controller.

(** ** What a reconciliation does *)
Section Facts.
Context `{!CoreV1, !GoRange string, !DeployerClient, !ReconcilerClient}.
Context (json_Marshal : AiExtensionStats → Err + string) (Render : string → string → helmGateway → Err + list Object).
Context (autoProvision : bool) (inputs : Inputs).

(** The Gateway a request is about, when it is to be deployed. *)
Definition to_deploy (req : NamespacedName) (gw : FetchedGateway) : Prop :=
  ∃ annotations, get_namespace_annotations (nn_ns req) = inr annotations ∧
    (autoProvision = true ∨ annotations !! GatewayAutoDeployAnnotationKey = Some "true") ∧ get_gateway req = inr gw ∧ fg_deleted gw = false.
(** A Service among the objects that the Gateway controls. *)
Definition owned_service (gw : DeployedGateway) (o : Object) (svc : Service) : Prop :=
  ob_kind o = "Service" ∧ get_service (object_nn o) = inr svc ∧ sv_controller svc = Some (dg_UID gw).
(** What makes the reconciliation run again. *)
Definition lookup_fails (o : Object) : Prop := ob_kind o = "Service" ∧ ∃ e, get_service (object_nn o) = inl e ∧ is_not_found e = false.
Definition patch_fails (c : Call) : Prop := match c with PatchAddresses g l => ∃ e, patch_addresses g l = inl e | _ => False end.
(** The loop over the objects: the patches, and whether to requeue. *)
Definition updates_ok (gw : DeployedGateway) (objs : list Object) (before after : bool) (ps : list Call) : Prop :=
  (∀ p, p ∈ ps → ∃ o svc, o ∈ objs ∧ owned_service gw o svc ∧ p = PatchAddresses (fetched_nn gw) (getDesiredAddresses svc)) ∧
  (∀ o svc, o ∈ objs → owned_service gw o svc → getDesiredAddresses svc ≠ [] → PatchAddresses (fetched_nn gw) (getDesiredAddresses svc) ∈ ps) ∧
  (after = true ↔ before = true ∨ (∃ o, o ∈ objs ∧ lookup_fails o) ∨ ∃ p, p ∈ ps ∧ patch_fails p).

Lemma object_untouched gw o b : (∀ svc, owned_service gw o svc → getDesiredAddresses svc = []) → ¬ lookup_fails o → updates_ok gw [o] b b [].
Proof.
  intros Hno Hnf. split_and!; [set_solver|intros o' svc ->%list_elem_of_singleton Hs Hd; by apply Hno in Hs|]. split; [by left|].
  intros [?|[(o' & ->%list_elem_of_singleton & ?)|(p & Hp & _)]]; [done|done|by apply elem_of_nil in Hp].
Qed.
Lemma update_object_ok gw acc o cs : ∃ acc' ps, update_object gw acc o cs = Ok (acc', cs ++ ps) ∧ updates_ok gw [o] acc.1 acc'.1 ps.
Proof.
  unfold update_object. case_bool_decide as Hk.
  2: { exists acc, []. rewrite app_nil_r. split; [done|]. by apply object_untouched; [intros svc [? _]|intros [? _]]. }
  unfold updateStatus. destruct (get_service (object_nn o)) as [e|svc] eqn:Es.
  { exists (match IgnoreNotFound e with Some _ => true | None => acc.1 end, acc.2), []. rewrite app_nil_r. split; [done|].
    unfold IgnoreNotFound. destruct (is_not_found e) eqn:En; cbn.
    - apply object_untouched; [intros svc (_ & ? & _)|intros (_ & e' & ? & ?)]; congruence.
    - split_and!; [set_solver|intros o' svc ->%list_elem_of_singleton (_ & ? & _); congruence|]. split; [|done]. intros _. right. left.
      exists o. split; [by left|]. split; [done|]. by exists e. }
  assert (∀ svc', owned_service gw o svc' → svc' = svc ∧ sv_controller svc = Some (dg_UID gw)) as Hsvc.
  { intros svc' (_ & He & Hc). rewrite Es in He. by injection He as <-. }
  assert ((∀ svc', owned_service gw o svc' → getDesiredAddresses svc' = []) → ∃ acc'' ps, Ok ((acc.1, acc.2), cs) = Ok (acc'', cs ++ ps) ∧ updates_ok gw [o] acc.1 acc''.1 ps) as Hnone.
  { intros Hno. exists acc, []. rewrite app_nil_r. split; [by destruct acc|]. apply object_untouched; [done|]. intros (_ & e & He & _). congruence. }
  destruct (sv_controller svc) as [uid|] eqn:Eu; cbn; [|apply Hnone; intros svc' [_ ?]%Hsvc; congruence].
  case_bool_decide as Hu; cbn; [|apply Hnone; intros svc' [_ ?]%Hsvc; congruence]. subst uid.
  destruct (slices_Equal (getDesiredAddresses svc) acc.2) eqn:Eq; cbn.
  { apply Hnone. intros svc' [-> _]%Hsvc. unfold slices_Equal in Eq. by destruct (getDesiredAddresses svc), acc.2. }
  exists (match patch_addresses (fetched_nn gw) (getDesiredAddresses svc) with inl _ => (true, getDesiredAddresses svc) | inr l => (acc.1, l) end),
    [PatchAddresses (fetched_nn gw) (getDesiredAddresses svc)].
  split; [unfold bind, call, modify; by destruct (patch_addresses _ _)|]. split_and!.
  - intros p ->%list_elem_of_singleton. exists o, svc. split; [by left|done].
  - intros o' svc' ->%list_elem_of_singleton [-> _]%Hsvc _. by left.
  - destruct (patch_addresses _ _) as [e|l] eqn:Ep; cbn.
    + split; [|done]. intros _. right. right. eexists. split; [by left|]. by exists e.
    + split; [by left|]. intros [?|[(o' & ->%list_elem_of_singleton & _ & e & ? & _)|(p & ->%list_elem_of_singleton & e & Hp)]]; [done|congruence..].
Qed.
Lemma updates_app gw o objs b1 b2 b3 ps ps' : updates_ok gw [o] b1 b2 ps → updates_ok gw objs b2 b3 ps' → updates_ok gw (o :: objs) b1 b3 (ps ++ ps').
Proof.
  intros (P1 & Q1 & R1) (P2 & Q2 & R2). split_and!.
  - intros p [Hp|Hp]%elem_of_app; [apply P1 in Hp as (o' & svc & ->%list_elem_of_singleton & Hp)|apply P2 in Hp as (o' & svc & Ho & Hp)]; eexists _, svc; (split; [|exact Hp]); set_solver.
  - intros o' svc Ho Hs Hd. apply elem_of_app. apply elem_of_cons in Ho as [->|Ho]; [left; apply (Q1 o); [by left|done|done]|right; by eapply Q2].
  - rewrite R2, R1. split.
    + intros [[?|[(o' & ->%list_elem_of_singleton & ?)|(p & ? & ?)]]|[(o' & ? & ?)|(p & ? & ?)]]; [by left|right; left; exists o; split; [by left|done]|right; right|right; left|right; right]; eexists; (split; [|done]); set_solver.
    + intros [?|[(o' & [->|Ho]%elem_of_cons & ?)|(p & [Hp|Hp]%elem_of_app & ?)]].
      * by left; left.
      * left. right. left. exists o. split; [by left|done].
      * right. left. by exists o'.
      * left. right. right. by exists p.
      * right. right. by exists p.
Qed.
Lemma update_all_ok gw objs : ∀ i acc cs, ∃ acc' ps,
  fold_range i objs acc (λ _ o acc, update_object gw acc o) cs = Ok (acc', cs ++ ps) ∧ updates_ok gw objs acc.1 acc'.1 ps.
Proof.
  induction objs as [|o objs IH]; intros i acc cs; cbn [fold_range].
  { exists acc, []. rewrite app_nil_r. split; [done|]. split_and!; [set_solver|set_solver|]. split; [by left|]. set_solver. }
  destruct (update_object_ok gw acc o cs) as (acc1 & ps & Hrun & Hu1). destruct (IH (i + 1) acc1 (cs ++ ps)) as (acc2 & ps' & Hrun' & Hu2).
  exists acc2, (ps ++ ps'). unfold bind. rewrite Hrun, Hrun', (assoc_L (++)). split; [done|]. by eapply updates_app.
Qed.

(** The objects are applied in order, up to the first that fails. *)
Definition deployed (objs applied : list Object) (err : option Err) : Prop :=
  match err with
  | None => applied = objs ∧ ∀ o, o ∈ objs → apply_object o = None
  | Some _ => ∃ done o rest e, objs = done ++ o :: rest ∧ applied = done ++ [o] ∧ apply_object o = Some e ∧ ∀ o', o' ∈ done → apply_object o' = None
  end.
Lemma DeployObjs_ok objs : ∀ cs, ∃ applied err, DeployObjs objs cs = Ok (err, cs ++ map Apply applied) ∧ deployed objs applied err.
Proof.
  induction objs as [|o objs IH]; intros cs; cbn [DeployObjs]; [exists [], None; rewrite app_nil_r; split; [done|]; split; [done|set_solver]|].
  unfold bind, call, modify. destruct (apply_object o) as [e|] eqn:Eo.
  - eexists [o], _. split; [done|]. exists [], o, objs, e. split_and!; [done..|set_solver].
  - destruct (IH (cs ++ [Apply o])) as (applied & err & -> & Hd). exists (o :: applied), err. rewrite <-(assoc_L (++)). split; [done|].
    destruct err as [e|]; cbn in *; [|destruct Hd as [-> ?]; split; [done|set_solver]].
    destruct Hd as (pre & o' & rest & e' & -> & -> & He & Hall). exists (o :: pre), o', rest, e'. split_and!; [done..|set_solver].
Qed.

(** C17. Reconciling a Gateway: without its namespace's consent, or when it is gone or being
    deleted, nothing is written; otherwise, when its objects can be computed, its addresses
    are patched exactly from the Services it controls, the objects are applied in order up
    to the first failure, the proxy syncer is kicked when all are, and the request is
    repeated when a Service or a patch failed. *)
Theorem Reconcile_exact req cs :
  (∀ gw, to_deploy req gw → ∀ objs, GetObjsToDeploy json_Marshal Render inputs (fg_gateway gw) = Ok (inr objs) →
     ∃ requeue err ps applied, Reconcile json_Marshal Render autoProvision inputs req cs =
         Ok ((requeue, err), cs ++ ps ++ map Apply applied ++ (if err is None then [Kicked] else [])) ∧
       updates_ok (fg_gateway gw) objs false requeue ps ∧ deployed objs applied err) ∧
  (∀ gw, to_deploy req gw → ∀ e, GetObjsToDeploy json_Marshal Render inputs (fg_gateway gw) = Ok (inl e) →
     Reconcile json_Marshal Render autoProvision inputs req cs = Ok ((false, Some e), cs)) ∧
  ((¬ ∃ gw, to_deploy req gw) → ∃ err, Reconcile json_Marshal Render autoProvision inputs req cs = Ok ((false, err), cs)).
Proof.
  unfold Reconcile, to_deploy. split_and!.
  - intros gw (ann & -> & Henabled & -> & ->) objs Ho.
    assert (negb autoProvision && negb (bool_decide (ann !! GatewayAutoDeployAnnotationKey = Some "true")) = false) as ->.
    { destruct Henabled as [->|He]; [done|]. rewrite bool_decide_eq_true_2 by done. by rewrite andb_false_r. }
    unfold bind at 1, lift_res. rewrite Ho. destruct (update_all_ok (fg_gateway gw) objs 0 (false, fg_addresses gw) cs) as ([requeue addrs] & ps & Hrun & Hu).
    unfold bind at 1. rewrite Hrun. destruct (DeployObjs_ok objs (cs ++ ps)) as (applied & err & Hdep & Hd). unfold bind at 1. rewrite Hdep.
    exists requeue, err, ps, applied. split; [|done]. destruct err as [e|]; cbn; by rewrite ?app_nil_r, <-?(assoc_L (++)).
  - intros gw (ann & -> & Henabled & -> & ->) e Ho.
    assert (negb autoProvision && negb (bool_decide (ann !! GatewayAutoDeployAnnotationKey = Some "true")) = false) as ->.
    { destruct Henabled as [->|He]; [done|]. rewrite bool_decide_eq_true_2 by done. by rewrite andb_false_r. }
    unfold bind, lift_res. by rewrite Ho.
  - intros Hno. destruct (get_namespace_annotations (nn_ns req)) as [e|ann]; [eauto|].
    destruct (negb autoProvision && negb (bool_decide (ann !! GatewayAutoDeployAnnotationKey = Some "true"))) eqn:Hen; [eauto|].
    destruct (get_gateway req) as [e|gw]; [eauto|]. destruct (fg_deleted gw) eqn:Hdel; [eauto|]. exfalso. apply Hno. exists gw, ann. split_and!; [done| |done..].
    apply andb_false_iff in Hen as [?%negb_false_iff|?%negb_false_iff%bool_decide_eq_true]; auto.
Qed.
End Facts.

(** ** A cluster *)
#[local] Existing Instance ex_core.
#[local] Existing Instance list_order.
Definition ex_deployer : DeployerClient := ex_client ex_class_params (ex_params "own" None).
#[local] Existing Instance ex_deployer.
Definition ex_service : Service := {|
  sv_controller := Some "1"; sv_Type := "LoadBalancer"; sv_Ingress := [("gw.example.com", "192.0.2.1")]; sv_ClusterIPs := ["10.0.0.7"]; sv_ClusterIP := "10.0.0.7" |}.
Definition ex_addresses : list Address := [
  {| ad_Type := HostnameAddressType; ad_Value := "gw.example.com" |}; {| ad_Type := IPAddressType; ad_Value := "192.0.2.1" |}].
(** The addresses of the Gateway are the desired ones already. *)
Definition ex_reconciler (auto_deploy : string) (service : Service) : ReconcilerClient := {|
  get_namespace_annotations := λ _, inr {[GatewayAutoDeployAnnotationKey := auto_deploy]};
  get_gateway := λ _, inr {| fg_gateway := ex_gw; fg_deleted := false; fg_addresses := ex_addresses |};
  get_service := λ _, inr service;
  patch_addresses := λ _ addresses, inr addresses;
  apply_object := λ _, None; gvk_String := ob_kind |}.
Definition ex_objects (name ns : string) (v : helmGateway) : Err + list Object :=
  inr [{| ob_kind := "Service"; ob_name := name; ob_namespace := ""; ob_owners := []; ob_content := "" |};
       {| ob_kind := "Deployment"; ob_name := name; ob_namespace := ""; ob_owners := []; ob_content := "" |}].
Definition ex_req : NamespacedName := {| nn_ns := "infra"; nn_name := "gw" |}.
Definition ex_run (auto_deploy : string) (service : Service) : res ((bool * option Err) * list Call) :=
  let _ := ex_reconciler auto_deploy service in Reconcile (λ _, inr "{}") ex_objects false ex_inputs ex_req [].

(** The owned Service's addresses are patched although the Gateway has them already. *)
Example equal_addresses_are_patched : ∃ applied,
  ex_run "true" ex_service = Ok ((false, None), PatchAddresses ex_req ex_addresses :: map Apply applied ++ [Kicked]) ∧ length applied = 2.
Proof. eexists [_; _]. vm_compute. done. Qed.
Example another_owner_is_ignored : ∃ applied,
  ex_run "true" {| sv_controller := Some "2"; sv_Type := "ClusterIP"; sv_Ingress := []; sv_ClusterIPs := ["10.0.0.7"]; sv_ClusterIP := "" |}
    = Ok ((false, None), map Apply applied ++ [Kicked]) ∧ length applied = 2.
Proof. eexists [_; _]. vm_compute. done. Qed.
Example not_enabled : ex_run "false" ex_service = Ok ((false, None), []).
Proof. reflexivity. Qed.

Lemma Reconcile_exact_witness :
  ∃ objs requeue err ps applied, ex_run "true" ex_service = Ok ((requeue, err), ps ++ map Apply applied ++ (if err is None then [Kicked] else [])) ∧
    deployed (H1 := ex_reconciler "true" ex_service) objs applied err ∧ length objs = 2 ∧ PatchAddresses ex_req ex_addresses ∈ ps.
Proof.
  destruct (Reconcile_exact (H1 := ex_reconciler "true" ex_service) (λ _, inr "{}") ex_objects false ex_inputs ex_req []) as [H _].
  destruct (GetObjsToDeploy (λ _, inr "{}") ex_objects ex_inputs ex_gw) as [[e|objs]|?|] eqn:Eo; try (vm_compute in Eo; discriminate).
  destruct (H {| fg_gateway := ex_gw; fg_deleted := false; fg_addresses := ex_addresses |}) with (objs := objs) as (requeue & err & ps & applied & Hrun & (_ & Hall & _) & Hd).
  - eexists. split_and!; [reflexivity|right; vm_compute; reflexivity|done|done].
  - done.
  - exists objs, requeue, err, ps, applied. split_and!; [exact Hrun|done|vm_compute in Eo; injection Eo as <-; reflexivity|].
    vm_compute in Eo. injection Eo as <-. eapply (Hall _ ex_service); [left|split_and!|]; done.
Defined.
