(* ===== verification/EdgeApi.v ===== *)
(** * Gloo's own gateway API: virtual services, route tables, option objects

    gateway/api/v1/*.proto and gloo/api/v1/core/matchers. The translation of virtual
    services mutates option objects through shared pointers, those of the snapshot
    included: option objects and their transformation stages live in a [Store]. Route
    tables are compared by pointer: [rt_ptr] is the identity of a table. The headers, query
    parameters and methods of a matcher are lists in resources and in the proxy, and slices
    of shared [Arrays] while routes are converted, where the code appends to slices that
    several routes hold: matchers and routes are parameterised by the type of these slices. *)

From stdpp Require Import base gmap strings list fin_maps.
From Stdlib Require Import ZArith.
From S2P Require Import Prelude GoLib GwApi.

(** ** Pointers to mutable objects *)
Abbreviation ptr := positive (only parsing).

(** [RequestResponseTransformations], [TransformationStages] (with the other stages and
    settings), [RouteOptions] and [VirtualHostOptions] (with their other set fields). *)
Record Transformations := { tf_request : list string; tf_response : list string }.
Record Stages := {
  sg_inherit : bool; sg_regular : option ptr; sg_early : option ptr; sg_other : gmap string string }.
Record Options := { op_staged : option ptr; op_fields : gmap string string }.

(** ** Metadata and references *)
Record Metadata := {
  md_name : string; md_namespace : string; md_generation : Z;
  md_labels : gmap string string; md_annotations : gmap string string }.
Definition md_ref (m : Metadata) : NamespacedName := {| nn_ns := md_namespace m; nn_name := md_name m |}.

(** ** Slices

    A slice of the array number [sl_array], which holds what was written to it. *)
Record Slice (A : Type) := { sl_array : nat; sl_len : nat; sl_cap : nat }.
Arguments sl_array {A} _.
Arguments sl_len {A} _.
Arguments sl_cap {A} _.

(** What lists and slices share: nil and [len]. *)
Class Sliced (S : Type → Type) := { nil_of : ∀ {A}, S A; len_of : ∀ {A}, S A → nat }.
#[export] Instance list_sliced : Sliced list := {| nil_of := @nil; len_of := @length |}.
#[export] Instance slice_sliced : Sliced Slice :=
  {| nil_of := λ A, {| sl_array := 0; sl_len := 0; sl_cap := 0 |}; len_of := @sl_len |}.

(** The capacities that the runtime chooses, by the size of the elements: for the copy of a
    list field of [n > 0] elements by [proto.Clone], and when [append] has to grow a slice of
    capacity [c] to [n] elements. *)
Inductive ElementSize := PointerSize | StringSize.
Class SliceCapacity := {
  cloned_cap : ElementSize → nat → nat;
  grown_cap : ElementSize → nat → nat → nat;
  cloned_cap_le z n : n ≤ cloned_cap z n;
  grown_cap_le z c n : n ≤ grown_cap z c n
}.

(** ** Matchers *)
Module Edge.
(** A [*wrappers.BoolValue]: the code compares some of them by pointer. *)
Record BoolValue := { bv_ptr : positive; bv_value : bool }.
#[export] Instance BoolValue_eq_dec : EqDecision BoolValue.
Proof. solve_decision. Defined.

Inductive PathSpecifier := Matcher_Prefix (s : string) | Matcher_Exact (s : string) | Matcher_Regex (s : string) | Matcher_Connect.
#[export] Instance PathSpecifier_eq_dec : EqDecision PathSpecifier.
Proof. solve_decision. Defined.
Record HeaderMatcher := { hm_name : string; hm_value : string; hm_regex : bool; hm_invert : bool }.
#[export] Instance HeaderMatcher_eq_dec : EqDecision HeaderMatcher.
Proof. solve_decision. Defined.
Record QueryParameterMatcher := { qp_name : string; qp_value : string; qp_regex : bool }.
#[export] Instance QueryParameterMatcher_eq_dec : EqDecision QueryParameterMatcher.
Proof. solve_decision. Defined.

(** [S] is [list], or [Slice] while routes are converted. *)
Record Matcher_of (S : Type → Type) := {
  em_path : option PathSpecifier;
  em_caseSensitive : option BoolValue;
  em_headers : S HeaderMatcher;
  em_queryParameters : S QueryParameterMatcher;
  em_methods : S string
}.
Arguments em_path {S} _.
Arguments em_caseSensitive {S} _.
Arguments em_headers {S} _.
Arguments em_queryParameters {S} _.
Arguments em_methods {S} _.
Abbreviation Matcher := (Matcher_of list).
#[export] Instance Matcher_eq_dec : EqDecision Matcher.
Proof. solve_decision. Defined.

(** The getters return zero values on other path specifiers. *)
Definition GetPrefix {S} (m : Matcher_of S) : string := match em_path m with Some (Matcher_Prefix s) => s | _ => "" end.
Definition GetRegex {S} (m : Matcher_of S) : string := match em_path m with Some (Matcher_Regex s) => s | _ => "" end.

Definition DefaultMatcher {S} `{!Sliced S} : Matcher_of S :=
  {| em_path := Some (Matcher_Prefix "/"); em_caseSensitive := None;
     em_headers := nil_of; em_queryParameters := nil_of; em_methods := nil_of |}.

(** ** Destinations and actions *)
Record Destination := { de_upstream : option NamespacedName; de_other : string }.
Inductive RouteDestination :=
| Single (d : Destination)
| Multi (ds : list Destination)
| OtherDestination (s : string).

Record Expression := { ex_key : string; ex_operator : Z; ex_values : list string }.
Record RouteTableSelector := {
  rs_namespaces : list string; rs_labels : gmap string string; rs_expressions : list Expression }.
Inductive DelegationType := DelegateRef (r : NamespacedName) | DelegateSelector (s : RouteTableSelector).
Record DelegateAction := { da_name : string; da_namespace : string; da_type : option DelegationType }.

Inductive Action :=
| RouteAction (d : RouteDestination)
| RedirectAction (s : string)
| DirectResponseAction (s : string)
| GraphqlApiRef (r : NamespacedName)
| Delegate (a : DelegateAction).

(** ** Routes and the resources that hold them *)
Record Route_of (S : Type → Type) := {
  er_matchers : list (Matcher_of S);
  er_inheritableMatchers : option bool;
  er_inheritablePathMatchers : option bool;
  er_action : option Action;
  er_options : option ptr;
  er_optionRefs : list NamespacedName;
  er_name : string
}.
Arguments er_matchers {S} _.
Arguments er_inheritableMatchers {S} _.
Arguments er_inheritablePathMatchers {S} _.
Arguments er_action {S} _.
Arguments er_options {S} _.
Arguments er_optionRefs {S} _.
Arguments er_name {S} _.
Abbreviation Route := (Route_of list).

Record RouteTable := { rt_ptr : positive; rt_meta : Metadata; rt_routes : list Route; rt_weight : option Z }.

Record SslConfig := { ssl_sniDomains : list string; ssl_oneWayTls : option bool; ssl_other : string }.
#[export] Instance SslConfig_eq_dec : EqDecision SslConfig.
Proof. solve_decision. Defined.
Record VirtualHost := {
  vh_domains : list string; vh_routes : list Route; vh_options : option ptr; vh_optionRefs : list NamespacedName }.
Record VirtualService := { vs_meta : Metadata; vs_host : option VirtualHost; vs_ssl : option SslConfig }.

(** RouteOption and VirtualHostOption resources. *)
Record OptionResource := { or_ref : NamespacedName; or_options : option ptr }.

(** [HttpListenerOptions]: the translation overwrites the connection manager settings. *)
Record HttpListenerOptions := { lo_hcm : option string; lo_other : string }.
#[export] Instance HttpListenerOptions_eq_dec : EqDecision HttpListenerOptions.
Proof. solve_decision. Defined.

(** ** Gateways *)
Record HttpGateway := {
  hg_virtualServices : list NamespacedName;
  hg_selector : option (gmap string string);
  hg_expressions : option (list Expression);
  hg_namespaces : list string;
  hg_options : option ptr
}.
Record TcpHost := { th_name : string; th_ssl : option SslConfig; th_other : string }.
Record TcpGateway := { tg_options : string; tg_tcpHosts : list TcpHost }.

(** The matcher of a matched or matchable gateway; a missing one reads as an empty one. *)
Record GatewayMatcher := {
  mt_sslConfig : option SslConfig; mt_sourcePrefixRanges : list string; mt_passthroughCipherSuites : list string }.
Inductive MatchedGatewayType := MatchedHttp (h : HttpGateway) | MatchedTcp (t : TcpGateway).
Record MatchedGateway := { mg_matcher : GatewayMatcher; mg_type : option MatchedGatewayType }.

Record Selector := { se_namespaces : list string; se_labels : gmap string string; se_expressions : list Expression }.
Record DelegatedHttpGateway := {
  dh_ref : option NamespacedName; dh_selector : Selector; dh_sslConfig : option SslConfig;
  dh_hcm : option string; dh_preventChildOverrides : bool }.
Record DelegatedTcpGateway := { dt_ref : option NamespacedName; dt_selector : Selector }.
Record HybridGateway := {
  hy_matchedGateways : option (list MatchedGateway);
  hy_delegatedHttpGateways : option DelegatedHttpGateway;
  hy_delegatedTcpGateways : option DelegatedTcpGateway }.
Record MatchableHttpGateway := { mh_meta : Metadata; mh_matcher : GatewayMatcher; mh_httpGateway : HttpGateway }.
Record MatchableTcpGateway := { mc_meta : Metadata; mc_matcher : GatewayMatcher; mc_tcpGateway : TcpGateway }.

Inductive GatewayType := HttpGatewayType (h : HttpGateway) | TcpGatewayType (t : TcpGateway) | HybridGatewayType (h : HybridGateway).
(** [gw_settings]: options, route options and proxy protocol, copied to the listener. *)
Record Gateway := {
  gw_meta : Metadata; gw_bindAddress : string; gw_bindPort : N; gw_ssl : bool;
  gw_type : option GatewayType; gw_settings : string }.

(** Virtual services are written to, hence pointers. *)
Record ApiSnapshot := {
  sn_gateways : list Gateway;
  sn_httpGateways : list MatchableHttpGateway;
  sn_tcpGateways : list MatchableTcpGateway;
  sn_virtualServices : list ptr;
  sn_routeTables : list RouteTable;
  sn_routeOptions : list OptionResource;
  sn_virtualHostOptions : list OptionResource
}.

Record Store := {
  s_transformations : gmap positive Transformations;
  s_stages : gmap positive Stages;
  s_options : gmap positive Options;
  s_listenerOptions : gmap positive HttpListenerOptions;
  s_virtualServices : gmap positive VirtualService;
  (** the next pointer to a fresh object *)
  s_next : positive
}.

(** ** Outputs *)
Inductive Resource := RGateway (g : Metadata) | RVirtualService (v : Metadata) | RRouteTable (t : Metadata).
Definition resource_meta (r : Resource) : Metadata :=
  match r with RGateway m | RVirtualService m | RRouteTable m => m end.

(** [SourceRef]: reference, kind, observed generation. *)
Record SourceRef := { src_ref : NamespacedName; src_kind : string; src_generation : Z }.

Record GlooRoute_of (S : Type → Type) := {
  or_matchers : list (Matcher_of S); or_opts : option ptr; or_name : string; or_action : Action; or_sources : list SourceRef }.
Arguments or_matchers {S} _.
Arguments or_opts {S} _.
Arguments or_name {S} _.
Arguments or_action {S} _.
Arguments or_sources {S} _.
Abbreviation GlooRoute := (GlooRoute_of list).
Record GlooVirtualHost := {
  ov_name : string; ov_domains : list string; ov_routes : list GlooRoute; ov_options : option ptr; ov_sources : list SourceRef }.

Record HttpListener := { hl_virtualHosts : list GlooVirtualHost; hl_options : option ptr }.
Record TcpListener := { tl_options : string; tl_tcpHosts : list TcpHost }.
Inductive MatchedListenerType := MatchedListener_HttpListener (l : HttpListener) | MatchedListener_TcpListener (l : TcpListener).
Record MatchedListener := {
  ml_matcher : GatewayMatcher; ml_sslConfigurations : list SslConfig; ml_type : option MatchedListenerType }.
Record MatchedTcpListener := { mtl_matcher : GatewayMatcher; mtl_listener : TcpListener }.
Record HttpFilterChain := { fc_matcher : option GatewayMatcher; fc_httpOptionsRef : string; fc_virtualHostRefs : list string }.
Record AggregateListener := {
  al_virtualHosts : gmap string GlooVirtualHost; al_httpOptions : gmap string (option ptr);
  al_httpFilterChains : list HttpFilterChain; al_tcpListeners : list MatchedTcpListener }.
Inductive ListenerType :=
| Listener_HttpListener (l : HttpListener)
| Listener_TcpListener (l : TcpListener)
| Listener_HybridListener (l : list MatchedListener)
| Listener_AggregateListener (l : AggregateListener).
Record EdgeListener := {
  el_name : string; el_bindAddress : string; el_bindPort : N; el_settings : string;
  el_type : ListenerType; el_sslConfigurations : list SslConfig; el_sources : list SourceRef }.
Record EdgeProxy := { px_name : string; px_namespace : string; px_listeners : list EdgeListener }.

(** ** Errors *)
Inductive EdgeErr :=
| NoActionErr
| InternalDelegationErr
| MatcherCountErr
| MissingPrefixErr
| InvalidPrefix (required got : string)
| InvalidCaseSensitive (got required : option BoolValue)
| InvalidHeaders (required got : list HeaderMatcher)
| InvalidQueryParams (required got : list QueryParameterMatcher)
| InvalidMethods (required got : list string)
| DelegationCycleErr (tables : list NamespacedName)
| OnSubRouteTable (t : NamespacedName) (e : EdgeErr)
| ListNotFound (ref : NamespacedName)
| RouteTableMissingWarning (ref : NamespacedName)
| NoMatchingRouteTablesWarning
| MissingRefAndSelectorWarning
| RouteTableSelectorExpressionsAndLabelsWarning
| RouteTableSelectorInvalidExpressionWarning (msg : string)
| SelectorInvalidExpressionWarning (msg : string)
| VirtualServiceSelectorInvalidExpressionWarning (msg : string)
| NoVirtualHostErr (vs : NamespacedName)
| InvalidRegexErr (vs : NamespacedName) (msg : string)
| DomainInOtherVirtualServicesErr (domain : string) (others : list NamespacedName)
| GatewayHasConflictingVirtualServicesErr (domains : list string)
| ConflictingMatcherErr (vh : string) (m : Matcher)
| UnorderedPrefixErr (vh prefix : string) (m : Matcher)
| UnorderedRegexErr (vh regex : string) (m : Matcher)
| InvalidVirtualServiceRef (vs : NamespacedName)
| BindAddressNotUnique (addr : string) (gws : list NamespacedName)
| MissingGatewayTypeErr
| EmptyHybridGateway
| ConflictingSniDomains (hosts : list string).

(** [ResourceReports]: what is reported on each resource, in order. *)
Inductive Report := RepError (r : Resource) (e : EdgeErr) | RepWarning (r : Resource) (e : EdgeErr).

(** ** State

    Besides the store, the arrays that slices of matchers share. *)
Record Arrays := {
  ar_headers : list (list HeaderMatcher);
  ar_queryParameters : list (list QueryParameterMatcher);
  ar_methods : list (list string)
}.
Record State := { st_store : Store; st_reports : list Report; st_arrays : Arrays }.

Definition report (r : Report) : M State unit :=
  modify (λ s, {| st_store := st_store s; st_reports := st_reports s ++ [r]; st_arrays := st_arrays s |}).
Definition set_store (h : Store) (s : State) : State :=
  {| st_store := h; st_reports := st_reports s; st_arrays := st_arrays s |}.
Definition with_store {A} (f : Store → A * Store) : M State A := λ s,
  let '(a, h) := f (st_store s) in Ok (a, set_store h s).

(** The arrays of elements of one type. *)
Class Element (A : Type) := {
  element_size : ElementSize;
  arrays_of : Arrays → list (list A);
  set_arrays : list (list A) → Arrays → Arrays
}.
#[export] Instance header_element : Element HeaderMatcher := {|
  element_size := PointerSize; arrays_of := ar_headers;
  set_arrays := λ l ar, {| ar_headers := l; ar_queryParameters := ar_queryParameters ar; ar_methods := ar_methods ar |} |}.
#[export] Instance query_element : Element QueryParameterMatcher := {|
  element_size := PointerSize; arrays_of := ar_queryParameters;
  set_arrays := λ l ar, {| ar_headers := ar_headers ar; ar_queryParameters := l; ar_methods := ar_methods ar |} |}.
#[export] Instance method_element : Element string := {|
  element_size := StringSize; arrays_of := ar_methods;
  set_arrays := λ l ar, {| ar_headers := ar_headers ar; ar_queryParameters := ar_queryParameters ar; ar_methods := l |} |}.

Section Slices.
Context {A : Type} `{!Element A, !SliceCapacity}.

Definition contents (ar : Arrays) (s : Slice A) : list A :=
  take (sl_len s) (default [] (arrays_of ar !! sl_array s)).

(** The copy of a list field: nil when it is empty. *)
Definition clone_slice (l : list A) : M State (Slice A) := λ s,
  let ar := st_arrays s in
  match l with
  | [] => Ok (nil_of, s)
  | _ => Ok ({| sl_array := length (arrays_of ar); sl_len := length l; sl_cap := cloned_cap element_size (length l) |},
             {| st_store := st_store s; st_reports := st_reports s; st_arrays := set_arrays (arrays_of ar ++ [l]) ar |})
  end.

(** [append(s, new...)]: into the array of [s] when it has room. *)
Definition append_arrays (s : Slice A) (new : list A) (ar : Arrays) : Slice A * Arrays :=
  let n := sl_len s + length new in
  if n <=? sl_cap s
  then ({| sl_array := sl_array s; sl_len := n; sl_cap := sl_cap s |},
        set_arrays (alter (λ c, take (sl_len s) c ++ new ++ drop n c) (sl_array s) (arrays_of ar)) ar)
  else ({| sl_array := length (arrays_of ar); sl_len := n; sl_cap := grown_cap element_size (sl_cap s) n |},
        set_arrays (arrays_of ar ++ [contents ar s ++ new]) ar).
Definition append_slice (s : Slice A) (new : list A) : M State (Slice A) := λ st,
  let '(s, ar) := append_arrays s new (st_arrays st) in
  Ok (s, {| st_store := st_store st; st_reports := st_reports st; st_arrays := ar |}).
End Slices.

(** What matchers and routes mean with the arrays as they are. *)
Definition matcher_value (ar : Arrays) (m : Matcher_of Slice) : Matcher :=
  {| em_path := em_path m; em_caseSensitive := em_caseSensitive m; em_headers := contents ar (em_headers m);
     em_queryParameters := contents ar (em_queryParameters m); em_methods := contents ar (em_methods m) |}.
Definition route_value (ar : Arrays) (r : GlooRoute_of Slice) : GlooRoute :=
  {| or_matchers := map (matcher_value ar) (or_matchers r); or_opts := or_opts r; or_name := or_name r;
     or_action := or_action r; or_sources := or_sources r |}.
End Edge.
