(* ===== verification/RouteConverter.v ===== *)
(** * gateway/pkg/translator/converter.go: a virtual service and its route tables become routes

    With route_table_selector.go, route_table_indexer.go, config_source.go and gloo's
    utils/sort_routes.go, utils/paths.go and utils/merge.go. Kubernetes' label selectors
    are the interface [Labels]. Routes are cloned into ones whose matchers hold slices, which
    delegation extends with [append]. The traversal of route tables recurs on fuel: the number
    of tables is enough, as no branch visits a table twice. *)

From stdpp Require Import base gmap strings list fin_maps.
From Stdlib Require Import ZArith.
From S2P Require Import Prelude GoLib GwApi EdgeApi.
Import Edge.

(** [k8s.io/apimachinery/pkg/labels] *)
Class Labels := {
  SelectorFromSet : gmap string string → gmap string string → bool;
  NewRequirement : Expression → string + (gmap string string → bool)
}.

Module Stores.
(** ** Pointers and options *)
Definition load_transformations (p : positive) (h : Store) : Transformations :=
  default {| tf_request := []; tf_response := [] |} (s_transformations h !! p).
Definition load_stages (p : positive) (h : Store) : Stages :=
  default {| sg_inherit := false; sg_regular := None; sg_early := None; sg_other := ∅ |} (s_stages h !! p).
Definition load_options (p : positive) (h : Store) : Options :=
  default {| op_staged := None; op_fields := ∅ |} (s_options h !! p).

Definition set_transformations (p : positive) (t : Transformations) (h : Store) : Store :=
  {| s_transformations := <[p := t]> (s_transformations h); s_stages := s_stages h; s_options := s_options h;
     s_listenerOptions := s_listenerOptions h; s_virtualServices := s_virtualServices h; s_next := s_next h |}.
Definition set_stages (p : positive) (t : Stages) (h : Store) : Store :=
  {| s_transformations := s_transformations h; s_stages := <[p := t]> (s_stages h); s_options := s_options h;
     s_listenerOptions := s_listenerOptions h; s_virtualServices := s_virtualServices h; s_next := s_next h |}.
Definition set_options (p : positive) (o : Options) (h : Store) : Store :=
  {| s_transformations := s_transformations h; s_stages := s_stages h; s_options := <[p := o]> (s_options h);
     s_listenerOptions := s_listenerOptions h; s_virtualServices := s_virtualServices h; s_next := s_next h |}.
Definition set_listenerOptions (p : positive) (o : HttpListenerOptions) (h : Store) : Store :=
  {| s_transformations := s_transformations h; s_stages := s_stages h; s_options := s_options h;
     s_listenerOptions := <[p := o]> (s_listenerOptions h); s_virtualServices := s_virtualServices h; s_next := s_next h |}.
Definition set_virtualService (p : positive) (v : VirtualService) (h : Store) : Store :=
  {| s_transformations := s_transformations h; s_stages := s_stages h; s_options := s_options h;
     s_listenerOptions := s_listenerOptions h; s_virtualServices := <[p := v]> (s_virtualServices h); s_next := s_next h |}.
Definition fresh (h : Store) : positive * Store :=
  (s_next h, {| s_transformations := s_transformations h; s_stages := s_stages h; s_options := s_options h;
                s_listenerOptions := s_listenerOptions h; s_virtualServices := s_virtualServices h;
                s_next := Pos.succ (s_next h) |}).

(** [proto.Clone] of a pointed-to object: a deep copy. *)
Definition clone_transformations (p : positive) (h : Store) : positive * Store :=
  let '(q, h1) := fresh h in (q, set_transformations q (load_transformations p h) h1).

Definition clone_opt (clone : positive → Store → positive * Store) (p : option positive) (h : Store) :
    option positive * Store :=
  match p with
  | None => (None, h)
  | Some p => let '(q, h) := clone p h in (Some q, h)
  end.

Definition clone_stages (p : positive) (h : Store) : positive * Store :=
  let s := load_stages p h in
  let '(regular, h) := clone_opt clone_transformations (sg_regular s) h in
  let '(early, h) := clone_opt clone_transformations (sg_early s) h in
  let '(q, h) := fresh h in
  (q, set_stages q {| sg_inherit := sg_inherit s; sg_regular := regular; sg_early := early; sg_other := sg_other s |} h).

Definition clone_options (p : positive) (h : Store) : positive * Store :=
  let o := load_options p h in
  let '(staged, h) := clone_opt clone_stages (op_staged o) h in
  let '(q, h) := fresh h in
  (q, set_options q {| op_staged := staged; op_fields := op_fields o |} h).

(** [ShallowMergeRouteOptions] and [ShallowMergeVirtualHostOptions] of gloo's
    utils/merge.go: [dst] is written in place, field by field; set fields are kept. *)
Definition ShallowMergeOptions (dst src : option positive) (h : Store) : (option positive * bool) * Store :=
  match src with
  | None => ((dst, false), h)
  | Some s =>
      match dst with
      | None => let '(q, h) := clone_options s h in ((Some q, true), h)
      | Some d =>
          let od := load_options d h in
          let os := load_options s h in
          let o := {| op_staged := if op_staged od is Some _ then op_staged od else op_staged os;
                      op_fields := op_fields od ∪ op_fields os |} in
          ((dst, negb (bool_decide (op_staged o = op_staged od)) || negb (bool_decide (op_fields o = op_fields od))),
           set_options d o h)
      end
  end.

(** [options.GetStagedTransformations()], nil-safe. *)
Definition GetStagedTransformations (options : option positive) (h : Store) : option positive :=
  options ≫= λ p, op_staged (load_options p h).
Definition GetInheritTransformation (stages : option positive) (h : Store) : bool :=
  match stages with Some p => sg_inherit (load_stages p h) | None => false end.

(** The pointer [*childTransformationsPtr] afterwards. *)
Definition mergeTransformations (child parent : option positive) (h : Store) : option positive * Store :=
  match parent with
  | None => (child, h)
  | Some pp =>
      match child with
      | None => (Some pp, h)
      | Some c =>
          let tc := load_transformations c h in
          let h := set_transformations c {| tf_request := tf_request tc;
                                            tf_response := tf_response tc ++ tf_response (load_transformations pp h) |} h in
          let tc := load_transformations c h in
          (Some c, set_transformations c {| tf_request := tf_request tc ++ tf_request (load_transformations pp h);
                                            tf_response := tf_response tc |} h)
      end
  end.

(** Only called when the child's stages exist. *)
Definition inheritStagedTransformations (childOptions : option positive) (parentStages : option positive) (h : Store) :
    unit * Store :=
  match GetStagedTransformations childOptions h with
  | None => (tt, h)
  | Some c =>
      let '(regular, h) := mergeTransformations (sg_regular (load_stages c h))
                             (parentStages ≫= λ p, sg_regular (load_stages p h)) h in
      let s := load_stages c h in
      let h := set_stages c {| sg_inherit := sg_inherit s; sg_regular := regular; sg_early := sg_early s; sg_other := sg_other s |} h in
      let '(early, h) := mergeTransformations (sg_early (load_stages c h))
                           (parentStages ≫= λ p, sg_early (load_stages p h)) h in
      let s := load_stages c h in
      (tt, set_stages c {| sg_inherit := sg_inherit s; sg_regular := sg_regular s; sg_early := early; sg_other := sg_other s |} h)
  end.

(** [proto.Clone] of a route: wrappers get fresh pointers, and lists become slices of their own. *)
Definition clone_bool (b : option BoolValue) (h : Store) : option BoolValue * Store :=
  match b with
  | None => (None, h)
  | Some b => let '(q, h) := fresh h in (Some {| bv_ptr := q; bv_value := bv_value b |}, h)
  end.

Section Clone.
Context `{!SliceCapacity}.

Definition clone_matcher (m : Matcher) : M State (Matcher_of Slice) :=
  caseSensitive <~ with_store (clone_bool (em_caseSensitive m)) ;;
  headers <~ clone_slice (em_headers m) ;;
  queryParameters <~ clone_slice (em_queryParameters m) ;;
  methods <~ clone_slice (em_methods m) ;;
  ret {| em_path := em_path m; em_caseSensitive := caseSensitive; em_headers := headers;
         em_queryParameters := queryParameters; em_methods := methods |}.

Definition clone_route (r : Route) : M State (Route_of Slice) :=
  ms <~ fold_range 0 (er_matchers r) [] (λ _ m acc, m <~ clone_matcher m ;; ret (acc ++ [m])) ;;
  options <~ with_store (clone_opt clone_options (er_options r)) ;;
  ret {| er_matchers := ms; er_inheritableMatchers := er_inheritableMatchers r;
         er_inheritablePathMatchers := er_inheritablePathMatchers r; er_action := er_action r;
         er_options := options; er_optionRefs := er_optionRefs r; er_name := er_name r |}.
End Clone.
End Stores.
Export Stores.

(** ** paths.go, sort_routes.go *)
Module SortRoutes.
Section Sort.
Context {S : Type → Type} `{!Sliced S}.

Definition PathAsString (m : Matcher_of S) : string :=
  match em_path m with
  | Some (Matcher_Prefix s) | Some (Matcher_Exact s) | Some (Matcher_Regex s) => s
  | _ => ""
  end.

Definition pathTypePriority (m : Matcher_of S) : nat :=
  match em_path m with
  | Some (Matcher_Exact _) => 1
  | Some (Matcher_Regex _) => 2
  | Some (Matcher_Prefix _) => 3
  | _ => 0
  end.

Definition lessMatcher (m1 m2 : Matcher_of S) : bool :=
  if negb (len_of (em_methods m1) =? len_of (em_methods m2)) then len_of (em_methods m2) <? len_of (em_methods m1)
  else if negb (pathTypePriority m1 =? pathTypePriority m2) then pathTypePriority m1 <? pathTypePriority m2
  else string_lt (PathAsString m2) (PathAsString m1).

Definition getSmallestOrDefaultMatcher (ms : list (Matcher_of S)) : Matcher_of S :=
  let smallest := match ms with m :: _ => m | [] => DefaultMatcher end in
  foldl (λ smallest m, if lessMatcher m smallest then m else smallest) smallest ms.

Definition less_route (r1 r2 : GlooRoute_of S) : bool :=
  lessMatcher (getSmallestOrDefaultMatcher (or_matchers r1)) (getSmallestOrDefaultMatcher (or_matchers r2)).

Definition SortRoutesByPath (routes : list (GlooRoute_of S)) : list (GlooRoute_of S) := sort_stable less_route routes.
End Sort.
End SortRoutes.
Export SortRoutes.

(** ** config_source.go *)
Module ConfigSource.
Definition kind_of (r : Resource) : string :=
  match r with RGateway _ => "*v1.Gateway" | RVirtualService _ => "*v1.VirtualService" | RRouteTable _ => "*v1.RouteTable" end.
Definition makeSourceRef (source : Resource) : SourceRef :=
  {| src_ref := md_ref (resource_meta source); src_kind := kind_of source; src_generation := md_generation (resource_meta source) |}.
(** [appendSource] on a route or virtual host, whose static metadata is a list of sources. *)
Definition append_route_source {S} (source : Resource) (r : GlooRoute_of S) : GlooRoute_of S :=
  {| or_matchers := or_matchers r; or_opts := or_opts r; or_name := or_name r; or_action := or_action r;
     or_sources := or_sources r ++ [makeSourceRef source] |}.
End ConfigSource.
Export ConfigSource.

(** ** route_table_indexer.go *)
Module Indexer.
Definition weight_of (rt : RouteTable) : Z := default 0%Z (rt_weight rt).

Definition byWeight (routeTables : list RouteTable) : gmap Z (list RouteTable) :=
  foldl (λ m rt, <[weight_of rt := default [] (m !! weight_of rt) ++ [rt]]> m) ∅ routeTables.

Definition IndexByWeight `{!GoRange Z} (routeTables : list RouteTable) : gmap Z (list RouteTable) * list Z :=
  (byWeight routeTables, sort_stable Z.ltb (map fst (go_range (byWeight routeTables)))).
End Indexer.
Export Indexer.

(** ** route_table_selector.go *)
Module Selector.
Section Select.
Context `{!Labels}.

Definition find_table (tables : list RouteTable) (ref : NamespacedName) : option RouteTable :=
  List.find (λ t, bool_decide (md_ref (rt_meta t) = ref)) tables.

Definition getRouteTableRef (delegate : DelegateAction) : option NamespacedName :=
  if negb (bool_decide (da_namespace delegate = "")) || negb (bool_decide (da_name delegate = ""))
  then Some {| nn_ns := da_namespace delegate; nn_name := da_name delegate |}
  else match da_type delegate with Some (DelegateRef r) => Some r | _ => None end.

(** The requirements of the expressions in order, or the error [wrap] of the first invalid one. *)
Fixpoint requirements (wrap : string → EdgeErr) (es : list Expression) : EdgeErr + list (gmap string string → bool) :=
  match es with
  | [] => inr []
  | e :: es =>
      match NewRequirement e with
      | inl msg => inl (wrap msg)
      | inr r => match requirements wrap es with
                 | inl e => inl e
                 | inr rs => inr (r :: rs)
                 end
      end
  end.

Definition RouteTableLabelsMatchesExpressionRequirements (rs : list (gmap string string → bool)) (l : gmap string string) : bool :=
  forallb (λ r, r l) rs.

Definition RouteTablesForSelector (routeTables : list RouteTable) (selector : RouteTableSelector) (ownerNamespace : string) :
    EdgeErr + list RouteTable :=
  let all := existsb (λ ns, bool_decide (ns = "*")) (rs_namespaces selector) in
  let ns_matches (ns : string) : bool :=
    if all then true
    else match rs_namespaces selector with
         | [] => bool_decide (ns = ownerNamespace)
         | l => existsb (λ n, bool_decide (n = ns)) l
         end in
  let no_labels := bool_decide (rs_labels selector = ∅) in
  match rs_expressions selector with
  | (_ :: _) as es =>
      if negb no_labels then inl RouteTableSelectorExpressionsAndLabelsWarning else
      match requirements RouteTableSelectorInvalidExpressionWarning es with
      | inl e => inl e
      | inr rs => inr (List.filter (λ c, RouteTableLabelsMatchesExpressionRequirements rs (md_labels (rt_meta c)) &&
                                        ns_matches (md_namespace (rt_meta c))) routeTables)
      end
  | [] => inr (List.filter (λ c, (no_labels || SelectorFromSet (rs_labels selector) (md_labels (rt_meta c))) &&
                                ns_matches (md_namespace (rt_meta c))) routeTables)
  end.

Definition SelectRouteTables (toSearch : list RouteTable) (action : DelegateAction) (parentNamespace : string) :
    EdgeErr + list RouteTable :=
  match getRouteTableRef action with
  | Some ref => match find_table toSearch ref with
                | Some rt => inr [rt]
                | None => inl (RouteTableMissingWarning ref)
                end
  | None =>
      match da_type action with
      | Some (DelegateSelector rtSelector) =>
          match RouteTablesForSelector toSearch rtSelector parentNamespace with
          | inl e => inl e
          | inr [] => inl NoMatchingRouteTablesWarning
          | inr rts => inr rts
          end
      | _ => inl MissingRefAndSelectorWarning
      end
  end.
End Select.
End Selector.
Export Selector.

(** ** converter.go *)
Module Converter.
(** What a delegating route passes to the routes of its tables. *)
Record routeInfo_of (S : Type → Type) := {
  ri_matcher : Matcher_of S;
  ri_options : option positive;
  ri_name : string;
  ri_hasName : bool;
  ri_inheritableMatchers : bool;
  ri_inheritablePathMatchers : bool
}.
Arguments ri_matcher {S} _.
Arguments ri_options {S} _.
Arguments ri_name {S} _.
Arguments ri_hasName {S} _.
Arguments ri_inheritableMatchers {S} _.
Arguments ri_inheritablePathMatchers {S} _.
Abbreviation routeInfo := (routeInfo_of Slice).

Definition UnnamedRoute (index : nat) : string := "<unnamed-" +:+ itoa index +:+ ">".

Definition routeName (resource : Resource) (gateway : Gateway) (proxyName : string) (route : Route_of Slice)
    (parent : option routeInfo) (index : nat) : string * bool :=
  let prefix := match parent with Some p => ri_name p +:+ "_" | None => "" end in
  let kind := match resource with
              | RVirtualService _ => "vs:" +:+ md_name (gw_meta gateway) +:+ "_" +:+ proxyName +:+ "_"
              | RRouteTable _ => "rt:"
              | RGateway _ => ""
              end in
  let display := if bool_decide (er_name route = "") then UnnamedRoute index else er_name route in
  (prefix +:+ kind +:+ md_namespace (resource_meta resource) +:+ "_" +:+ md_name (resource_meta resource) +:+ "_route:" +:+ display,
   negb (bool_decide (er_name route = "")) || match parent with Some p => ri_hasName p | None => false end).

Definition convertSimpleAction (r : Route_of Slice) : EdgeErr + GlooRoute_of Slice :=
  let matchers := match er_matchers r with [] => [DefaultMatcher] | ms => ms end in
  let out a := inr {| or_matchers := matchers; or_opts := er_options r; or_name := er_name r; or_action := a; or_sources := [] |} in
  match er_action r with
  | Some (Delegate _) => inl InternalDelegationErr
  | Some a => out a
  | None => inl NoActionErr
  end.

(** Tables are compared by pointer. *)
Definition checkForCycles (toVisit : RouteTable) (visited : list RouteTable) : option EdgeErr :=
  if existsb (λ t, bool_decide (rt_ptr toVisit = rt_ptr t)) visited
  then Some (DelegationCycleErr (map (λ t, md_ref (rt_meta t)) (visited ++ [toVisit])))
  else None.

Definition getDelegateRouteMatcher {S} `{!Sliced S} (r : Route_of S) : EdgeErr + Matcher_of S :=
  match er_matchers r with
  | [] => inr DefaultMatcher
  | [m] => match em_path m with
           | None => inr DefaultMatcher
           | Some _ => if bool_decide (GetPrefix m = "") then inl MissingPrefixErr else inr m
           end
  | _ => inl MatcherCountErr
  end.

Definition set_path {S} (p : Matcher_of S) (m : Matcher_of S) : Matcher_of S :=
  {| em_path := em_path p; em_caseSensitive := em_caseSensitive p; em_headers := em_headers m;
     em_queryParameters := em_queryParameters m; em_methods := em_methods m |}.
Definition path_only {S} `{!Sliced S} (p : Matcher_of S) : Matcher_of S :=
  {| em_path := em_path p; em_caseSensitive := em_caseSensitive p;
     em_headers := nil_of; em_queryParameters := nil_of; em_methods := nil_of |}.

(** [childHeaderNameToHeader[name]]: the last header of that name. *)
Definition last_header (name : string) (hs : list HeaderMatcher) : option HeaderMatcher :=
  List.find (λ h, bool_decide (hm_name h = name)) (rev hs).
Definition last_query (name : string) (qs : list QueryParameterMatcher) : option QueryParameterMatcher :=
  List.find (λ q, bool_decide (qp_name q = name)) (rev qs).

(** The checks on one matcher of the child, in order: the first that fails. *)
Definition check_matcher (parent m : Matcher) : option EdgeErr :=
  if negb (has_prefix (PathAsString m) (GetPrefix parent)) then Some (InvalidPrefix (GetPrefix parent) (PathAsString m))
  else if negb (bool_decide (option_map bv_value (em_caseSensitive m) = option_map bv_value (em_caseSensitive parent)))
  then Some (InvalidCaseSensitive (em_caseSensitive m) (em_caseSensitive parent))
  else if negb (forallb (λ h, bool_decide (last_header (hm_name h) (em_headers m) = Some h)) (em_headers parent))
  then Some (InvalidHeaders (em_headers parent) (em_headers m))
  else if negb (forallb (λ q, bool_decide (last_query (qp_name q) (em_queryParameters m) = Some q)) (em_queryParameters parent))
  then Some (InvalidQueryParams (em_queryParameters parent) (em_queryParameters m))
  else if negb (forallb (λ x, existsb (λ y, bool_decide (x = y)) (em_methods m)) (em_methods parent))
  then Some (InvalidMethods (em_methods parent) (em_methods m))
  else None.

Fixpoint isRouteTableValidForDelegateMatcher (parent : Matcher) (ms : list Matcher) : option EdgeErr :=
  match ms with
  | [] => None
  | m :: ms => match check_matcher parent m with
               | Some e => Some e
               | None => isRouteTableValidForDelegateMatcher parent ms
               end
  end.

(** The child's matchers, with the parent's path when path matchers are inherited. *)
Definition path_matchers {S} `{!Sliced S} (child : Route_of S) (parent : routeInfo_of S) : list (Matcher_of S) :=
  let ms := if default (ri_inheritablePathMatchers parent) (er_inheritablePathMatchers child)
            then match er_matchers child with
                 | [] => [path_only (ri_matcher parent)]
                 | ms => map (set_path (ri_matcher parent)) ms
                 end
            else er_matchers child in
  match ms with [] => [DefaultMatcher] | _ => ms end.

Section Merge.
Context `{!SliceCapacity}.

(** [append(s, t...)] *)
Definition go_append {A} `{!Element A} (s t : Slice A) : M State (Slice A) :=
  new <~ gets (λ st, contents (st_arrays st) t) ;; append_slice s new.

(** The child's headers, methods and query parameters are appended to the parent's slices,
    which all children of the parent share. *)
Definition add_matchers (p m : Matcher_of Slice) : M State (Matcher_of Slice) :=
  headers <~ go_append (em_headers p) (em_headers m) ;;
  methods <~ go_append (em_methods p) (em_methods m) ;;
  queryParameters <~ go_append (em_queryParameters p) (em_queryParameters m) ;;
  ret {| em_path := em_path m; em_caseSensitive := em_caseSensitive m; em_headers := headers;
         em_queryParameters := queryParameters; em_methods := methods |}.

Definition inherit_matchers (child : Route_of Slice) (parent : routeInfo) : M State (list (Matcher_of Slice)) :=
  if default (ri_inheritableMatchers parent) (er_inheritableMatchers child)
  then fold_range 0 (path_matchers child parent) [] (λ _ m acc, m <~ add_matchers (ri_matcher parent) m ;; ret (acc ++ [m]))
  else ret (path_matchers child parent).

Definition validateAndMergeParentRoute (child : Route_of Slice) (parent : routeInfo) : M State (EdgeErr + Route_of Slice) :=
  ms <~ inherit_matchers child parent ;;
  do! with_store (λ h, if GetInheritTransformation (GetStagedTransformations (er_options child) h) h
                       then inheritStagedTransformations (er_options child) (GetStagedTransformations (ri_options parent) h) h
                       else (tt, h)) ;;
  invalid <~ gets (λ s, isRouteTableValidForDelegateMatcher (matcher_value (st_arrays s) (ri_matcher parent))
                          (map (matcher_value (st_arrays s)) ms)) ;;
  match invalid with
  | Some e => ret (inl e)
  | None =>
      options <~ with_store (ShallowMergeOptions (er_options child) (ri_options parent)) ;;
      ret (inr {| er_matchers := ms;
                  er_inheritableMatchers := Some (default (ri_inheritableMatchers parent) (er_inheritableMatchers child));
                  er_inheritablePathMatchers :=
                    Some (default (ri_inheritablePathMatchers parent) (er_inheritablePathMatchers child));
                  er_action := er_action child; er_options := options.1; er_optionRefs := er_optionRefs child;
                  er_name := er_name child |})
  end.
End Merge.

(** [reporterHelper]: what happens to a route table is also reported on the virtual
    service at the top. *)
Definition addError (top : Metadata) (r : Resource) (e : EdgeErr) : M State unit :=
  do! report (RepError r e) ;;
  match r with
  | RRouteTable t => report (RepError (RVirtualService top) (OnSubRouteTable (md_ref t) e))
  | _ => ret tt
  end.
Definition addWarning (top : Metadata) (r : Resource) (e : EdgeErr) : M State unit :=
  do! report (RepWarning r e) ;;
  match r with
  | RRouteTable t => report (RepWarning (RVirtualService top) (OnSubRouteTable (md_ref t) e))
  | _ => ret tt
  end.

Definition default_upstream (ns : string) (d : Destination) : Destination :=
  match de_upstream d with
  | Some u => if bool_decide (nn_ns u = "") then {| de_upstream := Some {| nn_ns := ns; nn_name := nn_name u |}; de_other := de_other d |}
              else d
  | None => d
  end.
Definition default_upstreams (ns : string) (a : option Action) : option Action :=
  match a with
  | Some (RouteAction (Single d)) => Some (RouteAction (Single (default_upstream ns d)))
  | Some (RouteAction (Multi ds)) => Some (RouteAction (Multi (map (default_upstream ns) ds)))
  | _ => a
  end.

Definition with_options (r : Route_of Slice) (options : option positive) : Route_of Slice :=
  {| er_matchers := er_matchers r; er_inheritableMatchers := er_inheritableMatchers r;
     er_inheritablePathMatchers := er_inheritablePathMatchers r; er_action := er_action r;
     er_options := options; er_optionRefs := er_optionRefs r; er_name := er_name r |}.
Definition with_name (r : Route_of Slice) (name : string) : Route_of Slice :=
  {| er_matchers := er_matchers r; er_inheritableMatchers := er_inheritableMatchers r;
     er_inheritablePathMatchers := er_inheritablePathMatchers r; er_action := er_action r;
     er_options := er_options r; er_optionRefs := er_optionRefs r; er_name := name |}.
Definition with_action (r : Route_of Slice) (a : option Action) : Route_of Slice :=
  {| er_matchers := er_matchers r; er_inheritableMatchers := er_inheritableMatchers r;
     er_inheritablePathMatchers := er_inheritablePathMatchers r; er_action := a;
     er_options := er_options r; er_optionRefs := er_optionRefs r; er_name := er_name r |}.

Section Visit.
Context `{!Labels, !GoRange Z, !SliceCapacity}.
Context (snapshot : ApiSnapshot) (gateway : Gateway) (proxyName : string).
(** The virtual service at the top: its metadata and the options of its virtual host. *)
Context (top : Metadata) (topOptions : option positive).

Definition find_options (l : list OptionResource) (ref : NamespacedName) : option OptionResource :=
  List.find (λ o, bool_decide (or_ref o = ref)) l.

(** Merging the delegated options: a route without options takes those of the first
    RouteOption by pointer. *)
Definition merge_delegated (resource : Resource) (r : Route_of Slice) : M State (Route_of Slice) :=
  fold_range 0 (er_optionRefs r) r (λ _ optionRef r,
    match find_options (sn_routeOptions snapshot) optionRef with
    | None => do! addWarning top resource (ListNotFound optionRef) ;; ret r
    | Some o =>
        match er_options r with
        | None => ret (with_options r (or_options o))
        | Some _ => m <~ with_store (ShallowMergeOptions (er_options r) (or_options o)) ;; ret (with_options r m.1)
        end
    end).

(** The parent's contribution; [None]: the route is dropped with a warning. *)
Definition merge_parent (resource : Resource) (r : Route_of Slice) (parentRoute : option routeInfo) : M State (option (Route_of Slice)) :=
  match parentRoute with
  | Some parent =>
      m <~ validateAndMergeParentRoute r parent ;;
      match m with
      | inl e => do! addWarning top resource e ;; ret None
      | inr r => ret (Some r)
      end
  | None =>
      do! with_store (λ h, if GetInheritTransformation (GetStagedTransformations (er_options r) h) h
                           then inheritStagedTransformations (er_options r) (GetStagedTransformations topOptions h) h
                           else (tt, h)) ;;
      ret (Some r)
  end.

Definition convert_route (resource : Resource) (r : Route_of Slice) (hasName : bool) : M State (list (GlooRoute_of Slice)) :=
  let r := if hasName then r else with_name r "" in
  let r := with_action r (default_upstreams (md_namespace (resource_meta resource)) (er_action r)) in
  match convertSimpleAction r with
  | inl e => do! addError top resource e ;; ret []
  | inr g => ret [g]
  end.

(** A resource with routes: a virtual service or a route table. *)
Definition Visit : Type := Resource → list Route → option routeInfo → list RouteTable → M State (list (GlooRoute_of Slice)).

Definition delegate_route (rec : Visit) (resource : Resource) (r : Route_of Slice) (name : string) (hasName : bool)
    (action : DelegateAction) (visited : list RouteTable) : M State (list (GlooRoute_of Slice)) :=
  match getDelegateRouteMatcher r with
  | inl e => do! addError top resource e ;; ret []
  | inr delegateMatcher =>
      match SelectRouteTables (sn_routeTables snapshot) action (md_namespace (resource_meta resource)) with
      | inl e => do! addWarning top resource e ;; ret []
      | inr routeTables =>
          let '(routeTablesByWeight, sortedWeights) := IndexByWeight routeTables in
          let info := {| ri_matcher := delegateMatcher; ri_options := er_options r; ri_name := name; ri_hasName := hasName;
                         ri_inheritableMatchers := default false (er_inheritableMatchers r);
                         ri_inheritablePathMatchers := default false (er_inheritablePathMatchers r) |} in
          fold_range 0 sortedWeights [] (λ _ weight routes,
            let tables := default [] (routeTablesByWeight !! weight) in
            rtRoutes <~ fold_range 0 tables [] (λ _ routeTable rtRoutes,
              match checkForCycles routeTable visited with
              | Some e => do! addError top (RRouteTable (rt_meta routeTable)) e ;; ret rtRoutes
              | None =>
                  sub <~ rec (RRouteTable (rt_meta routeTable)) (rt_routes routeTable) (Some info) (visited ++ [routeTable]) ;;
                  ret (rtRoutes ++ sub)
              end) ;;
            ret (routes ++ (if 1 <? length tables then SortRoutesByPath rtRoutes else rtRoutes)))
      end
  end.

Definition visit_route (rec : Visit) (resource : Resource) (parentRoute : option routeInfo) (visited : list RouteTable)
    (idx : nat) (gatewayRoute : Route) : M State (list (GlooRoute_of Slice)) :=
  routeClone <~ clone_route gatewayRoute ;;
  let '(name, hasName) := routeName resource gateway proxyName routeClone parentRoute idx in
  r <~ merge_delegated resource (with_name routeClone name) ;;
  m <~ merge_parent resource r parentRoute ;;
  match m with
  | None => ret []
  | Some r =>
      match er_action r with
      | Some (Delegate action) => delegate_route rec resource r name hasName action visited
      | _ => convert_route resource r hasName
      end
  end.

Fixpoint visit (fuel : nat) : Visit := λ resource routes parentRoute visited,
  match fuel with
  | O => no_fuel
  | S fuel =>
      out <~ fold_range 0 routes [] (λ idx gatewayRoute acc,
        rs <~ visit_route (visit fuel) resource parentRoute visited idx gatewayRoute ;;
        ret (acc ++ rs)) ;;
      ret (map (append_route_source resource) out)
  end.

Definition ConvertVirtualService (fuel : nat) (routes : list Route) : M State (list (GlooRoute_of Slice)) :=
  visit fuel (RVirtualService top) routes None [].
End Visit.
End Converter.
