(* ===== verification/RouteConverterFacts.v ===== *)
(** * Properties of the route converter *)

From stdpp Require Import base gmap strings list fin_maps sets sorting.
From Stdlib Require Import ZArith Lia.
From S2P Require Import Prelude GoLib GwApi EdgeApi RouteConverter.
Import Edge Converter.

(** ** The state only accumulates reports

    and keeps virtual services and listener options. *)
Definition frame (h : Store) : gmap positive HttpListenerOptions * gmap positive VirtualService :=
  (s_listenerOptions h, s_virtualServices h).
Definition grows (s s' : State) : Prop :=
  (∃ l, st_reports s' = st_reports s ++ l) ∧ frame (st_store s') = frame (st_store s).

#[export] Instance grows_preorder : PreOrder grows.
Proof.
  split; [by split; [exists []; rewrite app_nil_r|]|]. intros a b c [[l1 E1] F1] [[l2 E2] F2].
  split; [|congruence]. exists (l1 ++ l2). by rewrite E2, E1, (assoc_L (++)).
Qed.
Lemma grows_store s h : frame h = frame (st_store s) → grows s (set_store h s).
Proof. split; [|done]. exists []. by rewrite app_nil_r. Qed.
Lemma grows_report s r : grows s {| st_store := st_store s; st_reports := st_reports s ++ [r]; st_arrays := st_arrays s |}.
Proof. split; [|done]. by exists [r]. Qed.
Lemma grows_arrays s ar : grows s {| st_store := st_store s; st_reports := st_reports s; st_arrays := ar |}.
Proof. split; [|done]. exists []. by rewrite app_nil_r. Qed.

Lemma frame_transformations p t h : frame (set_transformations p t h) = frame h.
Proof. done. Qed.
Lemma frame_stages p t h : frame (set_stages p t h) = frame h.
Proof. done. Qed.
Lemma frame_options p o h : frame (set_options p o h) = frame h.
Proof. done. Qed.

Lemma frame_clone_transformations p h : frame (clone_transformations p h).2 = frame h.
Proof. done. Qed.
Lemma frame_clone_opt clone p h : (∀ q h, frame (clone q h).2 = frame h) → frame (clone_opt clone p h).2 = frame h.
Proof. intros Hc. destruct p as [p|]; [|done]. simpl. specialize (Hc p h). by destruct (clone p h). Qed.
Lemma frame_clone_stages p h : frame (clone_stages p h).2 = frame h.
Proof.
  unfold clone_stages. pose proof (frame_clone_opt clone_transformations (sg_regular (load_stages p h)) h frame_clone_transformations).
  destruct (clone_opt _ (sg_regular _) h) as [r h1]. simpl in *.
  pose proof (frame_clone_opt clone_transformations (sg_early (load_stages p h)) h1 frame_clone_transformations).
  destruct (clone_opt _ (sg_early _) h1) as [e h2]. simpl in *. unfold frame in *. simpl. congruence.
Qed.
Lemma frame_clone_options p h : frame (clone_options p h).2 = frame h.
Proof.
  unfold clone_options. pose proof (frame_clone_opt clone_stages (op_staged (load_options p h)) h frame_clone_stages).
  destruct (clone_opt _ _ h) as [r h1]. simpl in *. unfold frame in *. simpl. congruence.
Qed.
Lemma frame_merge dst src h : frame (ShallowMergeOptions dst src h).2 = frame h.
Proof.
  unfold ShallowMergeOptions. destruct src as [p|]; [|done]. destruct dst as [d|]; [done|].
  pose proof (frame_clone_options p h). by destruct (clone_options p h).
Qed.
Lemma frame_mergeTransformations c p h : frame (mergeTransformations c p h).2 = frame h.
Proof. by destruct c, p. Qed.
Lemma frame_inherit o p h : frame (inheritStagedTransformations o p h).2 = frame h.
Proof.
  unfold inheritStagedTransformations. destruct (GetStagedTransformations o h) as [c|]; [|done].
  match goal with |- context [mergeTransformations ?a ?b ?c] =>
    pose proof (frame_mergeTransformations a b c); destruct (mergeTransformations a b c) as [r h1] end. simpl in *.
  match goal with |- context [mergeTransformations ?a ?b ?c] =>
    pose proof (frame_mergeTransformations a b c); destruct (mergeTransformations a b c) as [e h2] end. simpl in *.
  unfold frame in *. simpl in *. congruence.
Qed.
Lemma frame_clone_bool b h : frame (clone_bool b h).2 = frame h.
Proof. by destruct b. Qed.
#[export] Hint Resolve grows_store grows_report grows_arrays frame_merge frame_inherit frame_clone_bool : gw.

Lemma wp_with_store {A} (f : Store → A * Store) Q s :
  Q (f (st_store s)).1 (set_store (f (st_store s)).2 s) → wp (with_store f) Q s.
Proof. unfold wp, with_store. by destruct (f (st_store s)). Qed.

Lemma wp_edge_report r Q s :
  Q tt {| st_store := st_store s; st_reports := st_reports s ++ [r]; st_arrays := st_arrays s |} → wp (report r) Q s.
Proof. done. Qed.

Lemma wp_addError top r e Q s : (∀ s', grows s s' → st_arrays s' = st_arrays s → Q tt s') → wp (addError top r e) Q s.
Proof.
  intros HQ. unfold addError. wp_step. apply wp_edge_report. destruct r; [apply wp_ret, HQ; auto with gw..|].
  apply wp_edge_report, HQ; [|done]. split; [|done].
  by exists [RepError (RRouteTable t) e; RepError (RVirtualService top) (OnSubRouteTable (md_ref t) e)]; simpl; rewrite <-(assoc_L (++)).
Qed.
Lemma wp_addWarning top r e Q s : (∀ s', grows s s' → st_arrays s' = st_arrays s → Q tt s') → wp (addWarning top r e) Q s.
Proof.
  intros HQ. unfold addWarning. wp_step. apply wp_edge_report. destruct r; [apply wp_ret, HQ; auto with gw..|].
  apply wp_edge_report, HQ; [|done]. split; [|done].
  by exists [RepWarning (RRouteTable t) e; RepWarning (RVirtualService top) (OnSubRouteTable (md_ref t) e)]; simpl; rewrite <-(assoc_L (++)).
Qed.

(** ** Matchers of delegated routes *)

(** What a table's matcher must have of the matcher it is delegated from. *)
Record refines (p m : Matcher) : Prop := {
  rf_path : has_prefix (PathAsString m) (GetPrefix p) = true;
  rf_case : option_map bv_value (em_caseSensitive m) = option_map bv_value (em_caseSensitive p);
  rf_headers h : h ∈ em_headers p → h ∈ em_headers m;
  rf_queries q : q ∈ em_queryParameters p → q ∈ em_queryParameters m;
  rf_methods x : x ∈ em_methods p → x ∈ em_methods m
}.

Lemma find_last_elem {A} (f : A → bool) l x : List.find f (rev l) = Some x → x ∈ l.
Proof. intros [Hin _]%List.find_some. apply in_rev in Hin. by apply list_elem_of_In. Qed.

Lemma check_matcher_refines p m : check_matcher p m = None → refines p m.
Proof.
  unfold check_matcher. destruct (has_prefix _ _) eqn:Hp; [|done]. simpl. case_bool_decide as Hc; [|done]. simpl.
  destruct (forallb _ (em_headers p)) eqn:Hh; [|done]. destruct (forallb _ (em_queryParameters p)) eqn:Hq; [|done].
  destruct (forallb _ (em_methods p)) eqn:Hm; [|done]. intros _.
  rewrite forallb_elem in Hh. rewrite forallb_elem in Hq. rewrite forallb_elem in Hm. split; [done..| | |].
  - intros h Hin. specialize (Hh h Hin). apply bool_decide_eq_true in Hh. by eapply find_last_elem.
  - intros q Hin. specialize (Hq q Hin). apply bool_decide_eq_true in Hq. by eapply find_last_elem.
  - intros x Hin. specialize (Hm x Hin). apply existsb_elem in Hm as (y & Hy & ->%bool_decide_eq_true). done.
Qed.

Lemma valid_refines p ms : isRouteTableValidForDelegateMatcher p ms = None → Forall (refines p) ms.
Proof.
  induction ms as [|m ms IH]; simpl; [constructor|]. destruct (check_matcher p m) eqn:E; [done|]. intros H.
  constructor; [by apply check_matcher_refines|by apply IH].
Qed.

(** A matcher that routes can be delegated from: a non-empty prefix. *)
Definition delegating {S} (m : Matcher_of S) : Prop := GetPrefix m ≠ "" ∧ PathAsString m = GetPrefix m.

Lemma refines_trans p m g : delegating m → refines p m → refines m g → refines p g.
Proof.
  intros [_ Hm] [H1 H2 H3 H4 H5] [G1 G2 G3 G4 G5]. split; [|congruence|auto..].
  rewrite Hm in H1. by eapply has_prefix_trans.
Qed.

Lemma has_prefix_empty s : has_prefix "" s = true → s = "".
Proof. by destruct s. Qed.

Lemma delegate_matcher_spec r m : getDelegateRouteMatcher r = inr m → delegating m ∧
  (∀ p, GetPrefix p ≠ "" → er_matchers r ≠ [] → Forall (refines p) (er_matchers r) → refines p m).
Proof.
  unfold getDelegateRouteMatcher, delegating. destruct (er_matchers r) as [|m0 [|]] eqn:E.
  - intros [= <-]. by split.
  - destruct (em_path m0) as [path|] eqn:Ep.
    + case_bool_decide as Hpre; [done|]. intros [= <-]. split.
      * split; [done|]. unfold GetPrefix, PathAsString in *. rewrite Ep in *. by destruct path.
      * intros p _ _ Hall. by inversion Hall.
    + intros [= <-]. split; [done|]. intros p Hp _ Hall. inversion_clear Hall as [|? ? [Hpath _ _ _ _]].
      unfold PathAsString in Hpath. rewrite Ep in Hpath. by apply has_prefix_empty in Hpath.
  - done.
Qed.

(** ** Selecting and indexing route tables *)
Section Selection.
Context `{!Labels}.

Lemma find_table_elem tables ref t : find_table tables ref = Some t → t ∈ tables ∧ md_ref (rt_meta t) = ref.
Proof. intros [Hin Ht]%List.find_some. apply bool_decide_eq_true in Ht. split; [by apply list_elem_of_In|done]. Qed.

Lemma requirements_spec wrap es : match requirements wrap es with
  | inr rs => Forall2 (λ e r, NewRequirement e = inr r) es rs
  | inl err => ∃ e msg, e ∈ es ∧ NewRequirement e = inl msg ∧ err = wrap msg
  end.
Proof.
  induction es as [|e es IH]; simpl; [constructor|]. destruct (NewRequirement e) as [msg|r] eqn:E.
  { exists e, msg. split_and!; [by left|done|done]. }
  destruct (requirements wrap es) as [err|rs]; [|by constructor].
  destruct IH as (e' & msg & Hin & ? & ->). exists e', msg. split_and!; [by right|done|done].
Qed.

Lemma requirements_match es rs l : Forall2 (λ e r, NewRequirement e = inr r) es rs →
  forallb (λ r : gmap string string → bool, r l) rs = true ↔ ∀ e, e ∈ es → ∃ r, NewRequirement e = inr r ∧ r l = true.
Proof.
  intros Hreq. rewrite forallb_elem. split.
  - intros Hr e He. apply list_elem_of_lookup in He as [i Hi].
    destruct (Forall2_lookup_l _ _ _ _ _ Hreq Hi) as (r & Hr' & Hnew). exists r. split; [done|].
    apply Hr. by eapply list_elem_of_lookup_2.
  - intros He r Hr. apply list_elem_of_lookup in Hr as [i Hi].
    destruct (Forall2_lookup_r _ _ _ _ _ Hreq Hi) as (e & He' & Hnew).
    destruct (He e) as (r' & Hr' & ?); [by eapply list_elem_of_lookup_2|]. congruence.
Qed.

(** What a selector asks of a table. *)
Definition namespace_selected (sel : RouteTableSelector) (owner ns : string) : Prop :=
  "*" ∈ rs_namespaces sel ∨ ns ∈ rs_namespaces sel ∨ rs_namespaces sel = [] ∧ ns = owner.
Definition labels_selected (sel : RouteTableSelector) (l : gmap string string) : Prop :=
  (rs_labels sel ≠ ∅ → SelectorFromSet (rs_labels sel) l = true) ∧
  (∀ e, e ∈ rs_expressions sel → ∃ r, NewRequirement e = inr r ∧ r l = true).
Definition selected (sel : RouteTableSelector) (owner : string) (t : RouteTable) : Prop :=
  namespace_selected sel owner (md_namespace (rt_meta t)) ∧ labels_selected sel (md_labels (rt_meta t)).

(** Selecting tables by label: labels and expressions together, or an invalid expression,
    are an error; otherwise exactly the tables whose labels satisfy the selector and whose
    namespace it covers (the owner's when it names none, any with "*") are returned, in
    the order of the snapshot. *)
Theorem RouteTablesForSelector_exact tables sel owner :
  match RouteTablesForSelector tables sel owner with
  | inr ts => (∀ t, t ∈ ts ↔ t ∈ tables ∧ selected sel owner t) ∧ sublist ts tables
  | inl err => err = RouteTableSelectorExpressionsAndLabelsWarning ∧ rs_labels sel ≠ ∅ ∧ rs_expressions sel ≠ [] ∨
               ∃ e msg, e ∈ rs_expressions sel ∧ NewRequirement e = inl msg ∧ err = RouteTableSelectorInvalidExpressionWarning msg
  end.
Proof.
  unfold RouteTablesForSelector. cbv zeta.
  assert (∀ ns, (if existsb (λ ns, bool_decide (ns = "*")) (rs_namespaces sel) then true
    else match rs_namespaces sel with [] => bool_decide (ns = owner) | l => existsb (λ n, bool_decide (n = ns)) l end) = true ↔
    namespace_selected sel owner ns) as Hns.
  { intros ns. unfold namespace_selected. cbv beta. destruct (existsb (λ ns, bool_decide (ns = "*")) (rs_namespaces sel)) eqn:E.
    - apply existsb_elem in E as (x & Hx & ->%bool_decide_eq_true). by split; [left|].
    - assert ("*" ∉ rs_namespaces sel) as Hstar.
      { intros Hin. assert (existsb (λ ns, bool_decide (ns = "*")) (rs_namespaces sel) = true); [|congruence].
        apply existsb_elem. exists "*". by rewrite bool_decide_eq_true. }
      destruct (rs_namespaces sel) as [|n l] eqn:El; [rewrite bool_decide_eq_true; set_solver|].
      cbv iota. rewrite existsb_elem. setoid_rewrite bool_decide_eq_true. naive_solver. }
  destruct (rs_expressions sel) as [|e es] eqn:Ees.
  - split; [|apply filter_sublist]. intros t. rewrite elem_of_filter_bool, andb_true_iff, orb_true_iff, Hns.
    unfold selected, labels_selected. rewrite Ees, bool_decide_eq_true. split.
    + intros (Ht & Hl & ?). split_and!; [done..| |set_solver]. naive_solver.
    + intros (Ht & ? & Hl & _). split_and!; [done| |done]. destruct (decide (rs_labels sel = ∅)); [by left|right; auto].
  - destruct (decide (rs_labels sel = ∅)) as [Hl|Hl];
      [rewrite (bool_decide_eq_true_2 _ Hl)|rewrite (bool_decide_eq_false_2 _ Hl); by left].
    change (negb true) with false. cbv iota. generalize (requirements_spec RouteTableSelectorInvalidExpressionWarning (e :: es)).
    destruct (requirements _ (e :: es)) as [err|rs]; intros Hreq.
    { destruct Hreq as (e' & msg & ? & ? & ->). right. by exists e', msg. }
    split; [|apply filter_sublist]. intros t. rewrite elem_of_filter_bool, andb_true_iff, Hns.
    unfold selected, labels_selected, RouteTableLabelsMatchesExpressionRequirements.
    rewrite Ees, (requirements_match _ _ _ Hreq). naive_solver.
Qed.
End Selection.

(** ** Sorting by path *)
Section Sorting.
Context {S : Type → Type} `{!Sliced S}.

Definition before (m1 m2 : Matcher_of S) : Prop :=
  len_of (em_methods m2) < len_of (em_methods m1) ∨
  len_of (em_methods m1) = len_of (em_methods m2) ∧
  (pathTypePriority m1 < pathTypePriority m2 ∨
   pathTypePriority m1 = pathTypePriority m2 ∧ String.le (PathAsString m2) (PathAsString m1)).

Lemma lessMatcher_false m1 m2 : lessMatcher m2 m1 = false ↔ before m1 m2.
Proof.
  unfold lessMatcher, before. destruct (Nat.eqb_spec (len_of (em_methods m2)) (len_of (em_methods m1))); simpl;
    [|rewrite Nat.ltb_ge; lia].
  destruct (Nat.eqb_spec (pathTypePriority m2) (pathTypePriority m1)); simpl; [|rewrite Nat.ltb_ge; lia].
  rewrite string_lt_le. split; [right; lia || auto|]; intuition lia.
Qed.

#[export] Instance before_trans : Transitive before.
Proof.
  unfold before. intros a b c [?|(? & [?|(? & Hab)])] [?|(? & [?|(? & Hbc)])]; try (by left; lia);
    try (right; split; [lia|]; by left; lia).
  right. split; [lia|]. right. split; [lia|]. by transitivity (PathAsString b).
Qed.

Lemma before_total m1 m2 : lessMatcher m1 m2 = true → before m1 m2.
Proof.
  intros H. apply lessMatcher_false. destruct (lessMatcher m2 m1) eqn:E; [|done]. revert H E. unfold lessMatcher.
  destruct (Nat.eqb_spec (len_of (em_methods m1)) (len_of (em_methods m2))) as [->|]; simpl.
  - rewrite Nat.eqb_refl. simpl. destruct (Nat.eqb_spec (pathTypePriority m1) (pathTypePriority m2)) as [->|]; simpl.
    + rewrite Nat.eqb_refl. simpl. intros H. by rewrite (string_lt_asym _ _ H).
    + destruct (Nat.eqb_spec (pathTypePriority m2) (pathTypePriority m1)); [lia|]. simpl. rewrite !Nat.ltb_lt. lia.
  - destruct (Nat.eqb_spec (len_of (em_methods m2)) (len_of (em_methods m1))); [lia|]. simpl. rewrite !Nat.ltb_lt. lia.
Qed.

(** An earlier prefix that takes every request of a later, longer one. *)
Definition hides (m1 m2 : Matcher_of S) : Prop :=
  ∃ p t, em_path m1 = Some (Matcher_Prefix p) ∧ em_path m2 = Some (Matcher_Prefix (p +:+ t)) ∧ t ≠ "" ∧
         len_of (em_methods m1) = len_of (em_methods m2).

Lemma string_lt_app p t : t ≠ "" → string_lt p (p +:+ t) = true.
Proof.
  intros Ht. apply string_lt_spec. intros Hle. apply Ht.
  assert (String.le p (p +:+ t)) as Hle'.
  { clear. induction p as [|a p IH]; [by destruct t|]. unfold String.le, String.leb in *. simpl.
    assert (Ascii.compare a a = Eq) as -> by apply N.compare_refl. exact IH. }
  assert (p = p +:+ t) as E by (by apply (anti_symm String.le)).
  clear -E. induction p as [|a p IH]; [by simpl in E|]. injection E as E. by apply IH.
Qed.

Lemma before_hides m1 m2 : before m1 m2 → ¬ hides m1 m2.
Proof.
  intros Hb (p & t & H1 & H2 & Ht & Hlen). apply lessMatcher_false in Hb. revert Hb. unfold lessMatcher.
  rewrite Hlen, Nat.eqb_refl. unfold pathTypePriority, PathAsString. rewrite H1, H2. simpl. by rewrite string_lt_app.
Qed.

Definition smallest (r : GlooRoute_of S) : Matcher_of S := getSmallestOrDefaultMatcher (or_matchers r).

Lemma smallest_spec ms :
  (ms ≠ [] → getSmallestOrDefaultMatcher ms ∈ ms) ∧ Forall (before (getSmallestOrDefaultMatcher ms)) ms.
Proof.
  unfold getSmallestOrDefaultMatcher. destruct ms as [|m0 ms]; [by split|].
  enough (∀ l sm, let r := foldl (λ smallest m, if lessMatcher m smallest then m else smallest) sm l in
    (r = sm ∨ r ∈ l) ∧ before r sm ∧ Forall (before r) l) as H.
  { destruct (H (m0 :: ms) m0) as ([->|] & _ & ?); (split; [intros _; by (left || done)|done]). }
  induction l as [|m l IH]; intros sm; simpl.
  { split_and!; [by left| |constructor]. apply lessMatcher_false. destruct (lessMatcher sm sm) eqn:E; [|done].
    pose proof (proj2 (lessMatcher_false sm sm) (before_total _ _ E)). congruence. }
  destruct (lessMatcher m sm) eqn:E.
  - destruct (IH m) as (Hin & Hm & Hl). apply before_total in E. split_and!; [set_solver|by etrans|by constructor].
  - destruct (IH sm) as (Hin & Hm & Hl). apply lessMatcher_false in E. split_and!; [set_solver|done|].
    constructor; [by etrans|done].
Qed.

(** Sorting routes by path permutes them into the order of their most specific
    matchers: more methods first, then exact before regex before prefix paths, then
    greater path strings first; so no prefix route stands before one with a longer path
    below it and the same number of methods. *)
Theorem SortRoutesByPath_correct routes :
  SortRoutesByPath routes ≡ₚ routes ∧
  StronglySorted (λ r1 r2, before (smallest r1) (smallest r2)) (SortRoutesByPath routes) ∧
  StronglySorted (λ r1 r2, ¬ hides (smallest r1) (smallest r2)) (SortRoutesByPath routes) ∧
  (∀ r, r ∈ routes → Forall (before (smallest r)) (or_matchers r)).
Proof.
  assert (StronglySorted (λ r1 r2, before (smallest r1) (smallest r2)) (SortRoutesByPath routes)) as Hs.
  { unfold SortRoutesByPath. apply sort_stable_sorted.
    - intros a b c. apply before_trans.
    - intros a b. apply before_total.
    - intros a b. apply lessMatcher_false. }
  split_and!; [apply sort_stable_perm|done| |].
  - induction Hs as [|r l Hs IH Hr]; constructor; [done|]. eapply Forall_impl; [exact Hr|]. intros. by apply before_hides.
  - intros r _. apply smallest_spec.
Qed.
End Sorting.

(** ** Indexing by weight *)
Section Index.
Context `{!GoRange Z}.

Lemma byWeight_lookup rts w :
  byWeight rts !! w = match List.filter (λ rt, bool_decide (weight_of rt = w)) rts with [] => None | l => Some l end.
Proof.
  unfold byWeight. induction rts as [|rt rts IH] using rev_ind; [done|]. rewrite foldl_app. simpl.
  rewrite List.filter_app. simpl. set (m := foldl _ ∅ rts) in *. case_bool_decide as Hw.
  - subst w. rewrite lookup_insert_eq, IH. by destruct (List.filter _ rts).
  - rewrite lookup_insert_ne, IH by done. by rewrite app_nil_r.
Qed.

Lemma IndexByWeight_weights rts w : w ∈ (IndexByWeight rts).2 ↔ ∃ rt, rt ∈ rts ∧ weight_of rt = w.
Proof.
  unfold IndexByWeight. simpl. rewrite sort_stable_perm.
  change (map fst) with (fmap (M := list) (@fst Z (list RouteTable))). rewrite list_elem_of_fmap. split.
  - intros ([w' l] & -> & Hl%go_range_elem). simpl. rewrite byWeight_lookup in Hl.
    destruct (List.filter _ rts) as [|rt l'] eqn:E; [done|].
    assert (rt ∈ rts ∧ bool_decide (weight_of rt = w') = true) as [? ?%bool_decide_eq_true].
    { apply (proj1 (elem_of_filter_bool (λ rt, bool_decide (weight_of rt = w')) _ _)). rewrite E. by left. }
    by exists rt.
  - intros (rt & Hrt & Hw). assert (rt ∈ List.filter (λ rt, bool_decide (weight_of rt = w)) rts) as Hf.
    { apply elem_of_filter_bool. by rewrite bool_decide_eq_true. }
    exists (w, List.filter (λ rt, bool_decide (weight_of rt = w)) rts). split; [done|].
    apply go_range_elem. rewrite byWeight_lookup. destruct (List.filter _ rts); [by apply not_elem_of_nil in Hf|done].
Qed.

Lemma IndexByWeight_lookup rts w :
  default [] ((IndexByWeight rts).1 !! w) = List.filter (λ rt, bool_decide (weight_of rt = w)) rts.
Proof. unfold IndexByWeight. simpl. rewrite byWeight_lookup. by destruct (List.filter _ rts). Qed.

(** No table is lost or added. *)
Lemma IndexByWeight_tables rts t :
  t ∈ rts ↔ ∃ w, w ∈ (IndexByWeight rts).2 ∧ t ∈ default [] ((IndexByWeight rts).1 !! w).
Proof.
  setoid_rewrite IndexByWeight_lookup. setoid_rewrite elem_of_filter_bool. setoid_rewrite IndexByWeight_weights.
  setoid_rewrite bool_decide_eq_true. naive_solver.
Qed.

(** Tables are indexed by weight (0 when unset): every weight occurs once, in ascending
    order, with exactly the tables of that weight in their original order. *)
Theorem IndexByWeight_correct rts :
  StronglySorted Z.lt (IndexByWeight rts).2 ∧
  (∀ w, w ∈ (IndexByWeight rts).2 ↔ ∃ rt, rt ∈ rts ∧ weight_of rt = w) ∧
  (∀ w, default [] ((IndexByWeight rts).1 !! w) = List.filter (λ rt, bool_decide (weight_of rt = w)) rts).
Proof.
  split_and!; [|apply IndexByWeight_weights|apply IndexByWeight_lookup].
  unfold IndexByWeight. simpl. set (ws := map fst (go_range (byWeight rts))).
  assert (StronglySorted Z.le (sort_stable Z.ltb ws)) as Hs.
  { apply sort_stable_sorted; [intros ???; lia|intros x y; rewrite Z.ltb_lt; lia|intros x y; rewrite Z.ltb_ge; lia]. }
  assert (NoDup (sort_stable Z.ltb ws)) as Hnd by (rewrite sort_stable_perm; apply go_range_nodup).
  clear -Hs Hnd. induction Hs as [|w l Hs IH Hw]; [constructor|]. apply NoDup_cons in Hnd as [Hn Hnd].
  constructor; [by apply IH|]. apply Forall_forall. intros x Hx. rewrite Forall_forall in Hw. specialize (Hw x Hx).
  assert (x ≠ w) by (by intros ->). lia.
Qed.
End Index.

(** ** Shared arrays *)

(** All arrays are as they were, and there may be more. *)
Definition extends (ar ar' : Arrays) : Prop :=
  ar_headers ar `prefix_of` ar_headers ar' ∧ ar_queryParameters ar `prefix_of` ar_queryParameters ar' ∧
  ar_methods ar `prefix_of` ar_methods ar'.
#[export] Instance extends_preorder : PreOrder extends.
Proof. split; [by intros ar|]. intros a b c (? & ? & ?) (? & ? & ?). split_and!; by etrans. Qed.

(** Every array begins with what it held. *)
Definition kept_arrays {A} (l l' : list (list A)) : Prop :=
  ∀ i c, l !! i = Some c → ∃ c', l' !! i = Some c' ∧ c `prefix_of` c'.
#[export] Instance kept_arrays_preorder A : PreOrder (@kept_arrays A).
Proof.
  split; [by intros l i c ?; exists c|]. intros l1 l2 l3 H1 H2 i c (c2 & Hc2 & ?)%H1.
  apply H2 in Hc2 as (c3 & ? & ?). exists c3. split; [done|by etrans].
Qed.
Definition preserves (ar ar' : Arrays) : Prop :=
  kept_arrays (ar_headers ar) (ar_headers ar') ∧ kept_arrays (ar_queryParameters ar) (ar_queryParameters ar') ∧
  kept_arrays (ar_methods ar) (ar_methods ar').
#[export] Instance preserves_preorder : PreOrder preserves.
Proof. split; [by intros ar|]. intros a b c (? & ? & ?) (? & ? & ?). split_and!; by etrans. Qed.

(** The arrays of one type can be replaced alone. *)
Class ElementLaws (A : Type) `{!Element A} := {
  arrays_of_set l ar : arrays_of (set_arrays l ar) = l;
  extends_arrays ar ar' : extends ar ar' → arrays_of ar `prefix_of` arrays_of ar';
  extends_set l ar : arrays_of ar `prefix_of` l → extends ar (set_arrays l ar);
  preserves_arrays ar ar' : preserves ar ar' → kept_arrays (arrays_of ar) (arrays_of ar');
  preserves_set l ar0 ar : preserves ar0 ar → kept_arrays (arrays_of ar0) l → preserves ar0 (set_arrays l ar)
}.
Ltac solve_element :=
  first [done|by intros ar ar' (? & ? & ?)|by intros l ar ?; split_and!|by intros l ar0 ar (? & ? & ?) ?; split_and!].
#[export] Instance header_laws : ElementLaws HeaderMatcher.
Proof. split; solve_element. Qed.
#[export] Instance query_laws : ElementLaws QueryParameterMatcher.
Proof. split; solve_element. Qed.
#[export] Instance method_laws : ElementLaws string.
Proof. split; solve_element. Qed.

Section Slices.
Context `{!SliceCapacity}.

(** Slices of [n] elements have no room for more, however they came to be. *)
Definition roomless (n : nat) : Prop :=
  n = 0 ∨ ∀ z, cloned_cap z n = n ∧ ∀ c, c < n → grown_cap z c n = n.

Section Element.
Context {A : Type} `{!Element A, !ElementLaws A}.
Implicit Types (s : Slice A) (ar : Arrays) (st : State).

(** A slice of all that was written to its array, with no more room than its length forces. *)
Definition settled ar s : Prop :=
  (sl_len s = 0 ∧ sl_cap s = 0 ∨ ∃ c, arrays_of ar !! sl_array s = Some c ∧ length c = sl_len s) ∧
  (roomless (sl_len s) → sl_cap s = sl_len s).

Lemma settled_extends ar ar' s : extends ar ar' → settled ar s → settled ar' s ∧ contents ar' s = contents ar s.
Proof.
  intros Hx%(extends_arrays (A := A)) [[[Hl Hc]|(c & Hc & Hl)] Hr].
  - split; [by split; [left|]|]. unfold contents. by rewrite Hl.
  - assert (arrays_of ar' !! sl_array s = Some c) as Hc' by by eapply prefix_lookup_Some.
    split; [split; [right; by exists c|done]|]. unfold contents. by rewrite Hc, Hc'.
Qed.
Lemma settled_preserves ar ar' s : preserves ar ar' → settled ar s → contents ar' s = contents ar s.
Proof.
  intros Hx%(preserves_arrays (A := A)) [[[Hl _]|(c & Hc & Hl)] _]; unfold contents; [by rewrite Hl|].
  destruct (Hx _ _ Hc) as (c' & Hc' & k & ->). rewrite Hc, Hc'. simpl. by rewrite <-Hl, take_app_length, take_ge.
Qed.
Lemma settled_length ar s : settled ar s → length (contents ar s) = sl_len s.
Proof.
  intros [[[Hl _]|(c & Hc & Hl)] _]; unfold contents; [by rewrite Hl|]. rewrite Hc. simpl. rewrite length_take. lia.
Qed.
Lemma nil_settled ar : settled ar nil_of.
Proof. split; [by left|done]. Qed.
Lemma nil_contents ar : contents ar (nil_of : Slice A) = [].
Proof. done. Qed.

Lemma clone_slice_ok (l : list A) st :
  wp (clone_slice l) (λ s st', grows st st' ∧ extends (st_arrays st) (st_arrays st') ∧ settled (st_arrays st') s ∧
                              contents (st_arrays st') s = l) st.
Proof.
  unfold clone_slice. destruct l as [|a l]; unfold wp; [split_and!; [done|done|apply nil_settled|done]|].
  split_and!; [apply grows_arrays|apply extends_set; by eexists| |]; simpl.
  - split; simpl.
    + right. exists (a :: l). rewrite arrays_of_set, lookup_app_r by lia. by rewrite Nat.sub_diag.
    + by intros [?|Hroom]; [|apply Hroom].
  - unfold contents. simpl. rewrite arrays_of_set, lookup_app_r, Nat.sub_diag by lia. simpl. by rewrite firstn_all.
Qed.

(** Appending to a slice without room leaves all arrays alone. *)
Lemma append_arrays_ok s new ar : settled ar s → roomless (sl_len s) →
  extends ar (append_arrays s new ar).2 ∧ settled (append_arrays s new ar).2 (append_arrays s new ar).1 ∧
  contents (append_arrays s new ar).2 (append_arrays s new ar).1 = contents ar s ++ new.
Proof.
  intros Hs Hr. pose proof (settled_length _ _ Hs) as Hlen. destruct Hs as [Hs Hcap]. specialize (Hcap Hr).
  unfold append_arrays. rewrite Hcap. destruct (Nat.leb_spec (sl_len s + length new) (sl_len s)) as [Hle|Hgt]; simpl.
  - assert (new = []) as -> by (apply nil_length_inv; lia). simpl. rewrite Nat.add_0_r.
    assert (alter (λ c, take (sl_len s) c ++ drop (sl_len s) c) (sl_array s) (arrays_of ar) = arrays_of ar) as ->.
    { apply list_eq. intros i. destruct (decide (sl_array s = i)) as [<-|].
      - rewrite list_lookup_alter_eq. destruct (arrays_of ar !! sl_array s); simpl; [|done]. by rewrite take_drop.
      - by rewrite list_lookup_alter_ne. }
    assert (extends ar (set_arrays (arrays_of ar) ar)) as Hx by by apply extends_set.
    destruct s as [a n cap]. simpl in *. subst cap.
    assert (settled ar ({| sl_array := a; sl_len := n; sl_cap := n |} : Slice A)) as Hset by by split.
    destruct (settled_extends _ _ _ Hx Hset) as [? ->]. rewrite app_nil_r. by split_and!.
  - split_and!; [apply extends_set; by eexists| |].
    + split; simpl.
      * right. exists (contents ar s ++ new). rewrite arrays_of_set, lookup_app_r, Nat.sub_diag by lia.
        rewrite length_app. split; [done|lia].
      * intros [?|Hroom]; [lia|]. apply Hroom. lia.
    + unfold contents at 1. simpl. rewrite arrays_of_set, lookup_app_r, Nat.sub_diag by lia. simpl.
      apply take_ge. rewrite length_app. lia.
Qed.

(** Appending to any slice of all of an array only writes beyond it. *)
Lemma append_arrays_preserves ar0 s new ar : settled ar0 s → preserves ar0 ar → preserves ar0 (append_arrays s new ar).2.
Proof.
  intros [Hs _] Hp. pose proof (preserves_arrays _ _ Hp) as Hk.
  unfold append_arrays. destruct (Nat.leb_spec (sl_len s + length new) (sl_cap s)) as [Hle|Hgt]; apply preserves_set; try done.
  - intros i c Hc. destruct (Hk i c Hc) as (c' & Hc' & Hpre). destruct (decide (sl_array s = i)) as [<-|Hne].
    + rewrite list_lookup_alter_eq, Hc'. eexists. split; [done|]. destruct Hs as [[Hl Hcap]|(c0 & Hc0 & Hl)].
      * assert (new = []) as -> by (apply nil_length_inv; lia). by rewrite Hl.
      * assert (c0 = c) as -> by congruence. destruct Hpre as [k ->]. rewrite <-Hl, take_app_length. by eexists.
    + rewrite list_lookup_alter_ne by done. by exists c'.
  - intros i c Hc. destruct (Hk i c Hc) as (c' & Hc' & Hpre). exists c'. split; [by apply lookup_app_l_Some|done].
Qed.
End Element.
End Slices.

(** ** Pointers do not matter to matchers *)
Definition strip (m : Matcher) : Matcher :=
  {| em_path := em_path m;
     em_caseSensitive := option_map (λ b, {| bv_ptr := 1; bv_value := bv_value b |}) (em_caseSensitive m);
     em_headers := em_headers m; em_queryParameters := em_queryParameters m; em_methods := em_methods m |}.
(** A route without its pointers: matchers, inheritance flags and action. *)
Definition bare (r : Route) : Route :=
  {| er_matchers := map strip (er_matchers r); er_inheritableMatchers := er_inheritableMatchers r;
     er_inheritablePathMatchers := er_inheritablePathMatchers r; er_action := er_action r;
     er_options := None; er_optionRefs := []; er_name := "" |}.
(** What a delegating route passes on, as values. *)
Abbreviation info := (routeInfo_of list).
Definition bare_info (p : info) : info :=
  {| ri_matcher := strip (ri_matcher p); ri_options := None; ri_name := ""; ri_hasName := false;
     ri_inheritableMatchers := ri_inheritableMatchers p; ri_inheritablePathMatchers := ri_inheritablePathMatchers p |}.
(** Routes and contributions with the lists that their slices are now. *)
Definition listed (ar : Arrays) (r : Route_of Slice) : Route :=
  {| er_matchers := map (matcher_value ar) (er_matchers r); er_inheritableMatchers := er_inheritableMatchers r;
     er_inheritablePathMatchers := er_inheritablePathMatchers r; er_action := er_action r;
     er_options := er_options r; er_optionRefs := er_optionRefs r; er_name := er_name r |}.
Definition listed_info (ar : Arrays) (p : routeInfo) : info :=
  {| ri_matcher := matcher_value ar (ri_matcher p); ri_options := ri_options p; ri_name := ri_name p; ri_hasName := ri_hasName p;
     ri_inheritableMatchers := ri_inheritableMatchers p; ri_inheritablePathMatchers := ri_inheritablePathMatchers p |}.

(** The matchers a child is meant to have: the parent's headers, query parameters and
    methods followed by its own, where it inherits them. *)
Definition with_parent (p m : Matcher) : Matcher :=
  {| em_path := em_path m; em_caseSensitive := em_caseSensitive m; em_headers := em_headers p ++ em_headers m;
     em_queryParameters := em_queryParameters p ++ em_queryParameters m; em_methods := em_methods p ++ em_methods m |}.
Definition inherits {S S'} (child : Route_of S) (parent : routeInfo_of S') : bool :=
  default (ri_inheritableMatchers parent) (er_inheritableMatchers child).
Definition inherited (child : Route) (parent : info) : list Matcher :=
  if inherits child parent then map (with_parent (ri_matcher parent)) (path_matchers child parent) else path_matchers child parent.

Lemma path_matchers_listed ar r p :
  map (matcher_value ar) (path_matchers r p) = path_matchers (listed ar r) (listed_info ar p).
Proof.
  unfold path_matchers. simpl.
  assert (∀ l, map (matcher_value ar) (map (set_path (ri_matcher p)) l) =
               map (set_path (matcher_value ar (ri_matcher p))) (map (matcher_value ar) l)) as Hset by (intros l; by rewrite !map_map).
  destruct (er_matchers r) as [|m ms]; simpl; destruct (default _ _); try done. simpl. by rewrite Hset.
Qed.

Lemma inherited_bare r p : map strip (inherited r p) = inherited (bare r) (bare_info p).
Proof.
  unfold inherited, inherits, path_matchers. simpl.
  assert (∀ l, map strip (map (with_parent (ri_matcher p)) l) = map (with_parent (strip (ri_matcher p))) (map strip l)) as Hadd
    by (intros l; by rewrite !map_map).
  assert (∀ l, map strip (map (set_path (ri_matcher p)) l) = map (set_path (strip (ri_matcher p))) (map strip l)) as Hset
    by (intros l; by rewrite !map_map).
  destruct (er_matchers r) as [|m ms]; simpl; repeat case_match; simplify_eq/=; try done; by rewrite ?Hadd, ?Hset.
Qed.

Lemma check_matcher_bare p m : is_Some (check_matcher (strip p) (strip m)) ↔ is_Some (check_matcher p m).
Proof.
  unfold check_matcher. change (PathAsString (strip m)) with (PathAsString m). change (GetPrefix (strip p)) with (GetPrefix p).
  simpl. assert (∀ o, option_map bv_value (option_map (λ b, {| bv_ptr := 1; bv_value := bv_value b |}) o) = option_map bv_value o)
    as Hv by (by intros []). rewrite !Hv. repeat (destruct (negb _); [by split; eauto|]). done.
Qed.

Lemma valid_bare p ms :
  is_Some (isRouteTableValidForDelegateMatcher (strip p) (map strip ms)) ↔ is_Some (isRouteTableValidForDelegateMatcher p ms).
Proof.
  induction ms as [|m ms IH]; simpl; [done|]. pose proof (check_matcher_bare p m) as Hc.
  destruct (check_matcher p m), (check_matcher (strip p) (strip m)); [by split; eauto|..|done].
  - destruct Hc as [_ [? [=]]]; eauto.
  - destruct Hc as [[? [=]] _]; eauto.
Qed.

Lemma delegate_matcher_bare r :
  getDelegateRouteMatcher (bare r) = match getDelegateRouteMatcher r with inl e => inl e | inr m => inr (strip m) end.
Proof.
  unfold getDelegateRouteMatcher. simpl. destruct (er_matchers r) as [|m [|]]; simpl; [done| |done].
  destruct (em_path m) as [path|] eqn:E; [|done]. change (GetPrefix (strip m)) with (GetPrefix m). by case_bool_decide.
Qed.
Lemma delegate_matcher_listed ar r :
  getDelegateRouteMatcher (listed ar r) =
    match getDelegateRouteMatcher r with inl e => inl e | inr m => inr (matcher_value ar m) end.
Proof.
  unfold getDelegateRouteMatcher. simpl. destruct (er_matchers r) as [|m [|]]; simpl; [done| |done].
  destruct (em_path m) as [path|] eqn:E; [|done]. change (GetPrefix (matcher_value ar m)) with (GetPrefix m). by case_bool_decide.
Qed.

(** ** Routes that hold settled slices *)
Section Settled.
Context `{!SliceCapacity}.

Definition settled_matcher (ar : Arrays) (m : Matcher_of Slice) : Prop :=
  settled ar (em_headers m) ∧ settled ar (em_queryParameters m) ∧ settled ar (em_methods m).
Definition roomless_matcher (m : Matcher) : Prop :=
  roomless (length (em_headers m)) ∧ roomless (length (em_queryParameters m)) ∧ roomless (length (em_methods m)).
Abbreviation settled_matchers ar := (Forall (settled_matcher ar)).

Lemma settled_matcher_extends ar ar' m : extends ar ar' → settled_matcher ar m →
  settled_matcher ar' m ∧ matcher_value ar' m = matcher_value ar m.
Proof.
  intros Hx (H1 & H2 & H3). unfold settled_matcher, matcher_value.
  destruct (settled_extends _ _ _ Hx H1) as [? ->], (settled_extends _ _ _ Hx H2) as [? ->], (settled_extends _ _ _ Hx H3) as [? ->].
  by split_and!.
Qed.
Lemma settled_matchers_extends ar ar' ms : extends ar ar' → settled_matchers ar ms →
  settled_matchers ar' ms ∧ map (matcher_value ar') ms = map (matcher_value ar) ms.
Proof.
  intros Hx. induction 1 as [|m ms Hm _ [IH1 IH2]]; simpl; [done|]. destruct (settled_matcher_extends _ _ _ Hx Hm) as [? ->].
  rewrite IH2. split; [by constructor|done].
Qed.
Lemma settled_matcher_preserves ar ar' m : preserves ar ar' → settled_matcher ar m → matcher_value ar' m = matcher_value ar m.
Proof. intros Hx (H1 & H2 & H3). unfold matcher_value. f_equal; by apply settled_preserves. Qed.
Lemma nil_matcher_settled ar path cs : settled_matcher ar
  {| em_path := path; em_caseSensitive := cs; em_headers := nil_of; em_queryParameters := nil_of; em_methods := nil_of |}.
Proof. split_and!; apply nil_settled. Qed.
Lemma listed_extends ar ar' r : extends ar ar' → settled_matchers ar (er_matchers r) → listed ar' r = listed ar r.
Proof. intros Hx Hr. unfold listed. by destruct (settled_matchers_extends _ _ _ Hx Hr) as [_ ->]. Qed.

Lemma path_matchers_settled ar r p : settled_matchers ar (er_matchers r) → settled_matchers ar (path_matchers r p).
Proof.
  intros Hr. unfold path_matchers. destruct (default _ _).
  - destruct (er_matchers r) as [|m ms]; simpl; [constructor; [apply nil_matcher_settled|constructor]|].
    by apply (proj2 (Forall_fmap (set_path (ri_matcher p)) (settled_matcher ar) (m :: ms))).
  - destruct (er_matchers r); [|done]. constructor; [apply nil_matcher_settled|constructor].
Qed.

(** *** Cloning *)
Lemma clone_matcher_ok m s : wp (clone_matcher m) (λ x s', grows s s' ∧ extends (st_arrays s) (st_arrays s') ∧
  settled_matcher (st_arrays s') x ∧ strip (matcher_value (st_arrays s') x) = strip m) s.
Proof.
  unfold clone_matcher. wp_step. apply wp_with_store.
  assert (option_map bv_value (clone_bool (em_caseSensitive m) (st_store s)).1 = option_map bv_value (em_caseSensitive m)) as Hb
    by by destruct (em_caseSensitive m).
  assert (grows s (set_store (clone_bool (em_caseSensitive m) (st_store s)).2 s)) as Hg by auto with gw.
  set (cs := (clone_bool _ _).1) in *. set (s0 := set_store _ _) in *.
  wp_step. eapply wp_mono; [apply clone_slice_ok|]. intros hs s1 (Hg1 & Hx1 & Hs1 & Hc1).
  wp_step. eapply wp_mono; [apply clone_slice_ok|]. intros qs s2 (Hg2 & Hx2 & Hs2 & Hc2).
  wp_step. eapply wp_mono; [apply clone_slice_ok|]. intros ms s3 (Hg3 & Hx3 & Hs3 & Hc3). apply wp_ret.
  assert (extends (st_arrays s1) (st_arrays s3)) as Hx13 by by etrans.
  destruct (settled_extends _ _ _ Hx13 Hs1) as [? E1], (settled_extends _ _ _ Hx3 Hs2) as [? E2].
  split_and!; [by do 3 (etrans; [eassumption|])|by etrans|by split_and!|]. unfold strip, matcher_value. simpl.
  rewrite E1, E2, Hc1, Hc2, Hc3. f_equal. clear -Hb. destruct cs, (em_caseSensitive m); simplify_eq/=; by rewrite ?Hb.
Qed.

Lemma clone_route_ok r s : wp (clone_route r) (λ r' s', grows s s' ∧ extends (st_arrays s) (st_arrays s') ∧
  settled_matchers (st_arrays s') (er_matchers r') ∧ bare (listed (st_arrays s') r') = bare r) s.
Proof.
  unfold clone_route. wp_step. eapply wp_mono.
  { apply (wp_fold_range_prefix (λ pre ms s', grows s s' ∧ extends (st_arrays s) (st_arrays s') ∧
      settled_matchers (st_arrays s') ms ∧ map strip (map (matcher_value (st_arrays s')) ms) = map strip pre) _ (er_matchers r) 0 []).
    { by split_and!. }
    intros _ pre m ms s1 _ (Hg1 & Hx1 & Hs1 & Hv1). wp_step. eapply wp_mono; [apply clone_matcher_ok|].
    intros x s2 (Hg2 & Hx2 & Hs2 & Hv2). apply wp_ret. destruct (settled_matchers_extends _ _ _ Hx2 Hs1) as [? E].
    split_and!; [by etrans|by etrans|apply Forall_app; split; [done|by apply Forall_singleton]|].
    rewrite !map_app, E, Hv1. simpl. by rewrite Hv2. }
  intros ms s1 (Hg1 & Hx1 & Hs1 & Hv1). wp_step. apply wp_with_store. apply wp_ret.
  split_and!; [etrans; [exact Hg1|apply grows_store, frame_clone_opt, frame_clone_options]|done|done|].
  unfold bare. simpl. by rewrite Hv1.
Qed.

(** *** Inheriting matchers *)
Lemma go_append_ok {A} `{!Element A, !ElementLaws A} (a b : Slice A) s : wp (go_append a b) (λ x s', grows s s' ∧
  (settled (st_arrays s) a → roomless (sl_len a) → extends (st_arrays s) (st_arrays s') ∧ settled (st_arrays s') x ∧
   contents (st_arrays s') x = contents (st_arrays s) a ++ contents (st_arrays s) b)) s.
Proof.
  unfold go_append. wp_step. apply wp_gets. unfold append_slice, wp.
  pose proof (append_arrays_ok a (contents (st_arrays s) b) (st_arrays s)) as Hok.
  destruct (append_arrays _ _ _) as [x ar]. split; [apply grows_arrays|exact Hok].
Qed.

Lemma add_matchers_ok p m s : wp (add_matchers p m) (λ x s', grows s s' ∧
  (settled_matcher (st_arrays s) p → roomless_matcher (matcher_value (st_arrays s) p) → settled_matcher (st_arrays s) m →
   extends (st_arrays s) (st_arrays s') ∧ settled_matcher (st_arrays s') x ∧
   matcher_value (st_arrays s') x = with_parent (matcher_value (st_arrays s) p) (matcher_value (st_arrays s) m))) s.
Proof.
  unfold add_matchers. wp_step. eapply wp_mono; [apply go_append_ok|]. intros hs s1 (Hg1 & H1).
  wp_step. eapply wp_mono; [apply go_append_ok|]. intros ms s2 (Hg2 & H2).
  wp_step. eapply wp_mono; [apply go_append_ok|]. intros qs s3 (Hg3 & H3).
  apply wp_ret. split; [do 2 (etrans; [eassumption|]); done|]. intros (P1 & P2 & P3) Hr (M1 & M2 & M3). simpl in *.
  unfold roomless_matcher in Hr. simpl in Hr. rewrite !settled_length in Hr by done. destruct Hr as (R1 & R2 & R3).
  destruct (H1 P1 R1) as (X1 & S1 & E1). destruct (settled_extends _ _ _ X1 P3) as [P3' EP3], (settled_extends _ _ _ X1 M3) as [_ EM3].
  destruct (H2 P3' R3) as (X2 & S2 & E2).
  assert (extends (st_arrays s) (st_arrays s2)) as X12 by by etrans.
  destruct (settled_extends _ _ _ X12 P2) as [P2' EP2], (settled_extends _ _ _ X12 M2) as [_ EM2].
  destruct (H3 P2' R2) as (X3 & S3 & E3). assert (extends (st_arrays s1) (st_arrays s3)) as X13 by by etrans.
  destruct (settled_extends _ _ _ X13 S1) as [S1' ES1], (settled_extends _ _ _ X3 S2) as [S2' ES2].
  split_and!; [by etrans|by split_and!|]. unfold with_parent, matcher_value. simpl.
  by rewrite ES1, E1, E3, EP2, EM2, ES2, E2, EP3, EM3.
Qed.

Lemma inherit_matchers_ok child p s : wp (inherit_matchers child p) (λ ms s', grows s s' ∧
  (settled_matcher (st_arrays s) (ri_matcher p) → settled_matchers (st_arrays s) (er_matchers child) →
   (inherits child p = true → roomless_matcher (matcher_value (st_arrays s) (ri_matcher p))) →
   extends (st_arrays s) (st_arrays s') ∧ settled_matchers (st_arrays s') ms ∧
   map (matcher_value (st_arrays s')) ms = inherited (listed (st_arrays s) child) (listed_info (st_arrays s) p))) s.
Proof.
  unfold inherit_matchers, inherited. change (inherits (listed _ _) (listed_info _ _)) with (inherits child p).
  fold (inherits child p). rewrite <-path_matchers_listed. destruct (inherits child p).
  2: { apply wp_ret. split; [done|]. intros _ Hc _. split_and!; [done|by apply path_matchers_settled|done]. }
  eapply wp_mono.
  { apply (wp_fold_range_prefix (λ pre ms s', grows s s' ∧
      (settled_matcher (st_arrays s) (ri_matcher p) → settled_matchers (st_arrays s) (er_matchers child) →
       roomless_matcher (matcher_value (st_arrays s) (ri_matcher p)) →
       extends (st_arrays s) (st_arrays s') ∧ settled_matchers (st_arrays s') ms ∧
       map (matcher_value (st_arrays s')) ms =
         map (with_parent (matcher_value (st_arrays s) (ri_matcher p))) (map (matcher_value (st_arrays s)) pre)))
      _ (path_matchers child p) 0 []).
    { split; [done|]. intros _ _ _. by split_and!. }
    intros _ pre m ms s1 Hm [Hg1 H1]. wp_step. eapply wp_mono; [apply add_matchers_ok|]. intros x s2 [Hg2 H2]. apply wp_ret.
    split; [by etrans|]. intros Hp Hc Hr. destruct (H1 Hp Hc Hr) as (X1 & S1 & E1).
    destruct (settled_matcher_extends _ _ _ X1 Hp) as [Hp' EP].
    assert (settled_matcher (st_arrays s) m) as Hms
      by (pose proof (path_matchers_settled _ _ p Hc) as Hall; rewrite Forall_forall in Hall; by apply Hall).
    destruct (settled_matcher_extends _ _ _ X1 Hms) as [Hm' EM]. rewrite EP, EM in H2. destruct (H2 Hp' Hr Hm') as (X2 & S2 & E2).
    destruct (settled_matchers_extends _ _ _ X2 S1) as [? E].
    split_and!; [by etrans|apply Forall_app; split; [done|by apply Forall_singleton]|]. rewrite !map_app, E, E1. simpl. by rewrite E2. }
  intros ms s' [Hg Hms]. split; [done|]. intros Hp Hc Hr. simpl. by apply Hms; [..|apply Hr].
Qed.
End Settled.

(** ** What a virtual service delivers *)
Section Traversal.
Context `{!Labels, !GoRange Z, !SliceCapacity}.
Context (snapshot : ApiSnapshot) (gateway : Gateway) (proxyName : string) (top : Metadata) (topOptions : option positive).

Definition simple (a : Action) : Prop := match a with Delegate _ => False | _ => True end.

(** A route after its parent's contribution; [None] when the parent's matcher forbids it. *)
Definition merged (parent : option info) (r : Route) : option Route :=
  match parent with
  | None => Some r
  | Some p =>
      match isRouteTableValidForDelegateMatcher (ri_matcher p) (inherited r p) with
      | Some _ => None
      | None => Some {| er_matchers := inherited r p;
                        er_inheritableMatchers := Some (default (ri_inheritableMatchers p) (er_inheritableMatchers r));
                        er_inheritablePathMatchers := Some (default (ri_inheritablePathMatchers p) (er_inheritablePathMatchers r));
                        er_action := er_action r; er_options := None; er_optionRefs := []; er_name := "" |}
      end
  end.
Definition delegated_info (r : Route) (m : Matcher) : info :=
  {| ri_matcher := m; ri_options := None; ri_name := ""; ri_hasName := false;
     ri_inheritableMatchers := default false (er_inheritableMatchers r);
     ri_inheritablePathMatchers := default false (er_inheritablePathMatchers r) |}.
Definition or_default (ms : list Matcher) : list Matcher := match ms with [] => [DefaultMatcher] | ms => ms end.

(** Matchers, action, and the tables passed through with the matchers they were delegated
    from, innermost first. *)
Definition Delivery : Type := list Matcher * Action * list (Matcher * RouteTable).

(** What the routes of a resource in namespace [ns] deliver, reached through the tables
    [visited] with the contribution of [parent]. *)
Inductive delivered : option info → string → list Route → list RouteTable → Delivery → Prop :=
| delivered_leaf parent ns routes visited r r' a :
    r ∈ routes → merged parent (bare r) = Some r' → default_upstreams ns (er_action r) = Some a → simple a →
    delivered parent ns routes visited (or_default (er_matchers r'), a, [])
| delivered_link parent ns routes visited r r' action m ts t ms a tables :
    r ∈ routes → merged parent (bare r) = Some r' → er_action r = Some (Delegate action) →
    getDelegateRouteMatcher r' = inr m →
    SelectRouteTables (sn_routeTables snapshot) action ns = inr ts → t ∈ ts → rt_ptr t ∉ (rt_ptr <$> visited) →
    delivered (Some (delegated_info r' m)) (md_namespace (rt_meta t)) (rt_routes t) (visited ++ [t]) (ms, a, tables) →
    delivered parent ns routes visited (ms, a, tables ++ [(m, t)]).

(** The deliveries of one route. *)
Definition delivered_one (parent : option info) (ns : string) (visited : list RouteTable) (r : Route) (d : Delivery) : Prop :=
  ∃ r', merged parent (bare r) = Some r' ∧
    ((∃ a, default_upstreams ns (er_action r) = Some a ∧ simple a ∧ d = (or_default (er_matchers r'), a, [])) ∨
     (∃ action m ts t tables, er_action r = Some (Delegate action) ∧ getDelegateRouteMatcher r' = inr m ∧
        SelectRouteTables (sn_routeTables snapshot) action ns = inr ts ∧ t ∈ ts ∧ (rt_ptr t ∉ (rt_ptr <$> visited)) ∧
        delivered (Some (delegated_info r' m)) (md_namespace (rt_meta t)) (rt_routes t) (visited ++ [t]) (d.1, tables) ∧
        d.2 = tables ++ [(m, t)])).

Lemma delivered_iff parent ns routes visited d :
  delivered parent ns routes visited d ↔ ∃ r, r ∈ routes ∧ delivered_one parent ns visited r d.
Proof.
  split.
  - destruct 1 as [? ? ? ? r r' a|? ? ? ? r r' action m ts t ms a tables]; exists r; (split; [done|]); exists r'; (split; [done|]).
    + left. by exists a.
    + right. by exists action, m, ts, t, tables.
  - destruct d as [[ms a] tables]. intros (r & Hr & r' & Hr' & [(a' & Ha & Hs & [= -> -> ->])|Hlink]).
    + by eapply delivered_leaf.
    + destruct Hlink as (action & m & ts & t & tables' & ? & ? & ? & ? & ? & ? & E). simpl in E. subst.
      by eapply delivered_link.
Qed.

(** [handed_on ... p rs]: on the way, the contribution [p] is handed to the routes [rs]. *)
Inductive handed_on : option info → string → list Route → list RouteTable → info → list Route → Prop :=
| handed_on_here p ns routes visited : handed_on (Some p) ns routes visited p routes
| handed_on_below parent ns routes visited r r' action m ts t p rs :
    r ∈ routes → merged parent (bare r) = Some r' → er_action r = Some (Delegate action) →
    getDelegateRouteMatcher r' = inr m →
    SelectRouteTables (sn_routeTables snapshot) action ns = inr ts → t ∈ ts → rt_ptr t ∉ (rt_ptr <$> visited) →
    handed_on (Some (delegated_info r' m)) (md_namespace (rt_meta t)) (rt_routes t) (visited ++ [t]) p rs →
    handed_on parent ns routes visited p rs.

(** No routes share room behind the headers, query parameters or methods that they inherit. *)
Definition unshared (parent : option info) (ns : string) (routes : list Route) (visited : list RouteTable) : Prop :=
  ∀ p rs r, handed_on parent ns routes visited p rs → r ∈ rs → inherits r p = true → roomless_matcher (ri_matcher p).

(** The routes of [out], matchers without pointers, are the deliveries [D]. *)
Definition view (g : GlooRoute) : list Matcher * Action * list SourceRef := (map strip (or_matchers g), or_action g, or_sources g).
Definition table_sources (tables : list (Matcher * RouteTable)) : list SourceRef :=
  map (λ mt, makeSourceRef (RRouteTable (rt_meta mt.2))) tables.
Definition render (suffix : list SourceRef) (d : Delivery) : list Matcher * Action * list SourceRef :=
  (d.1, table_sources d.2 ++ suffix).
Definition shows (suffix : list SourceRef) (out : list GlooRoute) (D : Delivery → Prop) : Prop :=
  ∀ v, v ∈ map view out ↔ ∃ d, D d ∧ v = render suffix d.

(** Converted routes whose slices are settled in the final arrays, where they show [D]. *)
Definition settled_route (ar : Arrays) (g : GlooRoute_of Slice) : Prop := Forall (settled_matcher ar) (or_matchers g).
Definition delivers (s s' : State) (suffix : list SourceRef) (out : list (GlooRoute_of Slice)) (D : Delivery → Prop) : Prop :=
  extends (st_arrays s) (st_arrays s') ∧ Forall (settled_route (st_arrays s')) out ∧
  shows suffix (map (route_value (st_arrays s')) out) D.

Lemma route_values_extends ar ar' out : extends ar ar' → Forall (settled_route ar) out →
  Forall (settled_route ar') out ∧ map (route_value ar') out = map (route_value ar) out.
Proof.
  intros Hx. induction 1 as [|g out Hg _ [IH1 IH2]]; [done|]. destruct (settled_matchers_extends _ _ _ Hx Hg) as [? E].
  simpl. unfold route_value at 1 3. rewrite E, IH2. split; [by constructor|done].
Qed.

Lemma delivers_nil s s' suffix D : extends (st_arrays s) (st_arrays s') → (∀ d, ¬ D d) → delivers s s' suffix [] D.
Proof. intros Hx HD. split_and!; [done|constructor|]. intros v. simpl. rewrite elem_of_nil. naive_solver. Qed.
Lemma delivers_ext s s' suffix out D D' : (∀ d, D d ↔ D' d) → delivers s s' suffix out D → delivers s s' suffix out D'.
Proof. intros HD (? & ? & Hs). split_and!; [done..|]. intros v. rewrite (Hs v). by setoid_rewrite HD. Qed.
Lemma delivers_extends s0 s s' suffix out D : extends (st_arrays s0) (st_arrays s) → delivers s s' suffix out D → delivers s0 s' suffix out D.
Proof. intros Hx (? & ? & ?). split_and!; [by etrans|done..]. Qed.
Lemma delivers_app s s1 s2 suffix out out' D D' D'' : delivers s s1 suffix out D → delivers s1 s2 suffix out' D' →
  (∀ d, D'' d ↔ D d ∨ D' d) → delivers s s2 suffix (out ++ out') D''.
Proof.
  intros (X1 & S1 & H1) (X2 & S2 & H2) HD. destruct (route_values_extends _ _ _ X2 S1) as [? E].
  split_and!; [by etrans|by apply Forall_app|]. intros v. rewrite !map_app, E, elem_of_app, (H1 v), (H2 v). setoid_rewrite HD. naive_solver.
Qed.
Lemma delivers_sort s s' suffix out D : delivers s s' suffix out D → delivers s s' suffix (SortRoutesByPath out) D.
Proof.
  intros (? & ? & Hs). unfold SortRoutesByPath. split_and!; [done|by rewrite (sort_stable_perm less_route out)|].
  intros v. rewrite <-(Hs v). by rewrite (Permutation_map view (Permutation_map _ (sort_stable_perm less_route out))).
Qed.
Lemma delivers_source s s' R out D : delivers s s' [] out D →
  delivers s s' [makeSourceRef R] (map (append_route_source R) out) D.
Proof.
  intros (? & Hset & Hs). split_and!; [done|by apply (proj2 (Forall_fmap (append_route_source R) _ out))|].
  assert (∀ v, v ∈ map (λ x, view (route_value (st_arrays s') x)) out ↔ ∃ d, D d ∧ v = render [] d) as Hs'
    by (intros v; by rewrite <-(Hs v), map_map).
  intros v. rewrite !map_map. change (λ x, view (route_value (st_arrays s') (append_route_source R x))) with
    (λ x, (λ '(ms, a, srcs), (ms, a, srcs ++ [makeSourceRef R]) : list Matcher * Action * list SourceRef) (view (route_value (st_arrays s') x))).
  rewrite <-(map_map (λ x, view (route_value (st_arrays s') x))). change (map ?f (map ?g out)) with (f <$> map g out).
  rewrite list_elem_of_fmap. setoid_rewrite Hs'.
  split.
  - intros (v' & -> & d & Hd & ->). exists d. split; [done|]. destruct d as [[ms a] ts]. unfold render. simpl. by rewrite app_nil_r.
  - intros (d & Hd & ->). exists (render [] d). split; [|by exists d]. destruct d as [[ms a] ts]. unfold render. simpl. by rewrite app_nil_r.
Qed.
(** A table's routes, seen from the delegating route. *)
Lemma delivers_table s s' m t out D : delivers s s' [makeSourceRef (RRouteTable (rt_meta t))] out D →
  delivers s s' [] out (λ d, ∃ tables, D (d.1, tables) ∧ d.2 = tables ++ [(m, t)]).
Proof.
  intros (? & ? & Hs). split_and!; [done..|]. intros v. rewrite (Hs v). split.
  - intros ([[ms a] ts] & Hd & ->). exists (ms, a, ts ++ [(m, t)]). split; [by exists ts|].
    unfold render, table_sources. simpl. by rewrite map_app, app_nil_r.
  - intros ([[ms a] ts] & (ts' & Hd & E) & ->). simpl in E. subst. exists (ms, a, ts'). split; [done|].
    unfold render, table_sources. simpl. by rewrite map_app, app_nil_r.
Qed.

(** ** The traversal *)
Definition tables_of : gset positive := list_to_set (rt_ptr <$> sn_routeTables snapshot).

Lemma RouteTablesForSelector_subset tables sel ns ts : RouteTablesForSelector tables sel ns = inr ts → ts ⊆ tables.
Proof.
  assert (∀ f : RouteTable → bool, List.filter f tables ⊆ tables) as Hf.
  { intros f x Hx. by apply elem_of_filter_bool in Hx as [? _]. }
  unfold RouteTablesForSelector. destruct (rs_expressions sel); [intros [= <-]; apply Hf|].
  case_bool_decide; [|done]. cbn [negb]. destruct (requirements _ _); [done|]. intros [= <-]. apply Hf.
Qed.

Lemma SelectRouteTables_subset tables a ns ts : SelectRouteTables tables a ns = inr ts → ts ⊆ tables.
Proof.
  unfold SelectRouteTables. destruct (getRouteTableRef a) as [ref|].
  - destruct (find_table tables ref) eqn:E; [|done]. intros [= <-]. apply find_table_elem in E as [? _]. set_solver.
  - destruct (da_type a) as [[|sel]|]; try done. destruct (RouteTablesForSelector _ _ _) as [e|[|t l]] eqn:E; try done.
    intros [= <-]. by eapply RouteTablesForSelector_subset.
Qed.

Lemma merge_delegated_ok R r s :
  wp (merge_delegated snapshot top R r) (λ r' s', grows s s' ∧ st_arrays s' = st_arrays s ∧
    er_matchers r' = er_matchers r ∧ ∀ ar, bare (listed ar r') = bare (listed ar r)) s.
Proof.
  unfold merge_delegated. apply (wp_fold_range (λ r' s', grows s s' ∧ st_arrays s' = st_arrays s ∧
    er_matchers r' = er_matchers r ∧ ∀ ar, bare (listed ar r') = bare (listed ar r))); [done|].
  intros j ref r' s' _ (Hg & Har & Hm & Hb). destruct (find_options _ _) as [o|].
  - destruct (er_options r'); [|by apply wp_ret]. wp_step. apply wp_with_store. apply wp_ret. split; [|done].
    etrans; [done|auto with gw].
  - wp_step. apply wp_addWarning. intros s'' Hg' Har'. apply wp_ret. split_and!; [by etrans|by rewrite Har'|done..].
Qed.

(** A parent's contribution as it is now. *)
Definition info_at (s : State) (p : routeInfo) : info := bare_info (listed_info (st_arrays s) p).
Lemma info_at_extends s s' p : extends (st_arrays s) (st_arrays s') → settled_matcher (st_arrays s) (ri_matcher p) →
  settled_matcher (st_arrays s') (ri_matcher p) ∧ info_at s' p = info_at s p.
Proof.
  intros Hx Hp. destruct (settled_matcher_extends _ _ _ Hx Hp) as [? E]. split; [done|]. unfold info_at, listed_info. by rewrite E.
Qed.
Definition route_at (s : State) (r : Route_of Slice) : Route := bare (listed (st_arrays s) r).

Lemma validate_ok r p s : wp (validateAndMergeParentRoute r p) (λ m s', grows s s' ∧
  (settled_matcher (st_arrays s) (ri_matcher p) → Forall (settled_matcher (st_arrays s)) (er_matchers r) →
   (inherits r p = true → roomless_matcher (matcher_value (st_arrays s) (ri_matcher p))) →
   extends (st_arrays s) (st_arrays s') ∧
   match m with
   | inr r' => Forall (settled_matcher (st_arrays s')) (er_matchers r') ∧ merged (Some (info_at s p)) (route_at s r) = Some (route_at s' r')
   | inl _ => merged (Some (info_at s p)) (route_at s r) = None
   end)) s.
Proof.
  unfold validateAndMergeParentRoute. wp_step. eapply wp_mono; [apply inherit_matchers_ok|]. intros ms s1 [Hg1 H1].
  wp_step. apply wp_with_store. match goal with |- context [set_store ?h s1] => set (s2 := set_store h s1) end.
  assert (grows s1 s2) as Hg2 by (apply grows_store; case_match; [apply frame_inherit|done]).
  assert (st_arrays s2 = st_arrays s1) as Har by done. clearbody s2. wp_step. apply wp_gets. rewrite Har.
  set (invalid := isRouteTableValidForDelegateMatcher _ _).
  assert (settled_matcher (st_arrays s) (ri_matcher p) → Forall (settled_matcher (st_arrays s)) (er_matchers r) →
    (inherits r p = true → roomless_matcher (matcher_value (st_arrays s) (ri_matcher p))) →
    extends (st_arrays s) (st_arrays s1) ∧ Forall (settled_matcher (st_arrays s1)) ms ∧
    map strip (map (matcher_value (st_arrays s1)) ms) = inherited (route_at s r) (info_at s p) ∧
    (is_Some (isRouteTableValidForDelegateMatcher (ri_matcher (info_at s p)) (inherited (route_at s r) (info_at s p))) ↔ is_Some invalid)) as Hok.
  { intros Hp Hr Hroom. destruct (H1 Hp Hr Hroom) as (X1 & S1 & E1). destruct (settled_matcher_extends _ _ _ X1 Hp) as [_ EP].
    split_and!; [done|done|by rewrite E1, inherited_bare|]. subst invalid. rewrite EP. unfold info_at, route_at.
    rewrite <-inherited_bare, <-E1. apply valid_bare. }
  clear H1. destruct invalid as [e|]; (wp_step || apply wp_ret).
  - split; [by etrans|]. intros Hp Hr Hroom. destruct (Hok Hp Hr Hroom) as (X1 & _ & _ & Hv). rewrite Har. split; [done|].
    destruct Hv as [_ [e' He']]; [by eexists|]. unfold merged. by rewrite He'.
  - apply wp_with_store. apply wp_ret. split; [by do 2 (etrans; [eassumption|]); auto with gw|]. simpl. rewrite Har.
    intros Hp Hr Hroom. destruct (Hok Hp Hr Hroom) as (X1 & S1 & E1 & Hv). split_and!; [done|done|]. unfold merged.
    destruct (isRouteTableValidForDelegateMatcher _ _); [destruct Hv as [[? [=]] _]; by eexists|].
    unfold route_at at 2, bare, listed. simpl. rewrite Har, E1. done.
Qed.

Lemma merge_parent_ok R r parent s : wp (merge_parent top topOptions R r parent) (λ m s', grows s s' ∧
  ((∀ p, parent = Some p → settled_matcher (st_arrays s) (ri_matcher p) ∧
      (inherits r p = true → roomless_matcher (ri_matcher (info_at s p)))) →
   Forall (settled_matcher (st_arrays s)) (er_matchers r) →
   extends (st_arrays s) (st_arrays s') ∧
   match m with
   | Some r' => Forall (settled_matcher (st_arrays s')) (er_matchers r') ∧ merged (info_at s <$> parent) (route_at s r) = Some (route_at s' r')
   | None => merged (info_at s <$> parent) (route_at s r) = None
   end)) s.
Proof.
  unfold merge_parent. destruct parent as [p|].
  - wp_step. eapply wp_mono; [apply validate_ok|]. intros [e|r'] s1 [Hg1 H1].
    + wp_step. apply wp_addWarning. intros s2 Hg2 Har. apply wp_ret. split; [by etrans|]. intros Hp Hr.
      destruct (Hp p eq_refl) as [Hp' Hroom]. rewrite Har. by apply H1.
    + apply wp_ret. split; [done|]. intros Hp Hr. destruct (Hp p eq_refl) as [Hp' Hroom]. by apply H1.
  - wp_step. apply wp_with_store. apply wp_ret. split; [|done]. apply grows_store. case_match; [apply frame_inherit|done].
Qed.

Lemma convert_route_ok R r hasName s :
  (∀ a, er_action r ≠ Some (Delegate a)) →
  wp (convert_route top R r hasName) (λ out s', grows s s' ∧ (Forall (settled_matcher (st_arrays s)) (er_matchers r) →
    delivers s s' [] out (λ d, ∃ a, default_upstreams (md_namespace (resource_meta R)) (er_action r) = Some a ∧ simple a ∧
                                    d = (or_default (er_matchers (route_at s r)), a, [])))) s.
Proof.
  intros Ha. unfold convert_route. set (r' := with_action _ _).
  assert (er_matchers r' = er_matchers r) as Hms by (subst r'; by destruct hasName).
  assert (er_action r' = default_upstreams (md_namespace (resource_meta R)) (er_action r)) as Hact by (subst r'; by destruct hasName).
  assert (∀ a, er_action r' = Some a → simple a) as Hsimple.
  { rewrite Hact. intros a. destruct (er_action r) as [[[]| | | |]|]; simpl; try (by intros [= <-]); by edestruct Ha. }
  clearbody r'. rewrite <-Hact. unfold convertSimpleAction. destruct (er_action r') as [a|] eqn:Ea.
  - specialize (Hsimple a eq_refl).
    set (ms := match er_matchers r' with [] => [DefaultMatcher] | ms => ms end).
    assert (∀ g, or_matchers g = ms → or_action g = a → or_sources g = [] → Forall (settled_matcher (st_arrays s)) (er_matchers r) →
      delivers s s [] [g] (λ d, ∃ a', Some a = Some a' ∧ simple a' ∧ d = (or_default (er_matchers (route_at s r)), a', []))) as Hok.
    { intros g Hgm Hga Hgs Hset. split_and!; [done| |].
      - apply Forall_singleton. unfold settled_route. rewrite Hgm. subst ms. rewrite Hms.
        destruct (er_matchers r); [apply Forall_singleton, nil_matcher_settled|done].
      - intros v. simpl. unfold view, route_value. simpl. rewrite Hgm, Hga, Hgs, elem_of_cons, elem_of_nil.
        assert (map strip (map (matcher_value (st_arrays s)) ms) = or_default (er_matchers (route_at s r))) as ->.
        { subst ms. rewrite Hms. unfold route_at, bare, listed. simpl. by destruct (er_matchers r). }
        split.
        + intros [->|[]]. exists (or_default (er_matchers (route_at s r)), a, []). split; [by exists a|done].
        + intros (d & (a' & [= <-] & _ & ->) & ->). by left. }
    destruct a; try done; apply wp_ret; (split; [done|]); by apply Hok.
  - wp_step. apply wp_addError. intros s' Hg Har. apply wp_ret. split; [done|]. intros _. apply delivers_nil; [by rewrite Har|]. naive_solver.
Qed.

Definition Rec_ok (rec : Visit) (visited : list RouteTable) : Prop :=
  ∀ t p s, t ∈ sn_routeTables snapshot → rt_ptr t ∉ (rt_ptr <$> visited) →
    wp (rec (RRouteTable (rt_meta t)) (rt_routes t) (Some p) (visited ++ [t])) (λ out s', grows s s' ∧
      (settled_matcher (st_arrays s) (ri_matcher p) →
       unshared (Some (info_at s p)) (md_namespace (rt_meta t)) (rt_routes t) (visited ++ [t]) →
       delivers s s' [makeSourceRef (RRouteTable (rt_meta t))] out
         (delivered (Some (info_at s p)) (md_namespace (rt_meta t)) (rt_routes t) (visited ++ [t])))) s.

Lemma checkForCycles_spec t visited :
  match checkForCycles t visited with
  | Some _ => rt_ptr t ∈ (rt_ptr <$> visited)
  | None => rt_ptr t ∉ (rt_ptr <$> visited)
  end.
Proof.
  unfold checkForCycles. destruct (existsb _ _) eqn:E.
  - apply existsb_elem in E as (t' & Hin & ->%bool_decide_eq_true). by apply list_elem_of_fmap_2.
  - intros (t' & Ht' & Hin)%list_elem_of_fmap.
    assert (existsb (λ t', bool_decide (rt_ptr t = rt_ptr t')) visited = true); [|congruence].
    apply existsb_elem. exists t'. by rewrite bool_decide_eq_true.
Qed.

(** The deliveries of a delegating route through one table. *)
Definition through (p : info) (visited : list RouteTable) (t : RouteTable) (d : Delivery) : Prop :=
  (rt_ptr t ∉ (rt_ptr <$> visited)) ∧ ∃ tables,
    delivered (Some p) (md_namespace (rt_meta t)) (rt_routes t) (visited ++ [t]) (d.1, tables) ∧ d.2 = tables ++ [(ri_matcher p, t)].
Definition unshared_below (p : info) (visited : list RouteTable) (ts : list RouteTable) : Prop :=
  ∀ t, t ∈ ts → rt_ptr t ∉ (rt_ptr <$> visited) → unshared (Some p) (md_namespace (rt_meta t)) (rt_routes t) (visited ++ [t]).

(** Visiting one more table of those that [p] is handed to. *)
Lemma visit_table_ok rec visited p ts pre t acc s0 s1 s :
  Rec_ok rec visited → t ∈ sn_routeTables snapshot → t ∈ ts →
  let ready := settled_matcher (st_arrays s0) (ri_matcher p) ∧ unshared_below (info_at s0 p) visited ts ∧ extends (st_arrays s0) (st_arrays s1) in
  grows s1 s → (ready → delivers s1 s [] acc (λ d, ∃ t, t ∈ pre ∧ through (info_at s0 p) visited t d)) →
  wp (match checkForCycles t visited with
      | Some e => do! addError top (RRouteTable (rt_meta t)) e ;; ret acc
      | None => sub <~ rec (RRouteTable (rt_meta t)) (rt_routes t) (Some p) (visited ++ [t]) ;; ret (acc ++ sub)
      end) (λ out s', grows s1 s' ∧
    (ready → delivers s1 s' [] out (λ d, ∃ t', t' ∈ pre ++ [t] ∧ through (info_at s0 p) visited t' d))) s.
Proof.
  intros Hrec Hsn Ht ready Hg Hacc. pose proof (checkForCycles_spec t visited) as Hcyc. destruct (checkForCycles t visited).
  - wp_step. apply wp_addError. intros s' Hg' Har. apply wp_ret. split; [by etrans|]. intros Hr. specialize (Hacc Hr).
    unfold delivers in *. rewrite Har. eapply (delivers_ext s1 s); [|exact Hacc].
    intros d. setoid_rewrite elem_of_app. setoid_rewrite list_elem_of_singleton. split.
    + intros (u & ? & ?). exists u. split; [by left|done].
    + intros (u & [?| ->] & Hu); [by exists u|by destruct Hu].
  - wp_step. eapply wp_mono; [by apply Hrec|]. intros sub s' [Hg' Hsub]. apply wp_ret. split; [by etrans|].
    intros Hr. specialize (Hacc Hr). destruct Hr as (Hp & Hun & X1). destruct Hacc as (X2 & Hrest).
    assert (extends (st_arrays s0) (st_arrays s)) as X by by etrans. destruct (info_at_extends _ _ _ X Hp) as [Hp' E].
    rewrite E in Hsub. specialize (Hsub Hp' (Hun t Ht Hcyc)). apply (delivers_table _ _ (ri_matcher (info_at s0 p))) in Hsub.
    eapply delivers_app; [by split|exact Hsub|]. intros d. setoid_rewrite elem_of_app. setoid_rewrite list_elem_of_singleton. split.
    + intros (u & [?| ->] & Hu); [left; by exists u|right; by destruct Hu].
    + intros [(u & ? & ?)|Hu]; [exists u; split; [by left|done]|exists t; split; [by right|done]].
Qed.

Lemma delegate_route_ok rec R r name hasName action visited s :
  Rec_ok rec visited →
  wp (delegate_route snapshot top rec R r name hasName action visited) (λ out s', grows s s' ∧
    (Forall (settled_matcher (st_arrays s)) (er_matchers r) →
     (∀ m ts, getDelegateRouteMatcher (route_at s r) = inr m →
        SelectRouteTables (sn_routeTables snapshot) action (md_namespace (resource_meta R)) = inr ts →
        unshared_below (delegated_info (route_at s r) m) visited ts) →
     delivers s s' [] out (λ d, ∃ m ts t, getDelegateRouteMatcher (route_at s r) = inr m ∧
       SelectRouteTables (sn_routeTables snapshot) action (md_namespace (resource_meta R)) = inr ts ∧
       t ∈ ts ∧ through (delegated_info (route_at s r) m) visited t d))) s.
Proof.
  intros Hrec. unfold delegate_route, route_at. rewrite delegate_matcher_bare, delegate_matcher_listed.
  destruct (getDelegateRouteMatcher r) as [e|m] eqn:Em.
  { wp_step. apply wp_addError. intros s' Hg Har. apply wp_ret. split; [done|]. intros _ _. apply delivers_nil; [by rewrite Har|naive_solver]. }
  destruct (SelectRouteTables _ _ _) as [e|rts] eqn:Ets.
  { wp_step. apply wp_addWarning. intros s' Hg Har. apply wp_ret. split; [done|]. intros _ _. apply delivers_nil; [by rewrite Har|naive_solver]. }
  pose proof (IndexByWeight_tables rts) as Hidx. destruct (IndexByWeight rts) as [idx ws]. simpl in Hidx.
  set (p := {| ri_matcher := m |}).
  assert (info_at s p = delegated_info (bare (listed (st_arrays s) r)) (strip (matcher_value (st_arrays s) m))) as Hinfo by done.
  assert (Forall (settled_matcher (st_arrays s)) (er_matchers r) → settled_matcher (st_arrays s) (ri_matcher p)) as Hset.
  { clear -Em. subst p. simpl. revert Em. unfold getDelegateRouteMatcher. destruct (er_matchers r) as [|m0 [|]]; [|intros Hd Hm|done].
    - intros [= <-] _. apply nil_matcher_settled.
    - inversion_clear Hm. revert Hd. repeat case_match; try done; intros [= <-]; (done || apply nil_matcher_settled). }
  clearbody p. set (ready (s1 : State) := settled_matcher (st_arrays s) (ri_matcher p) ∧ unshared_below (info_at s p) visited rts ∧
    extends (st_arrays s) (st_arrays s1)).
  eapply wp_mono.
  { apply (wp_fold_range_prefix (λ pre out s', grows s s' ∧ (ready s → delivers s s' [] out
      (λ d, ∃ w t, w ∈ pre ∧ t ∈ default [] (idx !! w) ∧ through (info_at s p) visited t d)))).
    { split; [done|]. intros _. apply delivers_nil; [done|]. intros d (w & t & Hw & _). by apply not_elem_of_nil in Hw. }
    intros _ pre w out s1 Hw [Hg1 Hout]. wp_step. eapply wp_mono.
    { apply (wp_fold_range_prefix (λ pre acc s', grows s1 s' ∧ (ready s1 → delivers s1 s' [] acc
        (λ d, ∃ t, t ∈ pre ∧ through (info_at s p) visited t d)))).
      { split; [done|]. intros _. apply delivers_nil; [done|]. intros d (t & Ht & _). by apply not_elem_of_nil in Ht. }
      intros _ pre' t acc s2 Ht [Hg2 Hacc].
      assert (t ∈ rts) as Hrts by (apply Hidx; by exists w).
      eapply wp_mono; [apply (visit_table_ok rec visited p rts pre' t acc s s1 s2); try done; by eapply SelectRouteTables_subset|].
      done. }
    intros sub s2 [Hg2 Hsub]. apply wp_ret. split; [by etrans|]. intros Hr. specialize (Hout Hr). destruct Hr as (R1 & R2 & _).
    assert (ready s1) as Hr1 by (split_and!; [done..|apply Hout]). specialize (Hsub Hr1).
    eapply (delivers_app _ _ _ _ _ _ _ _ _ Hout).
    - instantiate (1 := λ d, ∃ t, t ∈ default [] (idx !! w) ∧ through (info_at s p) visited t d).
      case_match; [by apply delivers_sort|done].
    - intros d. setoid_rewrite elem_of_app. setoid_rewrite list_elem_of_singleton. split.
      + intros (w' & t & [?| ->] & Hd); [left; by exists w', t|right; by exists t].
      + intros [(w' & t & ? & ?)|(t & ?)]; [exists w', t; split; [by left|done]|exists w, t; split; [by right|done]]. }
  intros out s' [Hg Hout]. split; [done|]. intros Hr Hun.
  assert (ready s) as Hready by (split_and!; [by apply Hset|rewrite Hinfo; by apply Hun|done]).
  eapply delivers_ext; [|by apply Hout]. intros d. rewrite Hinfo. simpl. split.
  - intros (w & t & Hw & Ht & Hd). exists (strip (matcher_value (st_arrays s) m)), rts, t. split_and!; [done|done| |done]. apply Hidx. by exists w.
  - intros (m' & ts & t & [= <-] & [= <-] & Ht & Hd). apply Hidx in Ht as (w & Hw & Ht). by exists w, t.
Qed.

(** What a visit needs for its routes to be exact. *)
Definition ready (s : State) (R : Resource) (parentRoute : option routeInfo) (routes : list Route) (visited : list RouteTable) : Prop :=
  (∀ p, parentRoute = Some p → settled_matcher (st_arrays s) (ri_matcher p)) ∧
  unshared (info_at s <$> parentRoute) (md_namespace (resource_meta R)) routes visited.

Lemma ready_extends s s' R parentRoute routes visited : extends (st_arrays s) (st_arrays s') →
  ready s R parentRoute routes visited → ready s' R parentRoute routes visited ∧ info_at s' <$> parentRoute = info_at s <$> parentRoute.
Proof.
  intros Hx [Hp Hun]. destruct parentRoute as [p|]; [|done]. destruct (info_at_extends _ _ _ Hx (Hp p eq_refl)) as [? E].
  unfold ready. cbn [fmap option_fmap option_map]. rewrite E. split; [|done]. split; [by intros ? [= <-]|done].
Qed.

Lemma visit_route_ok rec R parentRoute routes visited idx r s :
  Rec_ok rec visited → r ∈ routes →
  wp (visit_route snapshot gateway proxyName top topOptions rec R parentRoute visited idx r) (λ out s', grows s s' ∧
    (ready s R parentRoute routes visited →
     delivers s s' [] out (delivered_one (info_at s <$> parentRoute) (md_namespace (resource_meta R)) visited r))) s.
Proof.
  intros Hrec Hin. unfold visit_route. wp_step. eapply wp_mono; [apply clone_route_ok|]. intros c s1 (Hg1 & X1 & S1 & E1).
  destruct (routeName R gateway proxyName c parentRoute idx) as [name hasName].
  wp_step. eapply wp_mono; [apply merge_delegated_ok|]. intros r1 s2 (Hg2 & Har2 & Hm2 & Hb2).
  change (er_matchers (with_name c name)) with (er_matchers c) in Hm2.
  assert (route_at s2 r1 = bare r) as Hr1 by (unfold route_at; rewrite Hb2, Har2; exact E1).
  rewrite <-Hm2, <-Har2 in S1. rewrite <-Har2 in X1. assert (grows s s2) as Hg12 by by etrans.
  wp_step. eapply wp_mono; [apply merge_parent_ok|]. intros m s3 [Hg3 H3]. rewrite Hr1 in H3.
  assert (ready s R parentRoute routes visited → extends (st_arrays s) (st_arrays s3) ∧
    match m with
    | Some r2 => Forall (settled_matcher (st_arrays s3)) (er_matchers r2) ∧ merged (info_at s <$> parentRoute) (bare r) = Some (route_at s3 r2)
    | None => merged (info_at s <$> parentRoute) (bare r) = None
    end) as Hmerge.
  { intros Hr. destruct (ready_extends _ _ _ _ _ _ X1 Hr) as [[Hset Hun] E]. rewrite <-E. destruct H3 as [X3 H3]; [|done|split; [by etrans|done]].
    intros p ->. split; [by apply Hset|]. intros Hi. apply (Hun (info_at s2 p) routes r); [constructor|done|].
    rewrite <-Hi. unfold inherits. rewrite <-(f_equal er_inheritableMatchers Hr1 : er_inheritableMatchers r1 = er_inheritableMatchers r). done. }
  clear H3. assert (grows s s3) as Hg by by etrans. destruct m as [r2|].
  2: { apply wp_ret. split; [done|]. intros [Hx Hn]%Hmerge. apply delivers_nil; [done|]. intros d (r' & E & _). congruence. }
  assert (ready s R parentRoute routes visited → er_action r2 = er_action r) as Ha.
  { intros (_ & _ & Hr2)%Hmerge. revert Hr2. unfold merged. destruct (info_at s <$> parentRoute); [case_match; [done|]|]; by intros [= E]. }
  assert (ready s R parentRoute routes visited → ∀ d,
    delivered_one (info_at s <$> parentRoute) (md_namespace (resource_meta R)) visited r d ↔
    (∃ a, default_upstreams (md_namespace (resource_meta R)) (er_action r2) = Some a ∧ simple a ∧ d = (or_default (er_matchers (route_at s3 r2)), a, [])) ∨
    (∃ action m ts t, er_action r2 = Some (Delegate action) ∧ getDelegateRouteMatcher (route_at s3 r2) = inr m ∧
       SelectRouteTables (sn_routeTables snapshot) action (md_namespace (resource_meta R)) = inr ts ∧ t ∈ ts ∧
       through (delegated_info (route_at s3 r2) m) visited t d)) as Hone.
  { intros Hr d. destruct (Hmerge Hr) as (_ & _ & Hr2). unfold delivered_one. rewrite Hr2, (Ha Hr). unfold through. split.
    - intros (r' & [= <-] & [?|(action & m & ts & t & tables & ? & ? & ? & ? & ? & ? & ?)]); [by left|right].
      exists action, m, ts, t. split_and!; [done..|]. by exists tables.
    - intros Hd. exists (route_at s3 r2). split; [done|]. destruct Hd as [?|(action & m & ts & t & ? & ? & ? & ? & ? & tables & ? & ?)]; [by left|right].
      by exists action, m, ts, t, tables. }
  assert ((∀ a, er_action r2 ≠ Some (Delegate a)) →
    wp (convert_route top R r2 hasName) (λ out s', grows s s' ∧ (ready s R parentRoute routes visited →
      delivers s s' [] out (delivered_one (info_at s <$> parentRoute) (md_namespace (resource_meta R)) visited r))) s3) as Hconv.
  { intros Hn. eapply wp_mono; [by apply convert_route_ok|]. intros out s' [Hg' Hd]. split; [by etrans|]. intros Hr.
    destruct (Hmerge Hr) as (Hx & Hs & _). eapply delivers_extends; [exact Hx|]. eapply delivers_ext; [|by apply Hd].
    intros d. rewrite (Hone Hr d). split; [by left|]. intros [?|(action & m & ts & t & E & _)]; [done|by apply Hn in E]. }
  destruct (er_action r2) as [[| | | |action]|] eqn:Ea; [by apply Hconv.. | |by apply Hconv]. clear Hconv.
  eapply wp_mono; [by apply delegate_route_ok|]. intros out s' [Hg' Hd]. split; [by etrans|]. intros Hr.
  destruct (Hmerge Hr) as (Hx & Hs & Hr2). eapply delivers_extends; [exact Hx|]. eapply delivers_ext; [|apply Hd; [done|]].
  - intros d. rewrite (Hone Hr d). split.
    + intros (m & ts & t & Hthrough). right. by exists action, m, ts, t.
    + intros [(a & [= <-] & [] & _)|(? & m & ts & t & [= <-] & Hthrough)]. by exists m, ts, t.
  - intros m ts Hm Hts t Ht Hn p rs r0 Hh. specialize (Ha Hr). destruct Hr as [_ Hun]. apply Hun. by eapply handed_on_below; try done; congruence.
Qed.

(** The tables a branch can still visit. *)
Definition unvisited (visited : list RouteTable) : gset positive := tables_of ∖ list_to_set (rt_ptr <$> visited).

Lemma unvisited_less visited t :
  t ∈ sn_routeTables snapshot → rt_ptr t ∉ (rt_ptr <$> visited) → size (unvisited (visited ++ [t])) < size (unvisited visited).
Proof.
  intros Ht Hn. apply subset_size. unfold unvisited. rewrite fmap_app, list_to_set_app_L. simpl.
  assert (rt_ptr t ∈ tables_of) by (apply elem_of_list_to_set, list_elem_of_fmap; eauto).
  apply strict_spec_alt. split; [set_solver|]. intros E. assert (rt_ptr t ∈ tables_of ∖ list_to_set (rt_ptr <$> visited)) as Hx.
  { apply elem_of_difference. split; [done|]. by rewrite elem_of_list_to_set. }
  rewrite <-E in Hx. set_solver.
Qed.

Lemma unvisited_nil : size (unvisited []) ≤ length (sn_routeTables snapshot).
Proof.
  transitivity (size tables_of).
  - apply subseteq_size. unfold unvisited. set_solver.
  - unfold tables_of. rewrite <-(length_fmap rt_ptr). induction (rt_ptr <$> sn_routeTables snapshot) as [|p l IH]; simpl; [done|].
    pose proof (size_union_alt {[ p ]} (list_to_set l : gset positive)) as ->. rewrite size_singleton.
    assert (size (list_to_set l ∖ {[p]} : gset positive) ≤ size (list_to_set l : gset positive)) by (apply subseteq_size; set_solver).
    lia.
Qed.

Lemma visit_ok fuel : ∀ R routes parentRoute visited s,
  size (unvisited visited) < fuel →
  wp (visit snapshot gateway proxyName top topOptions fuel R routes parentRoute visited) (λ out s', grows s s' ∧
    (ready s R parentRoute routes visited →
     delivers s s' [makeSourceRef R] out (delivered (info_at s <$> parentRoute) (md_namespace (resource_meta R)) routes visited))) s.
Proof.
  induction fuel as [|fuel IH]; intros R routes parentRoute visited s Hf; [lia|]. simpl. wp_step.
  eapply wp_mono.
  { apply (wp_fold_range_prefix (λ pre out s', grows s s' ∧ (ready s R parentRoute routes visited → delivers s s' [] out
      (λ d, ∃ r, r ∈ pre ∧ delivered_one (info_at s <$> parentRoute) (md_namespace (resource_meta R)) visited r d)))).
    { split; [done|]. intros _. apply delivers_nil; [done|]. intros d (r & Hr & _). by apply not_elem_of_nil in Hr. }
    intros idx pre r acc s1 Hr [Hg1 Hacc]. wp_step. eapply wp_mono.
    - apply (visit_route_ok _ _ _ routes); [|done]. intros t p s2 Ht Hn.
      pose proof (unvisited_less visited t Ht Hn). eapply wp_mono; [apply IH; lia|].
      intros out s3 [Hg3 Hout]. split; [done|]. intros Hp Hun. apply Hout. split; [by intros ? [= <-]|done].
    - intros rs s2 [Hg2 Hrs]. apply wp_ret. split; [by etrans|]. intros Hready. specialize (Hacc Hready).
      destruct (ready_extends _ s1 _ _ _ _ (proj1 Hacc) Hready) as [Hready1 E]. rewrite E in Hrs. specialize (Hrs Hready1).
      eapply delivers_app; [exact Hacc|exact Hrs|].
      intros d. setoid_rewrite elem_of_app. setoid_rewrite list_elem_of_singleton. split.
      + intros (u & [?| ->] & ?); [left; by exists u|by right].
      + intros [(u & ? & ?)|?]; [exists u; split; [by left|done]|exists r; split; [by right|done]]. }
  intros out s1 [Hg Hout]. apply wp_ret. split; [done|]. intros Hready. apply delivers_source. eapply delivers_ext; [|by apply Hout].
  intros d. simpl. by rewrite delivered_iff.
Qed.

(** C35. Converting a virtual service ends, whatever cycles its route tables form, and only
    adds reports. It gives exactly the routes that its leaf routes deliver: those reached
    through route tables selected by delegating routes that the matcher above allows, no
    table twice on the way, with the leaf's action (upstreams without namespace in that of
    the table), the inherited matchers, and as sources the tables passed through and the
    virtual service; provided that where routes inherit the headers, query parameters and
    methods of a matcher, the slices of that matcher have no room for more. *)
Theorem ConvertVirtualService_exact fuel routes s :
  length (sn_routeTables snapshot) < fuel →
  ∃ out s', ConvertVirtualService snapshot gateway proxyName top topOptions fuel routes s = Ok (out, s') ∧ grows s s' ∧
    (unshared None (md_namespace top) routes [] →
     shows [makeSourceRef (RVirtualService top)] (map (route_value (st_arrays s')) out) (delivered None (md_namespace top) routes [])).
Proof.
  intros Hf. assert (size (unvisited []) < fuel) as Hf' by (pose proof unvisited_nil; lia).
  destruct (wp_run _ _ _ (visit_ok fuel (RVirtualService top) routes None [] s Hf')) as (out & s' & Hrun & Hg & Hd).
  exists out, s'. split_and!; [done|done|]. intros Hun. by apply Hd.
Qed.

(** *** Deciding [unshared] *)
Definition roomlessb (n : nat) : bool :=
  (n =? 0) || forallb (λ z, (cloned_cap z n =? n) && forallb (λ c, grown_cap z c n =? n) (seq 0 n)) [PointerSize; StringSize].
Definition hands_on_safely (p : info) (r : Route) : bool :=
  negb (inherits r p) || roomlessb (length (em_headers (ri_matcher p))) && roomlessb (length (em_queryParameters (ri_matcher p))) &&
                         roomlessb (length (em_methods (ri_matcher p))).
Fixpoint unsharedb (fuel : nat) (parent : option info) (ns : string) (routes : list Route) (visited : list RouteTable) : bool :=
  match fuel with
  | O => false
  | S fuel =>
      match parent with Some p => forallb (hands_on_safely p) routes | None => true end &&
      forallb (λ r,
        match merged parent (bare r), er_action r with
        | Some r', Some (Delegate action) =>
            match getDelegateRouteMatcher r', SelectRouteTables (sn_routeTables snapshot) action ns with
            | inr m, inr ts =>
                forallb (λ t, bool_decide (rt_ptr t ∈ (rt_ptr <$> visited)) ||
                              unsharedb fuel (Some (delegated_info r' m)) (md_namespace (rt_meta t)) (rt_routes t) (visited ++ [t])) ts
            | _, _ => true
            end
        | _, _ => true
        end) routes
  end.

Lemma roomlessb_true n : roomlessb n = true → roomless n.
Proof.
  unfold roomlessb. rewrite orb_true_iff, Nat.eqb_eq, forallb_elem. intros [?|Hz]; [by left|right]. intros z.
  assert ((cloned_cap z n =? n) && forallb (λ c, grown_cap z c n =? n) (seq 0 n) = true) as Hok by (apply Hz; destruct z; set_solver).
  rewrite andb_true_iff, Nat.eqb_eq, forallb_elem in Hok. destruct Hok as [? Hc]. split; [done|]. intros c Hlt.
  apply Nat.eqb_eq, Hc, list_elem_of_In, in_seq. lia.
Qed.

Lemma unsharedb_true fuel parent ns routes visited : unsharedb fuel parent ns routes visited = true → unshared parent ns routes visited.
Proof.
  intros Hb p rs r Hh Hr Hi. revert fuel Hb.
  induction Hh as [p ns routes visited|parent ns routes visited r0 r' action m ts t p rs Hr0 Hm Ha Hd Hts Ht Hn Hh IH];
    intros [|fuel]; try done; simpl; rewrite andb_true_iff; intros [H1 H2].
  - rewrite forallb_elem in H1. specialize (H1 r Hr). unfold hands_on_safely in H1. rewrite Hi in H1. simpl in H1.
    apply andb_true_iff in H1 as [[? ?]%andb_true_iff ?]. split_and!; by apply roomlessb_true.
  - rewrite forallb_elem in H2. specialize (H2 r0 Hr0). rewrite Hm, Ha, Hd, Hts, forallb_elem in H2. specialize (H2 t Ht).
    rewrite bool_decide_eq_false_2 in H2 by done. by eapply IH.
Qed.

(** ** Confinement *)
Lemma merged_refines parent r r' : merged parent r = Some r' →
  ∀ p, parent = Some p → er_matchers r' ≠ [] ∧ Forall (refines (ri_matcher p)) (er_matchers r').
Proof.
  intros Hr p ->. unfold merged in Hr. destruct (isRouteTableValidForDelegateMatcher _ _) eqn:E; [done|].
  injection Hr as <-. simpl. split; [|by apply valid_refines]. unfold inherited, path_matchers.
  destruct (er_matchers r); simpl; by repeat case_match.
Qed.

(** Every delivery refines all the matchers it was delegated from, and its tables are
    distinct tables of the snapshot. *)
Lemma delivered_confined parent ns routes visited d : delivered parent ns routes visited d →
  (∀ p, parent = Some p → delegating (ri_matcher p)) → NoDup (rt_ptr <$> visited) →
  d.1.1 ≠ [] ∧ (∀ p, parent = Some p → Forall (refines (ri_matcher p)) d.1.1) ∧
  (∀ m, m ∈ d.2.*1 → Forall (refines m) d.1.1) ∧
  d.2.*2 ⊆ sn_routeTables snapshot ∧ NoDup (rt_ptr <$> visited ++ rev d.2.*2).
Proof.
  induction 1 as [parent ns routes visited r r' a Hr Hr' Ha Hs
                 |parent ns routes visited r r' action m ts t ms a tables Hr Hr' Ha Hm Hts Ht Hn Hd IH]; intros Hp Hnd; simpl in *.
  - pose proof (merged_refines _ _ _ Hr') as Href. split_and!.
    + unfold or_default. by destruct (er_matchers r').
    + intros p E. destruct (Href p E) as [Hne Hall]. unfold or_default. by destruct (er_matchers r').
    + intros m Hm. by apply not_elem_of_nil in Hm.
    + set_solver.
    + by rewrite app_nil_r.
  - destruct (delegate_matcher_spec _ _ Hm) as [Hdel Hpm]. destruct IH as (Hne & Hinfo & Hch & Hsub & Hnd').
    { by intros p [= <-]. }
    { rewrite fmap_app. apply NoDup_app. split_and!; [done|set_solver|apply NoDup_singleton]. }
    specialize (Hinfo _ eq_refl). simpl in Hinfo. split_and!.
    + done.
    + intros p E. destruct (merged_refines _ _ _ Hr' p E) as [Hne' Hall]. destruct (Hp p E) as [Hpre Hpath].
      eapply Forall_impl; [exact Hinfo|]. intros x. apply refines_trans; [done|]. by apply Hpm.
    + intros m'. rewrite fmap_app, elem_of_app. simpl. rewrite list_elem_of_singleton. intros [?| ->]; [by apply Hch|done].
    + rewrite fmap_app. simpl. intros x [?|Hx]%elem_of_app; [by apply Hsub|]. apply list_elem_of_singleton in Hx as ->.
      by eapply SelectRouteTables_subset.
    + rewrite (fmap_app snd tables), rev_app_distr. simpl. by rewrite <-(assoc_L (++)) in Hnd'.
Qed.

Lemma delivered_delegating parent ns routes visited d : delivered parent ns routes visited d →
  ∀ m, m ∈ d.2.*1 → delegating m.
Proof.
  induction 1 as [|parent ns routes visited r r' action m ts t ms a tables Hr Hr' Ha Hm Hts Ht Hn Hd IH]; simpl in *; intros m' Hm'.
  - by apply not_elem_of_nil in Hm'.
  - rewrite fmap_app, elem_of_app in Hm'. simpl in Hm'. rewrite list_elem_of_singleton in Hm'. destruct Hm' as [?| ->]; [by apply IH|].
    by destruct (delegate_matcher_spec _ _ Hm).
Qed.
End Traversal.

(** ** Requests

    What a request must satisfy, whatever headers, query parameters and regular
    expressions mean; methods aside. *)
Section Requests.
Context {Request : Type} (path : Request → string) (regex_ok : string → Request → bool).
Context (header_ok : HeaderMatcher → Request → bool) (query_ok : QueryParameterMatcher → Request → bool).

Definition fold_case (m : Matcher) (s : string) : string :=
  if default true (option_map bv_value (em_caseSensitive m)) then s else to_lower s.
Definition path_ok (m : Matcher) (req : Request) : bool :=
  match em_path m with
  | Some (Matcher_Prefix s) => has_prefix (fold_case m (path req)) (fold_case m s)
  | Some (Matcher_Exact s) => bool_decide (fold_case m (path req) = fold_case m s)
  | Some (Matcher_Regex s) => regex_ok s req
  | _ => true
  end.
Definition accepts (m : Matcher) (req : Request) : bool :=
  path_ok m req && forallb (λ h, header_ok h req) (em_headers m) && forallb (λ q, query_ok q req) (em_queryParameters m).
Definition regex_matcher (m : Matcher) : bool := match em_path m with Some (Matcher_Regex _) => true | _ => false end.

Lemma to_lower_app p t : to_lower (p +:+ t) = to_lower p +:+ to_lower t.
Proof. induction p as [|a p IH]; simpl; [done|]. by rewrite IH. Qed.

Lemma fold_case_prefix m s p : has_prefix s p = true → has_prefix (fold_case m s) (fold_case m p) = true.
Proof.
  unfold fold_case. case_match; [done|]. rewrite !has_prefix_spec. intros [t ->]. exists (to_lower t). apply to_lower_app.
Qed.

Lemma refines_accepts p m req :
  delegating p → refines p m → regex_matcher m = false → accepts m req = true → accepts p req = true.
Proof.
  intros [Hp Hpath] [R1 R2 R3 R4 _]. unfold regex_matcher, accepts. rewrite !andb_true_iff, !forallb_elem.
  intros Hre [[Hok Hh] Hq]. split_and!; [|by auto..].
  assert (∀ x, fold_case m x = fold_case p x) as Hf by (intros x; unfold fold_case; by rewrite R2).
  unfold path_ok in *. unfold GetPrefix in *. destruct (em_path p) as [[sp| | |]|]; try done. unfold PathAsString in R1.
  destruct (em_path m) as [[sm|sm|sm|]|]; simpl in *; try done; try (by apply has_prefix_empty in R1).
  - rewrite <-!Hf. eapply has_prefix_trans; [exact Hok|]. by apply fold_case_prefix.
  - apply bool_decide_eq_true in Hok. rewrite <-!Hf, Hok. by apply fold_case_prefix.
Qed.

Lemma accepts_strip m req : accepts (strip m) req = accepts m req.
Proof.
  unfold accepts, path_ok, fold_case. simpl. destruct (em_caseSensitive m); reflexivity.
Qed.

Context `{!Labels, !GoRange Z, !SliceCapacity}.

(** Route tables cannot take requests that were not delegated to them: when no routes share
    room behind inherited matchers, a route that a virtual service converts to is a delivery
    of its leaf routes through distinct route tables, its sources, and each of its matchers
    that is not a regular expression only accepts requests whose path, headers and query
    parameters all the matchers on the way accept. *)
Theorem ConvertVirtualService_confined snapshot gateway proxyName top topOptions fuel routes s out s' :
  ConvertVirtualService snapshot gateway proxyName top topOptions fuel routes s = Ok (out, s') →
  length (sn_routeTables snapshot) < fuel → unshared snapshot None (md_namespace top) routes [] →
  ∀ g, g ∈ map (route_value (st_arrays s')) out → ∃ chain,
    delivered snapshot None (md_namespace top) routes [] (map strip (or_matchers g), or_action g, chain) ∧
    or_sources g = table_sources chain ++ [makeSourceRef (RVirtualService top)] ∧
    chain.*2 ⊆ sn_routeTables snapshot ∧ NoDup (rt_ptr <$> chain.*2) ∧ or_matchers g ≠ [] ∧
    ∀ m p req, m ∈ or_matchers g → p ∈ chain.*1 → regex_matcher m = false → accepts m req = true → accepts p req = true.
Proof.
  intros Hrun Hf Hun g Hg. assert (size (unvisited snapshot []) < fuel) as Hf' by (pose proof (unvisited_nil snapshot); lia).
  pose proof (visit_ok snapshot gateway proxyName top topOptions fuel (RVirtualService top) routes None [] s Hf') as Hwp.
  unfold wp, ConvertVirtualService in *. rewrite Hrun in Hwp. destruct Hwp as [_ (_ & _ & Hshow)]; [done|].
  destruct (proj1 (Hshow (view g))) as ([[ms a] chain] & Hd & Hv).
  { change (view g ∈ view <$> map (route_value (st_arrays s')) out). by apply list_elem_of_fmap_2. }
  injection Hv as Hms Ha Hsrc. exists chain. pose proof Hd as Hd'.
  apply delivered_confined in Hd' as (Hne & _ & Hch & Hsub & Hnd); [|done|apply NoDup_nil_2].
  simpl in *. split_and!.
  - by rewrite Hms, Ha.
  - done.
  - done.
  - by rewrite <-(Permutation_rev chain.*2) in Hnd.
  - intros E. rewrite E in Hms. by subst ms.
  - intros m p req Hm Hp Hre Hacc. assert (refines p (strip m)) as Href.
    { specialize (Hch p Hp). rewrite Forall_forall in Hch. apply Hch. rewrite <-Hms.
      change (map strip (or_matchers g)) with (strip <$> or_matchers g). by apply list_elem_of_fmap_2. }
    eapply refines_accepts; [|exact Href|exact Hre|by rewrite accepts_strip].
    by eapply delivered_delegating.
Qed.
End Requests.

(** ** Concrete runs *)
Section Examples.
Definition ex_labels : Labels := {|
  SelectorFromSet := λ sel l, forallb (λ '(k, v), bool_decide (l !! k = Some v)) (map_to_list sel);
  NewRequirement := λ e, if bool_decide (ex_operator e = 0)%Z then inr (λ l, bool_decide (l !! ex_key e ≠ None)) else inl "operator" |}.
#[local] Existing Instance ex_labels.
Definition ex_z_order : GoRange Z := list_order.
#[local] Existing Instance ex_z_order.

(** The capacities of the Go runtime for a few elements: [proto.Clone] appends pointers one by
    one and strings at once; a capacity is doubled unless that is too little; memory comes
    in pieces of 8, 16, 24, 32 bytes and then of multiples of 16. *)
Definition ex_cloned (z : ElementSize) (n : nat) : nat := match z with PointerSize => 2 ^ Nat.log2_up n | StringSize => n end.
Definition ex_piece (z : ElementSize) (n : nat) : nat :=
  match z with PointerSize => if n <=? 4 then n else n + n mod 2 | StringSize => n end.
Definition ex_grown (z : ElementSize) (c n : nat) : nat := ex_piece z (Nat.max n (2 * c)).
Lemma ex_cloned_le z n : n ≤ ex_cloned z n.
Proof. destruct z; simpl; [|done]. destruct n as [|[|n]]; [by apply Nat.leb_le..|]. apply Nat.log2_up_spec. lia. Qed.
Lemma ex_piece_le z n : n ≤ ex_piece z n.
Proof. unfold ex_piece. destruct z; [|done]. destruct (n <=? 4); [done|]. apply Nat.le_add_r. Qed.
Lemma ex_grown_le z c n : n ≤ ex_grown z c n.
Proof. unfold ex_grown. etrans; [apply (Nat.le_max_l n (2 * c))|apply ex_piece_le]. Qed.
Definition ex_capacity : SliceCapacity :=
  {| cloned_cap := ex_cloned; grown_cap := ex_grown; cloned_cap_le := ex_cloned_le; grown_cap_le := ex_grown_le |}.
#[local] Existing Instance ex_capacity.

(** Up to two headers leave no room, three do. *)
Example ex_roomless : roomless 0 ∧ roomless 1 ∧ roomless 2 ∧ ¬ roomless 3.
Proof.
  split_and!; [by apply roomlessb_true; vm_compute..|]. intros [?|Hz]; [done|]. by destruct (Hz PointerSize) as [[=] _].
Qed.

Definition ex_meta (name : string) (l : gmap string string) : Metadata :=
  {| md_name := name; md_namespace := "default"; md_generation := 1; md_labels := l; md_annotations := ∅ |}.
Definition ex_matcher (path : PathSpecifier) : Matcher :=
  {| em_path := Some path; em_caseSensitive := None; em_headers := []; em_queryParameters := []; em_methods := [] |}.
Definition ex_upstream : Action := RouteAction (Single {| de_upstream := Some {| nn_ns := ""; nn_name := "up" |}; de_other := "" |}).
Definition ex_delegate (name : string) : Action := Delegate {| da_name := name; da_namespace := "default"; da_type := None |}.
Definition ex_route (path : PathSpecifier) (a : Action) (options : option positive) (refs : list NamespacedName) : Route :=
  {| er_matchers := [ex_matcher path]; er_inheritableMatchers := None; er_inheritablePathMatchers := None; er_action := Some a;
     er_options := options; er_optionRefs := refs; er_name := "" |}.
Definition ex_table (p : positive) (name : string) (routes : list Route) : RouteTable :=
  {| rt_ptr := p; rt_meta := ex_meta name ∅; rt_routes := routes; rt_weight := None |}.

(** Two tables that delegate to each other. *)
Definition ex_snapshot (options : list OptionResource) : ApiSnapshot := {|
  sn_gateways := []; sn_httpGateways := []; sn_tcpGateways := []; sn_virtualServices := [];
  sn_routeTables := [
    ex_table 1 "a" [ex_route (Matcher_Prefix "/foo/bar") ex_upstream None [];
                    ex_route (Matcher_Prefix "/other") ex_upstream None [];
                    ex_route (Matcher_Prefix "/foo/b") (ex_delegate "b") None []];
    ex_table 2 "b" [ex_route (Matcher_Exact "/foo/b/x") ex_upstream None [];
                    ex_route (Matcher_Prefix "/foo/b/y") (ex_delegate "a") None []]];
  sn_routeOptions := options; sn_virtualHostOptions := [] |}.
Definition ex_gateway : Gateway :=
  {| gw_meta := ex_meta "gw" ∅; gw_bindAddress := "::"; gw_bindPort := 8080; gw_ssl := false; gw_type := None; gw_settings := "" |}.
Definition ex_state (h : Store) : State := {| st_store := h; st_reports := []; st_arrays := {| ar_headers := []; ar_queryParameters := []; ar_methods := [] |} |}.
Definition ex_store : Store := {| s_transformations := ∅; s_stages := ∅; s_options := ∅;
  s_listenerOptions := ∅; s_virtualServices := ∅; s_next := 1 |}.
Definition ex_convert (options : list OptionResource) (routes : list Route) (h : Store) : res (list (GlooRoute_of Slice) * State) :=
  ConvertVirtualService (ex_snapshot options) ex_gateway "proxy" (ex_meta "vs" ∅) None 3 routes (ex_state h).
Definition ex_routes : list Route := [ex_route (Matcher_Prefix "/foo") (ex_delegate "a") None []].

(** The paths and sources of a run's routes, and the errors reported. *)
Definition ex_summary (r : res (list (GlooRoute_of Slice) * State)) : option (list (list string * list string) * nat) :=
  match r with
  | Ok (out, s) => Some (map (λ g, (map PathAsString (or_matchers g), map (λ x, nn_name (src_ref x)) (or_sources g))) out,
                         length (st_reports s))
  | _ => None
  end.

(** The route outside the delegated prefix is dropped, the cycle is reported, each on its
    table and on the virtual service. *)
Example ex_convert_run :
  ex_summary (ex_convert [] ex_routes ex_store) = Some ([(["/foo/bar"], ["a"; "vs"]); (["/foo/b/x"], ["b"; "a"; "vs"])], 4).
Proof. vm_compute. reflexivity. Qed.

(** A table whose routes inherit the headers of the route that delegates to them. *)
Definition ex_header (name : string) : HeaderMatcher := {| hm_name := name; hm_value := "1"; hm_regex := false; hm_invert := false |}.
Definition ex_headers_route (path : string) (names : list string) (a : Action) : Route :=
  {| er_matchers := [{| em_path := Some (Matcher_Prefix path); em_caseSensitive := None; em_headers := map ex_header names;
                        em_queryParameters := []; em_methods := [] |}];
     er_inheritableMatchers := Some true; er_inheritablePathMatchers := None; er_action := Some a;
     er_options := None; er_optionRefs := []; er_name := "" |}.
Definition ex_inheriting : ApiSnapshot := {|
  sn_gateways := []; sn_httpGateways := []; sn_tcpGateways := []; sn_virtualServices := [];
  sn_routeTables := [ex_table 1 "t" [ex_headers_route "/foo/a" ["a"] ex_upstream; ex_headers_route "/foo/b" ["b"] ex_upstream]];
  sn_routeOptions := []; sn_virtualHostOptions := [] |}.
Definition ex_inherit (names : list string) : res (list (GlooRoute_of Slice) * State) :=
  ConvertVirtualService ex_inheriting ex_gateway "proxy" (ex_meta "vs" ∅) None 2
    [ex_headers_route "/foo" names (ex_delegate "t")] (ex_state ex_store).
(** The paths and header names of a run's routes. *)
Definition ex_headers (r : res (list (GlooRoute_of Slice) * State)) : list (string * list string) :=
  match r with
  | Ok (out, s) => flat_map (λ g, map (λ m, (PathAsString m, map hm_name (em_headers m))) (or_matchers (route_value (st_arrays s) g))) out
  | _ => []
  end.

Lemma ConvertVirtualService_exact_witness :
  ∃ out s', ex_inherit ["x"; "y"] = Ok (out, s') ∧ ex_headers (Ok (out, s')) = [("/foo/a", ["x"; "y"; "a"]); ("/foo/b", ["x"; "y"; "b"])] ∧
    shows [makeSourceRef (RVirtualService (ex_meta "vs" ∅))] (map (route_value (st_arrays s')) out)
      (delivered ex_inheriting None "default" [ex_headers_route "/foo" ["x"; "y"] (ex_delegate "t")] []).
Proof.
  destruct (ConvertVirtualService_exact ex_inheriting ex_gateway "proxy" (ex_meta "vs" ∅) None 2
              [ex_headers_route "/foo" ["x"; "y"] (ex_delegate "t")] (ex_state ex_store) ltac:(simpl; lia)) as (out & s' & Hrun & _ & Hshow).
  exists out, s'. split; [exact Hrun|]. split; [vm_compute in Hrun; by injection Hrun as <- <-|].
  apply Hshow. apply (unsharedb_true _ 3). vm_compute. reflexivity.
Defined.

(** Three headers leave room for a fourth: both routes append theirs to the same array, and the
    first route ends up with the header of the second. *)
Example siblings_overwrite_inherited_headers :
  ex_headers (ex_inherit ["x"; "y"; "z"]) = [("/foo/a", ["x"; "y"; "z"; "b"]); ("/foo/b", ["x"; "y"; "z"; "b"])].
Proof. vm_compute. reflexivity. Qed.

Lemma ConvertVirtualService_confined_witness :
  ∃ out s' g chain, ex_convert [] ex_routes ex_store = Ok (out, s') ∧ g ∈ map (route_value (st_arrays s')) out ∧
    map PathAsString (or_matchers g) = ["/foo/b/x"] ∧
    or_sources g = table_sources chain ++ [makeSourceRef (RVirtualService (ex_meta "vs" ∅))] ∧ length chain = 2.
Proof.
  destruct (ex_convert [] ex_routes ex_store) as [[out s']| |] eqn:Hrun; [|vm_compute in Hrun; discriminate..].
  assert (∃ g, map (route_value (st_arrays s')) out !! 1 = Some g ∧ map PathAsString (or_matchers g) = ["/foo/b/x"] ∧ length (or_sources g) = 3) as (g & Hg & Hp & Hl).
  { vm_compute in Hrun. injection Hrun as <- <-. eexists. split_and!; reflexivity. }
  destruct (ConvertVirtualService_confined (Request := string) (λ p, p) (λ _ _, true) (λ _ _, true) (λ _ _, true)
    (ex_snapshot []) ex_gateway "proxy" (ex_meta "vs" ∅) None 3 ex_routes (ex_state ex_store) out s' Hrun ltac:(simpl; lia)
    ltac:(apply (unsharedb_true _ 4); vm_compute; reflexivity) g (list_elem_of_lookup_2 _ _ _ Hg)) as (chain & _ & Hsrc & _).
  exists out, s', g, chain. split_and!; [done|by eapply list_elem_of_lookup_2|done|done|].
  rewrite Hsrc, length_app in Hl. unfold table_sources in Hl. rewrite length_map in Hl. simpl in Hl. lia.
Defined.

(** A regular expression only has to begin with the delegated prefix as a string. *)
Example regex_escapes_the_prefix :
  check_matcher (ex_matcher (Matcher_Prefix "/foo")) (ex_matcher (Matcher_Regex "/foo|/admin")) = None.
Proof. reflexivity. Qed.

(** A delegating matcher without a path loses its headers. *)
Example pathless_delegating_matcher_loses_headers :
  getDelegateRouteMatcher {| er_matchers := [{| em_path := None; em_caseSensitive := None;
      em_headers := [{| hm_name := "x"; hm_value := "y"; hm_regex := false; hm_invert := false |}];
      em_queryParameters := []; em_methods := [] |}];
    er_inheritableMatchers := None; er_inheritablePathMatchers := None; er_action := Some (ex_delegate "a");
    er_options := None; er_optionRefs := []; er_name := "" |} = inr (DefaultMatcher : Matcher).
Proof. reflexivity. Qed.

(** A route without options takes the first RouteOption's object itself, and the second is
    merged into it: the snapshot's resource gains fields it does not set. *)
Definition ex_ref (name : string) : NamespacedName := {| nn_ns := "default"; nn_name := name |}.
Definition ex_leaky : list Route := [ex_route (Matcher_Prefix "/") ex_upstream None [ex_ref "o1"; ex_ref "o2"]].
Definition ex_leaky_store : Store := {| s_transformations := ∅; s_stages := ∅;
  s_options := <[1%positive := {| op_staged := None; op_fields := {["timeout" := "1s"]} |}]>
                 {[2%positive := {| op_staged := None; op_fields := {["retries" := "3"]} |}]};
  s_listenerOptions := ∅; s_virtualServices := ∅; s_next := 3 |}.
Example delegated_options_leak_into_the_snapshot :
  match ex_convert [{| or_ref := ex_ref "o1"; or_options := Some 1%positive |}; {| or_ref := ex_ref "o2"; or_options := Some 2%positive |}]
                   ex_leaky ex_leaky_store with
  | Ok (_, s) => option_map (λ o, op_fields o !! "retries") (s_options (st_store s) !! 1%positive)
  | _ => None
  end = Some (Some "3").
Proof. vm_compute. reflexivity. Qed.
End Examples.
