(* ===== verification/ShortCircuit.v ===== *)
(** * gateway/pkg/translator/virtual_service_translator.go: routes that hide later ones

    The checks on the matchers of a virtual host in their final order, which produce the
    warnings of [validateRouteShortCircuiting]. Regular expressions of users are compiled
    by the interface [Regexp]; the fixed one of the source, [^\([\w]+([|[\w]+)+\)$], is
    written out. The checks append to the header slices of the matchers they compare. *)

From stdpp Require Import base strings list.
From Stdlib Require Import Ascii.
From S2P Require Import Prelude GoLib GwApi EdgeApi RouteConverter.
Import Edge.

(** [regexp.Compile]: an error, or whether [FindStringIndex] finds a match. *)
Class Regexp := { regexp_compile : string → string + (string → bool) }.

Module ShortCircuit.
(** The characters of [\w] and of [[|[\w]]. *)
Definition word_char (a : ascii) : bool :=
  let n := nat_of_ascii a in
  ((48 <=? n) && (n <=? 57)) || ((65 <=? n) && (n <=? 90)) || ((97 <=? n) && (n <=? 122)) || (n =? 95).
Definition or_char (a : ascii) : bool := word_char a || Ascii.eqb a "|" || Ascii.eqb a "[".

(** What follows the first word character: a non-empty run of [or_char] and a final ')'. *)
Fixpoint or_tail (nonempty : bool) (s : string) : bool :=
  match s with
  | String a EmptyString => Ascii.eqb a ")" && nonempty
  | String a s => or_char a && or_tail true s
  | EmptyString => false
  end.
Definition simple_or (s : string) : bool :=
  match s with
  | String p (String a s) => Ascii.eqb p "(" && word_char a && or_tail false s
  | _ => false
  end.

(** [strings.Split(s, "|")] *)
Fixpoint split_bar (s : string) : list string :=
  match s with
  | EmptyString => [""]
  | String a s =>
      if Ascii.eqb a "|" then "" :: split_bar s
      else match split_bar s with
           | x :: l => String a x :: l
           | [] => [String a ""]
           end
  end.
(** [s[1:len(s)-1]] *)
Definition inner (s : string) : string := String.substring 1 (String.length s - 2) s.

Section Checks.
Context `{!Regexp, !SliceCapacity}.

Definition laterOrRegexPartiallyShortCircuited (later early : HeaderMatcher) : bool :=
  if simple_or (hm_value later) then
    let matches := split_bar (inner (hm_value later)) in
    if hm_regex early then
      match regexp_compile (hm_value early) with
      | inl _ => false
      | inr re => existsb (λ m, (re m && negb (hm_invert early)) || (negb (re m) && hm_invert early)) matches
      end
    else existsb (λ m, (bool_decide (m = hm_value early) && negb (hm_invert early)) ||
                       (negb (bool_decide (m = hm_value early)) && hm_invert early)) matches
  else false.

(** One pair of headers of the same name: may the loop go on? *)
Definition header_overlaps (early later : HeaderMatcher) : bool :=
  if hm_regex early && negb (hm_regex later) then
    match regexp_compile (hm_value early) with
    | inl _ => false
    | inr re => if negb (re (hm_value later)) && negb (hm_invert early) then false
                else negb (re (hm_value later) && hm_invert early)
    end
  else if negb (hm_regex early) && negb (hm_regex later) then
    let matches := bool_decide (hm_value early = hm_value later) || bool_decide (hm_value early = "") in
    if negb matches && negb (hm_invert early) then false else negb (matches && hm_invert early)
  else laterOrRegexPartiallyShortCircuited later early.

(** The inner loop over the later headers: stopped ([None]), or whether one has the name. *)
Fixpoint header_loop (early : HeaderMatcher) (found : bool) (laters : list HeaderMatcher) : option bool :=
  match laters with
  | [] => Some found
  | l :: laters =>
      if bool_decide (hm_name early = hm_name l)
      then if header_overlaps early l then header_loop early true laters else None
      else header_loop early found laters
  end.
Fixpoint headers_short_circuit (laters earlys : list HeaderMatcher) : bool :=
  match earlys with
  | [] => true
  | e :: earlys =>
      match header_loop e false laters with
      | Some true => headers_short_circuit laters earlys
      | _ => false
      end
  end.
Definition earlyHeaderMatchersShortCircuitLaterOnes (later early : Matcher) : bool :=
  headers_short_circuit (em_headers later) (em_headers early).

Definition query_overlaps (early later : QueryParameterMatcher) : bool :=
  if qp_regex early && negb (qp_regex later) then
    match regexp_compile (qp_value early) with
    | inl _ => false
    | inr re => re (qp_value later)
    end
  else if negb (qp_regex early) && negb (qp_regex later)
  then bool_decide (qp_value early = qp_value later) || bool_decide (qp_value early = "")
  else false.
Fixpoint query_loop (early : QueryParameterMatcher) (found : bool) (laters : list QueryParameterMatcher) : option bool :=
  match laters with
  | [] => Some found
  | l :: laters =>
      if bool_decide (qp_name early = qp_name l)
      then if query_overlaps early l then query_loop early true laters else None
      else query_loop early found laters
  end.
Fixpoint queries_short_circuit (laters earlys : list QueryParameterMatcher) : bool :=
  match earlys with
  | [] => true
  | e :: earlys =>
      match query_loop e false laters with
      | Some true => queries_short_circuit laters earlys
      | _ => false
      end
  end.
Definition earlyQueryParametersShortCircuitedLaterOnes (later early : Matcher) : bool :=
  queries_short_circuit (em_queryParameters later) (em_queryParameters early).

(** The trick: the methods as one more header, appended on a shallow copy of the matcher. *)
Definition method_header (methods : list string) : HeaderMatcher :=
  {| hm_name := ":method"; hm_value := "(" +:+ join "|" methods +:+ ")"; hm_regex := true; hm_invert := false |}.
Definition with_method_header (m : Matcher_of Slice) : M State (Matcher_of Slice) :=
  methods <~ gets (λ s, contents (st_arrays s) (em_methods m)) ;;
  match methods with
  | [] => ret m
  | _ =>
      headers <~ append_slice (em_headers m) [method_header methods] ;;
      ret {| em_path := em_path m; em_caseSensitive := em_caseSensitive m; em_headers := headers;
             em_queryParameters := em_queryParameters m; em_methods := em_methods m |}
  end.

Definition nonPathEarlyMatcherShortCircuitsLateMatcher (later early : Matcher_of Slice) : M State bool :=
  early <~ with_method_header early ;;
  late <~ with_method_header later ;;
  gets (λ s, let early := matcher_value (st_arrays s) early in
             let late := matcher_value (st_arrays s) late in
             earlyQueryParametersShortCircuitedLaterOnes late early && earlyHeaderMatchersShortCircuitLaterOnes late early).

(** [CaseSensitive] is a pointer and compared as one. *)
Definition prefixShortCircuits {S} (later early : Matcher_of S) : bool :=
  has_prefix (PathAsString later) (GetPrefix early) &&
  bool_decide (option_map bv_ptr (em_caseSensitive later) = option_map bv_ptr (em_caseSensitive early)).

Definition regexShortCircuits {S} (later early : Matcher_of S) : bool :=
  match regexp_compile (GetRegex early) with
  | inl _ => false
  | inr re => re (PathAsString later) && negb (default false (option_map bv_value (em_caseSensitive later)))
  end.

(** The warnings of a virtual host named [vh] about a matcher that [seen] ones hide. *)
Definition hidden_by (hides : Matcher_of Slice → Matcher_of Slice → bool) (err : Matcher_of Slice → Matcher → EdgeErr)
    (m : Matcher_of Slice) (seen : list (Matcher_of Slice)) : M State (list EdgeErr) :=
  fold_range 0 seen [] (λ _ p acc,
    if hides m p then
      b <~ nonPathEarlyMatcherShortCircuitsLateMatcher m p ;;
      v <~ gets (λ s, matcher_value (st_arrays s) m) ;;
      ret (if b : bool then acc ++ [err p v] else acc)
    else ret acc).

(** Whose matchers are [ms] in order. *)
Fixpoint prefix_warnings (vh : string) (seen ms : list (Matcher_of Slice)) : M State (list EdgeErr) :=
  match ms with
  | [] => ret []
  | m :: ms =>
      es <~ hidden_by prefixShortCircuits (λ p, UnorderedPrefixErr vh (GetPrefix p)) m seen ;;
      rest <~ prefix_warnings vh (if bool_decide (GetPrefix m = "") then seen else seen ++ [m]) ms ;;
      ret (es ++ rest)
  end.
Fixpoint regex_warnings (vh : string) (seen ms : list (Matcher_of Slice)) : M State (list EdgeErr) :=
  match ms with
  | [] => ret []
  | m :: ms =>
      if bool_decide (GetRegex m = "")
      then es <~ hidden_by regexShortCircuits (λ r, UnorderedRegexErr vh (GetRegex r)) m seen ;;
           rest <~ regex_warnings vh seen ms ;;
           ret (es ++ rest)
      else regex_warnings vh (seen ++ [m]) ms
  end.

(** The errors of compiling the regular expressions of a list. *)
Definition regex_errors (vs : NamespacedName) (l : list string) : list EdgeErr :=
  flat_map (λ r, match regexp_compile r with inl msg => [InvalidRegexErr vs msg] | inr _ => [] end) l.
End Checks.

(** Duplicates are found by a hash of the matcher. *)
Fixpoint duplicate_warnings (hash : Matcher → Z) (vh : string) (seen : list Z) (ms : list Matcher) : list EdgeErr :=
  match ms with
  | [] => []
  | m :: ms =>
      if existsb (Z.eqb (hash m)) seen then ConflictingMatcherErr vh m :: duplicate_warnings hash vh seen ms
      else duplicate_warnings hash vh (hash m :: seen) ms
  end.

Definition host_matchers {S} (routes : list (GlooRoute_of S)) : list (Matcher_of S) := flat_map or_matchers routes.
End ShortCircuit.
