(* ===== verification/ShortCircuitFacts.v ===== *)
(** * Properties of the short-circuit checks *)

From stdpp Require Import base gmap strings list fin_maps sets.
From Stdlib Require Import ZArith Lia Ascii.
From S2P Require Import Prelude GoLib GwApi EdgeApi RouteConverter RouteConverterFacts ShortCircuit.
Import Edge ShortCircuit.

(** ** Name/value conditions

    A condition on a name with a value, or with the empty one for presence. *)
Definition condition : Type := string * string.
Definition holds (m : gmap string string) (c : condition) : Prop :=
  ∃ v, m !! c.1 = Some v ∧ (c.2 = "" ∨ v = c.2).
Definition covers (earlys laters : list condition) : Prop :=
  ∀ e, e ∈ earlys → (∃ l, l ∈ laters ∧ l.1 = e.1) ∧ ∀ l, l ∈ laters → l.1 = e.1 → e.2 = l.2 ∨ e.2 = "".

(** A string longer than all of [l]. *)
Definition longest (l : list string) : string := foldr String.append "x" l.
Lemma length_string_app s t : String.length (s +:+ t) = String.length s + String.length t.
Proof. induction s as [|a s IH]; simpl; [done|]. by rewrite IH. Qed.
Lemma longest_fresh l s : s ∈ l → s ≠ longest l.
Proof.
  intros Hs E. assert (String.length s < String.length (longest l)); [|rewrite E in *; lia]. clear E.
  assert (∀ l, 0 < String.length (longest l)) as Hpos.
  { intros l'. induction l' as [|x l' IH]; simpl; [lia|]. rewrite length_string_app. lia. }
  induction l as [|x l IH]; [by apply not_elem_of_nil in Hs|]. simpl. rewrite length_string_app.
  apply elem_of_cons in Hs as [->|Hs]; [specialize (Hpos l); lia|specialize (IH Hs); lia].
Qed.

(** The values that satisfy [laters] and nothing more. *)
Definition least (fresh : string) (laters : list condition) : gmap string string :=
  list_to_map (map (λ c, (c.1, if bool_decide (c.2 = "") then fresh else c.2)) laters).
Lemma least_lookup fresh laters c : NoDup laters.*1 → c ∈ laters →
  least fresh laters !! c.1 = Some (if bool_decide (c.2 = "") then fresh else c.2).
Proof.
  intros Hnd Hc. unfold least. apply elem_of_list_to_map_1.
  - change (map ?f laters) with (f <$> laters). rewrite <-list_fmap_compose. exact Hnd.
  - change (map ?f laters) with (f <$> laters). apply list_elem_of_fmap. by exists c.
Qed.
Lemma least_inv fresh laters n v : least fresh laters !! n = Some v → ∃ c, c ∈ laters ∧ c.1 = n.
Proof.
  intros Hv%elem_of_list_to_map_2. change (map ?f laters) with (f <$> laters) in Hv.
  apply list_elem_of_fmap in Hv as (c & [= -> _] & ?). by exists c.
Qed.
Lemma least_holds fresh laters c : NoDup laters.*1 → c ∈ laters → holds (least fresh laters) c.
Proof.
  intros Hnd Hc. eexists. split; [by apply least_lookup|]. case_bool_decide; [by left|by right].
Qed.

Lemma covers_holds earlys laters m :
  covers earlys laters → (∀ l, l ∈ laters → holds m l) → ∀ e, e ∈ earlys → holds m e.
Proof.
  intros Hc Hm e He. destruct (Hc e He) as ((l & Hl & Hn) & Hv). destruct (Hm l Hl) as (v & Hlook & Hval).
  exists v. rewrite <-Hn. split; [done|]. destruct (Hv l Hl Hn) as [E|E]; [|by left]. rewrite E. naive_solver.
Qed.

Lemma holds_covers fresh earlys laters : NoDup laters.*1 → fresh ∉ earlys.*2 →
  (∀ e, e ∈ earlys → holds (least fresh laters) e) → covers earlys laters.
Proof.
  intros Hnd Hf Hh e He. destruct (Hh e He) as (v & Hv & Hval).
  destruct (least_inv _ _ _ _ Hv) as (c & Hc & Hn). split; [by exists c|].
  intros l Hl Hnl. assert (l = c) as ->.
  { apply list_elem_of_lookup in Hl as [i Hi]. apply list_elem_of_lookup in Hc as [j Hj].
    assert (i = j) as ->; [|congruence]. eapply (NoDup_lookup laters.*1 i j l.1 Hnd).
    - by rewrite list_lookup_fmap, Hi.
    - rewrite list_lookup_fmap, Hj. simpl. congruence. }
  rewrite <-Hn, (least_lookup fresh laters c Hnd Hc) in Hv. injection Hv as Hv.
  destruct Hval as [?|Hval]; [by right|left]. subst v. case_bool_decide; [|done].
  destruct Hf. rewrite Hval. apply list_elem_of_fmap. by exists e.
Qed.

(** ** The loops on plain conditions *)
Definition header_condition (h : HeaderMatcher) : condition := (hm_name h, hm_value h).
Definition query_condition (q : QueryParameterMatcher) : condition := (qp_name q, qp_value q).
Definition plain_header (h : HeaderMatcher) : Prop := hm_regex h = false ∧ hm_invert h = false.
Definition plain_query (q : QueryParameterMatcher) : Prop := qp_regex q = false.

Section Loops.
Context `{!Regexp}.

(** Both loops at once: a stopping scan for an overlapping condition. *)
Fixpoint scan (e : condition) (found : bool) (laters : list condition) : option bool :=
  match laters with
  | [] => Some found
  | l :: laters => if bool_decide (e.1 = l.1)
                   then if bool_decide (e.2 = l.2) || bool_decide (e.2 = "") then scan e true laters else None
                   else scan e found laters
  end.

Lemma scan_spec e laters : ∀ found,
  scan e found laters = Some true ↔
  (found = true ∨ ∃ l, l ∈ laters ∧ l.1 = e.1) ∧ ∀ l, l ∈ laters → l.1 = e.1 → e.2 = l.2 ∨ e.2 = "".
Proof.
  induction laters as [|l laters IH]; intros found; simpl.
  - split; [intros [= ->]; split; [by left|set_solver]|]. intros [[->|(l & Hl & _)] _]; [done|by apply not_elem_of_nil in Hl].
  - case_bool_decide as Hn.
    + destruct (bool_decide (e.2 = l.2) || bool_decide (e.2 = "")) eqn:Ev.
      * apply orb_true_iff in Ev. rewrite !bool_decide_eq_true in Ev. rewrite IH. setoid_rewrite elem_of_cons. naive_solver.
      * apply orb_false_iff in Ev. rewrite !bool_decide_eq_false in Ev. split; [done|].
        intros [_ Hall]. destruct Ev as [E1 E2]. destruct (Hall l); [by left|done..].
    + rewrite IH. setoid_rewrite elem_of_cons. naive_solver.
Qed.

Lemma header_loop_scan e laters : plain_header e → Forall plain_header laters → ∀ found,
  header_loop e found laters = scan (header_condition e) found (map header_condition laters).
Proof.
  intros [He1 He2] Hl. induction Hl as [|l laters [Hl1 Hl2] _ IH]; intros found; simpl; [done|].
  unfold header_overlaps. rewrite He1, He2, Hl1. simpl. rewrite !IH.
  case_bool_decide; [|done]. by destruct (_ || _).
Qed.
Lemma query_loop_scan e laters : plain_query e → Forall plain_query laters → ∀ found,
  query_loop e found laters = scan (query_condition e) found (map query_condition laters).
Proof.
  intros He Hl. induction Hl as [|l laters Hl _ IH]; intros found; simpl; [done|].
  unfold query_overlaps. rewrite He, Hl. simpl. by rewrite !IH.
Qed.

Fixpoint scans (laters earlys : list condition) : bool :=
  match earlys with
  | [] => true
  | e :: earlys => match scan e false laters with Some true => scans laters earlys | _ => false end
  end.
Lemma scans_spec laters earlys : scans laters earlys = true ↔ covers earlys laters.
Proof.
  unfold covers. induction earlys as [|e earlys IH]; simpl; [split; [intros _ x Hx; by apply not_elem_of_nil in Hx|done]|].
  pose proof (scan_spec e laters false) as Hs. setoid_rewrite elem_of_cons. destruct (scan e false laters) as [[]|].
  1: rewrite IH; naive_solver.
  all: split; [done|]; intros Hall; destruct (Hall _ (or_introl eq_refl)); destruct Hs as [_ Hs]; discriminate Hs; split; [by right|done].
Qed.

Lemma headers_short_circuit_spec laters earlys : Forall plain_header laters → Forall plain_header earlys →
  headers_short_circuit laters earlys = true ↔ covers (map header_condition earlys) (map header_condition laters).
Proof.
  intros Hl He. rewrite <-scans_spec. induction He as [|e earlys He _ IH]; simpl; [done|].
  rewrite header_loop_scan by done. by destruct (scan _ _ _) as [[]|].
Qed.
Lemma queries_short_circuit_spec laters earlys : Forall plain_query laters → Forall plain_query earlys →
  queries_short_circuit laters earlys = true ↔ covers (map query_condition earlys) (map query_condition laters).
Proof.
  intros Hl He. rewrite <-scans_spec. induction He as [|e earlys He _ IH]; simpl; [done|].
  rewrite query_loop_scan by done. by destruct (scan _ _ _) as [[]|].
Qed.
End Loops.

(** ** Requests on plain matchers *)
Record Request := { rq_path : string; rq_headers : gmap string string; rq_queries : gmap string string }.
Definition takes (m : Matcher) (r : Request) : Prop :=
  match em_path m with
  | Some (Matcher_Prefix s) => has_prefix (rq_path r) s = true
  | Some (Matcher_Exact s) => rq_path r = s
  | _ => False
  end ∧
  (∀ h, h ∈ em_headers m → holds (rq_headers r) (header_condition h)) ∧
  (∀ q, q ∈ em_queryParameters m → holds (rq_queries r) (query_condition q)).

(** No regular expressions, inverted headers, methods or case sensitivity, and a name only
    once; the path is a prefix or exact. *)
Record plain (m : Matcher) : Prop := {
  pl_path : ∃ s, em_path m = Some (Matcher_Prefix s) ∨ em_path m = Some (Matcher_Exact s);
  pl_case : em_caseSensitive m = None;
  pl_methods : em_methods m = [];
  pl_headers : Forall plain_header (em_headers m);
  pl_queries : Forall plain_query (em_queryParameters m);
  pl_header_names : NoDup (map hm_name (em_headers m));
  pl_query_names : NoDup (map qp_name (em_queryParameters m))
}.

Lemma covers_map {A} (f : A → condition) (l : list A) m :
  (∀ c, c ∈ map f l → holds m c) ↔ ∀ x, x ∈ l → holds m (f x).
Proof. change (map f l) with (f <$> l). setoid_rewrite list_elem_of_fmap. naive_solver. Qed.

Lemma has_prefix_refl s : has_prefix s s = true.
Proof. unfold has_prefix. induction s as [|a s IH]; simpl; [done|]. by destruct (ascii_dec a a). Qed.

Section Exact.
Context `{!Regexp, !SliceCapacity}.

(** The check of two matchers without methods. *)
Definition rest_short_circuits (later early : Matcher) : bool :=
  earlyQueryParametersShortCircuitedLaterOnes later early && earlyHeaderMatchersShortCircuitLaterOnes later early.

(** A request that satisfies [m] and as little more as possible. *)
Definition least_request (m : Matcher) (hs qs : list string) : Request :=
  {| rq_path := PathAsString m; rq_headers := least (longest hs) (map header_condition (em_headers m));
     rq_queries := least (longest qs) (map query_condition (em_queryParameters m)) |}.
Lemma least_request_takes m hs qs : plain m → takes m (least_request m hs qs).
Proof.
  intros [(s & Hp) _ _ _ _ Hh Hq]. split_and!.
  - unfold least_request, PathAsString. simpl. destruct Hp as [-> | ->]; [|done]. apply has_prefix_refl.
  - apply (proj1 (covers_map header_condition _ _)). intros c Hc. apply least_holds; [|done].
    change (map header_condition _) with (header_condition <$> em_headers m). by rewrite <-list_fmap_compose.
  - apply (proj1 (covers_map query_condition _ _)). intros c Hc. apply least_holds; [|done].
    change (map query_condition _) with (query_condition <$> em_queryParameters m). by rewrite <-list_fmap_compose.
Qed.

Lemma prefix_check_exact early later : plain early → plain later → GetPrefix early ≠ "" →
  prefixShortCircuits later early && rest_short_circuits later early = true ↔
  ∀ r, takes later r → takes early r.
Proof.
  intros He Hl Hpre. unfold prefixShortCircuits, rest_short_circuits.
  rewrite (pl_case _ He), (pl_case _ Hl). simpl.
  unfold earlyHeaderMatchersShortCircuitLaterOnes, earlyQueryParametersShortCircuitedLaterOnes.
  rewrite andb_true_r, !andb_true_iff, headers_short_circuit_spec, queries_short_circuit_spec by
    first [apply (pl_headers _ He)|apply (pl_headers _ Hl)|apply (pl_queries _ He)|apply (pl_queries _ Hl)].
  assert (em_path early = Some (Matcher_Prefix (GetPrefix early))) as Hep.
  { unfold GetPrefix in *. by destruct (em_path early) as [[]|]. }
  split.
  - intros (Hp & Hq & Hh) r (Rp & Rh & Rq). unfold takes. rewrite Hep. split_and!.
    + unfold PathAsString in Hp. destruct (pl_path _ Hl) as [s [E|E]]; rewrite E in Hp, Rp; [by eapply has_prefix_trans|by rewrite Rp].
    + apply (proj1 (covers_map header_condition _ _)). pose proof (proj2 (covers_map header_condition _ _) Rh) as Rh'. by eapply covers_holds.
    + apply (proj1 (covers_map query_condition _ _)). pose proof (proj2 (covers_map query_condition _ _) Rq) as Rq'. by eapply covers_holds.
  - intros Hall.
    destruct (Hall _ (least_request_takes later (map hm_value (em_headers early)) (map qp_value (em_queryParameters early)) Hl))
      as (Rp & Rh & Rq). rewrite Hep in Rp. simpl in *. split_and!; [done|..].
    + eapply holds_covers; [| |exact (proj2 (covers_map query_condition _ _) Rq)].
      * change (map query_condition _) with (query_condition <$> em_queryParameters later). rewrite <-list_fmap_compose. apply (pl_query_names _ Hl).
      * change (map query_condition _) with (query_condition <$> em_queryParameters early). rewrite <-list_fmap_compose.
        intros Hin%longest_fresh. done.
    + eapply holds_covers; [| |exact (proj2 (covers_map header_condition _ _) Rh)].
      * change (map header_condition _) with (header_condition <$> em_headers later). rewrite <-list_fmap_compose. apply (pl_header_names _ Hl).
      * change (map header_condition _) with (header_condition <$> em_headers early). rewrite <-list_fmap_compose.
        intros Hin%longest_fresh. done.
Qed.

(** The warnings about matchers without methods. *)
Fixpoint plain_warnings (vh : string) (seen ms : list Matcher) : list EdgeErr :=
  match ms with
  | [] => []
  | m :: ms =>
      map (λ p, UnorderedPrefixErr vh (GetPrefix p) m)
          (List.filter (λ p, prefixShortCircuits m p && rest_short_circuits m p) seen) ++
      plain_warnings vh (if bool_decide (GetPrefix m = "") then seen else seen ++ [m]) ms
  end.

Lemma plain_warnings_elem vh w ms : ∀ seen, w ∈ plain_warnings vh seen ms ↔
  ∃ j m p, ms !! j = Some m ∧ (p ∈ seen ∨ ∃ i, i < j ∧ ms !! i = Some p ∧ GetPrefix p ≠ "") ∧
    prefixShortCircuits m p && rest_short_circuits m p = true ∧ w = UnorderedPrefixErr vh (GetPrefix p) m.
Proof.
  induction ms as [|m ms IH]; intros seen; simpl.
  { rewrite elem_of_nil. split; [done|]. intros (j & m & p & Hj & _). done. }
  rewrite elem_of_app, IH. change (map ?f ?l) with (f <$> l). rewrite list_elem_of_fmap. setoid_rewrite elem_of_filter_bool. split.
  - intros [(p & -> & Hp & Hc)|(j & m' & p & Hj & Hp & Hc & ->)].
    + exists 0, m, p. split_and!; [done|by left|done|done].
    + exists (S j), m', p. split_and!; [done| |done..]. case_bool_decide as Hm.
      * destruct Hp as [?|(i & ? & ? & ?)]; [by left|right; exists (S i)]. split_and!; [lia|done..].
      * destruct Hp as [[?| ->%list_elem_of_singleton]%elem_of_app|(i & ? & ? & ?)]; [by left|right; exists 0|right; exists (S i)];
          (split_and!; [lia|done..]).
  - intros ([|j] & m' & p & Hj & Hp & Hc & ->); simpl in Hj.
    + injection Hj as ->. left. exists p. destruct Hp as [?|(i & ? & _)]; [done|lia].
    + right. exists j, m', p. split_and!; [done| |done..]. destruct Hp as [Hp|([|i] & Hij & Hi & Hpre)].
      * left. case_bool_decide; [done|]. apply elem_of_app. by left.
      * left. injection Hi as ->. rewrite bool_decide_eq_false_2 by done. apply elem_of_app. right. by left.
      * right. exists i. split_and!; [lia|done..].
Qed.

Section Run.
Context (s : State).
Abbreviation value := (matcher_value (st_arrays s)).

Lemma plain_with_method_header m : plain (value m) → with_method_header m s = Ok (m, s).
Proof. intros Hm. pose proof (pl_methods _ Hm) as E. simpl in E. unfold with_method_header, gets, bind. by rewrite E. Qed.

Lemma plain_nonPath later early : plain (value later) → plain (value early) →
  nonPathEarlyMatcherShortCircuitsLateMatcher later early s = Ok (rest_short_circuits (value later) (value early), s).
Proof.
  intros Hl He. unfold nonPathEarlyMatcherShortCircuitsLateMatcher. unfold bind.
  by rewrite (plain_with_method_header early), (plain_with_method_header later).
Qed.

Lemma plain_hidden_by vh m seen : plain (value m) → Forall plain (map value seen) →
  wp (hidden_by prefixShortCircuits (λ p, UnorderedPrefixErr vh (GetPrefix p)) m seen) (λ es s', s' = s ∧
    es = map (λ p, UnorderedPrefixErr vh (GetPrefix p) (value m))
           (List.filter (λ p, prefixShortCircuits (value m) p && rest_short_circuits (value m) p) (map value seen))) s.
Proof.
  intros Hm Hs. unfold hidden_by.
  apply (wp_fold_range_prefix (λ pre es s', s' = s ∧ es = map (λ p, UnorderedPrefixErr vh (GetPrefix p) (value m))
    (List.filter (λ p, prefixShortCircuits (value m) p && rest_short_circuits (value m) p) (map value pre))) _ seen 0 []); [done|].
  intros _ pre p es s' Hp (-> & ->). rewrite map_app, List.filter_app, map_app. simpl.
  assert (plain (value p)) as Hpp by (rewrite Forall_forall in Hs; apply Hs; change (value p ∈ value <$> seen); by apply list_elem_of_fmap_2).
  change (prefixShortCircuits (value m) (value p)) with (prefixShortCircuits m p). destruct (prefixShortCircuits m p); simpl.
  - wp_step. unfold wp at 1. rewrite plain_nonPath by done. wp_step. apply wp_gets. apply wp_ret.
    destruct (rest_short_circuits _ _); simpl; by rewrite ?app_nil_r.
  - apply wp_ret. by rewrite app_nil_r.
Qed.

Lemma plain_prefix_warnings vh ms : ∀ seen, Forall plain (map value seen) → Forall plain (map value ms) →
  wp (prefix_warnings vh seen ms) (λ es s', s' = s ∧ es = plain_warnings vh (map value seen) (map value ms)) s.
Proof.
  induction ms as [|m ms IH]; intros seen Hs Hms; simpl; [by apply wp_ret|]. apply Forall_cons in Hms as [Hm Hms].
  wp_step. eapply wp_mono; [by apply plain_hidden_by|]. intros es s' (-> & ->). wp_step.
  change (GetPrefix (value m)) with (GetPrefix m). eapply wp_mono.
  { apply IH; [|done]. case_bool_decide; [done|]. rewrite map_app. apply Forall_app. split; [done|by constructor]. }
  intros rest s' (-> & ->). apply wp_ret. split; [done|]. case_bool_decide; [done|]. by rewrite map_app.
Qed.
End Run.

(** Warnings about prefixes are exact on plain matchers and write to no slice: a matcher of a
    virtual host is reported with a prefix if and only if a matcher before it, with that
    (non-empty) prefix, takes every request it takes, so that it is never reached. *)
Theorem prefix_warnings_exact vh ms s : let values := map (matcher_value (st_arrays s)) ms in
  Forall plain values →
  ∃ ws, prefix_warnings vh [] ms s = Ok (ws, s) ∧ ∀ w, w ∈ ws ↔
    ∃ i j p m, i < j ∧ values !! i = Some p ∧ values !! j = Some m ∧ GetPrefix p ≠ "" ∧
      (∀ r, takes m r → takes p r) ∧ w = UnorderedPrefixErr vh (GetPrefix p) m.
Proof.
  intros values Hplain. destruct (wp_run _ _ _ (plain_prefix_warnings s vh ms [] ltac:(constructor) Hplain)) as (ws & s' & Hrun & -> & ->).
  exists (plain_warnings vh [] values). split; [exact Hrun|]. intros w.
  rewrite Forall_forall in Hplain. rewrite plain_warnings_elem. split.
  - intros (j & m & p & Hj & [Hp|(i & Hij & Hi & Hpre)] & Hc & ->); [by apply not_elem_of_nil in Hp|].
    exists i, j, p, m. split_and!; [done..| |done].
    by apply prefix_check_exact; [eapply Hplain, list_elem_of_lookup_2..| |].
  - intros (i & j & p & m & Hij & Hi & Hj & Hpre & Hc & ->). exists j, m, p. split_and!; [done|right; by exists i| |done].
    by apply prefix_check_exact; [eapply Hplain, list_elem_of_lookup_2..| |].
Qed.

(** The checks only add to the state, and write behind the slices of the matchers they compare,
    when [ok] says that these are settled. *)
Section Writes.
Context (ar0 : Arrays) (ok : Prop).
Definition harmless (s s' : State) : Prop :=
  grows s s' ∧ (ok → preserves ar0 (st_arrays s) → preserves ar0 (st_arrays s')).
#[export] Instance harmless_preorder : PreOrder harmless.
Proof. split; [by intros s|]. intros a b c [Hg1 Hp1] [Hg2 Hp2]. split; [by etrans|auto]. Qed.

Lemma with_method_header_writes m s : (ok → settled_matcher ar0 m) → wp (with_method_header m) (λ _ s', harmless s s') s.
Proof.
  intros Hm. unfold with_method_header. wp_step. apply wp_gets. destruct (contents _ _); [by apply wp_ret|]. wp_step.
  unfold append_slice, wp. match goal with |- context [append_arrays ?a ?b ?c] => pose proof (append_arrays_preserves ar0 a b c) as Hp end.
  destruct (append_arrays _ _ _) as [x ar]. split; [apply grows_arrays|]. intros Hok. by apply Hp, Hm.
Qed.

Lemma hidden_by_writes hides err m seen s : (ok → settled_matcher ar0 m) → (ok → Forall (settled_matcher ar0) seen) →
  wp (hidden_by hides err m seen) (λ _ s', harmless s s') s.
Proof.
  intros Hm Hs. unfold hidden_by. apply (wp_fold_range (λ _ s', harmless s s')); [done|].
  intros i p es s1 Hp H1. destruct (hides m p); [|by apply wp_ret].
  assert (ok → settled_matcher ar0 p) as Hps by (intros Hok; specialize (Hs Hok); rewrite Forall_forall in Hs; by apply Hs).
  wp_step. unfold nonPathEarlyMatcherShortCircuitsLateMatcher. wp_step. eapply wp_mono; [by apply with_method_header_writes|].
  intros early s2 H2. wp_step. eapply wp_mono; [by apply with_method_header_writes|]. intros late s3 H3.
  apply wp_gets. wp_step. apply wp_gets. apply wp_ret. etrans; [exact H1|]. etrans; [exact H2|exact H3].
Qed.

Lemma imply_forall_cons {A} (P : A → Prop) x l : (ok → Forall P (x :: l)) → (ok → P x) ∧ (ok → Forall P l).
Proof. intros Hl. split; intros Hok; by destruct (proj1 (Forall_cons P x l) (Hl Hok)). Qed.

Lemma prefix_warnings_writes vh ms : ∀ seen s, (ok → Forall (settled_matcher ar0) ms) → (ok → Forall (settled_matcher ar0) seen) →
  wp (prefix_warnings vh seen ms) (λ _ s', harmless s s') s.
Proof.
  induction ms as [|m ms IH]; intros seen s Hms Hs; simpl; [by apply wp_ret|]. apply imply_forall_cons in Hms as [Hm Hms].
  wp_step. eapply wp_mono; [by apply hidden_by_writes|]. intros es s1 Hw1. wp_step. eapply wp_mono.
  { apply IH; [done|]. case_bool_decide; [done|]. rewrite Forall_app. intros Hok. split; [auto|constructor; [auto|constructor]]. }
  intros rest s2 H2. apply wp_ret. etrans; [exact Hw1|exact H2].
Qed.
Lemma regex_warnings_writes vh ms : ∀ seen s, (ok → Forall (settled_matcher ar0) ms) → (ok → Forall (settled_matcher ar0) seen) →
  wp (regex_warnings vh seen ms) (λ _ s', harmless s s') s.
Proof.
  induction ms as [|m ms IH]; intros seen s Hms Hs; simpl; [by apply wp_ret|]. apply imply_forall_cons in Hms as [Hm Hms].
  case_bool_decide.
  - wp_step. eapply wp_mono; [by apply hidden_by_writes|]. intros es s1 Hw1. wp_step. eapply wp_mono; [by apply IH|].
    intros rest s2 H2. apply wp_ret. etrans; [exact Hw1|exact H2].
  - apply IH; [done|]. rewrite Forall_app. intros Hok. split; [auto|constructor; [auto|constructor]].
Qed.
End Writes.
End Exact.

(** ** Concrete matchers *)
Section Examples.
Definition ex_regexp : Regexp := {| regexp_compile := λ r, if bool_decide (r = "(") then inl "missing )" else inr (λ s, bool_decide (s = r)) |}.
#[local] Existing Instance ex_regexp.
#[local] Existing Instance ex_capacity.
Definition ex_m (path : PathSpecifier) (cs : option BoolValue) (hs : list HeaderMatcher) : Matcher :=
  {| em_path := Some path; em_caseSensitive := cs; em_headers := hs; em_queryParameters := []; em_methods := [] |}.
Definition ex_h (name value : string) (invert : bool) : HeaderMatcher :=
  {| hm_name := name; hm_value := value; hm_regex := false; hm_invert := invert |}.
(** Matchers with the headers of an array each. *)
Definition ex_slices (ms : list Matcher) : list (Matcher_of Slice) :=
  imap (λ i m, {| em_path := em_path m; em_caseSensitive := em_caseSensitive m;
    em_headers := {| sl_array := i; sl_len := length (em_headers m); sl_cap := length (em_headers m) |};
    em_queryParameters := nil_of; em_methods := nil_of |}) ms.
Definition ex_arrays (ms : list Matcher) : State :=
  {| st_store := ex_store; st_reports := [];
     st_arrays := {| ar_headers := map em_headers ms; ar_queryParameters := []; ar_methods := [] |} |}.
Definition ex_warnings (ms : list Matcher) : list EdgeErr :=
  match prefix_warnings "vh" [] (ex_slices ms) (ex_arrays ms) with Ok (ws, _) => ws | _ => [] end.
Definition ex_early : Matcher := ex_m (Matcher_Prefix "/foo") None [ex_h "x" "" false].
Definition ex_later : Matcher := ex_m (Matcher_Exact "/foo/bar") None [ex_h "y" "1" false; ex_h "x" "2" false].

Lemma prefix_warnings_exact_witness :
  ex_warnings [ex_early; ex_later] = [UnorderedPrefixErr "vh" "/foo" ex_later] ∧ (∀ r, takes ex_later r → takes ex_early r).
Proof.
  assert (Forall plain [ex_early; ex_later]) as Hplain.
  { apply Forall_cons_2; [|apply Forall_singleton]; (split; [eexists; (by left) || (by right)|done|done|simpl..]).
    all: try by repeat constructor. all: repeat (apply NoDup_cons_2; [set_solver|]); apply NoDup_nil_2. }
  assert (ex_warnings [ex_early; ex_later] = [UnorderedPrefixErr "vh" "/foo" ex_later]) as Hw by by vm_compute.
  split; [exact Hw|].
  destruct (prefix_warnings_exact "vh" (ex_slices [ex_early; ex_later]) (ex_arrays [ex_early; ex_later]) Hplain) as (ws & Hrun & Hin).
  unfold ex_warnings in Hw. rewrite Hrun in Hw. subst ws.
  destruct (proj1 (Hin _) ltac:(by left)) as (i & j & p & m & Hij & Hi & Hj & _ & Hall & _).
  destruct i as [|[|i]], j as [|[|j]]; try lia; try done. injection Hi as <-. injection Hj as <-. exact Hall.
Defined.

(** Case sensitivities are compared as pointers: set on both matchers, no warning. *)
Example explicit_case_sensitivity_is_not_compared :
  ex_warnings [ex_m (Matcher_Prefix "/foo") (Some {| bv_ptr := 1; bv_value := true |}) [];
                           ex_m (Matcher_Exact "/foo/bar") (Some {| bv_ptr := 2; bv_value := true |}) []] = [].
Proof. vm_compute. reflexivity. Qed.

(** Two matchers with the same three headers, of one slice with room for a fourth or of their own
    slices, and different methods: with room, both write the header that stands for their
    methods to the same place, and the check compares it with itself. *)
Definition ex_names : Regexp := {| regexp_compile := λ r, inr (λ s, bool_decide ("(" +:+ s +:+ ")" = r)) |}.
Definition ex_method (path : PathSpecifier) (headers : Slice HeaderMatcher) (i : nat) : Matcher_of Slice :=
  {| em_path := Some path; em_caseSensitive := None; em_headers := headers; em_queryParameters := nil_of;
     em_methods := {| sl_array := i; sl_len := 1; sl_cap := 1 |} |}.
Definition ex_three : list HeaderMatcher := [ex_h "x" "1" false; ex_h "y" "1" false; ex_h "z" "1" false].
Definition ex_methods (headers : nat → Slice HeaderMatcher) : option nat :=
  match @prefix_warnings ex_names ex_capacity "vh" [] [ex_method (Matcher_Prefix "/foo") (headers 0) 0; ex_method (Matcher_Exact "/foo/a") (headers 1) 1]
    {| st_store := ex_store; st_reports := [];
       st_arrays := {| ar_headers := [ex_three; ex_three]; ar_queryParameters := []; ar_methods := [["GET"]; ["POST"]] |} |} with
  | Ok (ws, _) => Some (length ws)
  | _ => None
  end.
Example shared_room_misleads_the_check :
  ex_methods (λ i, {| sl_array := i; sl_len := 3; sl_cap := 4 |}) = Some 0 ∧
  ex_methods (λ _, {| sl_array := 0; sl_len := 3; sl_cap := 4 |}) = Some 1.
Proof. vm_compute. split; reflexivity. Qed.

(** Whether the later header is inverted is not looked at: a false warning. *)
Example inverted_later_header_is_misread :
  length (ex_warnings [ex_m (Matcher_Prefix "/foo") None [ex_h "x" "1" false];
                                   ex_m (Matcher_Exact "/foo/bar") None [ex_h "x" "1" true]]) = 1.
Proof. vm_compute. reflexivity. Qed.
End Examples.
