(* ===== verification/VirtualServices.v ===== *)
(** * gateway/pkg/translator/virtual_service_translator.go: virtual services become virtual hosts

    Which virtual services belong to a gateway, the checks on their domains, their delegated
    options, and their conversion with [Converter]. Virtual services are objects of the
    [Store]: the code writes defaults into them. The slices of the converted routes become
    lists when the last write to them is done. The hashes of the generated code and the
    getters of nested regular expressions are the interface [GeneratedCode]. *)

From stdpp Require Import base gmap strings list fin_maps.
From Stdlib Require Import ZArith.
From S2P Require Import Prelude GoLib GwApi EdgeApi RouteConverter ShortCircuit.
Import Edge.

(** [hashutils.MustHash] on a matcher, [Hash] of an SSL configuration and of listener options
    (printed); [GetHostRewritePathRegex().GetPattern().GetRegex()] on the value of the field
    HostRewriteType, when it is of that variant; [GetPattern().GetRegex()] on RegexRewrite. *)
Class GeneratedCode := {
  hash_matcher : Matcher → Z;
  hash_sslConfig : SslConfig → string;
  hash_httpOptions : option HttpListenerOptions → string;
  host_rewrite_path_regex : string → option string;
  pattern_regex : string → string
}.

(** The settings that the translator reads from its context. *)
Record Settings := { se_translateEmptyGateways : bool; se_oneWayTls : option bool }.

Module VirtualServices.
(** ** Virtual services in the store *)
Definition no_virtualService : VirtualService :=
  {| vs_meta := {| md_name := ""; md_namespace := ""; md_generation := 0; md_labels := ∅; md_annotations := ∅ |};
     vs_host := None; vs_ssl := None |}.
Definition load_vs (p : positive) (h : Store) : VirtualService := default no_virtualService (s_virtualServices h !! p).
Definition vs_at (p : positive) : M State VirtualService := gets (λ s, load_vs p (st_store s)).
Definition vs_error (v : VirtualService) (e : EdgeErr) : M State unit := report (RepError (RVirtualService (vs_meta v)) e).
Definition vs_warning (v : VirtualService) (e : EdgeErr) : M State unit := report (RepWarning (RVirtualService (vs_meta v)) e).

Definition set_ssl (v : VirtualService) (c : option SslConfig) : VirtualService :=
  {| vs_meta := vs_meta v; vs_host := vs_host v; vs_ssl := c |}.
Definition set_host (v : VirtualService) (host : VirtualHost) : VirtualService :=
  {| vs_meta := vs_meta v; vs_host := Some host; vs_ssl := vs_ssl v |}.
Definition empty_host : VirtualHost := {| vh_domains := []; vh_routes := []; vh_options := None; vh_optionRefs := [] |}.
(** [vs.GetVirtualHost().Options = o] *)
Definition set_host_options (v : VirtualService) (o : option positive) : VirtualService :=
  let host := default empty_host (vs_host v) in
  set_host v {| vh_domains := vh_domains host; vh_routes := vh_routes host; vh_options := o; vh_optionRefs := vh_optionRefs host |}.

Definition update_vs (p : positive) (f : VirtualService → VirtualService) : M State unit :=
  with_store (λ h, (tt, set_virtualService p (f (load_vs p h)) h)).

Definition VirtualHostName (v : VirtualService) : string := md_namespace (vs_meta v) +:+ "." +:+ md_name (vs_meta v).
Definition hasSsl (v : VirtualService) : bool := bool_decide (is_Some (vs_ssl v)).

(** ** Selecting the virtual services of a gateway *)
Section Selection.
Context `{!Labels}.

Definition virtualServiceNamespaceValidForGateway (namespaces : list string) (v : VirtualService) : bool :=
  match namespaces with
  | [] => true
  | _ => existsb (λ ns, bool_decide (ns = "*") || bool_decide (md_namespace (vs_meta v) = ns)) namespaces
  end.

Definition virtualServiceMatchesLabels (v : VirtualService) (validLabels : gmap string string) (namespaces : list string) : bool :=
  SelectorFromSet validLabels (md_labels (vs_meta v)) && virtualServiceNamespaceValidForGateway namespaces v.

Definition virtualServiceLabelsMatchesExpressionRequirements (rs : list (gmap string string → bool)) (l : gmap string string) : bool :=
  forallb (λ r, r l) rs.

Definition virtualServiceValidForSelectorExpressions (v : VirtualService) (es : list Expression) (namespaces : list string) :
    EdgeErr + bool :=
  match requirements VirtualServiceSelectorInvalidExpressionWarning es with
  | inl e => inl e
  | inr rs =>
      if negb (virtualServiceLabelsMatchesExpressionRequirements rs (md_labels (vs_meta v))) then inr false
      else inr (virtualServiceNamespaceValidForGateway namespaces v)
  end.

Definition HttpGatewayContainsVirtualService (g : HttpGateway) (v : VirtualService) (ssl : bool) : EdgeErr + bool :=
  if negb (bool_decide (ssl = hasSsl v)) then inr false else
  match hg_expressions g with
  | Some es => virtualServiceValidForSelectorExpressions v es (hg_namespaces g)
  | None =>
      match hg_selector g with
      | Some sel => inr (virtualServiceMatchesLabels v sel (hg_namespaces g))
      | None =>
          match hg_virtualServices g with
          | [] => inr (virtualServiceNamespaceValidForGateway (hg_namespaces g) v)
          | refs => inr (existsb (λ ref, bool_decide (ref = md_ref (vs_meta v))) refs)
          end
      end
  end.

Definition getVirtualServicesForHttpGateway (snapshot : ApiSnapshot) (parentGateway : Gateway) (g : HttpGateway) (gatewaySsl : bool) :
    M State (list positive) :=
  fold_range 0 (sn_virtualServices snapshot) [] (λ _ p acc,
    v <~ vs_at p ;;
    match HttpGatewayContainsVirtualService g v gatewaySsl with
    | inl err => do! report (RepError (RGateway (gw_meta parentGateway)) err) ;; ret acc
    | inr true => ret (acc ++ [p])
    | inr false => ret acc
    end).
End Selection.

(** ** Domains *)
Section Domains.
Context `{!GoRange string}.

(** A virtual service without domains is entered under the empty one. *)
Definition domains_of (host : VirtualHost) : list string := match vh_domains host with [] => [""] | l => l end.

Definition index_by_domain (vss : list positive) : M State (gmap string (list positive)) :=
  fold_range 0 vss ∅ (λ _ p m,
    v <~ vs_at p ;;
    match vs_host v with
    | None => do! vs_warning v (NoVirtualHostErr (md_ref (vs_meta v))) ;; ret m
    | Some host => ret (foldl (λ m d, <[d := default [] (m !! d) ++ [p]]> m) m (domains_of host))
    end).

(** The references of the elements of [l] at other positions than [i]. *)
Definition others (i : nat) (l : list VirtualService) : list NamespacedName :=
  map (λ v, md_ref (vs_meta v)) (take i l ++ drop (S i) l).

Definition report_conflicts (domain : string) (vss : list positive) : M State unit :=
  l <~ gets (λ s, map (λ p, load_vs p (st_store s)) vss) ;;
  fold_range 0 l tt (λ i v _, vs_error v (DomainInOtherVirtualServicesErr domain (others i l))).

Definition validateVirtualServiceDomains (gateway : Gateway) (vss : list positive) : M State unit :=
  vsByDomain <~ index_by_domain vss ;;
  conflicting <~ fold_range 0 (go_range vsByDomain) [] (λ _ '(domain, l) conflicting,
    if 1 <? length l then do! report_conflicts domain l ;; ret (conflicting ++ [domain]) else ret conflicting) ;;
  match conflicting with
  | [] => ret tt
  | _ => report (RepError (RGateway (gw_meta gateway)) (GatewayHasConflictingVirtualServicesErr conflicting))
  end.
End Domains.

(** ** Conversion *)
Section Conversion.
Context `{!Labels, !GoRange Z, !GoRange string, !Regexp, !GeneratedCode, !SliceCapacity}.
Context (snapshot : ApiSnapshot) (settings : Settings) (WarnOnRouteShortCircuiting : bool) (fuel : nat).

Definition applyGlobalVirtualServiceSettings (vss : list positive) : M State unit :=
  match se_oneWayTls settings with
  | None => ret tt
  | Some val =>
      for_range vss (λ p, update_vs p (λ v,
        match vs_ssl v with
        | Some c => match ssl_oneWayTls c with
                    | None => set_ssl v (Some {| ssl_sniDomains := ssl_sniDomains c; ssl_oneWayTls := Some val; ssl_other := ssl_other c |})
                    | Some _ => v
                    end
        | None => v
        end))
  end.

(** A virtual host without options takes those of the first VirtualHostOption by pointer. *)
Definition mergeDelegatedVirtualHostOptions (p : positive) : M State unit :=
  v <~ vs_at p ;;
  for_range (vh_optionRefs (default empty_host (vs_host v))) (λ optionRef,
    v <~ vs_at p ;;
    let host := default empty_host (vs_host v) in
    match Converter.find_options (sn_virtualHostOptions snapshot) optionRef with
    | None => vs_warning v (ListNotFound optionRef)
    | Some o =>
        match vh_options host with
        | None => update_vs p (λ v, set_host_options v (or_options o))
        | Some _ =>
            m <~ with_store (ShallowMergeOptions (vh_options host) (or_options o)) ;;
            update_vs p (λ v, set_host_options v m.1)
        end
    end).

(** The regular expressions of a route in the order in which they are compiled. *)
Definition route_regexes (h : Store) (r : GlooRoute_of Slice) : list string :=
  match or_opts r with
  | Some p => let fields := op_fields (load_options p h) in
              option_list (fields !! "HostRewriteType" ≫= host_rewrite_path_regex) ++
              option_list (pattern_regex <$> fields !! "RegexRewrite")
  | None => []
  end ++ map GetRegex (or_matchers r).

(** Both checks read the name and the routes of the virtual host. *)
Definition validateRoutesRegex (v : VirtualService) (routes : list (GlooRoute_of Slice)) : M State unit :=
  errs <~ gets (λ s, ShortCircuit.regex_errors (md_ref (vs_meta v)) (flat_map (route_regexes (st_store s)) routes)) ;;
  for_range errs (vs_error v).

Definition validateRouteShortCircuiting (v : VirtualService) (name : string) (routes : list (GlooRoute_of Slice)) : M State unit :=
  let ms := ShortCircuit.host_matchers routes in
  duplicates <~ gets (λ s, ShortCircuit.duplicate_warnings hash_matcher name [] (map (matcher_value (st_arrays s)) ms)) ;;
  do! for_range duplicates (vs_warning v) ;;
  prefixes <~ ShortCircuit.prefix_warnings name [] ms ;;
  do! for_range prefixes (vs_warning v) ;;
  regexes <~ ShortCircuit.regex_warnings name [] ms ;;
  for_range regexes (vs_warning v).

Definition append_host_source (source : Resource) (vh : GlooVirtualHost) : GlooVirtualHost :=
  {| ov_name := ov_name vh; ov_domains := ov_domains vh; ov_routes := ov_routes vh; ov_options := ov_options vh;
     ov_sources := ov_sources vh ++ [makeSourceRef source] |}.

Definition virtualServiceToVirtualHost (p : positive) (gateway : Gateway) (proxyName : string) : M State GlooVirtualHost :=
  do! mergeDelegatedVirtualHostOptions p ;;
  v <~ vs_at p ;;
  let host := default empty_host (vs_host v) in
  routes <~ Converter.ConvertVirtualService snapshot gateway proxyName (vs_meta v) (vh_options host) fuel (vh_routes host) ;;
  do! validateRoutesRegex v routes ;;
  do! (if WarnOnRouteShortCircuiting then validateRouteShortCircuiting v (VirtualHostName v) routes else ret tt) ;;
  (* no slice is written to after this *)
  routes <~ gets (λ s, map (route_value (st_arrays s)) routes) ;;
  ret (append_host_source (RVirtualService (vs_meta v))
         {| ov_name := VirtualHostName v; ov_domains := vh_domains host; ov_routes := routes;
            ov_options := vh_options host; ov_sources := [] |}).

Definition computeHttpListenerVirtualHosts (parentGateway : Gateway) (vss : list positive) (proxyName : string) :
    M State (list GlooVirtualHost) :=
  fold_range 0 vss [] (λ _ p acc,
    do! update_vs p (λ v, match vs_host v with None => set_host v empty_host | Some _ => v end) ;;
    vh <~ virtualServiceToVirtualHost p parentGateway proxyName ;;
    ret (acc ++ [vh])).

Definition ComputeVirtualHosts (parentGateway : Gateway) (vss : list positive) (proxyName : string) : M State (list GlooVirtualHost) :=
  do! applyGlobalVirtualServiceSettings vss ;;
  do! validateVirtualServiceDomains parentGateway vss ;;
  computeHttpListenerVirtualHosts parentGateway vss proxyName.
End Conversion.
End VirtualServices.
