(* ===== verification/VirtualServicesFacts.v ===== *)
(** * Properties of the translation of virtual services *)

From stdpp Require Import base gmap strings list fin_maps sets.
From Stdlib Require Import ZArith Lia.
From S2P Require Import Prelude GoLib GwApi EdgeApi RouteConverter RouteConverterFacts ShortCircuit ShortCircuitFacts VirtualServices.
Import Edge VirtualServices.

(** [s] with more reports. *)
Definition add_reports (s : State) (l : list Report) : State :=
  {| st_store := st_store s; st_reports := st_reports s ++ l; st_arrays := st_arrays s |}.
Lemma add_reports_app s l l' : add_reports (add_reports s l) l' = add_reports s (l ++ l').
Proof. unfold add_reports. simpl. by rewrite (assoc_L (++)). Qed.
Lemma add_reports_nil s : add_reports s [] = s.
Proof. destruct s. unfold add_reports. simpl. by rewrite app_nil_r. Qed.

(** The keys of a map of lists with more than one element. *)
Section Conflicted.
Context `{!GoRange string} {A : Type}.
Definition conflicted (m : gmap string (list A)) : list string :=
  map fst (List.filter (λ '(d, l), 1 <? length l) (go_range m)).

Lemma conflicted_nodup m : NoDup (conflicted m).
Proof.
  unfold conflicted. pose proof (go_range_nodup m) as Hnd. revert Hnd. generalize (go_range m). clear.
  induction l as [|[d l'] l IH]; simpl; [by constructor|]. intros [Hn Hnd]%NoDup_cons. case_match; [|by apply IH].
  simpl. apply NoDup_cons. split; [|by apply IH]. intros Hin. apply Hn. change (map fst ?l) with (fst <$> l) in Hin.
  apply list_elem_of_fmap in Hin as (x & -> & [Hx _]%elem_of_filter_bool). by apply list_elem_of_fmap_2.
Qed.

Lemma conflicted_elem m f : (∀ d, default [] (m !! d) = f d) → ∀ d, d ∈ conflicted m ↔ 1 < length (f d).
Proof.
  intros Hm d. unfold conflicted. change (map fst ?l) with (fst <$> l). rewrite list_elem_of_fmap. split.
  - intros ([d' l] & -> & [Hin%go_range_elem Hlen]%elem_of_filter_bool). apply Nat.ltb_lt in Hlen. simpl. by rewrite <-Hm, Hin.
  - intros Hlen. exists (d, f d). split; [done|]. apply elem_of_filter_bool. split; [|by apply Nat.ltb_lt].
    apply go_range_elem. rewrite <-Hm in *. destruct (m !! d); [done|simpl in Hlen; lia].
Qed.
End Conflicted.

(** ** Domains *)
Section Domains.
Context `{!GoRange string}.
Context (h : Store).

(** The domains of the virtual services, with who has them, in order. *)
Definition entries_of (p : positive) : list (string * positive) :=
  match vs_host (load_vs p h) with None => [] | Some host => map (λ d, (d, p)) (domains_of host) end.
Definition users (vss : list positive) (d : string) : list positive :=
  map snd (List.filter (λ e, bool_decide (e.1 = d)) (flat_map entries_of vss)).
Definition hostless (p : positive) : list Report :=
  let v := load_vs p h in
  match vs_host v with None => [RepWarning (RVirtualService (vs_meta v)) (NoVirtualHostErr (md_ref (vs_meta v)))] | Some _ => [] end.
Definition conflict_errors (d : string) (ps : list positive) : list Report :=
  let l := map (λ p, load_vs p h) ps in
  imap (λ i v, RepError (RVirtualService (vs_meta v)) (DomainInOtherVirtualServicesErr d (others i l))) l.

Lemma insert_domains p ds : ∀ (m : gmap string (list positive)),
  let m' := foldl (λ m d, <[d := default [] (m !! d) ++ [p]]> m) m ds in
  (∀ d, default [] (m' !! d) = default [] (m !! d) ++ map snd (List.filter (λ e, bool_decide (e.1 = d)) (map (λ d, (d, p)) ds))) ∧
  ((∀ d l, m !! d = Some l → l ≠ []) → ∀ d l, m' !! d = Some l → l ≠ []).
Proof.
  induction ds as [|d ds IH]; intros m; simpl; [split; [by intros d; rewrite app_nil_r|done]|].
  destruct (IH (<[d := default [] (m !! d) ++ [p]]> m)) as [IH1 IH2]. split.
  - intros d'. rewrite IH1. case_bool_decide as E; [subst d'|]; simpl.
    + rewrite lookup_insert_eq. simpl. by rewrite <-(assoc_L (++)).
    + by rewrite lookup_insert_ne.
  - intros Hm. apply IH2. intros d' l. destruct (decide (d = d')) as [<-|].
    + rewrite lookup_insert_eq. intros [= <-]. by destruct (default [] (m !! d)).
    + rewrite lookup_insert_ne by done. apply Hm.
Qed.

Lemma users_snoc pre p d :
  users (pre ++ [p]) d = users pre d ++ map snd (List.filter (λ e, bool_decide (e.1 = d)) (entries_of p)).
Proof. unfold users. rewrite flat_map_app, List.filter_app, map_app. simpl. by rewrite app_nil_r. Qed.

Lemma index_by_domain_ok vss s : st_store s = h →
  wp (index_by_domain vss) (λ m s', s' = add_reports s (flat_map hostless vss) ∧
    (∀ d, default [] (m !! d) = users vss d) ∧ (∀ d l, m !! d = Some l → l ≠ [])) s.
Proof.
  intros Hs. unfold index_by_domain.
  apply (wp_fold_range_prefix (λ pre (m : gmap string (list positive)) s', s' = add_reports s (flat_map hostless pre) ∧
    (∀ d, default [] (m !! d) = users pre d) ∧ (∀ d l, m !! d = Some l → l ≠ [])) _ vss 0 []).
  { split_and!; [by rewrite add_reports_nil|done|done]. }
  intros _ pre p m s1 _ (-> & Hm & Hne). wp_step. apply wp_gets. simpl. rewrite Hs.
  assert (flat_map hostless (pre ++ [p]) = flat_map hostless pre ++ hostless p) as -> by (rewrite flat_map_app; simpl; by rewrite app_nil_r).
  unfold hostless at 2. pose proof (users_snoc pre p) as Hu. unfold entries_of in Hu. destruct (vs_host (load_vs p h)) as [host|].
  - apply wp_ret. rewrite app_nil_r. destruct (insert_domains p (domains_of host) m) as [H1 H2].
    split_and!; [done| |by apply H2]. intros d. by rewrite H1, Hm, Hu.
  - wp_step. apply wp_ret. split_and!; [|intros d; rewrite Hm, Hu; simpl; by rewrite app_nil_r|done].
    unfold add_reports. simpl. by rewrite (assoc_L (++)).
Qed.

Lemma report_conflicts_ok d ps s : st_store s = h →
  wp (report_conflicts d ps) (λ _ s', s' = add_reports s (conflict_errors d ps)) s.
Proof.
  intros Hs. unfold report_conflicts. wp_step. apply wp_gets. rewrite Hs.
  set (l := map (λ p, load_vs p h) ps). unfold conflict_errors. fold l.
  eapply wp_mono.
  { apply (wp_fold_range_split (λ pre _ s', s' = add_reports s (imap (λ i v,
      RepError (RVirtualService (vs_meta v)) (DomainInOtherVirtualServicesErr d (others i l))) pre))).
    { by rewrite add_reports_nil. }
    intros pre v post _ s1 Hl ->. unfold vs_error. apply wp_edge_report. rewrite imap_app. simpl.
    unfold add_reports. simpl. by rewrite Nat.add_0_r, <-(assoc_L (++)). }
  by intros _ s' ->.
Qed.

Definition domain_reports (gateway : Gateway) (vss : list positive) (order : list string) : list Report :=
  flat_map hostless vss ++ flat_map (λ d, conflict_errors d (users vss d)) order ++
  match order with [] => [] | _ => [RepError (RGateway (gw_meta gateway)) (GatewayHasConflictingVirtualServicesErr order)] end.

Lemma report_all_conflicts_ok m vss s r : st_store s = h → (∀ d, default [] (m !! d) = users vss d) →
  wp (fold_range 0 (go_range m) [] (λ _ '(domain, l) conflicting,
      if 1 <? length l then do! report_conflicts domain l ;; ret (conflicting ++ [domain]) else ret conflicting))
    (λ out s', out = conflicted m ∧ s' = add_reports s (r ++ flat_map (λ d, conflict_errors d (users vss d)) (conflicted m)))
    (add_reports s r).
Proof.
  intros Hs Hm.
  apply (wp_fold_range_prefix (λ pre out s', out = map fst (List.filter (λ '(d, l), 1 <? length l) pre) ∧
    s' = add_reports s (r ++ flat_map (λ d, conflict_errors d (users vss d))
      (map fst (List.filter (λ '(d, l), 1 <? length l) pre)))) _ (go_range m) 0 []).
  { simpl. by rewrite app_nil_r. }
  intros _ pre [d l] acc s2 Hin%go_range_elem (-> & ->). rewrite List.filter_app, map_app. simpl.
  destruct (1 <? length l) eqn:Hlen; simpl.
  - wp_step. eapply wp_mono; [by apply report_conflicts_ok|]. intros _ s3 ->. apply wp_ret. split; [done|].
    assert (l = users vss d) as -> by by rewrite <-Hm, Hin.
    rewrite flat_map_app, add_reports_app, <-(assoc_L (++)). simpl. by rewrite app_nil_r.
  - apply wp_ret. by rewrite !app_nil_r.
Qed.

Lemma validate_domains_run gateway vss s : st_store s = h → ∃ m, (∀ d, default [] (m !! d) = users vss d) ∧
  validateVirtualServiceDomains gateway vss s = Ok (tt, add_reports s (domain_reports gateway vss (conflicted m))).
Proof.
  intros Hs. unfold validateVirtualServiceDomains.
  destruct (wp_run _ _ _ (index_by_domain_ok vss s Hs)) as (m & s1 & Hrun & -> & Hm & _). exists m. split; [done|].
  unfold bind at 1. rewrite Hrun.
  destruct (wp_run _ _ _ (report_all_conflicts_ok m vss s (flat_map hostless vss) Hs Hm)) as (out & s' & Hrun' & -> & ->).
  unfold bind at 1. rewrite Hrun'. unfold domain_reports. destruct (conflicted m) as [|d order]; [unfold ret; by rewrite !app_nil_r|].
  unfold report, modify, add_reports. cbn [st_store st_reports]. by rewrite !(assoc_L (++)).
Qed.

(** Domains are checked exactly: a virtual service without a virtual host is warned
    about; for every domain (the empty one stands for none) that occurs more than once in
    the virtual services of a gateway, each occurrence is an error on its virtual service
    naming those of the others, and the gateway gets one error with all such domains.
    Nothing else is reported or changed. *)
Theorem validateVirtualServiceDomains_exact gateway vss s : st_store s = h →
  ∃ order, NoDup order ∧ (∀ d, d ∈ order ↔ 1 < length (users vss d)) ∧
    validateVirtualServiceDomains gateway vss s = Ok (tt, add_reports s
      (flat_map hostless vss ++ flat_map (λ d, conflict_errors d (users vss d)) order ++
       match order with [] => [] | _ => [RepError (RGateway (gw_meta gateway)) (GatewayHasConflictingVirtualServicesErr order)] end)).
Proof.
  intros Hs. destruct (validate_domains_run gateway vss s Hs) as (m & Hm & Hrun). exists (conflicted m).
  split_and!; [apply conflicted_nodup|by apply conflicted_elem|exact Hrun].
Qed.
End Domains.

(** ** Conversion *)

(** What the translation never changes of a virtual service. *)
Definition host_of (v : VirtualService) : VirtualHost := default empty_host (vs_host v).
Definition stable (v : VirtualService) : Metadata * list string * list Route * option (list string * string) :=
  (vs_meta v, vh_domains (host_of v), vh_routes (host_of v), option_map (λ c, (ssl_sniDomains c, ssl_other c)) (vs_ssl v)).
Lemma hasSsl_stable v v' : stable v = stable v' → hasSsl v = hasSsl v'.
Proof. unfold stable, hasSsl. intros [= _ _ _ E]. by destruct (vs_ssl v), (vs_ssl v'). Qed.
Definition evolves (s s' : State) : Prop :=
  (∃ l, st_reports s' = st_reports s ++ l) ∧
  ∀ p, stable (load_vs p (st_store s')) = stable (load_vs p (st_store s)).

#[export] Instance evolves_preorder : PreOrder evolves.
Proof.
  split; [by split; [exists []; rewrite app_nil_r|]|]. intros a b c ([l1 E1] & G1) ([l2 E2] & G2).
  split; [|intros p; by rewrite G2]. exists (l1 ++ l2). by rewrite E2, E1, (assoc_L (++)).
Qed.
Lemma grows_evolves s s' : grows s s' → evolves s s'.
Proof. intros [Hl Hf]. injection Hf as Hlo Hvs. split; [done|]. intros p. unfold load_vs. by rewrite Hvs. Qed.
Lemma evolves_reports s l : evolves s (add_reports s l).
Proof. by split; [exists l|]. Qed.
#[export] Hint Resolve grows_evolves evolves_reports : gw.

Lemma update_vs_ok p f s : (∀ v, stable (f v) = stable v) → wp (update_vs p f) (λ _ s', evolves s s') s.
Proof.
  intros Hf. unfold update_vs. apply wp_with_store. simpl. split; [exists []; by rewrite app_nil_r|].
  intros q. unfold load_vs. simpl. destruct (decide (p = q)) as [<-|].
  - rewrite lookup_insert_eq. apply Hf.
  - by rewrite lookup_insert_ne.
Qed.

Lemma for_range_evolves {A} (body : A → M State unit) l s :
  (∀ x s, x ∈ l → wp (body x) (λ _ s', evolves s s') s) → wp (for_range l body) (λ _ s', evolves s s') s.
Proof.
  intros Hb. apply (wp_for_range (λ s', evolves s s')); [done|]. intros x s1 Hx Hs1. eapply wp_mono; [by apply Hb|].
  intros [] s2 Hs2. by etrans.
Qed.

Lemma report_evolves r s : wp (report r) (λ _ s', evolves s s') s.
Proof. apply wp_edge_report. apply (evolves_reports s [r]). Qed.

Section Conversion.
Context `{!Labels, !GoRange Z, !GoRange string, !Regexp, !GeneratedCode, !SliceCapacity}.
Context (snapshot : ApiSnapshot) (settings : Settings) (WarnOnRouteShortCircuiting : bool) (fuel : nat).
Context (Hfuel : length (sn_routeTables snapshot) < fuel).

Lemma applyGlobal_ok vss s : wp (applyGlobalVirtualServiceSettings settings vss) (λ _ s', evolves s s') s.
Proof.
  unfold applyGlobalVirtualServiceSettings. destruct (se_oneWayTls settings) as [val|]; [|by apply wp_ret].
  apply for_range_evolves. intros p s1 _. apply update_vs_ok. intros v. destruct (vs_ssl v) as [c|] eqn:E; [|done].
  destruct (ssl_oneWayTls c); [done|]. unfold stable. simpl. by rewrite E.
Qed.

Lemma set_host_options_stable v o : stable (set_host_options v o) = stable v.
Proof. done. Qed.

Lemma mergeDelegated_ok p s : wp (mergeDelegatedVirtualHostOptions snapshot p) (λ _ s', evolves s s') s.
Proof.
  unfold mergeDelegatedVirtualHostOptions. wp_step. apply wp_gets. apply for_range_evolves. intros ref s1 _. wp_step. apply wp_gets.
  destruct (Converter.find_options _ _) as [o|]; [|apply report_evolves].
  destruct (vh_options _) as [q|]; [|by apply update_vs_ok].
  wp_step. apply wp_with_store. eapply wp_mono; [by apply update_vs_ok|]. intros [] s' Hs'. etrans; [|exact Hs'].
  auto with gw.
Qed.

Lemma for_range_reports_run {A} (f : A → Report) l s : for_range l (λ x, report (f x)) s = Ok (tt, add_reports s (map f l)).
Proof.
  revert s. induction l as [|x l IH]; intros s; simpl; [unfold ret; by rewrite add_reports_nil|].
  unfold bind, report, modify. rewrite IH. unfold add_reports. simpl. by rewrite <-(assoc_L (++)).
Qed.

(** Reports are added, virtual services keep what is stable, and arrays what [ar] says was
    written to them, when [ok] says that the slices were settled then. *)
Definition checks (ar : Arrays) (ok : Prop) (s s' : State) : Prop :=
  evolves s s' ∧ (ok → preserves ar (st_arrays s) → preserves ar (st_arrays s')).
Lemma harmless_checks ar ok s s' : harmless ar ok s s' → checks ar ok s s'.
Proof. intros [? ?]. split; [by apply grows_evolves|done]. Qed.
#[local] Instance checks_preorder ar ok : PreOrder (checks ar ok).
Proof. split; [by intros s|]. intros a b c [Hg1 Hp1] [Hg2 Hp2]. split; [by etrans|auto]. Qed.

Lemma warnings_ok ar ok v l s : wp (for_range l (vs_warning v)) (λ _ s', checks ar ok s s') s.
Proof.
  unfold wp. rewrite (for_range_reports_run (λ e, RepWarning (RVirtualService (vs_meta v)) e)). split; [apply evolves_reports|done].
Qed.

Lemma validateRoutesRegex_ok ar ok v routes s : wp (validateRoutesRegex v routes) (λ _ s', checks ar ok s s') s.
Proof.
  unfold validateRoutesRegex. wp_step. apply wp_gets. unfold wp.
  rewrite (for_range_reports_run (λ e, RepError (RVirtualService (vs_meta v)) e)). split; [apply evolves_reports|done].
Qed.

Lemma validateRouteShortCircuiting_ok ar (ok : Prop) v name routes s : (ok → Forall (settled_route ar) routes) →
  wp (if WarnOnRouteShortCircuiting then validateRouteShortCircuiting v name routes else ret tt) (λ _ s', checks ar ok s s') s.
Proof.
  intros Hset. assert (ok → Forall (settled_matcher ar) (ShortCircuit.host_matchers routes)) as Hms.
  { intros Hok. specialize (Hset Hok). unfold ShortCircuit.host_matchers.
    induction Hset; simpl; [constructor|by apply Forall_app]. }
  destruct WarnOnRouteShortCircuiting; [|by apply wp_ret]. unfold validateRouteShortCircuiting. cbv zeta.
  wp_step. apply wp_gets. wp_step. eapply wp_mono; [apply (warnings_ok ar ok)|]. intros [] s2 Hs2.
  wp_step. eapply wp_mono; [by apply (prefix_warnings_writes ar ok)|]. intros ps s3 Hs3%harmless_checks.
  wp_step. eapply wp_mono; [apply (warnings_ok ar ok)|]. intros [] s4 Hs4.
  wp_step. eapply wp_mono; [by apply (regex_warnings_writes ar ok)|]. intros rs s5 Hs5%harmless_checks.
  eapply wp_mono; [apply (warnings_ok ar ok)|]. intros [] s6 Hs6.
  etrans; [exact Hs2|]. etrans; [exact Hs3|]. etrans; [exact Hs4|]. etrans; [exact Hs5|exact Hs6].
Qed.

(** The virtual host of a virtual service: its routes are those that the route tree delivers,
    when no routes share room behind inherited matchers. *)
Definition vhost_of (v : VirtualService) (vh : GlooVirtualHost) : Prop :=
  ov_name vh = VirtualHostName v ∧ ov_domains vh = vh_domains (host_of v) ∧
  ov_sources vh = [makeSourceRef (RVirtualService (vs_meta v))] ∧
  (unshared snapshot None (md_namespace (vs_meta v)) (vh_routes (host_of v)) [] →
   shows [makeSourceRef (RVirtualService (vs_meta v))] (ov_routes vh)
     (delivered snapshot None (md_namespace (vs_meta v)) (vh_routes (host_of v)) [])).

Lemma vhost_of_stable v v' vh : stable v = stable v' → vhost_of v vh → vhost_of v' vh.
Proof. unfold vhost_of, VirtualHostName, stable. by intros [= <- <- <- _]. Qed.

Lemma route_values_preserves ar ar' routes : preserves ar ar' → Forall (settled_route ar) routes →
  map (route_value ar') routes = map (route_value ar) routes.
Proof.
  intros Hp. induction 1 as [|g routes Hg _ IH]; simpl; [done|]. rewrite IH. f_equal. unfold route_value. f_equal.
  induction Hg as [|m ms Hm _ IHm]; simpl; [done|]. by rewrite IHm, (settled_matcher_preserves _ _ _ Hp Hm).
Qed.

Lemma virtualServiceToVirtualHost_ok p gateway proxyName s :
  wp (virtualServiceToVirtualHost snapshot WarnOnRouteShortCircuiting fuel p gateway proxyName)
     (λ vh s', evolves s s' ∧ vhost_of (load_vs p (st_store s)) vh) s.
Proof.
  unfold virtualServiceToVirtualHost. wp_step. eapply wp_mono; [apply mergeDelegated_ok|]. intros [] s1 Hs1.
  wp_step. apply wp_gets. set (v := load_vs p (st_store s1)). cbv zeta.
  wp_step. eapply wp_mono.
  { apply visit_ok. pose proof (unvisited_nil snapshot). lia. }
  intros routes s2 [Hs2 Hd]. cbn [fmap option_fmap option_map resource_meta] in Hd.
  set (ok := ready snapshot s1 _ _ _ _) in Hd.
  wp_step. eapply wp_mono; [apply (validateRoutesRegex_ok (st_arrays s2) ok)|]. intros [] s3 Hs3.
  wp_step. eapply wp_mono; [apply (validateRouteShortCircuiting_ok (st_arrays s2) ok)|].
  { intros Hok. apply (Hd Hok). }
  intros [] s4 Hs4. assert (checks (st_arrays s2) ok s2 s4) as [Hev Hpres] by (etrans; [exact Hs3|exact Hs4]).
  wp_step. apply wp_gets. apply wp_ret. split.
  - etrans; [exact Hs1|]. etrans; [by apply grows_evolves|done].
  - apply (vhost_of_stable v); [apply Hs1|]. split_and!; [done|done|done|]. intros Hun. assert ok as Hok by (split; done).
    destruct (Hd Hok) as (_ & Hset & Hshow). simpl. rewrite (route_values_preserves (st_arrays s2)); [exact Hshow|by apply Hpres|done].
Qed.

Lemma computeHttpListenerVirtualHosts_ok gateway proxyName vss s :
  wp (computeHttpListenerVirtualHosts snapshot WarnOnRouteShortCircuiting fuel gateway vss proxyName)
     (λ vhs s', evolves s s' ∧ Forall2 (λ p vh, vhost_of (load_vs p (st_store s)) vh) vss vhs) s.
Proof.
  unfold computeHttpListenerVirtualHosts.
  apply (wp_fold_range_prefix (λ pre vhs s', evolves s s' ∧ Forall2 (λ p vh, vhost_of (load_vs p (st_store s)) vh) pre vhs) _ vss 0 []).
  { split; [done|constructor]. }
  intros _ pre p vhs s1 _ [Hs1 Hv]. wp_step. eapply wp_mono; [apply update_vs_ok; intros v; by destruct v as [? []]|].
  intros [] s2 Hs2. wp_step. eapply wp_mono; [apply virtualServiceToVirtualHost_ok|]. intros vh s3 [Hs3 Hvh]. apply wp_ret.
  assert (evolves s s2) as Hs12 by by etrans. split; [by etrans|]. apply Forall2_app; [done|]. constructor; [|constructor].
  eapply vhost_of_stable; [|exact Hvh]. apply Hs12.
Qed.

Lemma ComputeVirtualHosts_ok gateway vss proxyName s :
  wp (ComputeVirtualHosts snapshot settings WarnOnRouteShortCircuiting fuel gateway vss proxyName)
     (λ vhs s', evolves s s' ∧ Forall2 (λ p vh, vhost_of (load_vs p (st_store s)) vh) vss vhs) s.
Proof.
  unfold ComputeVirtualHosts. wp_step. eapply wp_mono; [apply applyGlobal_ok|]. intros [] s1 Hs1.
  destruct (validate_domains_run (st_store s1) gateway vss s1 eq_refl) as (m & _ & Hrun).
  wp_step. unfold wp at 1. rewrite Hrun. eapply wp_mono; [apply computeHttpListenerVirtualHosts_ok|].
  intros vhs s2 [Hs2 Hv]. split.
  - etrans; [exact Hs1|]. etrans; [|exact Hs2]. apply evolves_reports.
  - eapply Forall2_impl; [exact Hv|]. intros p vh. apply vhost_of_stable. apply Hs1.
Qed.

(** C37. The virtual services of a gateway become virtual hosts one by one: the conversion
    ends, keeps the order, and gives each its name "namespace.name", its own domains, itself
    as the source and, when no routes share room behind inherited matchers, exactly the
    routes its route tree delivers. Of the virtual services, metadata, domains, routes and
    the TLS configuration stay, but for the one-way default and options, which are written;
    reports are only added. *)
Theorem ComputeVirtualHosts_correct gateway vss proxyName s :
  ∃ vhs s', ComputeVirtualHosts snapshot settings WarnOnRouteShortCircuiting fuel gateway vss proxyName s = Ok (vhs, s') ∧
    evolves s s' ∧ Forall2 (λ p vh, vhost_of (load_vs p (st_store s)) vh) vss vhs.
Proof. apply (wp_run _ _ _ (ComputeVirtualHosts_ok gateway vss proxyName s)). Qed.
End Conversion.

(** ** Concrete virtual services *)
Section Examples.
#[local] Existing Instance ex_labels.
#[local] Existing Instance ex_z_order.
#[local] Existing Instance ex_regexp.
#[local] Existing Instance ex_capacity.
Definition ex_string_order : GoRange string := list_order.
#[local] Existing Instance ex_string_order.
Definition ex_generated : GeneratedCode :=
  {| hash_matcher := λ m, Z.of_nat (String.length (PathAsString m)); hash_sslConfig := ssl_other;
     hash_httpOptions := λ o, match o with Some o => lo_other o | None => "nil" end; host_rewrite_path_regex := λ _, None; pattern_regex := λ s, s |}.
#[local] Existing Instance ex_generated.

Definition ex_vs (name : string) (host : option VirtualHost) (ssl : option SslConfig) : VirtualService :=
  {| vs_meta := ex_meta name ∅; vs_host := host; vs_ssl := ssl |}.
Definition ex_host (domains : list string) : option VirtualHost :=
  Some {| vh_domains := domains; vh_routes := ex_routes; vh_options := None; vh_optionRefs := [] |}.
Definition ex_vs_store (l : list (positive * VirtualService)) : Store :=
  {| s_transformations := ∅; s_stages := ∅; s_options := ∅; s_listenerOptions := ∅; s_virtualServices := list_to_map l; s_next := 1 |}.
Definition ex_domains_store : Store :=
  ex_vs_store [(1%positive, ex_vs "a" (ex_host ["x"; "y"]) None); (2%positive, ex_vs "b" (ex_host ["x"]) None); (3%positive, ex_vs "c" None None)].

Lemma validateVirtualServiceDomains_exact_witness :
  ∃ order : list string, (∀ d, d ∈ order ↔ 1 < length (users ex_domains_store [1; 2; 3]%positive d)) ∧
    option_map (λ '(_, s), length (st_reports s))
      (match validateVirtualServiceDomains ex_gateway [1; 2; 3]%positive (ex_state ex_domains_store) with Ok x => Some x | _ => None end) = Some 4.
Proof.
  destruct (validateVirtualServiceDomains_exact ex_domains_store ex_gateway [1; 2; 3]%positive (ex_state ex_domains_store) eq_refl)
    as (order & _ & Hin & _). exists order. split; [exact Hin|]. vm_compute. reflexivity.
Defined.

Definition ex_settings : Settings := {| se_translateEmptyGateways := false; se_oneWayTls := Some true |}.
Lemma ComputeVirtualHosts_correct_witness :
  ∃ vhs s', ComputeVirtualHosts (ex_snapshot []) ex_settings true 3 ex_gateway [1; 2]%positive "proxy" (ex_state ex_domains_store) = Ok (vhs, s') ∧
    map ov_name vhs = ["default.a"; "default.b"] ∧ map (λ vh, length (ov_routes vh)) vhs = [2; 2] ∧
    evolves (ex_state ex_domains_store) s' ∧
    ∃ vh, vhs !! 0 = Some vh ∧ shows [makeSourceRef (RVirtualService (ex_meta "a" ∅))] (ov_routes vh)
      (delivered (ex_snapshot []) None "default" ex_routes []).
Proof.
  destruct (ComputeVirtualHosts_correct (ex_snapshot []) ex_settings true 3 ltac:(simpl; lia) ex_gateway [1; 2]%positive "proxy" (ex_state ex_domains_store))
    as (vhs & s' & Hrun & Hev & Hall). exists vhs, s'. split; [exact Hrun|].
  split; [vm_compute in Hrun; injection Hrun as <- _; reflexivity|].
  split; [vm_compute in Hrun; injection Hrun as <- _; reflexivity|]. split; [exact Hev|].
  apply Forall2_cons_inv_l in Hall as (vh & vhs' & (_ & _ & _ & Hshow) & _ & ->).
  exists vh. split; [reflexivity|]. apply Hshow. apply (unsharedb_true _ 4). vm_compute. reflexivity.
Defined.

(** A domain twice in one virtual service conflicts with itself. *)
Example own_domain_twice :
  match validateVirtualServiceDomains ex_gateway [1%positive] (ex_state (ex_vs_store [(1%positive, ex_vs "a" (ex_host ["x"; "x"]) None)])) with
  | Ok (_, s) => Some (length (st_reports s))
  | _ => None
  end = Some 3.
Proof. vm_compute. reflexivity. Qed.
End Examples.
