(* ===== verification/EdgeListeners.v ===== *)
(** * gateway/pkg/translator: a gateway becomes a listener

    http_translator.go, tcp_translator.go, hybrid_translator.go, aggregate_translator.go,
    listener_translator.go, gateway_selector.go, ssl_configuration.go, merge.go and
    utils/utils.go. The reflective merge of the mergo package is the interface [Mergo].
    HTTP listener options are objects of the [Store], as the code overwrites their
    connection manager settings. *)

From stdpp Require Import base gmap strings list fin_maps pretty.
From Stdlib Require Import ZArith.
From S2P Require Import Prelude GoLib GwApi EdgeApi RouteConverter ShortCircuit VirtualServices.
Import Edge VirtualServices.

(** [mergo.Merge(child, parent, wrapperTransformer{prevent})] on a clone of the child. *)
Class Mergo := {
  merge_ssl : SslConfig → SslConfig → bool → SslConfig;
  merge_hcm : string → string → bool → string
}.

Module EdgeListeners.
(** ** gateway_selector.go *)
Section Selectors.
Context `{!Labels}.

Definition matchNamespaces (gatewayNs : string) (namespaces : list string) : bool :=
  match namespaces with
  | [] => true
  | _ => existsb (λ ns, bool_decide (ns = "*") || bool_decide (gatewayNs = ns)) namespaces
  end.
Definition matchLabels (l validLabels : gmap string string) : bool := SelectorFromSet validLabels l.
Definition labelsMatchExpressionRequirements (rs : list (gmap string string → bool)) (l : gmap string string) : bool :=
  forallb (λ r, r l) rs.
Definition matchExpressions (l : gmap string string) (es : list Expression) : EdgeErr + bool :=
  match requirements SelectorInvalidExpressionWarning es with
  | inl e => inl e
  | inr rs => inr (labelsMatchExpressionRequirements rs l)
  end.
Definition matchMetadata (meta : Metadata) (refSelector : option NamespacedName) (selector : Selector) : EdgeErr + bool :=
  match refSelector with
  | Some ref => inr (bool_decide (ref = md_ref meta))
  | None =>
      match matchExpressions (md_labels meta) (se_expressions selector) with
      | inl e => inl e
      | inr es => inr (matchNamespaces (md_namespace meta) (se_namespaces selector) &&
                       matchLabels (md_labels meta) (se_labels selector) && es)
      end
  end.

Definition isHttpGatewaySelected (g : MatchableHttpGateway) (selector : option DelegatedHttpGateway) : EdgeErr + bool :=
  match selector with
  | None => inr false
  | Some d =>
      if negb (bool_decide (is_Some (dh_sslConfig d) ↔ is_Some (mt_sslConfig (mh_matcher g)))) then inr false
      else matchMetadata (mh_meta g) (dh_ref d) (dh_selector d)
  end.
Definition isTcpGatewaySelected (g : MatchableTcpGateway) (selector : option DelegatedTcpGateway) : EdgeErr + bool :=
  match selector with
  | None => inr false
  | Some d => matchMetadata (mc_meta g) (dt_ref d) (dt_selector d)
  end.

(** The selected ones; errors go to [onError]. *)
Definition select {A} (onError : EdgeErr → M State unit) (selected : A → EdgeErr + bool) (available : list A) : M State (list A) :=
  fold_range 0 available [] (λ _ g acc,
    match selected g with
    | inl e => do! onError e ;; ret acc
    | inr true => ret (acc ++ [g])
    | inr false => ret acc
    end).
Definition SelectMatchableHttpGateways (onError : EdgeErr → M State unit) (available : list MatchableHttpGateway)
    (selector : option DelegatedHttpGateway) : M State (list MatchableHttpGateway) :=
  select onError (λ g, isHttpGatewaySelected g selector) available.
Definition SelectMatchableTcpGateways (onError : EdgeErr → M State unit) (available : list MatchableTcpGateway)
    (selector : option DelegatedTcpGateway) : M State (list MatchableTcpGateway) :=
  select onError (λ g, isTcpGatewaySelected g selector) available.
End Selectors.

(** ** ssl_configuration.go *)
Section Grouping.
Context `{!GeneratedCode, !GoRange string}.

Definition with_sni (c : SslConfig) (sni : list string) : SslConfig :=
  {| ssl_sniDomains := sni; ssl_oneWayTls := ssl_oneWayTls c; ssl_other := ssl_other c |}.
Definition hashSslConfig (c : SslConfig) : string := hash_sslConfig (with_sni c []).
(** The new values that are not among the old ones. *)
Definition merge (values newValues : list string) : list string :=
  values ++ List.filter (λ v, negb (existsb (λ x, bool_decide (x = v)) values)) newValues.

Definition merge_sni (a b : list string) : list string :=
  match a, b with
  | [], _ | _, [] => []
  | _, _ => merge a b
  end.

Definition group_one (m : gmap string SslConfig * gmap string (list positive)) (p : positive) (c : SslConfig) :
    gmap string SslConfig * gmap string (list positive) :=
  let k := hashSslConfig c in
  match m.1 !! k with
  | Some matching => (<[k := with_sni matching (merge_sni (ssl_sniDomains matching) (ssl_sniDomains c))]> m.1,
                      <[k := default [] (m.2 !! k) ++ [p]]> m.2)
  | None => (<[k := c]> m.1, <[k := [p]]> m.2)
  end.

(** A virtual service without SSL configuration makes the hash dereference nil. *)
Definition GroupVirtualServicesBySslConfig (vss : list positive) : M State (list (SslConfig * list positive)) :=
  m <~ fold_range 0 vss (∅, ∅) (λ _ p m,
    v <~ vs_at p ;;
    match vs_ssl v with
    | None => panic "nil SslConfig"
    | Some c => ret (group_one m p c)
    end) ;;
  ret (omap (λ k, match m.1 !! k with Some c => Some (c, default [] (m.2 !! k)) | None => None end)
            (sort_strings (map fst (go_range m.1)))).
End Grouping.

(** ** merge.go *)
Section Merge.
Context `{!Mergo}.
Definition mergeSslConfig (parent child : option SslConfig) (prevent : bool) : option SslConfig :=
  match child, parent with
  | None, _ => parent
  | _, None => child
  | Some c, Some p => Some (merge_ssl c p prevent)
  end.
Definition mergeHCMSettings (parent child : option string) (prevent : bool) : option string :=
  match child, parent with
  | None, _ => parent
  | _, None => child
  | Some c, Some p => Some (merge_hcm c p prevent)
  end.

Definition delegatedHttp (g : Gateway) : option DelegatedHttpGateway :=
  match gw_type g with Some (HybridGatewayType h) => hy_delegatedHttpGateways h | _ => None end.
Definition preventChildOverrides (g : Gateway) : bool :=
  match delegatedHttp g with Some d => dh_preventChildOverrides d | None => false end.

Definition load_listenerOptions (p : positive) (h : Store) : HttpListenerOptions :=
  default {| lo_hcm := None; lo_other := "" |} (s_listenerOptions h !! p).

(** The settings are written into the options of the matchable gateway itself. *)
Definition reconcileGatewayLevelHCMConfig (parent : Gateway) (mh : MatchableHttpGateway) (h : Store) : option positive * Store :=
  let options := hg_options (mh_httpGateway mh) in
  let reconciled := mergeHCMSettings (delegatedHttp parent ≫= dh_hcm) (options ≫= λ p, lo_hcm (load_listenerOptions p h))
                      (preventChildOverrides parent) in
  match options with
  | Some p => (Some p, set_listenerOptions p {| lo_hcm := reconciled; lo_other := lo_other (load_listenerOptions p h) |} h)
  | None => let '(p, h) := fresh h in (Some p, set_listenerOptions p {| lo_hcm := reconciled; lo_other := "" |} h)
  end.
Definition reconcileGatewayLevelSslConfig (parent : Gateway) (mh : MatchableHttpGateway) : option SslConfig :=
  mergeSslConfig (delegatedHttp parent ≫= dh_sslConfig) (mt_sslConfig (mh_matcher mh)) (preventChildOverrides parent).
End Merge.

(** ** translator.go: the common part of a listener *)
Definition ListenerName (g : Gateway) : string := "listener-" +:+ gw_bindAddress g +:+ "-" +:+ pretty (gw_bindPort g).
(** [makeListener], the listener type and [appendSource]. *)
Definition makeListener (g : Gateway) (type : ListenerType) (sslConfigurations : list SslConfig) : EdgeListener :=
  {| el_name := ListenerName g; el_bindAddress := gw_bindAddress g; el_bindPort := gw_bindPort g; el_settings := gw_settings g;
     el_type := type; el_sslConfigurations := sslConfigurations; el_sources := [makeSourceRef (RGateway (gw_meta g))] |}.

(** ** tcp_translator.go, and the SNI check of hybrid_translator.go *)
Definition ComputeTcpListener (t : TcpGateway) : TcpListener := {| tl_options := tg_options t; tl_tcpHosts := tg_tcpHosts t |}.

Definition validateTcpHosts (g : Gateway) (t : TcpGateway) (tcpSSL : option SslConfig) : M State unit :=
  match tcpSSL with
  | None => ret tt
  | Some c =>
      let conflicting := flat_map (λ host,
        flat_map (λ d, if negb (existsb (λ x, bool_decide (x = d)) (ssl_sniDomains c)) && negb (bool_decide (ssl_sniDomains c = []))
                       then [th_name host +:+ ":" +:+ d] else [])
                 (from_option ssl_sniDomains [] (th_ssl host))) (tg_tcpHosts t) in
      match conflicting with
      | [] => ret tt
      | _ => report (RepError (RGateway (gw_meta g)) (ConflictingSniDomains conflicting))
      end
  end.

Section Translators.
Context `{!Labels, !GoRange Z, !GoRange string, !Regexp, !GeneratedCode, !Mergo, !SliceCapacity}.
Context (snapshot : ApiSnapshot) (settings : Settings) (WarnOnRouteShortCircuiting : bool) (fuel : nat) (proxyName : string).

Definition virtual_hosts (g : Gateway) (vss : list positive) : M State (list GlooVirtualHost) :=
  ComputeVirtualHosts snapshot settings WarnOnRouteShortCircuiting fuel g vss proxyName.
Definition no_virtual_services : bool := bool_decide (sn_virtualServices snapshot = []).
(** The SSL configurations of the virtual services, as they are now. *)
Definition ssl_configurations (vss : list positive) : M State (list SslConfig) :=
  gets (λ s, omap (λ p, vs_ssl (load_vs p (st_store s))) vss).

Definition HttpTranslator_ComputeListener (g : Gateway) : M State (option EdgeListener) :=
  match gw_type g with
  | Some (HttpGatewayType http) =>
      if no_virtual_services && negb (se_translateEmptyGateways settings) then ret None else
      vss <~ getVirtualServicesForHttpGateway snapshot g http (gw_ssl g) ;;
      vhs <~ virtual_hosts g vss ;;
      configs <~ (if gw_ssl g then ssl_configurations vss else ret []) ;;
      ret (Some (makeListener g (Listener_HttpListener {| hl_virtualHosts := vhs; hl_options := hg_options http |}) configs))
  | _ => ret None
  end.

Definition TcpTranslator_ComputeListener (g : Gateway) : M State (option EdgeListener) :=
  match gw_type g with
  | Some (TcpGatewayType t) => ret (Some (makeListener g (Listener_TcpListener (ComputeTcpListener t)) []))
  | _ => ret None
  end.

Definition InvalidGatewayTypeTranslator_ComputeListener (g : Gateway) : M State (option EdgeListener) :=
  do! report (RepError (RGateway (gw_meta g)) MissingGatewayTypeErr) ;; ret None.

Definition selection_error (g : Gateway) (e : EdgeErr) : M State unit := report (RepError (RGateway (gw_meta g)) e).

(** *** hybrid_translator.go *)
Definition matched_http (g : Gateway) (matcher : GatewayMatcher) (http : HttpGateway) (options : option positive) (ssl : bool) :
    M State MatchedListener :=
  vss <~ getVirtualServicesForHttpGateway snapshot g http ssl ;;
  vhs <~ virtual_hosts g vss ;;
  configs <~ (if ssl then ssl_configurations vss else ret []) ;;
  ret {| ml_matcher := matcher; ml_sslConfigurations := configs;
         ml_type := Some (MatchedListener_HttpListener {| hl_virtualHosts := vhs; hl_options := options |}) |}.

Definition computeHybridListenerFromMatchedGateways (g : Gateway) (matched : list MatchedGateway) : M State (list MatchedListener) :=
  fold_range 0 matched [] (λ _ mg acc,
    let matcher := {| mt_sslConfig := mt_sslConfig (mg_matcher mg); mt_sourcePrefixRanges := mt_sourcePrefixRanges (mg_matcher mg);
                      mt_passthroughCipherSuites := [] |} in
    match mg_type mg with
    | Some (MatchedHttp http) =>
        if no_virtual_services && negb (se_translateEmptyGateways settings) then ret acc else
        l <~ matched_http g matcher http (hg_options http) (bool_decide (is_Some (mt_sslConfig (mg_matcher mg)))) ;;
        ret (acc ++ [l])
    | Some (MatchedTcp t) =>
        do! validateTcpHosts g t (mt_sslConfig (mg_matcher mg)) ;;
        ret (acc ++ [{| ml_matcher := mg_matcher mg; ml_sslConfigurations := [];
                        ml_type := Some (MatchedListener_TcpListener (ComputeTcpListener t)) |}])
    | None => ret (acc ++ [{| ml_matcher := matcher; ml_sslConfigurations := []; ml_type := None |}])
    end).

Definition computeMatchedHttpListener (parent : Gateway) (mh : MatchableHttpGateway) : M State MatchedListener :=
  let sslGateway := bool_decide (is_Some (mt_sslConfig (mh_matcher mh))) in
  listenerOptions <~ with_store (reconcileGatewayLevelHCMConfig parent mh) ;;
  let sslConfig := if sslGateway then reconcileGatewayLevelSslConfig parent mh else None in
  matched_http parent {| mt_sslConfig := sslConfig; mt_sourcePrefixRanges := mt_sourcePrefixRanges (mh_matcher mh);
                         mt_passthroughCipherSuites := [] |} (mh_httpGateway mh) listenerOptions sslGateway.

Definition computeMatchedTcpListener (parent : Gateway) (mc : MatchableTcpGateway) : M State MatchedListener :=
  do! validateTcpHosts parent (mc_tcpGateway mc) (mt_sslConfig (mc_matcher mc)) ;;
  ret {| ml_matcher := mc_matcher mc; ml_sslConfigurations := [];
         ml_type := Some (MatchedListener_TcpListener (ComputeTcpListener (mc_tcpGateway mc))) |}.

Definition computeHybridListenerFromDelegatedGateways (g : Gateway) (http : option DelegatedHttpGateway)
    (tcp : option DelegatedTcpGateway) : M State (list MatchedListener) :=
  https <~ SelectMatchableHttpGateways (selection_error g) (sn_httpGateways snapshot) http ;;
  tcps <~ SelectMatchableTcpGateways (selection_error g) (sn_tcpGateways snapshot) tcp ;;
  l <~ fold_range 0 https [] (λ _ mh acc, ml <~ computeMatchedHttpListener g mh ;; ret (acc ++ [ml])) ;;
  fold_range 0 tcps l (λ _ mc acc, ml <~ computeMatchedTcpListener g mc ;; ret (acc ++ [ml])).

Definition HybridTranslator_ComputeListener (g : Gateway) : M State (option EdgeListener) :=
  match gw_type g with
  | Some (HybridGatewayType hybrid) =>
      match hy_matchedGateways hybrid, hy_delegatedHttpGateways hybrid, hy_delegatedTcpGateways hybrid with
      | None, None, None => ret None
      | Some matched, _, _ =>
          l <~ computeHybridListenerFromMatchedGateways g matched ;;
          match l with
          | [] => do! report (RepError (RGateway (gw_meta g)) EmptyHybridGateway) ;; ret None
          | _ => ret (Some (makeListener g (Listener_HybridListener l) []))
          end
      | None, http, tcp =>
          l <~ computeHybridListenerFromDelegatedGateways g http tcp ;;
          match l with
          | [] => do! report (RepWarning (RGateway (gw_meta g)) EmptyHybridGateway) ;; ret None
          | _ => ret (Some (makeListener g (Listener_HybridListener l) []))
          end
      end
  | _ => ret None
  end.

(** *** aggregate_translator.go *)
Definition newBuilder : AggregateListener :=
  {| al_virtualHosts := ∅; al_httpOptions := ∅; al_httpFilterChains := []; al_tcpListeners := [] |}.

Definition HashAndStoreHttpOptions (options : option positive) (h : Store) (m : gmap string (option positive)) :
    string * gmap string (option positive) :=
  let ref := hash_httpOptions (option_map (λ p, load_listenerOptions p h) options) in (ref, <[ref := options]> m).

Definition addHttpFilterChain (vhs : list GlooVirtualHost) (options : option positive) (matcher : option GatewayMatcher)
    (h : Store) (b : AggregateListener) : AggregateListener :=
  let '(ref, httpOptions) := HashAndStoreHttpOptions options h (al_httpOptions b) in
  {| al_virtualHosts := foldl (λ m vh, <[ov_name vh := vh]> m) (al_virtualHosts b) vhs;
     al_httpOptions := httpOptions;
     al_httpFilterChains := al_httpFilterChains b ++ [{| fc_matcher := matcher; fc_httpOptionsRef := ref; fc_virtualHostRefs := map ov_name vhs |}];
     al_tcpListeners := al_tcpListeners b |}.
Definition add_chain (vhs : list GlooVirtualHost) (options : option positive) (matcher : option GatewayMatcher) (b : AggregateListener) :
    M State AggregateListener :=
  gets (λ s, addHttpFilterChain vhs options matcher (st_store s) b).
Definition add_tcp (l : MatchedTcpListener) (b : AggregateListener) : AggregateListener :=
  {| al_virtualHosts := al_virtualHosts b; al_httpOptions := al_httpOptions b; al_httpFilterChains := al_httpFilterChains b;
     al_tcpListeners := al_tcpListeners b ++ [l] |}.

(** One filter chain per SSL configuration of the virtual services, or a single one. [ssl]
    reconciles a configuration; [matcher] completes the matcher. *)
Definition add_chains (g : Gateway) (http : HttpGateway) (options : option positive) (isSsl : bool)
    (matcher : option SslConfig → option GatewayMatcher) (b : AggregateListener) : M State AggregateListener :=
  vss <~ getVirtualServicesForHttpGateway snapshot g http isSsl ;;
  if isSsl then
    groups <~ GroupVirtualServicesBySslConfig vss ;;
    fold_range 0 groups b (λ _ '(vsSslConfig, group) b,
      vhs <~ virtual_hosts g group ;;
      add_chain vhs options (matcher (Some vsSslConfig)) b)
  else
    vhs <~ virtual_hosts g vss ;;
    add_chain vhs options (matcher None) b.

Definition computeAggregateListenerForHttpGateway (g : Gateway) (http : HttpGateway) : M State AggregateListener :=
  add_chains g http (hg_options http) (gw_ssl g)
    (option_map (λ c, {| mt_sslConfig := Some c; mt_sourcePrefixRanges := []; mt_passthroughCipherSuites := [] |})) newBuilder.

(** [mergeSslConfig(gateway's, vs's, false)] in a matcher with the gateway's source ranges. *)
Definition gateway_matcher (sslConfig : option SslConfig) (ranges : list string) (c : option SslConfig) : option GatewayMatcher :=
  Some {| mt_sslConfig := match c with Some _ => mergeSslConfig sslConfig c false | None => None end;
          mt_sourcePrefixRanges := ranges; mt_passthroughCipherSuites := [] |}.

Definition computeListenerFromMatchedGateways (g : Gateway) (matched : list MatchedGateway) : M State AggregateListener :=
  fold_range 0 matched newBuilder (λ _ mg b,
    match mg_type mg with
    | Some (MatchedTcp t) => ret (add_tcp {| mtl_matcher := mg_matcher mg; mtl_listener := ComputeTcpListener t |} b)
    | Some (MatchedHttp http) =>
        let gatewaySsl := mt_sslConfig (mg_matcher mg) in
        add_chains g http (hg_options http) (bool_decide (is_Some gatewaySsl))
          (gateway_matcher gatewaySsl (mt_sourcePrefixRanges (mg_matcher mg))) b
    | None => ret b
    end).

Definition processMatchableHttpGateway (parent : Gateway) (mh : MatchableHttpGateway) (b : AggregateListener) : M State AggregateListener :=
  let sslGateway := bool_decide (is_Some (mt_sslConfig (mh_matcher mh))) in
  listenerOptions <~ with_store (reconcileGatewayLevelHCMConfig parent mh) ;;
  let sslConfig := if sslGateway then reconcileGatewayLevelSslConfig parent mh else None in
  add_chains parent (mh_httpGateway mh) listenerOptions sslGateway
    (gateway_matcher sslConfig (mt_sourcePrefixRanges (mh_matcher mh))) b.

Definition processMatchableTcpGateway (parent : Gateway) (mc : MatchableTcpGateway) (b : AggregateListener) : M State AggregateListener :=
  do! validateTcpHosts parent (mc_tcpGateway mc) (mt_sslConfig (mc_matcher mc)) ;;
  ret (add_tcp {| mtl_matcher := mc_matcher mc; mtl_listener := ComputeTcpListener (mc_tcpGateway mc) |} b).

(** [None] when no gateway is selected. *)
Definition computeListenerFromDelegatedGateway (g : Gateway) (http : option DelegatedHttpGateway) (tcp : option DelegatedTcpGateway) :
    M State (option AggregateListener) :=
  https <~ SelectMatchableHttpGateways (selection_error g) (sn_httpGateways snapshot) http ;;
  tcps <~ SelectMatchableTcpGateways (selection_error g) (sn_tcpGateways snapshot) tcp ;;
  match https, tcps with
  | [], [] => ret None
  | _, _ =>
      b <~ fold_range 0 https newBuilder (λ _ mh b, processMatchableHttpGateway g mh b) ;;
      b <~ fold_range 0 tcps b (λ _ mc b, processMatchableTcpGateway g mc b) ;;
      ret (Some b)
  end.

Definition computeAggregateListenerForHybridGateway (g : Gateway) (hybrid : HybridGateway) : M State (option AggregateListener) :=
  match hy_matchedGateways hybrid, hy_delegatedHttpGateways hybrid, hy_delegatedTcpGateways hybrid with
  | None, None, None => ret None
  | Some matched, _, _ =>
      b <~ computeListenerFromMatchedGateways g matched ;;
      match al_httpFilterChains b with
      | [] => do! report (RepError (RGateway (gw_meta g)) EmptyHybridGateway) ;; ret None
      | _ => ret (Some b)
      end
  | None, http, tcp =>
      b <~ computeListenerFromDelegatedGateway g http tcp ;;
      match from_option al_httpFilterChains [] b, from_option al_tcpListeners [] b with
      | [], [] => do! report (RepWarning (RGateway (gw_meta g)) EmptyHybridGateway) ;; ret None
      | _, _ => ret b
      end
  end.

Definition has_tcp (matched : option (list MatchedGateway)) : bool :=
  existsb (λ mg, match mg_type mg with Some (MatchedTcp _) => true | _ => false end) (default [] matched).

Definition AggregateTranslator_ComputeListener (g : Gateway) : M State (option EdgeListener) :=
  let finish b := option_map (λ b, makeListener g (Listener_AggregateListener b) []) b in
  match gw_type g with
  | Some (HttpGatewayType http) =>
      if no_virtual_services && negb (se_translateEmptyGateways settings) then ret None else
      b <~ computeAggregateListenerForHttpGateway g http ;; ret (finish (Some b))
  | Some (HybridGatewayType hybrid) =>
      let hasDelegatedGateways := bool_decide (is_Some (hy_delegatedTcpGateways hybrid)) || bool_decide (is_Some (hy_delegatedHttpGateways hybrid)) in
      if no_virtual_services && negb hasDelegatedGateways && negb (has_tcp (hy_matchedGateways hybrid)) &&
         negb (se_translateEmptyGateways settings) then ret None else
      b <~ computeAggregateListenerForHybridGateway g hybrid ;; ret (finish b)
  | _ => ret None
  end.
End Translators.
End EdgeListeners.
