(* ===== verification/EdgeListenersFacts.v ===== *)
(** * Properties of the listeners of gateways *)

From stdpp Require Import base gmap strings list fin_maps sets sorting.
From Stdlib Require Import ZArith Lia.
From S2P Require Import Prelude GoLib GwApi EdgeApi RouteConverter RouteConverterFacts ShortCircuit VirtualServices VirtualServicesFacts EdgeListeners.
Import Edge VirtualServices EdgeListeners.

(** ** Virtual services by SSL configuration *)
Section Grouping.
Context `{!GeneratedCode, !GoRange string}.
Context (h : Store).

Definition no_ssl : SslConfig := {| ssl_sniDomains := []; ssl_oneWayTls := None; ssl_other := "" |}.
Definition ssl_of (p : positive) : SslConfig := default no_ssl (vs_ssl (load_vs p h)).
Definition key_of (p : positive) : string := hashSslConfig (ssl_of p).
(** The virtual services of a key, in order. *)
Definition members (vss : list positive) (k : string) : list positive := List.filter (λ p, bool_decide (key_of p = k)) vss.

Lemma members_snoc pre p k : members (pre ++ [p]) k = members pre k ++ (if bool_decide (key_of p = k) then [p] else []).
Proof. unfold members. rewrite List.filter_app. simpl. by case_bool_decide. Qed.

Lemma members_elem vss k p : p ∈ members vss k ↔ p ∈ vss ∧ key_of p = k.
Proof. unfold members. by rewrite elem_of_filter_bool, bool_decide_eq_true. Qed.

(** The configuration of a group: the first one's but for the SNI domains, which are all
    those of the group, or none when one of the group has none. *)
Definition merged_config (ps : list positive) (c : SslConfig) : Prop :=
  (∃ p, head ps = Some p ∧ c = with_sni (ssl_of p) (ssl_sniDomains c)) ∧
  (ssl_sniDomains c = [] ↔ ∃ p, p ∈ ps ∧ ssl_sniDomains (ssl_of p) = []) ∧
  (ssl_sniDomains c ≠ [] → ∀ d, d ∈ ssl_sniDomains c ↔ ∃ p, p ∈ ps ∧ d ∈ ssl_sniDomains (ssl_of p)).

Lemma merge_elem a b d : d ∈ merge a b ↔ d ∈ a ∨ d ∈ b.
Proof.
  unfold merge. rewrite elem_of_app, elem_of_filter_bool, negb_true_iff. split; [intuition|].
  intros [?|Hd]; [by left|]. destruct (decide (d ∈ a)) as [|Hn]; [by left|right]. split; [done|].
  destruct (existsb _ a) eqn:E; [|done]. apply existsb_elem in E as (x & Hx & ->%bool_decide_eq_true). done.
Qed.
Lemma merge_sni_nil a b : merge_sni a b = [] ↔ a = [] ∨ b = [].
Proof. destruct a, b; simpl; split; intros; naive_solver. Qed.
Lemma merge_sni_elem a b d : merge_sni a b ≠ [] → d ∈ merge_sni a b ↔ d ∈ a ∨ d ∈ b.
Proof. destruct a, b; simpl; try done. intros _. apply (merge_elem (s :: a) (s0 :: b)). Qed.

Lemma merged_config_first p : merged_config [p] (ssl_of p).
Proof.
  split_and!; [exists p; by destruct (ssl_of p)|..].
  - setoid_rewrite list_elem_of_singleton. naive_solver.
  - intros _ d. setoid_rewrite list_elem_of_singleton. naive_solver.
Qed.

Lemma merged_config_snoc ps c p : ps ≠ [] → merged_config ps c →
  merged_config (ps ++ [p]) (with_sni c (merge_sni (ssl_sniDomains c) (ssl_sniDomains (ssl_of p)))).
Proof.
  intros Hps ((q & Hq & Hc) & Hnil & Helem). simpl. split_and!.
  - exists q. split; [by destruct ps|]. rewrite Hc at 1. done.
  - simpl. rewrite merge_sni_nil, Hnil. setoid_rewrite elem_of_app. setoid_rewrite list_elem_of_singleton. naive_solver.
  - simpl. intros Hne d. rewrite merge_sni_elem by done.
    assert (ssl_sniDomains c ≠ []) as Hne' by (intros E; apply Hne, merge_sni_nil; by left).
    rewrite (Helem Hne'). setoid_rewrite elem_of_app. setoid_rewrite list_elem_of_singleton. naive_solver.
Qed.

Definition grouped (pre : list positive) (m : gmap string SslConfig * gmap string (list positive)) : Prop :=
  ∀ k, match m.1 !! k with
       | Some c => members pre k ≠ [] ∧ m.2 !! k = Some (members pre k) ∧ merged_config (members pre k) c
       | None => members pre k = [] ∧ m.2 !! k = None
       end.

Lemma group_one_ok pre m p : grouped pre m → grouped (pre ++ [p]) (group_one m p (ssl_of p)).
Proof.
  intros Hm k. unfold group_one. fold (key_of p). rewrite members_snoc.
  pose proof (Hm (key_of p)) as Hp. destruct (m.1 !! key_of p) as [c|] eqn:Ec; simpl; case_bool_decide as Hk.
  - subst k. destruct Hp as (Hne & H2 & Hc). rewrite !lookup_insert_eq, H2. simpl.
    split_and!; [by destruct (members pre (key_of p))|done|by apply merged_config_snoc].
  - rewrite !lookup_insert_ne, app_nil_r by done. apply Hm.
  - subst k. destruct Hp as (-> & _). rewrite !lookup_insert_eq. simpl. split_and!; [done..|apply merged_config_first].
  - rewrite !lookup_insert_ne, app_nil_r by done. apply Hm.
Qed.

Lemma group_loop_ok vss s : st_store s = h → Forall (λ p, hasSsl (load_vs p h) = true) vss →
  wp (fold_range 0 vss (∅, ∅) (λ _ p m, v <~ vs_at p ;;
      match vs_ssl v with None => panic "nil SslConfig" | Some c => ret (group_one m p c) end))
     (λ m s', s' = s ∧ grouped vss m) s.
Proof.
  intros Hs Hall. rewrite Forall_forall in Hall.
  apply (wp_fold_range_prefix (λ pre m s', s' = s ∧ grouped pre m) _ vss 0 []); [split; [done|]; by intros k|].
  intros _ pre p m s1 Hp [-> Hm]. wp_step. apply wp_gets. rewrite Hs. specialize (Hall p Hp).
  pose proof (group_one_ok pre m p Hm) as Hone. unfold hasSsl in Hall. apply bool_decide_eq_true in Hall as [c Hc].
  unfold ssl_of in Hone. rewrite Hc in *. apply wp_ret. by split.
Qed.

Lemma sort_strings_lt l : NoDup l → StronglySorted (λ a b, String.le a b ∧ a ≠ b) (sort_strings l).
Proof.
  intros Hnd. assert (NoDup (sort_strings l)) as Hnd' by by rewrite sort_strings_perm.
  pose proof (sort_strings_sorted l) as Hs. induction Hs as [|a l' Hs IH Ha]; [constructor|].
  apply NoDup_cons in Hnd' as [Hn Hnd']. constructor; [by apply IH|]. rewrite Forall_forall in *.
  intros b Hb. split; [by apply Ha|]. by intros ->.
Qed.

(** The group of a key. *)
Definition group_ok (vss : list positive) (k : string) (g : SslConfig * list positive) : Prop :=
  g.2 = members vss k ∧ g.2 ≠ [] ∧ merged_config g.2 g.1.

Lemma groups_run vss s : st_store s = h → Forall (λ p, hasSsl (load_vs p h) = true) vss →
  ∃ keys groups, GroupVirtualServicesBySslConfig vss s = Ok (groups, s) ∧
    StronglySorted (λ a b, String.le a b ∧ a ≠ b) keys ∧ (∀ k, k ∈ keys ↔ ∃ p, p ∈ vss ∧ key_of p = k) ∧
    Forall2 (group_ok vss) keys groups.
Proof.
  intros Hs Hall. destruct (wp_run _ _ _ (group_loop_ok vss s Hs Hall)) as (m & s' & Hrun & -> & Hm).
  set (keys := sort_strings (map fst (go_range m.1))).
  assert (∀ k, k ∈ keys ↔ is_Some (m.1 !! k)) as Hkeys.
  { intros k. subst keys. rewrite sort_strings_perm. change (map fst ?l) with (fst <$> l). rewrite list_elem_of_fmap. split.
    - intros ([k' c] & -> & Hk%go_range_elem). by exists c.
    - intros [c Hc]. exists (k, c). split; [done|]. by apply go_range_elem. }
  exists keys, (omap (λ k, match m.1 !! k with Some c => Some (c, default [] (m.2 !! k)) | None => None end) keys). split_and!.
  - unfold GroupVirtualServicesBySslConfig, bind at 1. rewrite Hrun. reflexivity.
  - apply sort_strings_lt, go_range_nodup.
  - intros k. rewrite Hkeys. specialize (Hm k). split.
    + intros [c Hc]. rewrite Hc in Hm. destruct Hm as (Hne & _). destruct (members vss k) as [|p l] eqn:E; [done|].
      exists p. apply members_elem. rewrite E. by left.
    + intros (p & Hp & Hk). destruct (m.1 !! k); [done|]. destruct Hm as [Hm _]. exfalso.
      assert (p ∈ members vss k) as Hin by by apply members_elem.
      rewrite Hm in Hin. by apply not_elem_of_nil in Hin.
  - assert (∀ k, k ∈ keys → is_Some (m.1 !! k)) as Hk by (intros k; apply Hkeys). clearbody keys. clear Hkeys.
    induction keys as [|k keys IH]; simpl; [constructor|]. destruct (Hk k) as [c Hc]; [by left|].
    pose proof (Hm k) as Hmk. rewrite Hc in Hmk |- *. destruct Hmk as (Hne & H2 & Hcfg). rewrite H2. simpl.
    constructor; [by split_and!|]. apply IH. intros k' Hk'. apply Hk. by right.
Qed.

(** Virtual services with TLS are grouped by the hash of their configuration without SNI
    domains: the groups are in the order of the hashes, one per hash; a group has exactly
    its virtual services in their order; its configuration is the first one's with the
    union of their SNI domains, none (any domain) if one of them has none. *)
Theorem GroupVirtualServicesBySslConfig_partition vss s :
  st_store s = h → Forall (λ p, hasSsl (load_vs p h) = true) vss →
  ∃ keys groups, GroupVirtualServicesBySslConfig vss s = Ok (groups, s) ∧
    StronglySorted (λ a b, String.le a b ∧ a ≠ b) keys ∧ (∀ k, k ∈ keys ↔ ∃ p, p ∈ vss ∧ key_of p = k) ∧
    Forall2 (group_ok vss) keys groups.
Proof. apply groups_run. Qed.
End Grouping.

(** The groups of distinct keys together. *)
Lemma flat_map_one {A B} (f : A → list B) l x : NoDup l → x ∈ l → (∀ y, y ∈ l → y ≠ x → f y = []) → flat_map f l = f x.
Proof.
  intros Hnd Hx Hf. induction l as [|y l IH]; [by apply not_elem_of_nil in Hx|]. apply NoDup_cons in Hnd as [Hn Hnd]. simpl.
  apply elem_of_cons in Hx as [->|Hx].
  - assert (flat_map f l = []) as ->; [|by rewrite app_nil_r]. clear IH Hnd. induction l as [|z l IH]; [done|]. simpl.
    rewrite IH by set_solver. rewrite app_nil_r. apply Hf; set_solver.
  - rewrite (Hf y), IH; [done|done|done|set_solver|by left|]. by intros ->.
Qed.
Lemma members_perm `{!GeneratedCode} h vss keys : NoDup keys → (∀ p, p ∈ vss → key_of h p ∈ keys) →
  flat_map (members h vss) keys ≡ₚ vss.
Proof.
  intros Hnd. induction vss as [|p vss IH]; intros Hk.
  - clear. induction keys as [|k keys IH]; [done|]. simpl. by rewrite IH.
  - transitivity (flat_map (λ k, (if bool_decide (key_of h p = k) then [p] else []) ++ members h vss k) keys).
    { erewrite flat_map_ext; [reflexivity|]. intros k. unfold members. simpl. by case_bool_decide. }
    rewrite flat_map_app_perm, IH by (intros; apply Hk; by right).
    rewrite (flat_map_one _ keys (key_of h p)); [by rewrite bool_decide_eq_true_2|done|apply Hk; by left|].
    intros k _ Hne. by rewrite bool_decide_eq_false_2.
Qed.

(** ** Listeners *)
Section Listeners.
Context `{!Labels, !GoRange Z, !GoRange string, !Regexp, !GeneratedCode, !Mergo, !SliceCapacity}.
Context (snapshot : ApiSnapshot) (settings : Settings) (warn : bool) (fuel : nat) (proxyName : string).
Context (Hfuel : length (sn_routeTables snapshot) < fuel).
(** The state at the start, and what is read of it. *)
Context (s0 : State).
Abbreviation vs0 p := (load_vs p (st_store s0)).
Abbreviation vhost p vh := (vhost_of snapshot (vs0 p) vh).

(** The virtual services of an HTTP gateway. *)
Definition chosen (h : Store) (http : HttpGateway) (ssl : bool) : list positive :=
  List.filter (λ p, match HttpGatewayContainsVirtualService http (load_vs p h) ssl with inr b => b | inl _ => false end)
              (sn_virtualServices snapshot).

Lemma contains_stable http v v' ssl : stable v = stable v' →
  HttpGatewayContainsVirtualService http v ssl = HttpGatewayContainsVirtualService http v' ssl.
Proof.
  intros Hst. unfold HttpGatewayContainsVirtualService, virtualServiceValidForSelectorExpressions, virtualServiceMatchesLabels,
    virtualServiceNamespaceValidForGateway. rewrite (hasSsl_stable _ _ Hst). by injection Hst as -> _ _ _.
Qed.
Lemma contains_ssl http v ssl : HttpGatewayContainsVirtualService http v ssl = inr true → hasSsl v = ssl.
Proof. unfold HttpGatewayContainsVirtualService. by case_bool_decide. Qed.

Lemma chosen_evolves s http ssl : evolves s0 s → chosen (st_store s) http ssl = chosen (st_store s0) http ssl.
Proof.
  intros [_ Hst]. unfold chosen. apply List.filter_ext. intros p. by rewrite (contains_stable http _ (vs0 p) ssl (Hst p)).
Qed.
Lemma chosen_ssl h http : Forall (λ p, hasSsl (load_vs p h) = true) (chosen h http true).
Proof.
  apply Forall_forall. intros p [_ Hp]%elem_of_filter_bool. destruct (HttpGatewayContainsVirtualService _ _ _) as [|[]] eqn:E; try done.
  by apply contains_ssl in E.
Qed.

Lemma getVirtualServices_ok g http ssl s : evolves s0 s →
  wp (getVirtualServicesForHttpGateway snapshot g http ssl)
     (λ vss s', evolves s0 s' ∧ st_store s' = st_store s ∧ vss = chosen (st_store s) http ssl) s.
Proof.
  intros Hs. unfold getVirtualServicesForHttpGateway.
  apply (wp_fold_range_prefix (λ pre vss s', evolves s0 s' ∧ st_store s' = st_store s ∧
    vss = List.filter (λ p, match HttpGatewayContainsVirtualService http (load_vs p (st_store s)) ssl with inr b => b | inl _ => false end) pre)
    _ (sn_virtualServices snapshot) 0 []); [done|].
  intros _ pre p acc s1 _ (Hs1 & Hst & ->). wp_step. apply wp_gets. rewrite Hst, List.filter_app. simpl.
  destruct (HttpGatewayContainsVirtualService http _ ssl) as [e|[]].
  - wp_step. apply wp_edge_report. apply wp_ret. rewrite app_nil_r. split_and!; [|done..]. etrans; [done|apply (evolves_reports s1 [_])].
  - by apply wp_ret.
  - apply wp_ret. by rewrite app_nil_r.
Qed.

Definition hosts_ok (vss : list positive) (vhs : list GlooVirtualHost) : Prop := Forall2 (λ p vh, vhost p vh) vss vhs.

Lemma virtual_hosts_ok g vss s : evolves s0 s →
  wp (virtual_hosts snapshot settings warn fuel proxyName g vss) (λ vhs s', evolves s0 s' ∧ hosts_ok vss vhs) s.
Proof.
  intros Hs. unfold virtual_hosts. eapply wp_mono; [by apply ComputeVirtualHosts_ok|]. intros vhs s' [Hev Hv]. split; [by etrans|].
  eapply Forall2_impl; [exact Hv|]. intros p vh. apply vhost_of_stable. by apply Hs.
Qed.

Lemma ssl_configurations_ok (b : bool) vss s : evolves s0 s →
  wp (if b then ssl_configurations vss else ret []) (λ _ s', evolves s0 s') s.
Proof. intros Hs. by destruct b. Qed.

Lemma evolves_store s h : evolves s0 s → s_virtualServices h = s_virtualServices (st_store s) →
  evolves s0 (set_store h s).
Proof.
  intros Hs Hh. etrans; [exact Hs|]. split; [exists []; by rewrite app_nil_r|]. intros p. unfold load_vs. simpl. by rewrite Hh.
Qed.
Lemma report_ok r s : evolves s0 s → wp (report r) (λ _ s', evolves s0 s') s.
Proof. intros Hs. eapply wp_mono; [apply report_evolves|]. intros [] s' Hs'. by etrans. Qed.
Lemma validateTcpHosts_ok g t c s : evolves s0 s → wp (validateTcpHosts g t c) (λ _ s', evolves s0 s') s.
Proof.
  intros Hs. unfold validateTcpHosts. destruct c as [c|]; [|by apply wp_ret]. cbv zeta.
  destruct (flat_map _ _); [by apply wp_ret|by apply report_ok].
Qed.
Lemma reconcile_ok parent mh s : evolves s0 s →
  wp (with_store (reconcileGatewayLevelHCMConfig parent mh)) (λ _ s', evolves s0 s') s.
Proof.
  intros Hs. apply wp_with_store. apply evolves_store; [done|]. unfold reconcileGatewayLevelHCMConfig.
  by destruct (hg_options (mh_httpGateway mh)).
Qed.

(** A list built by a loop that appends one element per item. *)
Lemma wp_append_loop {A B} (R : A → B → Prop) (body : A → M State B) l s :
  evolves s0 s → (∀ x s, x ∈ l → evolves s0 s → wp (body x) (λ y s', evolves s0 s' ∧ R x y) s) → ∀ acc,
  wp (fold_range 0 l acc (λ _ x acc, y <~ body x ;; ret (acc ++ [y]))) (λ out s', evolves s0 s' ∧ ∃ ys, out = acc ++ ys ∧ Forall2 R l ys) s.
Proof.
  intros Hs Hb acc.
  apply (wp_fold_range_prefix (λ pre out s', evolves s0 s' ∧ ∃ ys, out = acc ++ ys ∧ Forall2 R pre ys) _ l 0 []).
  { split; [done|]. exists []. by rewrite app_nil_r. }
  intros _ pre x out s1 Hx (Hs1 & ys & -> & Hys). wp_step. eapply wp_mono; [by apply Hb|]. intros y s2 [Hs2 Hy].
  apply wp_ret. split; [done|]. exists (ys ++ [y]). rewrite (assoc_L (++)). split; [done|]. apply Forall2_app; [done|]. by repeat constructor.
Qed.

Definition is_selected {A} (selected : A → EdgeErr + bool) (x : A) : bool := match selected x with inr b => b | inl _ => false end.
Lemma select_ok {A} g (selected : A → EdgeErr + bool) available s : evolves s0 s →
  wp (select (selection_error g) selected available) (λ l s', evolves s0 s' ∧ l = List.filter (is_selected selected) available) s.
Proof.
  intros Hs. unfold select.
  apply (wp_fold_range_prefix (λ pre l s', evolves s0 s' ∧ l = List.filter (is_selected selected) pre) _ available 0 []); [done|].
  intros _ pre x acc s1 _ (Hs1 & ->). rewrite List.filter_app. simpl.
  change (is_selected selected x) with (match selected x with inr b => b | inl _ => false end). destruct (selected x) as [e|[]].
  - wp_step. eapply wp_mono; [by apply report_ok|]. intros [] s2 Hs2. apply wp_ret. by rewrite app_nil_r.
  - by apply wp_ret.
  - apply wp_ret. by rewrite app_nil_r.
Qed.

(** *** Hybrid listeners *)
Definition matched_http_ok (http : HttpGateway) (ssl : bool) (ml : MatchedListener) : Prop :=
  ∃ vhs options, ml_type ml = Some (MatchedListener_HttpListener {| hl_virtualHosts := vhs; hl_options := options |}) ∧
    hosts_ok (chosen (st_store s0) http ssl) vhs.
Definition matched_tcp_ok (t : TcpGateway) (matcher : GatewayMatcher) (ml : MatchedListener) : Prop :=
  ml_type ml = Some (MatchedListener_TcpListener (ComputeTcpListener t)) ∧ ml_matcher ml = matcher.
Definition tls (m : GatewayMatcher) : bool := bool_decide (is_Some (mt_sslConfig m)).
Definition inline_ok (mg : MatchedGateway) (ml : MatchedListener) : Prop :=
  match mg_type mg with
  | Some (MatchedHttp http) => matched_http_ok http (tls (mg_matcher mg)) ml
  | Some (MatchedTcp t) => matched_tcp_ok t (mg_matcher mg) ml
  | None => ml_type ml = None
  end ∧ mt_sslConfig (ml_matcher ml) = mt_sslConfig (mg_matcher mg) ∧
  mt_sourcePrefixRanges (ml_matcher ml) = mt_sourcePrefixRanges (mg_matcher mg).
(** HTTP gateways are left out when there is no virtual service at all. *)
Definition nothing_to_serve : bool := no_virtual_services snapshot && negb (se_translateEmptyGateways settings).
Definition kept (mg : MatchedGateway) : bool :=
  match mg_type mg with Some (MatchedHttp _) => negb nothing_to_serve | _ => true end.

Lemma matched_http_run g matcher http options ssl s : evolves s0 s →
  wp (matched_http snapshot settings warn fuel proxyName g matcher http options ssl)
     (λ ml s', evolves s0 s' ∧ matched_http_ok http ssl ml ∧ ml_matcher ml = matcher) s.
Proof.
  intros Hs. unfold matched_http. wp_step. eapply wp_mono; [by apply getVirtualServices_ok|]. intros vss s1 (Hs1 & _ & ->).
  rewrite chosen_evolves by done. wp_step. eapply wp_mono; [by apply virtual_hosts_ok|]. intros vhs s2 [Hs2 Hv].
  wp_step. eapply wp_mono; [by apply ssl_configurations_ok|]. intros configs s3 Hs3. apply wp_ret. split_and!; [done| |done].
  by exists vhs, options.
Qed.

Lemma hybrid_inline_ok g matched s : evolves s0 s →
  wp (computeHybridListenerFromMatchedGateways snapshot settings warn fuel proxyName g matched)
     (λ l s', evolves s0 s' ∧ Forall2 inline_ok (List.filter kept matched) l) s.
Proof.
  intros Hs. unfold computeHybridListenerFromMatchedGateways.
  apply (wp_fold_range_prefix (λ pre l s', evolves s0 s' ∧ Forall2 inline_ok (List.filter kept pre) l) _ matched 0 []); [done|].
  intros _ pre mg acc s1 _ [Hs1 Hacc]. rewrite List.filter_app. unfold kept at 2. simpl. fold nothing_to_serve.
  destruct (mg_type mg) as [[http|t]|] eqn:Et; [destruct nothing_to_serve|..]; simpl.
  - apply wp_ret. by rewrite app_nil_r.
  - wp_step. eapply wp_mono; [by apply matched_http_run|]. intros ml s2 (Hs2 & Hml & Hmat). apply wp_ret. split; [done|].
    apply Forall2_app; [done|]. constructor; [|constructor]. unfold inline_ok. rewrite Et, Hmat. by split_and!.
  - wp_step. eapply wp_mono; [by apply validateTcpHosts_ok|]. intros [] s2 Hs2. apply wp_ret. split; [done|].
    apply Forall2_app; [done|]. constructor; [|constructor]. unfold inline_ok. by rewrite Et.
  - apply wp_ret. split; [done|]. apply Forall2_app; [done|]. constructor; [|constructor]. unfold inline_ok. by rewrite Et.
Qed.

(** The gateways a hybrid gateway delegates to. *)
Definition selected_http (d : option DelegatedHttpGateway) : list MatchableHttpGateway :=
  List.filter (is_selected (λ mh, isHttpGatewaySelected mh d)) (sn_httpGateways snapshot).
Definition selected_tcp (d : option DelegatedTcpGateway) : list MatchableTcpGateway :=
  List.filter (is_selected (λ mc, isTcpGatewaySelected mc d)) (sn_tcpGateways snapshot).

(** The matcher of a delegated HTTP gateway: its TLS configuration merged with the parent's. *)
Definition delegated_matcher (parent : Gateway) (mh : MatchableHttpGateway) : GatewayMatcher :=
  {| mt_sslConfig := if tls (mh_matcher mh) then reconcileGatewayLevelSslConfig parent mh else None;
     mt_sourcePrefixRanges := mt_sourcePrefixRanges (mh_matcher mh); mt_passthroughCipherSuites := [] |}.
Definition delegated_http_ok (parent : Gateway) (mh : MatchableHttpGateway) (ml : MatchedListener) : Prop :=
  matched_http_ok (mh_httpGateway mh) (tls (mh_matcher mh)) ml ∧ ml_matcher ml = delegated_matcher parent mh.
Definition delegated_tcp_ok (mc : MatchableTcpGateway) (ml : MatchedListener) : Prop :=
  matched_tcp_ok (mc_tcpGateway mc) (mc_matcher mc) ml.

Lemma hybrid_delegated_ok g http tcp s : evolves s0 s →
  wp (computeHybridListenerFromDelegatedGateways snapshot settings warn fuel proxyName g http tcp)
     (λ l s', evolves s0 s' ∧ ∃ l1 l2, l = l1 ++ l2 ∧
        Forall2 (delegated_http_ok g) (selected_http http) l1 ∧
        Forall2 delegated_tcp_ok (selected_tcp tcp) l2) s.
Proof.
  intros Hs. unfold computeHybridListenerFromDelegatedGateways.
  wp_step. eapply wp_mono; [by apply select_ok|]. intros https s1 [Hs1 ->].
  wp_step. eapply wp_mono; [by apply select_ok|]. intros tcps s2 [Hs2 ->].
  wp_step. eapply wp_mono.
  { apply (wp_append_loop (delegated_http_ok g)); [done|].
    intros mh s3 _ Hs3. unfold computeMatchedHttpListener. cbv zeta. wp_step. eapply wp_mono; [by apply reconcile_ok|].
    intros options s4 Hs4. eapply wp_mono; [by apply matched_http_run|]. by intros ml s5 (? & ? & Hm). }
  intros l s3 (Hs3 & l1 & -> & Hl1). eapply wp_mono.
  { apply (wp_append_loop delegated_tcp_ok); [done|].
    intros mc s4 _ Hs4. unfold computeMatchedTcpListener. wp_step. eapply wp_mono; [by apply validateTcpHosts_ok|].
    intros [] s5 Hs5. by apply wp_ret. }
  intros l s4 (Hs4 & l2 & -> & Hl2). split; [done|]. by exists l1, l2.
Qed.

(** *** Aggregate listeners *)

(** What a gateway adds to an aggregate listener: the virtual services it serves, and the
    matcher of a filter chain for an SSL configuration of theirs, or for none. *)
Record Contribution := {
  co_services : list positive; co_ssl : bool; co_matcher : option SslConfig → option GatewayMatcher }.

Definition chain_of (matcher : option GatewayMatcher) (ps : list positive) (c : HttpFilterChain) : Prop :=
  fc_matcher c = matcher ∧ fc_virtualHostRefs c = map (λ p, VirtualHostName (vs0 p)) ps.
(** The configuration of a group of virtual services, but for the one-way default: that of the
    first with the SNI domains of all, or with none when one of them has none. *)
Definition group_config (ps : list positive) (c : SslConfig) : Prop :=
  let ssl p := ssl_of (st_store s0) p in
  (∃ p, head ps = Some p ∧ ssl_other c = ssl_other (ssl p)) ∧
  (ssl_sniDomains c = [] ↔ ∃ p, p ∈ ps ∧ ssl_sniDomains (ssl p) = []) ∧
  (ssl_sniDomains c ≠ [] → ∀ d, d ∈ ssl_sniDomains c ↔ ∃ p, p ∈ ps ∧ d ∈ ssl_sniDomains (ssl p)).
(** One chain per group of the virtual services with TLS, or a single chain. *)
Definition contribution_ok (co : Contribution) (chains : list HttpFilterChain) : Prop :=
  if co_ssl co
  then ∃ groups : list (SslConfig * list positive), flat_map snd groups ≡ₚ co_services co ∧
         Forall (λ g, g.2 ≠ [] ∧ group_config g.2 g.1) groups ∧
         Forall2 (λ g c, chain_of (co_matcher co (Some g.1)) g.2 c) groups chains
  else ∃ c, chains = [c] ∧ chain_of (co_matcher co None) (co_services co) c.

(** References of the filter chains resolve, and hosts are stored by name and are virtual
    hosts of the virtual services [vss]. *)
Record stored_ok (vss : list positive) (b : AggregateListener) : Prop := {
  ag_hosts c n : c ∈ al_httpFilterChains b → n ∈ fc_virtualHostRefs c → is_Some (al_virtualHosts b !! n);
  ag_options c : c ∈ al_httpFilterChains b → is_Some (al_httpOptions b !! fc_httpOptionsRef c);
  ag_names n vh : al_virtualHosts b !! n = Some vh → ov_name vh = n ∧ ∃ p, p ∈ vss ∧ vhost p vh
}.
(** Besides, the chains are those of the contributions in order. *)
Definition aggregate_ok (cos : list Contribution) (b : AggregateListener) : Prop :=
  stored_ok (flat_map co_services cos) b ∧
  ∃ parts, al_httpFilterChains b = concat parts ∧ Forall2 contribution_ok cos parts.

Lemma newBuilder_ok : aggregate_ok [] newBuilder.
Proof.
  split; [|by exists []]. split; simpl; [by intros c n Hc; apply not_elem_of_nil in Hc|by intros c Hc; apply not_elem_of_nil in Hc|].
  intros n vh. by rewrite lookup_empty.
Qed.

Lemma insert_hosts (vhs : list GlooVirtualHost) : ∀ (m : gmap string GlooVirtualHost),
  let m' := foldl (λ m vh, <[ov_name vh := vh]> m) m vhs in
  (∀ n, is_Some (m !! n) ∨ n ∈ map ov_name vhs → is_Some (m' !! n)) ∧
  (∀ n vh, m' !! n = Some vh → m !! n = Some vh ∨ vh ∈ vhs ∧ ov_name vh = n).
Proof.
  induction vhs as [|vh vhs IH]; intros m; simpl.
  { split; [|by left]. intros n [?|Hn]; [done|by apply not_elem_of_nil in Hn]. }
  destruct (IH (<[ov_name vh := vh]> m)) as [IH1 IH2]. split.
  - intros n Hn. apply IH1. destruct (decide (ov_name vh = n)) as [<-|Hne]; [left; rewrite lookup_insert_eq; by eexists|].
    rewrite lookup_insert_ne by done. destruct Hn as [?|[?|?]%elem_of_cons]; [by left|congruence|by right].
  - intros n vh' [Hn|[Hin Hn]]%IH2; [|right; split; [by right|done]]. destruct (decide (ov_name vh = n)) as [<-|Hne].
    + rewrite lookup_insert_eq in Hn. injection Hn as <-. right. split; [by left|done].
    + rewrite lookup_insert_ne in Hn by done. by left.
Qed.

Lemma hosts_names vss vhs : hosts_ok vss vhs → map ov_name vhs = map (λ p, VirtualHostName (vs0 p)) vss.
Proof. induction 1 as [|p vh vss vhs [Hn _] _ IH]; simpl; [done|]. by rewrite IH, Hn. Qed.

Lemma addHttpFilterChain_ok vss group vhs options matcher h b : stored_ok vss b → hosts_ok group vhs →
  let b' := addHttpFilterChain vhs options matcher h b in
  stored_ok (vss ++ group) b' ∧ ∃ c, al_httpFilterChains b' = al_httpFilterChains b ++ [c] ∧ chain_of matcher group c.
Proof.
  intros [B1 B2 B3] Hv. pose proof (hosts_names _ _ Hv) as Hnames. unfold addHttpFilterChain, HashAndStoreHttpOptions.
  set (ref := hash_httpOptions _). cbn zeta. split; [|by eexists].
  destruct (insert_hosts vhs (al_virtualHosts b)) as [I1 I2]. split; cbn [al_virtualHosts al_httpOptions al_httpFilterChains].
  - intros c n [Hc| ->%list_elem_of_singleton]%elem_of_app Hn; apply I1; [left; by eapply B1|by right].
  - intros c [Hc| ->%list_elem_of_singleton]%elem_of_app; [|simpl; rewrite lookup_insert_eq; by eexists].
    destruct (decide (ref = fc_httpOptionsRef c)) as [->|]; [rewrite lookup_insert_eq; by eexists|rewrite lookup_insert_ne by done; by apply B2].
  - intros n vh [Hn|[Hin Hn]]%I2.
    + destruct (B3 n vh Hn) as (? & p & Hp & ?). split; [done|]. exists p. split; [|done]. apply elem_of_app. by left.
    + split; [done|]. apply list_elem_of_lookup in Hin as [i Hi]. destruct (Forall2_lookup_r _ _ _ _ _ Hv Hi) as (p & Hp & ?).
      exists p. split; [|done]. apply elem_of_app. right. by eapply list_elem_of_lookup_2.
Qed.

Lemma stored_perm vss vss' b : vss ≡ₚ vss' → stored_ok vss b → stored_ok vss' b.
Proof.
  intros Hp [B1 B2 B3]. split; [done|done|]. intros n vh Hn. destruct (B3 n vh Hn) as (? & p & ? & ?).
  split; [done|]. exists p. by rewrite <-Hp.
Qed.
Lemma add_tcp_ok cos l b : aggregate_ok cos b → aggregate_ok cos (add_tcp l b).
Proof. intros [[? ? ?] ?]. by split. Qed.

Lemma ssl_of_evolves s p : evolves s0 s → ssl_sniDomains (ssl_of (st_store s) p) = ssl_sniDomains (ssl_of (st_store s0) p) ∧
  ssl_other (ssl_of (st_store s) p) = ssl_other (ssl_of (st_store s0) p).
Proof.
  intros [_ Hst]. specialize (Hst p). unfold stable in Hst. injection Hst as _ _ _ E. unfold ssl_of.
  destruct (vs_ssl (load_vs p (st_store s))), (vs_ssl (vs0 p)); simplify_eq/=; by split.
Qed.
Lemma group_config_evolves s ps c : evolves s0 s → merged_config (st_store s) ps c → group_config ps c.
Proof.
  intros Hs ((p & Hp & Hc) & Hnil & Helem). pose proof (λ p, ssl_of_evolves s p Hs) as E. split_and!.
  - exists p. split; [done|]. rewrite Hc. simpl. apply E.
  - rewrite Hnil. split; intros (q & ? & Hq); exists q; (split; [done|]); [by rewrite <-(proj1 (E q))|by rewrite (proj1 (E q))].
  - intros Hne d. rewrite (Helem Hne d).
    split; intros (q & ? & Hq); exists q; (split; [done|]); [by rewrite <-(proj1 (E q))|by rewrite (proj1 (E q))].
Qed.

(** The groups of the virtual services of a TLS gateway. *)
Lemma groups_ok s http : evolves s0 s → let vss := chosen (st_store s0) http true in
  ∃ groups, GroupVirtualServicesBySslConfig vss s = Ok (groups, s) ∧ flat_map snd groups ≡ₚ vss ∧
    Forall (λ g, g.2 ≠ [] ∧ group_config g.2 g.1) groups.
Proof.
  intros Hs vss. destruct (groups_run (st_store s) vss s eq_refl) as (keys & groups & Hrun & Hsort & Hkeys & Hgroups).
  { subst vss. rewrite <-(chosen_evolves s) by done. apply chosen_ssl. }
  exists groups. split_and!; [done| |].
  - rewrite <-(members_perm (st_store s) vss keys) at 1; cycle 1.
    + clear -Hsort. induction Hsort as [|k keys _ IH Hk]; [apply NoDup_nil_2|]. apply NoDup_cons. split; [|done].
      intros Hin. rewrite Forall_forall in Hk. by destruct (Hk k Hin).
    + intros p Hp. apply Hkeys. by exists p.
    + clear -Hgroups. induction Hgroups as [|k [c ps] keys groups [Hm _] _ IH]; simpl; [done|]. simpl in Hm. by rewrite Hm, IH.
  - clear -Hgroups Hs. induction Hgroups as [|k g keys groups (_ & Hne & Hc) _ IH]; constructor; [|done].
    split; [done|by eapply group_config_evolves].
Qed.

Lemma add_chains_ok g http options ssl matcher cos b s : evolves s0 s → aggregate_ok cos b →
  wp (add_chains snapshot settings warn fuel proxyName g http options ssl matcher b)
     (λ b' s', evolves s0 s' ∧ al_tcpListeners b' = al_tcpListeners b ∧
        aggregate_ok (cos ++ [{| co_services := chosen (st_store s0) http ssl; co_ssl := ssl; co_matcher := matcher |}]) b') s.
Proof.
  intros Hs [Hb (parts & Hparts & Hcos)]. unfold add_chains. wp_step. eapply wp_mono; [by apply getVirtualServices_ok|].
  intros chs s1 (Hs1 & Hst & ->). rewrite chosen_evolves by done. set (vss := chosen (st_store s0) http ssl).
  assert (∀ b' part, stored_ok (flat_map co_services cos ++ vss) b' → al_httpFilterChains b' = al_httpFilterChains b ++ part →
    contribution_ok {| co_services := vss; co_ssl := ssl; co_matcher := matcher |} part →
    aggregate_ok (cos ++ [{| co_services := vss; co_ssl := ssl; co_matcher := matcher |}]) b') as Hdone.
  { intros b' part Hst' Hch Hpart. split; [rewrite flat_map_app; simpl; by rewrite app_nil_r|].
    exists (parts ++ [part]). rewrite concat_app, Hch, Hparts. simpl. rewrite app_nil_r. split; [done|].
    apply Forall2_app; [done|by repeat constructor]. }
  destruct ssl.
  - destruct (groups_ok s1 http Hs1) as (groups & Hrun & Hperm & Hgroups). fold vss in Hrun, Hperm. wp_step. unfold wp at 1. rewrite Hrun. eapply wp_mono.
    { apply (wp_fold_range_prefix (λ pre b' s', evolves s0 s' ∧ al_tcpListeners b' = al_tcpListeners b ∧
        stored_ok (flat_map co_services cos ++ flat_map snd pre) b' ∧ ∃ part, al_httpFilterChains b' = al_httpFilterChains b ++ part ∧
        Forall2 (λ g c, chain_of (matcher (Some g.1)) g.2 c) pre part) _ groups 0 []).
      { split_and!; [done|done|simpl; by rewrite app_nil_r|]. exists []. by rewrite app_nil_r. }
      intros _ pre [c group] b1 s2 _ (Hs2 & Ht & Hb1 & part & Hch & Hpart). wp_step. eapply wp_mono; [by apply virtual_hosts_ok|].
      intros vhs s3 [Hs3 Hv]. unfold add_chain. apply wp_gets.
      destruct (addHttpFilterChain_ok _ _ _ options (matcher (Some c)) (st_store s3) _ Hb1 Hv) as (Hb2 & ch & Hch2 & Hc).
      split_and!; [done|done|rewrite flat_map_app; simpl; by rewrite app_nil_r, (assoc_L (++))|].
      exists (part ++ [ch]). rewrite Hch2, Hch, (assoc_L (++)). split; [done|]. apply Forall2_app; [done|]. by apply Forall2_cons_2; [|constructor]. }
    intros b' s2 (Hs2 & Ht & Hb' & part & Hch & Hpart). split_and!; [done..|]. eapply Hdone; [|exact Hch|by exists groups].
    eapply stored_perm; [|exact Hb']. by rewrite Hperm.
  - wp_step. eapply wp_mono; [by apply virtual_hosts_ok|]. intros vhs s2 [Hs2 Hv]. unfold add_chain. apply wp_gets.
    destruct (addHttpFilterChain_ok _ _ _ options (matcher None) (st_store s2) _ Hb Hv) as (Hb2 & ch & Hch & Hc).
    split_and!; [done|done|]. eapply Hdone; [exact Hb2|exact Hch|by exists ch].
Qed.

(** What the gateways of a list contribute. *)
Definition inline_contributions (matched : list MatchedGateway) : list Contribution :=
  flat_map (λ mg, match mg_type mg with
                  | Some (MatchedHttp http) =>
                      [{| co_services := chosen (st_store s0) http (tls (mg_matcher mg)); co_ssl := tls (mg_matcher mg);
                          co_matcher := gateway_matcher (mt_sslConfig (mg_matcher mg)) (mt_sourcePrefixRanges (mg_matcher mg)) |}]
                  | _ => []
                  end) matched.
Definition inline_tcp (matched : list MatchedGateway) : list MatchedTcpListener :=
  flat_map (λ mg, match mg_type mg with
                  | Some (MatchedTcp t) => [{| mtl_matcher := mg_matcher mg; mtl_listener := ComputeTcpListener t |}]
                  | _ => []
                  end) matched.
Definition delegated_contributions (parent : Gateway) (https : list MatchableHttpGateway) : list Contribution :=
  map (λ mh, {| co_services := chosen (st_store s0) (mh_httpGateway mh) (tls (mh_matcher mh)); co_ssl := tls (mh_matcher mh);
                co_matcher := gateway_matcher (mt_sslConfig (delegated_matcher parent mh)) (mt_sourcePrefixRanges (mh_matcher mh)) |}) https.
Definition delegated_tcp (tcps : list MatchableTcpGateway) : list MatchedTcpListener :=
  map (λ mc, {| mtl_matcher := mc_matcher mc; mtl_listener := ComputeTcpListener (mc_tcpGateway mc) |}) tcps.

Lemma aggregate_inline_ok g matched s : evolves s0 s →
  wp (computeListenerFromMatchedGateways snapshot settings warn fuel proxyName g matched)
     (λ b s', evolves s0 s' ∧ aggregate_ok (inline_contributions matched) b ∧ al_tcpListeners b = inline_tcp matched) s.
Proof.
  intros Hs. unfold computeListenerFromMatchedGateways.
  apply (wp_fold_range_prefix (λ pre b s', evolves s0 s' ∧ aggregate_ok (inline_contributions pre) b ∧ al_tcpListeners b = inline_tcp pre)
    _ matched 0 []); [by split_and!; [|apply newBuilder_ok|]|].
  intros _ pre mg b s1 _ (Hs1 & Hb & Ht). unfold inline_contributions, inline_tcp in *. rewrite !flat_map_app. simpl. rewrite !app_nil_r.
  destruct (mg_type mg) as [[http|t]|].
  - eapply wp_mono; [by apply add_chains_ok|]. intros b' s2 (Hs2 & Ht2 & Hb'). split_and!; [done|done|]. by rewrite app_nil_r, Ht2.
  - apply wp_ret. rewrite app_nil_r. split_and!; [done|by apply add_tcp_ok|]. simpl. by rewrite Ht.
  - apply wp_ret. by rewrite !app_nil_r.
Qed.

Lemma aggregate_delegated_ok g http tcp s : evolves s0 s →
  wp (computeListenerFromDelegatedGateway snapshot settings warn fuel proxyName g http tcp) (λ b s', evolves s0 s' ∧
    match b with
    | Some b => aggregate_ok (delegated_contributions g (selected_http http)) b ∧ al_tcpListeners b = delegated_tcp (selected_tcp tcp)
    | None => selected_http http = [] ∧ selected_tcp tcp = []
    end) s.
Proof.
  intros Hs. unfold computeListenerFromDelegatedGateway.
  wp_step. eapply wp_mono; [by apply select_ok|]. intros https s1 [Hs1 Eh].
  wp_step. eapply wp_mono; [by apply select_ok|]. intros tcps s2 [Hs2 Et].
  change (https = selected_http http) in Eh. change (tcps = selected_tcp tcp) in Et.
  assert (wp (b <~ fold_range 0 https newBuilder (λ _ mh b, processMatchableHttpGateway snapshot settings warn fuel proxyName g mh b) ;;
      b <~ fold_range 0 tcps b (λ _ mc b, processMatchableTcpGateway g mc b) ;; ret (Some b))
    (λ b s', evolves s0 s' ∧ match b with
      | Some b => aggregate_ok (delegated_contributions g https) b ∧ al_tcpListeners b = delegated_tcp tcps | None => False end) s2) as Hwp.
  { wp_step. eapply wp_mono.
    { apply (wp_fold_range_prefix (λ pre b s', evolves s0 s' ∧ aggregate_ok (delegated_contributions g pre) b ∧ al_tcpListeners b = [])
        _ https 0 []); [by split_and!; [|apply newBuilder_ok|]|].
      intros _ pre mh b s3 _ (Hs3 & Hb & Ht). unfold processMatchableHttpGateway. cbv zeta.
      wp_step. eapply wp_mono; [by apply reconcile_ok|]. intros options s4 Hs4. eapply wp_mono; [by apply add_chains_ok|].
      intros b' s5 (Hs5 & Ht5 & Hb'). split_and!; [done| |by rewrite Ht5]. unfold delegated_contributions in *.
      by rewrite map_app. }
    intros b s3 (Hs3 & Hb & Ht). wp_step. eapply wp_mono.
    { apply (wp_fold_range_prefix (λ pre b s', evolves s0 s' ∧ aggregate_ok (delegated_contributions g https) b ∧ al_tcpListeners b = delegated_tcp pre)
        _ tcps 0 []); [done|].
      intros _ pre mc b1 s4 _ (Hs4 & Hb1 & Ht1). unfold processMatchableTcpGateway.
      wp_step. eapply wp_mono; [by apply validateTcpHosts_ok|]. intros [] s5 Hs5. apply wp_ret. split_and!; [done|by apply add_tcp_ok|].
      unfold delegated_tcp in *. rewrite map_app. simpl. by rewrite Ht1. }
    intros b' s4 (Hs4 & Hb' & Ht'). by apply wp_ret. }
  rewrite <-Eh, <-Et. destruct https, tcps; [by apply wp_ret|..]; (eapply wp_mono; [exact Hwp|]; intros [b|] s3; naive_solver).
Qed.
End Listeners.
