(* ===== verification/EdgeTranslator.v ===== *)
(** * gateway/pkg/translator/translator.go: gateways become a proxy

    With predicate.go. [Translate] filters the gateways, validates them together and
    translates each with the translator for its type. *)

From stdpp Require Import base gmap strings list fin_maps pretty.
From Stdlib Require Import ZArith.
From S2P Require Import Prelude GoLib GwApi EdgeApi RouteConverter ShortCircuit VirtualServices EdgeListeners.
Import Edge VirtualServices EdgeListeners.

Module EdgeTranslator.
(** ** predicate.go *)
Inductive Predicate := SingleNamespacePredicate (namespace : string) | AllNamespacesPredicate.
Definition ReadGateway (p : Predicate) (g : Gateway) : bool :=
  match p with
  | SingleNamespacePredicate ns => bool_decide (md_namespace (gw_meta g) = ns)
  | AllNamespacesPredicate => true
  end.
Definition FilterGateways (gateways : list Gateway) (p : Predicate) : list Gateway := List.filter (ReadGateway p) gateways.
Definition GetPredicate (writeNamespace : string) (readGatewaysFromAllNamespaces : bool) : Predicate :=
  if readGatewaysFromAllNamespaces then AllNamespacesPredicate else SingleNamespacePredicate writeNamespace.

(** ** The translator *)
Record Opts := {
  op_WriteNamespace : string;
  op_ReadGatewaysFromAllNamespaces : bool;
  (** [Validation != nil && Validation.WarnOnRouteShortCircuiting] *)
  op_Validation : option bool;
  op_IsolateVirtualHostsBySslConfig : bool
}.
Record GwTranslator := {
  gt_writeNamespace : string;
  gt_predicate : Predicate;
  gt_isolateVirtualHostsBySslConfig : bool;
  gt_warnOnRouteShortCircuiting : bool
}.
Definition NewDefaultTranslator (opts : Opts) : GwTranslator := {|
  gt_writeNamespace := op_WriteNamespace opts;
  gt_predicate := GetPredicate (op_WriteNamespace opts) (op_ReadGatewaysFromAllNamespaces opts);
  gt_isolateVirtualHostsBySslConfig := op_IsolateVirtualHostsBySslConfig opts;
  gt_warnOnRouteShortCircuiting := default false (op_Validation opts) |}.

(** [strconv.ParseBool] *)
Definition ParseBool (s : string) : option bool :=
  if existsb (String.eqb s) ["1"; "t"; "T"; "true"; "TRUE"; "True"] then Some true
  else if existsb (String.eqb s) ["0"; "f"; "F"; "false"; "FALSE"; "False"] then Some false
  else None.

Definition shouldIsolateVirtualHostsForGateway (t : GwTranslator) (g : Gateway) : bool :=
  match md_annotations (gw_meta g) !! "gateway.solo.io/isolate_vhost" ≫= ParseBool with
  | Some b => b
  | None => gt_isolateVirtualHostsBySslConfig t
  end.

(** The virtual services a gateway refers to by name. *)
Definition referenced (g : Gateway) : list NamespacedName :=
  match gw_type g with
  | Some (HttpGatewayType h) => hg_virtualServices h
  | Some (HybridGatewayType h) =>
      flat_map (λ mg, match mg_type mg with Some (MatchedHttp h) => hg_virtualServices h | _ => [] end)
               (default [] (hy_matchedGateways h))
  | _ => []
  end.
Definition bind_address (g : Gateway) : string := gw_bindAddress g +:+ ":" +:+ pretty (gw_bindPort g).
Definition gatewaysRefsToString (gateways : list Gateway) : list NamespacedName := map (λ g, md_ref (gw_meta g)) gateways.

Section Translate.
Context `{!Labels, !GoRange Z, !GoRange string, !Regexp, !GeneratedCode, !Mergo, !SliceCapacity}.

Definition validateGateways (gateways : list Gateway) (virtualServices : list positive) : M State unit :=
  bindAddresses <~ fold_range 0 gateways (∅ : gmap string (list Gateway)) (λ _ g m,
    refs <~ gets (λ s, map (λ p, md_ref (vs_meta (load_vs p (st_store s)))) virtualServices) ;;
    do! for_range (referenced g) (λ ref,
      if existsb (λ r, bool_decide (r = ref)) refs then ret tt
      else report (RepError (RGateway (gw_meta g)) (InvalidVirtualServiceRef ref))) ;;
    ret (<[bind_address g := default [] (m !! bind_address g) ++ [g]]> m)) ;;
  for_range (go_range bindAddresses) (λ '(addr, gws),
    if 1 <? length gws
    then for_range gws (λ g, report (RepError (RGateway (gw_meta g)) (BindAddressNotUnique addr (gatewaysRefsToString gws))))
    else ret tt).

Context (snapshot : ApiSnapshot) (settings : Settings) (fuel : nat).

(** [getListenerTranslatorForGateway(gateway).ComputeListener(params, proxyName, gateway)] *)
Definition ComputeListener (t : GwTranslator) (proxyName : string) (g : Gateway) : M State (option EdgeListener) :=
  let isolate := shouldIsolateVirtualHostsForGateway t g in
  let warn := gt_warnOnRouteShortCircuiting t in
  match gw_type g with
  | Some (HttpGatewayType _) =>
      if isolate then AggregateTranslator_ComputeListener snapshot settings warn fuel proxyName g
      else HttpTranslator_ComputeListener snapshot settings warn fuel proxyName g
  | Some (TcpGatewayType _) => TcpTranslator_ComputeListener g
  | Some (HybridGatewayType _) =>
      if isolate then AggregateTranslator_ComputeListener snapshot settings warn fuel proxyName g
      else HybridTranslator_ComputeListener snapshot settings warn fuel proxyName g
  | None => InvalidGatewayTypeTranslator_ComputeListener g
  end.

Definition Translate (t : GwTranslator) (proxyName : string) (gateways : list Gateway) : M State (option EdgeProxy) :=
  match FilterGateways gateways (gt_predicate t) with
  | [] => ret None
  | filteredGateways =>
      do! validateGateways filteredGateways (sn_virtualServices snapshot) ;;
      listeners <~ fold_range 0 filteredGateways [] (λ _ g listeners,
        l <~ ComputeListener t proxyName g ;;
        ret (match l with Some l => listeners ++ [l] | None => listeners end)) ;;
      match listeners with
      | [] => ret None
      | _ => ret (Some {| px_name := proxyName; px_namespace := gt_writeNamespace t; px_listeners := listeners |})
      end
  end.
End Translate.
End EdgeTranslator.
