(* ===== verification/EdgeTranslatorFacts.v ===== *)
(** * Properties of the translation of gateways *)

From stdpp Require Import base gmap strings list fin_maps sets pretty sorting.
From Stdlib Require Import ZArith Lia.
From S2P Require Import Prelude GoLib GwApi EdgeApi RouteConverter RouteConverterFacts ShortCircuit ShortCircuitFacts VirtualServices VirtualServicesFacts EdgeListeners EdgeListenersFacts EdgeTranslator.
Import Edge VirtualServices EdgeListeners EdgeTranslator.

(** ** Validation of the gateways of a proxy *)
Section Validation.
Context `{!GoRange string}.
Context (h : Store) (virtualServices : list positive).

Definition known (ref : NamespacedName) : bool :=
  existsb (λ r, bool_decide (r = ref)) (map (λ p, md_ref (vs_meta (load_vs p h))) virtualServices).
Definition missing_refs (g : Gateway) : list Report :=
  map (λ ref, RepError (RGateway (gw_meta g)) (InvalidVirtualServiceRef ref)) (List.filter (λ ref, negb (known ref)) (referenced g)).
(** The gateways of an address, in order. *)
Definition sharing (gateways : list Gateway) (addr : string) : list Gateway :=
  List.filter (λ g, bool_decide (bind_address g = addr)) gateways.
Definition address_errors (gateways : list Gateway) (addr : string) : list Report :=
  map (λ g, RepError (RGateway (gw_meta g)) (BindAddressNotUnique addr (gatewaysRefsToString (sharing gateways addr)))) (sharing gateways addr).

Lemma for_range_reports {A} (body : A → M State unit) (f : A → list Report) l s :
  (∀ x s', x ∈ l → st_store s' = st_store s → body x s' = Ok (tt, add_reports s' (f x))) →
  for_range l body s = Ok (tt, add_reports s (flat_map f l)).
Proof.
  revert s. induction l as [|x l IH]; intros s Hb; simpl; [unfold ret; by rewrite add_reports_nil|].
  unfold bind. rewrite Hb; [|by left|done]. rewrite IH; [by rewrite add_reports_app|].
  intros y s' Hy Hs'. apply Hb; [by right|]. by rewrite Hs'.
Qed.

Lemma validate_gateways_run gateways s : st_store s = h → ∃ order, NoDup order ∧
  (∀ addr, addr ∈ order ↔ 1 < length (sharing gateways addr)) ∧
  validateGateways gateways virtualServices s =
    Ok (tt, add_reports s (flat_map missing_refs gateways ++ flat_map (address_errors gateways) order)).
Proof.
  intros Hs. unfold validateGateways.
  set (body := λ (_ : nat) (g : Gateway) (m : gmap string (list Gateway)), _ <~ _ ;; _).
  assert (wp (fold_range 0 gateways ∅ body) (λ m s', s' = add_reports s (flat_map missing_refs gateways) ∧
    ∀ addr, m !! addr = match sharing gateways addr with [] => None | l => Some l end) s) as Hwp.
  { apply (wp_fold_range_prefix (λ pre (m : gmap string (list Gateway)) s', s' = add_reports s (flat_map missing_refs pre) ∧
      ∀ addr, m !! addr = match sharing pre addr with [] => None | l => Some l end) _ gateways 0 []); [by rewrite add_reports_nil|].
    intros i pre g m s1 _ (-> & Hm). subst body. cbv beta. wp_step. apply wp_gets. simpl. rewrite Hs. wp_step.
    unfold wp at 1. erewrite (for_range_reports _ (λ ref, if known ref then [] else
      [RepError (RGateway (gw_meta g)) (InvalidVirtualServiceRef ref)])).
    2:{ intros ref s' _ _. unfold known. destruct (existsb _ _); [unfold ret; by rewrite add_reports_nil|done]. }
    apply wp_ret. split.
    - rewrite add_reports_app, flat_map_app. simpl. rewrite app_nil_r. do 2 f_equal. unfold missing_refs.
      induction (referenced g) as [|ref refs IH]; simpl; [done|]. rewrite IH. by destruct (known ref).
    - intros addr. unfold sharing. rewrite List.filter_app. simpl. destruct (decide (bind_address g = addr)) as [<-|Hne].
      + rewrite lookup_insert_eq, Hm, bool_decide_eq_true_2 by done. fold (sharing pre (bind_address g)).
        by destruct (sharing pre (bind_address g)).
      + rewrite lookup_insert_ne, Hm, bool_decide_eq_false_2, app_nil_r by done. done. }
  apply wp_run in Hwp as (m & s' & Hrun & -> & Hm).
  assert (∀ addr l, (addr, l) ∈ go_range m → l = sharing gateways addr) as Hl.
  { intros addr l Hin%go_range_elem. rewrite Hm in Hin. by destruct (sharing gateways addr); simplify_eq. }
  exists (conflicted m). split_and!; [apply conflicted_nodup| |].
  - apply conflicted_elem. intros addr. rewrite Hm. by destruct (sharing gateways addr).
  - unfold bind at 1. rewrite Hrun.
    rewrite (for_range_reports _ (λ '(addr, l), if 1 <? length l then address_errors gateways addr else [])).
    + rewrite add_reports_app. do 4 f_equal. unfold conflicted. clear -m. induction (go_range m) as [|[a l] r IH]; simpl; [done|].
      destruct (1 <? length l); simpl; by rewrite IH.
    + intros [addr l] s' Hin _. rewrite (Hl _ _ Hin). destruct (1 <? length _); [|unfold ret; by rewrite add_reports_nil].
      erewrite (for_range_reports _ (λ g, [RepError (RGateway (gw_meta g)) (BindAddressNotUnique addr (gatewaysRefsToString (sharing gateways addr)))])).
      * unfold address_errors. by rewrite map_flat_map.
      * done.
Qed.
End Validation.

(** ** Gateways *)
Section Translate.
Context `{!Labels, !GoRange Z, !GoRange string, !Regexp, !GeneratedCode, !Mergo, !SliceCapacity}.
Context (snapshot : ApiSnapshot) (settings : Settings) (fuel : nat).
Context (Hfuel : length (sn_routeTables snapshot) < fuel).
Context (t : GwTranslator) (proxyName : string) (s0 : State).

Abbreviation chosen0 http ssl := (chosen snapshot (st_store s0) http ssl).
Abbreviation isolate g := (shouldIsolateVirtualHostsForGateway t g).

(** The filter chains of an HTTP gateway: one per SSL configuration, which is its matcher, or
    one without a matcher. *)
Definition http_contribution (g : Gateway) (http : HttpGateway) : Contribution := {|
  co_services := chosen0 http (gw_ssl g); co_ssl := gw_ssl g;
  co_matcher := option_map (λ c, {| mt_sslConfig := Some c; mt_sourcePrefixRanges := []; mt_passthroughCipherSuites := [] |}) |}.

(** What a listener of a gateway serves, by the type of the gateway and whether virtual
    hosts are isolated by SSL configuration. *)
Definition serves (g : Gateway) (type : ListenerType) : Prop :=
  match gw_type g, type with
  | Some (HttpGatewayType http), Listener_HttpListener l =>
      isolate g = false ∧ hl_options l = hg_options http ∧ hosts_ok snapshot s0 (chosen0 http (gw_ssl g)) (hl_virtualHosts l)
  | Some (HttpGatewayType http), Listener_AggregateListener b =>
      isolate g = true ∧ aggregate_ok snapshot s0 [http_contribution g http] b ∧ al_tcpListeners b = []
  | Some (TcpGatewayType tcp), Listener_TcpListener l => l = ComputeTcpListener tcp
  | Some (HybridGatewayType hy), Listener_HybridListener l =>
      isolate g = false ∧ l ≠ [] ∧
      match hy_matchedGateways hy with
      | Some matched => Forall2 (inline_ok snapshot s0) (List.filter (kept snapshot settings) matched) l
      | None => ∃ l1 l2, l = l1 ++ l2 ∧
          Forall2 (delegated_http_ok snapshot s0 g) (selected_http snapshot (hy_delegatedHttpGateways hy)) l1 ∧
          Forall2 delegated_tcp_ok (selected_tcp snapshot (hy_delegatedTcpGateways hy)) l2
      end
  | Some (HybridGatewayType hy), Listener_AggregateListener b =>
      isolate g = true ∧
      match hy_matchedGateways hy with
      | Some matched => aggregate_ok snapshot s0 (inline_contributions snapshot s0 matched) b ∧ al_tcpListeners b = inline_tcp matched
      | None => aggregate_ok snapshot s0 (delegated_contributions snapshot s0 g (selected_http snapshot (hy_delegatedHttpGateways hy))) b ∧
                al_tcpListeners b = delegated_tcp (selected_tcp snapshot (hy_delegatedTcpGateways hy))
      end
  | _, _ => False
  end.
Definition gateway_listener (g : Gateway) (l : EdgeListener) : Prop :=
  el_name l = ListenerName g ∧ el_bindAddress l = gw_bindAddress g ∧ el_bindPort l = gw_bindPort g ∧
  el_settings l = gw_settings g ∧ el_sources l = [makeSourceRef (RGateway (gw_meta g))] ∧ serves g (el_type l).

(** Why a gateway has no listener. *)
Definition no_services (cos : list Contribution) : Prop := flat_map co_services cos = [].
Definition skipped (g : Gateway) : Prop :=
  match gw_type g with
  | Some (HttpGatewayType _) => nothing_to_serve snapshot settings = true
  | Some (TcpGatewayType _) => False
  | Some (HybridGatewayType hy) =>
      match hy_matchedGateways hy with
      | Some matched => if isolate g then no_services (inline_contributions snapshot s0 matched) else List.filter (kept snapshot settings) matched = []
      | None => (if isolate g then no_services (delegated_contributions snapshot s0 g (selected_http snapshot (hy_delegatedHttpGateways hy)))
                 else selected_http snapshot (hy_delegatedHttpGateways hy) = []) ∧
                selected_tcp snapshot (hy_delegatedTcpGateways hy) = []
      end
  | None => True
  end.
Definition computed (g : Gateway) (l : option EdgeListener) : Prop :=
  match l with Some l => gateway_listener g l | None => skipped g end.

Lemma gateway_listener_make g type configs : serves g type → gateway_listener g (makeListener g type configs).
Proof. by intros Hs. Qed.

Lemma filter_none {A} (f : A → bool) l : (∀ x, f x = false) → List.filter f l = [].
Proof. intros Hf. induction l as [|x l IH]; simpl; [done|]. by rewrite Hf. Qed.
Lemma selected_http_none : selected_http snapshot None = [].
Proof. by apply filter_none. Qed.
Lemma selected_tcp_none : selected_tcp snapshot None = [].
Proof. by apply filter_none. Qed.
Lemma served_nothing cos b : aggregate_ok snapshot s0 cos b → al_httpFilterChains b = [] → no_services cos.
Proof.
  intros [_ (parts & Hp & Hcos)] Hb. rewrite Hb in Hp. clear Hb. unfold no_services.
  induction Hcos as [|co part cos parts Hco _ IH]; simpl; [done|]. simpl in Hp. symmetry in Hp. apply app_nil in Hp as [-> Hp].
  rewrite IH by done. rewrite app_nil_r. revert Hco. unfold contribution_ok. destruct (co_ssl co); [|by intros (c & [=] & _)].
  intros (groups & Hperm & _ & Hg). inversion Hg; subst. by apply Permutation_nil in Hperm.
Qed.

Lemma http_ok g http s : gw_type g = Some (HttpGatewayType http) → isolate g = false → evolves s0 s →
  wp (HttpTranslator_ComputeListener snapshot settings (gt_warnOnRouteShortCircuiting t) fuel proxyName g)
     (λ l s', evolves s0 s' ∧ computed g l) s.
Proof.
  intros Ht Hi Hs. unfold HttpTranslator_ComputeListener. rewrite Ht. fold (nothing_to_serve snapshot settings).
  destruct (nothing_to_serve snapshot settings) eqn:En.
  { apply wp_ret. split; [done|]. simpl. unfold skipped. by rewrite Ht. }
  wp_step. eapply wp_mono; [by apply getVirtualServices_ok|]. intros vss s1 (Hs1 & _ & ->). rewrite (chosen_evolves snapshot s0) by done.
  wp_step. eapply wp_mono; [by apply (virtual_hosts_ok snapshot settings _ fuel proxyName Hfuel s0)|]. intros vhs s2 [Hs2 Hv].
  wp_step. eapply wp_mono; [by apply ssl_configurations_ok|]. intros configs s3 Hs3. apply wp_ret. split; [done|].
  apply gateway_listener_make. unfold serves. by rewrite Ht.
Qed.

Lemma hybrid_ok g hy s : gw_type g = Some (HybridGatewayType hy) → isolate g = false → evolves s0 s →
  wp (HybridTranslator_ComputeListener snapshot settings (gt_warnOnRouteShortCircuiting t) fuel proxyName g)
     (λ l s', evolves s0 s' ∧ computed g l) s.
Proof.
  intros Ht Hi Hs. unfold HybridTranslator_ComputeListener. rewrite Ht.
  assert (∀ r l s1, evolves s0 s1 → (l = [] → skipped g) → (l ≠ [] → serves g (Listener_HybridListener l)) →
    wp (match l with [] => do! report r ;; ret None | _ => ret (Some (makeListener g (Listener_HybridListener l) [])) end)
       (λ l s', evolves s0 s' ∧ computed g l) s1) as Hfinish.
  { intros r l s1 Hs1 Hnil Hcons. destruct l as [|ml l].
    - wp_step. eapply wp_mono; [by apply report_ok|]. intros [] s2 Hs2. apply wp_ret. split; [done|by apply Hnil].
    - apply wp_ret. split; [done|]. apply gateway_listener_make. by apply Hcons. }
  destruct (hy_matchedGateways hy) as [matched|] eqn:Em.
  - wp_step. eapply wp_mono; [by apply hybrid_inline_ok|]. intros l s1 [Hs1 Hl]. apply Hfinish; [done|..].
    + intros ->. unfold skipped. rewrite Ht, Em, Hi. by inversion Hl.
    + intros Hne. unfold serves. by rewrite Ht, Em.
  - assert (wp (l <~ computeHybridListenerFromDelegatedGateways snapshot settings (gt_warnOnRouteShortCircuiting t) fuel proxyName g
        (hy_delegatedHttpGateways hy) (hy_delegatedTcpGateways hy) ;;
      match l with [] => do! report (RepWarning (RGateway (gw_meta g)) EmptyHybridGateway) ;; ret None
                 | _ => ret (Some (makeListener g (Listener_HybridListener l) [])) end)
      (λ l s', evolves s0 s' ∧ computed g l) s) as Hwp.
    { wp_step. eapply wp_mono; [by apply hybrid_delegated_ok|]. intros l s1 (Hs1 & l1 & l2 & -> & Hl1 & Hl2). apply Hfinish; [done|..].
      - intros [-> ->]%app_nil. unfold skipped. rewrite Ht, Em, Hi. by inversion Hl1; inversion Hl2.
      - intros Hne. unfold serves. rewrite Ht, Em. split_and!; [done..|]. by exists l1, l2. }
    destruct (hy_delegatedHttpGateways hy) eqn:Eh, (hy_delegatedTcpGateways hy) eqn:Ec; try exact Hwp.
    apply wp_ret. split; [done|]. simpl. unfold skipped. by rewrite Ht, Em, Hi, Eh, Ec, selected_http_none, selected_tcp_none.
Qed.

Lemma aggregate_http_ok g http s : gw_type g = Some (HttpGatewayType http) → isolate g = true → evolves s0 s →
  wp (AggregateTranslator_ComputeListener snapshot settings (gt_warnOnRouteShortCircuiting t) fuel proxyName g)
     (λ l s', evolves s0 s' ∧ computed g l) s.
Proof.
  intros Ht Hi Hs. unfold AggregateTranslator_ComputeListener. rewrite Ht. cbv zeta. fold (nothing_to_serve snapshot settings).
  destruct (nothing_to_serve snapshot settings) eqn:En.
  { apply wp_ret. split; [done|]. simpl. unfold skipped. by rewrite Ht. }
  unfold computeAggregateListenerForHttpGateway. wp_step.
  eapply wp_mono; [apply (add_chains_ok snapshot settings _ fuel proxyName Hfuel s0 g http _ _ _ []); [done|apply newBuilder_ok]|].
  intros b s1 (Hs1 & Htcp & Hb). apply wp_ret. split; [done|]. apply gateway_listener_make. unfold serves. by rewrite Ht.
Qed.

Lemma aggregate_hybrid_ok g hy s : gw_type g = Some (HybridGatewayType hy) → isolate g = true → evolves s0 s →
  wp (AggregateTranslator_ComputeListener snapshot settings (gt_warnOnRouteShortCircuiting t) fuel proxyName g)
     (λ l s', evolves s0 s' ∧ computed g l) s.
Proof.
  intros Ht Hi Hs. unfold AggregateTranslator_ComputeListener. rewrite Ht. cbv zeta.
  assert (∀ s1 r, evolves s0 s1 → skipped g → wp (do! report r ;; ret None) (λ b s', evolves s0 s' ∧
    computed g (option_map (λ b, makeListener g (Listener_AggregateListener b) []) b)) s1) as Hskip.
  { intros s1 r Hs1 Hsk. wp_step. eapply wp_mono; [by apply report_ok|]. intros [] s2 Hs2. by apply wp_ret. }
  destruct (_ && _ && _ && _) eqn:En.
  { apply wp_ret. split; [done|]. simpl. unfold skipped. rewrite Ht. rewrite !andb_true_iff, !negb_true_iff, orb_false_iff, !bool_decide_eq_false in En.
    destruct En as [[[Hno [Hc Hh]] _] _]. unfold no_virtual_services in Hno. apply bool_decide_eq_true in Hno.
    assert (∀ http ssl, chosen0 http ssl = []) as Hch by (intros; unfold chosen; by rewrite Hno).
    rewrite Hi. destruct (hy_matchedGateways hy) as [matched|].
    - unfold no_services, inline_contributions. induction matched as [|mg matched IH]; simpl; [done|]. rewrite flat_map_app, IH, app_nil_r.
      repeat case_match; simpl; by rewrite ?app_nil_r.
    - destruct (hy_delegatedHttpGateways hy); [destruct Hh; by eexists|]. destruct (hy_delegatedTcpGateways hy); [destruct Hc; by eexists|].
      by rewrite selected_http_none, selected_tcp_none. }
  wp_step. apply (wp_mono _ (λ b s', evolves s0 s' ∧ computed g (option_map (λ b, makeListener g (Listener_AggregateListener b) []) b)));
    [|intros b s1 [Hs1 Hb]; by apply wp_ret].
  unfold computeAggregateListenerForHybridGateway. destruct (hy_matchedGateways hy) as [matched|] eqn:Em.
  - wp_step. eapply wp_mono; [by apply aggregate_inline_ok|]. intros b s1 (Hs1 & Hb & Htcp). destruct (al_httpFilterChains b) eqn:Ec.
    + apply Hskip; [done|]. unfold skipped. rewrite Ht, Em, Hi. by eapply served_nothing.
    + apply wp_ret. split; [done|]. apply gateway_listener_make. unfold serves. by rewrite Ht, Em.
  - assert (wp (b <~ computeListenerFromDelegatedGateway snapshot settings (gt_warnOnRouteShortCircuiting t) fuel proxyName g
        (hy_delegatedHttpGateways hy) (hy_delegatedTcpGateways hy) ;;
      match from_option al_httpFilterChains [] b, from_option al_tcpListeners [] b with
      | [], [] => do! report (RepWarning (RGateway (gw_meta g)) EmptyHybridGateway) ;; ret None
      | _, _ => ret b
      end) (λ b s', evolves s0 s' ∧ computed g (option_map (λ b, makeListener g (Listener_AggregateListener b) []) b)) s) as Hwp.
    { wp_step. eapply wp_mono; [by apply aggregate_delegated_ok|]. intros [b|] s1 [Hs1 Hb]; simpl.
      - destruct Hb as [Hb Htcp].
        assert (serves g (Listener_AggregateListener b)) as Hserve by (unfold serves; by rewrite Ht, Em).
        destruct (al_httpFilterChains b) eqn:Ec; [destruct (al_tcpListeners b) eqn:El|]; try (apply wp_ret; split; [done|by apply gateway_listener_make]).
        apply Hskip; [done|]. unfold skipped. rewrite Ht, Em, Hi. split; [by eapply served_nothing|]. unfold delegated_tcp in Htcp.
        by destruct (selected_tcp _ _).
      - apply Hskip; [done|]. unfold skipped. rewrite Ht, Em, Hi. destruct Hb as [Hh Hc]. rewrite Hc. unfold selected_http in *. by rewrite Hh. }
    destruct (hy_delegatedHttpGateways hy) eqn:Eh, (hy_delegatedTcpGateways hy) eqn:Ec; try exact Hwp.
    apply wp_ret. split; [done|]. simpl. unfold skipped. by rewrite Ht, Em, Hi, Eh, Ec, selected_http_none, selected_tcp_none.
Qed.

Lemma ComputeListener_ok g s : evolves s0 s →
  wp (ComputeListener snapshot settings fuel t proxyName g) (λ l s', evolves s0 s' ∧ computed g l) s.
Proof.
  intros Hs. unfold ComputeListener. cbv zeta. destruct (gw_type g) as [[http|tcp|hy]|] eqn:Ht.
  - destruct (isolate g) eqn:Hi; [by eapply aggregate_http_ok|by eapply http_ok].
  - unfold TcpTranslator_ComputeListener. rewrite Ht. apply wp_ret. split; [done|]. apply gateway_listener_make. unfold serves. by rewrite Ht.
  - destruct (isolate g) eqn:Hi; [by eapply aggregate_hybrid_ok|by eapply hybrid_ok].
  - unfold InvalidGatewayTypeTranslator_ComputeListener. wp_step. eapply wp_mono; [by apply report_ok|]. intros [] s1 Hs1.
    apply wp_ret. split; [done|]. simpl. unfold skipped. by rewrite Ht.
Qed.

(** C36. Translating gateways into a proxy ends without a panic and accounts for every gateway
    that the predicate lets through, in order: it has a listener of its name, address and
    source that serves what its type says, or there is a reason that it has none. An HTTP
    gateway serves all virtual services it selects and no others, a TCP gateway its hosts, a
    hybrid one its matched or delegated gateways under their matchers (for a delegated HTTP
    gateway with the TLS configuration merged with the parent's). An aggregate listener has,
    gateway by gateway, one filter chain per group of virtual services with one TLS
    configuration, which is in its matcher with the SNI domains of the group, or one chain for
    those without TLS; its references resolve. A virtual host has the routes its route tree
    delivers when no routes share room behind inherited matchers. There is no proxy when there
    is no listener. Metadata, domains, routes and the TLS configuration of the virtual services
    stay, but for the one-way default; reports are only added. *)
Theorem Translate_correct gateways :
  ∃ r s' results, Translate snapshot settings fuel t proxyName gateways s0 = Ok (r, s') ∧ evolves s0 s' ∧
    Forall2 computed (FilterGateways gateways (gt_predicate t)) results ∧
    r = match omap id results with
        | [] => None
        | ls => Some {| px_name := proxyName; px_namespace := gt_writeNamespace t; px_listeners := ls |}
        end.
Proof.
  assert (wp (Translate snapshot settings fuel t proxyName gateways) (λ r s', evolves s0 s' ∧ ∃ results,
    Forall2 computed (FilterGateways gateways (gt_predicate t)) results ∧
    r = match omap id results with
        | [] => None
        | ls => Some {| px_name := proxyName; px_namespace := gt_writeNamespace t; px_listeners := ls |}
        end) s0) as Hwp.
  2: { apply wp_run in Hwp as (r & s' & Hrun & Hev & results & Hall & Hr). by exists r, s', results. }
  unfold Translate. destruct (FilterGateways gateways (gt_predicate t)) as [|g0 gs0] eqn:Ef.
  { apply wp_ret. split; [done|]. by exists []. }
  rewrite <-Ef. clear g0 gs0 Ef. set (gs := FilterGateways _ _).
  destruct (validate_gateways_run (st_store s0) (sn_virtualServices snapshot) gs s0 eq_refl) as (order & _ & _ & Hrun).
  wp_step. unfold wp at 1. rewrite Hrun. wp_step. eapply wp_mono.
  { apply (wp_fold_range_prefix (λ pre ls s', evolves s0 s' ∧ ∃ results, Forall2 computed pre results ∧ ls = omap id results) _ gs 0 []).
    { split; [apply evolves_reports|]. by exists []. }
    intros _ pre g ls s1 _ (Hs1 & results & Hall & ->). wp_step. eapply wp_mono; [by apply ComputeListener_ok|].
    intros l s2 [Hs2 Hl]. apply wp_ret. split; [done|]. exists (results ++ [l]). split; [apply Forall2_app; [done|by repeat constructor]|].
    rewrite omap_app. simpl. by destruct l; rewrite ?app_nil_r. }
  intros ls s1 (Hs1 & results & Hall & ->). destruct (omap id results) as [|l ls] eqn:El; apply wp_ret; (split; [done|]); exists results; by rewrite El.
Qed.
End Translate.

(** The gateways of a proxy are validated exactly: a reference to a virtual service that
    is not in the snapshot is an error on its gateway; for every address with more than
    one gateway, each of them gets an error that names them all; nothing else is reported
    or changed. *)
Theorem validateGateways_exact `{!GoRange string} virtualServices gateways s : ∃ order, NoDup order ∧
  (∀ addr, addr ∈ order ↔ 1 < length (sharing gateways addr)) ∧
  validateGateways gateways virtualServices s =
    Ok (tt, add_reports s (flat_map (missing_refs (st_store s) virtualServices) gateways ++ flat_map (address_errors gateways) order)).
Proof. by apply validate_gateways_run. Qed.

(** ** Concrete gateways *)
Section Examples.
#[local] Existing Instance ex_labels.
#[local] Existing Instance ex_z_order.
#[local] Existing Instance ex_regexp.
#[local] Existing Instance ex_capacity.
#[local] Existing Instance ex_string_order.
#[local] Existing Instance ex_generated.
Definition ex_mergo : Mergo := {|
  merge_ssl := λ c p prevent, {| ssl_sniDomains := ssl_sniDomains c;
    ssl_oneWayTls := if prevent then ssl_oneWayTls p else match ssl_oneWayTls c with Some b => Some b | None => ssl_oneWayTls p end;
    ssl_other := ssl_other c |};
  merge_hcm := λ c p _, c +:+ "," +:+ p |}.
#[local] Existing Instance ex_mergo.

Definition ex_ssl (sni : list string) (other : string) : SslConfig := {| ssl_sniDomains := sni; ssl_oneWayTls := None; ssl_other := other |}.
Definition ex_tls_store : Store := ex_vs_store [
  (1%positive, ex_vs "a" (ex_host ["a.com"]) (Some (ex_ssl ["a.com"] "secret")));
  (2%positive, ex_vs "b" (ex_host ["b.com"]) (Some (ex_ssl ["b.com"; "a.com"] "secret")));
  (3%positive, ex_vs "c" (ex_host ["c.com"]) (Some (ex_ssl [] "other")));
  (4%positive, ex_vs "d" (ex_host ["d.com"]) None)].

Lemma GroupVirtualServicesBySslConfig_partition_witness :
  ∃ keys, GroupVirtualServicesBySslConfig [1; 3; 2]%positive (ex_state ex_tls_store) =
    Ok ([(ex_ssl [] "other", [3%positive]); (ex_ssl ["a.com"; "b.com"] "secret", [1; 2]%positive)], ex_state ex_tls_store) ∧
    keys = ["other"; "secret"] ∧ StronglySorted (λ a b, String.le a b ∧ a ≠ b) keys.
Proof.
  destruct (GroupVirtualServicesBySslConfig_partition ex_tls_store [1; 3; 2]%positive (ex_state ex_tls_store) eq_refl) as (keys & groups & Hrun & Hs & _ & Hall).
  { repeat constructor. }
  exists ["other"; "secret"]. split; [vm_compute; reflexivity|]. split; [reflexivity|].
  assert (groups = [(ex_ssl [] "other", [3%positive]); (ex_ssl ["a.com"; "b.com"] "secret", [1; 2]%positive)]) as ->
    by (vm_compute in Hrun; by injection Hrun as <-).
  clear Hrun Hall Hs keys. repeat constructor; discriminate.
Defined.

Definition ex_http (names : list string) (expressions : option (list Expression)) (options : option positive) : HttpGateway :=
  {| hg_virtualServices := map (λ n, {| nn_ns := "default"; nn_name := n |}) names; hg_selector := None; hg_expressions := expressions;
     hg_namespaces := []; hg_options := options |}.
Definition ex_gw (name : string) (port : N) (ssl : bool) (annotations : gmap string string) (type : option GatewayType) : Gateway :=
  {| gw_meta := {| md_name := name; md_namespace := "default"; md_generation := 1; md_labels := ∅; md_annotations := annotations |};
     gw_bindAddress := "::"; gw_bindPort := port; gw_ssl := ssl; gw_type := type; gw_settings := "" |}.
Definition ex_isolated : gmap string string := {["gateway.solo.io/isolate_vhost" := "true"]}.
Definition ex_matched (m : option SslConfig) (type : MatchedGatewayType) : MatchedGateway :=
  {| mg_matcher := {| mt_sslConfig := m; mt_sourcePrefixRanges := []; mt_passthroughCipherSuites := [] |}; mg_type := Some type |}.
Definition ex_hybrid (matched : list MatchedGateway) : GatewayType :=
  HybridGatewayType {| hy_matchedGateways := Some matched; hy_delegatedHttpGateways := None; hy_delegatedTcpGateways := None |}.
Definition ex_tcp : TcpGateway := {| tg_options := ""; tg_tcpHosts := [] |}.
Definition ex_api : ApiSnapshot := {|
  sn_gateways := []; sn_httpGateways := []; sn_tcpGateways := []; sn_virtualServices := [1; 2; 3; 4]%positive;
  sn_routeTables := sn_routeTables (ex_snapshot []); sn_routeOptions := []; sn_virtualHostOptions := [] |}.
Definition ex_translator : GwTranslator :=
  NewDefaultTranslator {| op_WriteNamespace := "default"; op_ReadGatewaysFromAllNamespaces := false; op_Validation := Some true;
                          op_IsolateVirtualHostsBySslConfig := false |}.
Definition ex_gateways : list Gateway := [
  ex_gw "http" 8080 false ∅ (Some (HttpGatewayType (ex_http [] None None)));
  ex_gw "https" 8443 true ex_isolated (Some (HttpGatewayType (ex_http [] None None)));
  ex_gw "tcp" 8080 false ∅ (Some (TcpGatewayType ex_tcp));
  ex_gw "hybrid" 9000 false ∅ (Some (ex_hybrid [ex_matched None (MatchedTcp ex_tcp)]));
  ex_gw "untyped" 9001 false ∅ None].
Definition ex_translate (gateways : list Gateway) : res (option EdgeProxy * State) :=
  Translate ex_api ex_settings 3 ex_translator "proxy" gateways (ex_state ex_tls_store).

(** Two of the five gateways share an address, one has no type. *)
Example ex_translate_run :
  match ex_translate ex_gateways with
  | Ok (Some px, s) => Some (map el_name (px_listeners px), length (List.filter (λ r, match r with RepError (RGateway _) _ => true | _ => false end) (st_reports s)))
  | _ => None
  end = Some (["listener-::-8080"; "listener-::-8443"; "listener-::-8080"; "listener-::-9000"], 3).
Proof. vm_compute. reflexivity. Qed.

Lemma Translate_correct_witness :
  ∃ r s', ex_translate ex_gateways = Ok (r, s') ∧ evolves (ex_state ex_tls_store) s' ∧ option_map px_namespace r = Some "default" ∧
    (∃ l, option_map px_listeners r ≫= (λ ls, ls !! 1) = Some l ∧
      gateway_listener ex_api ex_settings ex_translator (ex_state ex_tls_store) (ex_gw "https" 8443 true ex_isolated (Some (HttpGatewayType (ex_http [] None None)))) l).
Proof.
  destruct (Translate_correct ex_api ex_settings 3 ltac:(simpl; lia) ex_translator "proxy" (ex_state ex_tls_store) ex_gateways)
    as (r & s' & results & Hrun & Hev & Hall & Hr).
  exists r, s'. split; [exact Hrun|]. split; [exact Hev|].
  change (FilterGateways ex_gateways (gt_predicate ex_translator)) with ex_gateways in Hall.
  assert (option_map (λ p, length (px_listeners p)) r = Some 4) as Hlen by (clear -Hrun; vm_compute in Hrun; injection Hrun as <- _; reflexivity).
  unfold ex_gateways in Hall. apply Forall2_cons_inv_l in Hall as (r1 & results1 & H1 & Hall & ->).
  apply Forall2_cons_inv_l in Hall as (r2 & results2 & H2 & _ & ->).
  destruct r1 as [l1|]; [|discriminate H1]. destruct r2 as [l2|]; [|discriminate H2]. simpl in Hr. subst r. split; [reflexivity|].
  exists l2. split; [reflexivity|exact H2].
Defined.

(** Matched TCP gateways alone: with isolated virtual hosts the gateway is an error and has
    no listener, otherwise (above) it has one. *)
Example isolated_hybrid_gateway_loses_tcp :
  match ex_translate [ex_gw "hybrid" 9000 false ex_isolated (Some (ex_hybrid [ex_matched None (MatchedTcp ex_tcp)]))] with
  | Ok (None, s) => map (λ r, match r with RepError _ EmptyHybridGateway => true | _ => false end) (st_reports s) = [true]
  | _ => False
  end.
Proof. vm_compute. reflexivity. Qed.

(** The global one-way TLS default reaches the SSL configurations of an HTTP listener, but not
    those of an aggregate one, which were copied before. *)
Definition ex_one_way (annotations : gmap string string) : option (list (option bool)) :=
  match ex_translate [ex_gw "https" 8443 true annotations (Some (HttpGatewayType (ex_http [] None None)))] with
  | Ok (Some {| px_listeners := [l] |}, _) => Some (
      match el_type l with
      | Listener_AggregateListener b => map (λ c, (fc_matcher c ≫= mt_sslConfig) ≫= ssl_oneWayTls) (al_httpFilterChains b)
      | _ => map ssl_oneWayTls (el_sslConfigurations l)
      end)
  | _ => None
  end.
Example one_way_tls_default_is_lost_by_isolation :
  ex_one_way ∅ = Some [Some true; Some true; Some true] ∧ ex_one_way ex_isolated = Some [None; None].
Proof. vm_compute. split; reflexivity. Qed.

(** The connection manager settings of one parent stay in the matchable gateway's options
    and are merged with the next parent's, for both listeners. *)
Definition ex_parent (hcm : string) : Gateway :=
  ex_gw "parent" 9000 false ∅ (Some (HybridGatewayType {| hy_matchedGateways := None; hy_delegatedTcpGateways := None;
    hy_delegatedHttpGateways := Some {| dh_ref := None; dh_selector := {| se_namespaces := []; se_labels := ∅; se_expressions := [] |};
      dh_sslConfig := None; dh_hcm := Some hcm; dh_preventChildOverrides := false |} |})).
Definition ex_matchable : MatchableHttpGateway :=
  {| mh_meta := ex_meta "m" ∅; mh_matcher := {| mt_sslConfig := None; mt_sourcePrefixRanges := []; mt_passthroughCipherSuites := [] |};
     mh_httpGateway := ex_http [] None (Some 7%positive) |}.
Example parent_settings_leak_between_gateways :
  let h0 := set_listenerOptions 7 {| lo_hcm := None; lo_other := "" |} ex_tls_store in
  let '(p1, h1) := reconcileGatewayLevelHCMConfig (ex_parent "first") ex_matchable h0 in
  let '(p2, h2) := reconcileGatewayLevelHCMConfig (ex_parent "second") ex_matchable h1 in
  p1 = p2 ∧ option_map (λ p, lo_hcm (load_listenerOptions p h1)) p1 = Some (Some "first") ∧
  option_map (λ p, lo_hcm (load_listenerOptions p h2)) p1 = Some (Some "first,second").
Proof. vm_compute. repeat split. Qed.
End Examples.
