(* ===== verification/ProxyReports.v ===== *)
(** * Reports on a Proxy

    gloo/pkg/api/grpc/validation (the report messages), gloo/pkg/utils/validation/
    proxy_validation.go, gloo/pkg/utils/names.go and vhosts.go. A report has the shape of
    its Proxy ([MakeReport]); translation appends errors and warnings to its parts, and
    they are read back as Go errors ([GetProxyError], [GetProxyWarning]). The error
    libraries are a parameter ([Errors]). *)

From stdpp Require Import base gmap strings list fin_maps pretty.
From Stdlib Require Import ZArith.
From S2P Require Import Prelude GoLib GwApi EdgeApi.
Import Edge.

(** ** Errors: rotisserie/eris and go.uber.org/multierr *)
Class Errors := {
  error : Type;
  (** [eris.New], [eris.Errorf] on the formatted message *)
  New : string → error;
  Wrap : error → string → error;
  (** the method [Error()] *)
  Error : error → string;
  (** [eris.Is(err, target)] *)
  Is : error → error → bool;
  (** [multierr.Append] on a second error that is not nil *)
  multierr_Append : option error → error → error
}.

(** What their documentation says. [eris.Is] compares messages along the chain of wrapped
    errors; of combined errors nothing is assumed. *)
Class ErrorsLaws `{Errors} := {
  Error_New m : Error (New m) = m;
  Error_Wrap e m : Error (Wrap e m) = m +:+ ": " +:+ Error e;
  Is_New m t : Is (New m) (New t) = bool_decide (m = t);
  Is_Wrap e m t : Is (Wrap e m) (New t) = bool_decide (m = t) || Is e (New t);
  Append_nil e : multierr_Append None e = e;
  Append_error e1 e2 : Error (multierr_Append (Some e1) e2) = Error e1 +:+ "; " +:+ Error e2
}.

Module Validation.
(** ** The messages *)
Inductive ListenerReport_Error_Type :=
| ListenerReport_Error_NameNotUniqueError | ListenerReport_Error_BindPortNotUniqueError
| ListenerReport_Error_SSLConfigError | ListenerReport_Error_ProcessingError.
Inductive ListenerReport_Warning_Type := ListenerReport_Warning_SSLConfigWarning.
Inductive HttpListenerReport_Error_Type := HttpListenerReport_Error_ProcessingError.
Inductive VirtualHostReport_Error_Type :=
| VirtualHostReport_Error_NameNotUniqueError | VirtualHostReport_Error_DomainsNotUniqueError
| VirtualHostReport_Error_ProcessingError | VirtualHostReport_Error_EmptyDomainError.
Inductive RouteReport_Error_Type := RouteReport_Error_InvalidMatcherError | RouteReport_Error_ProcessingError.
(** A number without a name can be stored as well: enumerations of protobuf are open. *)
Inductive RouteReport_Warning_Type := RouteReport_Warning_InvalidDestinationWarning | RouteReport_Warning_unnamed (n : nat).
Inductive TcpListenerReport_Error_Type :=
| TcpListenerReport_Error_NameNotUniqueError | TcpListenerReport_Error_BindPortNotUniqueError
| TcpListenerReport_Error_SSLConfigError | TcpListenerReport_Error_ProcessingError.
Inductive TcpHostReport_Error_Type :=
| TcpHostReport_Error_NameNotUniqueError | TcpHostReport_Error_InvalidDestinationError
| TcpHostReport_Error_ProcessingError.
Inductive TcpHostReport_Warning_Type := TcpHostReport_Warning_UnknownWarning | TcpHostReport_Warning_InvalidDestinationWarning.

(** The method [String()] of each enumeration. *)
Class GoString (T : Type) := go_string : T → string.
Definition ListenerReport_Error_name (t : ListenerReport_Error_Type) : string :=
  match t with
  | ListenerReport_Error_NameNotUniqueError => "NameNotUniqueError"
  | ListenerReport_Error_BindPortNotUniqueError => "BindPortNotUniqueError"
  | ListenerReport_Error_SSLConfigError => "SSLConfigError"
  | ListenerReport_Error_ProcessingError => "ProcessingError"
  end.
Definition ListenerReport_Warning_name (_ : ListenerReport_Warning_Type) : string := "SSLConfigWarning".
Definition HttpListenerReport_Error_name (_ : HttpListenerReport_Error_Type) : string := "ProcessingError".
Definition VirtualHostReport_Error_name (t : VirtualHostReport_Error_Type) : string :=
  match t with
  | VirtualHostReport_Error_NameNotUniqueError => "NameNotUniqueError"
  | VirtualHostReport_Error_DomainsNotUniqueError => "DomainsNotUniqueError"
  | VirtualHostReport_Error_ProcessingError => "ProcessingError"
  | VirtualHostReport_Error_EmptyDomainError => "EmptyDomainError"
  end.
Definition RouteReport_Error_name (t : RouteReport_Error_Type) : string :=
  match t with RouteReport_Error_InvalidMatcherError => "InvalidMatcherError" | RouteReport_Error_ProcessingError => "ProcessingError" end.
Definition RouteReport_Warning_name (t : RouteReport_Warning_Type) : string :=
  match t with RouteReport_Warning_InvalidDestinationWarning => "InvalidDestinationWarning" | RouteReport_Warning_unnamed n => itoa n end.
Definition TcpListenerReport_Error_name (t : TcpListenerReport_Error_Type) : string :=
  match t with
  | TcpListenerReport_Error_NameNotUniqueError => "NameNotUniqueError"
  | TcpListenerReport_Error_BindPortNotUniqueError => "BindPortNotUniqueError"
  | TcpListenerReport_Error_SSLConfigError => "SSLConfigError"
  | TcpListenerReport_Error_ProcessingError => "ProcessingError"
  end.
Definition TcpHostReport_Error_name (t : TcpHostReport_Error_Type) : string :=
  match t with
  | TcpHostReport_Error_NameNotUniqueError => "NameNotUniqueError"
  | TcpHostReport_Error_InvalidDestinationError => "InvalidDestinationError"
  | TcpHostReport_Error_ProcessingError => "ProcessingError"
  end.
Definition TcpHostReport_Warning_name (t : TcpHostReport_Warning_Type) : string :=
  match t with TcpHostReport_Warning_UnknownWarning => "UnknownWarning" | TcpHostReport_Warning_InvalidDestinationWarning => "InvalidDestinationWarning" end.
#[export] Instance ListenerReport_Error_string : GoString ListenerReport_Error_Type := ListenerReport_Error_name.
#[export] Instance ListenerReport_Warning_string : GoString ListenerReport_Warning_Type := ListenerReport_Warning_name.
#[export] Instance HttpListenerReport_Error_string : GoString HttpListenerReport_Error_Type := HttpListenerReport_Error_name.
#[export] Instance VirtualHostReport_Error_string : GoString VirtualHostReport_Error_Type := VirtualHostReport_Error_name.
#[export] Instance RouteReport_Error_string : GoString RouteReport_Error_Type := RouteReport_Error_name.
#[export] Instance RouteReport_Warning_string : GoString RouteReport_Warning_Type := RouteReport_Warning_name.
#[export] Instance TcpListenerReport_Error_string : GoString TcpListenerReport_Error_Type := TcpListenerReport_Error_name.
#[export] Instance TcpHostReport_Error_string : GoString TcpHostReport_Error_Type := TcpHostReport_Error_name.
#[export] Instance TcpHostReport_Warning_string : GoString TcpHostReport_Warning_Type := TcpHostReport_Warning_name.

(** An error or a warning; those of listeners and TCP hosts carry no metadata. *)
Record Entry (T : Type) := { en_type : T; en_reason : string; en_metadata : option (list SourceRef) }.
#[global] Arguments en_type {T}.
#[global] Arguments en_reason {T}.
#[global] Arguments en_metadata {T}.
#[global] Arguments Build_Entry {T}.

Record RouteReport := { rr_errors : list (Entry RouteReport_Error_Type); rr_warnings : list (Entry RouteReport_Warning_Type) }.
Record VirtualHostReport := { vr_errors : list (Entry VirtualHostReport_Error_Type); vr_routeReports : list RouteReport }.
Record HttpListenerReport := { hr_errors : list (Entry HttpListenerReport_Error_Type); hr_virtualHostReports : list VirtualHostReport }.
Record TcpHostReport := { tr_errors : list (Entry TcpHostReport_Error_Type); tr_warnings : list (Entry TcpHostReport_Warning_Type) }.
Record TcpListenerReport := { tlr_errors : list (Entry TcpListenerReport_Error_Type); tlr_tcpHostReports : list TcpHostReport }.
Inductive MatchedListenerReport :=
| MatchedListenerReport_HttpListenerReport (r : HttpListenerReport)
| MatchedListenerReport_TcpListenerReport (r : TcpListenerReport)
| MatchedListenerReport_nil.
Record AggregateListenerReport := {
  ar_httpListenerReports : gmap string HttpListenerReport; ar_tcpListenerReports : gmap string TcpListenerReport }.
Inductive ListenerTypeReport :=
| ListenerReport_HttpListenerReport (r : HttpListenerReport)
| ListenerReport_TcpListenerReport (r : TcpListenerReport)
| ListenerReport_HybridListenerReport (r : gmap string MatchedListenerReport)
| ListenerReport_AggregateListenerReport (r : AggregateListenerReport).
Record ListenerReport := {
  lr_errors : list (Entry ListenerReport_Error_Type); lr_warnings : list (Entry ListenerReport_Warning_Type);
  lr_type : option ListenerTypeReport }.
Record ProxyReport := { pr_listenerReports : list ListenerReport }.

(** Reports can be compared. *)
#[export] Instance ListenerReport_Error_Type_eq_dec : EqDecision ListenerReport_Error_Type.
Proof. solve_decision. Defined.
#[export] Instance ListenerReport_Warning_Type_eq_dec : EqDecision ListenerReport_Warning_Type.
Proof. solve_decision. Defined.
#[export] Instance HttpListenerReport_Error_Type_eq_dec : EqDecision HttpListenerReport_Error_Type.
Proof. solve_decision. Defined.
#[export] Instance VirtualHostReport_Error_Type_eq_dec : EqDecision VirtualHostReport_Error_Type.
Proof. solve_decision. Defined.
#[export] Instance RouteReport_Error_Type_eq_dec : EqDecision RouteReport_Error_Type.
Proof. solve_decision. Defined.
#[export] Instance RouteReport_Warning_Type_eq_dec : EqDecision RouteReport_Warning_Type.
Proof. solve_decision. Defined.
#[export] Instance TcpListenerReport_Error_Type_eq_dec : EqDecision TcpListenerReport_Error_Type.
Proof. solve_decision. Defined.
#[export] Instance TcpHostReport_Error_Type_eq_dec : EqDecision TcpHostReport_Error_Type.
Proof. solve_decision. Defined.
#[export] Instance TcpHostReport_Warning_Type_eq_dec : EqDecision TcpHostReport_Warning_Type.
Proof. solve_decision. Defined.
#[export] Instance SourceRef_eq_dec : EqDecision SourceRef.
Proof. solve_decision. Defined.
#[export] Instance Entry_eq_dec T `{EqDecision T} : EqDecision (Entry T).
Proof. solve_decision. Defined.
#[export] Instance RouteReport_eq_dec : EqDecision RouteReport.
Proof. solve_decision. Defined.
#[export] Instance VirtualHostReport_eq_dec : EqDecision VirtualHostReport.
Proof. solve_decision. Defined.
#[export] Instance HttpListenerReport_eq_dec : EqDecision HttpListenerReport.
Proof. solve_decision. Defined.
#[export] Instance TcpHostReport_eq_dec : EqDecision TcpHostReport.
Proof. solve_decision. Defined.
#[export] Instance TcpListenerReport_eq_dec : EqDecision TcpListenerReport.
Proof. solve_decision. Defined.
#[export] Instance MatchedListenerReport_eq_dec : EqDecision MatchedListenerReport.
Proof. solve_decision. Defined.
#[export] Instance AggregateListenerReport_eq_dec : EqDecision AggregateListenerReport.
Proof. solve_decision. Defined.
#[export] Instance ListenerTypeReport_eq_dec : EqDecision ListenerTypeReport.
Proof. solve_decision. Defined.
#[export] Instance ListenerReport_eq_dec : EqDecision ListenerReport.
Proof. solve_decision. Defined.
#[export] Instance ProxyReport_eq_dec : EqDecision ProxyReport.
Proof. solve_decision. Defined.

Definition matched_http (m : MatchedListenerReport) : option HttpListenerReport :=
  match m with MatchedListenerReport_HttpListenerReport r => Some r | _ => None end.
Definition matched_tcp (m : MatchedListenerReport) : option TcpListenerReport :=
  match m with MatchedListenerReport_TcpListenerReport r => Some r | _ => None end.

(** ** The report of a Proxy *)

(** The generated hash of a matcher, a uint64. *)
Class MatcherHash := hash_gatewayMatcher : GatewayMatcher → N.

Definition RouteConfigName (listener : EdgeListener) : string := el_name listener +:+ "-routes".
Definition MatchedRouteConfigName `{MatcherHash} (listener : EdgeListener) (matcher : option GatewayMatcher) : string :=
  match matcher with
  | None => RouteConfigName listener
  | Some m => RouteConfigName listener +:+ "-" +:+ pretty (hash_gatewayMatcher m)
  end.

Definition empty_routeReport : RouteReport := {| rr_errors := []; rr_warnings := [] |}.
Definition empty_tcpHostReport : TcpHostReport := {| tr_errors := []; tr_warnings := [] |}.
(** A reference to a virtual host that does not exist reads as a nil one, without routes. *)
Definition GetRoutes (vh : option GlooVirtualHost) : list GlooRoute := from_option ov_routes [] vh.
Definition makeVhostReports (virtualHosts : list (option GlooVirtualHost)) : list VirtualHostReport :=
  map (λ vh, {| vr_errors := []; vr_routeReports := map (λ _, empty_routeReport) (GetRoutes vh) |}) virtualHosts.
Definition makeTcpHostReports (tcpHosts : list TcpHost) : list TcpHostReport := map (λ _, empty_tcpHostReport) tcpHosts.

Definition httpListenerReport (virtualHosts : list (option GlooVirtualHost)) : HttpListenerReport :=
  {| hr_errors := []; hr_virtualHostReports := makeVhostReports virtualHosts |}.
Definition tcpListenerReport (l : TcpListener) : TcpListenerReport :=
  {| tlr_errors := []; tlr_tcpHostReports := makeTcpHostReports (tl_tcpHosts l) |}.
Definition matchedListenerReport (ml : MatchedListener) : MatchedListenerReport :=
  match ml_type ml with
  | Some (MatchedListener_HttpListener l) => MatchedListenerReport_HttpListenerReport (httpListenerReport (map Some (hl_virtualHosts l)))
  | Some (MatchedListener_TcpListener l) => MatchedListenerReport_TcpListenerReport (tcpListenerReport l)
  | None => MatchedListenerReport_nil
  end.
(** The virtual hosts a filter chain refers to. *)
Definition chain_virtualHosts (a : AggregateListener) (fc : HttpFilterChain) : list (option GlooVirtualHost) :=
  map (λ ref, al_virtualHosts a !! ref) (fc_virtualHostRefs fc).

(** A map written in a loop: [m[key(x)] = value(x)]. *)
Definition index_by {A V} (key : A → string) (value : A → V) (l : list A) : gmap string V :=
  foldl (λ m x, <[key x := value x]> m) ∅ l.

Section MakeReport.
Context `{MatcherHash}.

Definition listenerTypeReport (listener : EdgeListener) : ListenerTypeReport :=
  match el_type listener with
  | Listener_HttpListener l => ListenerReport_HttpListenerReport (httpListenerReport (map Some (hl_virtualHosts l)))
  | Listener_TcpListener l => ListenerReport_TcpListenerReport (tcpListenerReport l)
  | Listener_HybridListener mls => ListenerReport_HybridListenerReport
      (index_by (λ ml, MatchedRouteConfigName listener (Some (ml_matcher ml))) matchedListenerReport mls)
  | Listener_AggregateListener a => ListenerReport_AggregateListenerReport {|
      ar_httpListenerReports := index_by (λ fc, MatchedRouteConfigName listener (fc_matcher fc))
        (λ fc, httpListenerReport (chain_virtualHosts a fc)) (al_httpFilterChains a);
      ar_tcpListenerReports := index_by (λ tl, MatchedRouteConfigName listener (Some (mtl_matcher tl)))
        (λ tl, tcpListenerReport (mtl_listener tl)) (al_tcpListeners a) |}
  end.
Definition MakeReport (proxy : EdgeProxy) : ProxyReport := {| pr_listenerReports :=
  map (λ l, {| lr_errors := []; lr_warnings := []; lr_type := Some (listenerTypeReport l) |}) (px_listeners proxy) |}.
End MakeReport.

(** ** Appending to a report *)
Definition RouteErrorMsg : string := "Route Error".
Definition RouteIdentifierTxt : string := "Route Name".

Definition AppendListenerError (t : ListenerReport_Error_Type) (reason : string) (r : ListenerReport) : ListenerReport :=
  {| lr_errors := lr_errors r ++ [{| en_type := t; en_reason := reason; en_metadata := None |}]; lr_warnings := lr_warnings r; lr_type := lr_type r |}.
Definition AppendListenerWarning (t : ListenerReport_Warning_Type) (reason : string) (r : ListenerReport) : ListenerReport :=
  {| lr_errors := lr_errors r; lr_warnings := lr_warnings r ++ [{| en_type := t; en_reason := reason; en_metadata := None |}]; lr_type := lr_type r |}.
Definition AppendVirtualHostErrorWithMetadata (t : VirtualHostReport_Error_Type) (reason : string) (metadata : option (list SourceRef))
    (r : VirtualHostReport) : VirtualHostReport :=
  {| vr_errors := vr_errors r ++ [{| en_type := t; en_reason := reason; en_metadata := metadata |}]; vr_routeReports := vr_routeReports r |}.
Definition AppendVirtualHostError (t : VirtualHostReport_Error_Type) (reason : string) : VirtualHostReport → VirtualHostReport :=
  AppendVirtualHostErrorWithMetadata t reason None.
Definition AppendHTTPListenerError (t : HttpListenerReport_Error_Type) (reason : string) (r : HttpListenerReport) : HttpListenerReport :=
  {| hr_errors := hr_errors r ++ [{| en_type := t; en_reason := reason; en_metadata := None |}]; hr_virtualHostReports := hr_virtualHostReports r |}.
Definition AppendTCPListenerError (t : TcpListenerReport_Error_Type) (reason : string) (r : TcpListenerReport) : TcpListenerReport :=
  {| tlr_errors := tlr_errors r ++ [{| en_type := t; en_reason := reason; en_metadata := None |}]; tlr_tcpHostReports := tlr_tcpHostReports r |}.
(** The reason of a route error ends with the name of the route. *)
Definition route_reason (reason routeName : string) : string := reason +:+ ". " +:+ RouteIdentifierTxt +:+ ": " +:+ routeName.
Definition AppendRouteErrorWithMetadata (t : RouteReport_Error_Type) (reason routeName : string) (metadata : option (list SourceRef))
    (r : RouteReport) : RouteReport :=
  {| rr_errors := rr_errors r ++ [{| en_type := t; en_reason := route_reason reason routeName; en_metadata := metadata |}];
     rr_warnings := rr_warnings r |}.
Definition AppendRouteError (t : RouteReport_Error_Type) (reason routeName : string) : RouteReport → RouteReport :=
  AppendRouteErrorWithMetadata t reason routeName None.
Definition AppendRouteWarning (t : RouteReport_Warning_Type) (reason : string) (r : RouteReport) : RouteReport :=
  {| rr_errors := rr_errors r; rr_warnings := rr_warnings r ++ [{| en_type := t; en_reason := reason; en_metadata := None |}] |}.
Definition AppendTcpHostWarning (t : TcpHostReport_Warning_Type) (reason : string) (r : TcpHostReport) : TcpHostReport :=
  {| tr_errors := tr_errors r; tr_warnings := tr_warnings r ++ [{| en_type := t; en_reason := reason; en_metadata := None |}] |}.

(** ** Reading a report *)
Definition formattedWarning (level errType reason : string) : string := level +:+ " Warning: " +:+ errType +:+ ". Reason: " +:+ reason.
Definition GetListenerWarning (r : ListenerReport) : list string :=
  map (λ w, formattedWarning "Listener" (go_string (en_type w)) (en_reason w)) (lr_warnings r).
Definition GetRouteWarning (r : RouteReport) : list string :=
  map (λ w, formattedWarning "Route" (go_string (en_type w)) (en_reason w)) (rr_warnings r).
Definition GetTcpHostWarning (r : TcpHostReport) : list string :=
  map (λ w, formattedWarning "TcpHost" (go_string (en_type w)) (en_reason w)) (tr_warnings r).

Section Read.
Context `{!GoRange string}.

Definition GetVhostReportsFromListenerReport (r : ListenerReport) : list VirtualHostReport :=
  match lr_type r with
  | Some (ListenerReport_HttpListenerReport h) => hr_virtualHostReports h
  | Some (ListenerReport_TcpListenerReport _) => []
  | Some (ListenerReport_HybridListenerReport m) =>
      flat_map (λ '(_, mr), from_option hr_virtualHostReports [] (matched_http mr)) (go_range m)
  | Some (ListenerReport_AggregateListenerReport a) =>
      flat_map (λ '(_, h), hr_virtualHostReports h) (go_range (ar_httpListenerReports a))
  | None => []
  end.
Definition GetTcpHostReportsFromListenerReport (r : ListenerReport) : list TcpHostReport :=
  match lr_type r with
  | Some (ListenerReport_HttpListenerReport _) => []
  | Some (ListenerReport_TcpListenerReport t) => tlr_tcpHostReports t
  | Some (ListenerReport_HybridListenerReport m) =>
      flat_map (λ '(_, mr), from_option tlr_tcpHostReports [] (matched_tcp mr)) (go_range m)
  | Some (ListenerReport_AggregateListenerReport a) =>
      flat_map (λ '(_, t), tlr_tcpHostReports t) (go_range (ar_tcpListenerReports a))
  | None => []
  end.

Definition GetProxyWarning (r : ProxyReport) : list string :=
  flat_map (λ lr, GetListenerWarning lr ++
    flat_map (λ vr, flat_map GetRouteWarning (vr_routeReports vr)) (GetVhostReportsFromListenerReport lr) ++
    flat_map GetTcpHostWarning (GetTcpHostReportsFromListenerReport lr)) (pr_listenerReports r).

Context `{Errors}.

Definition formattedError (level errType reason : string) : error := New (level +:+ " Error: " +:+ errType +:+ ". Reason: " +:+ reason).
Definition formatted {T} `{GoString T} (level : string) (es : list (Entry T)) : list error :=
  map (λ e, formattedError level (go_string (en_type e)) (en_reason e)) es.
Definition GetListenerErr (r : ListenerReport) : list error := formatted "Listener" (lr_errors r).
Definition GetHttpListenerErr (r : HttpListenerReport) : list error := formatted "HttpListener" (hr_errors r).
Definition GetVirtualHostErr (r : VirtualHostReport) : list error := formatted "VirtualHost" (vr_errors r).
Definition GetTcpListenerErr (r : TcpListenerReport) : list error := formatted "TcpListener" (tlr_errors r).
Definition GetTcpHostErr (r : TcpHostReport) : list error := formatted "TcpHost" (tr_errors r).
Definition GetRouteErr (r : RouteReport) : list error :=
  map (λ e, Wrap (New (go_string (en_type e) +:+ ". Reason: " +:+ en_reason e)) RouteErrorMsg) (rr_errors r).

Definition getTcpListenerReportErrs (r : TcpListenerReport) : list error :=
  GetTcpListenerErr r ++ flat_map GetTcpHostErr (tlr_tcpHostReports r).
Definition getHttpListenerReportErrs (r : HttpListenerReport) : list error :=
  GetHttpListenerErr r ++ flat_map (λ vr, GetVirtualHostErr vr ++ flat_map GetRouteErr (vr_routeReports vr)) (hr_virtualHostReports r).

Definition GetListenerError (r : ListenerReport) : list error :=
  GetListenerErr r ++
  match lr_type r with
  | Some (ListenerReport_HttpListenerReport h) => getHttpListenerReportErrs h
  | Some (ListenerReport_TcpListenerReport t) => getTcpListenerReportErrs t
  | Some (ListenerReport_HybridListenerReport m) => flat_map (λ '(_, mr),
      match mr with
      | MatchedListenerReport_HttpListenerReport h => getHttpListenerReportErrs h
      | MatchedListenerReport_TcpListenerReport t => getTcpListenerReportErrs t
      | MatchedListenerReport_nil => []
      end) (go_range m)
  | Some (ListenerReport_AggregateListenerReport a) =>
      flat_map (λ '(_, h), getHttpListenerReportErrs h) (go_range (ar_httpListenerReports a)) ++
      flat_map (λ '(_, t), getTcpListenerReportErrs t) (go_range (ar_tcpListenerReports a))
  | None => []
  end.
Definition proxy_errors (r : ProxyReport) : list error := flat_map GetListenerError (pr_listenerReports r).
(** The errors of a Proxy are combined into one. *)
Definition GetProxyError (r : ProxyReport) : option error :=
  foldl (λ combined e, Some (multierr_Append combined e)) None (proxy_errors r).
End Read.

(** ** The virtual hosts of a listener *)
Definition GetVirtualHostsForListener `{!GoRange string} (listener : EdgeListener) : list GlooVirtualHost :=
  match el_type listener with
  | Listener_HttpListener l => hl_virtualHosts l
  | Listener_TcpListener _ => []
  | Listener_HybridListener mls => flat_map (λ ml,
      match ml_type ml with Some (MatchedListener_HttpListener l) => hl_virtualHosts l | _ => [] end) mls
  | Listener_AggregateListener a => map snd (go_range (al_virtualHosts a))
  end.
End Validation.
