(* ===== verification/ResourceReports.v ===== *)
(** * Resource reports (solo-kit)

    [reporter.ResourceReports] is a Go map from resources to what is reported on them. The
    sources index it, range over it and read the fields of a report; its methods are
    solo-kit's and a parameter of the model ([SoloReports]) with their documented
    behaviour ([SoloReportsLaws]). A resource is identified by its kind and reference. *)

From stdpp Require Import base gmap strings list fin_maps.
From S2P Require Import Prelude GoLib GwApi EdgeApi ProxyReports.

(** The field [Errors error] is nil, a [*multierror.Error] or another error. *)
Inductive ErrorValue `{Errors} := Multierror (errs : list error) | OtherError (e : error).
Record ResourceReport `{Errors} := { rp_warnings : list string; rp_errors : option ErrorValue }.
Abbreviation ResourceKey := (string * NamespacedName)%type (only parsing).
Abbreviation ResourceReports := (gmap (string * NamespacedName) ResourceReport) (only parsing).

Section Reports.
Context `{Errors}.

(** The zero value, read for a resource without a report. *)
Definition empty_report : ResourceReport := {| rp_warnings := []; rp_errors := None |}.
Definition report_of (k : ResourceKey) (m : ResourceReports) : ResourceReport := default empty_report (m !! k).

(** The errors of a report, one by one. *)
Definition errors_of (r : ResourceReport) : list error :=
  match rp_errors r with None => [] | Some (Multierror l) => l | Some (OtherError e) => [e] end.
(** The field is nil or a multierror, as [AddErrors] leaves it. *)
Definition multi (r : ResourceReport) : Prop := match rp_errors r with Some (OtherError _) => False | _ => True end.

Definition append_errors (es : list error) (r : ResourceReport) : ResourceReport :=
  {| rp_warnings := rp_warnings r; rp_errors := match es with [] => rp_errors r | _ => Some (Multierror (errors_of r ++ es)) end |}.
Definition append_warnings (ws : list string) (r : ResourceReport) : ResourceReport :=
  {| rp_warnings := rp_warnings r ++ ws; rp_errors := rp_errors r |}.

Lemma errors_of_append es r : errors_of (append_errors es r) = errors_of r ++ es.
Proof. unfold errors_of at 1. destruct es; simpl; by rewrite ?app_nil_r. Qed.
End Reports.

Class SoloReports `{Errors} := {
  Find : string → NamespacedName → ResourceReports → option ResourceKey * ResourceReport;
  AddErrors : ResourceKey → list error → ResourceReports → ResourceReports;
  AddWarnings : ResourceKey → list string → ResourceReports → ResourceReports
}.

Class SoloReportsLaws `{SoloReports} := {
  (** the resource and its report, or nil and an empty report *)
  Find_spec kind ref m :
    Find kind ref m = (if m !! (kind, ref) is Some _ then Some (kind, ref) else None, report_of (kind, ref) m);
  AddErrors_nil k m : AddErrors k [] m = m;
  AddErrors_same k es m : es ≠ [] → AddErrors k es m !! k = Some (append_errors es (report_of k m));
  AddErrors_other k k' es m : k ≠ k' → AddErrors k es m !! k' = m !! k';
  AddWarnings_nil k m : AddWarnings k [] m = m;
  AddWarnings_same k ws m : ws ≠ [] → AddWarnings k ws m !! k = Some (append_warnings ws (report_of k m));
  AddWarnings_other k k' ws m : k ≠ k' → AddWarnings k ws m !! k' = m !! k'
}.

(** Appending to a report is appending to its fields, whether or not there is anything
    to append. *)
Section Laws.
Context `{SoloReportsLaws}.

Lemma report_of_AddErrors k k' es m :
  report_of k' (AddErrors k es m) = if decide (k = k') then append_errors es (report_of k' m) else report_of k' m.
Proof.
  unfold report_of at 1. destruct es as [|e es].
  - rewrite AddErrors_nil. fold (report_of k' m). case_decide; [|done]. destruct (report_of k' m); done.
  - case_decide as Hk; [subst k'; by rewrite AddErrors_same|by rewrite AddErrors_other].
Qed.
Lemma report_of_AddWarnings k k' ws m :
  report_of k' (AddWarnings k ws m) = if decide (k = k') then append_warnings ws (report_of k' m) else report_of k' m.
Proof.
  unfold report_of at 1. destruct ws as [|w ws].
  - rewrite AddWarnings_nil. fold (report_of k' m). case_decide; [|done]. unfold append_warnings. rewrite app_nil_r. by destruct (report_of k' m).
  - case_decide as Hk; [subst k'; by rewrite AddWarnings_same|by rewrite AddWarnings_other].
Qed.
Lemma AddErrors_present k k' es m : is_Some (m !! k) → is_Some (AddErrors k es m !! k') ↔ is_Some (m !! k').
Proof.
  intros Hk. destruct es as [|e es]; [by rewrite AddErrors_nil|]. destruct (decide (k = k')) as [<-|]; [|by rewrite AddErrors_other].
  rewrite AddErrors_same by done. split; [done|eauto].
Qed.
Lemma AddWarnings_present k k' ws m : is_Some (m !! k) → is_Some (AddWarnings k ws m !! k') ↔ is_Some (m !! k').
Proof.
  intros Hk. destruct ws as [|w ws]; [by rewrite AddWarnings_nil|]. destruct (decide (k = k')) as [<-|]; [|by rewrite AddWarnings_other].
  rewrite AddWarnings_same by done. split; [done|eauto].
Qed.
End Laws.

(** ** One implementation, for examples *)
Inductive SimpleError := ENew (m : string) | EWrap (e : SimpleError) (m : string) | EMulti (a b : SimpleError).
Fixpoint simple_message (e : SimpleError) : string :=
  match e with ENew m => m | EWrap e m => m +:+ ": " +:+ simple_message e | EMulti a b => simple_message a +:+ "; " +:+ simple_message b end.
Fixpoint simple_is (e : SimpleError) (t : string) : bool :=
  match e with ENew m => bool_decide (m = t) | EWrap e m => bool_decide (m = t) || simple_is e t | EMulti _ _ => false end.
#[export] Instance simple_errors : Errors := {|
  error := SimpleError; New := ENew; Wrap := EWrap; Error := simple_message; Is e t := simple_is e (simple_message t);
  multierr_Append o e := match o with None => e | Some a => EMulti a e end |}.
#[export] Instance simple_errors_laws : ErrorsLaws.
Proof. by split. Qed.
#[export] Instance simple_reports : SoloReports := {|
  Find kind ref m := (if m !! (kind, ref) is Some _ then Some (kind, ref) else None, report_of (kind, ref) m);
  AddErrors k es m := match es with [] => m | _ => <[k := append_errors es (report_of k m)]> m end;
  AddWarnings k ws m := match ws with [] => m | _ => <[k := append_warnings ws (report_of k m)]> m end |}.
#[export] Instance simple_reports_laws : SoloReportsLaws.
Proof.
  split; intros; simpl; try done.
  - destruct es; [done|]. by rewrite lookup_insert_eq.
  - destruct es; [done|]. by rewrite lookup_insert_ne.
  - destruct ws; [done|]. by rewrite lookup_insert_eq.
  - destruct ws; [done|]. by rewrite lookup_insert_ne.
Qed.
