(* ===== verification/ProxyReconciler.v ===== *)
(** * Reporting on proxies and reconciling them

    gateway/pkg/reporting (add_proxy_validation_result.go, check_source_reports.go) and
    gateway/pkg/reconciler/proxy_reconciler.go with gateway/pkg/utils/
    proxy_transition_function.go. The report of a translated Proxy is attributed to the
    resources each part of it comes from; parts that come from a rejected resource are
    stripped from the Proxy and those of the stored Proxy are kept instead. Metadata is
    the static form the translators write; the deprecated struct is not read. *)

From stdpp Require Import base gmap strings list fin_maps.
From Stdlib Require Import ZArith.
From S2P Require Import Prelude GoLib GwApi EdgeApi ProxyReports ResourceReports.
Import Edge Validation.

#[export] Instance GatewayMatcher_eq_dec : EqDecision GatewayMatcher.
Proof. solve_decision. Defined.

Inductive ReportingErr :=
| invalidReportsListenersErr
| invalidReportsVirtualHostsErr
| invalidReportsHybridRcNameNotFound
| missingReportForSourceErr.

(** A loop whose body updates the reports and may end the function with an error. *)
Fixpoint each {A R E} (f : A → R → option E * R) (l : list A) (m : R) : option E * R :=
  match l with
  | [] => (None, m)
  | x :: l' => match f x m with (Some e, m') => (Some e, m') | (None, m') => each f l' m' end
  end.
Definition and_then {R E} (p : option E * R) (f : R → option E * R) : option E * R :=
  match p with (Some e, m) => (Some e, m) | (None, m) => f m end.

(** [ForEachSource]; a nil virtual host has no sources. *)
Definition vhost_sources (vh : option GlooVirtualHost) : list SourceRef := from_option ov_sources [] vh.

(** ** Attributing the report of a Proxy *)
Section AddResult.
Context `{!GoRange string, Errors, !SoloReports, MatcherHash}.

Definition getListenerLevelErrors (r : ListenerReport) : list error :=
  GetListenerErr r ++
  match lr_type r with
  | Some (ListenerReport_HttpListenerReport h) => GetHttpListenerErr h
  | Some (ListenerReport_TcpListenerReport t) => GetTcpListenerErr t ++ flat_map GetTcpHostErr (tlr_tcpHostReports t)
  | Some (ListenerReport_HybridListenerReport m) => flat_map (λ '(_, mr),
      match mr with
      | MatchedListenerReport_HttpListenerReport h => GetHttpListenerErr h
      | MatchedListenerReport_TcpListenerReport t => GetTcpListenerErr t ++ flat_map GetTcpHostErr (tlr_tcpHostReports t)
      | MatchedListenerReport_nil => []
      end) (go_range m)
  | Some (ListenerReport_AggregateListenerReport a) => flat_map (λ '(_, h), GetHttpListenerErr h) (go_range (ar_httpListenerReports a))
  | None => []
  end.
Definition getListenerLevelWarnings (r : ListenerReport) : list string := GetListenerWarning r.
Definition getVirtualHostLevelErrorsAndWarnings (r : VirtualHostReport) : list error * list string :=
  (GetVirtualHostErr r ++ flat_map GetRouteErr (vr_routeReports r), flat_map GetRouteWarning (vr_routeReports r)).

(** Errors and warnings are added to every source. *)
Definition add_to_sources (sources : list SourceRef) (errs : list error) (warnings : list string) :
    ResourceReports → option ReportingErr * ResourceReports :=
  each (λ src m,
    match fst (Find (src_kind src) (src_ref src) m) with
    | None => (Some missingReportForSourceErr, m)
    | Some srcResource => (None, AddWarnings srcResource warnings (AddErrors srcResource errs m))
    end) sources.
Definition addListenerResult (listener : EdgeListener) (r : ListenerReport) : ResourceReports → option ReportingErr * ResourceReports :=
  add_to_sources (el_sources listener) (getListenerLevelErrors r) (getListenerLevelWarnings r).
Definition addVirtualHostResult (virtualHost : option GlooVirtualHost) (r : VirtualHostReport) :
    ResourceReports → option ReportingErr * ResourceReports :=
  let '(errs, warnings) := getVirtualHostLevelErrorsAndWarnings r in add_to_sources (vhost_sources virtualHost) errs warnings.

(** The reports of virtual hosts, by position. *)
Definition addVirtualHostResults (virtualHosts : list (option GlooVirtualHost)) (reports : list VirtualHostReport)
    (m : ResourceReports) : option ReportingErr * ResourceReports :=
  if negb (length reports =? length virtualHosts) then (Some invalidReportsVirtualHostsErr, m)
  else each (λ '(vh, r), addVirtualHostResult vh r) (combine virtualHosts reports) m.

(** [GetHttpListener], [GetHybridListener] and [GetAggregateListener]: nil on other types. *)
Definition http_virtualHosts (l : EdgeListener) : list GlooVirtualHost :=
  match el_type l with Listener_HttpListener h => hl_virtualHosts h | _ => [] end.
Definition hybrid_listeners (l : EdgeListener) : list MatchedListener :=
  match el_type l with Listener_HybridListener mls => mls | _ => [] end.
Definition aggregate_of (l : EdgeListener) : AggregateListener :=
  match el_type l with Listener_AggregateListener a => a
  | _ => {| al_virtualHosts := ∅; al_httpOptions := ∅; al_httpFilterChains := []; al_tcpListeners := [] |} end.
(** [matchedListener.GetHttpListener()], its virtual hosts, none for another type. *)
Definition matched_virtualHosts (ml : MatchedListener) : list GlooVirtualHost :=
  match ml_type ml with Some (MatchedListener_HttpListener h) => hl_virtualHosts h | _ => [] end.

Definition mappedHttpListeners (l : EdgeListener) : gmap string (list GlooVirtualHost) :=
  index_by (λ ml, MatchedRouteConfigName l (Some (ml_matcher ml))) matched_virtualHosts (hybrid_listeners l).
Definition mappedVirtualHostRefs (l : EdgeListener) : gmap string (list string) :=
  index_by (λ fc, MatchedRouteConfigName l (fc_matcher fc)) fc_virtualHostRefs (al_httpFilterChains (aggregate_of l)).

Definition add_listener (listener : EdgeListener) (r : ListenerReport) (m : ResourceReports) : option ReportingErr * ResourceReports :=
  and_then (addListenerResult listener r m) (λ m,
    match lr_type r with
    | Some (ListenerReport_HttpListenerReport h) =>
        addVirtualHostResults (map Some (http_virtualHosts listener)) (hr_virtualHostReports h) m
    | Some (ListenerReport_HybridListenerReport mrs) => each (λ '(rcName, mr) m,
        match matched_http mr with
        | None => (None, m)
        | Some h =>
            match mappedHttpListeners listener !! rcName with
            | None => (Some invalidReportsHybridRcNameNotFound, m)
            | Some virtualHosts => addVirtualHostResults (map Some virtualHosts) (hr_virtualHostReports h) m
            end
        end) (go_range mrs) m
    | Some (ListenerReport_AggregateListenerReport a) => each (λ '(reportKey, h) m,
        let virtualHostRefs := default [] (mappedVirtualHostRefs listener !! reportKey) in
        addVirtualHostResults (map (λ ref, al_virtualHosts (aggregate_of listener) !! ref) virtualHostRefs) (hr_virtualHostReports h) m)
        (go_range (ar_httpListenerReports a)) m
    | _ => (None, m)
    end).

Definition AddProxyValidationResult (resourceReports : ResourceReports) (proxy : EdgeProxy) (proxyReport : ProxyReport) :
    option ReportingErr * ResourceReports :=
  if negb (length (pr_listenerReports proxyReport) =? length (px_listeners proxy)) then (Some invalidReportsListenersErr, resourceReports)
  else each (λ '(listener, r), add_listener listener r) (combine (px_listeners proxy) (pr_listenerReports proxyReport)) resourceReports.
End AddResult.

(** ** Stripping what comes from rejected resources *)
Section Strip.
Context `{Errors, !SoloReports}.

Definition AllSourcesAccepted (reports : ResourceReports) (sources : list SourceRef) : bool :=
  forallb (λ src, match rp_errors (snd (Find (src_kind src) (src_ref src) reports)) with Some _ => false | None => true end) sources.

Definition listener_accepted (reports : ResourceReports) (l : EdgeListener) : bool := AllSourcesAccepted reports (el_sources l).
Definition vhost_name (vh : option GlooVirtualHost) : string := from_option ov_name "" vh.

(** Virtual hosts are objects, or nil behind a dangling reference: [sources] and [name]
    read them. *)
Definition validHosts {A} (sources : A → list SourceRef) (name : A → string) (reports : ResourceReports) (vhs : list A) : list A :=
  sort_stable (λ a b, string_lt (name a) (name b)) (List.filter (λ vh, AllSourcesAccepted reports (sources vh)) vhs).
Definition validHostsFromHttpListener : ResourceReports → list GlooVirtualHost → list GlooVirtualHost := validHosts ov_sources ov_name.

Definition with_virtualHosts (vhs : list GlooVirtualHost) (l : HttpListener) : HttpListener :=
  {| hl_virtualHosts := vhs; hl_options := hl_options l |}.
Definition with_matched_http (f : HttpListener → HttpListener) (ml : MatchedListener) : MatchedListener :=
  {| ml_matcher := ml_matcher ml; ml_sslConfigurations := ml_sslConfigurations ml;
     ml_type := match ml_type ml with
                | Some (MatchedListener_HttpListener l) => Some (MatchedListener_HttpListener (f l))
                | t => t end |}.
Definition with_type (t : ListenerType) (l : EdgeListener) : EdgeListener :=
  {| el_name := el_name l; el_bindAddress := el_bindAddress l; el_bindPort := el_bindPort l; el_settings := el_settings l;
     el_type := t; el_sslConfigurations := el_sslConfigurations l; el_sources := el_sources l |}.
Definition with_listeners (ls : list EdgeListener) (p : EdgeProxy) : EdgeProxy :=
  {| px_name := px_name p; px_namespace := px_namespace p; px_listeners := ls |}.

Definition strip_http (reports : ResourceReports) (l : HttpListener) : HttpListener :=
  with_virtualHosts (validHostsFromHttpListener reports (hl_virtualHosts l)) l.
(** The references of a filter chain become the names of its valid virtual hosts. *)
Definition strip_chain (reports : ResourceReports) (a : AggregateListener) (fc : HttpFilterChain) : HttpFilterChain :=
  {| fc_matcher := fc_matcher fc; fc_httpOptionsRef := fc_httpOptionsRef fc;
     fc_virtualHostRefs := map vhost_name (validHosts vhost_sources vhost_name reports (chain_virtualHosts a fc)) |}.
Definition strip_type (reports : ResourceReports) (t : ListenerType) : ListenerType :=
  match t with
  | Listener_HttpListener l => Listener_HttpListener (strip_http reports l)
  | Listener_HybridListener mls => Listener_HybridListener (map (with_matched_http (strip_http reports)) mls)
  | Listener_AggregateListener a => Listener_AggregateListener {|
      al_virtualHosts := al_virtualHosts a; al_httpOptions := al_httpOptions a;
      al_httpFilterChains := map (strip_chain reports a) (al_httpFilterChains a); al_tcpListeners := al_tcpListeners a |}
  | Listener_TcpListener l => Listener_TcpListener l
  end.
Definition strip_listener (reports : ResourceReports) (l : EdgeListener) : EdgeListener := with_type (strip_type reports (el_type l)) l.

Definition sort_listeners : list EdgeListener → list EdgeListener := sort_stable (λ a b, string_lt (el_name a) (el_name b)).
Definition strip_proxy (reports : ResourceReports) (proxy : EdgeProxy) : EdgeProxy :=
  with_listeners (sort_listeners (map (strip_listener reports) (List.filter (listener_accepted reports) (px_listeners proxy)))) proxy.

(** [GeneratedProxies]: the proxies with their reports, in the order of the map. *)
Definition GeneratedProxies : Type := list (EdgeProxy * ResourceReports).
Definition stripInvalidListenersAndVirtualHosts (proxiesToWrite : GeneratedProxies) : GeneratedProxies :=
  map (λ '(proxy, reports), (strip_proxy reports proxy, reports)) proxiesToWrite.

(** ** Keeping what was rejected *)

(** Appended to the desired listener, which is then sorted. *)
Definition copyRejectedVirtualHosts (reports : ResourceReports) (original desired : list GlooVirtualHost) : list GlooVirtualHost :=
  sort_stable (λ a b, string_lt (ov_name a) (ov_name b))
    (desired ++ List.filter (λ vh, negb (AllSourcesAccepted reports (ov_sources vh))) original).

Definition copy_http (reports : ResourceReports) (original : list GlooVirtualHost) (l : HttpListener) : HttpListener :=
  with_virtualHosts (copyRejectedVirtualHosts reports original (hl_virtualHosts l)) l.
(** The last matched listener of the original with an equal matcher. *)
Definition original_matched (originals : list MatchedListener) (matcher : GatewayMatcher) : list GlooVirtualHost :=
  foldl (λ acc oml, if bool_decide (ml_matcher oml = matcher) then matched_virtualHosts oml else acc) [] originals.

Definition transition_type (reports : ResourceReports) (original : EdgeListener) (t : ListenerType) : ListenerType :=
  match t with
  | Listener_HttpListener l => Listener_HttpListener (copy_http reports (http_virtualHosts original) l)
  | Listener_HybridListener mls => Listener_HybridListener (map (λ ml,
      with_matched_http (copy_http reports (original_matched (hybrid_listeners original) (ml_matcher ml))) ml) mls)
  | t => t
  end.
Definition find_listener (name : string) (l : list EdgeListener) : option EdgeListener :=
  List.find (λ x, bool_decide (el_name x = name)) l.
Definition transition_listener (reports : ResourceReports) (original : EdgeProxy) (desired : EdgeListener) : EdgeListener :=
  match find_listener (el_name desired) (px_listeners original) with
  | None => desired
  | Some o => with_type (transition_type reports o (el_type desired)) desired
  end.

(** The desired proxy as the transition function leaves it. *)
Definition transition (reports : ResourceReports) (original desired : EdgeProxy) : EdgeProxy :=
  with_listeners (sort_listeners (map (transition_listener reports original) (px_listeners desired) ++
    List.filter (λ l, negb (listener_accepted reports l)) (px_listeners original))) desired.
End Strip.

(** The generated [Equal] of listeners and [hashutils.HashableEqual] of proxies. *)
Class GeneratedEqual := { listener_Equal : EdgeListener → EdgeListener → bool; HashableEqual : EdgeProxy → EdgeProxy → bool }.

(** Whether the proxy is to be written, and whether the status of the stored one is kept. *)
Definition TransitionFunction `{GeneratedEqual} (original desired : EdgeProxy) : bool * bool :=
  let changed := negb (length (px_listeners original) =? length (px_listeners desired)) ||
    existsb (λ '(o, d), negb (listener_Equal o d)) (combine (px_listeners original) (px_listeners desired)) in
  (changed, changed && HashableEqual original desired).

Definition transitionFunc `{Errors, !SoloReports, GeneratedEqual} (reports : ResourceReports) (original desired : EdgeProxy) :
    EdgeProxy * (bool * bool) :=
  let desired' := transition reports original desired in (desired', TransitionFunction original desired').

(** ** The reconciler *)
Inductive ReconcileErr :=
| ProxyValidationFailed (msg : string)
| UnexpectedReportCount (n : nat)
| AddResultFailed (e : ReportingErr).

Section Reconcile.
Context `{!GoRange string, Errors, !SoloReports, MatcherHash}.
(** The validation service of gloo, and the order of metadata. *)
Variable proxyValidator : option (EdgeProxy → string + list ProxyReport).
Variable less : EdgeProxy → EdgeProxy → bool.

Fixpoint addProxyValidationResults_loop (validate : EdgeProxy → string + list ProxyReport) (proxiesToWrite : GeneratedProxies) :
    ReconcileErr + GeneratedProxies :=
  match proxiesToWrite with
  | [] => inr []
  | (proxy, reports) :: rest =>
      match validate proxy with
      | inl msg => inl (ProxyValidationFailed msg)
      | inr [r] =>
          match AddProxyValidationResult reports proxy r with
          | (Some e, _) => inl (AddResultFailed e)
          | (None, reports') =>
              match addProxyValidationResults_loop validate rest with
              | inl e => inl e
              | inr rest' => inr ((proxy, reports') :: rest')
              end
          end
      | inr l => inl (UnexpectedReportCount (length l))
      end
  end.
Definition addProxyValidationResults (proxiesToWrite : GeneratedProxies) : ReconcileErr + GeneratedProxies :=
  match proxyValidator with None => inr proxiesToWrite | Some validate => addProxyValidationResults_loop validate proxiesToWrite end.

(** The proxies given to the base reconciler, each with the reports its transition uses. *)
Definition ReconcileProxies (proxiesToWrite : GeneratedProxies) : ReconcileErr + GeneratedProxies :=
  match addProxyValidationResults proxiesToWrite with
  | inl e => inl e
  | inr proxies => inr (sort_stable (λ a b, less (fst a) (fst b)) (stripInvalidListenersAndVirtualHosts proxies))
  end.
End Reconcile.
