(* ===== verification/ProxyReconcilerFacts.v ===== *)
(** * Facts about the reconciliation of proxies

    The report of a translated Proxy reaches exactly the resources it comes from, and the
    Proxy that is written serves what comes from accepted resources, together with what
    the stored Proxy served from resources that are now rejected, on HTTP and hybrid
    listeners; on an aggregate listener that is still accepted, that is lost. *)

From stdpp Require Import base gmap strings list fin_maps sorting.
From S2P Require Import Prelude GoLib GwApi EdgeApi ProxyReports ResourceReports ProxyReconciler.
Import Edge Validation.

(** ** Maps written in a loop *)
Definition last_with {A} (P : A → bool) (l : list A) : option A := foldl (λ acc x, if P x then Some x else acc) None l.

Lemma last_with_snoc {A} (P : A → bool) l x : last_with P (l ++ [x]) = if P x then Some x else last_with P l.
Proof. unfold last_with. by rewrite foldl_app. Qed.
Lemma last_with_elem {A} (P : A → bool) l x : last_with P l = Some x → x ∈ l ∧ P x = true.
Proof.
  induction l as [|y l IH] using rev_ind; [done|]. rewrite last_with_snoc. destruct (P y) eqn:Hy; [intros [= ->]; set_solver|].
  intros Hx. apply IH in Hx. set_solver.
Qed.
Lemma index_by_lookup {A V} (key : A → string) (value : A → V) l k :
  index_by key value l !! k = value <$> last_with (λ x, bool_decide (key x = k)) l.
Proof.
  induction l as [|x l IH] using rev_ind; [done|]. rewrite last_with_snoc. unfold index_by in *. rewrite foldl_app. simpl.
  case_bool_decide as Hk; [by rewrite <-Hk, lookup_insert_eq|by rewrite lookup_insert_ne].
Qed.

(** ** Attribution *)
Section AddResult.
Context `{!GoRange string, Errors, !SoloReports, !SoloReportsLaws, MatcherHash}.

(** A report with its errors and warnings erased: its shape. *)
Definition clear_vhost (r : VirtualHostReport) : VirtualHostReport :=
  {| vr_errors := []; vr_routeReports := map (λ _, empty_routeReport) (vr_routeReports r) |}.
Definition clear_http (r : HttpListenerReport) : HttpListenerReport :=
  {| hr_errors := []; hr_virtualHostReports := map clear_vhost (hr_virtualHostReports r) |}.
Definition clear_tcp (r : TcpListenerReport) : TcpListenerReport :=
  {| tlr_errors := []; tlr_tcpHostReports := map (λ _, empty_tcpHostReport) (tlr_tcpHostReports r) |}.
Definition clear_matched (r : MatchedListenerReport) : MatchedListenerReport :=
  match r with
  | MatchedListenerReport_HttpListenerReport h => MatchedListenerReport_HttpListenerReport (clear_http h)
  | MatchedListenerReport_TcpListenerReport t => MatchedListenerReport_TcpListenerReport (clear_tcp t)
  | MatchedListenerReport_nil => MatchedListenerReport_nil
  end.
Definition clear_type (t : ListenerTypeReport) : ListenerTypeReport :=
  match t with
  | ListenerReport_HttpListenerReport h => ListenerReport_HttpListenerReport (clear_http h)
  | ListenerReport_TcpListenerReport t => ListenerReport_TcpListenerReport (clear_tcp t)
  | ListenerReport_HybridListenerReport m => ListenerReport_HybridListenerReport (clear_matched <$> m)
  | ListenerReport_AggregateListenerReport a => ListenerReport_AggregateListenerReport {|
      ar_httpListenerReports := clear_http <$> ar_httpListenerReports a; ar_tcpListenerReports := clear_tcp <$> ar_tcpListenerReports a |}
  end.
Definition clear_listener (r : ListenerReport) : ListenerReport :=
  {| lr_errors := []; lr_warnings := []; lr_type := option_map clear_type (lr_type r) |}.
Definition clear (r : ProxyReport) : ProxyReport := {| pr_listenerReports := map clear_listener (pr_listenerReports r) |}.

(** What is attributed: the sources of a listener or virtual host, its errors, its warnings. *)
Definition Attribution : Type := list SourceRef * list error * list string.
Definition vhost_attribution (p : option GlooVirtualHost * VirtualHostReport) : Attribution :=
  let '(errs, warnings) := getVirtualHostLevelErrorsAndWarnings (snd p) in (vhost_sources (fst p), errs, warnings).
Definition vhost_pairs (listener : EdgeListener) (r : ListenerReport) : list (option GlooVirtualHost * VirtualHostReport) :=
  match lr_type r with
  | Some (ListenerReport_HttpListenerReport h) => combine (map Some (http_virtualHosts listener)) (hr_virtualHostReports h)
  | Some (ListenerReport_HybridListenerReport m) => flat_map (λ '(rcName, mr),
      combine (map Some (default [] (mappedHttpListeners listener !! rcName))) (from_option hr_virtualHostReports [] (matched_http mr))) (go_range m)
  | Some (ListenerReport_AggregateListenerReport a) => flat_map (λ '(key, h),
      combine (map (λ ref, al_virtualHosts (aggregate_of listener) !! ref) (default [] (mappedVirtualHostRefs listener !! key)))
        (hr_virtualHostReports h)) (go_range (ar_httpListenerReports a))
  | _ => []
  end.
Definition listener_attributions (p : EdgeListener * ListenerReport) : list Attribution :=
  (el_sources (fst p), getListenerLevelErrors (snd p), getListenerLevelWarnings (snd p)) :: map vhost_attribution (vhost_pairs (fst p) (snd p)).
Definition attributions (proxy : EdgeProxy) (r : ProxyReport) : list Attribution :=
  flat_map listener_attributions (combine (px_listeners proxy) (pr_listenerReports r)).

Definition src_key (src : SourceRef) : string * NamespacedName := (src_kind src, src_ref src).
(** The errors and warnings of an attribution for one resource. *)
Definition blamed (k : string * NamespacedName) (a : Attribution) : list error :=
  flat_map (λ src, if decide (src_key src = k) then a.1.2 else []) a.1.1.
Definition warned (k : string * NamespacedName) (a : Attribution) : list string :=
  flat_map (λ src, if decide (src_key src = k) then a.2 else []) a.1.1.
(** Errors of the TCP listeners of an aggregate listener. *)
Definition aggregate_tcp_errors (r : ListenerReport) : list error :=
  match lr_type r with
  | Some (ListenerReport_AggregateListenerReport a) => flat_map (λ '(_, t), getTcpListenerReportErrs t) (go_range (ar_tcpListenerReports a))
  | _ => []
  end.

(** The reports after some attributions. *)
Definition attributed (m : ResourceReports) (l : list Attribution) (m' : ResourceReports) : Prop :=
  (∀ k, is_Some (m' !! k) ↔ is_Some (m !! k)) ∧
  ∀ k, rp_warnings (report_of k m') = rp_warnings (report_of k m) ++ flat_map (warned k) l ∧
       errors_of (report_of k m') = errors_of (report_of k m) ++ flat_map (blamed k) l.
Definition known (m : ResourceReports) (a : Attribution) : Prop := Forall (λ src, is_Some (m !! src_key src)) a.1.1.

Lemma attributed_nil m : attributed m [] m.
Proof. split; [done|]. intros k. by rewrite !app_nil_r. Qed.
Lemma attributed_app m l1 m1 l2 m2 : attributed m l1 m1 → attributed m1 l2 m2 → attributed m (l1 ++ l2) m2.
Proof.
  intros [Hp1 Hm1] [Hp2 Hm2]. split; [intros k; by rewrite Hp2|]. intros k. rewrite !flat_map_app, !(assoc_L (++)).
  specialize (Hm2 k). destruct (Hm1 k) as [<- <-]. exact Hm2.
Qed.
Lemma attributed_known m l m' a : attributed m l m' → known m a → known m' a.
Proof. intros [Hp _] Ha. eapply Forall_impl; [exact Ha|]. intros src. by rewrite Hp. Qed.

(** One source. *)
Lemma attributed_one m src errs warnings : is_Some (m !! src_key src) →
  attributed m [([src], errs, warnings)] (AddWarnings (src_key src) warnings (AddErrors (src_key src) errs m)).
Proof.
  intros Hk. split.
  - intros k. rewrite AddWarnings_present, AddErrors_present by (try apply AddErrors_present; done). done.
  - intros k. rewrite report_of_AddWarnings, report_of_AddErrors. unfold blamed, warned. simpl. rewrite !app_nil_r. case_decide; simpl.
    + by rewrite <-errors_of_append.
    + by rewrite !app_nil_r.
Qed.

Lemma attributed_split m srcs1 srcs2 errs ws m' :
  attributed m [(srcs1, errs, ws); (srcs2, errs, ws)] m' → attributed m [(srcs1 ++ srcs2, errs, ws)] m'.
Proof.
  intros [Hp Ha]. split; [done|]. intros k. specialize (Ha k). unfold blamed, warned in *. simpl in *.
  by rewrite !app_nil_r, !flat_map_app in *.
Qed.

Lemma add_to_sources_ok srcs errs ws m : known m (srcs, errs, ws) →
  ∃ m', add_to_sources srcs errs ws m = (None, m') ∧ attributed m [(srcs, errs, ws)] m'.
Proof.
  unfold add_to_sources, known. simpl. revert m. induction srcs as [|src srcs IH]; intros m Hk; simpl.
  - exists m. split; [done|]. split; [done|]. intros k. by rewrite !app_nil_r.
  - apply Forall_cons in Hk as [[r Hr] Hk]. rewrite Find_spec. unfold src_key in Hr. rewrite Hr. simpl.
    pose proof (attributed_one m src errs ws) as Hone. destruct Hone as [Hp Ha]; [by eexists|].
    fold (src_key src) in Hp, Ha |- *.
    destruct (IH (AddWarnings (src_key src) ws (AddErrors (src_key src) errs m))) as (m' & Hrun & Hm').
    { eapply Forall_impl; [exact Hk|]. intros s. by rewrite Hp. }
    exists m'. split; [done|]. apply (attributed_split m [src] srcs). 
    eapply (attributed_app _ [([src], errs, ws)] _ [(srcs, errs, ws)]); [by split|done].
Qed.

(** ** Loops over what is attributed *)
Lemma each_attributed {A} (f : A → ResourceReports → option ReportingErr * ResourceReports) (g : A → list Attribution) l :
  (∀ x m, x ∈ l → Forall (known m) (g x) → ∃ m', f x m = (None, m') ∧ attributed m (g x) m') →
  ∀ m, Forall (known m) (flat_map g l) → ∃ m', each f l m = (None, m') ∧ attributed m (flat_map g l) m'.
Proof.
  induction l as [|x l IH]; intros Hf m Hk; simpl in *; [exists m; split; [done|apply attributed_nil]|].
  apply Forall_app in Hk as [Hx Hl]. destruct (Hf x m) as (m1 & -> & Hm1); [by left|done|].
  destruct (IH (λ y m Hy, Hf y m (list_elem_of_further _ _ _ Hy)) m1) as (m2 & Hrun & Hm2).
  { eapply Forall_impl; [exact Hl|]. intros a. by eapply attributed_known. }
  exists m2. split; [done|]. by eapply attributed_app.
Qed.

Lemma addVirtualHostResults_ok vhs rs m : length rs = length vhs → Forall (known m) (map vhost_attribution (combine vhs rs)) →
  ∃ m', addVirtualHostResults vhs rs m = (None, m') ∧ attributed m (map vhost_attribution (combine vhs rs)) m'.
Proof.
  intros Hlen Hk. unfold addVirtualHostResults. rewrite Hlen, Nat.eqb_refl. simpl.
  rewrite (map_flat_map vhost_attribution) in *. apply (each_attributed _ (λ p, [vhost_attribution p])); [|done].
  intros [vh r] m0 _ Hk0. apply (add_to_sources_ok _ _ _ _ (Forall_inv Hk0)).
Qed.

(** A listener and a report of its shape. *)
Lemma fits_http vhs h : clear_http h = httpListenerReport vhs → length (hr_virtualHostReports h) = length vhs.
Proof.
  intros Hc. apply (f_equal (λ r, length (hr_virtualHostReports r))) in Hc. simpl in Hc. unfold makeVhostReports in Hc.
  rewrite !length_map in Hc. exact Hc.
Qed.

Lemma hybrid_lookup listener mls mrs rcName h : el_type listener = Listener_HybridListener mls →
  clear_matched <$> mrs = index_by (λ ml, MatchedRouteConfigName listener (Some (ml_matcher ml))) matchedListenerReport mls →
  mrs !! rcName = Some (MatchedListenerReport_HttpListenerReport h) →
  ∃ vhs, mappedHttpListeners listener !! rcName = Some vhs ∧ length (hr_virtualHostReports h) = length (map Some vhs).
Proof.
  intros Ht Hc Hm. apply (f_equal (lookup rcName)) in Hc. rewrite lookup_fmap, Hm, index_by_lookup in Hc. simpl in Hc.
  unfold mappedHttpListeners, hybrid_listeners. rewrite Ht, index_by_lookup. destruct (last_with _ mls) as [ml|]; [|done].
  injection Hc as Hc. exists (matched_virtualHosts ml). split; [done|]. unfold matchedListenerReport in Hc. unfold matched_virtualHosts.
  destruct (ml_type ml) as [[l|l]|]; [|done|done]. apply fits_http. congruence.
Qed.
Lemma aggregate_lookup listener a hs key h : el_type listener = Listener_AggregateListener a →
  clear_http <$> hs = index_by (λ fc, MatchedRouteConfigName listener (fc_matcher fc))
    (λ fc, httpListenerReport (chain_virtualHosts a fc)) (al_httpFilterChains a) →
  hs !! key = Some h →
  length (hr_virtualHostReports h) =
    length (map (λ ref, al_virtualHosts a !! ref) (default [] (mappedVirtualHostRefs listener !! key))).
Proof.
  intros Ht Hc Hm. apply (f_equal (lookup key)) in Hc. rewrite lookup_fmap, Hm, index_by_lookup in Hc. simpl in Hc.
  unfold mappedVirtualHostRefs, aggregate_of. rewrite Ht, index_by_lookup. destruct (last_with _ _) as [fc|]; [|done].
  apply fits_http. injection Hc as Hc. unfold clear_http, httpListenerReport. by f_equal.
Qed.

Lemma add_listener_ok listener r m :
  option_map clear_type (lr_type r) = Some (listenerTypeReport listener) →
  Forall (known m) (listener_attributions (listener, r)) →
  ∃ m', add_listener listener r m = (None, m') ∧ attributed m (listener_attributions (listener, r)) m'.
Proof.
  intros Hfit Hk. unfold listener_attributions in *. cbn [fst snd] in *. apply Forall_cons in Hk as [Hl Hk].
  destruct (add_to_sources_ok _ _ _ _ Hl) as (m1 & Hrun & Hm1).
  assert (Forall (known m1) (map vhost_attribution (vhost_pairs listener r))) as Hk1.
  { eapply Forall_impl; [exact Hk|]. intros a. by eapply attributed_known. }
  unfold add_listener, addListenerResult. rewrite Hrun. cbn [and_then].
  enough (∃ m2, (match lr_type r with
    | Some (ListenerReport_HttpListenerReport h) => addVirtualHostResults (map Some (http_virtualHosts listener)) (hr_virtualHostReports h) m1
    | Some (ListenerReport_HybridListenerReport mrs) => each (λ '(rcName, mr) m,
        match matched_http mr with
        | None => (None, m)
        | Some h =>
            match mappedHttpListeners listener !! rcName with
            | None => (Some invalidReportsHybridRcNameNotFound, m)
            | Some virtualHosts => addVirtualHostResults (map Some virtualHosts) (hr_virtualHostReports h) m
            end
        end) (go_range mrs) m1
    | Some (ListenerReport_AggregateListenerReport a) => each (λ '(reportKey, h) m,
        addVirtualHostResults (map (λ ref, al_virtualHosts (aggregate_of listener) !! ref) (default [] (mappedVirtualHostRefs listener !! reportKey))) (hr_virtualHostReports h) m)
        (go_range (ar_httpListenerReports a)) m1
    | _ => (None, m1) end = (None, m2)) ∧ attributed m1 (map vhost_attribution (vhost_pairs listener r)) m2) as (m2 & Hrun2 & Hm2).
  { exists m2. split; [exact Hrun2|]. eapply (attributed_app _ [_] _ _); [exact Hm1|exact Hm2]. }
  unfold vhost_pairs in *. unfold listenerTypeReport in Hfit. clear Hrun Hm1 Hl Hk.
  destruct (lr_type r) as [t|]; [|done]. simpl in Hfit. injection Hfit as Hfit.
  destruct t as [h|tcp|mrs|a]; destruct (el_type listener) as [l|l|mls|al] eqn:Ht; simplify_eq/=.
  - apply addVirtualHostResults_ok; [|done]. unfold http_virtualHosts. rewrite Ht. apply fits_http. unfold clear_http, httpListenerReport. by f_equal.
  - exists m1. split; [done|apply attributed_nil].
  - rewrite map_of_flat_map in *. apply (each_attributed _ _ _); [|exact Hk1].
    intros [rcName mr] m0 Hin Hk0. apply go_range_elem in Hin. destruct mr as [h|tcp|]; simpl in *.
    + destruct (hybrid_lookup _ _ _ _ _ Ht Hfit Hin) as (vhs & Hvhs & Hlen). rewrite Hvhs in *. by apply addVirtualHostResults_ok.
    + rewrite combine_nil. exists m0. split; [done|apply attributed_nil].
    + rewrite combine_nil. exists m0. split; [done|apply attributed_nil].
  - rewrite map_of_flat_map in *. apply (each_attributed _ _ _); [|exact Hk1].
    intros [key h] m0 Hin Hk0. apply go_range_elem in Hin. apply addVirtualHostResults_ok; [|done].
    unfold aggregate_of. rewrite Ht. by eapply aggregate_lookup.
Qed.

(** ** No error is lost *)
Definition vhost_errors (r : VirtualHostReport) : list error := GetVirtualHostErr r ++ flat_map GetRouteErr (vr_routeReports r).

Lemma pairs_errors vhs rs : length rs = length vhs →
  flat_map (λ a : Attribution, a.1.2) (map vhost_attribution (combine vhs rs)) = flat_map vhost_errors rs.
Proof.
  intros Hlen. rewrite flat_map_of_map. revert rs Hlen. induction vhs as [|vh vhs IH]; intros [|r rs] [=]; simpl; [done|]. by rewrite IH.
Qed.

Lemma listener_errors_perm listener r :
  option_map clear_type (lr_type r) = Some (listenerTypeReport listener) →
  GetListenerError r ≡ₚ flat_map (λ a : Attribution, a.1.2) (listener_attributions (listener, r)) ++ aggregate_tcp_errors r.
Proof.
  intros Hfit. unfold GetListenerError, listener_attributions, getListenerLevelErrors, aggregate_tcp_errors, vhost_pairs. simpl.
  rewrite <-!(assoc_L (++)). f_equiv. unfold listenerTypeReport in Hfit.
  destruct (lr_type r) as [t|]; [|done]. simpl in Hfit. injection Hfit as Hfit.
  destruct t as [h|tcp|mrs|a]; destruct (el_type listener) as [l|l|mls|al] eqn:Ht; simplify_eq/=.
  - rewrite app_nil_r. unfold http_virtualHosts. rewrite Ht, pairs_errors; [done|]. apply fits_http. unfold clear_http, httpListenerReport. by f_equal.
  - by rewrite app_nil_r.
  - rewrite app_nil_r, map_of_flat_map, flat_map_flat_map, <-flat_map_app_perm. apply flat_map_perm_ext. intros [rcName mr] Hin.
    apply go_range_elem in Hin. destruct mr as [h|tcp|]; simpl.
    + destruct (hybrid_lookup _ _ _ _ _ Ht Hfit Hin) as (vhs & Hvhs & Hlen). by rewrite Hvhs, pairs_errors.
    + by rewrite combine_nil, app_nil_r.
    + by rewrite combine_nil.
  - rewrite (assoc_L (++)). f_equiv. rewrite map_of_flat_map, flat_map_flat_map, <-flat_map_app_perm. apply flat_map_perm_ext. intros [key h] Hin.
    apply go_range_elem in Hin. rewrite pairs_errors; [done|]. unfold aggregate_of. rewrite Ht. by eapply aggregate_lookup.
Qed.

(** The parts of a report of the shape of its proxy. *)
Lemma clear_parts proxy r : clear r = MakeReport proxy →
  Forall2 (λ listener lr, option_map clear_type (lr_type lr) = Some (listenerTypeReport listener)) (px_listeners proxy) (pr_listenerReports r).
Proof.
  unfold clear, MakeReport. intros [= Hc]. revert Hc. generalize (pr_listenerReports r). induction (px_listeners proxy) as [|l ls IH]; intros [|lr lrs] [=]; constructor; eauto.
Qed.

(** Each error of the report of a Proxy is added to the sources of the listener or virtual
    host it is about, in order, and nothing else changes, when the report has the shape of
    the Proxy (it is [MakeReport] with errors and warnings appended) and each source has a
    report. Only errors of the TCP listeners of aggregate listeners go nowhere. *)
Theorem AddProxyValidationResult_exact m proxy r :
  clear r = MakeReport proxy → Forall (known m) (attributions proxy r) →
  ∃ m', AddProxyValidationResult m proxy r = (None, m') ∧ attributed m (attributions proxy r) m' ∧
    proxy_errors r ≡ₚ flat_map (λ a : Attribution, a.1.2) (attributions proxy r) ++ flat_map aggregate_tcp_errors (pr_listenerReports r).
Proof.
  intros Hfit Hk. apply clear_parts in Hfit. unfold AddProxyValidationResult. rewrite (Forall2_length _ _ _ Hfit), Nat.eqb_refl. simpl.
  destruct (each_attributed (λ '(listener, lr), add_listener listener lr) listener_attributions
    (combine (px_listeners proxy) (pr_listenerReports r))) with (m := m) as (m' & Hrun & Hm'); [|exact Hk|].
  { intros [listener lr] m0 Hin. apply add_listener_ok. apply list_elem_of_In in Hin.
    clear -Hfit Hin. induction Hfit; [done|]. destruct Hin as [[= <- <-]|Hin]; auto. }
  exists m'. split; [done|]. split; [done|]. unfold proxy_errors, attributions. clear -Hfit.
  induction Hfit as [|listener lr ls lrs Hl Hfit IH]; cbn [flat_map combine]; [done|]. rewrite (listener_errors_perm _ _ Hl), IH, flat_map_app, <-!(assoc_L (++)). f_equiv.
  rewrite !(assoc_L (++)). f_equiv. apply Permutation_app_comm.
Qed.
End AddResult.

(** ** What a reconciled proxy serves *)
Section Serves.
Context `{Errors, !SoloReports}.

Definition serves (l : EdgeListener) (vh : GlooVirtualHost) : Prop :=
  match el_type l with
  | Listener_HttpListener h => vh ∈ hl_virtualHosts h
  | Listener_HybridListener mls => ∃ ml, ml ∈ mls ∧ vh ∈ matched_virtualHosts ml
  | Listener_AggregateListener a => ∃ fc, fc ∈ al_httpFilterChains a ∧ Some vh ∈ chain_virtualHosts a fc
  | Listener_TcpListener _ => False
  end.
Definition serves_on (p : EdgeProxy) (name : string) (vh : GlooVirtualHost) : Prop :=
  ∃ l, l ∈ px_listeners p ∧ el_name l = name ∧ serves l vh.

(** Aggregate listeners store their virtual hosts by name, and their chains refer to those,
    as the translators build them. *)
Definition by_name (l : EdgeListener) : Prop :=
  match el_type l with
  | Listener_AggregateListener a => map_Forall (λ k vh, ov_name vh = k) (al_virtualHosts a) ∧
      ∀ fc ref, fc ∈ al_httpFilterChains a → ref ∈ fc_virtualHostRefs fc → is_Some (al_virtualHosts a !! ref)
  | _ => True
  end.
Definition is_http (ml : MatchedListener) : Prop :=
  match ml_type ml with Some (MatchedListener_HttpListener _) => True | _ => False end.

(** The virtual hosts of a stored listener that a listener keeps if they are rejected:
    those of an HTTP listener, and of the matched listener with an equal matcher. Aggregate
    listeners keep none: the transition function has no case for them. *)
Definition keeps (o l : EdgeListener) (vh : GlooVirtualHost) : Prop :=
  match el_type l with
  | Listener_HttpListener _ => vh ∈ http_virtualHosts o
  | Listener_HybridListener mls => ∃ ml, ml ∈ mls ∧ is_http ml ∧ vh ∈ original_matched (hybrid_listeners o) (ml_matcher ml)
  | Listener_AggregateListener _ | Listener_TcpListener _ => False
  end.

Variable reports : ResourceReports.
Definition accepted (vh : GlooVirtualHost) : Prop := AllSourcesAccepted reports (ov_sources vh) = true.

Lemma validHosts_elem {A} (sources : A → list SourceRef) name vhs x :
  x ∈ validHosts sources name reports vhs ↔ x ∈ vhs ∧ AllSourcesAccepted reports (sources x) = true.
Proof. unfold validHosts. by rewrite sort_stable_perm, elem_of_filter_bool. Qed.

Lemma copyRejected_elem original desired vh :
  vh ∈ copyRejectedVirtualHosts reports original desired ↔ vh ∈ desired ∨ (vh ∈ original ∧ ¬ accepted vh).
Proof.
  unfold copyRejectedVirtualHosts, accepted. rewrite sort_stable_perm, elem_of_app, elem_of_filter_bool, negb_true_iff.
  by rewrite <-not_true_iff_false.
Qed.

Lemma with_matched_http_elem f ml vh :
  vh ∈ matched_virtualHosts (with_matched_http f ml) ↔ is_http ml ∧ ∃ h, ml_type ml = Some (MatchedListener_HttpListener h) ∧ vh ∈ hl_virtualHosts (f h).
Proof.
  unfold matched_virtualHosts, with_matched_http, is_http. simpl. destruct (ml_type ml) as [[h|t]|]; [|set_solver..].
  split; [eauto|]. by intros (_ & h' & [= <-] & Hh).
Qed.
Lemma matched_is_http ml vh : vh ∈ matched_virtualHosts ml ↔ ∃ h, ml_type ml = Some (MatchedListener_HttpListener h) ∧ vh ∈ hl_virtualHosts h.
Proof. unfold matched_virtualHosts. destruct (ml_type ml) as [[h|t]|]; [|set_solver..]. split; [eauto|]. by intros (h' & [= <-] & Hh). Qed.

Lemma strip_chain_elem a fc vh :
  map_Forall (λ k vh, ov_name vh = k) (al_virtualHosts a) → (∀ ref, ref ∈ fc_virtualHostRefs fc → is_Some (al_virtualHosts a !! ref)) →
  Some vh ∈ map (λ ref, al_virtualHosts a !! ref) (fc_virtualHostRefs (strip_chain reports a fc)) ↔
  Some vh ∈ chain_virtualHosts a fc ∧ accepted vh.
Proof.
  intros Hn Hrefs. simpl. rewrite list_elem_of_fmap. split.
  - intros (ref & Href & Hin). apply list_elem_of_fmap in Hin as (x & -> & Hx). apply validHosts_elem in Hx as [Hx Ha].
    pose proof Hx as Hx'. apply list_elem_of_fmap in Hx' as (ref0 & -> & Hin0). destruct (Hrefs _ Hin0) as [vh0 Hvh0].
    rewrite Hvh0 in *. simpl in *. rewrite (Hn _ _ Hvh0), Hvh0 in Href. injection Href as ->. done.
  - intros [Hin Ha]. exists (ov_name vh). pose proof Hin as Hin'. apply list_elem_of_fmap in Hin' as (ref & Href & _). symmetry in Href.
    rewrite (Hn _ _ Href). split; [done|]. apply list_elem_of_fmap. exists (Some vh). split; [simpl; symmetry; by apply Hn|].
    by apply validHosts_elem.
Qed.

Lemma strip_serves l vh : by_name l → serves (strip_listener reports l) vh ↔ serves l vh ∧ accepted vh.
Proof.
  unfold serves, strip_listener, by_name. simpl. destruct (el_type l) as [h|t|mls|a]; simpl; intros Hn.
  - apply (validHosts_elem ov_sources).
  - tauto.
  - split.
    + intros (ml & Hml & Hin). apply list_elem_of_fmap in Hml as (ml0 & -> & Hml).
      apply with_matched_http_elem in Hin as (_ & h & Ht & Hin).
      apply (validHosts_elem ov_sources) in Hin as [Hin Ha]. split; [|done]. exists ml0. split; [done|]. apply matched_is_http. eauto.
    + intros [(ml & Hml & Hin) Ha]. apply matched_is_http in Hin as (h & Ht & Hin). exists (with_matched_http (strip_http reports) ml).
      split; [apply list_elem_of_fmap; eauto|]. apply with_matched_http_elem. split; [unfold is_http; by rewrite Ht|]. exists h. split; [done|].
      by apply (validHosts_elem ov_sources).
  - destruct Hn as [Hn Hrefs]. split.
    + intros (fc & Hfc & Hin). apply list_elem_of_fmap in Hfc as (fc0 & -> & Hfc). unfold chain_virtualHosts in Hin. simpl in Hin.
      apply (strip_chain_elem a fc0 vh Hn (λ ref, Hrefs fc0 ref Hfc)) in Hin as [Hin Ha]. split; [|done]. by exists fc0.
    + intros [(fc & Hfc & Hin) Ha]. exists (strip_chain reports a fc). split; [apply list_elem_of_fmap; eauto|].
      by apply (strip_chain_elem a fc vh Hn (λ ref, Hrefs fc ref Hfc)).
Qed.

Lemma keeps_strip o l vh : keeps o (strip_listener reports l) vh ↔ keeps o l vh.
Proof.
  unfold keeps, strip_listener. simpl. destruct (el_type l) as [h|t|mls|a]; simpl; [done|done| |done]. split.
  - intros (ml & Hml & Hh & Hin). apply list_elem_of_fmap in Hml as (ml0 & -> & Hml). exists ml0. split; [done|]. split; [|done].
    unfold is_http in *. simpl in Hh. by destruct (ml_type ml0) as [[]|].
  - intros (ml & Hml & Hh & Hin). exists (with_matched_http (strip_http reports) ml). split; [apply list_elem_of_fmap; eauto|].
    split; [|done]. unfold is_http in *. simpl. by destruct (ml_type ml) as [[]|].
Qed.

Lemma transition_serves o l vh :
  serves (with_type (transition_type reports o (el_type l)) l) vh ↔ serves l vh ∨ (keeps o l vh ∧ ¬ accepted vh).
Proof.
  unfold serves, keeps. simpl. destruct (el_type l) as [h|t|mls|a]; simpl; [|tauto| |tauto].
  - apply copyRejected_elem.
  - split.
    + intros (ml & Hml & Hin). apply list_elem_of_fmap in Hml as (ml0 & -> & Hml).
      apply with_matched_http_elem in Hin as (Hh & h & Ht & Hin). apply copyRejected_elem in Hin as [Hin|[Hin Ha]].
      * left. exists ml0. split; [done|]. apply matched_is_http. eauto.
      * right. eauto.
    + intros [(ml & Hml & Hin)|[(ml & Hml & Hh & Hin) Ha]];
        (eexists; split; [apply list_elem_of_fmap; exists ml; split; [done|done]|]); apply with_matched_http_elem.
      * apply matched_is_http in Hin as (h & Ht & Hin). split; [unfold is_http; by rewrite Ht|]. exists h. split; [done|].
        apply copyRejected_elem. by left.
      * split; [done|]. unfold is_http in Hh. destruct (ml_type ml) as [[h|]|]; [|done..]. exists h. split; [done|].
        apply copyRejected_elem. by right.
Qed.

Lemma keeps_serves o l vh : keeps o l vh → serves o vh.
Proof.
  unfold keeps, serves, http_virtualHosts, hybrid_listeners. destruct (el_type l); [|done| |done].
  - destruct (el_type o); set_solver.
  - intros (ml & _ & _ & Hin). destruct (el_type o) as [| |mls|]; [set_solver..| |set_solver].
    unfold original_matched in Hin. revert Hin. generalize (ml_matcher ml) as m. intros m.
    induction mls as [|x mls IH] using rev_ind; [set_solver|]. rewrite foldl_app. simpl. case_bool_decide; [intros; exists x; set_solver|].
    intros Hin. destruct (IH Hin) as (y & Hy & Hv). exists y. set_solver.
Qed.

Lemma find_listener_elem name ls o : find_listener name ls = Some o → o ∈ ls ∧ el_name o = name.
Proof. intros Hf. apply find_some in Hf as [Hin Hn]. by rewrite bool_decide_eq_true, <-list_elem_of_In in *. Qed.

Lemma transition_listener_name original l : el_name (transition_listener reports original l) = el_name l.
Proof. unfold transition_listener. by destruct (find_listener _ _). Qed.

Lemma transition_listener_serves original l vh : serves (transition_listener reports original l) vh ↔
  serves l vh ∨ (∃ o, find_listener (el_name l) (px_listeners original) = Some o ∧ keeps o l vh ∧ ¬ accepted vh).
Proof.
  unfold transition_listener. destruct (find_listener _ _) as [o|].
  - rewrite transition_serves. split; [intros [?|?]; eauto|intros [?|(? & [= <-] & ?)]; eauto].
  - split; [eauto|intros [?|(? & [=] & _)]; done].
Qed.

Lemma reconciled_listener_serves original l vh : by_name l → serves (transition_listener reports original (strip_listener reports l)) vh ↔
  (serves l vh ∧ accepted vh) ∨ (∃ o, find_listener (el_name l) (px_listeners original) = Some o ∧ keeps o l vh ∧ ¬ accepted vh).
Proof.
  intros Hn. rewrite transition_listener_serves, strip_serves by done. f_equiv. split; intros (o & Hf & Hk & Ha);
    (exists o; split; [done|]; split; [by apply (keeps_strip o l vh)|done]).
Qed.

Lemma transition_elem original p l : l ∈ px_listeners (transition reports original p) ↔
  (∃ l0, l0 ∈ px_listeners p ∧ l = transition_listener reports original l0) ∨ (l ∈ px_listeners original ∧ listener_accepted reports l = false).
Proof.
  unfold transition. simpl. unfold sort_listeners. rewrite sort_stable_perm, elem_of_app, list_elem_of_fmap, elem_of_filter_bool, negb_true_iff.
  split; (intros [(l0 & ? & ?)|?]; [left; by exists l0|by right]).
Qed.
Lemma strip_elem p l : l ∈ px_listeners (strip_proxy reports p) ↔
  ∃ l0, l0 ∈ px_listeners p ∧ listener_accepted reports l0 = true ∧ l = strip_listener reports l0.
Proof.
  unfold strip_proxy. simpl. unfold sort_listeners. rewrite sort_stable_perm, list_elem_of_fmap. setoid_rewrite elem_of_filter_bool. naive_solver.
Qed.

Lemma sort_listeners_sorted ls : StronglySorted (λ a b, String.le (el_name a) (el_name b)) (sort_listeners ls).
Proof.
  apply sort_stable_sorted; [intros a b c; apply (transitivity (R := String.le))| |].
  - intros a b. rewrite string_lt_spec. destruct (total String.le (el_name a) (el_name b)); tauto.
  - intros a b. apply string_lt_le.
Qed.
End Serves.

Section Reconciled.
Context `{Errors, !SoloReports}.

(** C38. A reconciled proxy serves, on each listener, exactly: the accepted virtual hosts of the
    accepted listeners translated; on an HTTP or hybrid listener that is still accepted, the
    rejected virtual hosts the stored proxy had there; and the stored listeners that are
    rejected. So nothing from a rejected resource is served unless the stored proxy served
    it. An aggregate listener that is still accepted serves only its accepted virtual hosts:
    unlike on the others, the rejected ones that the stored proxy had there are lost. *)
Theorem reconciled_proxy_serves reports original proxy : Forall by_name (px_listeners proxy) →
  let written := transition reports original (strip_proxy reports proxy) in
  StronglySorted (λ a b, String.le (el_name a) (el_name b)) (px_listeners written) ∧
  (∀ name vh, serves_on written name vh ↔
    (∃ l, l ∈ px_listeners proxy ∧ el_name l = name ∧ listener_accepted reports l = true ∧
       ((serves l vh ∧ accepted reports vh) ∨
        ∃ o, find_listener name (px_listeners original) = Some o ∧ keeps o l vh ∧ ¬ accepted reports vh)) ∨
    (∃ o, o ∈ px_listeners original ∧ el_name o = name ∧ listener_accepted reports o = false ∧ serves o vh)) ∧
  (∀ name vh, serves_on written name vh → ¬ accepted reports vh → serves_on original name vh) ∧
  (∀ l a, l ∈ px_listeners proxy → el_type l = Listener_AggregateListener a → listener_accepted reports l = true →
    ∃ w, w ∈ px_listeners written ∧ el_name w = el_name l ∧ ∀ vh, serves w vh ↔ serves l vh ∧ accepted reports vh).
Proof.
  intros Hn written.
  assert (∀ name vh, serves_on written name vh ↔
    (∃ l, l ∈ px_listeners proxy ∧ el_name l = name ∧ listener_accepted reports l = true ∧
       ((serves l vh ∧ accepted reports vh) ∨
        ∃ o, find_listener name (px_listeners original) = Some o ∧ keeps o l vh ∧ ¬ accepted reports vh)) ∨
    (∃ o, o ∈ px_listeners original ∧ el_name o = name ∧ listener_accepted reports o = false ∧ serves o vh)) as Hiff.
  { intros name vh. unfold serves_on, written. setoid_rewrite transition_elem. setoid_rewrite strip_elem. split.
    - intros (l & [(l0 & (l1 & Hl1 & Ha & ->) & ->)|[Hl Ha]] & Hname & Hs); [left|right; eauto].
      rewrite transition_listener_name in Hname. apply reconciled_listener_serves in Hs; [|by eapply Forall_forall].
      exists l1. subst name. done.
    - intros [(l & Hl & Hname & Ha & Hs)|(o & Ho & Hname & Ha & Hs)].
      + exists (transition_listener reports original (strip_listener reports l)). split; [left; exists (strip_listener reports l); eauto|].
        rewrite transition_listener_name. split; [done|]. subst name. apply reconciled_listener_serves; [by eapply Forall_forall|done].
      + exists o. split; [by right|done]. }
  split; [apply sort_listeners_sorted|]. split; [exact Hiff|]. split.
  - intros name vh Hs Hr. apply Hiff in Hs as [(l & _ & Hname & _ & [[_ Ha]|(o & Ho & Hk & _)])|(o & Ho & Hname & _ & Hs)].
    + by destruct Hr.
    + apply find_listener_elem in Ho as [Ho Hname']. exists o. split; [done|]. split; [done|]. by eapply keeps_serves.
    + by exists o.
  - intros l a Hl Ht Ha. exists (transition_listener reports original (strip_listener reports l)).
    split; [apply transition_elem; left; exists (strip_listener reports l); split; [apply strip_elem; by exists l|done]|].
    split; [by rewrite transition_listener_name|]. intros vh. rewrite reconciled_listener_serves by by eapply Forall_forall.
    unfold keeps. rewrite Ht. naive_solver.
Qed.
End Reconciled.

(** ** Examples *)
#[local] Existing Instance list_order.
#[local] Instance ex_hash : MatcherHash := λ m, N.of_nat (length (mt_sourcePrefixRanges m)).

Definition ex_src (kind name : string) : SourceRef := {| src_ref := {| nn_ns := "default"; nn_name := name |}; src_kind := kind; src_generation := 1 |}.
Definition ex_vhost (name : string) (domain : string) : GlooVirtualHost :=
  {| ov_name := name; ov_domains := [domain]; ov_routes := [{| or_matchers := []; or_opts := None; or_name := name +:+ "-route";
       or_action := DirectResponseAction "200"; or_sources := [] |}];
     ov_options := None; ov_sources := [ex_src "VirtualService" name] |}.
Definition ex_listener (t : ListenerType) : EdgeListener :=
  {| el_name := "listener-::-80"; el_bindAddress := "::"; el_bindPort := 80; el_settings := ""; el_type := t; el_sslConfigurations := [];
     el_sources := [ex_src "Gateway" "gw"] |}.
Definition ex_http_listener (vhs : list GlooVirtualHost) : EdgeListener := ex_listener (Listener_HttpListener {| hl_virtualHosts := vhs; hl_options := None |}).
Definition ex_tcp : MatchedTcpListener :=
  {| mtl_matcher := {| mt_sslConfig := None; mt_sourcePrefixRanges := []; mt_passthroughCipherSuites := [] |};
     mtl_listener := {| tl_options := ""; tl_tcpHosts := [] |} |}.
Definition ex_aggregate_listener (vhs : list GlooVirtualHost) : EdgeListener := ex_listener (Listener_AggregateListener
  {| al_virtualHosts := foldl (λ m vh, <[ov_name vh := vh]> m) ∅ vhs; al_httpOptions := ∅;
     al_httpFilterChains := [{| fc_matcher := None; fc_httpOptionsRef := ""; fc_virtualHostRefs := map ov_name vhs |}]; al_tcpListeners := [ex_tcp] |}).
Definition ex_edge_proxy (l : EdgeListener) : EdgeProxy := {| px_name := "gateway-proxy"; px_namespace := "gloo-system"; px_listeners := [l] |}.

(** The virtual service "b" is rejected. *)
Definition ex_resource_reports : ResourceReports := {[
  ("Gateway", {| nn_ns := "default"; nn_name := "gw" |}) := empty_report;
  ("VirtualService", {| nn_ns := "default"; nn_name := "a" |}) := empty_report;
  ("VirtualService", {| nn_ns := "default"; nn_name := "b" |}) := {| rp_warnings := []; rp_errors := Some (Multierror [ENew "bad"]) |} ]}.

(** A route of "a" has an error. *)
Definition ex_on_first_route (f : RouteReport → RouteReport) (r : VirtualHostReport) : VirtualHostReport :=
  {| vr_errors := vr_errors r; vr_routeReports := match vr_routeReports r with x :: l => f x :: l | [] => [] end |}.
Definition ex_on_first_vhost (f : VirtualHostReport → VirtualHostReport) (r : ProxyReport) : ProxyReport :=
  {| pr_listenerReports := map (λ lr, {| lr_errors := lr_errors lr; lr_warnings := lr_warnings lr; lr_type :=
       match lr_type lr with
       | Some (ListenerReport_HttpListenerReport h) => Some (ListenerReport_HttpListenerReport {| hr_errors := hr_errors h;
           hr_virtualHostReports := match hr_virtualHostReports h with x :: l => f x :: l | [] => [] end |})
       | t => t end |}) (pr_listenerReports r) |}.
Definition ex_validated : EdgeProxy := ex_edge_proxy (ex_http_listener [ex_vhost "a" "a.com"; ex_vhost "b" "b.com"]).
Definition ex_validation_report : ProxyReport :=
  ex_on_first_vhost (ex_on_first_route (AppendRouteError RouteReport_Error_ProcessingError "no upstream" "a-route")) (MakeReport ex_validated).

Lemma AddProxyValidationResult_exact_witness :
  clear ex_validation_report = MakeReport ex_validated ∧
  ∃ m', AddProxyValidationResult ex_resource_reports ex_validated ex_validation_report = (None, m') ∧
    attributed ex_resource_reports (attributions ex_validated ex_validation_report) m' ∧
    flat_map (λ a : Attribution, map Error a.1.2) (attributions ex_validated ex_validation_report) =
      ["Route Error: ProcessingError. Reason: no upstream. Route Name: a-route"].
Proof.
  split; [reflexivity|].
  destruct (AddProxyValidationResult_exact ex_resource_reports ex_validated ex_validation_report) as (m' & Hrun & Hm' & _).
  { reflexivity. }
  { unfold known. apply (bool_decide_unpack _). vm_compute. exact I. }
  exists m'. split; [exact Hrun|]. split; [exact Hm'|]. vm_compute. reflexivity.
Defined.

(** The stored proxy served an older "b": it is kept. *)
Lemma reconciled_proxy_serves_witness :
  let written := transition ex_resource_reports (ex_edge_proxy (ex_http_listener [ex_vhost "b" "old.b.com"]))
                   (strip_proxy ex_resource_reports ex_validated) in
  map (λ l, map ov_domains (http_virtualHosts l)) (px_listeners written) = [[["a.com"]; ["old.b.com"]]] ∧
  serves_on written "listener-::-80" (ex_vhost "b" "old.b.com").
Proof.
  split; [vm_compute; reflexivity|].
  apply (reconciled_proxy_serves ex_resource_reports (ex_edge_proxy (ex_http_listener [ex_vhost "b" "old.b.com"])) ex_validated).
  { repeat constructor. }
  left. exists (ex_http_listener [ex_vhost "a" "a.com"; ex_vhost "b" "b.com"]). split; [left|]. split; [reflexivity|]. split; [reflexivity|].
  right. exists (ex_http_listener [ex_vhost "b" "old.b.com"]). split; [reflexivity|]. split; [left|]. discriminate.
Defined.

(** With isolated virtual hosts nothing is kept: the virtual host disappears. *)
Example aggregate_listener_loses_the_stored_virtual_host :
  map (λ l, flat_map fc_virtualHostRefs (al_httpFilterChains (aggregate_of l))) (px_listeners
    (transition ex_resource_reports (ex_edge_proxy (ex_aggregate_listener [ex_vhost "a" "a.com"; ex_vhost "b" "old.b.com"]))
      (strip_proxy ex_resource_reports (ex_edge_proxy (ex_aggregate_listener [ex_vhost "a" "a.com"; ex_vhost "b" "b.com"]))))) = [["a"]].
Proof. vm_compute. reflexivity. Qed.

(** An error of a TCP listener of an aggregate listener fails the proxy and is reported on
    no resource. *)
Definition ex_tcp_report : ProxyReport :=
  {| pr_listenerReports := map (λ lr, {| lr_errors := []; lr_warnings := []; lr_type :=
       match lr_type lr with
       | Some (ListenerReport_AggregateListenerReport a) => Some (ListenerReport_AggregateListenerReport {|
           ar_httpListenerReports := ar_httpListenerReports a;
           ar_tcpListenerReports := AppendTCPListenerError TcpListenerReport_Error_ProcessingError "no destination" <$> ar_tcpListenerReports a |})
       | t => t end |}) (pr_listenerReports (MakeReport (ex_edge_proxy (ex_aggregate_listener [ex_vhost "a" "a.com"])))) |}.
Example aggregate_tcp_errors_reach_no_resource :
  let result := AddProxyValidationResult ex_resource_reports (ex_edge_proxy (ex_aggregate_listener [ex_vhost "a" "a.com"])) ex_tcp_report in
  map Error (proxy_errors ex_tcp_report) = ["TcpListener Error: ProcessingError. Reason: no destination"] ∧
  fst result = None ∧ flat_map (λ '(_, r), map Error (errors_of r)) (map_to_list (snd result)) = ["bad"].
Proof. split_and!; vm_compute; reflexivity. Qed.
