(* ===== verification/Xds.v ===== *)
(** * xDS snapshots

    gloo/pkg/xds/envoy_snapshot.go, cache.go and node_hash.go, [MakeRdsResources] of
    gloo/pkg/translator/translator.go and the names of clusters in utils.go. A snapshot
    holds four tables of resources, which are Go maps: copies of a snapshot share them, and
    the sanitizers write to them. The maps and the route configurations live in a [Store].
    Envoy's messages are records of the fields the code reads or writes, the rest opaque. *)

From stdpp Require Import base gmap strings list fin_maps pretty.
From Stdlib Require Import ZArith.
From S2P Require Import Prelude GoLib GwApi.

Module Xds.
(** ** Envoy's resources *)
Record Endpoint := { ce_clusterName : string; ce_endpoints : list string }.
(** [cl_eds]: the discovery type is EDS. *)
Record Cluster := { cl_name : string; cl_eds : bool; cl_edsServiceName : string; cl_other : string }.
Record Listener := { ls_name : string; ls_other : string }.

Inductive ClusterSpecifier :=
| RouteAction_Cluster (name : string)
| RouteAction_WeightedClusters (clusters : list (string * string))
| RouteAction_Other (s : string).
Inductive RouteActionType :=
| Route_Route (specifier : ClusterSpecifier) (other : string)
| Route_DirectResponse (status : Z) (body : string)
| Route_Other (s : string).
Record Route := { xr_name : string; xr_match : string; xr_action : RouteActionType }.
Record VirtualHost := { xv_name : string; xv_domains : list string; xv_routes : list Route }.
Record RouteConfiguration := { rc_name : string; rc_virtualHosts : list VirtualHost }.

(** ** Snapshots *)
Record Store := {
  x_endpoints : gmap positive (gmap string Endpoint);
  x_clusters : gmap positive (gmap string Cluster);
  (** the items of a table of routes point to the route configurations *)
  x_routes : gmap positive (gmap string positive);
  x_listeners : gmap positive (gmap string Listener);
  x_configs : gmap positive RouteConfiguration;
  x_next : positive
}.
(** [cache.Resources]: a version and a map, nil or a pointer. *)
Record Resources := { version : string; items : option positive }.
Record Snapshot := { Endpoints : Resources; Clusters : Resources; Routes : Resources; Listeners : Resources }.
Definition NewSnapshotFromResources (endpoints clusters routes listeners : Resources) : Snapshot :=
  {| Endpoints := endpoints; Clusters := clusters; Routes := routes; Listeners := listeners |}.

(** Reading a map; a nil one reads as empty. *)
Definition read {A} (m : gmap positive (gmap string A)) (r : Resources) : gmap string A :=
  from_option (λ p, default ∅ (m !! p)) ∅ (items r).
Definition endpoints_of (h : Store) (s : Snapshot) : gmap string Endpoint := read (x_endpoints h) (Endpoints s).
Definition clusters_of (h : Store) (s : Snapshot) : gmap string Cluster := read (x_clusters h) (Clusters s).
Definition routes_of (h : Store) (s : Snapshot) : gmap string positive := read (x_routes h) (Routes s).
Definition listeners_of (h : Store) (s : Snapshot) : gmap string Listener := read (x_listeners h) (Listeners s).
Definition empty_config : RouteConfiguration := {| rc_name := ""; rc_virtualHosts := [] |}.
Definition config (h : Store) (p : positive) : RouteConfiguration := default empty_config (x_configs h !! p).

(** Writing to the map of a table. *)
Definition set_endpoints (p : positive) (m : gmap string Endpoint) (h : Store) : Store :=
  {| x_endpoints := <[p := m]> (x_endpoints h); x_clusters := x_clusters h; x_routes := x_routes h; x_listeners := x_listeners h;
     x_configs := x_configs h; x_next := x_next h |}.
Definition set_clusters (p : positive) (m : gmap string Cluster) (h : Store) : Store :=
  {| x_endpoints := x_endpoints h; x_clusters := <[p := m]> (x_clusters h); x_routes := x_routes h; x_listeners := x_listeners h;
     x_configs := x_configs h; x_next := x_next h |}.
Definition set_routes (p : positive) (m : gmap string positive) (h : Store) : Store :=
  {| x_endpoints := x_endpoints h; x_clusters := x_clusters h; x_routes := <[p := m]> (x_routes h); x_listeners := x_listeners h;
     x_configs := x_configs h; x_next := x_next h |}.
Definition set_listeners (p : positive) (m : gmap string Listener) (h : Store) : Store :=
  {| x_endpoints := x_endpoints h; x_clusters := x_clusters h; x_routes := x_routes h; x_listeners := <[p := m]> (x_listeners h);
     x_configs := x_configs h; x_next := x_next h |}.
Definition set_config (p : positive) (c : RouteConfiguration) (h : Store) : Store :=
  {| x_endpoints := x_endpoints h; x_clusters := x_clusters h; x_routes := x_routes h; x_listeners := x_listeners h;
     x_configs := <[p := c]> (x_configs h); x_next := x_next h |}.
Definition fresh (h : Store) : positive * Store :=
  (x_next h, {| x_endpoints := x_endpoints h; x_clusters := x_clusters h; x_routes := x_routes h; x_listeners := x_listeners h;
     x_configs := x_configs h; x_next := Pos.succ (x_next h) |}).

(** ** Code outside the repository *)
Class XdsCache := {
  (** [resource.GetResourceReferences]: the names the resources refer to, each with a
      resource that does: endpoints of clusters, route configurations of listeners *)
  cluster_references : gmap string Cluster → gmap string Cluster;
  listener_references : gmap string Listener → gmap string Listener;
  (** [cache.NewResources]: the items by their names *)
  IndexResourcesByName : list (string * positive) → gmap string positive;
  (** the FNV hash of the marshalled route configurations, or an error *)
  ListToFnvHash : list RouteConfiguration → option N
}.
Class XdsCacheLaws `{XdsCache} := {
  IndexResourcesByName_spec l n p : NoDup (map fst l) → IndexResourcesByName l !! n = Some p ↔ (n, p) ∈ l
}.

(** ** Names of clusters *)
Definition UpstreamToClusterName (upstream : NamespacedName) : string :=
  if bool_decide (nn_ns upstream = "") then nn_name upstream else nn_name upstream +:+ "_" +:+ nn_ns upstream.

(** ** Cache keys (cache.go, node_hash.go) *)
Definition OwnerNamespaceNameID (owner namespace name : string) : string := join "~" [owner; namespace; name].
Definition SnapshotCacheKey (proxy : NamespacedName) (labels : gmap string string) : string :=
  let owner := default "" (labels !! "created_by") in
  if bool_decide (owner = "gloo-kube-gateway-api") then
    let namespaceLabel := default "" (labels !! "gateway_namespace") in
    OwnerNamespaceNameID owner (if bool_decide (namespaceLabel = "") then nn_ns proxy else namespaceLabel) (nn_name proxy)
  else nn_ns proxy +:+ "~" +:+ nn_name proxy.
(** The role in the metadata of an Envoy node. *)
Definition nodeRoleHasher_ID (role : option string) : string := default "misconfigured-node" role.

(** ** Building the table of routes *)
Section Cache.
Context `{XdsCache, !GoRange string}.

Definition MakeRdsResources (routeConfigs : list positive) : M Store Resources := λ h,
  let routesProto := List.filter (λ p, negb (length (rc_virtualHosts (config h p)) <? 1)) routeConfigs in
  let routesVersion := match ListToFnvHash (map (config h) routesProto) with None => "routes-hashErr" | Some v => pretty v end in
  let '(p, h) := fresh h in
  Ok ({| version := routesVersion; items := Some p |}, set_routes p (IndexResourcesByName (map (λ c, (rc_name (config h c), c)) routesProto)) h).

(** ** MakeConsistent *)
Definition placeholder_endpoint (c : Cluster) : Endpoint := {| ce_clusterName := cl_name c; ce_endpoints := [] |}.
Definition placeholder_routes (l : Listener) : RouteConfiguration :=
  {| rc_name := ls_name l +:+ "-routes-for-invalid-envoy";
     rc_virtualHosts := [{| xv_name := "invalid-envoy-config-vhost"; xv_domains := ["*"]; xv_routes := [
       {| xr_name := ""; xr_match := "/";
          xr_action := Route_DirectResponse 500 "Invalid Envoy Configuration. This placeholder was generated to localize pain to the misconfigured route" |}] |}] |}.

(** Entries are written in the loop; an assignment to a nil map panics. *)
Definition add_placeholder_endpoints (children : gmap string Cluster) (persisted : list string) (m : gmap string Endpoint) : gmap string Endpoint :=
  foldl (λ m '(n, c), if bool_decide (n ∈ persisted) then m else <[n := placeholder_endpoint c]> m) m (go_range children).
Definition remove_unreferenced {A B} (children : gmap string B) (m : gmap string A) : gmap string A :=
  foldl (λ m '(n, _), if bool_decide (is_Some (children !! n)) then m else base.delete n m) m (go_range m).

Definition add_placeholder_route (persisted : list string) (p : positive) : string * Listener → M Store unit := λ '(n, l) h,
  if bool_decide (n ∈ persisted) then Ok (tt, h)
  else let '(c, h) := fresh h in
       let h := set_config c (placeholder_routes l) h in
       Ok (tt, set_routes p (<[n := c]> (default ∅ (x_routes h !! p))) h).

Definition missing {A B} (children : gmap string B) (m : gmap string A) (name : A → string) : bool :=
  existsb (λ '(n, _), negb (bool_decide (n ∈ map (λ '(_, x), name x) (go_range m)))) (go_range children).

Definition consistent_endpoints (s : Snapshot) : M Store unit := λ h,
  let children := cluster_references (clusters_of h s) in
  let m := endpoints_of h s in
  match items (Endpoints s) with
  | None => if missing children m ce_clusterName then Panic "assignment to entry in nil map" else Ok (tt, h)
  | Some p =>
      let m := add_placeholder_endpoints children (map (λ '(_, e), ce_clusterName e) (go_range m)) m in
      Ok (tt, set_endpoints p (remove_unreferenced children m) h)
  end.
Definition consistent_routes (s : Snapshot) : M Store unit := λ h,
  let children := listener_references (listeners_of h s) in
  let m := routes_of h s in
  match items (Routes s) with
  | None => if missing children m (λ c, rc_name (config h c)) then Panic "assignment to entry in nil map" else Ok (tt, h)
  | Some p =>
      (do! for_range (go_range children) (add_placeholder_route (map (λ '(_, c), rc_name (config h c)) (go_range m)) p) ;;
       modify (λ h, set_routes p (remove_unreferenced children (default ∅ (x_routes h !! p))) h)) h
  end.
(** On a nil snapshot the code dereferences it. *)
Definition MakeConsistent (s : option Snapshot) : M Store unit :=
  match s with
  | None => panic "nil pointer dereference"
  | Some s => do! consistent_endpoints s ;; consistent_routes s
  end.
End Cache.
End Xds.
