(* ===== verification/Sanitizers.v ===== *)
(** * Sanitizers of xDS snapshots

    gloo/pkg/syncer/sanitizer: the translated snapshot of a Proxy is cleaned of upstreams
    with errors and of routes to missing clusters, and the reports are relaxed: what the
    sanitizers repair becomes a warning. gloo/pkg/syncer/envoy_translator_syncer.go makes
    the snapshot consistent and serves the sanitized one ([sync_snapshot]). *)

From stdpp Require Import base gmap strings list fin_maps.
From Stdlib Require Import ZArith Ascii.
From S2P Require Import Prelude GoLib GwApi EdgeApi ProxyReports ResourceReports Xds.
Import Xds.

(** ** [regexp]: FindStringSubmatch on "Route Name: (.*)"

    The leftmost occurrence of the literal, then the longest run without a newline. *)
Definition newline : ascii := ascii_of_nat 10.
Fixpoint until_newline (s : string) : string :=
  match s with
  | EmptyString => EmptyString
  | String a s' => if bool_decide (a = newline) then EmptyString else String a (until_newline s')
  end.
Fixpoint find_after (lit s : string) : option string :=
  if has_prefix s lit then Some (until_newline (drop_string (String.length lit) s))
  else match s with EmptyString => None | String _ s' => find_after lit s' end.
Definition FindRouteName (s : string) : option string := find_after (Validation.RouteIdentifierTxt +:+ ": ") s.

(** More of solo-kit: [Validate], [FilterByKind] and the text of the errors of a report. *)
Class SoloReports2 `{Errors} := {
  (** no report has an error *)
  Validate : ResourceReports → bool;
  FilterByKind : string → ResourceReports → ResourceReports;
  ErrorString : ErrorValue → string
}.
Class SoloReports2Laws `{SoloReports2} := {
  Validate_spec m : Validate m = true ↔ map_Forall (λ _ r, rp_errors r = None) m;
  FilterByKind_spec kind m k : FilterByKind kind m !! k = if bool_decide (k.1 = kind) then m !! k else None
}.

Record SState `{Errors} := { ss_store : Store; ss_reports : ResourceReports }.

Section Sanitizers.
Context `{Errors, !SoloReports2, XdsCache, !GoRange string, !GoRange (string * NamespacedName)}.

Definition update_store (f : Store → Store) (s : SState) : SState := {| ss_store := f (ss_store s); ss_reports := ss_reports s |}.
Definition update_reports (f : ResourceReports → ResourceReports) (s : SState) : SState :=
  {| ss_store := ss_store s; ss_reports := f (ss_reports s) |}.

Definition UpstreamKind : string := "*v1.Upstream".
Definition ProxyKind : string := "*v1.Proxy".
Definition upstream_key (up : NamespacedName) : string * NamespacedName := (UpstreamKind, up).

(** ** UpstreamRemovingSanitizer *)
Definition endpoint_name (clusterName : string) (c : Cluster) : string :=
  if cl_eds c then if bool_decide (cl_edsServiceName c = "") then cl_name c else cl_edsServiceName c else clusterName.

(** [delete] on a map; on a nil one it does nothing. *)
Definition delete_cluster (r : Resources) (n : string) (h : Store) : Store :=
  match items r with Some p => set_clusters p (base.delete n (read (x_clusters h) r)) h | None => h end.
Definition delete_endpoint (r : Resources) (n : string) (h : Store) : Store :=
  match items r with Some p => set_endpoints p (base.delete n (read (x_endpoints h) r)) h | None => h end.

Definition remove_upstream (snapshot : Snapshot) (up : NamespacedName) (s : SState) : SState :=
  match rp_errors (report_of (upstream_key up) (ss_reports s)) with
  | None => s
  | Some _ =>
      let clusterName := UpstreamToClusterName up in
      match read (x_clusters (ss_store s)) (Clusters snapshot) !! clusterName with
      | None => s
      | Some cluster =>
          update_store (λ h, delete_endpoint (Endpoints snapshot) (endpoint_name clusterName cluster)
            (delete_cluster (Clusters snapshot) clusterName h)) s
      end
  end.
Definition upstream_warning (up : NamespacedName) (s : SState) : SState :=
  match rp_errors (report_of (upstream_key up) (ss_reports s)) with
  | None => s
  | Some e => update_reports (insert (upstream_key up) {| rp_warnings := [ErrorString e]; rp_errors := None |}) s
  end.

(** [upstreams]: the references of the upstreams of the API snapshot. *)
Definition UpstreamRemovingSanitizer_SanitizeSnapshot (upstreams : list NamespacedName) (snapshot : Snapshot) : M SState Snapshot := λ s,
  if Validate (ss_reports s) then Ok (snapshot, s)
  else
    let s := foldl (λ s up, remove_upstream snapshot up s) s upstreams in
    let s := foldl (λ s up, upstream_warning up s) s upstreams in
    Ok (NewSnapshotFromResources (Endpoints snapshot) (Clusters snapshot) (Routes snapshot) (Listeners snapshot), s).

(** ** RouteReplacingSanitizer *)
Record RouteReplacingSanitizer := { enabled : bool; fallbackListener : Listener; fallbackCluster : Cluster }.
Definition fallbackListenerName : string := "fallback_listener_for_invalid_routes".
Definition fallbackListenerSocket : string := "@" +:+ fallbackListenerName.
Definition fallbackClusterName : string := "fallback_cluster_for_invalid_routes".
Definition SoloGeneratedClusterPrefix : string := "solo_io_generated_".

(** The connection manager that answers with the code and body, and its marshalling; the
    cluster's one endpoint is the socket of the listener. *)
Record HttpConnectionManager := { hcm_statPrefix : string; hcm_routes : RouteConfiguration }.
Definition fallback_hcm (responseCode : Z) (responseBody : string) : HttpConnectionManager :=
  {| hcm_statPrefix := fallbackListenerName;
     hcm_routes := {| rc_name := "fallback_routes"; rc_virtualHosts := [{| xv_name := "fallback_virtualhost"; xv_domains := ["*"];
       xv_routes := [{| xr_name := ""; xr_match := "/"; xr_action := Route_DirectResponse responseCode responseBody |}] |}] |} |}.
Definition makeFallbackListenerAndCluster (MessageToAny : HttpConnectionManager → string + string) (responseCode : Z) (responseBody : string) :
    string + (Listener * Cluster) :=
  match MessageToAny (fallback_hcm responseCode responseBody) with
  | inl err => inl err
  | inr typedHcmConfig => inr
      ({| ls_name := fallbackListenerName; ls_other := fallbackListenerSocket +:+ typedHcmConfig |},
       {| cl_name := fallbackClusterName; cl_eds := false; cl_edsServiceName := ""; cl_other := fallbackListenerSocket |})
  end.
Definition NewRouteReplacingSanitizer (MessageToAny : HttpConnectionManager → string + string) (replaceInvalidRoutes : bool)
    (responseCode : Z) (responseBody : string) : string + RouteReplacingSanitizer :=
  match makeFallbackListenerAndCluster MessageToAny responseCode responseBody with
  | inl err => inl err
  | inr (listener, cluster) => inr {| enabled := replaceInvalidRoutes; fallbackListener := listener; fallbackCluster := cluster |}
  end.

(** The route configurations, by name. *)
Definition getRoutes (snapshot : Snapshot) (h : Store) : list positive :=
  sort_stable (λ a b, string_lt (rc_name (config h a)) (rc_name (config h b))) (map snd (go_range (routes_of h snapshot))).

(** The clusters of upstreams that are in both snapshots, and those gloo generates. *)
Definition getClusters (upstreams : list NamespacedName) (snapshot : Snapshot) (h : Store) : gset string :=
  let xdsClusters := clusters_of h snapshot in
  let valid := foldl (λ acc up, let n := UpstreamToClusterName up in
    match xdsClusters !! n with Some _ => {[n]} ∪ acc | None => acc end) ∅ upstreams in
  foldl (λ acc '(n, _), if has_prefix n SoloGeneratedClusterPrefix then {[n]} ∪ acc else acc) valid (go_range xdsClusters).

(** *** Routes with errors *)
Definition split_error (acc : gset string * list string * list error) (proxyError : error) : gset string * list string * list error :=
  let '(errored, warnings, remaining) := acc in
  if Is proxyError (New Validation.RouteErrorMsg) then
    match FindRouteName (Error proxyError) with
    | Some name => ({[name]} ∪ errored, warnings ++ [Error proxyError], remaining)
    | None => (errored, warnings, remaining ++ [proxyError])
    end
  else (errored, warnings, remaining ++ [proxyError]).

Definition remove_errored (erroredRoutes : gset string) (k : string * NamespacedName) (report : ResourceReport) (s : SState) : res (gset string * SState) :=
  match rp_errors report with
  | None => Ok (erroredRoutes, s)
  | Some (OtherError _) => Panic "interface conversion: error is not *multierror.Error"
  | Some (Multierror errors) =>
      let '(erroredRoutes, warnings, remaining) := foldl split_error (erroredRoutes, rp_warnings report, []) errors in
      let modified := {| rp_warnings := warnings; rp_errors := match remaining with [] => None | l => Some (Multierror l) end |} in
      Ok (erroredRoutes, update_reports (insert k modified) s)
  end.
Definition removeErroredRoutesFromReport (proxyReports : ResourceReports) : M SState (gset string) :=
  fold_range 0 (go_range proxyReports) ∅ (λ _ '(k, report) erroredRoutes, remove_errored erroredRoutes k report).

(** *** Routes to missing clusters *)
Section Replace.
Variables (fallback : string) (validClusters erroredRoutes : gset string).

Definition isInvalid (cluster name : string) : bool := negb (bool_decide (cluster ∈ validClusters)) || bool_decide (name ∈ erroredRoutes).
Definition target (route cluster : string) : string := if isInvalid cluster route then fallback else cluster.
Definition replace_specifier (route : string) (c : ClusterSpecifier) : ClusterSpecifier * bool :=
  match c with
  | RouteAction_Cluster n => (RouteAction_Cluster (target route n), isInvalid n route)
  | RouteAction_WeightedClusters l => (RouteAction_WeightedClusters (map (λ '(n, o), (target route n, o)) l), existsb (λ '(n, _), isInvalid n route) l)
  | RouteAction_Other s => (RouteAction_Other s, false)
  end.
Definition replace_route (r : Route) : Route * bool :=
  match xr_action r with
  | Route_Route c o => let '(c', replaced) := replace_specifier (xr_name r) c in
      ({| xr_name := xr_name r; xr_match := xr_match r; xr_action := Route_Route c' o |}, replaced)
  | _ => (r, false)
  end.
Definition replace_vhost (v : VirtualHost) : VirtualHost * bool :=
  ({| xv_name := xv_name v; xv_domains := xv_domains v; xv_routes := map (fst ∘ replace_route) (xv_routes v) |},
   existsb (snd ∘ replace_route) (xv_routes v)).
Definition replace_config (c : RouteConfiguration) : RouteConfiguration * bool :=
  ({| rc_name := rc_name c; rc_virtualHosts := map (fst ∘ replace_vhost) (rc_virtualHosts c) |}, existsb (snd ∘ replace_vhost) (rc_virtualHosts c)).

(** In place, through the pointers of the snapshot. *)
Definition replaceRoutes (routeConfigs : list positive) (h : Store) : bool * Store :=
  foldl (λ '(any, h) p, let '(c, replaced) := replace_config (config h p) in (any || replaced, set_config p c h)) (false, h) routeConfigs.
End Replace.

(** A nil map is allocated first; the new version is that of the copy only. *)
Definition insertFallbackListener (l : Listener) (r : Resources) (h : Store) : Resources * Store :=
  let '(p, h) := match items r with Some p => (p, h) | None => fresh h end in
  ({| version := version r +:+ "-with-fallback-listener"; items := Some p |}, set_listeners p (<[ls_name l := l]> (read (x_listeners h) r)) h).
Definition insertFallbackCluster (c : Cluster) (r : Resources) (h : Store) : Resources * Store :=
  let '(p, h) := match items r with Some p => (p, h) | None => fresh h end in
  ({| version := version r +:+ "-with-fallback-cluster"; items := Some p |}, set_clusters p (<[cl_name c := c]> (read (x_clusters h) r)) h).

Definition on_store {A} (f : Store → A * Store) : M SState A := λ s,
  let '(a, h) := f (ss_store s) in Ok (a, {| ss_store := h; ss_reports := ss_reports s |}).
Definition on_store_res {A} (m : M Store A) : M SState A := λ s,
  match m (ss_store s) with
  | Ok (a, h) => Ok (a, {| ss_store := h; ss_reports := ss_reports s |})
  | Panic why => Panic why
  | OutOfFuel => OutOfFuel
  end.

Definition RouteReplacingSanitizer_SanitizeSnapshot (z : RouteReplacingSanitizer) (upstreams : list NamespacedName) (snapshot : Snapshot) :
    M SState Snapshot :=
  if negb (enabled z) then ret snapshot
  else
    routeConfigs <~ gets (λ s, getRoutes snapshot (ss_store s)) ;;
    match routeConfigs with
    | [] => ret snapshot
    | _ =>
        validClusters <~ gets (λ s, getClusters upstreams snapshot (ss_store s)) ;;
        proxyReports <~ gets (λ s, FilterByKind ProxyKind (ss_reports s)) ;;
        erroredRouteNames <~ removeErroredRoutesFromReport proxyReports ;;
        needsListener <~ on_store (replaceRoutes (cl_name (fallbackCluster z)) validClusters erroredRouteNames routeConfigs) ;;
        listeners <~ (if needsListener : bool then on_store (insertFallbackListener (fallbackListener z) (Listeners snapshot)) else ret (Listeners snapshot)) ;;
        clusters <~ (if needsListener : bool then on_store (insertFallbackCluster (fallbackCluster z) (Clusters snapshot)) else ret (Clusters snapshot)) ;;
        routes <~ on_store_res (MakeRdsResources routeConfigs) ;;
        ret (NewSnapshotFromResources (Endpoints snapshot) clusters routes listeners)
    end.

(** ** The chain of sanitizers *)
Definition XdsSanitizer : Type := list NamespacedName → Snapshot → M SState Snapshot.
Definition XdsSanitizers_SanitizeSnapshot (sanitizers : list XdsSanitizer) (upstreams : list NamespacedName) (snapshot : Snapshot) : M SState Snapshot :=
  fold_range 0 sanitizers snapshot (λ _ sanitizer snapshot, sanitizer upstreams snapshot).
(** setup_syncer.go *)
Definition xdsSanitizers (z : RouteReplacingSanitizer) : list XdsSanitizer :=
  [UpstreamRemovingSanitizer_SanitizeSnapshot; RouteReplacingSanitizer_SanitizeSnapshot z].

(** envoy_translator_syncer.go: the snapshot that is served. It is the translated one that
    is made consistent. *)
Definition sync_snapshot (z : RouteReplacingSanitizer) (upstreams : list NamespacedName) (xdsSnapshot : Snapshot) : M SState Snapshot :=
  sanitizedSnapshot <~ XdsSanitizers_SanitizeSnapshot (xdsSanitizers z) upstreams xdsSnapshot ;;
  do! on_store_res (MakeConsistent (Some xdsSnapshot)) ;;
  ret sanitizedSnapshot.
End Sanitizers.
