(* ===== verification/SanitizersFacts.v ===== *)
(** * Facts about xDS snapshots and their sanitizers

    What each sanitizer changes, exactly; that a sanitized snapshot routes to no missing
    cluster; how the name of a route travels through an error message; and when a served
    snapshot is consistent. *)

From stdpp Require Import base gmap strings list fin_maps sorting.
From Stdlib Require Import ZArith Ascii.
From S2P Require Import Prelude GoLib GwApi EdgeApi ProxyReports ResourceReports Xds Sanitizers.
Import Validation Xds.

(** ** The name of a route in an error *)
Lemma has_prefix_app lit s t : has_prefix (s +:+ t) lit = true →
  has_prefix s lit = true ∨ ∃ u, u ≠ "" ∧ lit = s +:+ u ∧ has_prefix t u = true.
Proof.
  revert s. induction lit as [|a lit IH]; intros s Hp; [by left; destruct s|].
  destruct s as [|b s]; [right; by exists (String a lit)|]. simpl in Hp. unfold has_prefix in *. simpl in *.
  destruct (ascii_dec a b) as [->|]; [|done]. destruct (IH _ Hp) as [Hs|(u & Hu & -> & Ht)]; [by left|right]. by exists u.
Qed.

Lemma contains_char_app c s t : contains_char c (s +:+ t) = contains_char c s || contains_char c t.
Proof. induction s as [|a s IH]; simpl; [done|]. by rewrite IH, orb_assoc. Qed.

(** A text without an occurrence is skipped, when what follows cannot complete one. *)
Lemma find_after_skip b lit a s t : contains_char a lit = false → find_after (String b lit) s = None →
  find_after (String b lit) (s +:+ String a t) = find_after (String b lit) (String a t).
Proof.
  intros Ha. induction s as [|c s IH]; intros Hs; [done|]. change (String c s +:+ String a t) with (String c (s +:+ String a t)).
  cbn [find_after] in *. destruct (has_prefix (String c s) (String b lit)) eqn:Hp; [done|].
  destruct (has_prefix (String c (s +:+ String a t)) (String b lit)) eqn:Hq; [|by apply IH].
  exfalso. change (String c (s +:+ String a t)) with (String c s +:+ String a t) in Hq.
  apply has_prefix_app in Hq as [Hq|(u & Hu & Hl & Ht)]; [congruence|]. destruct u as [|a' u]; [done|].
  apply has_prefix_spec in Ht as [t' [= <- _]]. injection Hl as -> Hl. rewrite Hl, contains_char_app in Ha. simpl in Ha.
  rewrite bool_decide_eq_true_2 in Ha by done. by rewrite orb_true_r in Ha.
Qed.

Lemma until_newline_id s : contains_char newline s = false → until_newline s = s.
Proof. induction s as [|a s IH]; simpl; [done|]. intros [Ha Hs]%orb_false_iff. rewrite Ha. by rewrite IH. Qed.

Lemma drop_string_app s t : drop_string (String.length s) (s +:+ t) = t.
Proof. by induction s. Qed.
Lemma find_after_here lit s : find_after lit (lit +:+ s) = Some (until_newline s).
Proof.
  assert (has_prefix (lit +:+ s) lit = true) as Hp by (apply has_prefix_spec; eauto).
  destruct (lit +:+ s) eqn:Hs; cbn [find_after]; by rewrite Hp, <-Hs, drop_string_app.
Qed.

Section Roundtrip.
Context `{Errors, !ErrorsLaws}.

(** The error of a route, as [GetRouteErr] makes it from what [AppendRouteError] wrote. *)
Definition route_error (t : RouteReport_Error_Type) (reason name : string) : error :=
  Wrap (New (go_string t +:+ ". Reason: " +:+ route_reason reason name)) RouteErrorMsg.

Lemma route_error_text t reason name : FindRouteName reason = None → 
  FindRouteName (Error (route_error t reason name)) = Some (until_newline name).
Proof.
  intros Hr. unfold route_error. rewrite Error_Wrap, Error_New. unfold FindRouteName in *.
  transitivity (find_after (RouteIdentifierTxt +:+ ": ") (route_reason reason name)); [by destruct t|].
  unfold route_reason. change (". " +:+ RouteIdentifierTxt +:+ ": " +:+ name) with (String "." (" Route Name: " +:+ name)).
  rewrite (find_after_skip "R" "oute Name: " "."); [|done..]. apply (find_after_here "Route Name: ").
Qed.

(** The name of a route written into a report by [AppendRouteError] is read back from the
    error of that report: it is recognised as a route error, and yields the name, unless
    the reason contains the marker or the name a newline. *)
Theorem route_error_roundtrip t reason name r : FindRouteName reason = None → contains_char newline name = false →
  ∃ e, GetRouteErr (AppendRouteError t reason name r) = GetRouteErr r ++ [e] ∧
    Is e (New RouteErrorMsg) = true ∧ FindRouteName (Error e) = Some name.
Proof.
  intros Hr Hn. exists (route_error t reason name). split; [|split].
  - unfold GetRouteErr, AppendRouteError, AppendRouteErrorWithMetadata. simpl. by rewrite map_app.
  - unfold route_error. rewrite Is_Wrap. by rewrite bool_decide_eq_true_2.
  - rewrite route_error_text by done. by rewrite until_newline_id.
Qed.

(** Two errors of one proxy are combined before the sanitizer sees them: whatever
    [eris.Is] says of the combination, the text after the marker is not a route's name. *)
Lemma until_newline_app s t : contains_char newline s = false → until_newline (s +:+ t) = s +:+ until_newline t.
Proof. induction s as [|a s IH]; simpl; [done|]. intros [Ha Hs]%orb_false_iff. rewrite Ha. change (String a s +:+ ?x) with (String a (s +:+ x)). by rewrite IH. Qed.

Theorem combined_route_errors_lose_the_name t reason name e : FindRouteName reason = None → contains_char newline name = false →
  FindRouteName (Error (multierr_Append (Some (route_error t reason name)) e)) = Some (name +:+ "; " +:+ until_newline (Error e)).
Proof.
  intros Hr Hn. rewrite Append_error. unfold route_error. rewrite Error_Wrap, Error_New. unfold FindRouteName in *.
  transitivity (find_after (RouteIdentifierTxt +:+ ": ") (route_reason reason name +:+ "; " +:+ Error e)); [by destruct t|].
  unfold route_reason. rewrite string_append_assoc.
  change ((". " +:+ RouteIdentifierTxt +:+ ": " +:+ name) +:+ "; " +:+ Error e) with (String "." (" Route Name: " +:+ (name +:+ "; " +:+ Error e))).
  rewrite (find_after_skip "R" "oute Name: " "."); [|done..].
  change ("; " +:+ until_newline (Error e)) with (until_newline ("; " +:+ Error e)). rewrite <-until_newline_app by done. apply (find_after_here "Route Name: ").
Qed.
End Roundtrip.

(** ** Removing upstreams *)
Section Upstreams.
Context `{Errors, !SoloReports2, !SoloReports2Laws}.

Definition errored (m : ResourceReports) (up : NamespacedName) : Prop := is_Some (rp_errors (report_of (upstream_key up) m)).

(** The snapshot whose cluster and endpoint were deleted. *)
Lemma delete_cluster_own s n h : clusters_of (delete_cluster (Clusters s) n h) s = base.delete n (clusters_of h s).
Proof.
  unfold clusters_of, delete_cluster, read. destruct (items (Clusters s)) as [p|] eqn:Hi; simpl; rewrite ?Hi; simpl; [by rewrite lookup_insert_eq|by rewrite delete_empty].
Qed.
Lemma delete_endpoint_own s n h : endpoints_of (delete_endpoint (Endpoints s) n h) s = base.delete n (endpoints_of h s).
Proof.
  unfold endpoints_of, delete_endpoint, read. destruct (items (Endpoints s)) as [p|] eqn:Hi; simpl; rewrite ?Hi; simpl; [by rewrite lookup_insert_eq|by rewrite delete_empty].
Qed.
Lemma delete_cluster_rest r n h : endpoints_of (delete_cluster r n h) = endpoints_of h ∧ routes_of (delete_cluster r n h) = routes_of h ∧
  listeners_of (delete_cluster r n h) = listeners_of h ∧ config (delete_cluster r n h) = config h.
Proof. unfold delete_cluster. by destruct (items r). Qed.
Lemma delete_endpoint_rest r n h : clusters_of (delete_endpoint r n h) = clusters_of h ∧ routes_of (delete_endpoint r n h) = routes_of h ∧
  listeners_of (delete_endpoint r n h) = listeners_of h ∧ config (delete_endpoint r n h) = config h.
Proof. unfold delete_endpoint. by destruct (items r). Qed.

(** Clusters of upstreams with errors, and their endpoints. *)
Definition cluster_hit (m : ResourceReports) (ups : list NamespacedName) (n : string) : Prop :=
  ∃ up, up ∈ ups ∧ errored m up ∧ UpstreamToClusterName up = n.
Definition endpoint_hit (m : ResourceReports) (clusters : gmap string Cluster) (ups : list NamespacedName) (n : string) : Prop :=
  ∃ up c, up ∈ ups ∧ errored m up ∧ clusters !! UpstreamToClusterName up = Some c ∧ endpoint_name (UpstreamToClusterName up) c = n.

#[local] Instance errored_dec m up : Decision (errored m up).
Proof. unfold errored. apply _. Defined.
#[local] Instance cluster_hit_dec m ups n : Decision (cluster_hit m ups n).
Proof.
  refine (cast_if (decide (Exists (λ up, errored m up ∧ UpstreamToClusterName up = n) ups))); unfold cluster_hit; by rewrite <-Exists_exists.
Defined.

Lemma cluster_hit_snoc m ups up n : cluster_hit m (ups ++ [up]) n ↔ cluster_hit m ups n ∨ (errored m up ∧ UpstreamToClusterName up = n).
Proof.
  unfold cluster_hit. setoid_rewrite elem_of_app. setoid_rewrite list_elem_of_singleton. split.
  - intros (up' & [Hin| ->] & He); [left; eauto|by right].
  - intros [(up' & Hin & He)|He]; eauto.
Qed.
Lemma endpoint_hit_snoc m cs ups up n : endpoint_hit m cs (ups ++ [up]) n ↔ endpoint_hit m cs ups n ∨
  (errored m up ∧ ∃ c, cs !! UpstreamToClusterName up = Some c ∧ endpoint_name (UpstreamToClusterName up) c = n).
Proof.
  unfold endpoint_hit. setoid_rewrite elem_of_app. setoid_rewrite list_elem_of_singleton. split.
  - intros (up' & c & [Hin| ->] & He); [left; eauto 6|right; naive_solver].
  - intros [(up' & c & Hin & He)|(He & c & Hc)]; [eauto 6|]. exists up, c. naive_solver.
Qed.

(** The store after the upstreams of a list with errors were removed. *)
Definition upstreams_removed (m : ResourceReports) (s : Snapshot) (ups : list NamespacedName) (h h' : Store) : Prop :=
  (∀ n c, clusters_of h' s !! n = Some c ↔ clusters_of h s !! n = Some c ∧ ¬ cluster_hit m ups n) ∧
  (∀ n e, endpoints_of h' s !! n = Some e ↔ endpoints_of h s !! n = Some e ∧ ¬ endpoint_hit m (clusters_of h s) ups n) ∧
  routes_of h' = routes_of h ∧ listeners_of h' = listeners_of h ∧ config h' = config h.

Lemma remove_upstream_ok s ups up h st : upstreams_removed (ss_reports st) s ups h (ss_store st) →
  ss_reports (remove_upstream s up st) = ss_reports st ∧
  upstreams_removed (ss_reports st) s (ups ++ [up]) h (ss_store (remove_upstream s up st)).
Proof.
  intros (Hc & He & Hro & Hl & Hcf). unfold remove_upstream. fold (clusters_of (ss_store st) s).
  destruct (rp_errors (report_of (upstream_key up) (ss_reports st))) as [ev|] eqn:Hev.
  2:{ split; [done|]. assert (¬ errored (ss_reports st) up) as Hn by (unfold errored; rewrite Hev; by intros [? [=]]).
      split_and!; [| |done..]; intros n x; [rewrite Hc, cluster_hit_snoc|rewrite He, endpoint_hit_snoc]; tauto. }
  assert (errored (ss_reports st) up) as Herr by by exists ev.
  destruct (clusters_of (ss_store st) s !! UpstreamToClusterName up) as [c|] eqn:Hcl.
  - split; [done|]. cbn [update_store ss_store]. apply Hc in Hcl as [Hcl Hnh].
    destruct (delete_cluster_rest (Clusters s) (UpstreamToClusterName up) (ss_store st)) as (He1 & Hr1 & Hl1 & Hf1).
    destruct (delete_endpoint_rest (Endpoints s) (endpoint_name (UpstreamToClusterName up) c)
      (delete_cluster (Clusters s) (UpstreamToClusterName up) (ss_store st))) as (Hc2 & Hr2 & Hl2 & Hf2).
    split_and!; [| |congruence|congruence|congruence]; intros n x.
    + rewrite Hc2, delete_cluster_own, lookup_delete_Some, Hc, cluster_hit_snoc. naive_solver.
    + rewrite delete_endpoint_own, lookup_delete_Some, He1, He, endpoint_hit_snoc, Hcl. naive_solver.
  - split; [done|].
    assert (∀ c, clusters_of h s !! UpstreamToClusterName up = Some c → cluster_hit (ss_reports st) ups (UpstreamToClusterName up)) as Hgone.
    { intros c Hc0. apply dec_stable. intros Hn. by rewrite (proj2 (Hc _ _) (conj Hc0 Hn)) in Hcl. }
    split_and!; [| |done..]; intros n x; [rewrite Hc, cluster_hit_snoc|rewrite He, endpoint_hit_snoc].
    + split; [|tauto]. intros [Hx Hnh]. split; [done|]. intros [?|[_ <-]]; [done|]. apply Hnh. by eapply Hgone.
    + split; [|tauto]. intros [Hx Hnh]. split; [done|]. intros [?|(_ & c & Hc0 & <-)]; [done|]. apply Hnh.
      destruct (Hgone _ Hc0) as (up' & Hin & He' & Hn'). exists up', c. by rewrite Hn'.
Qed.

Lemma remove_upstreams_ok s ups st : let st' := foldl (λ st up, remove_upstream s up st) st ups in
  ss_reports st' = ss_reports st ∧ upstreams_removed (ss_reports st) s ups (ss_store st) (ss_store st').
Proof.
  simpl. induction ups as [|up ups IH] using rev_ind.
  { simpl. split; [done|]. split_and!; [| |done..]; intros n x; split; try tauto; intros Hx; (split; [done|]); [intros (? & ? & _)|intros (? & ? & ? & _)]; set_solver. }
  rewrite foldl_app. simpl. destruct IH as (Hr & IH). rewrite <-Hr in IH |- *.
  destruct (remove_upstream_ok s ups up (ss_store st) (foldl (λ st up, remove_upstream s up st) st ups)) as [Hr' Hok]; [by rewrite Hr in *|].
  split; [congruence|]. by rewrite Hr in *.
Qed.

(** Errors of upstreams become warnings. *)
Definition relaxed_upstreams (ups : list NamespacedName) (m m' : ResourceReports) : Prop :=
  ∀ k, m' !! k = match m !! k with
    | Some r => match rp_errors r with
                | Some e => if bool_decide (k ∈ map upstream_key ups) then Some {| rp_warnings := [ErrorString e]; rp_errors := None |} else Some r
                | None => Some r
                end
    | None => None
    end.

Lemma upstream_warnings_ok ups st : let st' := foldl (λ st up, upstream_warning up st) st ups in
  ss_store st' = ss_store st ∧ relaxed_upstreams ups (ss_reports st) (ss_reports st').
Proof.
  simpl. induction ups as [|up ups [Hs IH]] using rev_ind.
  { simpl. split; [done|]. intros k. destruct (_ !! k) as [r|]; [|done]. by destruct (rp_errors r). }
  rewrite foldl_app. simpl. set (st1 := foldl _ st ups) in *. unfold upstream_warning, report_of.
  assert (∀ k, bool_decide (k ∈ map upstream_key (ups ++ [up])) = bool_decide (k ∈ map upstream_key ups) || bool_decide (k = upstream_key up)) as Hsnoc.
  { intros k. rewrite <-bool_decide_or. apply bool_decide_ext. rewrite map_app, elem_of_app. simpl. by rewrite list_elem_of_singleton. }
  destruct (ss_reports st1 !! upstream_key up) as [r1|] eqn:Hr1; simpl;
    [destruct (rp_errors r1) as [e|] eqn:He1; simpl|]; (split; [done|]); intros k; rewrite ?IH.
  - destruct (decide (k = upstream_key up)) as [->|Hk].
    + rewrite lookup_insert_eq. rewrite IH in Hr1. destruct (ss_reports st !! upstream_key up) as [r|]; [|done].
      destruct (rp_errors r) as [e'|] eqn:He'; [|congruence].
      rewrite Hsnoc, (bool_decide_eq_true_2 (_ = _)), orb_true_r by done. case_bool_decide; simplify_eq/=; done.
    + rewrite lookup_insert_ne by done. rewrite IH. by rewrite Hsnoc, (bool_decide_eq_false_2 _ Hk), orb_false_r.
  - destruct (decide (k = upstream_key up)) as [->|Hk].
    + rewrite IH in Hr1. destruct (ss_reports st !! upstream_key up) as [r|]; [|done]. destruct (rp_errors r) as [e'|] eqn:He'; [|done].
      
      rewrite Hsnoc, (bool_decide_eq_true_2 (_ = _)), orb_true_r by done. case_bool_decide; simplify_eq/=; congruence.
    + by rewrite Hsnoc, (bool_decide_eq_false_2 _ Hk), orb_false_r.
  - destruct (decide (k = upstream_key up)) as [->|Hk].
    + rewrite IH in Hr1. destruct (ss_reports st !! upstream_key up) as [r|]; [|done]. destruct (rp_errors r); [case_bool_decide|]; done.
    + by rewrite Hsnoc, (bool_decide_eq_false_2 _ Hk), orb_false_r.
Qed.

(** When some resource has an error, exactly the clusters of upstreams with errors leave
    the snapshot, with their endpoints; nothing else changes; and the errors of these
    upstreams become a warning, in place of earlier warnings. *)
Theorem UpstreamRemovingSanitizer_exact ups s st : Validate (ss_reports st) = false →
  ∃ st', UpstreamRemovingSanitizer_SanitizeSnapshot ups s st = Ok (s, st') ∧
    upstreams_removed (ss_reports st) s ups (ss_store st) (ss_store st') ∧
    relaxed_upstreams ups (ss_reports st) (ss_reports st').
Proof.
  intros Hv. unfold UpstreamRemovingSanitizer_SanitizeSnapshot. rewrite Hv. eexists. split; [by destruct s|].
  destruct (remove_upstreams_ok s ups st) as [Hr Hrem]. destruct (upstream_warnings_ok ups (foldl (λ st up, remove_upstream s up st) st ups)) as [Hs Hrel].
  rewrite Hs. split; [done|]. by rewrite Hr in Hrel.
Qed.
End Upstreams.

(** ** Replacing routes *)
Section Replacing.
Context `{Errors, !SoloReports2, !SoloReports2Laws, !XdsCache, !XdsCacheLaws, !GoRange string, !GoRange (string * NamespacedName)}.

Lemma foldl_union_elem {A} (f : A → option string) (g : gset string → A → gset string) l (s : gset string) n :
  (∀ acc x, g acc x = match f x with Some y => {[y]} ∪ acc | None => acc end) →
  n ∈ foldl g s l ↔ n ∈ s ∨ ∃ x, x ∈ l ∧ f x = Some n.
Proof.
  intros Hg. revert s. induction l as [|x l IH]; intros s; simpl; [set_solver|]. rewrite IH, Hg. destruct (f x) as [y|] eqn:Hy.
  - rewrite elem_of_union, elem_of_singleton. split.
    + intros [[->|Hn]|(x' & Hx' & Hf)]; [right; exists x|by left|right; exists x']; (split; [|done]); set_solver.
    + intros [Hn|(x' & [->|Hx']%elem_of_cons & Hf)]; [auto|left; left; congruence|eauto].
  - split; [intros [Hn|(x' & Hx' & Hf)]; [by left|right; exists x'; set_solver]|].
    intros [Hn|(x' & [->|Hx']%elem_of_cons & Hf)]; [by left|congruence|eauto].
Qed.

(** Valid clusters: those in the snapshot that an upstream of the API snapshot has, or
    that gloo generates. *)
Lemma getClusters_spec ups s h n : n ∈ getClusters ups s h ↔ is_Some (clusters_of h s !! n) ∧
  ((∃ up, up ∈ ups ∧ UpstreamToClusterName up = n) ∨ has_prefix n SoloGeneratedClusterPrefix = true).
Proof.
  unfold getClusters.
  rewrite (foldl_union_elem (λ x : string * Cluster, if has_prefix x.1 SoloGeneratedClusterPrefix then Some x.1 else None))
    by (intros acc [k c]; simpl; by destruct (has_prefix k _)).
  rewrite (foldl_union_elem (λ up, clusters_of h s !! UpstreamToClusterName up ≫= λ _, Some (UpstreamToClusterName up)))
    by (intros acc up; simpl; by destruct (clusters_of h s !! _)).
  split.
  - intros [[Hn|(up & Hup & Hx)]|([k c] & Hk & Hx)]; [set_solver| |].
    + destruct (clusters_of h s !! UpstreamToClusterName up) eqn:Hc; simplify_eq/=. split; [rewrite Hc; eauto|eauto].
    + apply go_range_elem in Hk. simpl in Hx. destruct (has_prefix k _) eqn:Hp; simplify_eq. split; [eauto|by right].
  - intros [[c Hc] [(up & Hup & <-)|Hp]].
    + left. right. exists up. split; [done|]. by rewrite Hc.
    + right. exists (n, c). split; [by apply go_range_elem|]. simpl. by rewrite Hp.
Qed.

(** *** The configurations of a snapshot *)
Definition keyed (h : Store) (s : Snapshot) : Prop := ∀ n p, routes_of h s !! n = Some p → rc_name (config h p) = n.

Lemma getRoutes_elem s h p : p ∈ getRoutes s h ↔ ∃ n, routes_of h s !! n = Some p.
Proof.
  unfold getRoutes. rewrite sort_stable_perm, list_elem_of_fmap. split.
  - intros ([n q] & -> & Hq). exists n. by apply go_range_elem.
  - intros [n Hn]. exists (n, p). split; [done|]. by apply go_range_elem.
Qed.
Lemma getRoutes_names_nodup s h : keyed h s → NoDup (map (λ p, rc_name (config h p)) (getRoutes s h)).
Proof.
  intros Hk. unfold getRoutes. rewrite sort_stable_perm, map_map.
  rewrite (map_ext_in _ fst); [apply go_range_nodup|]. intros [n p] Hin. apply Hk. apply go_range_elem. by apply list_elem_of_In.
Qed.
Lemma getRoutes_nodup s h : keyed h s → NoDup (getRoutes s h).
Proof. intros Hk. eapply NoDup_fmap_1. by apply getRoutes_names_nodup. Qed.

(** *** Replacing in place *)
Lemma replaceRoutes_ok fb valid errored ps h : NoDup ps →
  let '(any, h') := replaceRoutes fb valid errored ps h in
  any = existsb (λ p, snd (replace_config fb valid errored (config h p))) ps ∧
  (∀ p, config h' p = if bool_decide (p ∈ ps) then fst (replace_config fb valid errored (config h p)) else config h p) ∧
  x_endpoints h' = x_endpoints h ∧ x_clusters h' = x_clusters h ∧ x_routes h' = x_routes h ∧ x_listeners h' = x_listeners h ∧ x_next h' = x_next h.
Proof.
  intros Hnd. unfold replaceRoutes. induction ps as [|p ps IH] using rev_ind; [done|].
  apply NoDup_app in Hnd as (Hnd & Hp & _). rewrite foldl_app. specialize (IH Hnd). destruct (foldl _ _ ps) as [any h1]. cbn [foldl].
  destruct IH as (-> & Hc & He & Hcl & Hr & Hl & Hn). rewrite Hc, bool_decide_eq_false_2 by (intros Hin; eapply Hp; [done|set_solver]).
  destruct (replace_config fb valid errored (config h p)) as [c b] eqn:Hrep. split; [rewrite existsb_app; cbn [existsb]; by rewrite Hrep, orb_false_r|].
  split; [|done]. intros q. unfold config at 1. cbn [set_config x_configs]. destruct (decide (q = p)) as [->|Hq].
  - rewrite lookup_insert_eq, bool_decide_eq_true_2 by set_solver. by rewrite Hrep.
  - rewrite lookup_insert_ne by done. fold (config h1 q). rewrite Hc. rewrite (bool_decide_ext (q ∈ ps ++ [p]) (q ∈ ps)); [done|]. set_solver.
Qed.

(** *** Errors of routes *)
(** The route an error is about, when the sanitizer can tell. *)
Definition route_of_error (e : error) : option string := if Is e (New RouteErrorMsg) then FindRouteName (Error e) else None.
Definition about_route (e : error) : bool := bool_decide (is_Some (route_of_error e)).
Definition relax (r : ResourceReport) : ResourceReport :=
  {| rp_warnings := rp_warnings r ++ map Error (List.filter about_route (errors_of r));
     rp_errors := match List.filter (λ e, negb (about_route e)) (errors_of r) with [] => None | l => Some (Multierror l) end |}.
Definition relaxed_proxies (m m' : ResourceReports) : Prop := ∀ k, m' !! k = if bool_decide (k.1 = ProxyKind) then relax <$> m !! k else m !! k.
Definition errored_route (m : ResourceReports) (n : string) : Prop :=
  ∃ k r e, k.1 = ProxyKind ∧ m !! k = Some r ∧ e ∈ errors_of r ∧ route_of_error e = Some n.

Lemma split_errors es E W R : ∃ E', foldl split_error (E, W, R) es =
    (E', W ++ map Error (List.filter about_route es), R ++ List.filter (λ e, negb (about_route e)) es) ∧
  ∀ n, n ∈ E' ↔ n ∈ E ∨ ∃ e, e ∈ es ∧ route_of_error e = Some n.
Proof.
  revert E W R. induction es as [|e es IH]; intros E W R; cbn [foldl List.filter]; [exists E; simpl; rewrite !app_nil_r; set_solver|].
  assert (split_error (E, W, R) e = match route_of_error e with
    | Some name => ({[name]} ∪ E, W ++ [Error e], R) | None => (E, W, R ++ [e]) end) as ->.
  { unfold split_error, route_of_error. destruct (Is e _); [|done]. by destruct (FindRouteName _). }
  assert (about_route e = bool_decide (is_Some (route_of_error e))) as -> by done. destruct (route_of_error e) as [name|] eqn:He.
  - rewrite bool_decide_eq_true_2 by eauto. destruct (IH ({[name]} ∪ E) (W ++ [Error e]) R) as (E' & -> & HE'). exists E'.
    simpl. split; [by rewrite <-(assoc_L (++))|]. intros n. rewrite HE', elem_of_union, elem_of_singleton. split.
    + intros [[->|Hn]|(e' & Hin & Hn)]; [right; exists e; set_solver|by left|right; exists e'; set_solver].
    + intros [Hn|(e' & [->|Hin]%elem_of_cons & Hn)]; [auto|left; left; congruence|eauto].
  - rewrite bool_decide_eq_false_2 by (intros [? [=]]). destruct (IH E W (R ++ [e])) as (E' & -> & HE'). exists E'.
    simpl. split; [by rewrite <-(assoc_L (++))|]. intros n. rewrite HE'. split.
    + intros [Hn|(e' & Hin & Hn)]; [by left|right; exists e'; set_solver].
    + intros [Hn|(e' & [->|Hin]%elem_of_cons & Hn)]; [auto|congruence|eauto].
Qed.

Lemma remove_errored_ok E k r st : multi r → ∃ E', remove_errored E k r st =
    Ok (E', match rp_errors r with None => st | Some _ => update_reports (insert k (relax r)) st end) ∧
  ∀ n, n ∈ E' ↔ n ∈ E ∨ ∃ e, e ∈ errors_of r ∧ route_of_error e = Some n.
Proof.
  unfold multi, remove_errored, relax, errors_of. destruct r as [w [[es|e]|]]; simpl; [|done|].
  - intros _. destruct (split_errors es E w []) as (E' & -> & HE'). exists E'. split; [|exact HE']. simpl. by destruct (List.filter (λ e, negb (about_route e)) es).
  - intros _. exists E. split; [done|]. set_solver.
Qed.

(** After the reports of a list. *)
Definition swept (st : SState) (pre : list (string * NamespacedName * ResourceReport)) (E : gset string) (st' : SState) : Prop :=
  ss_store st' = ss_store st ∧
  (∀ n, n ∈ E ↔ ∃ k r e, (k, r) ∈ pre ∧ e ∈ errors_of r ∧ route_of_error e = Some n) ∧
  (∀ k, ss_reports st' !! k = if bool_decide (k ∈ pre.*1) then relax <$> ss_reports st !! k else ss_reports st !! k).

Lemma removeErrored_ok st : (∀ k r, ss_reports st !! k = Some r → k.1 = ProxyKind → multi r) →
  ∃ E st', removeErroredRoutesFromReport (FilterByKind ProxyKind (ss_reports st)) st = Ok (E, st') ∧
    ss_store st' = ss_store st ∧ (∀ n, n ∈ E ↔ errored_route (ss_reports st) n) ∧ relaxed_proxies (ss_reports st) (ss_reports st').
Proof.
  intros Hm. set (l := go_range (FilterByKind ProxyKind (ss_reports st))).
  assert (∀ k r, (k, r) ∈ l ↔ k.1 = ProxyKind ∧ ss_reports st !! k = Some r) as Hl.
  { intros k r. unfold l. rewrite go_range_elem, FilterByKind_spec. case_bool_decide; naive_solver. }
  assert (wp (removeErroredRoutesFromReport (FilterByKind ProxyKind (ss_reports st))) (swept st l) st) as Hwp.
  { apply (wp_fold_range_prefix (swept st) _ l 0 []).
    { split; [done|]. split; [set_solver|]. done. }
    intros _ pre [k r] E st1 Hin (Hs & HE & Hr). apply Hl in Hin as [Hk Hin].
    destruct (remove_errored_ok E k r st1) as (E' & Hrun & HE'); [by eapply Hm|]. unfold wp. rewrite Hrun. split; [|split].
    - by destruct (rp_errors r).
    - intros n. rewrite HE', HE. split.
      + intros [(k' & r' & e & ? & ?)|(e & ? & ?)]; [exists k', r', e; set_solver|exists k, r, e; set_solver].
      + intros (k' & r' & e & Hin' & He). apply elem_of_app in Hin' as [?|Hin']; [left; eauto 7|right]. exists e. set_solver.
    - intros k'. rewrite fmap_app. simpl. destruct (decide (k' = k)) as [->|Hk'].
      + rewrite bool_decide_eq_true_2 by set_solver. rewrite Hin. simpl. destruct (rp_errors r) as [ev|] eqn:Hev; simpl; [by rewrite lookup_insert_eq|].
        rewrite Hr, Hin. assert (relax r = r) as Hrel.
        { unfold relax, errors_of. rewrite Hev. simpl. rewrite app_nil_r. destruct r. simpl in *. by rewrite Hev. }
        case_bool_decide; simpl; by rewrite ?Hrel.
      + rewrite (bool_decide_ext (k' ∈ pre.*1 ++ [k]) (k' ∈ pre.*1)) by set_solver. destruct (rp_errors r); simpl; [rewrite lookup_insert_ne by done|]; apply Hr. }
  apply wp_run in Hwp as (E & st' & Hrun & Hs & HE & Hr). exists E, st'. split; [done|]. split; [done|]. split.
  - intros n. rewrite HE. unfold errored_route. setoid_rewrite Hl. naive_solver.
  - intros k. rewrite Hr. destruct (ss_reports st !! k) as [r|] eqn:Hk; [|by repeat case_bool_decide].
    rewrite (bool_decide_ext (k ∈ l.*1) (k.1 = ProxyKind)); [done|]. rewrite list_elem_of_fmap. split.
    + intros ([k' r'] & -> & Hin). by apply Hl in Hin as [? _].
    + intros Hp. exists (k, r). split; [done|]. by apply Hl.
Qed.

(** *** The new snapshot *)
Lemma MakeRds_ok ps h : NoDup (map (λ p, rc_name (config h p)) ps) → ∃ r h', MakeRdsResources ps h = Ok (r, h') ∧
  (∀ n p, read (x_routes h') r !! n = Some p ↔ p ∈ ps ∧ rc_name (config h p) = n ∧ rc_virtualHosts (config h p) ≠ []) ∧
  x_endpoints h' = x_endpoints h ∧ x_clusters h' = x_clusters h ∧ x_listeners h' = x_listeners h ∧ x_configs h' = x_configs h.
Proof.
  intros Hnd. eexists _, _. split; [done|]. split; [|done]. intros n p. unfold read. simpl. rewrite lookup_insert_eq. simpl.
  rewrite IndexResourcesByName_spec.
  - rewrite list_elem_of_fmap. setoid_rewrite elem_of_filter_bool. split.
    + intros (q & [= -> ->] & Hin & Hv). split_and!; [done|done|]. by destruct (rc_virtualHosts (config h q)).
    + intros (Hin & <- & Hv). exists p. split; [done|]. split; [done|]. by destruct (rc_virtualHosts (config h p)).
  - rewrite map_map. simpl. eapply sublist_NoDup; [exact Hnd|]. apply (fmap_sublist (λ p, rc_name (config h p))), filter_sublist.
Qed.

Lemma insertFallbackListener_ok l r h : let '(r', h') := insertFallbackListener l r h in
  x_endpoints h' = x_endpoints h ∧ x_clusters h' = x_clusters h ∧ x_routes h' = x_routes h ∧ x_configs h' = x_configs h ∧
  read (x_listeners h') r' = <[ls_name l := l]> (read (x_listeners h) r).
Proof. unfold insertFallbackListener, read. destruct (items r) as [p|]; simpl; (split_and!; [done..|]); by rewrite lookup_insert_eq. Qed.
Lemma insertFallbackCluster_ok c r h : let '(r', h') := insertFallbackCluster c r h in
  x_endpoints h' = x_endpoints h ∧ x_listeners h' = x_listeners h ∧ x_routes h' = x_routes h ∧ x_configs h' = x_configs h ∧
  read (x_clusters h') r' = <[cl_name c := c]> (read (x_clusters h) r).
Proof. unfold insertFallbackCluster, read. destruct (items r) as [p|]; simpl; (split_and!; [done..|]); by rewrite lookup_insert_eq. Qed.

(** The clusters a route sends to. *)
Definition route_clusters (r : Route) : list string :=
  match xr_action r with
  | Route_Route (RouteAction_Cluster n) _ => [n]
  | Route_Route (RouteAction_WeightedClusters l) _ => map fst l
  | _ => []
  end.
Definition config_clusters (c : RouteConfiguration) : list string := flat_map (λ v, flat_map route_clusters (xv_routes v)) (rc_virtualHosts c).

(** After the replacement a route sends to valid clusters or to the fallback, to the
    latter only where something was replaced. *)
Lemma replaced_clusters fb valid E c n : n ∈ config_clusters (fst (replace_config fb valid E c)) →
  n ∈ valid ∨ (n = fb ∧ snd (replace_config fb valid E c) = true).
Proof.
  unfold config_clusters. intros Hn. apply elem_of_flat_map in Hn as (v & Hv & Hn). apply list_elem_of_fmap in Hv as (v0 & -> & Hv).
  apply elem_of_flat_map in Hn as (r & Hr & Hn). apply list_elem_of_fmap in Hr as (r0 & -> & Hr).
  enough (n ∈ valid ∨ (n = fb ∧ snd (replace_route fb valid E r0) = true)) as [?|[-> Hs]]; [by left|right; split; [done|]|].
  { apply existsb_elem. exists v0. split; [done|]. apply existsb_elem. by exists r0. }
  clear Hv Hr. destruct r0 as [rn m a]. unfold replace_route, route_clusters in *. simpl in *.
  assert (∀ x, target fb valid E rn x ∈ valid ∨ (target fb valid E rn x = fb ∧ isInvalid valid E x rn = true)) as Ht.
  { intros x. unfold target. destruct (isInvalid valid E x rn) eqn:Hi; [by right|left]. unfold isInvalid in Hi.
    apply orb_false_iff in Hi as [Hi _]. apply negb_false_iff, bool_decide_eq_true in Hi. done. }
  destruct a as [sp o| |]; simpl in *; [|set_solver..]. destruct sp as [x|l|]; simpl in *; [|  |set_solver].
  - apply list_elem_of_singleton in Hn as ->. apply Ht.
  - apply list_elem_of_fmap in Hn as ([x o'] & -> & Hx). apply list_elem_of_fmap in Hx as ([x0 o0] & [= -> ->] & Hx).
    destruct (Ht x0) as [?|[Hf Hi]]; [by left|right]. split; [done|]. apply existsb_elem. by exists (x0, o0).
Qed.

(** The fallback listener and cluster, when something was replaced. *)
Lemma fallback_ok z s (any : bool) h m {A} (k : Resources → Resources → M SState A) : ∃ lr cr h',
  (listeners <~ (if any then on_store (insertFallbackListener (fallbackListener z) (Listeners s)) else ret (Listeners s)) ;;
   clusters <~ (if any then on_store (insertFallbackCluster (fallbackCluster z) (Clusters s)) else ret (Clusters s)) ;;
   k listeners clusters) {| ss_store := h; ss_reports := m |} = k lr cr {| ss_store := h'; ss_reports := m |} ∧
  x_endpoints h' = x_endpoints h ∧ x_routes h' = x_routes h ∧ x_configs h' = x_configs h ∧
  read (x_clusters h') cr = (if any then <[cl_name (fallbackCluster z) := fallbackCluster z]> (clusters_of h s) else clusters_of h s) ∧
  read (x_listeners h') lr = (if any then <[ls_name (fallbackListener z) := fallbackListener z]> (listeners_of h s) else listeners_of h s).
Proof.
  unfold bind, on_store, ret, clusters_of, listeners_of. destruct any; cbn [ss_store ss_reports]; [|by exists (Listeners s), (Clusters s), h].
  pose proof (insertFallbackListener_ok (fallbackListener z) (Listeners s) h) as Hl. destruct (insertFallbackListener _ _ _) as [r2 h2].
  destruct Hl as (He2 & Hcl2 & Hr2 & Hf2 & Hl2). cbn [ss_store ss_reports].
  pose proof (insertFallbackCluster_ok (fallbackCluster z) (Clusters s) h2) as Hc. destruct (insertFallbackCluster _ _ _) as [r3 h3].
  destruct Hc as (He3 & Hl3 & Hr3 & Hf3 & Hc3). exists r2, r3, h3. rewrite Hc3, Hl3, Hl2, Hcl2.
  split; [done|]. split_and!; [by rewrite He3|by rewrite Hr3|by rewrite Hf3|done..].
Qed.

(** The replaced configurations under their names. *)
Lemma rebuilt_routes s h h1 fb valid E : keyed h s →
  (∀ p, p ∈ getRoutes s h → config h1 p = fst (replace_config fb valid E (config h p))) →
  ∃ rr h', MakeRdsResources (getRoutes s h) h1 = Ok (rr, h') ∧
    (∀ n p, read (x_routes h') rr !! n = Some p ↔ routes_of h s !! n = Some p ∧ rc_virtualHosts (config h p) ≠ []) ∧
    x_endpoints h' = x_endpoints h1 ∧ x_clusters h' = x_clusters h1 ∧ x_listeners h' = x_listeners h1 ∧ x_configs h' = x_configs h1.
Proof.
  intros Hk Hnew. destruct (MakeRds_ok (getRoutes s h) h1) as (rr & h' & Hrds & Hroutes & Hrest).
  { rewrite (map_ext_in _ (λ p, rc_name (config h p))); [by apply getRoutes_names_nodup|]. intros p Hp. rewrite Hnew; [done|by apply list_elem_of_In]. }
  exists rr, h'. split; [done|]. split; [|done]. intros n p. rewrite Hroutes. split.
  - intros (Hp & Hn & Hv). rewrite Hnew in Hn, Hv by done. apply getRoutes_elem in Hp as [n' Hp]. simpl in Hn. rewrite (Hk _ _ Hp) in Hn. subst n'.
    split; [done|]. intros Hv'. apply Hv. simpl. by rewrite Hv'.
  - intros [Hp Hv]. assert (p ∈ getRoutes s h) as Hin by (apply getRoutes_elem; eauto). rewrite Hnew by done. split; [done|]. split; [by apply Hk|].
    simpl. by destruct (rc_virtualHosts (config h p)).
Qed.

(** C39. With replacement enabled, the sanitizer returns a snapshot in which: each route
    configuration that has virtual hosts is there, with its targets that are not valid
    clusters, or whose route has an error, replaced by the fallback; no route sends to a
    cluster that is missing; clusters and listeners only gain the fallback; the errors of
    these routes are warnings of their proxies. *)
Theorem RouteReplacingSanitizer_correct z ups s st :
  enabled z = true → keyed (ss_store st) s → routes_of (ss_store st) s ≠ ∅ →
  (∀ k r, ss_reports st !! k = Some r → k.1 = ProxyKind → multi r) →
  ∃ E s' st', RouteReplacingSanitizer_SanitizeSnapshot z ups s st = Ok (s', st') ∧
    let h := ss_store st in let h' := ss_store st' in
    (∀ n, n ∈ E ↔ errored_route (ss_reports st) n) ∧
    relaxed_proxies (ss_reports st) (ss_reports st') ∧
    (∀ n p, routes_of h' s' !! n = Some p ↔ routes_of h s !! n = Some p ∧ rc_virtualHosts (config h p) ≠ []) ∧
    (∀ n p, routes_of h s !! n = Some p →
       config h' p = fst (replace_config (cl_name (fallbackCluster z)) (getClusters ups s h) E (config h p))) ∧
    (∀ n p c, routes_of h' s' !! n = Some p → c ∈ config_clusters (config h' p) → is_Some (clusters_of h' s' !! c)) ∧
    (clusters_of h' s' = clusters_of h s ∨ clusters_of h' s' = <[cl_name (fallbackCluster z) := fallbackCluster z]> (clusters_of h s)) ∧
    (listeners_of h' s' = listeners_of h s ∨ listeners_of h' s' = <[ls_name (fallbackListener z) := fallbackListener z]> (listeners_of h s)) ∧
    endpoints_of h' s' = endpoints_of h s.
Proof.
  intros Hen Hk Hne Hm. destruct (removeErrored_ok st Hm) as (E & [h0 m1] & Hrun & Hs1 & HE & Hrel). cbn [ss_store] in Hs1. subst h0.
  set (h := ss_store st) in *. set (fb := cl_name (fallbackCluster z)). set (valid := getClusters ups s h). set (ps := getRoutes s h).
  assert (∀ A (x y : A), match ps with [] => x | _ => y end = y) as Hmatch.
  { intros A x y. destruct ps eqn:Hps; [|done]. apply map_choose in Hne as (n & p & Hp). assert (p ∈ ps) as Hin by (apply getRoutes_elem; eauto).
    rewrite Hps in Hin. set_solver. }
  pose proof (replaceRoutes_ok fb valid E ps h (getRoutes_nodup _ _ Hk)) as Hrep.
  destruct (replaceRoutes fb valid E ps h) as [any h1] eqn:Hrun1. destruct Hrep as (Hany & Hc1 & He1 & Hcl1 & Hr1 & Hl1 & Hn1).
  destruct (fallback_ok z s any h1 m1 (λ listeners clusters, routes <~ on_store_res (MakeRdsResources ps) ;;
    ret (NewSnapshotFromResources (Endpoints s) clusters routes listeners))) as (lr & cr & h3 & Hrun3 & He3 & Hr3 & Hf3 & Hcl3 & Hl3).
  assert (∀ p, p ∈ ps → config h3 p = fst (replace_config fb valid E (config h p))) as Hnew.
  { intros p Hp. transitivity (config h1 p); [unfold config; by rewrite Hf3|]. by rewrite Hc1, bool_decide_eq_true_2. }
  destruct (rebuilt_routes s h h3 fb valid E Hk Hnew) as (rr & h4 & Hrds & Hro & He4 & Hcl4 & Hl4 & Hf4).
  exists E, (NewSnapshotFromResources (Endpoints s) cr rr lr), {| ss_store := h4; ss_reports := m1 |}.
  assert (clusters_of h4 (NewSnapshotFromResources (Endpoints s) cr rr lr) = if any then <[fb := fallbackCluster z]> (clusters_of h s) else clusters_of h s) as Hcl.
  { unfold clusters_of in *. simpl. by rewrite Hcl4, Hcl3, Hcl1. }
  assert (∀ n p, routes_of h s !! n = Some p → config h4 p = fst (replace_config fb valid E (config h p))) as Hcfg.
  { intros n p Hp. transitivity (config h3 p); [unfold config; by rewrite Hf4|]. apply Hnew, getRoutes_elem. eauto. }
  split; [|split_and!; [exact HE|exact Hrel|exact Hro|exact Hcfg| | | |]].
  - unfold RouteReplacingSanitizer_SanitizeSnapshot. rewrite Hen. cbn [negb]. unfold bind at 1, gets at 1. fold h ps. rewrite Hmatch.
    unfold bind at 1, gets at 1. fold h valid. unfold bind at 1, gets at 1. unfold bind at 1. rewrite Hrun. unfold bind at 1, on_store at 1.
    cbn [ss_store ss_reports]. fold fb. rewrite Hrun1, Hrun3. unfold bind, on_store_res. cbn [ss_store ss_reports]. unfold ps. by rewrite Hrds.
  - intros n p c Hp Hc. apply Hro in Hp as [Hp _]. simpl in Hc. rewrite (Hcfg _ _ Hp) in Hc. cbn [ss_store]. rewrite Hcl. apply replaced_clusters in Hc as [Hc|[-> Hc]].
    + apply getClusters_spec in Hc as [Hc _]. destruct any; [|done]. destruct (decide (fb = c)) as [<-|]; [by rewrite lookup_insert_eq; eauto|by rewrite lookup_insert_ne].
    + assert (any = true) as ->; [|by rewrite lookup_insert_eq; eauto]. rewrite Hany. apply existsb_elem. exists p. split; [apply getRoutes_elem; eauto|done].
  - cbn [ss_store]. rewrite Hcl. destruct any; auto.
  - unfold listeners_of in *. simpl. rewrite Hl4, Hl3, Hl1. destruct any; auto.
  - unfold endpoints_of. simpl. by rewrite He4, He3, He1.
Qed.
End Replacing.

(** ** Consistency *)
Section Consistent.
Context `{XdsCache, !GoRange string}.

Lemma remove_unreferenced_lookup {A B} (children : gmap string B) (m : gmap string A) k :
  remove_unreferenced children m !! k = if bool_decide (is_Some (children !! k)) then m !! k else None.
Proof.
  unfold remove_unreferenced.
  assert (∀ (l : list (string * A)) m0, foldl (λ (m : gmap string A) '(n, _), if bool_decide (is_Some (children !! n)) then m else base.delete n m) m0 l !! k =
    if bool_decide (k ∈ l.*1 ∧ ¬ is_Some (children !! k)) then None else m0 !! k) as Hl.
  { induction l as [|[n a] l IH]; intros m0; [case_bool_decide; [set_solver|done]|]. cbn [foldl]. rewrite IH, fmap_cons. cbn [fst].
    destruct (decide (n = k)) as [->|Hn].
    - destruct (decide (is_Some (children !! k))) as [Hc|Hc].
      + rewrite (bool_decide_eq_true_2 _ Hc), !bool_decide_eq_false_2 by tauto. done.
      + rewrite (bool_decide_eq_false_2 _ Hc), lookup_delete_eq, (bool_decide_eq_true_2 (k ∈ k :: l.*1 ∧ ¬ is_Some (children !! k))) by (split; [by left|done]). by case_bool_decide.
    - rewrite (bool_decide_ext (k ∈ n :: l.*1 ∧ ¬ is_Some (children !! k)) (k ∈ l.*1 ∧ ¬ is_Some (children !! k))) by set_solver.
      case_bool_decide; [done|]. case_bool_decide; [done|]. by rewrite lookup_delete_ne. }
  rewrite Hl. case_bool_decide as Hd; case_bool_decide as Hc; [tauto|done|done|]. destruct (m !! k) as [a|] eqn:Hk; [|done].
  exfalso. apply Hd. split; [|done]. apply list_elem_of_fmap. exists (k, a). split; [done|]. by apply go_range_elem.
Qed.

Lemma add_placeholder_endpoints_lookup children persisted m k :
  add_placeholder_endpoints children persisted m !! k =
  if bool_decide (k ∈ persisted) then m !! k else match children !! k with Some c => Some (placeholder_endpoint c) | None => m !! k end.
Proof.
  unfold add_placeholder_endpoints. pose proof (go_range_nodup children) as Hnd.
  assert (∀ c, children !! k = Some c ↔ (k, c) ∈ go_range children) as Hc by (intros c; by rewrite go_range_elem).
  revert m Hnd Hc. generalize (go_range children). intros l. revert children.
  induction l as [|[n c] l IH] using rev_ind; intros children m Hnd Hc; simpl.
  { destruct (children !! k) as [c|]; [|by case_bool_decide]. by pose proof (proj1 (Hc c) eq_refl) as Hin%not_elem_of_nil. }
  rewrite fmap_app in Hnd. apply NoDup_app in Hnd as (Hnd & Hdis & _). rewrite foldl_app. simpl. destruct (decide (n = k)) as [->|Hn].
  - rewrite (proj2 (Hc c)) by set_solver. case_bool_decide as Hp.
    + rewrite (IH ∅); [done|done|]. intros c'. rewrite lookup_empty. split; [done|]. intros Hin. exfalso.
      eapply Hdis; [|by left]. apply list_elem_of_fmap. by exists (k, c').
    + by rewrite lookup_insert_eq.
  - assert (∀ c', children !! k = Some c' ↔ (k, c') ∈ l) as Hc'.
    { intros c'. rewrite Hc, elem_of_app, list_elem_of_singleton. split; [intros [?|[=]]; [done|congruence]|by left]. }
    rewrite <-(IH children m Hnd Hc'). destruct (bool_decide (n ∈ persisted)); [done|by rewrite lookup_insert_ne].
Qed.

Definition route_items (p : positive) (h : Store) : gmap string positive := default ∅ (x_routes h !! p).

Lemma placeholder_routes_ok l persisted p h : ∃ h', for_range l (add_placeholder_route persisted p) h = Ok (tt, h') ∧
  (x_endpoints h' = x_endpoints h ∧ x_clusters h' = x_clusters h ∧ x_listeners h' = x_listeners h) ∧
  (∀ k, is_Some (route_items p h' !! k) ↔ is_Some (route_items p h !! k) ∨ (k ∈ l.*1 ∧ k ∉ persisted)) ∧
  (∀ k, k ∈ persisted → route_items p h' !! k = route_items p h !! k).
Proof.
  revert h. induction l as [|[n ls] l IH]; intros h; [exists h; split; [done|]; set_solver|].
  cbn [for_range]. unfold bind at 1, add_placeholder_route at 1. case_bool_decide as Hp.
  - destruct (IH h) as (h' & Hrun & Htab & Hdom & Hkeep). exists h'. split; [exact Hrun|]. split; [done|]. split; [|done]. intros k.
    rewrite Hdom, fmap_cons. cbn [fst]. set_solver.
  - cbn [fresh]. set (h1 := set_routes p _ _). destruct (IH h1) as (h' & Hrun & Htab & Hdom & Hkeep). exists h'. split; [exact Hrun|].
    assert (route_items p h1 = <[n := x_next h]> (route_items p h)) as Hr1 by (unfold route_items, h1; simpl; by rewrite lookup_insert_eq).
    split; [done|]. split; intros k.
    + rewrite Hdom, Hr1, fmap_cons. cbn [fst]. destruct (decide (n = k)) as [<-|Hn]; [rewrite lookup_insert_eq; set_solver|].
      rewrite lookup_insert_ne by done. set_solver.
    + intros Hk. rewrite Hkeep, Hr1, lookup_insert_ne; [done|set_solver|done].
Qed.

(** C40. A snapshot whose tables are keyed by the names of their resources is made consistent:
    the endpoints are exactly those the clusters refer to, the route configurations those
    the listeners refer to; what is there and referred to stays, what is missing is an
    empty placeholder, and clusters and listeners are untouched. *)
Theorem MakeConsistent_consistent s h pe pr :
  items (Endpoints s) = Some pe → items (Routes s) = Some pr →
  (∀ n e, endpoints_of h s !! n = Some e → ce_clusterName e = n) → keyed h s →
  ∃ h', MakeConsistent (Some s) h = Ok (tt, h') ∧ clusters_of h' s = clusters_of h s ∧ listeners_of h' s = listeners_of h s ∧
    (∀ n, endpoints_of h' s !! n = option_map (λ c, default (placeholder_endpoint c) (endpoints_of h s !! n)) (cluster_references (clusters_of h s) !! n)) ∧
    (∀ n, is_Some (routes_of h' s !! n) ↔ is_Some (listener_references (listeners_of h s) !! n)) ∧
    (∀ n p, is_Some (listener_references (listeners_of h s) !! n) → routes_of h s !! n = Some p → routes_of h' s !! n = Some p).
Proof.
  intros He Hr Hke Hkr. unfold MakeConsistent, consistent_endpoints, consistent_routes, bind, modify. rewrite He, Hr.
  set (cs := cluster_references (clusters_of h s)). set (em := add_placeholder_endpoints _ _ _). set (h1 := set_endpoints pe _ h).
  assert (routes_of h1 s = routes_of h s ∧ listeners_of h1 s = listeners_of h s ∧ config h1 = config h) as (Hro & Hl & Hcf) by done.
  rewrite Hro, Hl, Hcf. set (ls := listener_references (listeners_of h s)).
  set (persisted := map (λ '(_, c), rc_name (config h c)) (go_range (routes_of h s))).
  destruct (placeholder_routes_ok (go_range ls) persisted pr h1) as (h2 & Hrun & (He2 & Hc2 & Hl2) & Hdom & Hkeep). rewrite Hrun.
  assert (∀ k, k ∈ persisted ↔ is_Some (routes_of h s !! k)) as Hpers.
  { intros k. unfold persisted. rewrite list_elem_of_fmap. split.
    - intros ([n c] & -> & Hin). apply go_range_elem in Hin. rewrite (Hkr _ _ Hin). eauto.
    - intros [c Hc]. exists (k, c). split; [by rewrite (Hkr _ _ Hc)|by apply go_range_elem]. }
  assert (route_items pr h1 = routes_of h s) as Hitems by (unfold route_items, routes_of, read; by rewrite Hr).
  eexists. split; [done|]. split; [unfold clusters_of, read; simpl; by rewrite Hc2|]. split; [unfold listeners_of, read; simpl; by rewrite Hl2|].
  assert (∀ k, routes_of (set_routes pr (remove_unreferenced ls (default ∅ (x_routes h2 !! pr))) h2) s !! k =
    if bool_decide (is_Some (ls !! k)) then route_items pr h2 !! k else None) as Hfinal.
  { intros k. unfold routes_of, read. rewrite Hr. simpl. rewrite lookup_insert_eq. apply remove_unreferenced_lookup. }
  split; [|split].
  - intros n. unfold endpoints_of at 1, read. rewrite He. simpl. rewrite He2. simpl. rewrite lookup_insert_eq. simpl.
    rewrite remove_unreferenced_lookup. unfold em. rewrite add_placeholder_endpoints_lookup. fold cs. destruct (cs !! n) as [c|]; simpl; [|done].
    destruct (endpoints_of h s !! n) as [e|] eqn:Hn; simpl.
    + rewrite bool_decide_eq_true_2; [done|]. apply list_elem_of_fmap. exists (n, e). split; [by rewrite (Hke _ _ Hn)|by apply go_range_elem].
    + rewrite bool_decide_eq_false_2; [done|]. intros Hin. apply list_elem_of_fmap in Hin as ([n' e] & -> & Hin).
      apply go_range_elem in Hin. rewrite (Hke _ _ Hin) in Hn. congruence.
  - intros n. rewrite Hfinal. case_bool_decide as Hn; [|split; [intros [? [=]]|done]]. rewrite Hdom, Hitems, Hpers. split; [done|intros _].
    destruct (routes_of h s !! n) eqn:Hrn; [left; eauto|right]. split; [|by intros [? [=]]]. destruct Hn as [l Hn].
    apply list_elem_of_fmap. exists (n, l). split; [done|]. by apply go_range_elem.
  - intros n p Hn Hp. rewrite Hfinal, bool_decide_eq_true_2, Hkeep, Hitems by (try apply Hpers; eauto). done.
Qed.
End Consistent.

(** ** Examples *)
#[local] Existing Instance list_order.
#[local] Instance simple_reports2 : SoloReports2 := {|
  Validate m := bool_decide (map_Forall (λ _ r, rp_errors r = None) m);
  FilterByKind kind m := filter (λ p, p.1.1 = kind) m;
  ErrorString e := match e with Multierror l => join ", " (map Error l) | OtherError e => Error e end |}.
#[local] Instance simple_reports2_laws : SoloReports2Laws.
Proof.
  split; [intros m; apply bool_decide_eq_true|]. intros kind m k. simpl. case_bool_decide as Hk.
  - destruct (m !! k) as [r|] eqn:Hm; [by apply map_lookup_filter_Some|]. apply map_lookup_filter_None. by left.
  - apply map_lookup_filter_None. right. by intros r _.
Qed.
(** A listener of the example refers to the route configuration [ls_other]. *)
#[local] Instance simple_cache : XdsCache := {|
  cluster_references m := map_fold (λ _ c acc, if cl_eds c then <[endpoint_name (cl_name c) c := c]> acc else acc) ∅ m;
  listener_references m := map_fold (λ _ l acc, <[ls_other l := l]> acc) ∅ m;
  IndexResourcesByName := list_to_map;
  ListToFnvHash l := Some (N.of_nat (length l)) |}.
#[local] Instance simple_cache_laws : XdsCacheLaws.
Proof. split. intros l n p Hnd. symmetry. by apply elem_of_list_to_map. Qed.

Definition ex_up (n : string) : NamespacedName := {| nn_ns := "default"; nn_name := n |}.
Definition ex_cluster (n : string) : Cluster := {| cl_name := n; cl_eds := true; cl_edsServiceName := ""; cl_other := "" |}.
Definition ex_endpoint (n : string) : Endpoint := {| ce_clusterName := n; ce_endpoints := ["10.0.0.1"] |}.
Definition ex_route (name cluster : string) : Route := {| xr_name := name; xr_match := "/" +:+ name; xr_action := Route_Route (RouteAction_Cluster cluster) "" |}.
Definition ex_config : RouteConfiguration := {| rc_name := "http-routes"; rc_virtualHosts := [{| xv_name := "vs"; xv_domains := ["*"];
  xv_routes := [ex_route "a" "good_default"; ex_route "b" "bad_default"; ex_route "c" "good_default"] |}] |}.
Definition ex_store : Store := {|
  x_endpoints := {[1%positive := {["good_default" := ex_endpoint "good_default"; "bad_default" := ex_endpoint "bad_default"]}]};
  x_clusters := {[1%positive := {["good_default" := ex_cluster "good_default"; "bad_default" := ex_cluster "bad_default"]}]};
  x_routes := {[1%positive := {["http-routes" := 1%positive]}]};
  x_listeners := {[1%positive := {["http" := {| ls_name := "http"; ls_other := "http-routes" |}; "empty" := {| ls_name := "empty"; ls_other := "empty-routes" |}]}]};
  x_configs := {[1%positive := ex_config]}; x_next := 2 |}.
Definition ex_table : Resources := {| version := "1"; items := Some 1%positive |}.
Definition ex_snapshot : Snapshot := NewSnapshotFromResources ex_table ex_table ex_table ex_table.
Definition ex_proxy_key : string * NamespacedName := (ProxyKind, {| nn_ns := "gloo-system"; nn_name := "gateway-proxy" |}).
(** The upstream "bad" has an error, and so has the route "c". *)
Definition ex_sreports : ResourceReports := {[
  upstream_key (ex_up "bad") := {| rp_warnings := ["old warning"]; rp_errors := Some (Multierror [ENew "no host"]) |};
  ex_proxy_key := {| rp_warnings := []; rp_errors := Some (Multierror [route_error RouteReport_Error_ProcessingError "bad option" "c"]) |} ]}.
Definition ex_sstate : SState := {| ss_store := ex_store; ss_reports := ex_sreports |}.
Definition ex_sanitizer : RouteReplacingSanitizer := {| enabled := true;
  fallbackListener := {| ls_name := fallbackListenerName; ls_other := "fallback_routes" |};
  fallbackCluster := {| cl_name := fallbackClusterName; cl_eds := false; cl_edsServiceName := ""; cl_other := "" |} |}.

Lemma ex_routes_of : routes_of ex_store ex_snapshot = {["http-routes" := 1%positive]}.
Proof. reflexivity. Qed.
Lemma ex_endpoints_of : endpoints_of ex_store ex_snapshot = {["good_default" := ex_endpoint "good_default"; "bad_default" := ex_endpoint "bad_default"]}.
Proof. reflexivity. Qed.
Lemma ex_keyed : keyed ex_store ex_snapshot.
Proof. intros n p Hp. rewrite ex_routes_of in Hp. apply lookup_singleton_Some in Hp as [<- <-]. reflexivity. Qed.

Lemma route_error_roundtrip_witness : ∃ e,
  GetRouteErr (AppendRouteError RouteReport_Error_ProcessingError "bad option" "default.vs-route-0" empty_routeReport) = [e] ∧
  Is e (New RouteErrorMsg) = true ∧ FindRouteName (Error e) = Some "default.vs-route-0".
Proof.
  destruct (route_error_roundtrip RouteReport_Error_ProcessingError "bad option" "default.vs-route-0" empty_routeReport) as (e & He & Hrest);
    [reflexivity|reflexivity|]. exists e. split; [exact He|exact Hrest].
Defined.

Lemma UpstreamRemovingSanitizer_exact_witness : ∃ st',
  UpstreamRemovingSanitizer_SanitizeSnapshot [ex_up "good"; ex_up "bad"] ex_snapshot ex_sstate = Ok (ex_snapshot, st') ∧
  clusters_of (ss_store st') ex_snapshot !! "bad_default" = None ∧
  ss_reports st' !! upstream_key (ex_up "bad") = Some {| rp_warnings := ["no host"]; rp_errors := None |}.
Proof.
  destruct (UpstreamRemovingSanitizer_exact [ex_up "good"; ex_up "bad"] ex_snapshot ex_sstate) as (st' & Hrun & _ & Hrel); [reflexivity|].
  exists st'. split; [exact Hrun|]. split; [|rewrite Hrel; vm_compute; reflexivity].
  assert (match UpstreamRemovingSanitizer_SanitizeSnapshot [ex_up "good"; ex_up "bad"] ex_snapshot ex_sstate with
    | Ok (_, st') => clusters_of (ss_store st') ex_snapshot !! "bad_default" | _ => None end = None) as Hc by (vm_compute; reflexivity).
  rewrite Hrun in Hc. exact Hc.
Defined.

Definition ex_config_targets (r : res (Snapshot * SState)) : list (list string) :=
  match r with Ok (s, st) => map (λ '(_, p), config_clusters (config (ss_store st) p)) (map_to_list (routes_of (ss_store st) s)) | _ => [] end.

(** "b" sends to a cluster that was removed, "c" has an error. *)
Lemma RouteReplacingSanitizer_correct_witness :
  enabled ex_sanitizer = true ∧
  (∃ s' st', RouteReplacingSanitizer_SanitizeSnapshot ex_sanitizer [ex_up "good"] ex_snapshot ex_sstate = Ok (s', st') ∧
    ∀ n p c, routes_of (ss_store st') s' !! n = Some p → c ∈ config_clusters (config (ss_store st') p) → is_Some (clusters_of (ss_store st') s' !! c)) ∧
  ex_config_targets (RouteReplacingSanitizer_SanitizeSnapshot ex_sanitizer [ex_up "good"] ex_snapshot ex_sstate) =
    [["good_default"; fallbackClusterName; fallbackClusterName]].
Proof.
  split; [reflexivity|]. split; [|vm_compute; reflexivity].
  destruct (RouteReplacingSanitizer_correct ex_sanitizer [ex_up "good"] ex_snapshot ex_sstate) as (E & s' & st' & Hrun & _ & _ & _ & _ & Hsafe & _).
  - reflexivity.
  - exact ex_keyed.
  - intros He. apply (f_equal (lookup "http-routes")) in He. vm_compute in He. discriminate He.
  - intros k r Hk _. destruct (decide (upstream_key (ex_up "bad") = k)) as [<-|Hb]; [vm_compute in Hk; injection Hk as <-; exact I|].
    unfold ex_sstate, ex_sreports in Hk. cbn [ss_reports] in Hk. rewrite lookup_insert_ne in Hk by exact Hb.
    apply lookup_singleton_Some in Hk as [_ <-]. exact I.
  - exists s', st'. split; [exact Hrun|exact Hsafe].
Defined.

Lemma MakeConsistent_consistent_witness :
  ∃ h', MakeConsistent (Some ex_snapshot) ex_store = Ok (tt, h') ∧ is_Some (routes_of h' ex_snapshot !! "empty-routes").
Proof.
  destruct (MakeConsistent_consistent ex_snapshot ex_store 1%positive 1%positive) as (h' & Hrun & _ & _ & _ & Hr & _).
  - reflexivity.
  - reflexivity.
  - intros n e He. rewrite ex_endpoints_of in He. apply lookup_insert_Some in He as [[<- <-]|[_ He]]; [reflexivity|]. apply lookup_singleton_Some in He as [<- <-]. reflexivity.
  - exact ex_keyed.
  - exists h'. split; [exact Hrun|]. apply Hr. vm_compute. eexists. reflexivity.
Defined.

(** The placeholder goes to the translated snapshot; the sanitized one, which is served,
    has a table of routes of its own and lacks it: the listener "empty" refers to nothing. *)
Example served_snapshot_lacks_the_placeholder :
  match sync_snapshot ex_sanitizer [ex_up "good"; ex_up "bad"] ex_snapshot ex_sstate with
  | Ok (served, st) =>
      is_Some (listener_references (listeners_of (ss_store st) served) !! "empty-routes") ∧
      routes_of (ss_store st) served !! "empty-routes" = None ∧
      is_Some (routes_of (ss_store st) ex_snapshot !! "empty-routes")
  | _ => False
  end.
Proof. vm_compute. split_and!; [by eexists|reflexivity|by eexists]. Qed.

(** Two errors of routes, combined into one error of the proxy, are not repaired. *)
Example two_route_errors_are_not_repaired :
  let e1 := route_error RouteReport_Error_ProcessingError "bad option" "b" in
  let e2 := route_error RouteReport_Error_ProcessingError "bad option" "c" in
  let m : ResourceReports := {[ex_proxy_key := {| rp_warnings := []; rp_errors := Some (Multierror [multierr_Append (Some e1) e2]) |}]} in
  match removeErroredRoutesFromReport (FilterByKind ProxyKind m) {| ss_store := ex_store; ss_reports := m |} with
  | Ok (errored, st) => elements errored = [] ∧ map (λ '(_, r), length (errors_of r)) (map_to_list (ss_reports st)) = [1]
  | _ => False
  end.
Proof. vm_compute. split; reflexivity. Qed.
