(* ===== verification/StatusPlugins.v ===== *)
(** * Status plugins of RouteOptions and VirtualHostOptions

    [ApplyStatusPlugin] of gateway2/translator/plugins/routeoptions and
    virtualhostoptions: once gloo has reported on the proxies, the errors caused by each
    policy are collected from the reports into the cache the translation filled, and a
    status is written for every policy of the cache. The two plugins differ in what they
    collect; the rest is shared ([Plugin]). Reading and writing policies is a parameter:
    [WriteReports] is a log of what is written, or an error. *)

From stdpp Require Import base gmap strings list fin_maps.
From Stdlib Require Import ZArith.
From S2P Require Import Prelude GoLib GwApi Reports PluginApi EdgeApi ProxyReports ResourceReports Xds StatusSyncer.
Import Validation.

(** A proxy with the report on itself and on its parts. *)
Record ProxyWithReports `{Errors} := {
  pw_proxy : StatusSyncer.ProxyMeta;
  pw_resourceReport : ResourceReport;
  pw_proxyReport : ProxyReport
}.
(** One call of [WriteReports]: the reports, and the statuses by proxy. *)
Record Write `{Errors} := { wr_reports : ResourceReports; wr_subresourceStatus : gmap string string }.

Class StatusReporter `{Errors} := {
  StatusFromReport : ResourceReport → string;
  (** given what was written before *)
  WriteReports_error : list Write → Write → option string;
  (** [client.Read] finds the policy *)
  Read : NamespacedName → bool;
  Accept : (string * NamespacedName) → ResourceReports → ResourceReports
}.
Class StatusReporterLaws `{StatusReporter} := {
  Accept_same k m : Accept k m !! k = Some empty_report;
  Accept_other k k' m : k ≠ k' → Accept k m !! k' = m !! k'
}.

(** ** Errors and their sources *)
Section Extract.
Context `{!GoRange string}.

(** The first source of a kind. *)
Fixpoint extractSourceKey (kind : string) (sources : list Edge.SourceRef) : option NamespacedName :=
  match sources with
  | [] => None
  | src :: l => if bool_decide (Edge.src_kind src = kind) then Some (Edge.src_ref src) else extractSourceKey kind l
  end.
Definition errorSourceKey {T} (kind : string) (e : Entry T) : option NamespacedName :=
  match en_metadata e with None => None | Some sources => extractSourceKey kind sources end.

(** The reasons of the errors, by source. *)
Definition group_errors {T} (kind : string) (errors : list (Entry T)) : gmap NamespacedName (list string) :=
  foldl (λ m e, match errorSourceKey kind e with
    | Some k => <[k := default [] (m !! k) ++ [en_reason e]]> m
    | None => m end) ∅ errors.

Definition getAllVirtualHostReports (listenerReports : list ListenerReport) : list VirtualHostReport :=
  flat_map (λ lr, match lr_type lr with
    | Some (ListenerReport_AggregateListenerReport a) => flat_map (λ '(_, hlr), hr_virtualHostReports hlr) (go_range (ar_httpListenerReports a))
    | _ => [] end) listenerReports.
Definition getAllRouteReports (listenerReports : list ListenerReport) : list RouteReport :=
  flat_map vr_routeReports (getAllVirtualHostReports listenerReports).

Definition RouteOptionKind : string := "RouteOption".
Definition VirtualHostOptionKind : string := "VirtualHostOption".
Definition extractRouteErrors (r : ProxyReport) : gmap NamespacedName (list string) :=
  group_errors RouteOptionKind (flat_map rr_errors (getAllRouteReports (pr_listenerReports r))).
Definition extractVirtualHostErrors (r : ProxyReport) : gmap NamespacedName (list string) :=
  group_errors VirtualHostOptionKind (flat_map vr_errors (getAllVirtualHostReports (pr_listenerReports r))).
End Extract.

(** ** The plugins *)
Section Plugin.
Context `{!GoRange string, !GoRange NamespacedName, Errors, !SoloReports, !StatusReporter}.
(** A cache entry: the statuses, errors and warnings in it, and how it is updated; a
    RouteOption's has no warnings. *)
Context {E : Type} (statuses : E → gmap string string) (errors warnings : E → list string)
        (update : gmap string string → list string → E → E)
        (extract : ProxyReport → gmap NamespacedName (list string)) (kind : string)
        (write_error : string → string).

Record PluginState := { cache : gmap NamespacedName E; writes : list Write }.

(** A policy that is not in the cache has no map of statuses to write to. *)
Definition record_errors (proxyKey proxyStatus : string) : NamespacedName * list string → M PluginState unit := λ '(key, errs) s,
  match cache s !! key with
  | None => Panic "assignment to entry in nil map"
  | Some e => Ok (tt, {| cache := <[key := update (<[proxyKey := proxyStatus]> (statuses e)) (errors e ++ errs) e]> (cache s); writes := writes s |})
  end.
Definition record_proxy (p : ProxyWithReports) : M PluginState unit :=
  let proxyStatus := StatusFromReport (pw_resourceReport p) in
  let proxyKey := Xds.SnapshotCacheKey (StatusSyncer.pm_nn (pw_proxy p)) (StatusSyncer.pm_labels (pw_proxy p)) in
  for_range (go_range (extract (pw_proxyReport p))) (record_errors proxyKey proxyStatus).

(** The policy as a key of the reports; a nil one when it cannot be read. *)
Definition object_key (key : NamespacedName) : string * NamespacedName :=
  if Read key then (kind, key) else ("", {| nn_ns := ""; nn_name := "" |}).

Definition report_policy (key : NamespacedName) (e : E) (reports : ResourceReports) : ResourceReports :=
  let k := object_key key in
  AddWarnings k (warnings e) (foldl (λ m reason, AddErrors k [New reason] m) (Accept k reports) (errors e)).

(** The reports grow along the loop: each iteration writes those of the earlier ones too. *)
Fixpoint write_policies (entries : list (NamespacedName * E)) (reports : ResourceReports) (ws : list Write) : option string * list Write :=
  match entries with
  | [] => (None, ws)
  | (key, e) :: rest =>
      let reports := report_policy key e reports in
      let w := {| wr_reports := reports; wr_subresourceStatus := statuses e |} in
      match WriteReports_error ws w with
      | Some err => (Some (write_error err), ws)
      | None => write_policies rest reports (ws ++ [w])
      end
  end.

Definition ApplyStatusPlugin (proxiesWithReports : list ProxyWithReports) : M PluginState (option string) :=
  do! for_range proxiesWithReports record_proxy ;;
  λ s, let '(err, ws) := write_policies (go_range (cache s)) ∅ (writes s) in Ok (err, {| cache := cache s; writes := ws |}).
End Plugin.

Arguments PluginState {_} E.

Module RouteOptionStatus.
Section S.
Context `{!GoRange string, !GoRange NamespacedName, Errors, !SoloReports, !StatusReporter}.
Definition ApplyRouteOptionStatus : list ProxyWithReports → M (PluginState LegacyStatus) (option string) :=
  ApplyStatusPlugin lg_subresourceStatus lg_routeErrors (λ _, [])
    (λ s es _, {| lg_subresourceStatus := s; lg_routeErrors := es |}) extractRouteErrors RouteOptionKind
    (λ err, "error writing status report from RouteOptionPlugin: " +:+ err).
End S.
End RouteOptionStatus.

Module VirtualHostOptionStatus.
Section S.
Context `{!GoRange string, !GoRange NamespacedName, Errors, !SoloReports, !StatusReporter}.
Definition ApplyVirtualHostOptionStatus : list ProxyWithReports → M (PluginState ClassicStatus) (option string) :=
  ApplyStatusPlugin cl_subresourceStatus cl_virtualHostErrors cl_warnings
    (λ s es e, {| cl_subresourceStatus := s; cl_virtualHostErrors := es; cl_warnings := cl_warnings e |}) extractVirtualHostErrors VirtualHostOptionKind
    (λ err, "writing status report from VirtualHostOptionPlugin: " +:+ err).
End S.
End VirtualHostOptionStatus.
