(* ===== verification/StatusPluginsFacts.v ===== *)
(** * Facts about the status plugins

    Which errors reach which policy, and what is written: every policy of the cache gets
    the errors gloo reported on what it was applied to, in all proxies; each write repeats
    the reports of the policies before it, with the statuses of its own policy. *)

From stdpp Require Import base gmap strings list fin_maps.
From S2P Require Import Prelude GoLib GwApi Reports PluginApi EdgeApi ProxyReports ResourceReports Xds StatusSyncer StatusPlugins.
Import Validation.

(** ** What is extracted *)
Lemma group_errors_lookup {T} kind (es : list (Entry T)) k :
  default [] (group_errors kind es !! k) = map en_reason (List.filter (λ e, bool_decide (errorSourceKey kind e = Some k)) es).
Proof.
  induction es as [|e es IH] using rev_ind; [done|]. unfold group_errors in *. rewrite foldl_app, List.filter_app, map_app, <-IH. simpl.
  destruct (errorSourceKey kind e) as [k'|]; [|by rewrite app_nil_r]. destruct (decide (k' = k)) as [->|Hk].
  - by rewrite lookup_insert_eq, bool_decide_eq_true_2.
  - rewrite lookup_insert_ne by done. by rewrite bool_decide_eq_false_2, app_nil_r by congruence.
Qed.
Lemma group_errors_some {T} kind (es : list (Entry T)) k :
  is_Some (group_errors kind es !! k) ↔ ∃ e, e ∈ es ∧ errorSourceKey kind e = Some k.
Proof.
  induction es as [|e es IH] using rev_ind; [split; [by intros []|set_solver]|]. unfold group_errors in *. rewrite foldl_app. simpl.
  destruct (errorSourceKey kind e) as [k'|] eqn:He; [destruct (decide (k' = k)) as [->|Hk]|].
  - rewrite lookup_insert_eq. split; [|done]. intros _. exists e. set_solver.
  - rewrite lookup_insert_ne, IH by done. set_solver.
  - rewrite IH. set_solver.
Qed.

Section Plugin.
Context `{!GoRange string, !GoRange NamespacedName, Errors, !SoloReports, !SoloReportsLaws, !StatusReporter, !StatusReporterLaws}.
Context {E : Type} (statuses : E → gmap string string) (errors warnings : E → list string)
        (update : gmap string string → list string → E → E)
        (extract : ProxyReport → gmap NamespacedName (list string)) (kind : string) (write_error : string → string).
Context (Hst : ∀ m l e, statuses (update m l e) = m) (Her : ∀ m l e, errors (update m l e) = l)
        (Hwa : ∀ m l e, warnings (update m l e) = warnings e).

(** *** The cache *)
Definition extracted (k : NamespacedName) (p : ProxyWithReports) : list string := default [] (extract (pw_proxyReport p) !! k).
Definition proxy_key (p : ProxyWithReports) : string :=
  Xds.SnapshotCacheKey (StatusSyncer.pm_nn (pw_proxy p)) (StatusSyncer.pm_labels (pw_proxy p)).
(** The status of a proxy that blames a policy becomes the subresource status of the policy. *)
Definition add_status (k : NamespacedName) (m : gmap string string) (p : ProxyWithReports) : gmap string string :=
  if extract (pw_proxyReport p) !! k is Some _ then <[proxy_key p := StatusFromReport (pw_resourceReport p)]> m else m.

(** What one proxy does to an entry. *)
Definition record (k : NamespacedName) (e : E) (p : ProxyWithReports) : E :=
  match extract (pw_proxyReport p) !! k with
  | Some es => update (<[proxy_key p := StatusFromReport (pw_resourceReport p)]> (statuses e)) (errors e ++ es) e
  | None => e
  end.
Lemma record_fields k ps e : let e' := foldl (record k) e ps in
  errors e' = errors e ++ flat_map (extracted k) ps ∧ warnings e' = warnings e ∧ statuses e' = foldl (add_status k) (statuses e) ps.
Proof.
  revert e. induction ps as [|p ps IH]; intros e; simpl; [by rewrite app_nil_r|]. destruct (IH (record k e p)) as (-> & -> & ->).
  unfold record, extracted, add_status. destruct (extract (pw_proxyReport p) !! k); simpl; by rewrite ?Her, ?Hwa, ?Hst, ?(assoc_L (++)).
Qed.

Lemma record_errors_loop pk st l (s : PluginState E) : NoDup l.*1 → (∀ k, k ∈ l.*1 → is_Some (cache s !! k)) →
  ∃ c', for_range l (record_errors statuses errors update pk st) s = Ok (tt, {| cache := c'; writes := writes s |}) ∧
    ∀ k, c' !! k = (λ e, match (list_to_map l : gmap NamespacedName (list string)) !! k with
      Some es => update (<[pk := st]> (statuses e)) (errors e ++ es) e | None => e end) <$> cache s !! k.
Proof.
  revert s. induction l as [|[k es] l IH]; intros s Hnd Hk.
  { exists (cache s). destruct s. split; [done|]. intros k. simpl. rewrite lookup_empty. by destruct (_ !! k). }
  apply NoDup_cons in Hnd as [Hnin Hnd]. destruct (Hk k) as [e He]; [by left|]. cbn [for_range]. unfold bind at 1, record_errors at 1. rewrite He.
  destruct (IH {| cache := <[k := update (<[pk := st]> (statuses e)) (errors e ++ es) e]> (cache s); writes := writes s |}) as (c' & Hrun & Hc'); [done| |].
  { intros k' Hk'. simpl. destruct (decide (k' = k)) as [->|]; [rewrite lookup_insert_eq; eauto|]. rewrite lookup_insert_ne by done. apply Hk. by right. }
  exists c'. split; [exact Hrun|]. intros k'. rewrite Hc'. simpl. destruct (decide (k' = k)) as [->|].
  - rewrite !lookup_insert_eq, He. simpl. by rewrite (not_elem_of_list_to_map_1 l k).
  - by rewrite !lookup_insert_ne.
Qed.

Lemma record_proxies_ok ps (s : PluginState E) :
  (∀ p k, p ∈ ps → is_Some (extract (pw_proxyReport p) !! k) → is_Some (cache s !! k)) →
  ∃ c', for_range ps (record_proxy statuses errors update extract) s = Ok (tt, {| cache := c'; writes := writes s |}) ∧
    ∀ k, c' !! k = (λ e, foldl (record k) e ps) <$> cache s !! k.
Proof.
  revert s. induction ps as [|p ps IH]; intros s Hk.
  { exists (cache s). destruct s. split; [done|]. intros k. simpl. by destruct (_ !! k). }
  destruct (record_errors_loop (proxy_key p) (StatusFromReport (pw_resourceReport p)) (go_range (extract (pw_proxyReport p))) s) as (c1 & Hrun1 & Hc1).
  { apply go_range_nodup. }
  { intros k Hin. apply list_elem_of_fmap in Hin as ([k' es] & -> & Hin). apply go_range_elem in Hin. apply (Hk p); [by left|eauto]. }
  assert (∀ k, c1 !! k = (λ e, record k e p) <$> cache s !! k) as Hc1'.
  { intros k. rewrite Hc1. unfold record, proxy_key. erewrite list_to_map_proper; [|apply go_range_nodup|apply go_range_perm].
    by rewrite list_to_map_to_list. }
  destruct (IH {| cache := c1; writes := writes s |}) as (c' & Hrun & Hc').
  { intros p' k Hp' Hex. simpl. rewrite Hc1', fmap_is_Some. apply (Hk p'); [by right|done]. }
  exists c'. cbn [for_range]. unfold bind at 1. unfold record_proxy at 1. fold (proxy_key p). rewrite Hrun1. split; [exact Hrun|].
  intros k. rewrite Hc'. simpl. rewrite Hc1'. by destruct (cache s !! k).
Qed.

(** *** The writes *)
Definition own_report (e : E) : ResourceReport :=
  append_warnings (warnings e) (append_errors (map New (errors e)) empty_report).
Definition insert_own (m : ResourceReports) : NamespacedName * E → ResourceReports := λ '(k, e), <[(kind, k) := own_report e]> m.

Lemma add_errors_loop k (l : list string) r m : m !! k = Some r →
  foldl (λ m reason, AddErrors k [New reason] m) m l = match l with [] => m | _ => <[k := append_errors (map New l) r]> m end.
Proof.
  induction l as [|x l IH] using rev_ind; intros Hm; [done|]. rewrite foldl_app. simpl. rewrite IH by done. apply map_eq. intros k'.
  destruct (decide (k = k')) as [<-|Hk].
  - rewrite AddErrors_same by done. unfold report_of. destruct l as [|y l]; simpl.
    + by rewrite Hm, lookup_insert_eq.
    + rewrite !lookup_insert_eq. unfold append_errors at 1. cbn [default from_option id]. rewrite errors_of_append. unfold append_errors. simpl.
      by rewrite map_app, <-(assoc_L (++)).
  - rewrite AddErrors_other by done. destruct l as [|y l]; simpl; by rewrite ?lookup_insert_ne.
Qed.

Lemma report_policy_own key e m : Read key = true → report_policy errors warnings kind key e m = insert_own m (key, e).
Proof.
  intros Hr. unfold report_policy, insert_own, object_key. rewrite Hr. set (k := (kind, key)).
  rewrite (add_errors_loop k _ empty_report) by apply Accept_same. apply map_eq. intros k'. destruct (decide (k = k')) as [<-|Hk].
  - rewrite lookup_insert_eq. assert (∀ r m', m' !! k = Some r → AddWarnings k (warnings e) m' !! k = Some (append_warnings (warnings e) r)) as Hw.
    { intros r m' Hm'. destruct (warnings e) as [|w ws]; [rewrite AddWarnings_nil, Hm'; unfold append_warnings; rewrite app_nil_r; by destruct r|].
      rewrite AddWarnings_same by done. unfold report_of. by rewrite Hm'. }
    apply Hw. destruct (errors e); simpl; [by rewrite Accept_same|by rewrite lookup_insert_eq].
  - rewrite lookup_insert_ne by done.
    assert (∀ m', AddWarnings k (warnings e) m' !! k' = m' !! k') as ->.
    { intros m'. destruct (warnings e); [by rewrite AddWarnings_nil|by rewrite AddWarnings_other]. }
    destruct (errors e); simpl; rewrite ?lookup_insert_ne by done; by rewrite Accept_other.
Qed.

(** The writes for the entries, from the reports so far. *)
Fixpoint written (m : ResourceReports) (l : list (NamespacedName * E)) : list Write :=
  match l with
  | [] => []
  | (k, e) :: rest => let m := insert_own m (k, e) in {| wr_reports := m; wr_subresourceStatus := statuses e |} :: written m rest
  end.
Lemma written_lookup m l i : written m l !! i =
  (λ '(_, e), {| wr_reports := foldl insert_own m (take (S i) l); wr_subresourceStatus := statuses e |}) <$> l !! i.
Proof. revert m i. induction l as [|[k e] l IH]; intros m [|i]; simpl; [done..|by rewrite IH]. Qed.

(** Every policy is written until a write fails. *)
Lemma write_policies_ok l m ws : (∀ k, k ∈ l.*1 → Read k = true) →
  (∀ i w, written m l !! i = Some w → WriteReports_error (ws ++ take i (written m l)) w = None) →
  write_policies statuses errors warnings kind write_error l m ws = (None, ws ++ written m l).
Proof.
  revert m ws. induction l as [|[k e] l IH]; intros m ws Hr Hw; simpl; [by rewrite app_nil_r|].
  rewrite report_policy_own by (apply Hr; by left). pose proof (Hw 0 _ eq_refl) as Hw0. simpl in Hw0. rewrite app_nil_r in Hw0. simpl. rewrite Hw0.
  rewrite IH; [by rewrite <-(assoc_L (++))|intros; apply Hr; by right|].
  intros i w Hi. rewrite <-(assoc_L (++)). apply (Hw (S i) w). exact Hi.
Qed.
Lemma write_policies_error l m ws i w err : (∀ k, k ∈ l.*1 → Read k = true) → written m l !! i = Some w →
  (∀ j w', j < i → written m l !! j = Some w' → WriteReports_error (ws ++ take j (written m l)) w' = None) →
  WriteReports_error (ws ++ take i (written m l)) w = Some err →
  write_policies statuses errors warnings kind write_error l m ws = (Some (write_error err), ws ++ take i (written m l)).
Proof.
  revert m ws i. induction l as [|[k e] l IH]; intros m ws i Hr Hi Hj He; [done|]. simpl. rewrite report_policy_own by (apply Hr; by left).
  destruct i as [|i]; simpl in *.
  { rewrite app_nil_r in *. injection Hi as <-. by rewrite He. }
  pose proof (Hj 0 _ (Nat.lt_0_succ i) eq_refl) as Hw0. rewrite app_nil_r in Hw0. rewrite Hw0.
  set (w0 := {| wr_reports := _; wr_subresourceStatus := statuses e |}) in *.
  rewrite (IH _ _ i); [by rewrite <-(assoc_L (++))|intros; apply Hr; by right|done| |].
  - intros j w' Hlt Hw'. rewrite <-(assoc_L (++)). by apply (Hj (S j) w'); [lia|].
  - by rewrite <-(assoc_L (++)).
Qed.

(** *** The whole run *)
Definition known (c : gmap NamespacedName E) (ps : list ProxyWithReports) : Prop :=
  ∀ p k, p ∈ ps → is_Some (extract (pw_proxyReport p) !! k) → is_Some (c !! k).
Definition writes_succeed : Prop := ∀ ws w, WriteReports_error ws w = None.

Lemma ApplyStatusPlugin_ok ps (s : PluginState E) :
  known (cache s) ps → (∀ k, is_Some (cache s !! k) → Read k = true) → writes_succeed →
  ∃ c', ApplyStatusPlugin statuses errors warnings update extract kind write_error ps s =
      Ok (None, {| cache := c'; writes := writes s ++ written ∅ (go_range c') |}) ∧
    ∀ k, c' !! k = (λ e, foldl (record k) e ps) <$> cache s !! k.
Proof.
  intros Hk Hr Hw. destruct (record_proxies_ok ps s Hk) as (c' & Hrun & Hc'). exists c'. split.
  - unfold ApplyStatusPlugin, bind. rewrite Hrun. simpl. rewrite write_policies_ok; [done| |intros; apply Hw].
    intros k Hin. apply list_elem_of_fmap in Hin as ([k' e] & -> & Hin). apply go_range_elem in Hin. apply Hr.
    rewrite Hc' in Hin. simpl. by destruct (cache s !! k').
  - exact Hc'.
Qed.

(** An error blamed on a policy the translation did not record is written to a nil map. *)
Lemma record_unknown pk st k es (s : PluginState E) : cache s !! k = None →
  record_errors statuses errors update pk st (k, es) s = Panic "assignment to entry in nil map".
Proof. unfold record_errors. by intros ->. Qed.
End Plugin.

(** ** The two plugins *)
Section Plugins.
Context `{!GoRange string, !GoRange NamespacedName, Errors, !SoloReports, !SoloReportsLaws, !StatusReporter, !StatusReporterLaws}.

(** The reasons of the errors, on routes or virtual hosts, that blame a policy. *)
Definition blames {T} (kind : string) (es : ProxyWithReports → list (Entry T)) (k : NamespacedName) (p : ProxyWithReports) : list string :=
  map en_reason (List.filter (λ e, bool_decide (errorSourceKey kind e = Some k)) (es p)).
Definition route_entries (p : ProxyWithReports) : list (Entry RouteReport_Error_Type) :=
  flat_map rr_errors (getAllRouteReports (pr_listenerReports (pw_proxyReport p))).
Definition vhost_entries (p : ProxyWithReports) : list (Entry VirtualHostReport_Error_Type) :=
  flat_map vr_errors (getAllVirtualHostReports (pr_listenerReports (pw_proxyReport p))).
(** The statuses of a policy: those of the proxies that blame it. *)
Definition blaming_statuses {T} (kind : string) (es : ProxyWithReports → list (Entry T)) (k : NamespacedName) (m : gmap string string) (ps : list ProxyWithReports) : gmap string string :=
  foldl (λ m p, match blames kind es k p with [] => m | _ => <[proxy_key p := StatusFromReport (pw_resourceReport p)]> m end) m ps.

Lemma group_blames {T} kind (es : ProxyWithReports → list (Entry T)) k p :
  match group_errors kind (es p) !! k with Some l => l = blames kind es k p ∧ l ≠ [] | None => blames kind es k p = [] end.
Proof.
  pose proof (group_errors_lookup kind (es p) k) as Hd. pose proof (group_errors_some kind (es p) k) as Hs. unfold blames. rewrite <-Hd.
  destruct (group_errors kind (es p) !! k) as [l|]; [|done]. simpl in *. split; [done|]. intros ->.
  destruct Hs as [Hs _]. destruct Hs as (e & He & Hk); [eauto|]. symmetry in Hd. apply map_eq_nil in Hd.
  assert (e ∈ []) as Hin; [|set_solver]. rewrite <-Hd. apply elem_of_filter_bool. split; [done|]. by rewrite bool_decide_eq_true_2.
Qed.

(** What one proxy adds to a policy: its status, and the errors that blame the policy. *)
Lemma record_blames {T E} (statuses : E → gmap string string) (errors : E → list string) update kind
    (es : ProxyWithReports → list (Entry T)) (extract : ProxyReport → gmap NamespacedName (list string)) k ps e :
  (∀ p, extract (pw_proxyReport p) = group_errors kind (es p)) →
  (∀ m l e, statuses (update m l e) = m) → (∀ m l e, errors (update m l e) = l) →
  (∀ m l m' l' e, update m l (update m' l' e) = update m l e) → (∀ e, update (statuses e) (errors e) e = e) →
  foldl (record statuses errors update extract k) e ps =
    update (blaming_statuses kind es k (statuses e) ps) (errors e ++ flat_map (blames kind es k) ps) e.
Proof.
  intros Hex Hst Her Huu Hid. revert e. induction ps as [|p ps IH]; intros e; simpl; [by rewrite app_nil_r, Hid|]. rewrite IH. clear IH.
  unfold record. rewrite Hex. unfold blaming_statuses. simpl. pose proof (group_blames kind es k p) as Hb.
  destruct (group_errors kind (es p) !! k) as [l|].
  - destruct Hb as [<- Hl]. rewrite Hst, Her, Huu, <-(assoc_L (++)). by destruct l.
  - by rewrite Hb.
Qed.

(** The reports on some policies, as they are written. *)
Definition reported {E} (errors warnings : E → list string) (kind : string) (l : list (NamespacedName * E)) : ResourceReports :=
  foldl (insert_own errors warnings kind) ∅ l.
Lemma reported_lookup {E} (errors warnings : E → list string) kind l k : NoDup l.*1 →
  reported errors warnings kind l !! (kind, k) = own_report errors warnings <$> (list_to_map l : gmap NamespacedName E) !! k.
Proof.
  induction l as [|[k' e] l IH] using rev_ind; intros Hnd; [done|]. unfold reported in *. rewrite foldl_app. simpl.
  rewrite fmap_app in Hnd. apply NoDup_app in Hnd as (Hnd & Hni & _). simpl in Hni.
  destruct (decide (k' = k)) as [->|Hk].
  - rewrite lookup_insert_eq, list_to_map_app, lookup_union_r; [by rewrite list_to_map_cons, lookup_insert_eq|].
    apply not_elem_of_list_to_map_1. intros Hin. apply (Hni _ Hin). by left.
  - rewrite lookup_insert_ne by congruence. rewrite IH by done. f_equal. rewrite list_to_map_app. simpl.
    destruct (list_to_map l !! k) as [e'|] eqn:Hl; [by erewrite lookup_union_Some_l|]. rewrite lookup_union_r by done. by rewrite lookup_insert_ne.
Qed.

Lemma written_exact {E} (statuses : E → gmap string string) (errors warnings : E → list string) kind (c : gmap NamespacedName E) :
  length (written statuses errors warnings kind ∅ (go_range c)) = size c ∧
  ∀ i k e, go_range c !! i = Some (k, e) → ∃ w, written statuses errors warnings kind ∅ (go_range c) !! i = Some w ∧
    wr_subresourceStatus w = statuses e ∧
    ∀ k', wr_reports w !! (kind, k') =
      if bool_decide (k' ∈ (take (S i) (go_range c)).*1) then own_report errors warnings <$> c !! k' else None.
Proof.
  split.
  - assert (∀ l m, length (written statuses errors warnings kind m l) = length l) as ->.
    { induction l as [|[k e] l IH]; intros m; simpl; [done|]. by rewrite IH. }
    rewrite (Permutation_length (go_range_perm c)). apply length_map_to_list.
  - intros i k e Hi. rewrite written_lookup, Hi. simpl. eexists. split; [done|]. split; [done|]. intros k'. cbn [wr_reports].
    fold (reported errors warnings kind (take (S i) (go_range c))).
    assert (NoDup (take (S i) (go_range c)).*1) as Hnd by (rewrite fmap_take; eapply sublist_NoDup; [apply (go_range_nodup c)|apply sublist_take]).
    rewrite reported_lookup by done. case_bool_decide as Hk'.
    + f_equal. apply list_elem_of_fmap in Hk' as ([k1 e1] & -> & Hin). simpl. rewrite (elem_of_list_to_map_1 _ k1 e1) by done.
      symmetry. apply go_range_elem. rewrite <-(take_drop (S i) (go_range c)). apply elem_of_app. by left.
    + by rewrite (not_elem_of_list_to_map_1 _ k').
Qed.

Lemma own_report_no_warnings {E} (errors : E → list string) (e : E) :
  own_report errors (λ _, []) e = append_errors (map New (errors e)) empty_report.
Proof. unfold own_report, append_warnings. by destruct (errors e). Qed.

Lemma plugin_exact {T E} (statuses : E → gmap string string) (errors warnings : E → list string) update extract kind write_error
    (es : ProxyWithReports → list (Entry T)) ps (s : PluginState E) :
  (∀ p, extract (pw_proxyReport p) = group_errors kind (es p)) →
  (∀ m l e, statuses (update m l e) = m) → (∀ m l e, errors (update m l e) = l) → (∀ m l e, warnings (update m l e) = warnings e) →
  (∀ m l m' l' e, update m l (update m' l' e) = update m l e) → (∀ e, update (statuses e) (errors e) e = e) →
  (∀ p k, p ∈ ps → blames kind es k p ≠ [] → is_Some (cache s !! k)) →
  (∀ k, is_Some (cache s !! k) → Read k = true) → writes_succeed →
  ∃ s', ApplyStatusPlugin statuses errors warnings update extract kind write_error ps s = Ok (None, s') ∧
    (∀ k, cache s' !! k =
      (λ e, update (blaming_statuses kind es k (statuses e) ps) (errors e ++ flat_map (blames kind es k) ps) e) <$> cache s !! k) ∧
    ∃ new, writes s' = writes s ++ new ∧ length new = size (cache s') ∧
      ∀ i k e, go_range (cache s') !! i = Some (k, e) →
        ∃ w, new !! i = Some w ∧ wr_subresourceStatus w = statuses e ∧
          ∀ k', wr_reports w !! (kind, k') =
            if bool_decide (k' ∈ (take (S i) (go_range (cache s'))).*1) then own_report errors warnings <$> cache s' !! k' else None.
Proof.
  intros Hex Hst Her Hwa Huu Hid Hk Hr Hw.
  destruct (ApplyStatusPlugin_ok statuses errors warnings update extract kind write_error ps s) as (c' & Hrun & Hc'); [|done|done|].
  { intros p k Hp Hin. apply (Hk p k Hp). pose proof (group_blames kind es k p) as Hb. rewrite Hex in Hin.
    destruct (group_errors _ _ !! k); [by destruct Hb as [<- ?]|by destruct Hin]. }
  exists {| cache := c'; writes := writes s ++ written statuses errors warnings kind ∅ (go_range c') |}. split; [exact Hrun|]. cbn [cache writes].
  split; [|eexists; split; [done|apply written_exact]].
  intros k. rewrite Hc'. destruct (cache s !! k) as [e|]; [|done]. simpl. f_equal. by apply record_blames.
Qed.

(** *** RouteOptions *)
Definition route_entry (k : NamespacedName) (ps : list ProxyWithReports) (e : LegacyStatus) : LegacyStatus :=
  {| lg_subresourceStatus := blaming_statuses RouteOptionKind route_entries k (lg_subresourceStatus e) ps;
     lg_routeErrors := lg_routeErrors e ++ flat_map (blames RouteOptionKind route_entries k) ps |}.

(** When the translation recorded every policy that is blamed, a run gives each policy the
    errors of all proxies that blame it, and writes, for each policy in turn, the reports
    of the policies up to it with the statuses of the policy itself. *)
Theorem ApplyRouteOptionStatus_exact ps s :
  (∀ p k, p ∈ ps → blames RouteOptionKind route_entries k p ≠ [] → is_Some (cache s !! k)) →
  (∀ k, is_Some (cache s !! k) → Read k = true) → writes_succeed →
  ∃ s', RouteOptionStatus.ApplyRouteOptionStatus ps s = Ok (None, s') ∧
    (∀ k, cache s' !! k = route_entry k ps <$> cache s !! k) ∧
    ∃ new, writes s' = writes s ++ new ∧ length new = size (cache s') ∧
      ∀ i k e, go_range (cache s') !! i = Some (k, e) →
        ∃ w, new !! i = Some w ∧ wr_subresourceStatus w = lg_subresourceStatus e ∧
          ∀ k', wr_reports w !! (RouteOptionKind, k') =
            (if bool_decide (k' ∈ (take (S i) (go_range (cache s'))).*1)
             then (λ e', append_errors (map New (lg_routeErrors e')) empty_report) <$> cache s' !! k' else None).
Proof.
  intros Hk Hr Hw. destruct (plugin_exact lg_subresourceStatus lg_routeErrors (λ _, [])
    (λ s es _, {| lg_subresourceStatus := s; lg_routeErrors := es |}) extractRouteErrors RouteOptionKind
    (λ err, "error writing status report from RouteOptionPlugin: " +:+ err) route_entries ps s)
    as (s' & Hrun & Hc & new & Hn & Hlen & Hex); try done; [by intros []|].
  exists s'. split; [exact Hrun|]. split; [exact Hc|]. exists new. split; [done|]. split; [done|].
  intros i k e Hi. destruct (Hex i k e Hi) as (w & ? & ? & Hrep). exists w. split; [done|]. split; [done|].
  intros k'. rewrite Hrep. case_bool_decide; [|done]. destruct (cache s' !! k'); [|done]. simpl. by rewrite own_report_no_warnings.
Qed.

(** *** VirtualHostOptions *)
Definition vhost_entry (k : NamespacedName) (ps : list ProxyWithReports) (e : ClassicStatus) : ClassicStatus :=
  {| cl_subresourceStatus := blaming_statuses VirtualHostOptionKind vhost_entries k (cl_subresourceStatus e) ps;
     cl_virtualHostErrors := cl_virtualHostErrors e ++ flat_map (blames VirtualHostOptionKind vhost_entries k) ps; cl_warnings := cl_warnings e |}.

(** The same for VirtualHostOptions, whose warnings, from the translation, are reported too. *)
Theorem ApplyVirtualHostOptionStatus_exact ps s :
  (∀ p k, p ∈ ps → blames VirtualHostOptionKind vhost_entries k p ≠ [] → is_Some (cache s !! k)) →
  (∀ k, is_Some (cache s !! k) → Read k = true) → writes_succeed →
  ∃ s', VirtualHostOptionStatus.ApplyVirtualHostOptionStatus ps s = Ok (None, s') ∧
    (∀ k, cache s' !! k = vhost_entry k ps <$> cache s !! k) ∧
    ∃ new, writes s' = writes s ++ new ∧ length new = size (cache s') ∧
      ∀ i k e, go_range (cache s') !! i = Some (k, e) →
        ∃ w, new !! i = Some w ∧ wr_subresourceStatus w = cl_subresourceStatus e ∧
          ∀ k', wr_reports w !! (VirtualHostOptionKind, k') =
            (if bool_decide (k' ∈ (take (S i) (go_range (cache s'))).*1)
             then (λ e', append_warnings (cl_warnings e') (append_errors (map New (cl_virtualHostErrors e')) empty_report)) <$> cache s' !! k' else None).
Proof.
  intros Hk Hr Hw. destruct (plugin_exact cl_subresourceStatus cl_virtualHostErrors cl_warnings
    (λ s es e, {| cl_subresourceStatus := s; cl_virtualHostErrors := es; cl_warnings := cl_warnings e |}) extractVirtualHostErrors VirtualHostOptionKind
    (λ err, "writing status report from VirtualHostOptionPlugin: " +:+ err) vhost_entries ps s)
    as (s' & Hrun & Hc & new & Hn & Hlen & Hex); try done; [by intros []|].
  exists s'. split; [exact Hrun|]. split; [exact Hc|]. exists new. split; [done|]. split; [done|]. exact Hex.
Qed.
End Plugins.

(** ** Examples *)
#[local] Existing Instance list_order.
#[local] Instance ex_status_reporter : StatusReporter := {|
  StatusFromReport r := match rp_errors r with None => "accepted" | _ => "rejected" end;
  WriteReports_error _ _ := None; Read _ := true; Accept k m := <[k := empty_report]> m |}.
#[local] Instance ex_status_reporter_laws : StatusReporterLaws.
Proof. split; intros; simpl; [by rewrite lookup_insert_eq|by rewrite lookup_insert_ne]. Qed.

Definition ex_policy (n : string) : NamespacedName := {| nn_ns := "default"; nn_name := n |}.
Definition ex_error (kind n reason : string) : Entry RouteReport_Error_Type :=
  {| en_type := RouteReport_Error_ProcessingError; en_reason := reason;
     en_metadata := Some [{| Edge.src_ref := ex_policy n; Edge.src_kind := kind; Edge.src_generation := 1 |}] |}.
(** A proxy with one route that has the errors. *)
Definition ex_reported_proxy (name : string) (es : list (Entry RouteReport_Error_Type)) : ProxyWithReports :=
  {| pw_proxy := {| StatusSyncer.pm_nn := ex_policy name; StatusSyncer.pm_labels := ∅; StatusSyncer.pm_annotations := ∅ |};
     pw_resourceReport := empty_report;
     pw_proxyReport := {| pr_listenerReports := [{| lr_errors := []; lr_warnings := []; lr_type := Some (ListenerReport_AggregateListenerReport
       {| ar_httpListenerReports := {[ "chain" := {| hr_errors := []; hr_virtualHostReports := [{| vr_errors := [];
            vr_routeReports := [{| rr_errors := es; rr_warnings := [] |}] |}] |} ]}; ar_tcpListenerReports := ∅ |}) |}] |} |}.
Definition ex_new_status : LegacyStatus := {| lg_subresourceStatus := ∅; lg_routeErrors := [] |}.
(** Policy "a" is blamed on proxy "p1", policy "b" on proxy "p2"; "c" is not blamed. *)
Definition ex_proxies : list ProxyWithReports :=
  [ex_reported_proxy "p1" [ex_error RouteOptionKind "a" "bad a"]; ex_reported_proxy "p2" [ex_error RouteOptionKind "b" "bad b"]].
Definition ex_cache : PluginState LegacyStatus :=
  {| cache := {[ ex_policy "a" := ex_new_status; ex_policy "b" := ex_new_status ]}; writes := [] |}.
Definition reasons (w : Write) (n : string) : list string :=
  from_option (λ r, map simple_message (errors_of r)) [] (wr_reports w !! (RouteOptionKind, ex_policy n)).
Definition run_writes {E} (r : res (option string * PluginState E)) : list Write := match r with Ok (_, s) => writes s | _ => [] end.

(** The second write is for one policy, but it repeats the report of the other one with
    the statuses of the former: the other policy ends with the status of a proxy that
    does not blame it. *)
Example later_write_replaces_the_statuses :
  map (λ w, (reasons w "a", reasons w "b", map_to_list (wr_subresourceStatus w)))
    (run_writes (RouteOptionStatus.ApplyRouteOptionStatus ex_proxies ex_cache)) =
  [(["bad a"], [], [("default~p1", "accepted")]); (["bad a"], ["bad b"], [("default~p2", "accepted")])].
Proof. vm_compute. reflexivity. Qed.

Example unknown_policy_panics :
  RouteOptionStatus.ApplyRouteOptionStatus [ex_reported_proxy "p1" [ex_error RouteOptionKind "c" "bad c"]] ex_cache =
  Panic "assignment to entry in nil map".
Proof. vm_compute. reflexivity. Qed.

Lemma ex_blamed p n reason k :
  blames RouteOptionKind route_entries k (ex_reported_proxy p [ex_error RouteOptionKind n reason]) ≠ [] → k = ex_policy n.
Proof.
  unfold blames. replace (route_entries _) with [ex_error RouteOptionKind n reason] by reflexivity.
  cbn [List.filter map]. change (errorSourceKey _ _) with (Some (ex_policy n)). case_bool_decide; [congruence|done].
Qed.
Lemma ApplyRouteOptionStatus_exact_witness :
  length (run_writes (RouteOptionStatus.ApplyRouteOptionStatus ex_proxies ex_cache)) = 2 ∧
  ∃ s', RouteOptionStatus.ApplyRouteOptionStatus ex_proxies ex_cache = Ok (None, s') ∧
    cache s' !! ex_policy "a" = Some {| lg_subresourceStatus := {[ "default~p1" := "accepted" ]}; lg_routeErrors := ["bad a"] |}.
Proof.
  split; [vm_compute; reflexivity|].
  destruct (ApplyRouteOptionStatus_exact ex_proxies ex_cache) as (s' & Hrun & Hc & _).
  - intros p k Hp Hk. apply elem_of_cons in Hp as [->|Hp]; [|apply list_elem_of_singleton in Hp as ->].
    all: apply ex_blamed in Hk as ->; vm_compute; eauto.
  - reflexivity.
  - intros ws w. reflexivity.
  - exists s'. split; [exact Hrun|]. rewrite Hc. vm_compute. reflexivity.
Defined.
