(* ===== verification/GlooProxy.v ===== *)
(** * The Proxy and upstreams, as the translation to Envoy reads them

    gloo/api/v1/proxy.proto, upstream.proto and the snapshot. The records have every field
    the translation reads; what it only hands to plugins is opaque. Matchers and sources
    are those of EdgeApi. A getter on a nil message reads zero values, so an optional
    message that is only read through getters is a record with zero fields. *)

From stdpp Require Import base gmap strings list fin_maps.
From Stdlib Require Import ZArith.
From S2P Require Import Prelude GoLib GwApi EdgeApi.

Module Gloo.
(** ** Destinations *)
Inductive DestinationType :=
| Destination_Upstream (ref : NamespacedName)
| Destination_Kube (ref : NamespacedName) (port : Z)
| Destination_Consul (serviceName : string).
(** [de_subset]: the values of the subset; [de_aws]: the logical name of a lambda. *)
Record Destination := {
  de_type : option DestinationType; de_subset : option (gmap string string); de_aws : option string }.
(** The destination may be nil, which its getters read as an empty one. The weight is a
    uint32 wrapper; nil reads as 0. *)
Record WeightedDestination := { wd_dest : option Destination; wd_weight : option Z; wd_options : string }.
Definition wd_destination (w : WeightedDestination) : Destination := default {| de_type := None; de_subset := None; de_aws := None |} (wd_dest w).
Definition GetWeight (w : WeightedDestination) : Z := default 0%Z (wd_weight w).

Inductive RouteActionDestination :=
| RouteAction_Single (d : Destination)
| RouteAction_Multi (ds : list WeightedDestination)
| RouteAction_UpstreamGroup (ref : NamespacedName)
| RouteAction_ClusterHeader (header : string)
| RouteAction_DynamicForwardProxy (config : string).

(** The pattern of a rewrite: its maximal program size, or an engine other than RE2. *)
Inductive RegexEngine := Engine_nil | Engine_GoogleRe2 (maxProgramSize : option Z) | Engine_Other (s : string).
Record RegexMatchAndSubstitute := { rx_regex : string; rx_engine : RegexEngine; rx_substitution : string }.
Inductive PathRewriteSpecifier :=
| RedirectAction_PathRedirect (s : string)
| RedirectAction_PrefixRewrite (s : string)
| RedirectAction_RegexRewrite (r : option RegexMatchAndSubstitute).
Record RedirectAction := {
  re_hostRedirect : string; re_pathRewrite : option PathRewriteSpecifier; re_responseCode : Z;
  re_httpsRedirect : bool; re_stripQuery : bool; re_portRedirect : option Z }.

Inductive Action :=
| Route_RouteAction (d : option RouteActionDestination)
| Route_RedirectAction (r : RedirectAction)
| Route_DirectResponseAction (status : Z) (body : string)
| Route_GraphqlApiRef (ref : NamespacedName).
Record Route := {
  ro_matchers : list Edge.Matcher; ro_name : string; ro_action : option Action; ro_options : string;
  ro_metadataStatic : option (list Edge.SourceRef) }.
(** [vh_configRef]: the auth config the options refer to. *)
Record VirtualHost := {
  vh_name : string; vh_domains : list string; vh_routes : list Route; vh_options : string;
  vh_configRef : option NamespacedName; vh_metadataStatic : option (list Edge.SourceRef) }.

(** ** Listeners *)
Record CidrRange := { cr_addressPrefix : string; cr_prefixLen : option Z }.

(** *** TLS (ssl.proto) *)
Record SSLFiles := { sf_tlsCert : string; sf_tlsKey : string; sf_rootCa : string; sf_ocspStaple : string }.
Inductive SdsBuilder := SDSConfig_CallCredentials (tokenFileName header : string) | SDSConfig_ClusterName (name : string).
Record SDSConfig := {
  sd_targetUri : string; sd_builder : option SdsBuilder; sd_certificatesSecretName : string; sd_validationContextName : string }.
Inductive SslSecrets := SslConfig_SecretRef (ref : NamespacedName) | SslConfig_SslFiles (f : SSLFiles) | SslConfig_Sds (s : SDSConfig).
(** The protocol versions and the policy are the numbers of the enums. *)
Record SslParameters := {
  sa_minimumProtocolVersion : Z; sa_maximumProtocolVersion : Z; sa_cipherSuites : list string; sa_ecdhCurves : list string }.
Record SslConfig := {
  ss_sslSecrets : option SslSecrets; ss_sniDomains : list string; ss_verifySubjectAltName : list string; ss_parameters : option SslParameters;
  ss_alpnProtocols : list string; ss_oneWayTls : option bool; ss_disableTlsSessionResumption : option bool;
  ss_transportSocketConnectTimeout : option string; ss_ocspStaplePolicy : Z }.
Record UpstreamSslConfig := {
  us_sslSecrets : option SslSecrets; us_sni : string; us_verifySubjectAltName : list string; us_parameters : option SslParameters;
  us_alpnProtocols : list string; us_allowRenegotiation : option bool; us_oneWayTls : option bool }.
(** A TLS secret; the staple is bytes. Other kinds are opaque. *)
Inductive SecretKind := Secret_Tls (certChain privateKey rootCa : string) (ocspStaple : option string) | Secret_Other (kind : string).
Record Secret := { se_ref : NamespacedName; se_kind : SecretKind }.
Record Matcher := {
  mt_sslConfig : option SslConfig; mt_prefixRanges : list CidrRange; mt_sourcePrefixRanges : list CidrRange;
  mt_destinationPort : option Z; mt_passthroughCipherSuites : list string }.
Definition empty_matcher : Matcher :=
  {| mt_sslConfig := None; mt_prefixRanges := []; mt_sourcePrefixRanges := []; mt_destinationPort := None; mt_passthroughCipherSuites := [] |}.

(** [filters.FilterStage]: the numbers of the stage and of the predicate. *)
Record FilterStage := { fs_stage : Z; fs_predicate : Z }.
(** [*anypb.Any]: type URL and value. *)
Record TypedConfig := { tc_typeUrl : string; tc_value : string }.
#[export] Instance TypedConfig_eq_dec : EqDecision TypedConfig.
Proof. solve_decision. Defined.
Record CustomEnvoyFilter := { cf_stage : option FilterStage; cf_name : string; cf_config : option TypedConfig }.

Record HttpListenerOptions := {
  ho_dynamicForwardProxy : option string; ho_suppressEnvoyHeaders : bool; ho_dynamicStats : option bool; ho_other : string }.
Definition empty_options : HttpListenerOptions :=
  {| ho_dynamicForwardProxy := None; ho_suppressEnvoyHeaders := false; ho_dynamicStats := None; ho_other := "" |}.
Record HttpListener := {
  hl_virtualHosts : list VirtualHost; hl_options : HttpListenerOptions; hl_statPrefix : string;
  hl_customHttpFilters : list CustomEnvoyFilter; hl_customNetworkFilters : list CustomEnvoyFilter }.

Inductive TcpDestination :=
| TcpAction_Single (d : Destination)
| TcpAction_Multi (ds : list WeightedDestination)
| TcpAction_UpstreamGroup (ref : NamespacedName)
| TcpAction_ForwardSniClusterName.
Record TcpHost := { th_name : string; th_sslConfig : option SslConfig; th_destination : option TcpDestination }.
(** The TCP proxy settings of the options: the flush interval of the access log in
    nanoseconds, and the rest. *)
Record TcpProxySettings := { tp_accessLogFlushInterval : option Z; tp_other : string }.
Record TcpListener := {
  tl_tcpHosts : list TcpHost; tl_tcpProxySettings : option TcpProxySettings; tl_statPrefix : string; tl_customNetworkFilters : list CustomEnvoyFilter }.

Inductive MatchedListenerType := MatchedListener_HttpListener (l : HttpListener) | MatchedListener_TcpListener (l : TcpListener).
Record MatchedListener := {
  ml_matcher : option Matcher; ml_type : option MatchedListenerType; ml_sslConfigurations : list SslConfig }.
Record HttpFilterChain := {
  fc_matcher : option Matcher; fc_httpOptionsRef : string; fc_virtualHostRefs : list string;
  fc_customHttpFilters : list CustomEnvoyFilter; fc_customNetworkFilters : list CustomEnvoyFilter }.
Record MatchedTcpListener := { mtl_matcher : option Matcher; mtl_listener : option TcpListener }.
Record AggregateListener := {
  al_virtualHosts : gmap string VirtualHost; al_httpOptions : gmap string HttpListenerOptions;
  al_httpFilterChains : list HttpFilterChain; al_tcpListeners : list MatchedTcpListener }.

Inductive ListenerType :=
| Listener_HttpListener (l : HttpListener)
| Listener_TcpListener (l : TcpListener)
| Listener_HybridListener (l : list MatchedListener)
| Listener_AggregateListener (l : AggregateListener).
Record Listener := {
  li_name : string; li_bindAddress : string; li_bindPort : Z; li_type : option ListenerType; li_sslConfigurations : list SslConfig;
  (** of the route options *)
  li_maxDirectResponseBodySizeBytes : option Z; li_mostSpecificHeaderMutationsWins : option bool;
  li_other : string }.
Definition GetHttpListener (l : Listener) : option HttpListener :=
  match li_type l with Some (Listener_HttpListener h) => Some h | _ => None end.
Record Proxy := { px_ref : NamespacedName; px_labels : gmap string string; px_listeners : list Listener }.

(** ** Upstreams *)
Record SubsetSelector := { sl_keys : list string; sl_singleHostPerSubset : bool }.
Inductive FallbackPolicy := FallbackPolicy_ANY_ENDPOINT | FallbackPolicy_DEFAULT_SUBSET | FallbackPolicy_NO_FALLBACK | FallbackPolicy_Other (n : Z).
Record SubsetSpec := {
  sp_selectors : list SubsetSelector; sp_defaultSubset : option (gmap string string); sp_fallbackPolicy : FallbackPolicy }.
(** Health checks, outlier detection: the fields that must not be nil, and the rest. *)
Record HealthCheck := { hc_healthyThreshold : option Z; hc_unhealthyThreshold : option Z; hc_healthChecker : option string; hc_other : string }.
Record OutlierDetection := { od_interval : option Z; od_other : string }.
(** A double, by the comparisons the code makes and its text. *)
Record DoubleValue := { dv_below_1 : bool; dv_above_3 : bool; dv_text : string }.
Record PreconnectPolicy := { pc_perUpstream : option DoubleValue; pc_predictive : option DoubleValue }.
Record CircuitBreakerConfig := {
  cb_maxConnections : option Z; cb_maxPendingRequests : option Z; cb_maxRequests : option Z; cb_maxRetries : option Z }.

(** [up_subsetSpec]: the spec of an upstream type that has one. Durations in nanoseconds. *)
Record Upstream := {
  up_ref : NamespacedName; up_subsetSpec : option SubsetSpec; up_healthChecks : list HealthCheck;
  up_outlierDetection : option OutlierDetection; up_preconnectPolicy : option PreconnectPolicy;
  up_circuitBreakers : option CircuitBreakerConfig; up_protocolSelection : Z; up_useHttp2 : bool;
  up_ignoreHealthOnHostRemoval : bool; up_respectDnsTtl : bool; up_dnsRefreshRate : option Z;
  up_sslConfig : option UpstreamSslConfig; up_proxyProtocolVersion : option string;
  up_lambdaFunctions : list string; up_other : string }.
Record UpstreamGroup := { ug_ref : NamespacedName; ug_destinations : list WeightedDestination }.
Record Endpoint := {
  ep_upstreams : list NamespacedName; ep_address : string; ep_port : Z; ep_hostname : string; ep_healthCheckHostname : string;
  ep_labels : option (gmap string string); ep_annotations : option (gmap string string) }.

Record ApiSnapshot := {
  sn_upstreams : list Upstream; sn_upstreamGroups : list UpstreamGroup; sn_endpoints : list Endpoint;
  sn_authConfigs : list NamespacedName; sn_secrets : list Secret }.

(** [Find] of the generated lists: the first element of the reference. *)
Fixpoint Find {A} (ref : A → NamespacedName) (l : list A) (r : NamespacedName) : option A :=
  match l with [] => None | x :: l => if bool_decide (ref x = r) then Some x else Find ref l r end.
Definition find_upstream (s : ApiSnapshot) : NamespacedName → option Upstream := Find up_ref (sn_upstreams s).
Definition find_group (s : ApiSnapshot) : NamespacedName → option UpstreamGroup := Find ug_ref (sn_upstreamGroups s).

Lemma Find_some {A} (ref : A → NamespacedName) l r x : Find ref l r = Some x → x ∈ l ∧ ref x = r.
Proof. induction l as [|y l IH]; simpl; [done|]. case_bool_decide; [intros [= ->]; set_solver|]. intros Hx. apply IH in Hx. set_solver. Qed.
Lemma Find_none {A} (ref : A → NamespacedName) l r : Find ref l r = None ↔ ∀ x, x ∈ l → ref x ≠ r.
Proof.
  induction l as [|y l IH]; simpl; [split; [set_solver|done]|]. case_bool_decide as Hy.
  - split; [done|]. intros Hall. by destruct (Hall y); [left|].
  - rewrite IH. set_solver.
Qed.

(** ** Settings the translation reads *)
Record Settings := {
  se_regexMaxProgramSize : option Z; se_allowWarnings : bool; se_warnMissingTlsSecret : bool; se_translateEmptyGateways : bool;
  se_circuitBreakers : option CircuitBreakerConfig; se_enableAutoMtls : bool; se_upstreamSslParameters : option SslParameters;
  se_enableRestEds : option bool }.
Definition GetTranslatorValue (labels : gmap string string) : string := default "" (labels !! "created_by").
Definition GatewayApiProxyValue : string := "gloo-kube-gateway-api".

(** ** Errors

    What the translation reads of an error: its text, and whether [errors.As] finds a
    [ConfigurationError] in it, and then whether that is a warning. *)
Record Err := { er_message : string; er_configuration : option bool }.
Definition New (m : string) : Err := {| er_message := m; er_configuration := None |}.
Definition NewWarningConfigurationError (m : string) : Err := {| er_message := m; er_configuration := Some true |}.
Definition NewConfigurationError (m : string) : Err := {| er_message := m; er_configuration := Some false |}.
Definition Wrap (e : Err) (m : string) : Err := {| er_message := m +:+ ": " +:+ er_message e; er_configuration := er_configuration e |}.
(** [ConfigurationError] and [IsWarning] *)
Definition is_warning (e : Err) : bool := default false (er_configuration e).
End Gloo.
