(* ===== verification/EnvoyRoutes.v ===== *)
(** * Route configurations of Envoy

    gloo/pkg/translator/route_config.go and reporting.go, gloo/pkg/utils/sanitize.go,
    gloo/pkg/upstreams/conversions.go, pkg/utils/regexutils: the virtual hosts of an HTTP
    listener become a RouteConfiguration, one Envoy route per matcher; what is wrong is
    appended to the report of the part of the Proxy it concerns. Plugins are a parameter
    ([RoutePlugins]) with a state of their own: they edit the Envoy object and may return
    an error. A report is state: [M (R * PS)] for a report [R] and plugin states [PS]. *)

From stdpp Require Import base gmap strings list fin_maps pretty.
From Stdlib Require Import ZArith Ascii.
From S2P Require Import Prelude GoLib GwApi EdgeApi ProxyReports Xds GlooProxy.
Import Validation Gloo.

(** ** Envoy's messages *)
Module Envoy.
Record RegexMatcher := { rm_regex : string; rm_maxProgramSize : option Z }.
Inductive PathSpecifier :=
| RouteMatch_Path (s : string)
| RouteMatch_Prefix (s : string)
| RouteMatch_PathSeparatedPrefix (s : string)
| RouteMatch_SafeRegex (r : RegexMatcher)
| RouteMatch_ConnectMatcher.
Inductive HeaderMatchSpecifier := HeaderMatcher_PresentMatch (b : bool) | HeaderMatcher_SafeRegexMatch (r : RegexMatcher) | HeaderMatcher_ExactMatch (s : string).
Record HeaderMatcher := { eh_name : string; eh_specifier : HeaderMatchSpecifier; eh_invertMatch : bool }.
Inductive QueryMatchSpecifier := QueryParameterMatcher_PresentMatch (b : bool) | StringMatch_SafeRegex (r : RegexMatcher) | StringMatch_Exact (s : string).
Record QueryParameterMatcher := { eq_name : string; eq_specifier : QueryMatchSpecifier }.
Record RouteMatch := {
  rm_path : option PathSpecifier; rm_caseSensitive : option Edge.BoolValue; rm_headers : list HeaderMatcher;
  rm_queryParameters : list QueryParameterMatcher }.

(** Filter metadata: of each filter, its fields. *)
Abbreviation Metadata := (gmap string (gmap string string)) (only parsing).
Record ClusterWeight := { cw_name : string; cw_weight : Z; cw_metadataMatch : option Metadata; cw_other : string }.
Inductive ClusterSpecifier :=
| RouteAction_Cluster (name : string)
| RouteAction_WeightedClusters (clusters : list ClusterWeight) (totalWeight : option Z)
| RouteAction_ClusterHeader (header : string).
Record RouteAction := {
  ra_clusterSpecifier : option ClusterSpecifier; ra_metadataMatch : option Metadata; ra_clusterNotFound500 : bool;
  ra_prefixRewrite : string; ra_other : string }.
Definition empty_action : RouteAction :=
  {| ra_clusterSpecifier := None; ra_metadataMatch := None; ra_clusterNotFound500 := false; ra_prefixRewrite := ""; ra_other := "" |}.

Record RegexMatchAndSubstitute := { rs_pattern : RegexMatcher; rs_substitution : string }.
Inductive SchemeRewrite := RedirectAction_HttpsRedirect (b : bool) | RedirectAction_SchemeRedirect (s : string).
Inductive PathRewrite :=
| RedirectAction_PathRedirect (s : string)
| RedirectAction_PrefixRewrite (s : string)
| RedirectAction_RegexRewrite (r : option RegexMatchAndSubstitute).
Record RedirectAction := {
  rd_hostRedirect : string; rd_responseCode : Z; rd_scheme : SchemeRewrite; rd_stripQuery : bool; rd_portRedirect : Z;
  rd_pathRewrite : option PathRewrite }.
Inductive Action :=
| Route_Route (a : RouteAction)
| Route_DirectResponse (status : Z) (body : string)
| Route_Redirect (r : RedirectAction)
| Route_Other (s : string).
Record Route := { er_name : string; er_match : RouteMatch; er_action : option Action; er_other : string }.
Record VirtualHost := { ev_name : string; ev_domains : list string; ev_routes : list Route; ev_requireTls : bool; ev_other : string }.
Record RouteConfiguration := {
  ec_name : string; ec_virtualHosts : list VirtualHost; ec_maxDirectResponseBodySizeBytes : option Z;
  ec_ignorePortInHostMatching : bool; ec_mostSpecificHeaderMutationsWins : bool }.

(** Getters. *)
Definition GetRoute (r : Route) : option RouteAction := match er_action r with Some (Route_Route a) => Some a | _ => None end.
Definition GetRedirect (r : Route) : option RedirectAction := match er_action r with Some (Route_Redirect a) => Some a | _ => None end.
Definition with_action (a : Action) (r : Route) : Route :=
  {| er_name := er_name r; er_match := er_match r; er_action := Some a; er_other := er_other r |}.
End Envoy.

(** ** Code outside the repository, and hashes *)
Class RouteLibs := {
  (** [sanitizer.SanitizeNameV2] of k8s-utils *)
  SanitizeNameV2 : string → string;
  (** [url.Parse]: an error, or the path of the URL *)
  url_Parse : string → string + string;
  (** [hashutils.MustHash] of a dynamic forward proxy configuration *)
  MustHash : option string → string
}.

(** ** regexutils *)
Definition NewRegexWithProgramSize (candidateRegex : string) (programsize : option Z) : Envoy.RegexMatcher :=
  {| Envoy.rm_regex := candidateRegex; Envoy.rm_maxProgramSize := programsize |}.
Definition NewRegexFromSettings (s : Settings) (candidateRegex : string) : Envoy.RegexMatcher :=
  NewRegexWithProgramSize candidateRegex (se_regexMaxProgramSize s).
Definition ConvertRegexMatchAndSubstitute (s : Settings) (r : option RegexMatchAndSubstitute) : Err + option Envoy.RegexMatchAndSubstitute :=
  match r with
  | None => inr None
  | Some r =>
      let out pattern := inr (Some {| Envoy.rs_pattern := pattern; Envoy.rs_substitution := rx_substitution r |}) in
      match rx_engine r with
      | Engine_nil => out (NewRegexFromSettings s (rx_regex r))
      | Engine_GoogleRe2 size =>
          match size, se_regexMaxProgramSize s with
          | Some n, None => out (NewRegexWithProgramSize (rx_regex r) (Some n))
          | Some n, Some n' => out (if (n <? n')%Z then NewRegexWithProgramSize (rx_regex r) (Some n) else NewRegexFromSettings s (rx_regex r))
          | None, _ => out (NewRegexFromSettings s (rx_regex r))
          end
      | Engine_Other e => inl (New ("Invalid regex EngineType: " +:+ e))
      end
  end.

(** ** Names *)
Definition SanitizeForEnvoy (resourceName : string) : string := replace_char "." "_" resourceName.

(** ** Paths *)
Definition alphanumeric (a : ascii) : bool :=
  let n := nat_of_ascii a in
  ((48 <=? n) && (n <=? 57)) || ((65 <=? n) && (n <=? 90)) || ((97 <=? n) && (n <=? 122)).
Definition path_char (a : ascii) : bool := alphanumeric a || contains_char a "/:@._~!$&'()*+,:=;-".
Definition hex_char (a : ascii) : bool :=
  let n := nat_of_ascii a in
  ((48 <=? n) && (n <=? 57)) || ((65 <=? n) && (n <=? 70)) || ((97 <=? n) && (n <=? 102)).
(** The expression of path characters and escapes, repeated, between the anchors. *)
Fixpoint validPathRegex (s : string) : bool :=
  match s with
  | EmptyString => true
  | String a s' => (path_char a && validPathRegex s') ||
      match s' with String h1 (String h2 s'') => bool_decide (a = "%"%char) && hex_char h1 && hex_char h2 && validPathRegex s'' | _ => false end
  end.
Definition validPathRegexCharacters : string :=
  "^(?:([A-Za-z0-9/:@._~!$&'()*+,:=;-]*|[%][0-9a-fA-F]{2}))*$".
Definition invalidPathSequences : list string := ["//"; "/./"; "/../"; "%2f"; "%2F"; "#"].
Definition invalidPathSuffixes : list string := ["/.."; "/."].

(** [strings.Contains] *)
Fixpoint contains (s sub : string) : bool :=
  has_prefix s sub || match s with EmptyString => false | String _ s' => contains s' sub end.

Definition ValidRoutePatternError : Err := New ("must only contain valid characters matching pattern " +:+ validPathRegexCharacters).
Definition PathContainsInvalidCharacterError (s invalid : string) : Err := New ("path [" +:+ s +:+ "] cannot contain [" +:+ invalid +:+ "]").
Definition PathEndsWithInvalidCharactersError (s invalid : string) : Err := New ("path [" +:+ s +:+ "] cannot end with [" +:+ invalid +:+ "]").
Definition ValidateRoutePath (s : string) : option Err :=
  if bool_decide (s = "") then None
  else if negb (validPathRegex s) then Some ValidRoutePatternError
  else match List.find (contains s) invalidPathSequences with
       | Some invalid => Some (PathContainsInvalidCharacterError s invalid)
       | None => match List.find (has_suffix s) invalidPathSuffixes with
                 | Some invalid => Some (PathEndsWithInvalidCharactersError s invalid)
                 | None => None
                 end
       end.

(** ** Matchers *)
Section Matchers.
Context (settings : Settings) (translatorName : string).

Definition envoyHeaderMatcher (m : Edge.HeaderMatcher) : Envoy.HeaderMatcher :=
  {| Envoy.eh_name := Edge.hm_name m;
     Envoy.eh_specifier :=
       if bool_decide (Edge.hm_value m = "") then Envoy.HeaderMatcher_PresentMatch true
       else if Edge.hm_regex m then Envoy.HeaderMatcher_SafeRegexMatch (NewRegexFromSettings settings (Edge.hm_value m))
       else Envoy.HeaderMatcher_ExactMatch (Edge.hm_value m);
     Envoy.eh_invertMatch := Edge.hm_invert m |}.
Definition envoyQueryMatcher (m : Edge.QueryParameterMatcher) : Envoy.QueryParameterMatcher :=
  {| Envoy.eq_name := Edge.qp_name m;
     Envoy.eq_specifier :=
       if bool_decide (Edge.qp_value m = "") then Envoy.QueryParameterMatcher_PresentMatch true
       else if Edge.qp_regex m then Envoy.StringMatch_SafeRegex (NewRegexFromSettings settings (Edge.qp_value m))
       else Envoy.StringMatch_Exact (Edge.qp_value m) |}.

Definition setEnvoyPathMatcher (p : Edge.PathSpecifier) : Envoy.PathSpecifier :=
  match p with
  | Edge.Matcher_Exact s => Envoy.RouteMatch_Path s
  | Edge.Matcher_Regex s => Envoy.RouteMatch_SafeRegex (NewRegexFromSettings settings s)
  | Edge.Matcher_Prefix s =>
      if bool_decide (translatorName = GatewayApiProxyValue) && negb (has_suffix s "/") then Envoy.RouteMatch_PathSeparatedPrefix s
      else Envoy.RouteMatch_Prefix s
  | Edge.Matcher_Connect => Envoy.RouteMatch_ConnectMatcher
  end.

Definition method_matcher (methods : list string) : Envoy.HeaderMatcher :=
  {| Envoy.eh_name := ":method"; Envoy.eh_specifier := Envoy.HeaderMatcher_SafeRegexMatch (NewRegexFromSettings settings (join "|" methods));
     Envoy.eh_invertMatch := false |}.
Definition glooMatcherToEnvoyMatcher (matcher : Edge.Matcher) : Envoy.RouteMatch :=
  {| Envoy.rm_path := option_map setEnvoyPathMatcher (Edge.em_path matcher);
     Envoy.rm_caseSensitive := Edge.em_caseSensitive matcher;
     Envoy.rm_headers := map envoyHeaderMatcher (Edge.em_headers matcher) ++
       match Edge.em_methods matcher with [] => [] | methods => [method_matcher methods] end;
     Envoy.rm_queryParameters := map envoyQueryMatcher (Edge.em_queryParameters matcher) |}.
End Matchers.

(** ** Destinations *)
Section Destinations.
Context `{RouteLibs}.

Definition GlooSystem : string := "gloo-system".
(** [int32(port)] is printed. *)
Definition UpstreamName (serviceNamespace serviceName : string) (servicePort : Z) : string :=
  SanitizeNameV2 (serviceNamespace +:+ "-" +:+ serviceName +:+ "-" +:+ pretty servicePort).
Definition kube_DestinationToUpstreamRef (ref : NamespacedName) (port : Z) : NamespacedName :=
  {| nn_ns := nn_ns ref; nn_name := "kube-svc:" +:+ UpstreamName (nn_ns ref) (nn_name ref) (wrap_i32 port) |}.
Definition consul_DestinationToUpstreamRef (serviceName : string) : NamespacedName :=
  {| nn_ns := GlooSystem; nn_name := "consul-svc:" +:+ serviceName |}.
Definition DestinationToUpstreamRef (dest : Destination) : Err + NamespacedName :=
  match de_type dest with
  | Some (Destination_Upstream ref) => inr ref
  | Some (Destination_Kube ref port) => inr (kube_DestinationToUpstreamRef ref port)
  | Some (Destination_Consul serviceName) => inr (consul_DestinationToUpstreamRef serviceName)
  | None => inl (New "no destination type specified")
  end.

Definition NewUpstreamNotFoundErr (ref : NamespacedName) : Err :=
  NewWarningConfigurationError ("*v1.Upstream { " +:+ nn_ns ref +:+ "." +:+ nn_name ref +:+ " } not found").
Definition NewUpstreamGroupNotFoundErr (ref : NamespacedName) : Err :=
  NewWarningConfigurationError ("*v1.UpstreamGroup { " +:+ nn_ns ref +:+ "." +:+ nn_name ref +:+ " } not found").

Definition validateSingleDestination (snap : ApiSnapshot) (destination : Destination) : option Err :=
  match DestinationToUpstreamRef destination with
  | inl err => Some err
  | inr upstreamRef => match find_upstream snap upstreamRef with None => Some (NewUpstreamNotFoundErr upstreamRef) | Some _ => None end
  end.
Fixpoint validateMultiDestination (snap : ApiSnapshot) (destinations : list WeightedDestination) : option Err :=
  match destinations with
  | [] => None
  | dest :: rest => match validateSingleDestination snap (wd_destination dest) with
                    | Some err => Some (Wrap err "invalid destination in weighted destination list")
                    | None => validateMultiDestination snap rest
                    end
  end.
Definition validateUpstreamGroup (snap : ApiSnapshot) (ref : NamespacedName) : option Err :=
  match find_group snap ref with
  | None => Some (NewUpstreamGroupNotFoundErr ref)
  | Some upstreamGroup => validateMultiDestination snap (ug_destinations upstreamGroup)
  end.
(** The bytes above 127 and the colon are refused. *)
Fixpoint header_name_chars (s : string) : bool :=
  match s with EmptyString => true | String a s' => (nat_of_ascii a <=? 127) && negb (bool_decide (a = ":"%char)) && header_name_chars s' end.
Definition validateClusterHeader (header : string) : option Err :=
  if header_name_chars header then None else Some (New (header +:+ " is an invalid HTTP header name")).

Definition ValidateRouteDestinations (snap : ApiSnapshot) (action : option RouteActionDestination) : option Err :=
  match action with
  | Some (RouteAction_Single dest) => validateSingleDestination snap dest
  | Some (RouteAction_Multi dests) => validateMultiDestination snap dests
  | Some (RouteAction_UpstreamGroup ref) => validateUpstreamGroup snap ref
  | Some (RouteAction_ClusterHeader header) => validateClusterHeader header
  | Some (RouteAction_DynamicForwardProxy _) => None
  | None => Some (New "must specify either 'singleDestination', 'multipleDestinations', 'upstreamGroup', 'clusterHeader', or 'dynamicForwardProxy' for action")
  end.
Definition ValidateTcpRouteDestinations (snap : ApiSnapshot) (action : option TcpDestination) : option Err :=
  match action with
  | Some (TcpAction_Single dest) => validateSingleDestination snap dest
  | Some (TcpAction_Multi dests) => validateMultiDestination snap dests
  | Some (TcpAction_UpstreamGroup ref) => validateUpstreamGroup snap ref
  | Some TcpAction_ForwardSniClusterName => None
  | None => Some (New "must specify either 'singleDestination', 'multipleDestinations', 'upstreamGroup' or 'forwardSniClusterName' for action")
  end.

(** *** Subsets *)
Definition EnvoyLb : string := "envoy.lb".
(** The labels of an endpoint or subset, over a default value for [keys]. *)
Definition lb_metadata (keys : list string) (labels : option (gmap string string)) (zeroValue : string) : option Envoy.Metadata :=
  let fields := default ∅ labels ∪ list_to_map (map (λ k, (k, zeroValue)) keys) in
  if bool_decide (fields = ∅) then None else Some {[EnvoyLb := fields]}.
Definition getSubsetMatch (destination : Destination) : option Envoy.Metadata :=
  match de_subset destination with Some values => lb_metadata [] (Some values) "" | None => None end.

Definition SubsetsMisconfiguredErr : Err := NewWarningConfigurationError "route has a subset config, but the upstream does not".
Definition selector_matches (routeSubset : gmap string string) (subset : SubsetSelector) : bool :=
  (length (sl_keys subset) =? size routeSubset) && forallb (λ k, bool_decide (is_Some (routeSubset !! k))) (sl_keys subset).
Definition checkThatSubsetMatchesUpstream (snap : ApiSnapshot) (dest : Destination) : option Err :=
  match de_subset dest with
  | None => None
  | Some routeSubset =>
      if size routeSubset =? 0 then None
      else match DestinationToUpstreamRef dest with
           | inl err => Some err
           | inr ref => match find_upstream snap ref with
               | None => Some (NewUpstreamNotFoundErr ref)
               | Some upstream => match up_subsetSpec upstream with
                   | None => Some SubsetsMisconfiguredErr
                   | Some subsetConfig =>
                       if existsb (selector_matches routeSubset) (sp_selectors subsetConfig) then None
                       else Some (New "route has a subset config, but none of the subsets in the upstream match it")
                   end
               end
           end
  end.

Definition GetGeneratedClusterName (dfpListenerCfg : option string) : string := "solo_io_generated_dfp:" +:+ MustHash dfpListenerCfg.
End Destinations.

(** ** Plugins *)
Record VirtualHostParams := { vp_snapshot : ApiSnapshot; vp_proxy : Proxy; vp_listener : Listener; vp_httpListener : HttpListener }.
Record RouteParams := { rp_vhostParams : VirtualHostParams; rp_virtualHost : VirtualHost }.

Class RouteConfigPlugins (PS : Type) := {
  (** a route plugin, with its type as printed *)
  GetRoutePlugins : list (string * (RouteParams → Route → Envoy.Route → PS → option Err * Envoy.Route * PS));
  GetRouteActionPlugins : list (RouteParams → Route → option RouteActionDestination → Envoy.RouteAction → PS → option Err * Envoy.RouteAction * PS);
  GetWeightedDestinationPlugins : list (RouteParams → WeightedDestination → Envoy.ClusterWeight → PS → option Err * Envoy.ClusterWeight * PS);
  (** a virtual host plugin, with its name *)
  GetVirtualHostPlugins : list (string * (VirtualHostParams → VirtualHost → Envoy.VirtualHost → PS → option Err * Envoy.VirtualHost * PS))
}.

(** ** reporting.go *)
Section Reporting.
Context {R : Type}.
Definition reportPluginProcessingErrorOrWarning (err : Err) (doReportErr doReportWarning : R → R) : R → R :=
  if is_warning err then doReportWarning else doReportErr.
(** Warnings are swallowed when they are allowed. *)
Definition reportPluginProcessingError (allowWarnings : bool) (err : Err) (doReportErr : R → R) : R → R :=
  reportPluginProcessingErrorOrWarning err doReportErr (if allowWarnings then id else doReportErr).
End Reporting.

(** With source metadata the error is reported, and then reported again without it. *)
Definition reportRoutePluginProcessingError (settings : Settings) (route : Route) (out : Envoy.Route) (plugin : string) (err : Err) : RouteReport → RouteReport :=
  let message := plugin +:+ ": " +:+ er_message err in
  reportPluginProcessingError (se_allowWarnings settings) err (λ r,
    let r := match ro_metadataStatic route with
             | Some metadata => AppendRouteErrorWithMetadata RouteReport_Error_ProcessingError message (Envoy.er_name out) (Some metadata) r
             | None => r end in
    AppendRouteError RouteReport_Error_ProcessingError message (Envoy.er_name out) r).
Definition reportVirtualHostPluginProcessingError (settings : Settings) (virtualHost : VirtualHost) (plugin : string) (err : Err) :
    VirtualHostReport → VirtualHostReport :=
  let message := "invalid virtual host [" +:+ vh_name virtualHost +:+ "] while processing plugin " +:+ plugin +:+ ": " +:+ er_message err in
  reportPluginProcessingError (se_allowWarnings settings) err (λ r,
    let r := match vh_metadataStatic virtualHost with
             | Some metadata => AppendVirtualHostErrorWithMetadata VirtualHostReport_Error_ProcessingError message (Some metadata) r
             | None => r end in
    AppendVirtualHostError VirtualHostReport_Error_ProcessingError message r).
(** [reportWeightedDestinationPluginProcessingError], [reportRouteActionPluginProcessingError] *)
Definition reportNamedPluginError (settings : Settings) (routeName : string) (err : Err) : RouteReport → RouteReport :=
  reportPluginProcessingError (se_allowWarnings settings) err (AppendRouteError RouteReport_Error_ProcessingError (er_message err) routeName).
Definition reportRouteActionProcessingError (out : Envoy.Route) (err : Err) : RouteReport → RouteReport :=
  reportPluginProcessingErrorOrWarning err
    (AppendRouteError RouteReport_Error_ProcessingError (er_message err) (Envoy.er_name out))
    (AppendRouteWarning RouteReport_Warning_InvalidDestinationWarning (er_message err)).

(** ** The translator *)
Record HttpRouteConfigurationTranslator := {
  h_proxy : Proxy; h_translatorName : string; h_parentListener : Listener; h_listener : HttpListener;
  h_routeConfigName : string; h_requireTlsOnVirtualHosts : bool }.

Section Translator.
Context `{RouteLibs} {PS : Type} `{!RouteConfigPlugins PS} (settings : Settings) (snap : ApiSnapshot).

(** A report and the plugins' states. *)
Definition update_report {R} (f : R → R) : M (R * PS) unit := modify (λ '(r, ps), (f r, ps)).
Definition on_plugins {R A} (f : PS → A * PS) : M (R * PS) A := λ '(r, ps), let '(a, ps) := f ps in Ok (a, (r, ps)).

(** *** Weighted clusters *)
Definition run_weighted_plugins (params : RouteParams) (routeName : string) (dest : WeightedDestination) (w : Envoy.ClusterWeight) :
    M (RouteReport * PS) Envoy.ClusterWeight :=
  fold_range 0 GetWeightedDestinationPlugins w (λ _ plugin w,
    let! (err, w) <~ on_plugins (plugin params dest w) ;;
    do! match err with Some err => update_report (reportNamedPluginError settings routeName err) | None => ret tt end ;;
    ret w).

(** The clusters so far, the total weight so far, and the error that ended the loop. *)
Fixpoint weighted_clusters (params : RouteParams) (routeName : string) (dests : list WeightedDestination) (acc : list Envoy.ClusterWeight) (total : Z) :
    M (RouteReport * PS) (list Envoy.ClusterWeight * Z * option Err) :=
  match dests with
  | [] => ret (acc, total, None)
  | dest :: rest =>
      match DestinationToUpstreamRef (wd_destination dest) with
      | inl err => ret (acc, total, Some err)
      | inr usRef =>
          let total := wrap_u32 (total + GetWeight dest) in
          w <~ run_weighted_plugins params routeName dest {| Envoy.cw_name := Xds.UpstreamToClusterName usRef;
                Envoy.cw_weight := GetWeight dest; Envoy.cw_metadataMatch := getSubsetMatch (wd_destination dest); Envoy.cw_other := "" |} ;;
          match checkThatSubsetMatchesUpstream snap (wd_destination dest) with
          | Some err => ret (acc ++ [w], total, Some err)
          | None => weighted_clusters params routeName rest (acc ++ [w]) total
          end
      end
  end.

Definition with_specifier (c : Envoy.ClusterSpecifier) (a : Envoy.RouteAction) : Envoy.RouteAction :=
  {| Envoy.ra_clusterSpecifier := Some c; Envoy.ra_metadataMatch := Envoy.ra_metadataMatch a;
     Envoy.ra_clusterNotFound500 := Envoy.ra_clusterNotFound500 a; Envoy.ra_prefixRewrite := Envoy.ra_prefixRewrite a; Envoy.ra_other := Envoy.ra_other a |}.
Definition with_metadata (m : option Envoy.Metadata) (a : Envoy.RouteAction) : Envoy.RouteAction :=
  {| Envoy.ra_clusterSpecifier := Envoy.ra_clusterSpecifier a; Envoy.ra_metadataMatch := m;
     Envoy.ra_clusterNotFound500 := Envoy.ra_clusterNotFound500 a; Envoy.ra_prefixRewrite := Envoy.ra_prefixRewrite a; Envoy.ra_other := Envoy.ra_other a |}.

Definition NoDestinationSpecifiedError : Err := New "must specify at least one weighted destination for multi destination routes".
Definition total_weight_error : string :=
  "Incorrect configuration for Weighted Destination for route - Weighted Destinations require a total weight that is greater than or equal to 1".
Definition setWeightedClusters (params : RouteParams) (dests : list WeightedDestination) (out : Envoy.RouteAction) (routeName : string) :
    M (RouteReport * PS) (option Err * Envoy.RouteAction) :=
  match dests with
  | [] => ret (Some NoDestinationSpecifiedError, with_specifier (Envoy.RouteAction_WeightedClusters [] None) out)
  | _ =>
      let! (clusters, total, err) <~ weighted_clusters params routeName dests [] 0 ;;
      match err with
      | Some err => ret (Some err, with_specifier (Envoy.RouteAction_WeightedClusters clusters None) out)
      | None =>
          do! (if (total <? 1)%Z then update_report (AppendRouteError RouteReport_Error_ProcessingError total_weight_error routeName) else ret tt) ;;
          ret (None, with_specifier (Envoy.RouteAction_WeightedClusters clusters (Some total)) out)
      end
  end.

(** *** Actions *)
Definition setRouteAction (params : RouteParams) (action : option RouteActionDestination) (out : Envoy.RouteAction) (routeName : string) :
    M (RouteReport * PS) (option Err * Envoy.RouteAction) :=
  match action with
  | Some (RouteAction_Single dest) =>
      match DestinationToUpstreamRef dest with
      | inl err => ret (Some err, with_specifier (Envoy.RouteAction_Cluster "") out)
      | inr usRef =>
          ret (checkThatSubsetMatchesUpstream snap dest,
               with_metadata (getSubsetMatch dest) (with_specifier (Envoy.RouteAction_Cluster (Xds.UpstreamToClusterName usRef)) out))
      end
  | Some (RouteAction_Multi dests) => setWeightedClusters params dests out routeName
  | Some (RouteAction_UpstreamGroup ref) =>
      match find_group snap ref with
      | None => ret (Some (NewUpstreamGroupNotFoundErr ref), with_specifier (Envoy.RouteAction_Cluster "") out)
      | Some upstreamGroup => setWeightedClusters params (ug_destinations upstreamGroup) out routeName
      end
  | Some (RouteAction_ClusterHeader header) => ret (None, with_specifier (Envoy.RouteAction_ClusterHeader header) out)
  | Some (RouteAction_DynamicForwardProxy _) =>
      (* of the parent listener, when it is an HTTP listener itself *)
      let config := from_option (λ l, ho_dynamicForwardProxy (hl_options l)) None (GetHttpListener (vp_listener (rp_vhostParams params))) in
      ret (None, with_specifier (Envoy.RouteAction_Cluster (GetGeneratedClusterName config)) out)
  | None => ret (Some (New "unknown upstream destination type"), out)
  end.

Definition runRoutePlugins (params : RouteParams) (route : Route) (out : Envoy.Route) : M (RouteReport * PS) Envoy.Route :=
  fold_range 0 GetRoutePlugins out (λ _ '(plugin, process) out,
    let! (err, out) <~ on_plugins (process params route out) ;;
    do! match err with Some err => update_report (reportRoutePluginProcessingError settings route out plugin err) | None => ret tt end ;;
    ret out).
(** They only run when both the route and its translation have a route action. *)
Definition runRouteActionPlugins (params : RouteParams) (route : Route) (out : Envoy.Route) : M (RouteReport * PS) Envoy.Route :=
  match ro_action route, Envoy.GetRoute out with
  | Some (Route_RouteAction d), Some a =>
      a <~ fold_range 0 GetRouteActionPlugins a (λ _ process a,
        let! (err, a) <~ on_plugins (process params route d a) ;;
        do! match err with Some err => update_report (reportNamedPluginError settings (Envoy.er_name out) err) | None => ret tt end ;;
        ret a) ;;
      ret (Envoy.with_action (Envoy.Route_Route a) out)
  | _, _ => ret out
  end.

Definition append_route_error (t : RouteReport_Error_Type) (reason routeName : string) : M (RouteReport * PS) unit :=
  update_report (AppendRouteError t reason routeName).

Definition redirect_of (r : RedirectAction) (p : option Envoy.PathRewrite) : Envoy.RedirectAction :=
  {| Envoy.rd_hostRedirect := re_hostRedirect r; Envoy.rd_responseCode := re_responseCode r;
     Envoy.rd_scheme := Envoy.RedirectAction_HttpsRedirect (re_httpsRedirect r); Envoy.rd_stripQuery := re_stripQuery r;
     Envoy.rd_portRedirect := default 0%Z (re_portRedirect r); Envoy.rd_pathRewrite := p |}.
(** A pattern that cannot be converted is reported and leaves the path alone. *)
Definition path_rewrite (routeName : string) (p : option PathRewriteSpecifier) : M (RouteReport * PS) (option Envoy.PathRewrite) :=
  match p with
  | None => ret None
  | Some (RedirectAction_PathRedirect s) => ret (Some (Envoy.RedirectAction_PathRedirect s))
  | Some (RedirectAction_PrefixRewrite s) => ret (Some (Envoy.RedirectAction_PrefixRewrite s))
  | Some (RedirectAction_RegexRewrite r) =>
      match ConvertRegexMatchAndSubstitute settings r with
      | inl err => do! append_route_error RouteReport_Error_InvalidMatcherError (er_message err) routeName ;; ret None
      | inr regex => ret (Some (Envoy.RedirectAction_RegexRewrite regex))
      end
  end.

Definition setAction (h : HttpRouteConfigurationTranslator) (params : RouteParams) (route : Route) (out : Envoy.Route) : M (RouteReport * PS) Envoy.Route :=
  match ro_action route with
  | Some (Route_RouteAction action) =>
      do! match ValidateRouteDestinations (vp_snapshot (rp_vhostParams params)) action with
          | Some err => update_report (AppendRouteWarning RouteReport_Warning_InvalidDestinationWarning (er_message err))
          | None => ret tt
          end ;;
      let initial := {| Envoy.ra_clusterSpecifier := None; Envoy.ra_metadataMatch := None;
        Envoy.ra_clusterNotFound500 := bool_decide (h_translatorName h = GatewayApiProxyValue); Envoy.ra_prefixRewrite := ""; Envoy.ra_other := "" |} in
      let! (err, a) <~ setRouteAction params action initial (Envoy.er_name out) ;;
      let out := Envoy.with_action (Envoy.Route_Route a) out in
      do! match err with Some err => update_report (reportRouteActionProcessingError out err) | None => ret tt end ;;
      out <~ runRoutePlugins params route out ;;
      runRouteActionPlugins params route out
  | Some (Route_DirectResponseAction status body) => runRoutePlugins params route (Envoy.with_action (Envoy.Route_DirectResponse status body) out)
  | Some (Route_GraphqlApiRef _) =>
      let a := with_specifier (Envoy.RouteAction_Cluster "graphql.dummy.cluster") Envoy.empty_action in
      out <~ runRoutePlugins params route (Envoy.with_action (Envoy.Route_Route a) out) ;;
      runRouteActionPlugins params route out
  | Some (Route_RedirectAction r) =>
      p <~ path_rewrite (ro_name route) (re_pathRewrite r) ;;
      runRoutePlugins params route (Envoy.with_action (Envoy.Route_Redirect (redirect_of r p)) out)
  | None => ret out
  end.

(** *** Validation of the result *)
Definition validatePath (path name : string) : M (RouteReport * PS) unit :=
  match ValidateRoutePath path with
  | Some err => append_route_error RouteReport_Error_ProcessingError (er_message (Wrap err ("the path is invalid: " +:+ path))) name
  | None => ret tt
  end.
Definition ValidatePrefixRewrite (s : string) : option Err :=
  match url_Parse s with inl err => Some (New err) | inr path => ValidateRoutePath path end.
Definition validatePrefixRewrite (rewrite name : string) : M (RouteReport * PS) unit :=
  match ValidatePrefixRewrite rewrite with
  | Some err => append_route_error RouteReport_Error_ProcessingError (er_message (Wrap err ("the rewrite is invalid: " +:+ rewrite))) name
  | None => ret tt
  end.
(** The paths of a route; a getter returns the empty string on another variant. *)
Definition matched_paths (m : Envoy.RouteMatch) : list string :=
  match Envoy.rm_path m with
  | Some (Envoy.RouteMatch_Path s) => [s; ""; ""]
  | Some (Envoy.RouteMatch_Prefix s) => [""; s; ""]
  | Some (Envoy.RouteMatch_PathSeparatedPrefix s) => [""; ""; s]
  | _ => [""; ""; ""]
  end.
Definition redirect_paths (r : option Envoy.RedirectAction) : list string :=
  match r with
  | None => [""; ""; ""]
  | Some r => [match Envoy.rd_pathRewrite r with Some (Envoy.RedirectAction_PathRedirect s) => s | _ => "" end; Envoy.rd_hostRedirect r;
               match Envoy.rd_scheme r with Envoy.RedirectAction_SchemeRedirect s => s | _ => "" end]
  end.
Definition redirect_prefix_rewrite (r : option Envoy.RedirectAction) : string :=
  match r with Some r => match Envoy.rd_pathRewrite r with Some (Envoy.RedirectAction_PrefixRewrite s) => s | _ => "" end | None => "" end.
Definition validateEnvoyRoute (r : Envoy.Route) : M (RouteReport * PS) unit :=
  let name := Envoy.er_name r in
  do! for_range (matched_paths (Envoy.er_match r) ++ redirect_paths (Envoy.GetRedirect r)) (λ path, validatePath path name) ;;
  do! validatePrefixRewrite (from_option Envoy.ra_prefixRewrite "" (Envoy.GetRoute r)) name ;;
  validatePrefixRewrite (redirect_prefix_rewrite (Envoy.GetRedirect r)) name.

(** *** Routes *)
Definition matched_route (h : HttpRouteConfigurationTranslator) (route : Route) (generatedName : string) (i : nat) (matcher : Edge.Matcher) : Envoy.Route :=
  {| Envoy.er_name := if bool_decide (ro_name route = "") then generatedName +:+ "-matcher-" +:+ itoa i
                      else generatedName +:+ "-" +:+ ro_name route +:+ "-matcher-" +:+ itoa i;
     Envoy.er_match := glooMatcherToEnvoyMatcher settings (h_translatorName h) matcher; Envoy.er_action := None; Envoy.er_other := "" |}.
(** A route without matchers takes every path, and has no name. *)
Definition catch_all_route : Envoy.Route :=
  {| Envoy.er_name := ""; Envoy.er_match := {| Envoy.rm_path := Some (Envoy.RouteMatch_Prefix "/"); Envoy.rm_caseSensitive := None;
       Envoy.rm_headers := []; Envoy.rm_queryParameters := [] |}; Envoy.er_action := None; Envoy.er_other := "" |}.
Definition initRoutes (h : HttpRouteConfigurationTranslator) (route : Route) (generatedName : string) : M (RouteReport * PS) (list Envoy.Route) :=
  match ro_matchers route with
  | [] => ret [catch_all_route]
  | matchers =>
      fold_range 0 matchers [] (λ i matcher out,
        do! match Edge.em_path matcher with
            | None => append_route_error RouteReport_Error_InvalidMatcherError "no path specifier provided" generatedName
            | Some _ => ret tt
            end ;;
        ret (out ++ [matched_route h route generatedName i matcher]))
  end.
Definition envoyRoutes (h : HttpRouteConfigurationTranslator) (params : RouteParams) (route : Route) (generatedName : string) :
    M (RouteReport * PS) (list Envoy.Route) :=
  out <~ initRoutes h route generatedName ;;
  fold_range 0 out [] (λ _ r acc,
    r <~ setAction h params route r ;;
    do! validateEnvoyRoute r ;;
    ret (acc ++ [r])).

(** *** Virtual hosts

    Indexing the reports of the parts panics when there are too few. *)
Definition on_nth {R S A} (get : S → list R) (set : list R → S → S) (i : nat) (m : M (R * PS) A) : M (S * PS) A := λ '(s, ps),
  match get s !! i with
  | None => Panic "index out of range"
  | Some r => match m (r, ps) with
              | Ok (a, (r, ps)) => Ok (a, (set (<[i := r]> (get s)) s, ps))
              | Panic why => Panic why
              | OutOfFuel => OutOfFuel
              end
  end.
Definition with_routeReports (l : list RouteReport) (r : VirtualHostReport) : VirtualHostReport := {| vr_errors := vr_errors r; vr_routeReports := l |}.
Definition with_vhostReports (l : list VirtualHostReport) (r : HttpListenerReport) : HttpListenerReport :=
  {| hr_errors := hr_errors r; hr_virtualHostReports := l |}.
Definition on_route_report {A} (i : nat) : M (RouteReport * PS) A → M (VirtualHostReport * PS) A := on_nth vr_routeReports with_routeReports i.
Definition on_vhost_report {A} (i : nat) : M (VirtualHostReport * PS) A → M (HttpListenerReport * PS) A := on_nth hr_virtualHostReports with_vhostReports i.

Definition with_name (name : string) (v : VirtualHost) : VirtualHost :=
  {| vh_name := name; vh_domains := vh_domains v; vh_routes := vh_routes v; vh_options := vh_options v;
     vh_configRef := vh_configRef v; vh_metadataStatic := vh_metadataStatic v |}.
Definition envoy_domains (domains : list string) : list string := match domains with [] => ["*"] | [""] => ["*"] | _ => domains end.

Definition computeVirtualHost (h : HttpRouteConfigurationTranslator) (params : VirtualHostParams) (virtualHost : VirtualHost) :
    M (VirtualHostReport * PS) Envoy.VirtualHost :=
  let virtualHost := with_name (SanitizeForEnvoy (vh_name virtualHost)) virtualHost in
  envoyRoutes <~ fold_range 0 (vh_routes virtualHost) [] (λ i route acc,
    computedRoutes <~ on_route_report i (envoyRoutes h {| rp_vhostParams := params; rp_virtualHost := virtualHost |} route
                        (vh_name virtualHost +:+ "-route-" +:+ itoa i)) ;;
    ret (acc ++ computedRoutes)) ;;
  let out := {| Envoy.ev_name := vh_name virtualHost; Envoy.ev_domains := envoy_domains (vh_domains virtualHost); Envoy.ev_routes := envoyRoutes;
                Envoy.ev_requireTls := h_requireTlsOnVirtualHosts h; Envoy.ev_other := "" |} in
  fold_range 0 GetVirtualHostPlugins out (λ _ '(plugin, process) out,
    let! (err, out) <~ on_plugins (process params virtualHost out) ;;
    do! match err with Some err => update_report (reportVirtualHostPluginProcessingError settings virtualHost plugin err) | None => ret tt end ;;
    ret out).

(** *** Domains *)
Context `{!GoRange string}.

Definition EmptyDomain_error (vh : VirtualHost) : string := "virtual host " +:+ vh_name vh +:+ " has an empty domain".
(** The names as Go prints a slice. *)
Definition SharedDomain_error (domain : string) (vHostNames : list string) : string :=
  "domain " +:+ domain +:+ " is shared by the following virtual hosts: [" +:+ join " " vHostNames +:+ "]".

(** The virtual hosts of each domain, one occurrence after the other. *)
Definition domains_of (vh : VirtualHost) : list string := match vh_domains vh with [] => ["*"] | l => l end.
Definition index_domains (virtualHosts : list VirtualHost) : M (HttpListenerReport * PS) (gmap string (list nat)) :=
  fold_range 0 virtualHosts ∅ (λ i vHost m,
    fold_range 0 (domains_of vHost) m (λ _ domain m,
      do! (if bool_decide (domain = "") then on_vhost_report i (update_report (AppendVirtualHostError VirtualHostReport_Error_EmptyDomainError (EmptyDomain_error vHost))) else ret tt) ;;
      ret (<[domain := default [] (m !! domain) ++ [i]]> m))).
Definition ValidateVirtualHostDomains (virtualHosts : list VirtualHost) : M (HttpListenerReport * PS) unit :=
  domainsToVirtualHosts <~ index_domains virtualHosts ;;
  for_range (go_range domainsToVirtualHosts) (λ '(domain, vHosts),
    if 1 <? length vHosts then
      let vHostNames := map (λ i, from_option vh_name "" (virtualHosts !! i)) vHosts in
      for_range vHosts (λ i, on_vhost_report i (update_report (AppendVirtualHostError VirtualHostReport_Error_DomainsNotUniqueError (SharedDomain_error domain vHostNames))))
    else ret tt).

Definition computeVirtualHosts (h : HttpRouteConfigurationTranslator) : M (HttpListenerReport * PS) (list Envoy.VirtualHost) :=
  let virtualHosts := hl_virtualHosts (h_listener h) in
  do! ValidateVirtualHostDomains virtualHosts ;;
  fold_range 0 virtualHosts [] (λ i virtualHost acc,
    v <~ on_vhost_report i (computeVirtualHost h {| vp_snapshot := snap; vp_proxy := h_proxy h; vp_listener := h_parentListener h; vp_httpListener := h_listener h |} virtualHost) ;;
    ret (acc ++ [v])).

Definition httpRouteConfigurationTranslator_ComputeRouteConfiguration (h : HttpRouteConfigurationTranslator) :
    M (HttpListenerReport * PS) (list Envoy.RouteConfiguration) :=
  virtualHosts <~ computeVirtualHosts h ;;
  ret [{| Envoy.ec_name := h_routeConfigName h; Envoy.ec_virtualHosts := virtualHosts;
          Envoy.ec_maxDirectResponseBodySizeBytes := li_maxDirectResponseBodySizeBytes (h_parentListener h);
          Envoy.ec_ignorePortInHostMatching := bool_decide (h_translatorName h = GatewayApiProxyValue);
          Envoy.ec_mostSpecificHeaderMutationsWins := default false (li_mostSpecificHeaderMutationsWins (h_parentListener h)) |}].
End Translator.
