(* ===== verification/EnvoyMatchFacts.v ===== *)
(** * Facts about the paths and matchers of Envoy routes

    What [ValidateRoutePath] accepts: the language of its regular expression without the
    forbidden sequences. An accepted absolute path is clean: it has no empty element, "."
    or "..".

    A request satisfies the Envoy match that [glooMatcherToEnvoyMatcher] makes exactly when
    it meets the matcher of the Proxy. Envoy's matching is a parameter ([EnvoyMatching]) with
    the laws that its API documents; so are the regular expression engine, and what a value
    matcher gives when the header is missing. *)

From stdpp Require Import base gmap strings list fin_maps.
From Stdlib Require Import ZArith Ascii.
From S2P Require Import Prelude GoLib GwApi EdgeApi GlooProxy EnvoyRoutes.
Import Gloo.

(** ** Substrings *)
Lemma contains_spec s sub : contains s sub = true ↔ ∃ a b, s = a +:+ sub +:+ b.
Proof.
  induction s as [|c s IH]; cbn [contains]; rewrite orb_true_iff, has_prefix_spec.
  - split; [intros [[t Ht]|]; [by exists "", t|done]|]. intros (a & b & E). left. destruct a; [by exists b|done].
  - rewrite IH. split.
    + intros [[t ->]|(a & b & ->)]; [by exists "", t|by exists (String c a), b].
    + intros (a & b & E). destruct a as [|c' a]; [left; by exists b|right]. injection E as -> ->. by exists a, b.
Qed.

(** ** The language of the expression *)
Inductive path_language : string → Prop :=
| path_nil : path_language ""
| path_cons a s : path_char a = true → path_language s → path_language (String a s)
| path_escape h1 h2 s : hex_char h1 = true → hex_char h2 = true → path_language s → path_language (String "%" (String h1 (String h2 s))).

Lemma validPathRegex_spec s : validPathRegex s = true ↔ path_language s.
Proof.
  split.
  - remember (String.length s) as n eqn:Hn. revert s Hn. induction (lt_wf n) as [n _ IH]. intros s -> Hs.
    destruct s as [|a s]; [constructor|]. simpl in Hs. apply orb_true_iff in Hs as [[Ha Hs]%andb_true_iff|Hs].
    + constructor; [done|]. eapply IH; [|done|done]. simpl. lia.
    + destruct s as [|h1 [|h2 s]]; try done. rewrite !andb_true_iff, bool_decide_eq_true in Hs. destruct Hs as [[[-> ?] ?] ?].
      constructor; [done..|]. eapply IH; [|done|done]. simpl. lia.
  - induction 1 as [|a s Ha _ IH|h1 h2 s H1 H2 _ IH]; [done| |].
    + simpl. by rewrite Ha, IH.
    + cbn [validPathRegex]. rewrite H1, H2, IH, (bool_decide_eq_true_2 ("%"%char = "%"%char)) by done. apply orb_true_r.
Qed.

(** ** What is accepted *)
Lemma ValidateRoutePath_exact s : ValidateRoutePath s = None ↔
  s = "" ∨ (path_language s ∧ (∀ x, x ∈ invalidPathSequences → ∀ a b, s ≠ a +:+ x +:+ b) ∧
            (∀ x, x ∈ invalidPathSuffixes → ∀ a, s ≠ a +:+ x)).
Proof.
  unfold ValidateRoutePath. case_bool_decide as Hs; [split; [by left|done]|]. rewrite <-validPathRegex_spec.
  destruct (validPathRegex s); cbn [negb]; [|split; [done|intros [|[]]; done]].
  destruct (List.find (contains s) invalidPathSequences) as [x|] eqn:Hseq.
  { split; [done|]. intros [|(_ & Hseq' & _)]; [done|]. apply find_some in Hseq as [Hx Hc]. apply contains_spec in Hc as (a & b & E).
    apply list_elem_of_In in Hx. by destruct (Hseq' x Hx a b). }
  destruct (List.find (has_suffix s) invalidPathSuffixes) as [x|] eqn:Hsuf.
  { split; [done|]. intros [|(_ & _ & Hsuf')]; [done|]. apply find_some in Hsuf as [Hx Hc]. apply has_suffix_spec in Hc as (a & E).
    apply list_elem_of_In in Hx. by destruct (Hsuf' x Hx a). }
  split; [|done]. intros _. right. rewrite find_none_elem in Hseq, Hsuf. split; [done|]. split.
  - intros x Hx a b E. apply Hseq in Hx. assert (contains s x = true); [|congruence]. apply contains_spec. eauto.
  - intros x Hx a E. apply Hsuf in Hx. assert (has_suffix s x = true); [|congruence]. apply has_suffix_spec. eauto.
Qed.

(** ** Elements of a path *)
Fixpoint elements (s : string) : list string :=
  match s with
  | EmptyString => [""]
  | String a s => if bool_decide (a = "/"%char) then "" :: elements s
                  else match elements s with x :: l => String a x :: l | [] => [String a ""] end
  end.
Lemma string_app_nil s : s +:+ "" = s.
Proof. induction s as [|a s IH]; [done|]. by apply (f_equal (String a)). Qed.
Lemma elements_not_nil s : elements s ≠ [].
Proof. destruct s as [|a s]; [done|]. simpl. case_bool_decide; [done|]. by destruct (elements s). Qed.
Lemma split_slash_elements cur s : split_slash cur s = match elements s with x :: l => (cur +:+ x) :: l | [] => [] end.
Proof.
  revert cur. induction s as [|a s IH]; intros cur; simpl; [by rewrite string_app_nil|].
  case_bool_decide; rewrite IH; [by rewrite string_app_nil; destruct (elements s)|].
  pose proof (elements_not_nil s). destruct (elements s); [done|]. by rewrite string_append_assoc.
Qed.
Lemma split_slash_empty s : split_slash "" s = elements s.
Proof. rewrite split_slash_elements. by destruct (elements s). Qed.

Lemma join_cons sep x l : l ≠ [] → join sep (x :: l) = x +:+ sep +:+ join sep l.
Proof. by destruct l. Qed.
Lemma join_app sep l1 l2 : l1 ≠ [] → l2 ≠ [] → join sep (l1 ++ l2) = join sep l1 +:+ sep +:+ join sep l2.
Proof.
  intros H1 H2. induction l1 as [|x l1 IH]; [done|]. destruct l1 as [|y l1]; [simpl; by destruct l2|].
  change ((x :: y :: l1) ++ l2) with (x :: (y :: l1) ++ l2). rewrite join_cons by done. rewrite IH by done.
  rewrite (join_cons sep x (y :: l1)) by done. by rewrite !string_append_assoc.
Qed.
Lemma join_elements s : join "/" (elements s) = s.
Proof.
  induction s as [|a s IH]; [done|]. simpl. pose proof (elements_not_nil s). case_bool_decide as Ha.
  - subst a. rewrite join_cons by done. by rewrite IH.
  - destruct (elements s) as [|x l] eqn:E; [done|]. destruct l; simpl in *; by rewrite <-IH.
Qed.

(** An element after the first one stands after a slash, and before a slash or the end. *)
Lemma element_occurs s l1 e l2 : elements s = l1 ++ e :: l2 → l1 ≠ [] →
  ∃ a, s = a +:+ "/" +:+ e +:+ match l2 with [] => "" | _ => "/" +:+ join "/" l2 end.
Proof.
  intros E H1. exists (join "/" l1). rewrite <-(join_elements s), E, join_app by done. f_equal. f_equal.
  destruct l2; [by rewrite string_app_nil|]. by rewrite join_cons.
Qed.

Lemma clean_elems_plain l acc : (∀ e, e ∈ l → e ≠ "" ∧ e ≠ "." ∧ e ≠ "..") → clean_elems true acc l = rev acc ++ l.
Proof.
  revert acc. induction l as [|e l IH]; intros acc Hl; simpl; [by rewrite app_nil_r|].
  destruct (Hl e) as (? & ? & ?); [by left|]. rewrite !bool_decide_eq_false_2 by done. simpl. rewrite IH by set_solver. simpl. by rewrite <-app_assoc.
Qed.

Definition tidy (s : string) : Prop := path_clean s = s ∨ s = path_clean s +:+ "/".

(** An accepted absolute path is clean, up to a final slash: it has no empty element,
    "." or ".." (written out; an escaped dot is accepted). *)
Theorem ValidateRoutePath_clean s : ValidateRoutePath s = None → has_prefix s "/" = true → tidy s.
Proof.
  intros Hv Hp. apply ValidateRoutePath_exact in Hv as [->|(_ & Hseq & Hsuf)]; [done|].
  pose proof Hp as Ht. apply has_prefix_spec in Ht as [t ->]. assert (elements ("/" +:+ t) = "" :: elements t) as He by done.
  assert (∀ e l1 l2, elements t = l1 ++ e :: l2 → e ≠ "." ∧ e ≠ ".." ∧ (e = "" → l2 = [])) as Hel.
  { intros e l1 l2 E. destruct (element_occurs ("/" +:+ t) ("" :: l1) e l2) as [a Ha]; [by rewrite He, E|done|].
    split_and!; [intros ->|intros ->|intros ->; destruct l2 as [|y l2]; [done|exfalso]].
    - destruct l2 as [|y l2]; [by eapply (Hsuf "/."); [set_solver|exact Ha]|]. by eapply (Hseq "/./"); [set_solver|exact Ha].
    - destruct l2 as [|y l2]; [by eapply (Hsuf "/.."); [set_solver|exact Ha]|]. by eapply (Hseq "/../"); [set_solver|exact Ha].
    - by eapply (Hseq "//"); [set_solver|exact Ha]. }
  unfold tidy, path_clean. rewrite bool_decide_eq_false_2 by done. rewrite Hp, split_slash_empty, He. cbn [clean_elems].
  rewrite (bool_decide_eq_true_2 ("" = "")) by done. cbn [orb].
  destruct (exists_last (elements_not_nil t)) as (mids & last & E).
  assert (∀ e, e ∈ mids → e ≠ "" ∧ e ≠ "." ∧ e ≠ "..") as Hmids.
  { intros e Hin. apply list_elem_of_split in Hin as (l1 & l2 & ->). rewrite <-app_assoc in E.
    destruct (Hel e l1 (l2 ++ [last])) as (? & ? & Hempty); [exact E|]. split_and!; [|done..]. intros Hn. apply Hempty in Hn. by destruct l2. }
  destruct (Hel last mids []) as (? & ? & _); [exact E|]. destruct (decide (last = "")) as [->|Hlast].
  - destruct (decide (mids = [])) as [->|Hne]; [left; rewrite <-(join_elements t), E; done|].
    right. assert (clean_elems true [] (mids ++ [""]) = mids) as Hc.
    { clear E Hne. assert (∀ acc, (∀ e, e ∈ mids → e ≠ "" ∧ e ≠ "." ∧ e ≠ "..") → clean_elems true acc (mids ++ [""]) = rev acc ++ mids) as Hg; [|by apply Hg].
      induction mids as [|m mids IH]; intros acc Hm; simpl; [by rewrite app_nil_r|]. destruct (Hm m) as (? & ? & ?); [by left|].
      rewrite !bool_decide_eq_false_2 by done. simpl. rewrite IH by set_solver. simpl. by rewrite <-app_assoc. }
    rewrite E, Hc. rewrite <-(join_elements t), E. rewrite join_app by done. by destruct mids.
  - left. rewrite E, clean_elems_plain; [|set_solver]. simpl. by rewrite <-E, join_elements.
Qed.

Section Examples.
Lemma ValidateRoutePath_clean_witness : ValidateRoutePath "/a/b%20c/" = None ∧ tidy "/a/b%20c/".
Proof. split; [reflexivity|apply ValidateRoutePath_clean; reflexivity]. Defined.

(** Escaped slashes are refused, escaped dots are not. *)
Lemma escapes_in_paths :
  map (λ s, bool_decide (is_Some (ValidateRoutePath s))) ["/a/../b"; "/a%2fb"; "/a b"; "/a/..";  "a/./b"] = [true; true; true; true; true] ∧
  map (λ s, bool_decide (is_Some (ValidateRoutePath s))) ["/%2e%2e/b"; "/a/..b"; "/a/.b/"; ""] = [false; false; false; false].
Proof. by vm_compute. Qed.
End Examples.

(** ** Requests *)
Record Request := { rq_path : string; rq_method : string; rq_headers : string → option string; rq_query : string → option string }.
Definition rq_header (r : Request) (name : string) : option string := if bool_decide (name = ":method") then Some (rq_method r) else rq_headers r name.
Definition view (caseSensitive : option Edge.BoolValue) (s : string) : string :=
  if from_option Edge.bv_value true caseSensitive then s else to_lower s.

Lemma lower_ascii_slash a : lower_ascii a = "/"%char ↔ a = "/"%char.
Proof. destruct a as [[] [] [] [] [] [] [] []]; vm_compute; split; (done || congruence). Qed.
Lemma elements_slash s : elements (String "/" s) = "" :: elements s.
Proof. done. Qed.
Lemma elements_app a b : elements (a +:+ "/" +:+ b) = elements a ++ elements b.
Proof.
  induction a as [|c a IH]; [done|]. change (String c a +:+ "/" +:+ b) with (String c (a +:+ "/" +:+ b)). cbn [elements].
  case_bool_decide; rewrite IH; [done|]. pose proof (elements_not_nil a). by destruct (elements a).
Qed.
Lemma to_lower_elements s : elements (to_lower s) = map to_lower (elements s).
Proof.
  induction s as [|a s IH]; [done|]. cbn [to_lower elements]. pose proof (elements_not_nil s).
  destruct (decide (a = "/"%char)) as [->|Ha].
  - rewrite !bool_decide_eq_true_2 by done. simpl. by rewrite IH.
  - rewrite !bool_decide_eq_false_2 by (rewrite ?lower_ascii_slash; done). rewrite IH. by destruct (elements s).
Qed.

(** Methods are words of upper-case letters. *)
Fixpoint is_upper (s : string) : bool :=
  match s with EmptyString => true | String a s => let n := nat_of_ascii a in (65 <=? n) && (n <=? 90) && is_upper s end.
Definition is_method (s : string) : Prop := is_upper s = true.

(** ** What matchers mean

    Envoy's acceptance of a request, with the laws that route_components.proto documents for
    each kind of path, header and query parameter matcher that the translator produces. *)
Class EnvoyMatching := {
  envoy_accepts : Envoy.RouteMatch → Request → bool;
  envoy_path_accepts : option Edge.BoolValue → Envoy.PathSpecifier → Request → bool;
  envoy_header_accepts : Envoy.HeaderMatcher → Request → bool;
  envoy_query_accepts : Envoy.QueryParameterMatcher → Request → bool;
  (** RE2 accepts the whole of a string. *)
  regex_match : string → string → bool;
  (** The result of a value matcher, inverted or not, on a request without the header. *)
  missing_value : bool → bool
}.
Class EnvoyMatchingLaws `{!EnvoyMatching} : Prop := {
  (** All parts of a match must be satisfied; the path specifier is required. *)
  accepts_parts m r : envoy_accepts m r = true ↔
    (∃ p, Envoy.rm_path m = Some p ∧ envoy_path_accepts (Envoy.rm_caseSensitive m) p r = true) ∧
    (∀ h, h ∈ Envoy.rm_headers m → envoy_header_accepts h r = true) ∧
    (∀ q, q ∈ Envoy.rm_queryParameters m → envoy_query_accepts q r = true);
  accepts_path cs s r : envoy_path_accepts cs (Envoy.RouteMatch_Path s) r = true ↔ view cs (rq_path r) = view cs s;
  accepts_prefix cs s r : envoy_path_accepts cs (Envoy.RouteMatch_Prefix s) r = true ↔ ∃ t, view cs (rq_path r) = view cs s +:+ t;
  (** The prefix, or the prefix and a slash with more after it. *)
  accepts_separated cs s r : envoy_path_accepts cs (Envoy.RouteMatch_PathSeparatedPrefix s) r = true ↔
    view cs (rq_path r) = view cs s ∨ ∃ t, view cs (rq_path r) = view cs s +:+ "/" +:+ t;
  accepts_regex cs x r : envoy_path_accepts cs (Envoy.RouteMatch_SafeRegex x) r = regex_match (Envoy.rm_regex x) (rq_path r);
  accepts_connect cs r : envoy_path_accepts cs Envoy.RouteMatch_ConnectMatcher r = true ↔ rq_method r = "CONNECT";
  header_present m b r : Envoy.eh_specifier m = Envoy.HeaderMatcher_PresentMatch b →
    envoy_header_accepts m r = xorb (Envoy.eh_invertMatch m) (bool_decide (b = bool_decide (is_Some (rq_header r (Envoy.eh_name m)))));
  header_regex m x r v : Envoy.eh_specifier m = Envoy.HeaderMatcher_SafeRegexMatch x → rq_header r (Envoy.eh_name m) = Some v →
    envoy_header_accepts m r = xorb (Envoy.eh_invertMatch m) (regex_match (Envoy.rm_regex x) v);
  header_exact m s r v : Envoy.eh_specifier m = Envoy.HeaderMatcher_ExactMatch s → rq_header r (Envoy.eh_name m) = Some v →
    envoy_header_accepts m r = xorb (Envoy.eh_invertMatch m) (bool_decide (v = s));
  header_missing m r : (∀ b, Envoy.eh_specifier m ≠ Envoy.HeaderMatcher_PresentMatch b) → rq_header r (Envoy.eh_name m) = None →
    envoy_header_accepts m r = missing_value (Envoy.eh_invertMatch m);
  query_present m b r : Envoy.eq_specifier m = Envoy.QueryParameterMatcher_PresentMatch b →
    envoy_query_accepts m r = bool_decide (b = bool_decide (is_Some (rq_query r (Envoy.eq_name m))));
  query_regex m x r v : Envoy.eq_specifier m = Envoy.StringMatch_SafeRegex x → rq_query r (Envoy.eq_name m) = Some v →
    envoy_query_accepts m r = regex_match (Envoy.rm_regex x) v;
  query_exact m s r v : Envoy.eq_specifier m = Envoy.StringMatch_Exact s → rq_query r (Envoy.eq_name m) = Some v →
    envoy_query_accepts m r = bool_decide (v = s);
  query_missing m r : (∀ b, Envoy.eq_specifier m ≠ Envoy.QueryParameterMatcher_PresentMatch b) → rq_query r (Envoy.eq_name m) = None →
    envoy_query_accepts m r = false;
  (** RE2: words joined by bars match one of the words. *)
  regex_alternatives l v : l ≠ [] → Forall is_method l → regex_match (join "|" l) v = bool_decide (v ∈ l)
}.

Section Semantics.
Context `{!EnvoyMatching}.

(** *** In a Proxy (matchers.proto)

    For the Gateway API a prefix is one of path elements, and a final slash of it is ignored. *)
Definition path_elements (s : string) : list string := if has_suffix s "/" then removelast (elements s) else elements s.
Definition path_meets (translatorName : string) (cs : option Edge.BoolValue) (p : Edge.PathSpecifier) (r : Request) : Prop :=
  let path := view cs (rq_path r) in
  match p with
  | Edge.Matcher_Exact s => path = view cs s
  | Edge.Matcher_Regex s => regex_match s (rq_path r) = true
  | Edge.Matcher_Prefix s => if bool_decide (translatorName = GatewayApiProxyValue) then path_elements (view cs s) `prefix_of` elements path
                             else ∃ t, path = view cs s +:+ t
  | Edge.Matcher_Connect => rq_method r = "CONNECT"
  end.
Definition header_meets (r : Request) (m : Edge.HeaderMatcher) : bool :=
  let found := rq_header r (Edge.hm_name m) in
  if bool_decide (Edge.hm_value m = "") then xorb (Edge.hm_invert m) (bool_decide (is_Some found))
  else match found with
       | None => missing_value (Edge.hm_invert m)
       | Some v => xorb (Edge.hm_invert m) (if Edge.hm_regex m then regex_match (Edge.hm_value m) v else bool_decide (v = Edge.hm_value m))
       end.
Definition query_meets (r : Request) (m : Edge.QueryParameterMatcher) : bool :=
  match rq_query r (Edge.qp_name m) with
  | None => false
  | Some v => bool_decide (Edge.qp_value m = "") || (if Edge.qp_regex m then regex_match (Edge.qp_value m) v else bool_decide (v = Edge.qp_value m))
  end.
Definition request_meets (translatorName : string) (m : Edge.Matcher) (r : Request) : Prop :=
  (∃ p, Edge.em_path m = Some p ∧ path_meets translatorName (Edge.em_caseSensitive m) p r) ∧
  (∀ h, h ∈ Edge.em_headers m → header_meets r h = true) ∧ (∀ q, q ∈ Edge.em_queryParameters m → query_meets r q = true) ∧
  (Edge.em_methods m = [] ∨ rq_method r ∈ Edge.em_methods m).

(** *** They agree *)
Lemma separated_prefix_elements path s :
  path = s ∨ (∃ t, path = s +:+ "/" +:+ t) ↔ elements s `prefix_of` elements path.
Proof.
  split.
  - intros [->|[t ->]]; [done|]. rewrite elements_app. by apply prefix_app_r.
  - intros [l Hl]. destruct l as [|e l].
    + left. by rewrite <-(join_elements path), Hl, app_nil_r, join_elements.
    + right. exists (join "/" (e :: l)). by rewrite <-(join_elements path), Hl, join_app, join_elements by (done || apply elements_not_nil).
Qed.
Lemma slash_prefix_elements path s : has_suffix s "/" = true → (∃ t, path = s +:+ t) → path_elements s `prefix_of` elements path.
Proof.
  intros Hs [t ->]. unfold path_elements. rewrite Hs. apply has_suffix_spec in Hs as [u ->].
  pose proof (elements_app u "") as E. change (u +:+ "/" +:+ "") with (u +:+ "/") in E. rewrite E. cbn [elements]. rewrite removelast_last.
  rewrite string_append_assoc, elements_app. by apply prefix_app_r.
Qed.
Lemma root_prefix path : has_prefix path "/" = true → [""] `prefix_of` elements path.
Proof. rewrite has_prefix_spec. intros [t ->]. by exists (elements t). Qed.
Lemma view_slash cs s : has_suffix (view cs s) "/" = has_suffix s "/".
Proof.
  unfold view. case_match; [done|]. induction s as [|a s IH]; [done|]. cbn [to_lower has_suffix]. rewrite IH. f_equal.
  apply bool_decide_ext. destruct s as [|b s]; cbn [to_lower]; [|split; intros [=]].
  split; [intros [= E]; by rewrite (proj1 (lower_ascii_slash a) E)|intros [= ->]; done].
Qed.

Context `{!EnvoyMatchingLaws}.

Definition supported (translatorName : string) (p : Edge.PathSpecifier) : Prop :=
  match p with Edge.Matcher_Prefix s => translatorName = GatewayApiProxyValue → s = "/" ∨ has_suffix s "/" = false | _ => True end.

Lemma setEnvoyPathMatcher_exact settings tn cs p r : has_prefix (rq_path r) "/" = true →
  (envoy_path_accepts cs (setEnvoyPathMatcher settings tn p) r = true → path_meets tn cs p r) ∧
  (supported tn p → path_meets tn cs p r → envoy_path_accepts cs (setEnvoyPathMatcher settings tn p) r = true).
Proof.
  intros Hr. destruct p as [s|s|s|]; cbn; [|rewrite accepts_path; tauto|rewrite accepts_regex; tauto|rewrite accepts_connect; tauto].
  case_bool_decide as Htn; cbn [andb]; [|rewrite accepts_prefix; tauto].
  destruct (has_suffix s "/") eqn:Hsl; cbn [negb].
  - rewrite accepts_prefix. split; [by apply slash_prefix_elements; rewrite view_slash|]. intros Hs _. destruct (Hs Htn) as [->|]; [|done].
    assert (view cs "/" = "/") as -> by (unfold view; by case_match).
    apply has_prefix_spec in Hr as [t ->]. unfold view. case_match; [by exists t|by exists (to_lower t)].
  - rewrite accepts_separated, separated_prefix_elements. unfold path_elements. rewrite view_slash, Hsl. tauto.
Qed.
Lemma map_elem {A B} (g : B → bool) (f : A → B) (g' : A → bool) l :
  (∀ x, g (f x) = g' x) → (∀ y, y ∈ map f l → g y = true) ↔ ∀ x, x ∈ l → g' x = true.
Proof. intros E. setoid_rewrite list_elem_of_fmap. split; [|naive_solver congruence]. intros Hl x Hx. rewrite <-E. eauto. Qed.
Lemma envoyHeaderMatcher_exact settings r h : envoy_header_accepts (envoyHeaderMatcher settings h) r = header_meets r h.
Proof.
  unfold header_meets. set (m := envoyHeaderMatcher settings h). change (Edge.hm_name h) with (Envoy.eh_name m). change (Edge.hm_invert h) with (Envoy.eh_invertMatch m).
  case_bool_decide as Hv.
  - rewrite (header_present m true) by (cbn; by rewrite bool_decide_eq_true_2). f_equal. by destruct (rq_header r (Envoy.eh_name m)).
  - assert (Envoy.eh_specifier m = if Edge.hm_regex h then Envoy.HeaderMatcher_SafeRegexMatch (NewRegexFromSettings settings (Edge.hm_value h))
      else Envoy.HeaderMatcher_ExactMatch (Edge.hm_value h)) as Hs by (cbn; by rewrite bool_decide_eq_false_2).
    destruct (rq_header r (Envoy.eh_name m)) as [v|] eqn:E.
    + destruct (Edge.hm_regex h); [by rewrite (header_regex m _ r v Hs E)|by rewrite (header_exact m _ r v Hs E)].
    + apply header_missing; [|done]. intros b. rewrite Hs. by destruct (Edge.hm_regex h).
Qed.
Lemma envoyQueryMatcher_exact settings r q : envoy_query_accepts (envoyQueryMatcher settings q) r = query_meets r q.
Proof.
  unfold query_meets. set (m := envoyQueryMatcher settings q). change (Edge.qp_name q) with (Envoy.eq_name m). destruct (bool_decide_reflect (Edge.qp_value q = "")) as [Hv|Hv].
  - rewrite (query_present m true) by (cbn; by rewrite bool_decide_eq_true_2). by destruct (rq_query r (Envoy.eq_name m)).
  - assert (Envoy.eq_specifier m = if Edge.qp_regex q then Envoy.StringMatch_SafeRegex (NewRegexFromSettings settings (Edge.qp_value q))
      else Envoy.StringMatch_Exact (Edge.qp_value q)) as Hs by (cbn; by rewrite bool_decide_eq_false_2).
    destruct (rq_query r (Envoy.eq_name m)) as [v|] eqn:E; cbn [orb].
    + destruct (Edge.qp_regex q); [by rewrite (query_regex m _ r v Hs E)|by rewrite (query_exact m _ r v Hs E)].
    + apply query_missing; [|done]. intros b. rewrite Hs. by destruct (Edge.qp_regex q).
Qed.
Lemma methods_exact settings r methods : Forall is_method methods →
  (∀ h, h ∈ match methods with [] => [] | s :: l => [method_matcher settings (s :: l)] end → envoy_header_accepts h r = true) ↔ methods = [] ∨ rq_method r ∈ methods.
Proof.
  intros Hm. destruct methods as [|x l] eqn:E; [split; [by left|by intros _ h ?%elem_of_nil]|]. setoid_rewrite list_elem_of_singleton.
  assert (envoy_header_accepts (method_matcher settings (x :: l)) r = bool_decide (rq_method r ∈ x :: l)) as Ha
    by (erewrite header_regex by done; cbn -[join]; by rewrite (regex_alternatives (x :: l)) by done).
  split; [|intros [|Hin] h ->; [done|]; by rewrite Ha, bool_decide_eq_true_2]. intros Hall. right. specialize (Hall _ eq_refl). rewrite Ha in Hall. by apply bool_decide_eq_true in Hall.
Qed.

(** C27. Requests and matchers, for a request with an absolute path and methods that are
    words of upper-case letters: if Envoy accepts the request by the match that
    [glooMatcherToEnvoyMatcher] makes, the request meets the path, headers, query parameters
    and methods of the matcher. If it meets them, Envoy accepts it, but for a Gateway API
    prefix other than "/" that ends in a slash (see [gateway_prefix_examples] below). For
    the Gateway API a prefix is one of path elements. *)
Theorem glooMatcherToEnvoyMatcher_exact settings tn m r :
  has_prefix (rq_path r) "/" = true → Forall is_method (Edge.em_methods m) →
  (envoy_accepts (glooMatcherToEnvoyMatcher settings tn m) r = true → request_meets tn m r) ∧
  ((∀ p, Edge.em_path m = Some p → supported tn p) → request_meets tn m r → envoy_accepts (glooMatcherToEnvoyMatcher settings tn m) r = true).
Proof.
  intros Hr Hm. rewrite accepts_parts. unfold request_meets. cbn. setoid_rewrite elem_of_app.
  pose proof (map_elem (λ h, envoy_header_accepts h r) _ _ (Edge.em_headers m) (envoyHeaderMatcher_exact settings r)) as Hh. cbn in Hh.
  pose proof (map_elem (λ q, envoy_query_accepts q r) _ _ (Edge.em_queryParameters m) (envoyQueryMatcher_exact settings r)) as Hq. cbn in Hq.
  rewrite Hq, <-Hh. pose proof (methods_exact settings r _ Hm) as Hme. rewrite <-Hme. split.
  - intros ((p & Hp & Ha) & Hhd & Hqs). destruct (Edge.em_path m) as [q|]; [|done]. injection Hp as <-. split_and!; [|intros h Hin; apply Hhd; by left|done|intros h Hin; apply Hhd; right; exact Hin].
    exists q. split; [done|]. by apply (setEnvoyPathMatcher_exact settings tn _ q r Hr).
  - intros Hs ((p & Hp & Ha) & Hhd & Hqs & Hms). split_and!; [|naive_solver|done]. rewrite Hp. exists (setEnvoyPathMatcher settings tn p). split; [done|].
    apply (setEnvoyPathMatcher_exact settings tn _ p r Hr); [by apply Hs|done].
Qed.
End Semantics.

(** ** An instance: expressions that are only alternatives *)
Fixpoint alternatives (s : string) : list string :=
  match s with
  | EmptyString => [""]
  | String a s => if bool_decide (a = "|"%char) then "" :: alternatives s
                  else match alternatives s with x :: l => String a x :: l | [] => [String a ""] end
  end.
Definition alternatives_match (r s : string) : bool := bool_decide (s ∈ alternatives r).
Lemma alternatives_word s rest : is_method s →
  alternatives (s +:+ rest) = match alternatives rest with x :: l => (s +:+ x) :: l | [] => [s] end.
Proof.
  unfold is_method. induction s as [|a s IH]; intros Hs.
  - change ("" +:+ rest) with rest. by destruct rest as [|a rest]; [|simpl; case_bool_decide; [|destruct (alternatives rest)]].
  - change (String a s +:+ rest) with (String a (s +:+ rest)). cbn [alternatives]. cbn [is_upper] in Hs.
    apply andb_true_iff in Hs as [Ha Hs]. rewrite bool_decide_eq_false_2 by (intros ->; vm_compute in Ha; done).
    rewrite IH by done. by destruct (alternatives rest).
Qed.
Lemma alternatives_join l : l ≠ [] → Forall is_method l → alternatives (join "|" l) = l.
Proof.
  induction l as [|x l IH]; [done|]. intros _ [Hx Hl]%Forall_cons.
  destruct l as [|y l].
  - cbn [join]. rewrite <-(string_app_nil x) at 1. rewrite alternatives_word by done. cbn. by rewrite string_app_nil.
  - rewrite join_cons by done. rewrite alternatives_word by done. change ("|" +:+ join "|" (y :: l)) with (String "|" (join "|" (y :: l))).
    cbn [alternatives]. rewrite bool_decide_eq_true_2 by done. rewrite IH by done. by rewrite string_app_nil.
Qed.
Lemma alternatives_match_law l v : l ≠ [] → Forall is_method l → alternatives_match (join "|" l) v = bool_decide (v ∈ l).
Proof. intros. unfold alternatives_match. by rewrite alternatives_join. Qed.

Section Examples.
Definition ex_settings : Settings :=
  {| se_regexMaxProgramSize := None; se_allowWarnings := false; se_warnMissingTlsSecret := false; se_translateEmptyGateways := false;
     se_circuitBreakers := None; se_enableAutoMtls := false; se_upstreamSslParameters := None; se_enableRestEds := None |}.
Definition ex_matcher (p : Edge.PathSpecifier) : Edge.Matcher :=
  {| Edge.em_path := Some p; Edge.em_caseSensitive := None; Edge.em_headers := []; Edge.em_queryParameters := []; Edge.em_methods := ["GET"; "POST"] |}.
Definition ex_request (path method : string) : Request :=
  {| rq_path := path; rq_method := method; rq_headers := λ _, None; rq_query := λ _, None |}.
#[local] Instance ex_matching : EnvoyMatching :=
  let path_accepts cs p r :=
    let path := view cs (rq_path r) in
    match p with
    | Envoy.RouteMatch_Path s => bool_decide (path = view cs s)
    | Envoy.RouteMatch_Prefix s => has_prefix path (view cs s)
    | Envoy.RouteMatch_PathSeparatedPrefix s => bool_decide (path = view cs s) || has_prefix path (view cs s +:+ "/")
    | Envoy.RouteMatch_SafeRegex x => alternatives_match (Envoy.rm_regex x) (rq_path r)
    | Envoy.RouteMatch_ConnectMatcher => bool_decide (rq_method r = "CONNECT")
    end in
  let header_accepts m r :=
    let invert := Envoy.eh_invertMatch m in
    match Envoy.eh_specifier m, rq_header r (Envoy.eh_name m) with
    | Envoy.HeaderMatcher_PresentMatch b, v => xorb invert (bool_decide (b = bool_decide (is_Some v)))
    | Envoy.HeaderMatcher_SafeRegexMatch x, Some v => xorb invert (alternatives_match (Envoy.rm_regex x) v)
    | Envoy.HeaderMatcher_ExactMatch s, Some v => xorb invert (bool_decide (v = s))
    | _, None => invert
    end in
  let query_accepts m r :=
    match Envoy.eq_specifier m, rq_query r (Envoy.eq_name m) with
    | Envoy.QueryParameterMatcher_PresentMatch b, v => bool_decide (b = bool_decide (is_Some v))
    | Envoy.StringMatch_SafeRegex x, Some v => alternatives_match (Envoy.rm_regex x) v
    | Envoy.StringMatch_Exact s, Some v => bool_decide (v = s)
    | _, None => false
    end in
  {| envoy_accepts m r := from_option (λ p, path_accepts (Envoy.rm_caseSensitive m) p r) false (Envoy.rm_path m) &&
       forallb (λ h, header_accepts h r) (Envoy.rm_headers m) && forallb (λ q, query_accepts q r) (Envoy.rm_queryParameters m);
     envoy_path_accepts := path_accepts; envoy_header_accepts := header_accepts; envoy_query_accepts := query_accepts;
     regex_match := alternatives_match; missing_value := id |}.
#[local] Instance ex_matching_laws : EnvoyMatchingLaws.
Proof.
  split; cbn.
  - intros m r. rewrite !andb_true_iff, !forallb_elem. destruct (Envoy.rm_path m); cbn; naive_solver.
  - intros. apply bool_decide_eq_true.
  - intros. apply has_prefix_spec.
  - intros. rewrite orb_true_iff, bool_decide_eq_true, has_prefix_spec. setoid_rewrite string_append_assoc. done.
  - done.
  - intros. apply bool_decide_eq_true.
  - by intros m b r ->.
  - by intros m x r v -> ->.
  - by intros m s r v -> ->.
  - intros m r Hs ->. destruct (Envoy.eh_specifier m); first [done|exfalso; by eapply Hs].
  - by intros m b r ->.
  - by intros m x r v -> ->.
  - by intros m s r v -> ->.
  - intros m r Hs ->. destruct (Envoy.eq_specifier m); first [done|exfalso; by eapply Hs].
  - exact alternatives_match_law.
Qed.
Definition ex_accepts (tn prefix path method : string) : bool :=
  envoy_accepts (glooMatcherToEnvoyMatcher ex_settings tn (ex_matcher (Edge.Matcher_Prefix prefix))) (ex_request path method).

Lemma glooMatcherToEnvoyMatcher_exact_witness :
  envoy_accepts (glooMatcherToEnvoyMatcher ex_settings GatewayApiProxyValue (ex_matcher (Edge.Matcher_Prefix "/abc"))) (ex_request "/abc/def" "POST") = true ∧
  request_meets GatewayApiProxyValue (ex_matcher (Edge.Matcher_Prefix "/abc")) (ex_request "/abc/def" "POST").
Proof.
  assert (envoy_accepts (glooMatcherToEnvoyMatcher ex_settings GatewayApiProxyValue (ex_matcher (Edge.Matcher_Prefix "/abc"))) (ex_request "/abc/def" "POST") = true)
    as Ha by (vm_compute; reflexivity).
  split; [exact Ha|]. apply (glooMatcherToEnvoyMatcher_exact ex_settings); [reflexivity|repeat constructor|exact Ha].
Defined.

(** For the Gateway API the prefix "/abc" takes whole elements; the prefix "/abc/" does not
    take "/abc", where the specification ignores the final slash. *)
Lemma gateway_prefix_examples :
  (ex_accepts GatewayApiProxyValue "/abc" "/abc" "GET", ex_accepts GatewayApiProxyValue "/abc" "/abcd" "GET") = (true, false) ∧
  ex_accepts "gloo" "/abc" "/abcd" "GET" = true ∧
  (ex_accepts GatewayApiProxyValue "/abc/" "/abc" "GET", ex_accepts GatewayApiProxyValue "/abc/" "/abc/" "GET") = (false, true) ∧
  ¬ supported GatewayApiProxyValue (Edge.Matcher_Prefix "/abc/").
Proof. split_and!; [by vm_compute..|]. intros Hs. destruct (Hs eq_refl) as [|]; vm_compute in *; congruence. Qed.
End Examples.
