(* ===== verification/EnvoyDomainsFacts.v ===== *)
(** * Facts about the domains of a listener's virtual hosts

    [ValidateVirtualHostDomains] appends errors to the reports of the virtual hosts: the
    report after it is the report before it plus a list of (virtual host, error) pairs, and
    a virtual host gets one exactly when a domain of it is empty or not its own. *)

From stdpp Require Import base gmap strings list fin_maps.
From Stdlib Require Import ZArith.
From S2P Require Import Prelude GoLib GwApi EdgeApi ProxyReports GlooProxy EnvoyRoutes.
Import Validation Gloo.

Section Domains.
Context `{!GoRange string} {PS : Type}.
Implicit Types (r : HttpListenerReport) (vhs : list VirtualHost).

(** ** Errors of virtual hosts *)
Abbreviation vh_entry := (nat * (VirtualHostReport_Error_Type * string))%type (only parsing).
Definition add_error (e : vh_entry) r : HttpListenerReport :=
  with_vhostReports (alter (AppendVirtualHostError e.2.1 e.2.2) e.1 (hr_virtualHostReports r)) r.
Definition add_errors (es : list vh_entry) r : HttpListenerReport := fold_left (λ r e, add_error e r) es r.
Definition entry_of (e : VirtualHostReport_Error_Type * string) : Entry VirtualHostReport_Error_Type :=
  {| en_type := e.1; en_reason := e.2; en_metadata := None |}.
Definition entries_for (i : nat) (es : list vh_entry) : list (Entry VirtualHostReport_Error_Type) :=
  flat_map (λ e, if bool_decide (e.1 = i) then [entry_of e.2] else []) es.

Lemma add_errors_app es es' r : add_errors (es ++ es') r = add_errors es' (add_errors es r).
Proof. apply fold_left_app. Qed.
Lemma add_errors_length es r : length (hr_virtualHostReports (add_errors es r)) = length (hr_virtualHostReports r).
Proof. revert r. induction es as [|e es IH]; intros r; [done|]. change (add_errors (e :: es) r) with (add_errors es (add_error e r)). rewrite IH. apply length_alter. Qed.
Lemma add_errors_listener es r : hr_errors (add_errors es r) = hr_errors r.
Proof. revert r. induction es as [|e es IH]; intros r; [done|]. change (add_errors (e :: es) r) with (add_errors es (add_error e r)). by rewrite IH. Qed.
Lemma add_errors_lookup es r i rep : hr_virtualHostReports r !! i = Some rep →
  hr_virtualHostReports (add_errors es r) !! i = Some {| vr_errors := vr_errors rep ++ entries_for i es; vr_routeReports := vr_routeReports rep |}.
Proof.
  revert r rep. induction es as [|e es IH]; intros r rep Hr; [rewrite app_nil_r; by destruct rep|].
  change (add_errors (e :: es) r) with (add_errors es (add_error e r)). cbn [entries_for flat_map]. case_bool_decide as He.
  - rewrite (IH _ (AppendVirtualHostError e.2.1 e.2.2 rep)); [cbn; by rewrite <-app_assoc|]. cbn. by rewrite list_lookup_alter, decide_True, He, Hr.
  - apply IH. cbn. by rewrite list_lookup_alter, decide_False.
Qed.
Lemma on_vhost_report_error i t reason r (ps : PS) : i < length (hr_virtualHostReports r) →
  on_vhost_report i (update_report (AppendVirtualHostError t reason)) (r, ps) = Ok (tt, (add_error (i, (t, reason)) r, ps)).
Proof.
  intros [rep Hr]%lookup_lt_is_Some. unfold on_vhost_report, on_nth, add_error. cbn. rewrite Hr. cbn. do 3 f_equal.
  unfold with_vhostReports. f_equal. rewrite list_insert_alter. apply list_alter_ext; [|done]. congruence.
Qed.

(** ** The index

    The pairs of a domain and the position of a virtual host that has it. *)
Definition pairs_from (i : nat) vhs : list (string * nat) :=
  concat (imap (λ j v, map (λ d, (d, i + j)) (domains_of v)) vhs).
Definition positions (ps : list (string * nat)) (d : string) : list nat := flat_map (λ p, if bool_decide (p.1 = d) then [p.2] else []) ps.
Definition index_pairs (ps : list (string * nat)) (m : gmap string (list nat)) : gmap string (list nat) :=
  fold_left (λ m p, <[p.1 := default [] (m !! p.1) ++ [p.2]]> m) ps m.
Definition empties (name : nat → string) (ps : list (string * nat)) : list vh_entry :=
  flat_map (λ p, if bool_decide (p.1 = "") then [(p.2, (VirtualHostReport_Error_EmptyDomainError, name p.2))] else []) ps.

Lemma index_pairs_lookup ps m d : index_pairs ps m !! d =
  match positions ps d with [] => m !! d | l => Some (default [] (m !! d) ++ l) end.
Proof.
  revert m. induction ps as [|[d' j] ps IH]; intros m; [done|]. change (index_pairs ((d', j) :: ps) m) with (index_pairs ps (<[d' := default [] (m !! d') ++ [j]]> m)).
  rewrite IH. cbn [positions flat_map fst snd]. case_bool_decide as Hd; [subst d'|].
  - rewrite lookup_insert_eq. cbn. fold (positions ps d). destruct (positions ps d); [done|]. by rewrite <-app_assoc.
  - by rewrite lookup_insert_ne.
Qed.
Lemma positions_elem ps d j : j ∈ positions ps d ↔ (d, j) ∈ ps.
Proof.
  unfold positions. rewrite elem_of_flat_map. split.
  - intros ([d' j'] & Hin & Hj). cbn in Hj. case_bool_decide; set_solver.
  - intros Hin. exists (d, j). split; [done|]. cbn. rewrite bool_decide_eq_true_2 by done. by left.
Qed.
Lemma pairs_from_elem i vhs d j : (d, j) ∈ pairs_from i vhs ↔ ∃ k v, j = i + k ∧ vhs !! k = Some v ∧ d ∈ domains_of v.
Proof.
  unfold pairs_from. rewrite list_elem_of_In, in_concat. setoid_rewrite <-list_elem_of_In. split.
  - intros (l & Hl & Hin). apply elem_of_lookup_imap in Hl as (k & v & -> & Hk). apply list_elem_of_fmap in Hin as (d' & [= -> ->] & Hd). eauto.
  - intros (k & v & -> & Hk & Hd). exists (map (λ d, (d, i + k)) (domains_of v)). split; [apply elem_of_lookup_imap; eauto|].
    apply list_elem_of_fmap. eauto.
Qed.
Lemma pairs_from_cons i v vhs : pairs_from i (v :: vhs) = map (λ d, (d, i)) (domains_of v) ++ pairs_from (i + 1) vhs.
Proof.
  unfold pairs_from. cbn. f_equal; [by rewrite Nat.add_0_r|]. f_equal. apply imap_ext. intros k v' _. cbn. apply list_fmap_ext. intros. f_equal. lia.
Qed.

(** ** The loops append errors *)
Definition appends {A} (m : M (HttpListenerReport * PS) A) (n : nat) (a : A) (es : list vh_entry) : Prop :=
  ∀ r ps, length (hr_virtualHostReports r) = n → m (r, ps) = Ok (a, (add_errors es r, ps)).
Lemma appends_ret {A} n (a : A) : appends (ret a) n a [].
Proof. by intros r ps _. Qed.
Lemma appends_bind {A B} (m : M _ A) (k : A → M _ B) n a b es es' :
  appends m n a es → appends (k a) n b es' → appends (bind m k) n b (es ++ es').
Proof. intros Hm Hk r ps Hr. unfold bind. rewrite (Hm r ps Hr). rewrite Hk by by rewrite add_errors_length. by rewrite add_errors_app. Qed.
Lemma appends_error n i t reason : i < n → appends (on_vhost_report i (update_report (AppendVirtualHostError t reason))) n tt [(i, (t, reason))].
Proof. intros Hi r ps Hr. by rewrite on_vhost_report_error by lia. Qed.
Lemma appends_for_range {A} (l : list A) body es n :
  (∀ x, x ∈ l → appends (body x) n tt (es x)) → appends (for_range l body) n tt (flat_map es l).
Proof.
  induction l as [|x l IH]; intros Hl; cbn [for_range flat_map]; [apply appends_ret|].
  eapply appends_bind; [apply Hl; by left|]. apply IH. intros. apply Hl. by right.
Qed.
Definition vh_name_at vhs (i : nat) : string := from_option vh_name "" (vhs !! i).
Definition empty_errors vhs : list vh_entry :=
  empties (λ i, from_option EmptyDomain_error "" (vhs !! i)) (pairs_from 0 vhs).
Definition shared_errors vhs (p : string * list nat) : list vh_entry :=
  if 1 <? length p.2 then map (λ i, (i, (VirtualHostReport_Error_DomainsNotUniqueError, SharedDomain_error p.1 (map (vh_name_at vhs) p.2)))) p.2 else [].

Definition index_body (vHost : VirtualHost) (i : nat) (_ : nat) (domain : string) (m : gmap string (list nat)) : M (HttpListenerReport * PS) (gmap string (list nat)) :=
  do! (if bool_decide (domain = "") then on_vhost_report i (update_report (AppendVirtualHostError VirtualHostReport_Error_EmptyDomainError (EmptyDomain_error vHost))) else ret tt) ;;
  ret (<[domain := default [] (m !! domain) ++ [i]]> m).
Lemma index_host n name v i l : i < n → name i = EmptyDomain_error v → ∀ k m,
  appends (fold_range k l m (index_body v i)) n (index_pairs (map (λ d, (d, i)) l) m) (empties name (map (λ d, (d, i)) l)).
Proof.
  intros Hi Hname. induction l as [|d l IH]; intros k m; [apply appends_ret|]. cbn [fold_range map]. cbn [index_pairs empties flat_map fold_left fst snd].
  eapply appends_bind; [|apply IH]. rewrite <-(app_nil_r (if bool_decide _ then _ else _)). eapply appends_bind; [|apply appends_ret].
  case_bool_decide; [rewrite Hname; by apply appends_error|apply appends_ret].
Qed.
Lemma index_hosts n name vhs : ∀ i m, i + length vhs ≤ n → (∀ k v, vhs !! k = Some v → name (i + k) = EmptyDomain_error v) →
  appends (fold_range i vhs m (λ i v m, fold_range 0 (domains_of v) m (index_body v i))) n
    (index_pairs (pairs_from i vhs) m) (empties name (pairs_from i vhs)).
Proof.
  induction vhs as [|v vhs IH]; intros i m Hn Hname; [apply appends_ret|]. cbn [length] in Hn. cbn [fold_range]. rewrite pairs_from_cons. unfold empties, index_pairs.
  rewrite flat_map_app, fold_left_app. eapply appends_bind.
  - apply index_host; [lia|]. rewrite <-(Nat.add_0_r i). by apply Hname.
  - apply IH; [lia|]. intros k v' Hk. rewrite <-Nat.add_assoc. by apply Hname.
Qed.

Definition domain_index vhs : gmap string (list nat) := index_pairs (pairs_from 0 vhs) ∅.
Lemma domain_index_lookup vhs d js : domain_index vhs !! d = Some js ↔ js = positions (pairs_from 0 vhs) d ∧ js ≠ [].
Proof. unfold domain_index. rewrite index_pairs_lookup, lookup_empty. destruct (positions _ d); naive_solver. Qed.
Definition domain_errors vhs : list vh_entry := empty_errors vhs ++ flat_map (shared_errors vhs) (go_range (domain_index vhs)).
Lemma domain_index_bound vhs d js j : domain_index vhs !! d = Some js → j ∈ js → j < length vhs.
Proof.
  intros [-> _]%domain_index_lookup [k (v & -> & Hk & _)]%positions_elem%pairs_from_elem. by eapply lookup_lt_Some.
Qed.
Lemma ValidateVirtualHostDomains_appends vhs : appends (ValidateVirtualHostDomains vhs) (length vhs) tt (domain_errors vhs).
Proof.
  unfold ValidateVirtualHostDomains, domain_errors. eapply appends_bind.
  - apply (index_hosts (length vhs)); [done|]. intros k v Hk. cbn. by rewrite Hk.
  - apply appends_for_range. intros [d js] Hin%go_range_elem. unfold shared_errors. cbn [fst snd]. destruct (1 <? length js); [|apply appends_ret].
    replace (map _ js) with (flat_map (λ i, [(i, (VirtualHostReport_Error_DomainsNotUniqueError, SharedDomain_error d (map (vh_name_at vhs) js)))]) js)
      by by rewrite <-map_flat_map.
    apply appends_for_range. intros j Hj. apply appends_error. by eapply domain_index_bound.
Qed.

(** ** Who is blamed *)
Definition occurrences vhs (d : string) : nat := length (filter (d =.) (flat_map domains_of vhs)).
Lemma positions_length vhs i d : length (positions (pairs_from i vhs) d) = occurrences vhs d.
Proof.
  unfold occurrences. revert i. induction vhs as [|v vhs IH]; intros i; [done|]. rewrite pairs_from_cons. unfold positions. cbn [flat_map].
  rewrite flat_map_app, filter_app, !length_app. fold (positions (pairs_from (i + 1) vhs) d). rewrite IH. f_equal.
  induction (domains_of v) as [|d' l IHl]; [done|]. cbn [map flat_map fst snd]. rewrite length_app, IHl, filter_cons.
  case_bool_decide; case_decide; (done || congruence).
Qed.
Lemma empty_errors_elem vhs i v t reason : vhs !! i = Some v →
  (i, (t, reason)) ∈ empty_errors vhs ↔ t = VirtualHostReport_Error_EmptyDomainError ∧ reason = EmptyDomain_error v ∧ "" ∈ domains_of v.
Proof.
  intros Hv. unfold empty_errors, empties. rewrite elem_of_flat_map. split.
  - intros ([d j] & Hin & He). cbn in He. case_bool_decide; [|set_solver]. apply list_elem_of_singleton in He as [= <- -> ->]. subst d.
    apply pairs_from_elem in Hin as (k & v' & -> & Hk & Hd). cbn in *. rewrite Hv in Hk. injection Hk as <-. by rewrite Hv.
  - intros (-> & -> & Hd). exists ("", i). split; [apply pairs_from_elem; eauto|]. cbn. rewrite Hv. set_solver.
Qed.
Lemma shared_errors_elem vhs i v t : vhs !! i = Some v →
  (∃ reason, (i, (t, reason)) ∈ flat_map (shared_errors vhs) (go_range (domain_index vhs))) ↔
  t = VirtualHostReport_Error_DomainsNotUniqueError ∧ ∃ d, d ∈ domains_of v ∧ 1 < occurrences vhs d.
Proof.
  intros Hv. setoid_rewrite elem_of_flat_map. unfold shared_errors. split.
  - intros (reason & [d js] & Hin%go_range_elem & He). cbn [fst snd] in He. destruct (1 <? length js) eqn:Hl; [|set_solver]. apply Nat.ltb_lt in Hl.
    apply list_elem_of_fmap in He as (j & [= <- -> ->] & Hj). split; [done|]. exists d. apply domain_index_lookup in Hin as [-> _].
    apply positions_elem, pairs_from_elem in Hj as (k & v' & -> & Hk & Hd). cbn in *. simplify_eq/=. split; [done|].
    by rewrite <-(positions_length vhs 0).
  - intros (-> & d & Hd & Ho). eexists _, (d, positions (pairs_from 0 vhs) d). rewrite go_range_elem, domain_index_lookup. cbn [fst snd].
    rewrite positions_length. rewrite (proj2 (Nat.ltb_lt _ _)) by done. split.
    + split; [done|]. intros Hn. rewrite <-(positions_length vhs 0), Hn in Ho. cbn in Ho. lia.
    + apply list_elem_of_fmap. eexists. split; [reflexivity|]. apply positions_elem, pairs_from_elem. eauto.
Qed.
Lemma entries_for_elem i es e : e ∈ entries_for i es ↔ ∃ p, (i, p) ∈ es ∧ e = entry_of p.
Proof.
  unfold entries_for. rewrite elem_of_flat_map. split.
  - intros ([j p] & Hin & He). cbn in He. case_bool_decide; set_solver.
  - intros (p & Hin & ->). exists (i, p). split; [done|]. cbn. rewrite bool_decide_eq_true_2 by done. by left.
Qed.

(** [ValidateVirtualHostDomains] on a report with one report per virtual host: it
    returns, appends to the errors of the virtual hosts only, and a virtual host gets an
    empty-domain error exactly when a domain of it is empty, and a not-unique error exactly
    when a domain of it (or "*" when it has none) occurs more than once in the listener. *)
Theorem ValidateVirtualHostDomains_exact vhs r (ps : PS) : length (hr_virtualHostReports r) = length vhs →
  ∃ r', ValidateVirtualHostDomains vhs (r, ps) = Ok (tt, (r', ps)) ∧ hr_errors r' = hr_errors r ∧
    ∀ i v rep, vhs !! i = Some v → hr_virtualHostReports r !! i = Some rep → ∃ errs,
      hr_virtualHostReports r' !! i = Some {| vr_errors := vr_errors rep ++ errs; vr_routeReports := vr_routeReports rep |} ∧
      ∀ t, (∃ e, e ∈ errs ∧ en_type e = t) ↔
        (t = VirtualHostReport_Error_EmptyDomainError ∧ "" ∈ domains_of v) ∨
        (t = VirtualHostReport_Error_DomainsNotUniqueError ∧ ∃ d, d ∈ domains_of v ∧ 1 < occurrences vhs d).
Proof.
  intros Hr. exists (add_errors (domain_errors vhs) r). split; [by apply ValidateVirtualHostDomains_appends|]. split; [apply add_errors_listener|].
  intros i v rep Hv Hrep. exists (entries_for i (domain_errors vhs)). split; [by apply add_errors_lookup|]. intros t.
  rewrite <-(shared_errors_elem vhs i v t Hv). setoid_rewrite entries_for_elem. unfold domain_errors. setoid_rewrite elem_of_app. split.
  - intros (? & ([t' reason] & [He|He] & ->) & <-); [left|right; by exists reason]. by apply (empty_errors_elem _ _ v) in He as (-> & _ & ?).
  - intros [[-> Hd]|[reason He]]; [|by exists (entry_of (t, reason)); eauto].
    exists (entry_of (VirtualHostReport_Error_EmptyDomainError, EmptyDomain_error v)). split; [|done]. eexists. split; [left|reflexivity].
    by apply (empty_errors_elem _ _ v).
Qed.
End Domains.

(** ** An example *)
Section Examples.
Definition ex_vhost (name : string) (domains : list string) : VirtualHost :=
  {| vh_name := name; vh_domains := domains; vh_routes := []; vh_options := ""; vh_configRef := None; vh_metadataStatic := None |}.
Definition ex_report (n : nat) : HttpListenerReport :=
  {| hr_errors := []; hr_virtualHostReports := repeat {| vr_errors := []; vr_routeReports := [] |} n |}.
#[local] Existing Instance list_order.
Lemma ValidateVirtualHostDomains_exact_witness :
  ∃ r', ValidateVirtualHostDomains [ex_vhost "a" ["x"; "y"]; ex_vhost "b" ["y"; ""]] (ex_report 2, tt) = Ok (tt, (r', tt)) ∧ hr_errors r' = [].
Proof.
  destruct (ValidateVirtualHostDomains_exact [ex_vhost "a" ["x"; "y"]; ex_vhost "b" ["y"; ""]] (ex_report 2) tt eq_refl) as (r' & Hr & He & _).
  exists r'. split; [exact Hr|exact He].
Defined.
End Examples.
