(* ===== verification/EnvoyRoutesFacts.v ===== *)
(** * Facts about route configurations of Envoy

    What the plugins keep is a class. Then: the weights of a weighted cluster, the clusters
    a route refers to, and the shape of the RouteConfiguration of a listener. *)

From stdpp Require Import base gmap strings list fin_maps.
From Stdlib Require Import ZArith.
From S2P Require Import Prelude GoLib GwApi EdgeApi ProxyReports Xds GlooProxy EnvoyRoutes EnvoyDomainsFacts.
Import Validation Gloo.

Abbreviation route_key := (λ r : Envoy.Route, (Envoy.er_name r, Envoy.er_match r)) (only parsing).
Definition weight_key (w : Envoy.ClusterWeight) : string * Z := (Envoy.cw_name w, Envoy.cw_weight w).

(** What plugins do not change: names, matches, domains; clusters and weights of weighted destinations. *)
Class RoutePluginsLaws (PS : Type) `{RouteConfigPlugins PS} : Prop := {
  route_plugins_keep n p : (n, p) ∈ GetRoutePlugins → ∀ params route out ps err out' ps',
    p params route out ps = (err, out', ps') → route_key out' = route_key out;
  weighted_plugins_keep p : p ∈ GetWeightedDestinationPlugins → ∀ params dest w ps err w' ps',
    p params dest w ps = (err, w', ps') → weight_key w' = weight_key w;
  vhost_plugins_keep n p : (n, p) ∈ GetVirtualHostPlugins → ∀ params v out ps err out' ps',
    p params v out ps = (err, out', ps') →
    Envoy.ev_name out' = Envoy.ev_name out ∧ Envoy.ev_domains out' = Envoy.ev_domains out ∧ Envoy.ev_requireTls out' = Envoy.ev_requireTls out ∧
    map route_key (Envoy.ev_routes out') = map route_key (Envoy.ev_routes out)
}.

(** ** Rules *)
Section Rules.
Context {R S PS : Type}.
Lemma wp_update_report (f : R → R) Q (r : R) (ps : PS) : Q tt (f r, ps) → wp (update_report f) Q (r, ps).
Proof. done. Qed.
Lemma wp_on_plugins {A} (f : PS → A * PS) Q (r : R) ps : (∀ a ps', f ps = (a, ps') → Q a (r, ps')) → wp (on_plugins f) Q (r, ps).
Proof. unfold wp, on_plugins. destruct (f ps) as [a ps'] eqn:E. intros HQ. by apply HQ. Qed.
Lemma wp_on_nth {A} (get : S → list R) set i (m : M (R * PS) A) Q s ps r :
  get s !! i = Some r → wp m (λ a s', Q a (set (<[i := s'.1]> (get s)) s, s'.2)) (r, ps) → wp (on_nth get set i m) Q (s, ps).
Proof. unfold wp, on_nth. intros ->. by destruct (m (r, ps)) as [[a [r' ps']]| |]. Qed.
Lemma wp_conj {A} (m : M S A) (P Q : A → S → Prop) s : wp m P s → wp m Q s → wp m (λ a s', P a s' ∧ Q a s') s.
Proof. unfold wp. by destruct (m s) as [[a s']| |]. Qed.
(** A report that is only written. *)
Lemma wp_report_opt {E} (err : option E) (f : E → R → R) Q r (ps : PS) :
  (∀ r', Q tt (r', ps)) → wp (match err with Some e => update_report (f e) | None => ret tt end) Q (r, ps).
Proof. intros HQ. destruct err; apply HQ. Qed.
End Rules.

Section Facts.
Context `{!RouteLibs} {PS : Type} `{!RouteConfigPlugins PS} `{!RoutePluginsLaws PS} `{!GoRange string} (settings : Settings) (snap : ApiSnapshot).
Implicit Types (r : RouteReport) (ps : PS).

(** ** Weighted destinations *)
(** The plugins of weighted destinations return no error. *)
Definition weighted_plugins_quiet : Prop :=
  ∀ p, p ∈ GetWeightedDestinationPlugins → ∀ params dest w ps, (p params dest w ps).1.1 = None.
(** A report with more errors, then [rest]; only [rest] when the plugins are quiet. *)
Definition grown r r' (rest : list (Entry RouteReport_Error_Type)) : Prop :=
  rr_warnings r' = rr_warnings r ∧ ∃ es, rr_errors r' = rr_errors r ++ es ++ rest ∧ (weighted_plugins_quiet → es = []).
Lemma grown_refl r : grown r r [].
Proof. split; [done|]. exists []. by rewrite !app_nil_r. Qed.
Lemma grown_trans r1 r2 r3 rest : grown r1 r2 [] → grown r2 r3 rest → grown r1 r3 rest.
Proof.
  intros [Hw (es & E & Hq)] [Hw' (es' & E' & Hq')]. split; [congruence|]. exists (es ++ es'). split.
  - by rewrite E', E, app_nil_r, <-!app_assoc.
  - intros Q. by rewrite Hq, Hq'.
Qed.

Lemma wp_run_weighted_plugins params name dest w r ps :
  wp (run_weighted_plugins settings params name dest w) (λ w' s, weight_key w' = weight_key w ∧ grown r s.1 []) (r, ps).
Proof.
  unfold run_weighted_plugins. apply (wp_fold_range (λ w' s, weight_key w' = weight_key w ∧ grown r s.1 [])); [split; [done|apply grown_refl]|].
  intros _ p w' [r' ps'] Hp [Hw Hr]. apply wp_bind, wp_on_plugins. intros [err w2] ps2 E. pose proof (weighted_plugins_keep p Hp _ _ _ _ _ _ _ E) as Hk. apply wp_bind.
  destruct err as [err|].
  - apply wp_update_report, wp_ret. split; [by rewrite Hk|]. eapply grown_trans; [exact Hr|]. cbn [fst] in *.
    assert (weighted_plugins_quiet → False) as Hnq. { intros Q. specialize (Q p Hp params dest w' ps'). by rewrite E in Q. }
    unfold reportNamedPluginError, reportPluginProcessingError, reportPluginProcessingErrorOrWarning. case_match; [case_match|].
    + apply grown_refl.
    + split; [done|]. eexists. rewrite app_nil_r. split; [reflexivity|done].
    + split; [done|]. eexists. rewrite app_nil_r. split; [reflexivity|done].
  - apply wp_ret, wp_ret. split; [by rewrite Hk|done].
Qed.

Definition target (dest : Destination) : string := match DestinationToUpstreamRef dest with inr ref => Xds.UpstreamToClusterName ref | inl _ => "" end.
Definition dest_key (d : WeightedDestination) : string * Z := (target (wd_destination d), GetWeight d).
Definition usable (dest : Destination) : Prop := (∃ ref, DestinationToUpstreamRef dest = inr ref) ∧ checkThatSubsetMatchesUpstream snap dest = None.
Definition sum_weights (dests : list WeightedDestination) : Z := fold_right (λ d z, (GetWeight d + z)%Z) 0%Z dests.

Lemma wp_weighted_clusters params name dests : ∀ acc total r ps, (wrap_u32 total = total) →
  wp (weighted_clusters settings snap params name dests acc total) (λ res s, grown r s.1 [] ∧
    (res.2 = None ↔ Forall (λ d, usable (wd_destination d)) dests) ∧
    (res.2 = None → map weight_key res.1.1 = map weight_key acc ++ map dest_key dests ∧ res.1.2 = wrap_u32 (total + sum_weights dests))) (r, ps).
Proof.
  induction dests as [|d dests IH]; intros acc total r ps Ht; cbn [weighted_clusters].
  { apply wp_ret. split_and!; [apply grown_refl|by split|]. intros _. cbn. by rewrite app_nil_r, Z.add_0_r. }
  destruct (DestinationToUpstreamRef (wd_destination d)) as [err|ref] eqn:Ed.
  { apply wp_ret. split_and!; [apply grown_refl| |done]. split; [done|]. intros [[[? E] _] _]%Forall_cons. cbn in *. congruence. }
  apply wp_bind. eapply wp_mono; [apply wp_run_weighted_plugins|]. intros w [r1 ps1] [Hw Hr1]. cbn [fst] in Hr1.
  destruct (checkThatSubsetMatchesUpstream snap (wd_destination d)) as [err|] eqn:Es.
  { apply wp_ret. split_and!; [done| |done]. split; [done|]. intros [[_ E] _]%Forall_cons. cbn in *. congruence. }
  eapply wp_mono; [apply IH; apply Z.mod_mod; lia|]. intros [[cs tot] err] [r2 ps2] (Hr2 & Hall & Hres). cbn [fst snd] in *. split_and!.
  - by eapply grown_trans.
  - rewrite Hall, Forall_cons. split; [|tauto]. intros. split; [split; [by exists ref|done]|done].
  - intros He. destruct (Hres He) as [Hk ->]. split.
    + rewrite Hk, map_app, <-app_assoc. cbn [map app]. do 2 f_equal. rewrite Hw. unfold dest_key, weight_key, target. by rewrite Ed.
    + unfold wrap_u32. cbn [sum_weights fold_right]. rewrite Zplus_mod_idemp_l. f_equal. fold (sum_weights dests). lia.
Qed.

(** C12. Weighted destinations: without an error the clusters are the destinations in
    order with their weights, and the total is the sum of the weights as a uint32; the
    report gets the total-weight error exactly when that total is zero (besides what
    plugins report). There is an error exactly when the list is empty, or a destination
    has no type or asks for a subset its upstream has not. *)
Theorem setWeightedClusters_exact params dests out name r ps :
  wp (setWeightedClusters settings snap params dests out name) (λ res s,
    (res.1 = None ↔ dests ≠ [] ∧ Forall (λ d, usable (wd_destination d)) dests) ∧
    (res.1 = None → ∃ cs, Envoy.ra_clusterSpecifier res.2 = Some (Envoy.RouteAction_WeightedClusters cs (Some (sum_weights dests `mod` 2 ^ 32)%Z)) ∧
      map weight_key cs = map dest_key dests ∧
      grown r s.1 (if bool_decide (sum_weights dests `mod` 2 ^ 32 = 0)%Z
                   then [{| en_type := RouteReport_Error_ProcessingError; en_reason := route_reason total_weight_error name; en_metadata := None |}] else []))) (r, ps).
Proof.
  unfold setWeightedClusters. destruct dests as [|d dests]; [apply wp_ret; cbn; naive_solver|].
  apply wp_bind. eapply wp_mono; [by apply wp_weighted_clusters|]. intros [[cs tot] err] [r' ps'] (Hr & Hall & Hres). cbn [fst snd] in *. destruct err as [err|].
  { apply wp_ret. cbn. split; [|done]. split; [done|]. intros [_ Hf]. by apply Hall in Hf. }
  destruct (Hres eq_refl) as [Hk Ht]. unfold wrap_u32 in Ht. rewrite Z.add_0_l in Ht. subst tot. set (total := (sum_weights (d :: dests) mod 2 ^ 32)%Z) in *.
  assert (0 ≤ total)%Z by (apply Z.mod_pos_bound; lia). apply wp_bind. destruct (Z.ltb_spec total 1) as [Hl|Hl].
  - apply wp_update_report, wp_ret. cbn [fst snd]. split; [split; [split; [done|by apply Hall]|done]|]. intros _. exists cs. split_and!; [done|done|].
    rewrite bool_decide_eq_true_2 by lia. eapply grown_trans; [exact Hr|]. split; [done|]. by exists [].
  - apply wp_ret, wp_ret. cbn [fst snd]. split; [split; [split; [done|by apply Hall]|done]|]. intros _. exists cs. split_and!; [done|done|].
    by rewrite bool_decide_eq_false_2 by lia.
Qed.

(** ** Clusters of a route *)
Definition clusters_of (a : Envoy.RouteAction) : list string :=
  match Envoy.ra_clusterSpecifier a with
  | Some (Envoy.RouteAction_Cluster name) => [name]
  | Some (Envoy.RouteAction_WeightedClusters cs _) => map Envoy.cw_name cs
  | _ => []
  end.
Definition exists_in_snapshot (c : string) : Prop := ∃ u, u ∈ sn_upstreams snap ∧ c = Xds.UpstreamToClusterName (up_ref u).

Lemma validateSingleDestination_none d ref : DestinationToUpstreamRef d = inr ref → validateSingleDestination snap d = None →
  exists_in_snapshot (Xds.UpstreamToClusterName ref).
Proof.
  unfold validateSingleDestination. intros ->. destruct (find_upstream snap ref) as [u|] eqn:Hu; [|done]. intros _.
  apply Find_some in Hu as [Hu <-]. by exists u.
Qed.
Lemma validateMultiDestination_none ds : validateMultiDestination snap ds = None ↔ ∀ d, d ∈ ds → validateSingleDestination snap (wd_destination d) = None.
Proof.
  induction ds as [|d ds IH]; cbn; [split; [set_solver|done]|]. destruct (validateSingleDestination snap (wd_destination d)) as [e|] eqn:E.
  - split; [done|]. intros Hd. rewrite Hd in E by by left. done.
  - rewrite IH. set_solver.
Qed.

(** The destinations an action stands for. *)
Definition destinations_of (action : RouteActionDestination) : option (list WeightedDestination) :=
  match action with
  | RouteAction_Multi ds => Some ds
  | RouteAction_UpstreamGroup ref => option_map ug_destinations (find_group snap ref)
  | _ => None
  end.
Definition to_upstreams (action : RouteActionDestination) : bool :=
  match action with RouteAction_Single _ | RouteAction_Multi _ | RouteAction_UpstreamGroup _ => true | _ => false end.

Lemma setWeightedClusters_clusters params ds out name r ps : validateMultiDestination snap ds = None →
  wp (setWeightedClusters settings snap params ds out name) (λ res _, res.1 = None → ∀ c, c ∈ clusters_of res.2 → exists_in_snapshot c) (r, ps).
Proof.
  intros Hv. unfold setWeightedClusters. destruct ds as [|d ds]; [by apply wp_ret|]. apply wp_bind. eapply wp_mono; [by apply wp_weighted_clusters|].
  intros [[cs tot] err] [r' ps'] (_ & Hall & Hres). cbn [fst snd] in *. destruct err as [err|]; [by apply wp_ret|]. destruct (Hres eq_refl) as [Hk _].
  apply wp_bind. apply (wp_mono _ (λ _ _, True)); [by case_match|]. intros _ [] _. apply wp_ret. cbn. intros _ c Hc.
  change (map weight_key cs = map dest_key (d :: ds)) in Hk. apply list_elem_of_fmap in Hc as (w & -> & Hw).
  assert (weight_key w ∈ map dest_key (d :: ds)) as (d' & E & Hd')%list_elem_of_fmap by (rewrite <-Hk; by apply list_elem_of_fmap_2).
  injection E as -> _. pose proof (proj1 Hall eq_refl) as Hu. rewrite Forall_forall in Hu. destruct (Hu d' Hd') as [[ref Href] _].
  unfold target. rewrite Href. apply (validateSingleDestination_none (wd_destination d')); [done|]. by eapply validateMultiDestination_none.
Qed.

Lemma setRouteAction_clusters params action out name r ps : to_upstreams action = true → ValidateRouteDestinations snap (Some action) = None →
  wp (setRouteAction settings snap params (Some action) out name) (λ res _, res.1 = None → ∀ c, c ∈ clusters_of res.2 → exists_in_snapshot c) (r, ps).
Proof.
  intros Ha Hv. destruct action as [d|ds|ref|h|dfp]; try done; cbn [setRouteAction ValidateRouteDestinations] in *.
  - destruct (DestinationToUpstreamRef d) as [e|ref] eqn:E; apply wp_ret; [done|]. intros _ c ->%list_elem_of_singleton. by eapply validateSingleDestination_none.
  - by apply setWeightedClusters_clusters.
  - unfold validateUpstreamGroup in Hv. destruct (find_group snap ref); [|done]. by apply setWeightedClusters_clusters.
Qed.

(** A report to which something was appended, or nothing. *)
Definition extended r r' : Prop :=
  ∃ es ws, rr_errors r' = rr_errors r ++ es ∧ rr_warnings r' = rr_warnings r ++ ws.
#[local] Instance extended_preorder : PreOrder extended.
Proof.
  split.
  - intros r. exists [], []. by rewrite !app_nil_r.
  - intros r1 r2 r3 (es & ws & E & W) (es' & ws' & E' & W'). exists (es ++ es'), (ws ++ ws'). by rewrite E', W', E, W, <-!app_assoc.
Qed.
Definition entries r : nat := length (rr_errors r) + length (rr_warnings r).
Lemma extended_entries r r' : extended r r' → entries r ≤ entries r'.
Proof. intros (es & ws & E & W). unfold entries. rewrite E, W, !length_app. lia. Qed.
Lemma extended_error t reason name m r : extended r (AppendRouteErrorWithMetadata t reason name m r).
Proof. eexists _, []. by split; [|rewrite app_nil_r]. Qed.
Lemma extended_warning t reason r : extended r (AppendRouteWarning t reason r).
Proof. eexists [], _. by split; [rewrite app_nil_r|]. Qed.
Lemma extended_route_plugin route out plugin err r : extended r (reportRoutePluginProcessingError settings route out plugin err r).
Proof.
  unfold reportRoutePluginProcessingError, reportPluginProcessingError, reportPluginProcessingErrorOrWarning.
  assert (extended r (match ro_metadataStatic route with
    | Some metadata => AppendRouteErrorWithMetadata RouteReport_Error_ProcessingError (plugin +:+ ": " +:+ er_message err) (Envoy.er_name out) (Some metadata) r
    | None => r end)) as Hm by (case_match; [apply extended_error|reflexivity]).
  destruct (is_warning err), (se_allowWarnings settings); first [reflexivity | etransitivity; [exact Hm|apply extended_error]].
Qed.
Lemma extended_named_plugin name err r : extended r (reportNamedPluginError settings name err r).
Proof.
  unfold reportNamedPluginError, reportPluginProcessingError, reportPluginProcessingErrorOrWarning.
  destruct (is_warning err), (se_allowWarnings settings); first [reflexivity | apply extended_error].
Qed.

(** *** Every step of a route only appends *)
Definition appending {A} (m : M (RouteReport * PS) A) (P : A → Prop) : Prop := ∀ r0, keeps (λ s, extended r0 s.1) m P.
Lemma appending_wp {A} (m : M _ A) P r ps : appending m P → wp m (λ a s, extended r s.1 ∧ P a) (r, ps).
Proof. intros Hm. apply (Hm r). reflexivity. Qed.
Lemma appending_ret {A} (a : A) (P : A → Prop) : P a → appending (ret a) P.
Proof. intros HP r0. by apply keeps_ret. Qed.
Lemma appending_bind {A B} (m : M _ A) (k : A → M _ B) P Q : appending m P → (∀ a, P a → appending (k a) Q) → appending (bind m k) Q.
Proof. intros Hm Hk r0. eapply keeps_bind; [apply Hm|]. intros a Ha. by apply Hk. Qed.
Lemma appending_mono {A} (m : M _ A) (P Q : A → Prop) : appending m P → (∀ a, P a → Q a) → appending m Q.
Proof. intros Hm HPQ r0. by eapply keeps_mono. Qed.
Lemma appending_update f : (∀ r, extended r (f r)) → appending (update_report f) (λ _, True).
Proof. intros Hf r0 [r ps] Hr. apply wp_update_report. split; [|done]. cbn in *. by etransitivity. Qed.
Lemma appending_opt {E} (err : option E) f : (∀ e r, extended r (f e r)) → appending (match err with Some e => update_report (f e) | None => ret tt end) (λ _, True).
Proof. intros Hf. destruct err; [by apply appending_update|by apply appending_ret]. Qed.
Lemma appending_plugins {A} (f : PS → A * PS) P : (∀ ps a ps', f ps = (a, ps') → P a) → appending (on_plugins f) P.
Proof. intros Hf r0 [r ps] Hr. apply wp_on_plugins. intros a ps' E. split; [done|eauto]. Qed.
Lemma appending_fold {A B} (I : list A → B → Prop) l acc (body : nat → A → B → M _ B) :
  I [] acc → (∀ pre x post acc, l = pre ++ x :: post → I pre acc → appending (body (length pre) x acc) (I (pre ++ [x]))) →
  appending (fold_range 0 l acc body) (I l).
Proof. intros HI Hbody r0. apply keeps_fold_split; [done|]. intros. by eapply Hbody. Qed.
Lemma appending_for {A} (l : list A) (body : A → M _ unit) : (∀ x, appending (body x) (λ _, True)) → appending (for_range l body) (λ _, True).
Proof. intros Hb r0. apply keeps_for. intros x _. apply Hb. Qed.

(** *** Routes *)
(** What the plugins promise about a route that goes to upstreams: route plugins leave its
    clusters alone, or replace its action; route action plugins change no cluster. *)
Definition upstream_route (route : Route) : Prop := ∃ d, ro_action route = Some (Route_RouteAction (Some d)) ∧ to_upstreams d = true.
Definition keeps_clusters : Prop :=
  (∀ n p, (n, p) ∈ GetRoutePlugins → ∀ params route out ps err out' ps', upstream_route route → p params route out ps = (err, out', ps') →
     Envoy.GetRoute out' = None ∨ clusters_of <$> Envoy.GetRoute out' = clusters_of <$> Envoy.GetRoute out) ∧
  (∀ p, p ∈ GetRouteActionPlugins → ∀ params route d a ps err a' ps', to_upstreams d = true → p params route (Some d) a ps = (err, a', ps') → clusters_of a' = clusters_of a).
Lemma appending_weighted params name dest w : appending (run_weighted_plugins settings params name dest w) (λ _, True).
Proof.
  apply (appending_fold (λ _ _, True)); [done|]. intros pre p post w' Hl _. eapply appending_bind; [by apply (appending_plugins _ (λ _, True))|].
  intros [err w2] _. eapply appending_bind; [apply appending_opt, extended_named_plugin|]. intros. by apply appending_ret.
Qed.
Lemma appending_weighted_clusters params name dests acc total :
  appending (weighted_clusters settings snap params name dests acc total) (λ _, True).
Proof.
  revert acc total. induction dests as [|d dests IH]; intros acc total; cbn [weighted_clusters]; [by apply appending_ret|].
  destruct (DestinationToUpstreamRef _); [by apply appending_ret|]. eapply appending_bind; [apply appending_weighted|]. intros w _.
  destruct (checkThatSubsetMatchesUpstream _ _); [by apply appending_ret|apply IH].
Qed.
Lemma appending_setWeightedClusters params dests out name : appending (setWeightedClusters settings snap params dests out name) (λ _, True).
Proof.
  unfold setWeightedClusters. destruct dests; [by apply appending_ret|]. eapply appending_bind; [apply appending_weighted_clusters|].
  intros [[cs tot] [err|]] _; [by apply appending_ret|]. eapply appending_bind; [|by intros; apply appending_ret].
  destruct (tot <? 1)%Z; [apply appending_update; intros; apply extended_error|by apply appending_ret].
Qed.
Lemma appending_setRouteAction params action out name : appending (setRouteAction settings snap params action out name) (λ _, True).
Proof.
  unfold setRouteAction. repeat case_match; first [by apply appending_ret | apply appending_setWeightedClusters].
Qed.
Lemma appending_runRoutePlugins params route out :
  appending (runRoutePlugins settings params route out) (λ out', route_key out' = route_key out ∧
    (keeps_clusters → upstream_route route → Envoy.GetRoute out' = None ∨ clusters_of <$> Envoy.GetRoute out' = clusters_of <$> Envoy.GetRoute out)).
Proof.
  apply (appending_fold (λ _ out', route_key out' = route_key out ∧
    (keeps_clusters → upstream_route route → Envoy.GetRoute out' = None ∨ clusters_of <$> Envoy.GetRoute out' = clusters_of <$> Envoy.GetRoute out))); [split; [done|by right]|].
  intros pre [n p] post out' Hl [Hk Hc]. assert ((n, p) ∈ GetRoutePlugins) as Hp by (rewrite Hl; set_solver).
  eapply appending_bind; [apply (appending_plugins _ (λ res, route_key res.2 = route_key out ∧ (keeps_clusters → upstream_route route → Envoy.GetRoute res.2 = None ∨ clusters_of <$> Envoy.GetRoute res.2 = clusters_of <$> Envoy.GetRoute out')))|].
  - intros ps [err out2] ps' E. cbn [snd]. split; [by rewrite (route_plugins_keep n p Hp _ _ _ _ _ _ _ E)|]. intros [Hkc _] Hu. by eapply (Hkc n p Hp).
  - intros [err out2] [Hk2 Hc2]. cbn [snd] in *. eapply appending_bind; [apply appending_opt; intros; apply extended_route_plugin|]. intros _ _. apply appending_ret.
    split; [done|]. intros K Hu. destruct (Hc2 K Hu) as [|E2]; [by left|]. destruct (Hc K Hu) as [E1|E1]; [left|right; congruence].
    rewrite E1 in E2. by destruct (Envoy.GetRoute out2).
Qed.
Lemma appending_runRouteActionPlugins params route out :
  appending (runRouteActionPlugins settings params route out) (λ out', route_key out' = route_key out ∧
    (keeps_clusters → upstream_route route → clusters_of <$> Envoy.GetRoute out' = clusters_of <$> Envoy.GetRoute out)).
Proof.
  unfold runRouteActionPlugins. destruct (ro_action route) as [[d| | |]|] eqn:Hra; try by apply appending_ret.
  destruct (Envoy.GetRoute out) as [a|] eqn:Ha; [|apply appending_ret; by rewrite Ha].
  eapply appending_bind; [apply (appending_fold (λ _ a', keeps_clusters → upstream_route route → clusters_of a' = clusters_of a)); [done|]|].
  - intros pre p post a' Hl Hc. assert (p ∈ GetRouteActionPlugins) as Hp by (rewrite Hl; set_solver).
    eapply appending_bind; [apply (appending_plugins _ (λ res, keeps_clusters → upstream_route route → clusters_of res.2 = clusters_of a'))|].
    + intros ps [err a2] ps' E [_ K] (d' & E' & Hu). rewrite Hra in E'. injection E' as ->. by eapply (K p Hp).
    + intros [err a2] Hc2. cbn [snd] in *. eapply appending_bind; [apply appending_opt; intros; apply extended_named_plugin|]. intros _ _. apply appending_ret.
      intros K Hu. by rewrite Hc2, Hc.
  - intros a' Hc. apply appending_ret. split; [done|]. intros K Hu. cbn. by rewrite Hc.
Qed.

Lemma appending_run_plugins params route out :
  appending (out1 <~ runRoutePlugins settings params route out ;; runRouteActionPlugins settings params route out1)
    (λ out', route_key out' = route_key out ∧
      (keeps_clusters → upstream_route route → Envoy.GetRoute out' = None ∨ clusters_of <$> Envoy.GetRoute out' = clusters_of <$> Envoy.GetRoute out)).
Proof.
  eapply appending_bind; [apply appending_runRoutePlugins|]. intros out1 [Hk Hc]. eapply appending_mono; [apply appending_runRouteActionPlugins|].
  intros out2 [Hk2 Hc2]. split; [congruence|]. intros K Hu. rewrite <-(fmap_None clusters_of), (Hc2 K Hu), fmap_None. auto.
Qed.

(** What setting the action keeps, and the clusters when nothing was reported. *)
Lemma appending_append_error t reason name : appending (append_route_error (PS := PS) t reason name) (λ _, True).
Proof. apply appending_update. intros. apply extended_error. Qed.
Lemma appending_path_rewrite name p : appending (path_rewrite (PS := PS) settings name p) (λ _, True).
Proof.
  unfold path_rewrite. repeat case_match; try by apply appending_ret. eapply appending_bind; [apply appending_append_error|]. intros. by apply appending_ret.
Qed.
Lemma action_error_entries out err r : extended r (reportRouteActionProcessingError out err r) ∧ entries (reportRouteActionProcessingError out err r) = S (entries r).
Proof.
  unfold reportRouteActionProcessingError, reportPluginProcessingErrorOrWarning, entries. destruct (is_warning err).
  - split; [apply extended_warning|]. cbn. rewrite length_app. cbn. lia.
  - split; [apply extended_error|]. cbn. rewrite length_app. cbn. lia.
Qed.
Lemma appending_setAction h params route out : appending (setAction settings snap h params route out) (λ out', route_key out' = route_key out).
Proof.
  assert (∀ out0, appending (runRoutePlugins settings params route out0) (λ out', route_key out' = route_key out0)) as Hrun.
  { intros out0. eapply appending_mono; [apply appending_runRoutePlugins|]. by intros ? []. }
  assert (∀ out0, route_key out0 = route_key out → appending (out1 <~ runRoutePlugins settings params route out0 ;; runRouteActionPlugins settings params route out1)
    (λ out', route_key out' = route_key out)) as Hboth.
  { intros out0 <-. eapply appending_mono; [apply appending_run_plugins|]. by intros ? []. }
  unfold setAction. destruct (ro_action route) as [[d|red|st b|g]|]; [| | | |by apply appending_ret].
  - eapply appending_bind; [apply appending_opt; intros; apply extended_warning|]. intros _ _. eapply appending_bind; [apply appending_setRouteAction|].
    intros [err a] _. eapply appending_bind; [apply appending_opt; intros; apply action_error_entries|].
    intros _ _. by apply Hboth.
  - eapply appending_bind; [apply appending_path_rewrite|]. intros p _. eapply appending_mono; [apply Hrun|done].
  - eapply appending_mono; [apply Hrun|done].
  - by apply Hboth.
Qed.

(** C11. Clusters of a route to a single upstream, several or an upstream group (not those of
    cluster headers and dynamic forward proxies, which name no upstream), when the plugins
    change no clusters of such routes, as those of the repository do not (only consul has
    a route action plugin, and for these it sets metadata): when the translation of the
    action reports nothing, every cluster of the Envoy route is the one of an upstream of
    the snapshot. (A missing destination is always reported.) *)
Theorem setAction_clusters_exist h params route action out r ps :
  keeps_clusters → vp_snapshot (rp_vhostParams params) = snap → ro_action route = Some (Route_RouteAction (Some action)) → to_upstreams action = true →
  wp (setAction settings snap h params route out) (λ out' s, s.1 = r →
    ∀ a c, Envoy.GetRoute out' = Some a → c ∈ clusters_of a → exists_in_snapshot c) (r, ps).
Proof.
  intros K Hs Ha Hu. unfold setAction. rewrite Ha, Hs. apply wp_bind. destruct (ValidateRouteDestinations snap (Some action)) as [e|] eqn:Hv.
  - apply wp_update_report. eapply wp_mono.
    { apply appending_wp. eapply appending_bind; [apply appending_setRouteAction|]. intros [err a] _. eapply appending_bind; [apply appending_opt; intros; apply action_error_entries|].
      intros _ _. eapply appending_mono; [apply appending_run_plugins|]. intros ? _. exact I. }
    intros out' [r' ps'] [Hext%extended_entries _] Heq. cbn [fst] in *. subst r'. unfold entries in Hext. cbn in Hext. rewrite length_app in Hext. cbn in Hext. lia.
  - apply wp_ret, wp_bind. eapply wp_mono; [apply wp_conj; [by apply setRouteAction_clusters|apply appending_wp, appending_setRouteAction]|].
    intros [err a] [r1 ps1] [Hc [Hext%extended_entries _]]. cbn [fst snd] in *. apply wp_bind. destruct err as [err|].
    + apply wp_update_report. eapply wp_mono; [apply appending_wp, appending_run_plugins|]. intros out' [r' ps'] [Hext'%extended_entries _] Heq. cbn [fst] in *. subst r'.
      rewrite (proj2 (action_error_entries _ _ _)) in Hext'. lia.
    + apply wp_ret. eapply wp_mono; [apply appending_wp, appending_run_plugins|]. intros out' [r' ps'] (_ & _ & Hcl) _ a' c Ha' Hin.
      destruct (Hcl K (ex_intro _ _ (conj Ha Hu))) as [E|E]; rewrite Ha' in E; [done|]. cbn in E. injection E as E. rewrite E in Hin. by apply Hc.
Qed.

(** ** The RouteConfiguration *)
Lemma appending_validateEnvoyRoute out : appending (validateEnvoyRoute (PS := PS) out) (λ _, True).
Proof.
  assert (∀ s n, appending (validatePrefixRewrite (PS := PS) s n) (λ _, True)) as Hp.
  { intros s n. unfold validatePrefixRewrite. case_match; [apply appending_append_error|by apply appending_ret]. }
  unfold validateEnvoyRoute. eapply appending_bind; [apply appending_for|intros _ _; by eapply appending_bind].
  intros path. unfold validatePath. case_match; [apply appending_append_error|by apply appending_ret].
Qed.

(** The names and matches of a route: one per matcher, or the catch-all. *)
Definition expected_routes h route generatedName : list (string * Envoy.RouteMatch) :=
  match ro_matchers route with
  | [] => [route_key catch_all_route]
  | ms => imap (λ i m, route_key (matched_route settings h route generatedName i m)) ms
  end.
Lemma appending_initRoutes h route name : appending (initRoutes (PS := PS) settings h route name) (λ out, map route_key out = expected_routes h route name).
Proof.
  unfold initRoutes, expected_routes. destruct (ro_matchers route) as [|m ms]; [by apply appending_ret|].
  apply (appending_fold (λ pre out, map route_key out = imap (λ i m, route_key (matched_route settings h route name i m)) pre)); [done|].
  intros pre m' post acc Hl Hacc. eapply appending_bind.
  - instantiate (1 := λ _, True). case_match; [by apply appending_ret|apply appending_append_error].
  - intros _ _. apply appending_ret. rewrite map_app, imap_app, Hacc. cbn [map imap]. by rewrite Nat.add_0_r.
Qed.
Lemma appending_envoyRoutes h params route name : appending (envoyRoutes settings snap h params route name) (λ out, map route_key out = expected_routes h route name).
Proof.
  unfold envoyRoutes. eapply appending_bind; [apply appending_initRoutes|]. intros out Hout. rewrite <-Hout.
  apply (appending_fold (λ pre out, map route_key out = map route_key pre)); [done|]. intros pre x post acc Hl Hacc.
  eapply appending_bind; [apply appending_setAction|]. intros x' Hx. eapply appending_bind; [apply appending_validateEnvoyRoute|]. intros _ _.
  apply appending_ret. rewrite !map_app, Hacc. cbn [map]. by rewrite Hx.
Qed.

(** An Envoy virtual host for [v]. *)
Definition virtual_host_of h (v : VirtualHost) (ev : Envoy.VirtualHost) : Prop :=
  Envoy.ev_name ev = SanitizeForEnvoy (vh_name v) ∧ Envoy.ev_domains ev = envoy_domains (vh_domains v) ∧
  Envoy.ev_requireTls ev = h_requireTlsOnVirtualHosts h ∧
  map route_key (Envoy.ev_routes ev) =
    concat (imap (λ i route, expected_routes h route (SanitizeForEnvoy (vh_name v) +:+ "-route-" +:+ itoa i)) (vh_routes v)).

Lemma wp_computeVirtualHost h params v (rep : VirtualHostReport) ps : length (vr_routeReports rep) = length (vh_routes v) →
  wp (computeVirtualHost settings snap h params v) (λ ev s, length (vr_routeReports s.1) = length (vh_routes v) ∧ virtual_host_of h v ev) (rep, ps).
Proof.
  intros Hlen. unfold computeVirtualHost. apply wp_bind. cbn [with_name vh_name vh_routes vh_domains].
  set (name := SanitizeForEnvoy (vh_name v)) in *. set (f := λ i route, expected_routes h route (name +:+ "-route-" +:+ itoa i)).
  eapply wp_mono; [apply (wp_fold_range_split (λ pre acc s, length (vr_routeReports s.1) = length (vh_routes v) ∧ map route_key acc = concat (imap f pre))); [done|]|].
  - intros pre route post acc [rep' ps'] Hl [Hn Hacc]. cbn [fst] in *. apply wp_bind.
    assert (length pre < length (vr_routeReports rep')) as [rr Hrr]%lookup_lt_is_Some by (rewrite Hn, Hl, length_app; cbn; lia).
    eapply wp_on_nth; [exact Hrr|]. eapply wp_mono; [apply appending_wp, appending_envoyRoutes|]. intros out [rr' ps2] [_ Hout]. apply wp_ret. cbn [fst snd with_routeReports vr_routeReports].
    split; [by rewrite length_insert|]. rewrite map_app, Hacc, Hout, imap_app, concat_app. cbn. rewrite app_nil_r. unfold f. by rewrite Nat.add_0_r.
  - intros routes [rep' ps'] [Hn Hroutes]. apply (wp_fold_range (λ ev s, length (vr_routeReports s.1) = length (vh_routes v) ∧ virtual_host_of h v ev)); [done|].
    intros _ [n p] ev [rep2 ps2] Hp [Hn2 Hev]. apply wp_bind, wp_on_plugins. intros [err ev'] ps3 E.
    destruct (vhost_plugins_keep n p Hp _ _ _ _ _ _ _ E) as (E1 & E2 & E3 & E4). apply wp_bind.
    assert (virtual_host_of h v ev') as Hev'. { destruct Hev as (? & ? & ? & ?). unfold virtual_host_of. by rewrite E1, E2, E3, E4. }
    destruct err as [err|]; [|by apply wp_ret, wp_ret]. apply wp_update_report, wp_ret. split; [|done]. cbn [fst].
    unfold reportVirtualHostPluginProcessingError, reportPluginProcessingError, reportPluginProcessingErrorOrWarning.
    destruct (is_warning err), (se_allowWarnings settings), (vh_metadataStatic (with_name name v)); exact Hn2.
Qed.

(** The report has one report per virtual host, and per route of it. *)
Definition shaped (vhs : list VirtualHost) (rep : HttpListenerReport) : Prop :=
  Forall2 (λ v vr, length (vr_routeReports vr) = length (vh_routes v)) vhs (hr_virtualHostReports rep).
Lemma add_errors_shaped vhs es rep : shaped vhs rep → shaped vhs (add_errors es rep).
Proof.
  unfold shaped. rewrite !Forall2_same_length_lookup, add_errors_length. intros [Hl Hs]. split; [done|].
  intros i v vr Hv Hvr. assert (i < length (hr_virtualHostReports rep)) as [vr0 H0]%lookup_lt_is_Some by (rewrite <-Hl; by eapply lookup_lt_Some).
  rewrite (add_errors_lookup _ _ _ _ H0) in Hvr. injection Hvr as <-. cbn. by eapply Hs.
Qed.

Lemma wp_ComputeRouteConfiguration h rep ps : shaped (hl_virtualHosts (h_listener h)) rep →
  wp (httpRouteConfigurationTranslator_ComputeRouteConfiguration settings snap h) (λ cs s,
    shaped (hl_virtualHosts (h_listener h)) s.1 ∧
    ∃ c, cs = [c] ∧ Envoy.ec_name c = h_routeConfigName h ∧ Forall2 (virtual_host_of h) (hl_virtualHosts (h_listener h)) (Envoy.ec_virtualHosts c)) (rep, ps).
Proof.
  intros Hs. unfold httpRouteConfigurationTranslator_ComputeRouteConfiguration, computeVirtualHosts. set (vhs := hl_virtualHosts (h_listener h)) in *.
  apply wp_bind, wp_bind. unfold wp at 1. rewrite (ValidateVirtualHostDomains_appends vhs rep ps) by (symmetry; by eapply Forall2_length).
  eapply wp_mono; [apply (wp_fold_range_split (λ pre acc s, shaped vhs s.1 ∧ Forall2 (virtual_host_of h) pre acc))|].
  - split; [by apply add_errors_shaped|constructor].
  - intros pre v post acc [rep' ps'] Hl [Hs' Hacc]. cbn [fst] in *. apply wp_bind.
    assert (vhs !! length pre = Some v) as Hv by (by rewrite Hl, list_lookup_middle).
    destruct (Forall2_lookup_l _ _ _ _ _ Hs' Hv) as (vr & Hvr & Hn). eapply wp_on_nth; [exact Hvr|].
    eapply wp_mono; [by apply wp_computeVirtualHost|]. intros ev [vr' ps2] [Hn' Hev]. apply wp_ret. cbn [fst snd] in *. split.
    + unfold shaped. cbn. rewrite <-(list_insert_id vhs (length pre) v Hv). by apply Forall2_insert.
    + by apply Forall2_app; [|constructor].
  - intros evs [rep' ps'] [Hs' Hevs]. apply wp_ret. split; [done|]. by eexists.
Qed.

(** C10. [ComputeRouteConfiguration] on a report of the shape of the listener: it returns,
    and gives one configuration of the given name with one virtual host per virtual host of
    the listener, in order, with its sanitized name, its domains ("*" when it has none) and
    one Envoy route per matcher of its routes, in order; the report keeps its shape. *)
Theorem ComputeRouteConfiguration_correct h rep ps : shaped (hl_virtualHosts (h_listener h)) rep →
  wp (httpRouteConfigurationTranslator_ComputeRouteConfiguration settings snap h) (λ cs s,
    shaped (hl_virtualHosts (h_listener h)) s.1 ∧
    ∃ c, cs = [c] ∧ Envoy.ec_name c = h_routeConfigName h ∧ Forall2 (virtual_host_of h) (hl_virtualHosts (h_listener h)) (Envoy.ec_virtualHosts c)) (rep, ps).
Proof. apply wp_ComputeRouteConfiguration. Qed.
End Facts.

(** ** Examples: a plugin that edits routes, one that fails *)
Section Examples.
#[local] Existing Instance list_order.
#[local] Instance ex_libs : RouteLibs := {| SanitizeNameV2 := id; url_Parse := inr; MustHash := default "" |}.
Definition ex_route_plugin (_ : RouteParams) (_ : Route) (out : Envoy.Route) (n : nat) : option Err * Envoy.Route * nat :=
  (None, {| Envoy.er_name := Envoy.er_name out; Envoy.er_match := Envoy.er_match out; Envoy.er_action := Envoy.er_action out; Envoy.er_other := "timeout" |}, S n).
Definition ex_weighted_plugin (_ : RouteParams) (_ : WeightedDestination) (w : Envoy.ClusterWeight) (n : nat) : option Err * Envoy.ClusterWeight * nat :=
  (Some (New "bad filter"), w, S n).
#[local] Instance ex_plugins : RouteConfigPlugins nat :=
  {| GetRoutePlugins := [("timeouts", ex_route_plugin)]; GetRouteActionPlugins := []; GetWeightedDestinationPlugins := [ex_weighted_plugin]; GetVirtualHostPlugins := [] |}.
#[local] Instance ex_laws : RoutePluginsLaws nat.
Proof.
  split; cbn.
  - intros n p [= -> ->]%list_elem_of_singleton params route out ps err out' ps' E. injection E as <- <- <-. done.
  - intros p ->%list_elem_of_singleton params dest w ps err w' ps' E. by injection E as <- <- <-.
  - intros n p Hp. by apply elem_of_nil in Hp.
Qed.

Definition ex_settings : Settings :=
  {| se_regexMaxProgramSize := None; se_allowWarnings := false; se_warnMissingTlsSecret := false; se_translateEmptyGateways := false;
     se_circuitBreakers := None; se_enableAutoMtls := false; se_upstreamSslParameters := None; se_enableRestEds := None |}.
Definition ex_ref (name : string) : NamespacedName := {| nn_ns := "ns"; nn_name := name |}.
Definition ex_upstream (name : string) : Upstream :=
  {| up_ref := ex_ref name; up_subsetSpec := None; up_healthChecks := []; up_outlierDetection := None; up_preconnectPolicy := None;
     up_circuitBreakers := None; up_protocolSelection := 0; up_useHttp2 := false; up_ignoreHealthOnHostRemoval := false;
     up_respectDnsTtl := false; up_dnsRefreshRate := None; up_sslConfig := None; up_proxyProtocolVersion := None; up_lambdaFunctions := []; up_other := "" |}.
Definition ex_snapshot : ApiSnapshot :=
  {| sn_upstreams := [ex_upstream "u"; ex_upstream "v"]; sn_upstreamGroups := []; sn_endpoints := []; sn_authConfigs := []; sn_secrets := [] |}.
Definition ex_destination (name : string) : Destination := {| de_type := Some (Destination_Upstream (ex_ref name)); de_subset := None; de_aws := None |}.
Definition ex_weighted (name : string) (w : Z) : WeightedDestination := {| wd_dest := Some (ex_destination name); wd_weight := Some w; wd_options := "" |}.
Definition ex_listener (vhs : list VirtualHost) : HttpListener :=
  {| hl_virtualHosts := vhs; hl_options := empty_options; hl_statPrefix := ""; hl_customHttpFilters := []; hl_customNetworkFilters := [] |}.
Definition ex_parent : Listener :=
  {| li_name := "l"; li_bindAddress := "::"; li_bindPort := 8080; li_type := None; li_sslConfigurations := [];
     li_maxDirectResponseBodySizeBytes := None; li_mostSpecificHeaderMutationsWins := None; li_other := "" |}.
Definition ex_proxy : Proxy := {| px_ref := ex_ref "proxy"; px_labels := ∅; px_listeners := [] |}.
Definition ex_route (action : RouteActionDestination) : Route :=
  {| ro_matchers := []; ro_name := ""; ro_action := Some (Route_RouteAction (Some action)); ro_options := ""; ro_metadataStatic := None |}.
Definition ex_host (action : RouteActionDestination) : VirtualHost :=
  {| vh_name := "a.b"; vh_domains := []; vh_routes := [ex_route action]; vh_options := ""; vh_configRef := None; vh_metadataStatic := None |}.
Definition ex_params : RouteParams :=
  {| rp_vhostParams := {| vp_snapshot := ex_snapshot; vp_proxy := ex_proxy; vp_listener := ex_parent; vp_httpListener := ex_listener [] |};
     rp_virtualHost := ex_host (RouteAction_Single (ex_destination "u")) |}.
Definition ex_translator (vhs : list VirtualHost) : HttpRouteConfigurationTranslator :=
  {| h_proxy := ex_proxy; h_translatorName := "gloo"; h_parentListener := ex_parent; h_listener := ex_listener vhs;
     h_routeConfigName := "routes"; h_requireTlsOnVirtualHosts := false |}.
Definition no_report : RouteReport := {| rr_errors := []; rr_warnings := [] |}.

(** The weights of two destinations, and how many errors are reported besides the plugin's. *)
Definition ex_total (w w' : Z) : option (option Z * nat) :=
  match setWeightedClusters ex_settings ex_snapshot ex_params [ex_weighted "u" w; ex_weighted "v" w'] Envoy.empty_action "r" (no_report, 0) with
  | Ok ((_, a), (r, _)) => match Envoy.ra_clusterSpecifier a with
      | Some (Envoy.RouteAction_WeightedClusters _ t) => Some (t, length (rr_errors r) - 2)
      | _ => None end
  | _ => None
  end.
(** The sum wraps: two weights whose sum is [2^32] are refused, and with weights whose sum is
    [2^32 + 1] the total is 1. *)
Lemma total_weight_wraps :
  ex_total 3 4 = Some (Some 7%Z, 0) ∧ ex_total 0 0 = Some (Some 0%Z, 1) ∧
  ex_total 2147483648 2147483648 = Some (Some 0%Z, 1) ∧ ex_total 4294967295 2 = Some (Some 1%Z, 0).
Proof. by vm_compute. Qed.

Lemma setWeightedClusters_exact_witness :
  ∃ cs out s, setWeightedClusters ex_settings ex_snapshot ex_params [ex_weighted "u" 1; ex_weighted "v" 2] Envoy.empty_action "r" (no_report, 0) = Ok ((None, out), s) ∧
    Envoy.ra_clusterSpecifier out = Some (Envoy.RouteAction_WeightedClusters cs (Some 3%Z)) ∧ map weight_key cs = [("u_ns", 1%Z); ("v_ns", 2%Z)].
Proof.
  destruct (wp_run _ _ _ (setWeightedClusters_exact ex_settings ex_snapshot ex_params [ex_weighted "u" 1; ex_weighted "v" 2] Envoy.empty_action "r" no_report 0))
    as ([err out] & s & E & Herr & Hres). cbn [fst snd] in *.
  assert (err = None) as ->. { apply Herr. split; [done|]. repeat constructor; by eexists. }
  destruct (Hres eq_refl) as (cs & Hs & Hk & _). exists cs, out, s. split; [exact E|]. split; [exact Hs|exact Hk].
Defined.

Lemma setAction_clusters_exist_witness :
  wp (setAction ex_settings ex_snapshot (ex_translator []) ex_params (ex_route (RouteAction_Single (ex_destination "u"))) catch_all_route)
    (λ out s, s.1 = no_report → ∀ a c, Envoy.GetRoute out = Some a → c ∈ clusters_of a → exists_in_snapshot ex_snapshot c) (no_report, 0).
Proof.
  apply (setAction_clusters_exist ex_settings ex_snapshot (ex_translator []) ex_params _ (RouteAction_Single (ex_destination "u"))).
  - split; cbn.
    + intros n p [= -> ->]%list_elem_of_singleton params route out ps err out' ps' _ E. injection E as <- <- <-. by right.
    + intros p Hp. by apply elem_of_nil in Hp.
  - reflexivity.
  - reflexivity.
  - reflexivity.
Defined.

Lemma ComputeRouteConfiguration_correct_witness :
  ∃ c s, httpRouteConfigurationTranslator_ComputeRouteConfiguration ex_settings ex_snapshot (ex_translator [ex_host (RouteAction_Single (ex_destination "u"))])
      ({| hr_errors := []; hr_virtualHostReports := [{| vr_errors := []; vr_routeReports := [no_report] |}] |}, 0) = Ok ([c], s) ∧
    map Envoy.ev_name (Envoy.ec_virtualHosts c) = ["a_b"] ∧ map Envoy.ev_domains (Envoy.ec_virtualHosts c) = [["*"]].
Proof.
  destruct (wp_run _ _ _ (ComputeRouteConfiguration_correct ex_settings ex_snapshot (ex_translator [ex_host (RouteAction_Single (ex_destination "u"))])
    {| hr_errors := []; hr_virtualHostReports := [{| vr_errors := []; vr_routeReports := [no_report] |}] |} 0 ltac:(repeat constructor)))
    as (cs & s & E & _ & c & -> & _ & Hvs). exists c, s. split; [exact E|]. cbn in Hvs.
  apply Forall2_cons_inv_l in Hvs as (ev & evs & (Hn & Hd & _ & _) & Hnil & ->). apply Forall2_nil_inv_l in Hnil as ->. cbn. by rewrite Hn, Hd.
Defined.
End Examples.
