(* ===== verification/Ssl.v ===== *)
(** * TLS contexts

    gloo/pkg/utils/ssl.go, [sslConfigTranslator]: the SSL configuration of a listener or an
    upstream becomes an Envoy TLS context; its certificates come from a secret (inlined),
    from files, or from a secret discovery service. Checking and encoding certificates is
    outside the repository, and a parameter ([SslLibs]). *)

From stdpp Require Import base gmap strings list pretty.
From Stdlib Require Import ZArith.
From S2P Require Import Prelude GoLib GwApi EdgeApi GlooProxy.
Import Gloo.

(** ** Envoy's messages *)
Module Tls.
Inductive DataSource := DataSource_Filename (s : string) | DataSource_InlineString (s : string) | DataSource_InlineBytes (s : string).
Record TlsCertificate := { tc_certificateChain : DataSource; tc_privateKey : DataSource; tc_ocspStaple : option DataSource }.
(** The service a secret is fetched from. The credentials: token file and header. *)
Inductive GrpcService :=
| GrpcService_GoogleGrpc (statPrefix targetUri : string)
| GrpcService_GoogleGrpcCredentials (targetUri tokenFileName header : string)
| GrpcService_EnvoyGrpc (clusterName : string).
Record SdsSecretConfig := { sc_name : string; sc_service : GrpcService }.
(** A validation context: its CA and the names it requires. *)
Inductive ValidationContextType :=
| CommonTlsContext_ValidationContext (trustedCa : DataSource) (matchSubjectAltNames : list string)
| CommonTlsContext_ValidationContextSdsSecretConfig (c : SdsSecretConfig)
| CommonTlsContext_CombinedValidationContext (matchSubjectAltNames : list string) (c : SdsSecretConfig).
Inductive TlsProtocol := TLS_AUTO | TLSv1_0 | TLSv1_1 | TLSv1_2 | TLSv1_3.
Record TlsParameters := { tp_cipherSuites : list string; tp_ecdhCurves : list string; tp_maximum : TlsProtocol; tp_minimum : TlsProtocol }.
Definition default_parameters : TlsParameters := {| tp_cipherSuites := []; tp_ecdhCurves := []; tp_maximum := TLS_AUTO; tp_minimum := TLS_AUTO |}.
Record CommonTlsContext := {
  ct_tlsParams : option TlsParameters; ct_tlsCertificates : list TlsCertificate; ct_tlsCertificateSdsSecretConfigs : list SdsSecretConfig;
  ct_validationContextType : option ValidationContextType; ct_alpnProtocols : list string }.
Inductive OcspStaplePolicy := LENIENT_STAPLING | STRICT_STAPLING | MUST_STAPLE.
Record DownstreamTlsContext := {
  dt_common : CommonTlsContext; dt_requireClientCertificate : option bool; dt_disableStatelessSessionResumption : bool;
  dt_ocspStaplePolicy : OcspStaplePolicy }.
Record UpstreamTlsContext := { ut_common : CommonTlsContext; ut_sni : string; ut_allowRenegotiation : bool }.
End Tls.

(** ** Code outside the repository *)
Class SslLibs := {
  ssl_certificates : Type;
  (** [tls.X509KeyPair], [cert.ParseCertsPEM], [cert.EncodeCertificates] *)
  tls_X509KeyPair : string → string → option string;
  cert_ParseCertsPEM : string → string + ssl_certificates;
  cert_EncodeCertificates : ssl_certificates → string + string;
  (** [strings.TrimSpace] *)
  strings_TrimSpace : string → string;
  (** the text of a reference, as protobuf prints it *)
  ResourceRef_String : NamespacedName → string
}.

(** ** Errors: the one for a secret that is not found can be told from the others *)
Inductive SslErr := SslErr_SecretNotFound (m : string) | SslErr_Other (m : string).
Definition ssl_message (e : SslErr) : string := match e with SslErr_SecretNotFound m | SslErr_Other m => m end.
Definition is_SslSecretNotFoundError (e : SslErr) : bool := match e with SslErr_SecretNotFound _ => true | _ => false end.

Definition ref_string (ref : NamespacedName) : string := nn_ns ref +:+ "." +:+ nn_name ref.
Definition sslSecretNotFoundError (err : string) : SslErr := SslErr_SecretNotFound ("SSL secret not found: " +:+ err).
Definition NotTlsSecretError `{SslLibs} (ref : NamespacedName) : SslErr := SslErr_Other (ResourceRef_String ref +:+ " is not a TLS secret").
Definition InvalidTlsSecretError `{SslLibs} (ref : option NamespacedName) (err : string) : SslErr :=
  match ref with
  | None => SslErr_Other ("Invalid TLS secret: " +:+ err)
  | Some ref => SslErr_Other (ResourceRef_String ref +:+ " is not a valid TLS secret: " +:+ err)
  end.
Definition NoCertificateFoundError : SslErr := SslErr_Other "no certificate information found".
Definition MissingValidationContextError : SslErr := SslErr_Other "must provide validation context name if verifying SAN".
Definition RootCaMustBeProvidedError : SslErr := SslErr_Other "a root_ca must be provided if verify_subject_alt_name is not empty".
Definition TlsVersionNotFoundError (v : Z) : SslErr := SslErr_Other ("tls version " +:+ pretty v +:+ " not found").
Definition OcspStaplePolicyNotValidError (p : Z) : SslErr := SslErr_Other ("ocsp staple policy " +:+ pretty p +:+ " not a valid policy").

Section Ssl.
Context `{SslLibs}.

(** ** Certificates *)
(** Only a root CA is not checked; otherwise key and certificate must match, and nothing may
    be lost when the certificates are parsed and encoded again. *)
Definition isValidSslKeyPair (certChain privateKey rootCa : string) : option string :=
  if bool_decide (certChain = "") && bool_decide (privateKey = "") && negb (bool_decide (rootCa = "")) then None
  else match tls_X509KeyPair certChain privateKey with
       | Some err => Some err
       | None => match cert_ParseCertsPEM certChain with
           | inl err => Some err
           | inr candidateCert => match cert_EncodeCertificates candidateCert with
               | inl err => Some err
               | inr reencoded => if bool_decide (strings_TrimSpace reencoded = strings_TrimSpace certChain) then None
                                  else Some "certificate chain does not match parsed certificate"
               end
           end
       end.

(** Chain, key, root CA and staple of a secret. *)
Definition getSslSecrets (ref : NamespacedName) (secrets : list Secret) : SslErr + (string * string * string * option string) :=
  match Find se_ref secrets ref with
  | None => inl (sslSecretNotFoundError ("list did not find secret " +:+ ref_string ref))
  | Some secret => match se_kind secret with
      | Secret_Other _ => inl (NotTlsSecretError (se_ref secret))
      | Secret_Tls certChain privateKey rootCa ocspStaple =>
          match isValidSslKeyPair certChain privateKey rootCa with
          | Some err => inl (InvalidTlsSecretError (Some (se_ref secret)) err)
          | None => inr (certChain, privateKey, rootCa, ocspStaple)
          end
      end
  end.

(** ** Secret discovery *)
Definition SdsClusterName : string := "gateway_proxy_sds".
Definition sd_clusterName (s : SDSConfig) : string := match sd_builder s with Some (SDSConfig_ClusterName n) => n | _ => "" end.
Definition buildDeprecatedSDS (name tokenFileName header : string) (s : SDSConfig) : Tls.SdsSecretConfig :=
  {| Tls.sc_name := name; Tls.sc_service := Tls.GrpcService_GoogleGrpcCredentials (sd_targetUri s) tokenFileName header |}.
Definition buildSds (name : string) (s : SDSConfig) : Tls.SdsSecretConfig :=
  match sd_builder s with
  | Some (SDSConfig_CallCredentials tokenFileName header) => buildDeprecatedSDS name tokenFileName header s
  | _ =>
      {| Tls.sc_name := name;
         Tls.sc_service :=
           if negb (bool_decide (sd_targetUri s = "")) && bool_decide (sd_clusterName s = "") then Tls.GrpcService_GoogleGrpc name (sd_targetUri s)
           else Tls.GrpcService_EnvoyGrpc (if bool_decide (sd_clusterName s = "") then SdsClusterName else sd_clusterName s) |}
  end.
Definition handleSds (s : SDSConfig) (matchSan : list string) : SslErr + Tls.CommonTlsContext :=
  if bool_decide (sd_certificatesSecretName s = "") && bool_decide (sd_validationContextName s = "") then
    inl (SslErr_Other "at least one of certificates_secret_name or validation_context_name must be provided")
  else if negb (bool_decide (matchSan = [])) && bool_decide (sd_validationContextName s = "") then inl MissingValidationContextError
  else inr {|
    Tls.ct_tlsParams := Some Tls.default_parameters; Tls.ct_tlsCertificates := [];
    Tls.ct_tlsCertificateSdsSecretConfigs :=
      if bool_decide (sd_certificatesSecretName s = "") then [] else [buildSds (sd_certificatesSecretName s) s];
    Tls.ct_validationContextType :=
      if bool_decide (sd_validationContextName s = "") then None
      else Some (if bool_decide (matchSan = []) then Tls.CommonTlsContext_ValidationContextSdsSecretConfig (buildSds (sd_validationContextName s) s)
                 else Tls.CommonTlsContext_CombinedValidationContext matchSan (buildSds (sd_validationContextName s) s));
    Tls.ct_alpnProtocols := [] |}.

(** ** Parameters *)
Definition convertVersion (v : Z) : SslErr + Tls.TlsProtocol :=
  match v with
  | 0%Z => inr Tls.TLS_AUTO | 1%Z => inr Tls.TLSv1_0 | 2%Z => inr Tls.TLSv1_1 | 3%Z => inr Tls.TLSv1_2 | 4%Z => inr Tls.TLSv1_3
  | _ => inl (TlsVersionNotFoundError v)
  end.
Definition ResolveSslParamsConfig (params : option SslParameters) : SslErr + option Tls.TlsParameters :=
  match params with
  | None => inr None
  | Some p => match convertVersion (sa_maximumProtocolVersion p) with
      | inl err => inl err
      | inr maxver => match convertVersion (sa_minimumProtocolVersion p) with
          | inl err => inl err
          | inr minver => inr (Some {| Tls.tp_cipherSuites := sa_cipherSuites p; Tls.tp_ecdhCurves := sa_ecdhCurves p; Tls.tp_maximum := maxver; Tls.tp_minimum := minver |})
          end
      end
  end.
Definition convertOcspStaplePolicy (policy : Z) : SslErr + Tls.OcspStaplePolicy :=
  match policy with
  | 0%Z => inr Tls.LENIENT_STAPLING | 1%Z => inr Tls.STRICT_STAPLING | 2%Z => inr Tls.MUST_STAPLE
  | _ => inl (OcspStaplePolicyNotValidError policy)
  end.

(** ** The common context

    What [CertSource] gives of a configuration. *)
Record CertSource := {
  cs_sslSecrets : option SslSecrets; cs_verifySubjectAltName : list string; cs_parameters : option SslParameters; cs_alpnProtocols : list string }.
Definition downstream_source (c : SslConfig) : CertSource :=
  {| cs_sslSecrets := ss_sslSecrets c; cs_verifySubjectAltName := ss_verifySubjectAltName c; cs_parameters := ss_parameters c; cs_alpnProtocols := ss_alpnProtocols c |}.
Definition upstream_source (c : UpstreamSslConfig) : CertSource :=
  {| cs_sslSecrets := us_sslSecrets c; cs_verifySubjectAltName := us_verifySubjectAltName c; cs_parameters := us_parameters c; cs_alpnProtocols := us_alpnProtocols c |}.

Definition non_empty (f : string → Tls.DataSource) (s : string) : option Tls.DataSource := if bool_decide (s = "") then None else Some (f s).
(** From here on the certificates are known: a secret's are inlined, files are named. *)
Definition context_of (cs : CertSource) (inlineDataSource mustHaveCert : bool) (certChain privateKey rootCa : string) (ocspStapleFile : string) (ocspStaple : option string) :
    SslErr + Tls.CommonTlsContext :=
  if mustHaveCert && (bool_decide (certChain = "") || bool_decide (privateKey = "")) then inl NoCertificateFoundError
  else
    let dataSource := if inlineDataSource then Tls.DataSource_InlineString else Tls.DataSource_Filename in
    let ocspStapleData := if bool_decide (ocspStapleFile = "") then option_map Tls.DataSource_InlineBytes ocspStaple else Some (dataSource ocspStapleFile) in
    let certificates := match non_empty dataSource certChain, non_empty dataSource privateKey with
      | Some certChainData, Some privateKeyData =>
          inr [{| Tls.tc_certificateChain := certChainData; Tls.tc_privateKey := privateKeyData; Tls.tc_ocspStaple := ocspStapleData |}]
      | None, None => inr []
      | _, _ => inl (SslErr_Other "both or none of cert chain and private key must be provided") end in
    match certificates with
    | inl err => inl err
    | inr certificates =>
        let sanList := cs_verifySubjectAltName cs in
        let validation := match non_empty dataSource rootCa with
          | Some rootCaData => inr (Some (Tls.CommonTlsContext_ValidationContext rootCaData sanList))
          | None => if bool_decide (sanList = []) then inr None else inl RootCaMustBeProvidedError end in
        match validation with
        | inl err => inl err
        | inr validation => match ResolveSslParamsConfig (cs_parameters cs) with
            | inl err => inl err
            | inr params => inr {| Tls.ct_tlsParams := params; Tls.ct_tlsCertificates := certificates; Tls.ct_tlsCertificateSdsSecretConfigs := [];
                                   Tls.ct_validationContextType := validation; Tls.ct_alpnProtocols := cs_alpnProtocols cs |}
            end
        end
    end.
Definition with_alpn (alpn : list string) (c : Tls.CommonTlsContext) : Tls.CommonTlsContext :=
  {| Tls.ct_tlsParams := Tls.ct_tlsParams c; Tls.ct_tlsCertificates := Tls.ct_tlsCertificates c;
     Tls.ct_tlsCertificateSdsSecretConfigs := Tls.ct_tlsCertificateSdsSecretConfigs c;
     Tls.ct_validationContextType := Tls.ct_validationContextType c; Tls.ct_alpnProtocols := alpn |}.
Definition without_validation (c : Tls.CommonTlsContext) : Tls.CommonTlsContext :=
  {| Tls.ct_tlsParams := Tls.ct_tlsParams c; Tls.ct_tlsCertificates := Tls.ct_tlsCertificates c;
     Tls.ct_tlsCertificateSdsSecretConfigs := Tls.ct_tlsCertificateSdsSecretConfigs c;
     Tls.ct_validationContextType := None; Tls.ct_alpnProtocols := Tls.ct_alpnProtocols c |}.
Definition ResolveCommonSslConfig (cs : CertSource) (secrets : list Secret) (mustHaveCert : bool) : SslErr + Tls.CommonTlsContext :=
  match cs_sslSecrets cs with
  | Some (SslConfig_SecretRef ref) =>
      match getSslSecrets ref secrets with
      | inl err => inl err
      | inr (certChain, privateKey, rootCa, ocspStaple) => context_of cs true mustHaveCert certChain privateKey rootCa "" ocspStaple
      end
  | Some (SslConfig_SslFiles f) =>
      match isValidSslKeyPair (sf_tlsCert f) (sf_tlsKey f) (sf_rootCa f) with
      | Some err => inl (InvalidTlsSecretError None err)
      | None => context_of cs false mustHaveCert (sf_tlsCert f) (sf_tlsKey f) (sf_rootCa f) (sf_ocspStaple f) None
      end
  | Some (SslConfig_Sds sds) =>
      match handleSds sds (cs_verifySubjectAltName cs) with
      | inl err => inl err
      | inr tlsContext => inr (with_alpn (cs_alpnProtocols cs) tlsContext)
      end
  | None => if mustHaveCert then inl NoCertificateFoundError else context_of cs false mustHaveCert "" "" "" "" None
  end.

(** ** The two contexts *)
Definition AllowEmpty : string := "allow_empty".
Definition downstream_alpn (alpn : list string) : list string :=
  match alpn with [] => ["h2"; "http/1.1"] | [p] => if bool_decide (p = AllowEmpty) then [] else alpn | _ => alpn end.
Definition ResolveDownstreamSslConfig (secrets : list Secret) (dc : SslConfig) : SslErr + Tls.DownstreamTlsContext :=
  match ResolveCommonSslConfig (downstream_source dc) secrets true with
  | inl err => inl err
  | inr common =>
      match convertOcspStaplePolicy (ss_ocspStaplePolicy dc) with
      | inl err => inl err
      | inr ocspPolicy => inr {|
          Tls.dt_common := with_alpn (downstream_alpn (Tls.ct_alpnProtocols common)) common;
          Tls.dt_requireClientCertificate :=
            match Tls.ct_validationContextType common with Some _ => Some (negb (default false (ss_oneWayTls dc))) | None => None end;
          Tls.dt_disableStatelessSessionResumption := default false (ss_disableTlsSessionResumption dc);
          Tls.dt_ocspStaplePolicy := ocspPolicy |}
      end
  end.
Definition ResolveUpstreamSslConfig (secrets : list Secret) (uc : UpstreamSslConfig) : SslErr + Tls.UpstreamTlsContext :=
  match ResolveCommonSslConfig (upstream_source uc) secrets false with
  | inl err => inl err
  | inr common =>
      let sds := match us_sslSecrets uc with Some (SslConfig_Sds _) => true | _ => false end in
      inr {| Tls.ut_common := if negb sds && default false (us_oneWayTls uc) then without_validation common else common;
             Tls.ut_sni := us_sni uc; Tls.ut_allowRenegotiation := default false (us_allowRenegotiation uc) |}
  end.
End Ssl.
