(* ===== verification/SslFacts.v ===== *)
(** * Facts about TLS contexts

    What a downstream context guarantees: where its certificate comes from, that it passed
    validation, when clients must show a certificate, and that required names are
    enforced. *)

From stdpp Require Import base gmap strings list.
From Stdlib Require Import ZArith.
From S2P Require Import Prelude GoLib GwApi EdgeApi GlooProxy Ssl.
Import Gloo.

Section Facts.
Context `{SslLibs}.

(** The three strings pass the validation. *)
Definition valid_pair (certChain privateKey rootCa : string) : Prop :=
  (certChain = "" ∧ privateKey = "" ∧ rootCa ≠ "") ∨
  (tls_X509KeyPair certChain privateKey = None ∧
   ∃ certs pem, cert_ParseCertsPEM certChain = inr certs ∧ cert_EncodeCertificates certs = inr pem ∧ strings_TrimSpace pem = strings_TrimSpace certChain).
Lemma isValidSslKeyPair_spec c k r : isValidSslKeyPair c k r = None ↔ valid_pair c k r.
Proof.
  unfold isValidSslKeyPair, valid_pair. destruct (bool_decide (c = "") && bool_decide (k = "") && negb (bool_decide (r = ""))) eqn:E.
  - apply andb_true_iff in E as [[->%bool_decide_eq_true ->%bool_decide_eq_true]%andb_true_iff Hr%negb_true_iff]. apply bool_decide_eq_false in Hr. naive_solver.
  - assert (¬ (c = "" ∧ k = "" ∧ r ≠ "")) as Hn.
    { intros (-> & -> & Hr). rewrite !bool_decide_eq_true_2, (bool_decide_eq_false_2 _ Hr) in E by done. done. }
    clear E. destruct (tls_X509KeyPair c k) as [e|]; [split; [done|]; by intros [|[]]|].
    destruct (cert_ParseCertsPEM c) as [e|certs]; [split; [done|]; by intros [|(_ & ? & ? & ? & _)]|].
    destruct (cert_EncodeCertificates certs) as [e|pem] eqn:Ee.
    { split; [done|]. intros [|(_ & ? & ? & [= <-] & Hp & _)]; [done|congruence]. }
    destruct (bool_decide_reflect (strings_TrimSpace pem = strings_TrimSpace c)) as [Hp|Hp].
    + split; [|done]. intros _. right. split; [done|]. by exists certs, pem.
    + split; [done|]. intros [|(_ & ? & ? & [= <-] & Hp' & ?)]; [done|congruence].
Qed.

(** Where the certificates of a configuration come from: inlined or not, chain, key, root CA. *)
Inductive certificates_of (secrets : list Secret) : option SslSecrets → bool → string → string → string → Prop :=
| of_secret ref c k r staple secret :
    Find se_ref secrets ref = Some secret → se_kind secret = Secret_Tls c k r staple → valid_pair c k r →
    certificates_of secrets (Some (SslConfig_SecretRef ref)) true c k r
| of_files f : valid_pair (sf_tlsCert f) (sf_tlsKey f) (sf_rootCa f) →
    certificates_of secrets (Some (SslConfig_SslFiles f)) false (sf_tlsCert f) (sf_tlsKey f) (sf_rootCa f)
| of_nothing : certificates_of secrets None false "" "" "".

Definition source (inlined : bool) (s : string) : Tls.DataSource := if inlined then Tls.DataSource_InlineString s else Tls.DataSource_Filename s.

Lemma getSslSecrets_spec ref secrets c k r staple : getSslSecrets ref secrets = inr (c, k, r, staple) → certificates_of secrets (Some (SslConfig_SecretRef ref)) true c k r.
Proof.
  unfold getSslSecrets. destruct (Find se_ref secrets ref) as [secret|] eqn:Hf; [|done]. destruct (se_kind secret) as [c' k' r' s'|] eqn:Hk; [|done].
  destruct (isValidSslKeyPair c' k' r') eqn:Hv; [done|]. intros [= -> -> -> ->]. econstructor; [done..|]. by apply isValidSslKeyPair_spec.
Qed.

(** The certificates and the names of a context, when it comes from a secret or files. *)
Definition context_ok (cs : CertSource) (inlined : bool) (c k r : string) (ctx : Tls.CommonTlsContext) : Prop :=
  Tls.ct_tlsCertificateSdsSecretConfigs ctx = [] ∧
  (c ≠ "" ∧ k ≠ "" ∧ (∃ staple, Tls.ct_tlsCertificates ctx = [{| Tls.tc_certificateChain := source inlined c; Tls.tc_privateKey := source inlined k; Tls.tc_ocspStaple := staple |}])
   ∨ c = "" ∧ k = "" ∧ Tls.ct_tlsCertificates ctx = []) ∧
  Tls.ct_validationContextType ctx = (if bool_decide (r = "") then None else Some (Tls.CommonTlsContext_ValidationContext (source inlined r) (cs_verifySubjectAltName cs))) ∧
  (r = "" → cs_verifySubjectAltName cs = []) ∧ Tls.ct_alpnProtocols ctx = cs_alpnProtocols cs.
Lemma context_of_ok cs inlined must c k r file staple ctx :
  context_of cs inlined must c k r file staple = inr ctx → context_ok cs inlined c k r ctx ∧ (must = true → c ≠ "" ∧ k ≠ "").
Proof.
  unfold context_of, non_empty, context_ok. intros Hctx.
  destruct (bool_decide_reflect (c = "")) as [Hc|Hc], (bool_decide_reflect (k = "")) as [Hk|Hk], (bool_decide_reflect (r = "")) as [Hr|Hr];
    destruct must; cbn in Hctx; try done;
    (destruct (bool_decide_reflect (cs_verifySubjectAltName cs = [])) as [Hs|Hs]; try done);
    (destruct (ResolveSslParamsConfig (cs_parameters cs)); [done|]); injection Hctx as <-; cbn;
    split_and!; try done; first [by right | by destruct inlined | left; split_and!; [done..|]; destruct inlined; by eexists].
Qed.

(** A secret is fetched under its name: with the call credentials when there are some,
    else over the named cluster, the target, or the default cluster. *)
Definition fetched (s : SDSConfig) (name : string) (c : Tls.SdsSecretConfig) : Prop :=
  Tls.sc_name c = name ∧
  match sd_builder s with
  | Some (SDSConfig_CallCredentials token header) => Tls.sc_service c = Tls.GrpcService_GoogleGrpcCredentials (sd_targetUri s) token header
  | _ => (sd_clusterName s ≠ "" → Tls.sc_service c = Tls.GrpcService_EnvoyGrpc (sd_clusterName s)) ∧
         (sd_clusterName s = "" → sd_targetUri s ≠ "" → Tls.sc_service c = Tls.GrpcService_GoogleGrpc name (sd_targetUri s)) ∧
         (sd_clusterName s = "" → sd_targetUri s = "" → Tls.sc_service c = Tls.GrpcService_EnvoyGrpc SdsClusterName)
  end.
Lemma buildSds_fetched s name : fetched s name (buildSds name s).
Proof.
  unfold fetched, buildSds. destruct (sd_builder s) as [[token header|n]|]; [done| |];
    (split; [by repeat case_bool_decide|]); split_and!; repeat case_bool_decide; naive_solver.
Qed.
(** The certificates and the validation of a context with SDS. *)
Definition sds_ok (s : SDSConfig) (san : list string) (ctx : Tls.CommonTlsContext) : Prop :=
  Tls.ct_tlsCertificates ctx = [] ∧
  (if bool_decide (sd_certificatesSecretName s = "") then Tls.ct_tlsCertificateSdsSecretConfigs ctx = []
   else ∃ c, Tls.ct_tlsCertificateSdsSecretConfigs ctx = [c] ∧ fetched s (sd_certificatesSecretName s) c) ∧
  (if bool_decide (sd_validationContextName s = "") then Tls.ct_validationContextType ctx = None ∧ san = []
   else ∃ c, fetched s (sd_validationContextName s) c ∧
     Tls.ct_validationContextType ctx = Some (if bool_decide (san = []) then Tls.CommonTlsContext_ValidationContextSdsSecretConfig c
                                              else Tls.CommonTlsContext_CombinedValidationContext san c)).
Lemma handleSds_ok s san ctx : handleSds s san = inr ctx →
  (sd_certificatesSecretName s ≠ "" ∨ sd_validationContextName s ≠ "") ∧ sds_ok s san ctx.
Proof.
  pose proof (buildSds_fetched s). unfold handleSds, sds_ok.
  destruct (bool_decide_reflect (sd_certificatesSecretName s = "")) as [Hc|Hc], (bool_decide_reflect (sd_validationContextName s = "")) as [Hv|Hv],
    (bool_decide_reflect (san = [])) as [Hs|Hs]; cbn; try done; intros [= <-]; cbn; eauto 10.
Qed.

(** What the common context is for each source of certificates. *)
Lemma ResolveCommonSslConfig_ok cs secrets must ctx : ResolveCommonSslConfig cs secrets must = inr ctx →
  (∃ sds ctx', cs_sslSecrets cs = Some (SslConfig_Sds sds) ∧ handleSds sds (cs_verifySubjectAltName cs) = inr ctx' ∧ ctx = with_alpn (cs_alpnProtocols cs) ctx') ∨
  (∃ inlined c k r, certificates_of secrets (cs_sslSecrets cs) inlined c k r ∧ context_ok cs inlined c k r ctx ∧ (must = true → c ≠ "" ∧ k ≠ "")).
Proof.
  unfold ResolveCommonSslConfig. destruct (cs_sslSecrets cs) as [[ref|f|sds]|] eqn:Hs.
  - destruct (getSslSecrets ref secrets) as [e|[[[c k] r] staple]] eqn:E; [done|]. intros [Hok Hm]%context_of_ok. right.
    exists true, c, k, r. split; [by eapply getSslSecrets_spec|done].
  - destruct (isValidSslKeyPair _ _ _) eqn:E; [done|]. intros [Hok Hm]%context_of_ok. right. eexists false, _, _, _.
    split; [constructor; by apply isValidSslKeyPair_spec|done].
  - destruct (handleSds sds _) as [e|ctx'] eqn:E; [done|]. intros [= <-]. left. eauto.
  - destruct must; [done|]. intros [Hok _]%context_of_ok. right. eexists false, _, _, _. split; [constructor|]. by split.
Qed.

(** The names the context requires of the peer's certificate. *)
Definition required_names (ctx : Tls.CommonTlsContext) : option (list string) :=
  match Tls.ct_validationContextType ctx with
  | Some (Tls.CommonTlsContext_ValidationContext _ names) | Some (Tls.CommonTlsContext_CombinedValidationContext names _) => Some names
  | Some (Tls.CommonTlsContext_ValidationContextSdsSecretConfig _) => Some []
  | None => None
  end.
Lemma required_names_ok cs secrets must ctx : ResolveCommonSslConfig cs secrets must = inr ctx →
  required_names ctx = (if bool_decide (is_Some (Tls.ct_validationContextType ctx)) then Some (cs_verifySubjectAltName cs) else None) ∧
  (Tls.ct_validationContextType ctx = None → cs_verifySubjectAltName cs = []).
Proof.
  intros [(sds & ctx' & Hs & E & ->)|(inlined & c & k & r & Hc & (_ & _ & Hv & Hr & _) & _)]%ResolveCommonSslConfig_ok.
  - pose proof (handleSds_ok _ _ _ E) as (_ & _ & _ & Hv). unfold required_names. cbn. case_bool_decide; [by destruct Hv as [-> ->]|].
    destruct Hv as (c & _ & ->). case_bool_decide as Hn; cbn; [by rewrite Hn|done].
  - unfold required_names. rewrite Hv. case_bool_decide as Er; cbn; [|by split]. split; [done|]. auto.
Qed.

(** C25. Downstream TLS contexts. Either the certificate is the one of the configured secret
    (which exists, is a TLS secret and passes validation) inlined, or of validated files, and
    clients are validated against the root CA of that secret or file and the names in
    [verify_subject_alt_name] exactly when there is a root CA, without which no names may be
    asked for; or certificate and validation context are fetched from the secret discovery
    service under the configured names, and the names to verify are required in addition.
    Clients must show a certificate exactly when they are validated and TLS is not one-way;
    ALPN is empty only when asked for. *)
Theorem ResolveDownstreamSslConfig_correct secrets dc ctx : ResolveDownstreamSslConfig secrets dc = inr ctx →
  let common := Tls.dt_common ctx in
  ((∃ inlined c k r staple, certificates_of secrets (ss_sslSecrets dc) inlined c k r ∧ c ≠ "" ∧ k ≠ "" ∧
      Tls.ct_tlsCertificates common = [{| Tls.tc_certificateChain := source inlined c; Tls.tc_privateKey := source inlined k; Tls.tc_ocspStaple := staple |}] ∧
      Tls.ct_tlsCertificateSdsSecretConfigs common = [] ∧
      (r ≠ "" → Tls.ct_validationContextType common = Some (Tls.CommonTlsContext_ValidationContext (source inlined r) (ss_verifySubjectAltName dc))) ∧
      (r = "" → Tls.ct_validationContextType common = None ∧ ss_verifySubjectAltName dc = [])) ∨
   (∃ sds, ss_sslSecrets dc = Some (SslConfig_Sds sds) ∧ (sd_certificatesSecretName sds ≠ "" ∨ sd_validationContextName sds ≠ "") ∧
      sds_ok sds (ss_verifySubjectAltName dc) common)) ∧
  (ss_verifySubjectAltName dc ≠ [] → required_names common = Some (ss_verifySubjectAltName dc)) ∧
  Tls.dt_requireClientCertificate ctx = (if bool_decide (is_Some (Tls.ct_validationContextType common)) then Some (negb (default false (ss_oneWayTls dc))) else None) ∧
  (Tls.ct_alpnProtocols common = [] ↔ ss_alpnProtocols dc = [AllowEmpty]).
Proof.
  unfold ResolveDownstreamSslConfig. destruct (ResolveCommonSslConfig _ secrets true) as [e|common] eqn:Hc; [done|].
  destruct (convertOcspStaplePolicy _) as [e|pol]; [done|]. intros [= <-]. cbn. split_and!.
  - destruct (ResolveCommonSslConfig_ok _ _ _ _ Hc) as [(sds & ctx' & Hs & E & ->)|(inlined & c & k & r & Ho & (Hsds & Hcert & Hv & Hn & _) & Hm)].
    + right. exists sds. split; [done|]. by apply handleSds_ok in E.
    + left. destruct (Hm eq_refl) as [Hc' Hk']. destruct Hcert as [(_ & _ & staple & Hcert)|(? & _)]; [|done]. exists inlined, c, k, r, staple.
      split_and!; try done; rewrite Hv; intros Hr; case_bool_decide; try done. split; [done|auto].
  - intros Hn. destruct (required_names_ok _ _ _ _ Hc) as [Hreq Hnone]. unfold required_names in *. cbn in *. rewrite Hreq. case_bool_decide as Hsome; [done|].
    destruct Hn. apply Hnone. by destruct (Tls.ct_validationContextType common); [destruct Hsome|].
  - by destruct (Tls.ct_validationContextType common).
  - assert (Tls.ct_alpnProtocols common = ss_alpnProtocols dc) as ->.
    { destruct (ResolveCommonSslConfig_ok _ _ _ _ Hc) as [(sds & ctx' & _ & _ & ->)|(? & ? & ? & ? & _ & (_ & _ & _ & _ & Ha) & _)]; done. }
    unfold downstream_alpn. destruct (ss_alpnProtocols dc) as [|p [|q l]]; [done| |done]. case_bool_decide; naive_solver.
Qed.

(** Upstream TLS contexts: a certificate chain and a key come together, from the
    configured source; the names of [verify_subject_alt_name] are required of the upstream
    unless one-way TLS takes the validation context away, which it does not for SDS. *)
Theorem ResolveUpstreamSslConfig_correct secrets uc ctx : ResolveUpstreamSslConfig secrets uc = inr ctx →
  let common := Tls.ut_common ctx in
  let sds := match us_sslSecrets uc with Some (SslConfig_Sds _) => true | _ => false end in
  (sds = false → ∃ inlined c k r, certificates_of secrets (us_sslSecrets uc) inlined c k r ∧ (c = "" ↔ k = "") ∧ (c = "" ↔ Tls.ct_tlsCertificates common = [])) ∧
  (us_verifySubjectAltName uc ≠ [] → sds = true ∨ default false (us_oneWayTls uc) = false → required_names common = Some (us_verifySubjectAltName uc)) ∧
  (sds = false → us_oneWayTls uc = Some true → Tls.ct_validationContextType common = None).
Proof.
  unfold ResolveUpstreamSslConfig. destruct (ResolveCommonSslConfig _ secrets false) as [e|common] eqn:Hc; [done|]. intros [= <-]. cbn.
  set (sds := match us_sslSecrets uc with Some (SslConfig_Sds _) => true | _ => false end). split_and!.
  - intros Hsds. destruct (ResolveCommonSslConfig_ok _ _ _ _ Hc) as [(s & ctx' & Hs & _)|(inlined & c & k & r & Ho & (_ & Hcert & _) & _)].
    { cbn in Hs. subst sds. by rewrite Hs in Hsds. }
    exists inlined, c, k, r. split; [done|]. assert (Tls.ct_tlsCertificates (if negb sds && default false (us_oneWayTls uc) then without_validation common else common) = Tls.ct_tlsCertificates common) as -> by by case_match.
    destruct Hcert as [(? & ? & staple & ->)|(-> & -> & ->)]; naive_solver.
  - intros Hn Hor. assert (negb sds && default false (us_oneWayTls uc) = false) as -> by (destruct Hor as [->| ->]; by rewrite ?andb_false_r).
    destruct (required_names_ok _ _ _ _ Hc) as [Hreq Hnone]. cbn in *. rewrite Hreq. case_bool_decide as Hsome; [done|].
    destruct Hn. apply Hnone. by destruct (Tls.ct_validationContextType common); [destruct Hsome|].
  - intros -> ->. done.
Qed.
End Facts.

(** ** Examples: certificates are the strings "cert...", a pair matches when the texts do *)
Section Examples.
#[local] Instance ex_ssl : SslLibs :=
  {| ssl_certificates := string; tls_X509KeyPair c k := if has_prefix c "cert" && bool_decide (k = "key of " +:+ c) then None else Some "failed to find any PEM data";
     cert_ParseCertsPEM := inr; cert_EncodeCertificates := inr; strings_TrimSpace := id; ResourceRef_String := ref_string |}.
Definition ex_ref : NamespacedName := {| nn_ns := "ns"; nn_name := "tls" |}.
Definition ex_secrets : list Secret := [{| se_ref := ex_ref; se_kind := Secret_Tls "cert 1" "key of cert 1" "ca" None |}].
Definition ex_config (s : SslSecrets) (names : list string) (params : option SslParameters) : SslConfig :=
  {| ss_sslSecrets := Some s; ss_sniDomains := []; ss_verifySubjectAltName := names; ss_parameters := params; ss_alpnProtocols := [];
     ss_oneWayTls := None; ss_disableTlsSessionResumption := None; ss_transportSocketConnectTimeout := None; ss_ocspStaplePolicy := 0 |}.
Definition ex_sds (certificates validation : string) : SslSecrets :=
  SslConfig_Sds {| sd_targetUri := ""; sd_builder := None; sd_certificatesSecretName := certificates; sd_validationContextName := validation |}.
Definition ex_upstream (s : SslSecrets) (names : list string) (oneWay : option bool) : UpstreamSslConfig :=
  {| us_sslSecrets := Some s; us_sni := "a"; us_verifySubjectAltName := names; us_parameters := None; us_alpnProtocols := [];
     us_allowRenegotiation := None; us_oneWayTls := oneWay |}.

Lemma ResolveDownstreamSslConfig_correct_witness :
  ∃ ctx, ResolveDownstreamSslConfig ex_secrets (ex_config (SslConfig_SecretRef ex_ref) ["client"] None) = inr ctx ∧ required_names (Tls.dt_common ctx) = Some ["client"].
Proof. eexists. split; [reflexivity|]. refine (proj1 (proj2 (ResolveDownstreamSslConfig_correct ex_secrets (ex_config (SslConfig_SecretRef ex_ref) ["client"] None) _ eq_refl)) _). discriminate. Defined.
Lemma ResolveUpstreamSslConfig_correct_witness :
  ∃ ctx, ResolveUpstreamSslConfig ex_secrets (ex_upstream (SslConfig_SecretRef ex_ref) ["server"] None) = inr ctx ∧ required_names (Tls.ut_common ctx) = Some ["server"].
Proof.
  eexists. split; [reflexivity|]. refine (proj1 (proj2 (ResolveUpstreamSslConfig_correct ex_secrets (ex_upstream (SslConfig_SecretRef ex_ref) ["server"] None) _ eq_refl)) _ _); [discriminate|right; reflexivity].
Defined.

(** SSL files are paths in the API, but are validated as if they were the certificates: a
    path is refused. *)
Lemma ssl_files_paths_refused :
  ResolveDownstreamSslConfig [] (ex_config (SslConfig_SslFiles {| sf_tlsCert := "/etc/tls.crt"; sf_tlsKey := "/etc/tls.key"; sf_rootCa := ""; sf_ocspStaple := "" |}) [] None) =
    inl (SslErr_Other "Invalid TLS secret: failed to find any PEM data").
Proof. reflexivity. Qed.
(** With SDS a listener's context may have no certificate at all, and the parameters are dropped. *)
Lemma sds_without_certificate : ∃ ctx,
  ResolveDownstreamSslConfig [] (ex_config (ex_sds "" "roots") []
    (Some {| sa_minimumProtocolVersion := 3; sa_maximumProtocolVersion := 4; sa_cipherSuites := []; sa_ecdhCurves := [] |})) = inr ctx ∧
  Tls.ct_tlsCertificates (Tls.dt_common ctx) = [] ∧ Tls.ct_tlsCertificateSdsSecretConfigs (Tls.dt_common ctx) = [] ∧
  Tls.ct_tlsParams (Tls.dt_common ctx) = Some Tls.default_parameters.
Proof. eexists. split; [reflexivity|done]. Qed.
End Examples.
