(* ===== verification/EnvoyFilters.v ===== *)
(** * Filters of an Envoy listener

    gloo/pkg/plugins/staged_filters.go, and network_filters.go, custom_filters.go of
    gloo/pkg/translator: the HTTP filters of a listener are sorted by stage and end with the
    router; the network filters are sorted and end with the connection manager, which names
    the RouteConfiguration. Plugins give filters and edit the connection manager; they are
    a parameter with a state. *)

From stdpp Require Import base gmap strings list sorting.
From Stdlib Require Import ZArith Ascii.
From S2P Require Import Prelude GoLib GwApi EdgeApi ProxyReports GlooProxy EnvoyRoutes.
Import Validation Gloo.

(** ** Envoy's messages *)
Module Lds.
(** [hf_other]: the fields besides the name and the typed configuration. *)
Record HttpFilter := { hf_name : string; hf_config : option TypedConfig; hf_other : string }.
Record Router := { rt_suppressEnvoyHeaders : bool; rt_dynamicStats : option bool; rt_upstreamHttpFilters : list (option HttpFilter) }.
Record Hcm := { hcm_statPrefix : string; hcm_routeConfigName : string; hcm_httpFilters : list (option HttpFilter); hcm_other : string }.
Inductive ClusterSpecifier := TcpProxy_Cluster (name : string) | TcpProxy_WeightedClusters (clusters : list (string * Z)).
Record TcpProxy := { tx_statPrefix : string; tx_clusterSpecifier : ClusterSpecifier; tx_other : string }.
(** What the configuration of a network filter holds: the code marshals the connection manager,
    the TCP proxy and the SNI filter itself. *)
Inductive FilterConfig :=
| Filter_TypedConfig (c : option TypedConfig)
| Filter_Hcm (h : Hcm)
| Filter_TcpProxy (t : TcpProxy)
| Filter_SniCluster.
Record Filter := { fl_name : string; fl_config : FilterConfig }.
End Lds.

(** ** Stages *)
(** Relative to a well-known stage (by its number), and the weight. *)
Record Stage := { st_relativeTo : Z; st_weight : Z }.
Definition FaultStage : Z := 0.
Definition CorsStage : Z := 1.
Definition WafStage : Z := 2.
Definition AuthNStage : Z := 3.
Definition AuthZStage : Z := 4.
Definition RateLimitStage : Z := 5.
Definition AcceptedStage : Z := 6.
Definition OutAuthStage : Z := 7.
Definition RouteStage : Z := 8.
Definition RelativeToStage (wellKnown weight : Z) : Stage := {| st_relativeTo := wellKnown; st_weight := weight |}.
Definition BeforeStage (wellKnown : Z) : Stage := RelativeToStage wellKnown (-1).
Definition DuringStage (wellKnown : Z) : Stage := RelativeToStage wellKnown 0.
Definition AfterStage (wellKnown : Z) : Stage := RelativeToStage wellKnown 1.
Definition FilterStageComparison (a b : Stage) : Z :=
  if (st_relativeTo a <? st_relativeTo b)%Z then -1
  else if (st_relativeTo b <? st_relativeTo a)%Z then 1
  else if (st_weight a <? st_weight b)%Z then -1
  else if (st_weight b <? st_weight a)%Z then 1
  else 0.
(** The stage and the predicate of the API; [FilterStage_Before] is 1, [FilterStage_After] 2. *)
Definition ConvertFilterStage (s : option FilterStage) : option Stage :=
  match s with
  | None => None
  | Some s =>
      let outStage := match fs_stage s with
        | 1%Z => CorsStage | 2%Z => WafStage | 3%Z => AuthNStage | 4%Z => AuthZStage | 5%Z => RateLimitStage
        | 6%Z => AcceptedStage | 7%Z => OutAuthStage | 8%Z => RouteStage | _ => FaultStage end in
      Some match fs_predicate s with 1%Z => BeforeStage outStage | 2%Z => AfterStage outStage | _ => DuringStage outStage end
  end.

Record StagedFilter (F : Type) := { sf_filter : F; sf_stage : Stage }.
Arguments sf_filter {F}.
Arguments sf_stage {F}.

(** The name and the typed configuration of a filter: the getters of [Filter]. *)
Class IsFilter (F : Type) := { GetName : F → string; GetTypeUrl : F → string; GetConfigValue : F → string }.
#[export] Instance HttpFilter_filter : IsFilter Lds.HttpFilter :=
  {| GetName := Lds.hf_name; GetTypeUrl f := from_option tc_typeUrl "" (Lds.hf_config f); GetConfigValue f := from_option tc_value "" (Lds.hf_config f) |}.
#[export] Instance option_filter {F} `{IsFilter F} : IsFilter (option F) :=
  {| GetName := from_option GetName ""; GetTypeUrl := from_option GetTypeUrl ""; GetConfigValue := from_option GetConfigValue "" |}.
(** Network filters that are sorted come from plugins and users: their configuration is opaque. *)
Definition filter_any (f : Lds.Filter) : option TypedConfig := match Lds.fl_config f with Lds.Filter_TypedConfig c => c | _ => None end.
#[export] Instance Filter_filter : IsFilter Lds.Filter :=
  {| GetName := Lds.fl_name; GetTypeUrl f := from_option tc_typeUrl "" (filter_any f); GetConfigValue f := from_option tc_value "" (filter_any f) |}.

(** [Less] on two filters, without the comparison of their indices that ends it. *)
Definition then_compare (c d : comparison) : comparison := match c with Eq => d | _ => c end.
Definition filter_compare {F} `{IsFilter F} (a b : StagedFilter F) : comparison :=
  then_compare (FilterStageComparison (sf_stage a) (sf_stage b) ?= 0)%Z
  (then_compare (String.compare (GetName (sf_filter a)) (GetName (sf_filter b)))
  (then_compare (String.compare (GetTypeUrl (sf_filter a)) (GetTypeUrl (sf_filter b)))
  (String.compare (GetConfigValue (sf_filter a)) (GetConfigValue (sf_filter b))))).
Definition filter_le {F} `{IsFilter F} (a b : StagedFilter F) : Prop := filter_compare a b ≠ Gt.

(** [sort.Sort] of a staged list: a permutation in that order. Filters that agree in all of
    it may come in any order. *)
Class SortFilters := {
  sort_Sort {F} `{IsFilter F} : list (StagedFilter F) → list (StagedFilter F);
  sort_Sort_perm {F} `{IsFilter F} (l : list (StagedFilter F)) : sort_Sort l ≡ₚ l;
  sort_Sort_sorted {F} `{IsFilter F} (l : list (StagedFilter F)) : StronglySorted filter_le (sort_Sort l)
}.

(** ** Custom filters

    The conversion of the stage is dereferenced: a filter without one panics. *)
Definition custom_filters {F} (make : CustomEnvoyFilter → F) (l : list CustomEnvoyFilter) : res (list (StagedFilter F)) :=
  foldr (λ c rest,
    match ConvertFilterStage (cf_stage c) with
    | None => Panic "nil pointer dereference"
    | Some stage => res_bind rest (λ rest, Ok ({| sf_filter := make c; sf_stage := stage |} :: rest))
    end) (Ok []) l.
Definition custom_network_filter (c : CustomEnvoyFilter) : Lds.Filter := {| Lds.fl_name := cf_name c; Lds.fl_config := Lds.Filter_TypedConfig (cf_config c) |}.
Definition custom_http_filter (c : CustomEnvoyFilter) : Lds.HttpFilter := {| Lds.hf_name := cf_name c; Lds.hf_config := cf_config c; Lds.hf_other := "" |}.
Definition CustomNetworkFiltersHTTP (l : HttpListener) : res (list (StagedFilter Lds.Filter)) := custom_filters custom_network_filter (hl_customNetworkFilters l).
Definition CustomNetworkFiltersTCP (l : TcpListener) : res (list (StagedFilter Lds.Filter)) := custom_filters custom_network_filter (tl_customNetworkFilters l).
Definition CustomHttpFilters (l : HttpListener) : res (list (StagedFilter Lds.HttpFilter)) := custom_filters custom_http_filter (hl_customHttpFilters l).

(** ** Marshalling to Any, outside the repository *)
Class AnyLibs := {
  (** of the router, and of the empty upstream codec *)
  router_to_any : Lds.Router → string + TypedConfig;
  upstream_codec : string + TypedConfig;
  (** the errors of the others *)
  hcm_error : Lds.Hcm → option string;
  tcp_error : Lds.TcpProxy → option string;
  sni_error : option string
}.

(** ** Plugins *)
Record NetworkFilterPlugin (PS : Type) := {
  NetworkFiltersHTTP : HttpListener → PS → list (StagedFilter (option Lds.Filter)) * option Err * PS;
  NetworkFiltersTCP : TcpListener → PS → list (StagedFilter (option Lds.Filter)) * option Err * PS }.
Arguments NetworkFiltersHTTP {PS}.
Arguments NetworkFiltersTCP {PS}.
Class FilterPlugins (PS : Type) := {
  GetNetworkFilterPlugins : list (NetworkFilterPlugin PS);
  GetHttpFilterPlugins : list (HttpListener → PS → list (StagedFilter (option Lds.HttpFilter)) * option Err * PS);
  GetUpstreamHttpFilterPlugins : list (HttpListener → PS → list (StagedFilter (option Lds.HttpFilter)) * option Err * PS);
  GetHttpConnectionManagerPlugins : list (Listener → HttpListener → Lds.Hcm → PS → option Err * Lds.Hcm * PS)
}.

(** Filters that are nil are dropped. *)
Definition present {F} (l : list (StagedFilter (option F))) : list (StagedFilter F) :=
  omap (λ s, (λ f, {| sf_filter := f; sf_stage := sf_stage s |}) <$> sf_filter s) l.

Section Translator.
Context `{AnyLibs} `{SortFilters} {PS : Type} `{!FilterPlugins PS} (settings : Settings) (snap : ApiSnapshot).

(** The report of an HTTP listener may be missing: appending to it then panics. *)
Definition update_report_ptr {R} (f : R → R) : M (option R * PS) unit := λ '(r, ps),
  match r with Some r => Ok (tt, (Some (f r), ps)) | None => Panic "nil pointer dereference" end.
Definition http_error (err : string) : M (option HttpListenerReport * PS) unit :=
  update_report_ptr (AppendHTTPListenerError HttpListenerReport_Error_ProcessingError err).
Definition http_opt_error (err : option Err) : M (option HttpListenerReport * PS) unit :=
  match err with Some err => http_error (er_message err) | None => ret tt end.

(** *** The HTTP connection manager *)
Definition DefaultHttpStatPrefix : string := "http".
Definition UpstreamCodeFilterName : string := "envoy.filters.http.upstream_codec".
Definition RouterName : string := "envoy.filters.http.router".
Definition HTTPConnectionManagerName : string := "envoy.filters.network.http_connection_manager".

Record HcmNetworkFilterTranslator := { ht_parentListener : Listener; ht_listener : HttpListener; ht_routeConfigName : string }.

Definition initializeHCM (h : HcmNetworkFilterTranslator) : Lds.Hcm :=
  {| Lds.hcm_statPrefix := if bool_decide (hl_statPrefix (ht_listener h) = "") then DefaultHttpStatPrefix else hl_statPrefix (ht_listener h);
     Lds.hcm_routeConfigName := ht_routeConfigName h; Lds.hcm_httpFilters := []; Lds.hcm_other := "" |}.

Definition plugin_filters {F} (plugins : list (HttpListener → PS → list (StagedFilter F) * option Err * PS)) (l : HttpListener) :
    M (option HttpListenerReport * PS) (list (StagedFilter F)) :=
  fold_range 0 plugins [] (λ _ plugin filters,
    let! (stagedFilters, err) <~ on_plugins (plugin l) ;;
    do! http_opt_error err ;;
    ret (filters ++ stagedFilters)).

(** The filters upstream of the router, and the error that keeps the router without them. *)
Definition computeUpstreamHTTPFilters (h : HcmNetworkFilterTranslator) : M (option HttpListenerReport * PS) (list (option Lds.HttpFilter)) :=
  upstreamHttpFilters <~ plugin_filters GetUpstreamHttpFilterPlugins (ht_listener h) ;;
  match upstream_codec with
  | inl err => do! http_error err ;; ret []
  | inr msg =>
      ret match upstreamHttpFilters with
      | [] => []
      | _ => map sf_filter (sort_Sort upstreamHttpFilters) ++ [Some {| Lds.hf_name := UpstreamCodeFilterName; Lds.hf_config := Some msg; Lds.hf_other := "" |}]
      end
  end.
(** The router, as a filter: nil when it cannot be marshalled. *)
Definition router_filter (r : Lds.Router) : M (option HttpListenerReport * PS) (option Lds.HttpFilter) :=
  match router_to_any r with
  | inl err => do! http_error err ;; ret None
  | inr c => ret (Some {| Lds.hf_name := RouterName; Lds.hf_config := Some c; Lds.hf_other := "" |})
  end.
Definition computeHttpFilters (h : HcmNetworkFilterTranslator) : M (option HttpListenerReport * PS) (list (option Lds.HttpFilter)) :=
  httpFilters <~ plugin_filters GetHttpFilterPlugins (ht_listener h) ;;
  custom <~ lift_res (CustomHttpFilters (ht_listener h)) ;;
  let envoyHttpFilters := map sf_filter (sort_Sort (present httpFilters ++ custom)) in
  upstream <~ computeUpstreamHTTPFilters h ;;
  let options := hl_options (ht_listener h) in
  router <~ router_filter {| Lds.rt_suppressEnvoyHeaders := ho_suppressEnvoyHeaders options; Lds.rt_dynamicStats := ho_dynamicStats options;
                             Lds.rt_upstreamHttpFilters := upstream |} ;;
  ret (map Some envoyHttpFilters ++ [router]).

Definition with_httpFilters (l : list (option Lds.HttpFilter)) (c : Lds.Hcm) : Lds.Hcm :=
  {| Lds.hcm_statPrefix := Lds.hcm_statPrefix c; Lds.hcm_routeConfigName := Lds.hcm_routeConfigName c; Lds.hcm_httpFilters := l; Lds.hcm_other := Lds.hcm_other c |}.
Definition hcm_ComputeNetworkFilter (h : HcmNetworkFilterTranslator) : M (option HttpListenerReport * PS) (Err + Lds.Filter) :=
  httpFilters <~ computeHttpFilters h ;;
  hcm <~ fold_range 0 GetHttpConnectionManagerPlugins (with_httpFilters httpFilters (initializeHCM h)) (λ _ plugin hcm,
    let! (err, hcm) <~ on_plugins (plugin (ht_parentListener h) (ht_listener h) hcm) ;;
    do! http_opt_error err ;;
    ret hcm) ;;
  match hcm_error hcm with
  | Some err => ret (inl (New ("failed to convert proto message to struct: " +:+ err)))
  | None => ret (inr {| Lds.fl_name := HTTPConnectionManagerName; Lds.fl_config := Lds.Filter_Hcm hcm |})
  end.

(** *** The network filters of an HTTP listener *)
Definition computePreHCMFilters (l : HttpListener) : M (option HttpListenerReport * PS) (list (StagedFilter Lds.Filter)) :=
  networkFilters <~ plugin_filters (map NetworkFiltersHTTP GetNetworkFilterPlugins) l ;;
  custom <~ lift_res (CustomNetworkFiltersHTTP l) ;;
  ret (present networkFilters ++ custom).

(** An auth config that does not exist is an error of the virtual host. *)
Context (ResourceRef_String : NamespacedName → string).
Definition virtual_host_error (i : nat) (reason : string) : M (option HttpListenerReport * PS) unit := λ '(r, ps),
  match r ≫= λ r, hr_virtualHostReports r !! i with
  | None => Panic "index out of range"
  | Some vr => Ok (tt, (option_map (λ r, with_vhostReports (<[i := AppendVirtualHostError VirtualHostReport_Error_ProcessingError reason vr]> (hr_virtualHostReports r)) r) r, ps))
  end.
Definition check_auth_configs (l : HttpListener) : M (option HttpListenerReport * PS) unit :=
  fold_range 0 (hl_virtualHosts l) tt (λ i vHost _,
    match vh_configRef vHost with
    | None => ret tt
    | Some acRef => match Find id (sn_authConfigs snap) acRef with
        | Some _ => ret tt
        | None => virtual_host_error i ("auth config not found: " +:+ ResourceRef_String acRef)
        end
    end).

Definition sortNetworkFilters (filters : list (StagedFilter Lds.Filter)) : list Lds.Filter := map sf_filter (sort_Sort filters).
Definition http_ComputeNetworkFilters (h : HcmNetworkFilterTranslator) : M (option HttpListenerReport * PS) (Err + list Lds.Filter) :=
  let listener := ht_listener h in
  if negb (se_translateEmptyGateways settings) && bool_decide (length (hl_virtualHosts listener) = 0) then ret (inr [])
  else
    do! check_auth_configs listener ;;
    pre <~ computePreHCMFilters listener ;;
    networkFilter <~ hcm_ComputeNetworkFilter h ;;
    match networkFilter with
    | inl err => ret (inl err)
    | inr networkFilter => ret (inr (sortNetworkFilters pre ++ [networkFilter]))
    end.
End Translator.
