(* ===== verification/EnvoySsl.v ===== *)
(** * Filter chains of an Envoy listener

    gloo/pkg/translator/ssl_configuration.go and filter_chain.go: an HTTP listener has one
    filter chain per TLS configuration, once those that only differ in their SNI domains are
    merged; the chains of a TCP listener come from plugins and are prefixed with its network
    filters. A chain is matched by SNI, source and destination ranges, and port. *)

From stdpp Require Import base gmap strings list sorting.
From Stdlib Require Import ZArith Ascii.
From S2P Require Import Prelude GoLib GwApi EdgeApi ProxyReports GlooProxy EnvoyRoutes Ssl EnvoyFilters.
Import Validation Gloo.

(** ** Envoy's filter chains *)
Module Chain.
(** [fm_other]: the fields this code does not set. *)
Record FilterChainMatch := {
  fm_serverNames : list string; fm_prefixRanges : list CidrRange; fm_sourcePrefixRanges : list CidrRange;
  fm_destinationPort : option Z; fm_other : string }.
Definition empty_match : FilterChainMatch :=
  {| fm_serverNames := []; fm_prefixRanges := []; fm_sourcePrefixRanges := []; fm_destinationPort := None; fm_other := "" |}.
Record FilterChain := {
  fc_name : string; fc_match : option FilterChainMatch; fc_filters : list Lds.Filter;
  fc_transportSocket : option Tls.DownstreamTlsContext; fc_connectTimeout : option string; fc_other : string }.
(** [plugins.ExtendedFilterChain] *)
Record ExtendedFilterChain := { xf_chain : FilterChain; xf_passthroughCipherSuites : list string; xf_terminatingCipherSuites : list string }.

Definition with_match (m : option FilterChainMatch) (c : FilterChain) : FilterChain :=
  {| fc_name := fc_name c; fc_match := m; fc_filters := fc_filters c; fc_transportSocket := fc_transportSocket c;
     fc_connectTimeout := fc_connectTimeout c; fc_other := fc_other c |}.
Definition with_filters (l : list Lds.Filter) (c : FilterChain) : FilterChain :=
  {| fc_name := fc_name c; fc_match := fc_match c; fc_filters := l; fc_transportSocket := fc_transportSocket c;
     fc_connectTimeout := fc_connectTimeout c; fc_other := fc_other c |}.
(** [ensureMatch], then a change of the match. *)
Definition map_match (f : FilterChainMatch → FilterChainMatch) (c : FilterChain) : FilterChain := with_match (Some (f (default empty_match (fc_match c)))) c.
Definition map_chain (f : FilterChain → FilterChain) (x : ExtendedFilterChain) : ExtendedFilterChain :=
  {| xf_chain := f (xf_chain x); xf_passthroughCipherSuites := xf_passthroughCipherSuites x; xf_terminatingCipherSuites := xf_terminatingCipherSuites x |}.
Definition with_serverNames (l : list string) (m : FilterChainMatch) : FilterChainMatch :=
  {| fm_serverNames := l; fm_prefixRanges := fm_prefixRanges m; fm_sourcePrefixRanges := fm_sourcePrefixRanges m; fm_destinationPort := fm_destinationPort m; fm_other := fm_other m |}.
Definition with_sourcePrefixRanges (l : list CidrRange) (m : FilterChainMatch) : FilterChainMatch :=
  {| fm_serverNames := fm_serverNames m; fm_prefixRanges := fm_prefixRanges m; fm_sourcePrefixRanges := l; fm_destinationPort := fm_destinationPort m; fm_other := fm_other m |}.
Definition with_prefixRanges (l : list CidrRange) (m : FilterChainMatch) : FilterChainMatch :=
  {| fm_serverNames := fm_serverNames m; fm_prefixRanges := l; fm_sourcePrefixRanges := fm_sourcePrefixRanges m; fm_destinationPort := fm_destinationPort m; fm_other := fm_other m |}.
Definition with_destinationPort (p : Z) (m : FilterChainMatch) : FilterChainMatch :=
  {| fm_serverNames := fm_serverNames m; fm_prefixRanges := fm_prefixRanges m; fm_sourcePrefixRanges := fm_sourcePrefixRanges m; fm_destinationPort := Some p; fm_other := fm_other m |}.
End Chain.
#[export] Instance CidrRange_eq_dec : EqDecision CidrRange.
Proof. solve_decision. Defined.
#[export] Instance FilterChainMatch_eq_dec : EqDecision Chain.FilterChainMatch.
Proof. solve_decision. Defined.

(** ** Merging TLS configurations *)
(** The generated hash of a TLS configuration. *)
Class SslHash := hash_sslConfig : SslConfig → N.
Definition with_sniDomains (l : list string) (c : SslConfig) : SslConfig :=
  {| ss_sslSecrets := ss_sslSecrets c; ss_sniDomains := l; ss_verifySubjectAltName := ss_verifySubjectAltName c; ss_parameters := ss_parameters c;
     ss_alpnProtocols := ss_alpnProtocols c; ss_oneWayTls := ss_oneWayTls c; ss_disableTlsSessionResumption := ss_disableTlsSessionResumption c;
     ss_transportSocketConnectTimeout := ss_transportSocketConnectTimeout c; ss_ocspStaplePolicy := ss_ocspStaplePolicy c |}.
(** [values] and the new values that are not among them: a repeated new value is repeated. *)
Definition merge (values newValues : list string) : list string := values ++ List.filter (λ v, negb (bool_decide (v ∈ values))) newValues.

Section Consolidate.
Context `{SslHash}.
(** The key: the hash without the SNI domains. The map is the list of results, which has one
    configuration per key. *)
Definition ssl_key (c : SslConfig) : N := hash_sslConfig (with_sniDomains [] c).
Definition merge_sni (matchingCfg sslConfig : SslConfig) : SslConfig :=
  if bool_decide (ss_sniDomains matchingCfg = []) || bool_decide (ss_sniDomains sslConfig = []) then with_sniDomains [] matchingCfg
  else with_sniDomains (merge (ss_sniDomains matchingCfg) (ss_sniDomains sslConfig)) matchingCfg.
Fixpoint consolidate_one (sslConfig : SslConfig) (result : list SslConfig) : list SslConfig :=
  match result with
  | [] => [sslConfig]
  | c :: result => if bool_decide (ssl_key c = ssl_key sslConfig) then merge_sni c sslConfig :: result else c :: consolidate_one sslConfig result
  end.
Definition ConsolidateSslConfigurations (sslConfigurations : list (option SslConfig)) : list SslConfig :=
  fold_left (λ result c, match c with None => result | Some c => consolidate_one c result end) sslConfigurations [].
End Consolidate.

(** A field of [dst] that is empty takes the value of [src]. *)
Definition or_list {A} (dst src : list A) : list A := match dst with [] => src | _ => dst end.
Definition or_opt {A} (dst src : option A) : option A := match dst with None => src | _ => dst end.
Definition MergeSslConfig (dst src : SslConfig) : SslConfig :=
  {| ss_sslSecrets := or_opt (ss_sslSecrets dst) (ss_sslSecrets src); ss_sniDomains := or_list (ss_sniDomains dst) (ss_sniDomains src);
     ss_verifySubjectAltName := or_list (ss_verifySubjectAltName dst) (ss_verifySubjectAltName src);
     ss_parameters := or_opt (ss_parameters dst) (ss_parameters src); ss_alpnProtocols := or_list (ss_alpnProtocols dst) (ss_alpnProtocols src);
     ss_oneWayTls := or_opt (ss_oneWayTls dst) (ss_oneWayTls src);
     ss_disableTlsSessionResumption := or_opt (ss_disableTlsSessionResumption dst) (ss_disableTlsSessionResumption src);
     ss_transportSocketConnectTimeout := or_opt (ss_transportSocketConnectTimeout dst) (ss_transportSocketConnectTimeout src);
     ss_ocspStaplePolicy := if bool_decide (ss_ocspStaplePolicy dst = 0%Z) then ss_ocspStaplePolicy src else ss_ocspStaplePolicy dst |}.
