(* ===== verification/EnvoyListeners.v ===== *)
(** * Envoy listeners

    gloo/pkg/translator/filter_chain.go, listener.go and listener_subsystem.go: the filter
    chains of HTTP and TCP listeners, the Envoy listener made of them, and how each type of
    listener (HTTP, TCP, hybrid, aggregate) is put together from them and from the
    translators of route configurations. State: the report of the listener and the plugins'
    ([M (ListenerReport * PS)]); the reports of its parts are found in it by key. *)

From stdpp Require Import base gmap strings list sorting pretty.
From Stdlib Require Import ZArith Ascii.
From S2P Require Import Prelude GoLib GwApi EdgeApi ProxyReports GlooProxy EnvoyRoutes Ssl EnvoyFilters EnvoySsl.
Import Validation Gloo.

(** ** Reports of the parts of a listener *)
Inductive ReportKey := Key_Http | Key_Tcp | Key_Matched (name : string) | Key_AggregateHttp (name : string) | Key_AggregateTcp (name : string).
Definition GetHttpReport (k : ReportKey) (r : ListenerReport) : option HttpListenerReport :=
  match k, lr_type r with
  | Key_Http, Some (ListenerReport_HttpListenerReport h) => Some h
  | Key_Matched name, Some (ListenerReport_HybridListenerReport m) => m !! name ≫= matched_http
  | Key_AggregateHttp name, Some (ListenerReport_AggregateListenerReport a) => ar_httpListenerReports a !! name
  | _, _ => None
  end.
Definition GetTcpReport (k : ReportKey) (r : ListenerReport) : option TcpListenerReport :=
  match k, lr_type r with
  | Key_Tcp, Some (ListenerReport_TcpListenerReport t) => Some t
  | Key_Matched name, Some (ListenerReport_HybridListenerReport m) => m !! name ≫= matched_tcp
  | Key_AggregateTcp name, Some (ListenerReport_AggregateListenerReport a) => ar_tcpListenerReports a !! name
  | _, _ => None
  end.
Definition with_type (t : ListenerTypeReport) (r : ListenerReport) : ListenerReport :=
  {| lr_errors := lr_errors r; lr_warnings := lr_warnings r; lr_type := Some t |}.
Definition SetHttpReport (k : ReportKey) (h : HttpListenerReport) (r : ListenerReport) : ListenerReport :=
  match k, lr_type r with
  | Key_Http, Some (ListenerReport_HttpListenerReport _) => with_type (ListenerReport_HttpListenerReport h) r
  | Key_Matched name, Some (ListenerReport_HybridListenerReport m) =>
      with_type (ListenerReport_HybridListenerReport (<[name := MatchedListenerReport_HttpListenerReport h]> m)) r
  | Key_AggregateHttp name, Some (ListenerReport_AggregateListenerReport a) =>
      with_type (ListenerReport_AggregateListenerReport
        {| ar_httpListenerReports := <[name := h]> (ar_httpListenerReports a); ar_tcpListenerReports := ar_tcpListenerReports a |}) r
  | _, _ => r
  end.
Definition SetTcpReport (k : ReportKey) (t : TcpListenerReport) (r : ListenerReport) : ListenerReport :=
  match k, lr_type r with
  | Key_Tcp, Some (ListenerReport_TcpListenerReport _) => with_type (ListenerReport_TcpListenerReport t) r
  | Key_Matched name, Some (ListenerReport_HybridListenerReport m) =>
      with_type (ListenerReport_HybridListenerReport (<[name := MatchedListenerReport_TcpListenerReport t]> m)) r
  | Key_AggregateTcp name, Some (ListenerReport_AggregateListenerReport a) =>
      with_type (ListenerReport_AggregateListenerReport
        {| ar_httpListenerReports := ar_httpListenerReports a; ar_tcpListenerReports := <[name := t]> (ar_tcpListenerReports a) |}) r
  | _, _ => r
  end.
(** A computation on a report of a part, nil when there is none. *)
Definition on_report {R PS A} (get : ListenerReport → option R) (set : R → ListenerReport → ListenerReport) (m : M (option R * PS) A) :
    M (ListenerReport * PS) A := λ '(r, ps),
  match m (get r, ps) with
  | Ok (a, (Some h, ps)) => Ok (a, (set h r, ps))
  | Ok (a, (None, ps)) => Ok (a, (r, ps))
  | Panic why => Panic why
  | OutOfFuel => OutOfFuel
  end.
Definition on_http {PS A} (k : ReportKey) : M (option HttpListenerReport * PS) A → M (ListenerReport * PS) A := on_report (GetHttpReport k) (SetHttpReport k).
Definition on_tcp {PS A} (k : ReportKey) : M (option TcpListenerReport * PS) A → M (ListenerReport * PS) A := on_report (GetTcpReport k) (SetTcpReport k).
(** Route configurations read a missing report as an empty one; writing to its parts panics. *)
Definition on_empty {PS A} (m : M (HttpListenerReport * PS) A) : M (option HttpListenerReport * PS) A := λ '(r, ps),
  match m (default {| hr_errors := []; hr_virtualHostReports := [] |} r, ps) with
  | Ok (a, (h, ps)) => Ok (a, (option_map (λ _, h) r, ps))
  | Panic why => Panic why
  | OutOfFuel => OutOfFuel
  end.

(** ** Addresses: [net.ParseIP] (as [netip.ParseAddr] without a zone), [To4] *)
Definition digit (a : ascii) : option Z := let n := nat_of_ascii a in if (48 <=? n) && (n <=? 57) then Some (Z.of_nat n - 48)%Z else None.
Definition hex_digit (a : ascii) : option Z :=
  let n := nat_of_ascii a in
  if (48 <=? n) && (n <=? 57) then Some (Z.of_nat n - 48)%Z
  else if (65 <=? n) && (n <=? 70) then Some (Z.of_nat n - 55)%Z
  else if (97 <=? n) && (n <=? 102) then Some (Z.of_nat n - 87)%Z else None.
Fixpoint number (digit : ascii → option Z) (base acc : Z) (s : string) : option Z :=
  match s with EmptyString => Some acc | String a s => match digit a with Some d => number digit base (acc * base + d) s | None => None end end.
Fixpoint split_char (c : ascii) (s : string) : list string :=
  match s with
  | EmptyString => [""]
  | String a s => if bool_decide (a = c) then "" :: split_char c s
                  else match split_char c s with x :: l => String a x :: l | [] => [String a ""] end
  end.
(** Decimal, at most 255, no leading zero. *)
Definition octet (s : string) : option Z :=
  match s with
  | EmptyString => None
  | String "0" (String _ _) => None
  | _ => match number digit 10 0 s with Some n => if (n <=? 255)%Z then Some n else None | None => None end
  end.
Definition parseIPv4 (s : string) : option (list Z) :=
  match mapM octet (split_char "." s) with Some [a; b; c; d] => Some [a * 256 + b; c * 256 + d]%Z | _ => None end.
Definition hex_group (s : string) : option Z := if bool_decide (s = "") || (4 <? String.length s) then None else number hex_digit 16 0 s.
(** The 16-bit groups of the fields; an IPv4 address may be the last field of the address. *)
Fixpoint hex_groups (v4 : bool) (fields : list string) : option (list Z) :=
  match fields with
  | [] => Some []
  | [s] => match hex_group s with Some g => Some [g] | None => if v4 then parseIPv4 s else None end
  | s :: fields => match hex_group s, hex_groups v4 fields with Some g, Some l => Some (g :: l) | _, _ => None end
  end.
(** What is before and after the first "::". *)
Fixpoint cut_ellipsis (s : string) : option (string * string) :=
  match s with
  | String ":" (String ":" t) => Some ("", t)
  | String a s => match cut_ellipsis s with Some (l, r) => Some (String a l, r) | None => None end
  | EmptyString => None
  end.
Definition fields_of (s : string) : list string := if bool_decide (s = "") then [] else split_char ":" s.
Definition parseIPv6 (s : string) : option (list Z) :=
  match cut_ellipsis s with
  | None => match hex_groups true (split_char ":" s) with Some l => if length l =? 8 then Some l else None | None => None end
  | Some (before, after) =>
      match hex_groups false (fields_of before), hex_groups true (fields_of after) with
      | Some l, Some r => if length l + length r <? 8 then Some (l ++ repeat 0%Z (8 - length l - length r) ++ r) else None
      | _, _ => None
      end
  end.
Fixpoint first_separator (s : string) : option ascii :=
  match s with
  | EmptyString => None
  | String a s => if bool_decide (a = "."%char) || bool_decide (a = ":"%char) || bool_decide (a = "%"%char) then Some a else first_separator s
  end.
Definition net_ParseIP (s : string) : option (list Z) :=
  match first_separator s with
  | Some "."%char => match parseIPv4 s with Some l => Some (repeat 0%Z 5 ++ [65535%Z] ++ l) | None => None end
  | Some ":"%char => parseIPv6 s
  | _ => None
  end.
Definition To4_nil (ip : list Z) : bool := negb (bool_decide (take 6 ip = repeat 0%Z 5 ++ [65535%Z])).

Fixpoint isPureIPv4Address (s : string) : bool :=
  match s with EmptyString => false | String a s => if bool_decide (a = "."%char) then true else if bool_decide (a = ":"%char) then false else isPureIPv4Address s end.
(** Valid IPv4, strict IPv4, error. *)
Definition IsIpv4Address (bindAddress : string) : bool * bool * option string :=
  match net_ParseIP bindAddress with
  | None => (false, false, Some ("bindAddress " +:+ bindAddress +:+ " is not a valid IP address"))
  | Some bindIP => if To4_nil bindIP then (false, false, None) else (true, isPureIPv4Address bindAddress, None)
  end.

(** ** Errors of TCP filter chains

    What the translation reads of one: its text, and when it is an [ErrorWithKnownLevel]
    its level, the TCP host, and whether it wraps a [DestinationNotFoundError]. *)
Inductive ErrorLevel := ErrorLevels_WARNING | ErrorLevels_ERROR | ErrorLevels_Other.
Record KnownLevel := { kl_level : ErrorLevel; kl_hostNum : option nat; kl_destinationNotFound : bool }.
Record TcpError := { te_message : string; te_known : option KnownLevel }.

(** ** The Envoy listener *)
Record EnvoyListener := {
  ln_name : string; ln_address : string; ln_port : Z; ln_ipv4Compat : bool; ln_filterChains : list Chain.FilterChain;
  (** whether it has a filter chain matcher *)
  ln_filterChainMatcher : bool; ln_other : string }.

(** ** Plugins and parameters *)
Record ListenerPlugin (PS : Type) := {
  ProcessFilterChain : option (Listener → list Chain.ExtendedFilterChain → EnvoyListener → PS → option Err * EnvoyListener * PS);
  ProcessListener : Listener → EnvoyListener → PS → option Err * EnvoyListener * PS }.
Arguments ProcessFilterChain {PS}.
Arguments ProcessListener {PS}.
Class ListenerPlugins (PS : Type) := {
  GetListenerPlugins : list (ListenerPlugin PS);
  (** an error is the list of what a multierror wraps *)
  GetTcpFilterChainPlugins : list (Listener → TcpListener → PS → list Chain.FilterChain * list TcpError * PS)
}.
(** The capacity of a slice after that many appends to nil, which the language leaves open. *)
Class SliceGrowth := { append_cap : nat → nat; append_cap_nil : append_cap 0 = 0; append_cap_enough n : n ≤ append_cap n }.
Class ListenerLibs := {
  (** the generated hash of a matcher *)
  hash_matcher : Matcher → N;
  (** the error of marshalling a TLS context *)
  tls_error : Tls.DownstreamTlsContext → option string;
  (** a filter chain match as protobuf prints it *)
  FilterChainMatch_String : option Chain.FilterChainMatch → string
}.

(** ** Slices that share an array

    [append(networkFilters, own...)], once per filter chain: when the network filters have
    room for the chain's own filters, these are written in the array behind them, which all
    such chains share. The filters of each chain once every append is done: *)
Definition shared_tail (spare : nat) (own : list (list Lds.Filter)) : list Lds.Filter :=
  fold_left (λ tail fs, if length fs <=? spare then fs ++ drop (length fs) tail else tail) own [].
Definition appended_filters (networkFilters : list Lds.Filter) (spare : nat) (own : list (list Lds.Filter)) : list (list Lds.Filter) :=
  map (λ fs, networkFilters ++ if length fs <=? spare then take (length fs) (shared_tail spare own) else fs) own.

Section Translator.
Context `{SslLibs} `{SslHash} `{AnyLibs} `{SortFilters} `{SliceGrowth} `{ListenerLibs} `{RouteLibs}.
Context {PS : Type} `{!FilterPlugins PS} `{!ListenerPlugins PS} `{!RouteConfigPlugins PS} `{!GoRange string}.
Context `{!GoRange Z} (settings : Settings) (snap : ApiSnapshot).

Definition RouteConfigName (listener : Listener) : string := li_name listener +:+ "-routes".
Definition MatchedRouteConfigName (listener : Listener) (matcher : option Matcher) : string :=
  match matcher with None => RouteConfigName listener | Some m => RouteConfigName listener +:+ "-" +:+ pretty (hash_matcher m) end.

(** *** Matching filter chains *)
Definition applySourcePrefixRanges (l : list CidrRange) (c : Chain.ExtendedFilterChain) : Chain.ExtendedFilterChain :=
  match l with [] => c | _ => Chain.map_chain (Chain.map_match (Chain.with_sourcePrefixRanges l)) c end.
Definition applyDestinationPrefixRanges (l : list CidrRange) (c : Chain.ExtendedFilterChain) : Chain.ExtendedFilterChain :=
  match l with [] => c | _ => Chain.map_chain (Chain.map_match (Chain.with_prefixRanges l)) c end.
Definition applyDestinationPort (destPort : Z) (c : Chain.ExtendedFilterChain) : Chain.ExtendedFilterChain :=
  if (0 <? destPort)%Z then Chain.map_chain (Chain.map_match (Chain.with_destinationPort destPort)) c else c.
Definition apply_ranges (sourcePrefixRanges prefixRanges : list CidrRange) (destinationPort : Z) (c : Chain.ExtendedFilterChain) : Chain.ExtendedFilterChain :=
  applyDestinationPort destinationPort (applyDestinationPrefixRanges prefixRanges (applySourcePrefixRanges sourcePrefixRanges c)).

(** *** HTTP filter chains *)
Record HttpFilterChainTranslator := {
  hc_networkFilterTranslator : HcmNetworkFilterTranslator; hc_report : ReportKey; hc_sslConfigurations : list (option SslConfig);
  hc_defaultSslConfig : option SslConfig; hc_prefixRanges : list CidrRange; hc_sourcePrefixRanges : list CidrRange; hc_destinationPort : Z }.

Definition getSslConfigurationWithDefaults (h : HttpFilterChainTranslator) : list SslConfig :=
  let merged := ConsolidateSslConfigurations (hc_sslConfigurations h) in
  match hc_defaultSslConfig h with None => merged | Some d => map (λ c, MergeSslConfig c d) merged end.
Definition newSslFilterChain (downstreamTlsContext : Tls.DownstreamTlsContext) (sniDomains : list string) (listenerFilters : list Lds.Filter) (timeout : option string) :
    string + Chain.FilterChain :=
  match tls_error downstreamTlsContext with
  | Some err => inl err
  | None => inr {| Chain.fc_name := ""; Chain.fc_match := Some (Chain.with_serverNames sniDomains Chain.empty_match); Chain.fc_filters := listenerFilters;
                   Chain.fc_transportSocket := Some downstreamTlsContext; Chain.fc_connectTimeout := timeout; Chain.fc_other := "" |}
  end.
Definition insecure_chain (filters : list Lds.Filter) : Chain.FilterChain :=
  {| Chain.fc_name := ""; Chain.fc_match := None; Chain.fc_filters := filters; Chain.fc_transportSocket := None; Chain.fc_connectTimeout := None; Chain.fc_other := "" |}.
Definition listener_error (t : ListenerReport_Error_Type) (reason : string) : M (ListenerReport * PS) unit := update_report (AppendListenerError t reason).
Definition createFilterChainsFromSslConfiguration (networkFilters : list Lds.Filter) (sslConfigurations : list SslConfig) :
    M (ListenerReport * PS) (list Chain.ExtendedFilterChain) :=
  match sslConfigurations with
  | [] => ret [{| Chain.xf_chain := insecure_chain networkFilters; Chain.xf_passthroughCipherSuites := []; Chain.xf_terminatingCipherSuites := [] |}]
  | _ =>
      fold_range 0 sslConfigurations [] (λ _ sslConfig secureFilterChains,
        match ResolveDownstreamSslConfig (sn_secrets snap) sslConfig with
        | inl err =>
            do! (if se_warnMissingTlsSecret settings && is_SslSecretNotFoundError err
                 then update_report (AppendListenerWarning ListenerReport_Warning_SSLConfigWarning (ssl_message err))
                 else listener_error ListenerReport_Error_SSLConfigError (ssl_message err)) ;;
            ret secureFilterChains
        | inr downstreamTlsContext =>
            match newSslFilterChain downstreamTlsContext (ss_sniDomains sslConfig) networkFilters (ss_transportSocketConnectTimeout sslConfig) with
            | inl err => do! listener_error ListenerReport_Error_SSLConfigError err ;; ret secureFilterChains
            | inr filterChain => ret (secureFilterChains ++ [{| Chain.xf_chain := filterChain; Chain.xf_passthroughCipherSuites := [];
                Chain.xf_terminatingCipherSuites := from_option sa_cipherSuites [] (ss_parameters sslConfig) |}])
            end
        end)
  end.
Definition http_ComputeFilterChains (h : HttpFilterChainTranslator) : M (ListenerReport * PS) (list Chain.ExtendedFilterChain) :=
  networkFilters <~ on_http (hc_report h) (http_ComputeNetworkFilters settings snap ResourceRef_String (hc_networkFilterTranslator h)) ;;
  match networkFilters with
  | inl _ | inr [] => ret []
  | inr networkFilters =>
      extFilters <~ createFilterChainsFromSslConfiguration networkFilters (getSslConfigurationWithDefaults h) ;;
      ret (map (apply_ranges (hc_sourcePrefixRanges h) (hc_prefixRanges h) (hc_destinationPort h)) extFilters)
  end.

(** *** TCP filter chains *)
Record TcpFilterChainTranslator := {
  tt_parentListener : Listener; tt_listener : TcpListener; tt_report : ReportKey; tt_defaultSslConfig : option SslConfig;
  tt_prefixRanges : list CidrRange; tt_sourcePrefixRanges : list CidrRange; tt_passthroughCipherSuites : list string; tt_destinationPort : Z }.

Definition tcp_error_report (reason : string) : M (option TcpListenerReport * PS) unit :=
  update_report_ptr (AppendTCPListenerError TcpListenerReport_Error_ProcessingError reason).
Definition tcp_host_warning (i : nat) (t : TcpHostReport_Warning_Type) (reason : string) : M (option TcpListenerReport * PS) unit := λ '(r, ps),
  match r with
  | Some r => match tlr_tcpHostReports r !! i with
      | Some hr => Ok (tt, (Some {| tlr_errors := tlr_errors r; tlr_tcpHostReports := <[i := AppendTcpHostWarning t reason hr]> (tlr_tcpHostReports r) |}, ps))
      | None => Panic "index out of range"
      end
  | None => Panic "index out of range"
  end.
(** An error that has no known level is reported through the variable that has not been set. *)
Definition reportError (t : TcpFilterChainTranslator) (err : TcpError) : M (option TcpListenerReport * PS) unit :=
  let reason := "listener " +:+ li_name (tt_parentListener t) +:+ ": " +:+ te_message err in
  match te_known err with
  | None => panic "nil pointer dereference"
  | Some known =>
      match kl_level known, kl_hostNum known with
      | ErrorLevels_WARNING, Some i =>
          tcp_host_warning i (if kl_destinationNotFound known then TcpHostReport_Warning_InvalidDestinationWarning else TcpHostReport_Warning_UnknownWarning) reason
      | ErrorLevels_WARNING, None | ErrorLevels_ERROR, _ => tcp_error_report reason
      | ErrorLevels_Other, _ => ret tt
      end
  end.
Definition reportCreateTcpFilterChainsError (t : TcpFilterChainTranslator) (err : list TcpError) : M (option TcpListenerReport * PS) unit :=
  for_range err (reportError t).

Definition computeNetworkFilters (t : TcpFilterChainTranslator) : M (option TcpListenerReport * PS) (list (StagedFilter Lds.Filter)) :=
  networkFilters <~ fold_range 0 GetNetworkFilterPlugins [] (λ _ plug filters,
    let! (stagedFilters, err) <~ on_plugins (NetworkFiltersTCP plug (tt_listener t)) ;;
    do! match err with Some err => tcp_error_report (er_message err) | None => ret tt end ;;
    ret (filters ++ present stagedFilters)) ;;
  custom <~ lift_res (CustomNetworkFiltersTCP (tt_listener t)) ;;
  ret (networkFilters ++ custom).
Definition default_serverNames (d : option SslConfig) (c : Chain.FilterChain) : Chain.FilterChain :=
  match d with
  | None => c
  | Some d => Chain.map_match (λ m, match Chain.fm_serverNames m with [] => Chain.with_serverNames (ss_sniDomains d) m | _ => m end) c
  end.
Definition tcp_ComputeFilterChains (t : TcpFilterChainTranslator) : M (option TcpListenerReport * PS) (list Chain.ExtendedFilterChain) :=
  staged <~ computeNetworkFilters t ;;
  let networkFilters := sortNetworkFilters staged in
  filterChains <~ fold_range 0 GetTcpFilterChainPlugins [] (λ _ plug filterChains,
    let! (pluginFilterChains, err) <~ on_plugins (plug (tt_parentListener t) (tt_listener t)) ;;
    match err with
    | [] => ret (filterChains ++ map (default_serverNames (tt_defaultSslConfig t)) pluginFilterChains)
    | _ => do! reportCreateTcpFilterChainsError t err ;; ret filterChains
    end) ;;
  let spare := append_cap (length networkFilters) - length networkFilters in
  let filters := appended_filters networkFilters spare (map Chain.fc_filters filterChains) in
  ret (map (λ p, apply_ranges (tt_sourcePrefixRanges t) (tt_prefixRanges t) (tt_destinationPort t)
         {| Chain.xf_chain := Chain.with_filters p.2 p.1; Chain.xf_passthroughCipherSuites := tt_passthroughCipherSuites t; Chain.xf_terminatingCipherSuites := [] |})
       (zip filterChains filters)).

(** *** Listeners *)
Inductive FilterChainTranslator := FilterChains_Http (h : HttpFilterChainTranslator) | FilterChains_Tcp (t : TcpFilterChainTranslator).
Definition ComputeFilterChains (f : FilterChainTranslator) : M (ListenerReport * PS) (list Chain.ExtendedFilterChain) :=
  match f with
  | FilterChains_Http h => http_ComputeFilterChains h
  | FilterChains_Tcp t => on_tcp (tt_report t) (tcp_ComputeFilterChains t)
  end.
(** [multiFilterChainTranslator] *)
Definition multi_ComputeFilterChains (l : list FilterChainTranslator) : M (ListenerReport * PS) (list Chain.ExtendedFilterChain) :=
  fold_range 0 l [] (λ _ translator outFilterChains, newFilterChains <~ ComputeFilterChains translator ;; ret (outFilterChains ++ newFilterChains)).

Definition listener_opt_error (err : option Err) : M (ListenerReport * PS) unit :=
  match err with Some err => listener_error ListenerReport_Error_ProcessingError (er_message err) | None => ret tt end.
(** Each pair of filter chains once. *)
Definition CheckForFilterChainConsistency (filterChains : list Chain.FilterChain) (usingListenerLevelMatcher : bool) : M (ListenerReport * PS) unit :=
  fold_range 0 filterChains tt (λ idx1 filterChain _,
    do! (if usingListenerLevelMatcher && bool_decide (Chain.fc_name filterChain = "")
         then listener_error ListenerReport_Error_ProcessingError "Tried to make a filter chain without a name " else ret tt) ;;
    fold_range 0 filterChains tt (λ idx2 otherFilterChain _,
      if idx2 <=? idx1 then ret tt
      else if usingListenerLevelMatcher && bool_decide (Chain.fc_name filterChain = Chain.fc_name otherFilterChain) then
        listener_error ListenerReport_Error_NameNotUniqueError
          ("Tried to make a filter chain with the same name as another  FilterChain {" +:+ Chain.fc_name otherFilterChain +:+ "}")
      else if negb usingListenerLevelMatcher && bool_decide (Chain.fc_match filterChain = Chain.fc_match otherFilterChain) then
        listener_error ListenerReport_Error_SSLConfigError
          ("Tried to apply multiple filter chains with the same FilterChainMatch {" +:+ FilterChainMatch_String (Chain.fc_match filterChain) +:+
           "}. This is usually caused by overlapping sniDomains or multiple empty sniDomains in virtual services")
      else ret tt)).

Definition computeListenerAddress (listener : Listener) (filterChains : list Chain.FilterChain) : M (ListenerReport * PS) EnvoyListener :=
  let '(_, isIpv4Address, err) := IsIpv4Address (li_bindAddress listener) in
  do! match err with Some err => listener_error ListenerReport_Error_ProcessingError err | None => ret tt end ;;
  ret {| ln_name := li_name listener; ln_address := li_bindAddress listener; ln_port := li_bindPort listener; ln_ipv4Compat := negb isIpv4Address;
         ln_filterChains := filterChains; ln_filterChainMatcher := false; ln_other := "" |}.
Definition ComputeListener (listener : Listener) (filterChainTranslators : list FilterChainTranslator) : M (ListenerReport * PS) EnvoyListener :=
  extFilterChains <~ multi_ComputeFilterChains filterChainTranslators ;;
  out <~ computeListenerAddress listener (map Chain.xf_chain extFilterChains) ;;
  out <~ fold_range 0 GetListenerPlugins out (λ _ plug out,
    match ProcessFilterChain plug with
    | None => ret out
    | Some process =>
        let! (err, out) <~ on_plugins (process listener extFilterChains out) ;;
        do! listener_opt_error err ;;
        ret out
    end) ;;
  do! CheckForFilterChainConsistency (ln_filterChains out) (ln_filterChainMatcher out) ;;
  fold_range 0 GetListenerPlugins out (λ _ plug out,
    let! (err, out) <~ on_plugins (ProcessListener plug listener out) ;;
    do! listener_opt_error err ;;
    ret out).

(** The ports several listeners of the Proxy share; the message names them by index. *)
Definition listenersByPort (proxy : Proxy) : gmap Z (list nat) :=
  fold_left (λ m p, <[p.2 := default [] (m !! p.2) ++ [p.1]]> m) (imap (λ i l, (i, li_bindPort l)) (px_listeners proxy)) ∅.
Definition validateListenerPorts (proxy : Proxy) : M (ListenerReport * PS) unit :=
  for_range (go_range (listenersByPort proxy)) (λ '(port, listeners),
    if length listeners =? 1 then ret tt
    else listener_error ListenerReport_Error_BindPortNotUniqueError
           ("port " +:+ pretty port +:+ " is shared by listeners [" +:+ join " " (map itoa listeners) +:+ "]")).

(** *** The subsystem of a listener

    Of a route configuration: its translator and the report it writes to. *)
Record RouteConfigurationTranslator := { rt_translator : HttpRouteConfigurationTranslator; rt_report : ReportKey }.
Definition ComputeRouteConfiguration (l : list RouteConfigurationTranslator) : M (ListenerReport * PS) (list Envoy.RouteConfiguration) :=
  fold_range 0 l [] (λ _ t outRouteConfigs,
    newRouteConfigs <~ on_http (rt_report t) (on_empty (httpRouteConfigurationTranslator_ComputeRouteConfiguration settings snap (rt_translator t))) ;;
    ret (outRouteConfigs ++ newRouteConfigs)).

(** No translators, which the caller dereferences; nothing to do; or the two translators. *)
Inductive Translators :=
| Translators_nil
| Translators_empty
| Translators_of (filterChains : list FilterChainTranslator) (routeConfigurations : list RouteConfigurationTranslator).

Definition hcm_translator (listener : Listener) (l : HttpListener) (routeConfigName : string) : HcmNetworkFilterTranslator :=
  {| ht_parentListener := listener; ht_listener := l; ht_routeConfigName := routeConfigName |}.
Definition route_translator (proxy : Proxy) (listener : Listener) (l : HttpListener) (name : string) (requireTls : bool) : HttpRouteConfigurationTranslator :=
  {| h_proxy := proxy; h_translatorName := GetTranslatorValue (px_labels proxy); h_parentListener := listener; h_listener := l;
     h_routeConfigName := name; h_requireTlsOnVirtualHosts := requireTls |}.

Definition GetHttpListenerTranslators (proxy : Proxy) (listener : Listener) (l : HttpListener) : Translators :=
  let name := RouteConfigName listener in
  Translators_of
    [FilterChains_Http {| hc_networkFilterTranslator := hcm_translator listener l name; hc_report := Key_Http;
       hc_sslConfigurations := map Some (li_sslConfigurations listener); hc_defaultSslConfig := None; hc_prefixRanges := []; hc_sourcePrefixRanges := [];
       hc_destinationPort := 0 |}]
    [{| rt_translator := route_translator proxy listener l name (0 <? length (li_sslConfigurations listener)); rt_report := Key_Http |}].
Definition GetTcpListenerTranslators (listener : Listener) (l : TcpListener) : Translators :=
  Translators_of
    [FilterChains_Tcp {| tt_parentListener := listener; tt_listener := l; tt_report := Key_Tcp; tt_defaultSslConfig := None; tt_prefixRanges := [];
       tt_sourcePrefixRanges := []; tt_passthroughCipherSuites := []; tt_destinationPort := 0 |}] [].

(** The translator of a TCP listener with a matcher, of hybrid and aggregate listeners. *)
Definition matched_tcp_chains (listener : Listener) (l : TcpListener) (matcher : option Matcher) (report : ReportKey) : FilterChainTranslator :=
  let m := default empty_matcher matcher in
  FilterChains_Tcp {| tt_parentListener := listener; tt_listener := l; tt_report := report; tt_defaultSslConfig := mt_sslConfig m;
    tt_prefixRanges := mt_prefixRanges m; tt_sourcePrefixRanges := mt_sourcePrefixRanges m;
    tt_passthroughCipherSuites := mt_passthroughCipherSuites m; tt_destinationPort := default 0%Z (mt_destinationPort m) |}.
Definition is_some {A} (o : option A) : bool := match o with Some _ => true | None => false end.

Definition matched_translators (proxy : Proxy) (listener : Listener) (ml : MatchedListener) : list FilterChainTranslator * list RouteConfigurationTranslator :=
  let matcher := ml_matcher ml in
  let m := default empty_matcher matcher in
  let name := MatchedRouteConfigName listener matcher in
  match ml_type ml with
  | Some (MatchedListener_HttpListener l) =>
      ([FilterChains_Http {| hc_networkFilterTranslator := hcm_translator listener l name; hc_report := Key_Matched name;
          hc_sslConfigurations := map Some (ml_sslConfigurations ml); hc_defaultSslConfig := mt_sslConfig m; hc_prefixRanges := mt_prefixRanges m;
          hc_sourcePrefixRanges := mt_sourcePrefixRanges m; hc_destinationPort := default 0%Z (mt_destinationPort m) |}],
       [{| rt_translator := route_translator proxy listener l name (is_some (mt_sslConfig m)); rt_report := Key_Matched name |}])
  | Some (MatchedListener_TcpListener l) => ([matched_tcp_chains listener l matcher (Key_Matched name)], [])
  | None => ([], [])
  end.
Definition concat_translators (l : list (list FilterChainTranslator * list RouteConfigurationTranslator)) : Translators :=
  Translators_of (flat_map fst l) (flat_map snd l).
Definition GetHybridListenerTranslators (proxy : Proxy) (listener : Listener) (l : list MatchedListener) (report : ListenerReport) : Translators :=
  match lr_type report with
  | Some (ListenerReport_HybridListenerReport _) => concat_translators (map (matched_translators proxy listener) l)
  | _ => Translators_nil
  end.

(** A reference to a virtual host that does not exist is a nil one, which is read through its
    getters only: as an empty one (its empty name needs no sanitizing, so it is not written). *)
Definition zero_virtualHost : VirtualHost :=
  {| vh_name := ""; vh_domains := []; vh_routes := []; vh_options := ""; vh_configRef := None; vh_metadataStatic := None |}.
Definition chain_translators (proxy : Proxy) (listener : Listener) (a : AggregateListener) (fc : HttpFilterChain) :
    list FilterChainTranslator * list RouteConfigurationTranslator :=
  let m := default empty_matcher (fc_matcher fc) in
  let name := MatchedRouteConfigName listener (fc_matcher fc) in
  let vhosts := map (λ ref, al_virtualHosts a !! ref) (fc_virtualHostRefs fc) in
  let httpListener := {| hl_virtualHosts := map (default zero_virtualHost) vhosts; hl_options := default empty_options (al_httpOptions a !! fc_httpOptionsRef fc);
    hl_statPrefix := ""; hl_customHttpFilters := fc_customHttpFilters fc; hl_customNetworkFilters := fc_customNetworkFilters fc |} in
  ([FilterChains_Http {| hc_networkFilterTranslator := hcm_translator listener httpListener name; hc_report := Key_AggregateHttp name;
      hc_sslConfigurations := [mt_sslConfig m]; hc_defaultSslConfig := None; hc_prefixRanges := mt_prefixRanges m;
      hc_sourcePrefixRanges := mt_sourcePrefixRanges m; hc_destinationPort := default 0%Z (mt_destinationPort m) |}],
   [{| rt_translator := route_translator proxy listener httpListener name (is_some (mt_sslConfig m)); rt_report := Key_AggregateHttp name |}]).
Definition aggregate_tcp_translators (listener : Listener) (t : MatchedTcpListener) : list FilterChainTranslator * list RouteConfigurationTranslator :=
  match mtl_listener t with
  | None => ([], [])
  | Some l => ([matched_tcp_chains listener l (mtl_matcher t) (Key_AggregateTcp (MatchedRouteConfigName listener (mtl_matcher t)))], [])
  end.
Definition GetAggregateListenerTranslators (proxy : Proxy) (listener : Listener) (a : AggregateListener) (report : ListenerReport) : Translators :=
  match lr_type report with
  | Some (ListenerReport_AggregateListenerReport _) =>
      concat_translators (map (chain_translators proxy listener a) (al_httpFilterChains a) ++ map (aggregate_tcp_translators listener) (al_tcpListeners a))
  | _ => Translators_nil
  end.
Definition GetTranslators (proxy : Proxy) (listener : Listener) (report : ListenerReport) : Translators :=
  match li_type listener with
  | Some (Listener_HttpListener l) => GetHttpListenerTranslators proxy listener l
  | Some (Listener_TcpListener l) => GetTcpListenerTranslators listener l
  | Some (Listener_HybridListener l) => GetHybridListenerTranslators proxy listener l report
  | Some (Listener_AggregateListener a) => GetAggregateListenerTranslators proxy listener a report
  | None => Translators_empty
  end.
End Translator.
