(* ===== verification/EnvoyTcp.v ===== *)
(** * The TCP plugin

    gloo/pkg/plugins/tcp/plugin.go: each host of a TCP listener becomes a filter chain that
    ends with a TCP proxy to its destination. A host that fails gives an error, which is a
    warning when its destination does not exist. Access logging (plugins/als) is a
    parameter. *)

From stdpp Require Import base gmap strings list sorting.
From Stdlib Require Import ZArith.
From S2P Require Import Prelude GoLib GwApi EdgeApi ProxyReports Xds GlooProxy EnvoyRoutes Ssl EnvoyFilters EnvoySsl EnvoyListeners.
Import Validation Gloo.

(** [ProcessAccessLogPlugins] on the settings of the parent listener: an error, or the logs. *)
Class AccessLogging := ProcessAccessLogPlugins : Listener → string + string.

Section Plugin.
Context `{SslLibs} `{AnyLibs} `{ListenerLibs} `{RouteLibs} `{AccessLogging} (snap : ApiSnapshot).

Definition DefaultTcpStatPrefix : string := "tcp".
Definition TCPProxyName : string := "envoy.filters.network.tcp_proxy".
Definition SniFilter : string := "envoy.filters.network.sni_cluster".
(** Prints the whole host, here its name; never returned, as the validation refuses such hosts. *)
Definition NoDestinationTypeError (host : TcpHost) : Err := New ("no destination type was specified for tcp host " +:+ th_name host).
Definition InvalidSecretsError (err : SslErr) (name : string) : Err := New ("invalid secrets for host " +:+ name +:+ ": " +:+ ssl_message err).
Definition millisecond : Z := 1000000.

Fixpoint convert_weighted (dests : list WeightedDestination) : Err + list (string * Z) :=
  match dests with
  | [] => inr []
  | d :: dests => match DestinationToUpstreamRef (wd_destination d) with
      | inl err => inl err
      | inr usRef => match convert_weighted dests with inl err => inl err | inr wc => inr ((Xds.UpstreamToClusterName usRef, GetWeight d) :: wc) end
      end
  end.
Definition convertToWeightedCluster (dests : list WeightedDestination) : Err + list (string * Z) :=
  match dests with [] => inl NoDestinationSpecifiedError | _ => convert_weighted dests end.

(** The cluster of the destination, and the filters before the proxy. *)
Definition tcp_destination (host : TcpHost) : Err + (Lds.ClusterSpecifier * list Lds.Filter) :=
  match th_destination host with
  | Some (TcpAction_Single dest) =>
      match DestinationToUpstreamRef dest with
      | inl err => inl err
      | inr usRef => inr (Lds.TcpProxy_Cluster (Xds.UpstreamToClusterName usRef), [])
      end
  | Some (TcpAction_Multi dests) => match convertToWeightedCluster dests with inl err => inl err | inr wc => inr (Lds.TcpProxy_WeightedClusters wc, []) end
  | Some (TcpAction_UpstreamGroup ref) =>
      match find_group snap ref with
      | None => inl (NewUpstreamGroupNotFoundErr ref)
      | Some g => match convertToWeightedCluster (ug_destinations g) with inl err => inl err | inr wc => inr (Lds.TcpProxy_WeightedClusters wc, []) end
      end
  | Some TcpAction_ForwardSniClusterName =>
      match sni_error with
      | Some err => inl (New err)
      | None => inr (Lds.TcpProxy_Cluster "", [{| Lds.fl_name := SniFilter; Lds.fl_config := Lds.Filter_SniCluster |}])
      end
  | None => inl (NoDestinationTypeError host)
  end.
Definition flush_too_short (settings : option TcpProxySettings) : bool :=
  match settings ≫= tp_accessLogFlushInterval with Some flush => (flush <? millisecond)%Z | None => false end.
Definition tcpProxyFilters (parentListener : Listener) (host : TcpHost) (settings : option TcpProxySettings) (statPrefix : string) : Err + list Lds.Filter :=
  if flush_too_short settings then inl (New "access log flush interval must have minimum of 1ms")
  else match ValidateTcpRouteDestinations snap (th_destination host) with
       | Some err => inl err
       | None => match tcp_destination host with
           | inl err => inl err
           | inr (specifier, filters) => match ProcessAccessLogPlugins parentListener with
               | inl err => inl (New err)
               | inr accessLog =>
                   let cfg := {| Lds.tx_statPrefix := statPrefix; Lds.tx_clusterSpecifier := specifier; Lds.tx_other := from_option tp_other "" settings +:+ accessLog |} in
                   match tcp_error cfg with
                   | Some err => inl (New err)
                   | None => inr (filters ++ [{| Lds.fl_name := TCPProxyName; Lds.fl_config := Lds.Filter_TcpProxy cfg |}])
                   end
               end
           end
       end.
Definition computeTcpFilterChain (listenerFilters : list Lds.Filter) (host : TcpHost) : Err + Chain.FilterChain :=
  match th_sslConfig host with
  | None => inr (insecure_chain listenerFilters)
  | Some sslConfig => match ResolveDownstreamSslConfig (sn_secrets snap) sslConfig with
      | inl err => inl (InvalidSecretsError err (th_name host))
      | inr downstreamConfig => match newSslFilterChain downstreamConfig (ss_sniDomains sslConfig) listenerFilters (ss_transportSocketConnectTimeout sslConfig) with
          | inl err => inl (New err)
          | inr chain => inr chain
          end
      end
  end.

(** An error of a host: a warning gets the host's number, any other error stays as it is. *)
Definition host_error (hostNum : nat) (err : Err) : TcpError :=
  if is_warning err then
    {| te_message := "TcpHost error: " +:+ er_message err;
       te_known := Some {| kl_level := ErrorLevels_WARNING; kl_hostNum := Some hostNum; kl_destinationNotFound := false |} |}
  else {| te_message := er_message err; te_known := None |}.
Definition statPrefix_of (l : TcpListener) : string := if bool_decide (tl_statPrefix l = "") then DefaultTcpStatPrefix else tl_statPrefix l.
Definition tcp_host_chain (parentListener : Listener) (l : TcpListener) (hostNum : nat) (host : TcpHost) : TcpError + Chain.FilterChain :=
  match tcpProxyFilters parentListener host (tl_tcpProxySettings l) (statPrefix_of l) with
  | inl err => inl (host_error hostNum err)
  | inr filters => match computeTcpFilterChain filters host with
      | inl err => inl {| te_message := er_message err; te_known := None |}
      | inr chain => inr chain
      end
  end.
Definition tcp_CreateTcpFilterChains {PS} (parentListener : Listener) (l : TcpListener) (ps : PS) : list Chain.FilterChain * list TcpError * PS :=
  let results := imap (tcp_host_chain parentListener l) (tl_tcpHosts l) in
  (omap (λ r, match r with inr c => Some c | inl _ => None end) results,
   omap (λ r, match r with inl e => Some e | inr _ => None end) results, ps).
End Plugin.
