(* ===== verification/EnvoySslFacts.v ===== *)
(** * Facts about filter chains

    Merging TLS configurations keeps what is served; the filters of TCP chains that share
    an array; the order of staged filters. *)

From stdpp Require Import base gmap strings list sorting.
From Stdlib Require Import ZArith Ascii.
From S2P Require Import Prelude GoLib GwApi EdgeApi ProxyReports GlooProxy EnvoyRoutes Ssl EnvoyFilters EnvoySsl.
Import Validation Gloo.

(** ** Merged TLS configurations *)
Section Consolidate.
Context `{!SslHash}.

(** A configuration serves a server name; without SNI domains it serves all. *)
Definition serves (c : SslConfig) (domain : string) : Prop := ss_sniDomains c = [] ∨ domain ∈ ss_sniDomains c.
(** Some configuration of the group [k] serves the name. *)
Definition group_serves (l : list SslConfig) (k : N) (domain : string) : Prop := ∃ c, c ∈ l ∧ ssl_key c = k ∧ serves c domain.

Lemma ssl_key_sni l c : ssl_key (with_sniDomains l c) = ssl_key c.
Proof. done. Qed.
Lemma merged_elem l l' d : d ∈ merge l l' ↔ d ∈ l ∨ d ∈ l'.
Proof.
  unfold merge. rewrite elem_of_app, elem_of_filter_bool. destruct (decide (d ∈ l)) as [|Hn]; [naive_solver|].
  rewrite negb_true_iff, bool_decide_eq_false. naive_solver.
Qed.
Lemma merge_nil l l' : l ≠ [] → merge l l' ≠ [].
Proof. by destruct l. Qed.
Lemma merge_sni_key c c' : ssl_key (merge_sni c c') = ssl_key c.
Proof. unfold merge_sni. by case_match. Qed.
Lemma merge_sni_rest c c' : with_sniDomains [] (merge_sni c c') = with_sniDomains [] c.
Proof. unfold merge_sni. by case_match. Qed.
Lemma merge_sni_serves c c' d : serves (merge_sni c c') d ↔ serves c d ∨ serves c' d.
Proof.
  unfold merge_sni, serves. case_bool_decide as H1; cbn [orb]; [cbn; naive_solver|]. case_bool_decide as H2; cbn; [naive_solver|].
  rewrite merged_elem. pose proof (merge_nil _ (ss_sniDomains c') H1). naive_solver.
Qed.

(** One step, on a list with one configuration per key. *)
Lemma consolidate_one_keys c l : map ssl_key (consolidate_one c l) = if bool_decide (ssl_key c ∈ map ssl_key l) then map ssl_key l else map ssl_key l ++ [ssl_key c].
Proof.
  induction l as [|x l IH]; [done|]. cbn [consolidate_one map]. destruct (bool_decide_reflect (ssl_key x = ssl_key c)) as [Hx|Hx]; cbn [map].
  - rewrite merge_sni_key. rewrite bool_decide_eq_true_2; [done|]. rewrite <-Hx. by left.
  - rewrite IH. case_bool_decide as H1; case_bool_decide as H2; try done; set_solver.
Qed.
Lemma consolidate_one_serves c l k d : group_serves (consolidate_one c l) k d ↔ group_serves l k d ∨ (ssl_key c = k ∧ serves c d).
Proof.
  unfold group_serves. induction l as [|x l IH]; cbn [consolidate_one].
  - split; [intros (c' & ->%list_elem_of_singleton & ?); naive_solver|]. intros [(? & []%elem_of_nil & _)|?]. exists c. set_solver.
  - case_bool_decide as Hx.
    + split.
      * intros (c' & [->|Hin]%elem_of_cons & Hk & Hs); [|left; set_solver]. rewrite merge_sni_key in Hk. apply merge_sni_serves in Hs as [Hs|Hs]; [left; set_solver|].
        right. split; [congruence|done].
      * intros [(c' & [->|Hin]%elem_of_cons & Hk & Hs)|[Hk Hs]].
        -- exists (merge_sni x c). rewrite merge_sni_key, merge_sni_serves. set_solver.
        -- exists c'. set_solver.
        -- exists (merge_sni x c). rewrite merge_sni_key, merge_sni_serves. split_and!; [set_solver|congruence|by right].
    + split.
      * intros (c' & [->|Hin]%elem_of_cons & Hk & Hs); [left; set_solver|]. destruct (proj1 IH) as [(y & ? & ?)|?]; [by exists c'| |by right]. left. set_solver.
      * intros [(c' & [->|Hin]%elem_of_cons & Hk & Hs)|?]; [set_solver|destruct (proj2 IH) as (y & ? & ?)|destruct (proj2 IH) as (y & ? & ?)]; [left; by exists c'|set_solver|by right|set_solver].
Qed.
Lemma consolidate_one_rest c l x : x ∈ consolidate_one c l → ∃ y, (y ∈ l ∨ y = c) ∧ with_sniDomains [] x = with_sniDomains [] y.
Proof.
  induction l as [|z l IH]; cbn [consolidate_one]; [set_solver|]. case_bool_decide.
  - intros [->|?]%elem_of_cons; [exists z; rewrite merge_sni_rest|exists x]; (split; [left|done]); [by left|by right].
  - intros [->|Hx]%elem_of_cons; [exists z; split; [left; by left|done]|]. destruct (IH Hx) as (y & [?|?] & ?); exists y; (split; [|done]); [left; by right|by right].
Qed.

Definition given (l : list (option SslConfig)) : list SslConfig := omap id l.
(** [ConsolidateSslConfigurations]: the result has one configuration per group of
    configurations that hash alike without their SNI domains; a group serves a name exactly
    when one of its members does (one without SNI domains serves all), and the rest of a
    configuration is that of a given one. *)
Theorem ConsolidateSslConfigurations_correct l :
  NoDup (map ssl_key (ConsolidateSslConfigurations l)) ∧
  (∀ k d, group_serves (ConsolidateSslConfigurations l) k d ↔ group_serves (given l) k d) ∧
  (∀ c, c ∈ ConsolidateSslConfigurations l → ∃ c', c' ∈ given l ∧ with_sniDomains [] c = with_sniDomains [] c').
Proof.
  unfold ConsolidateSslConfigurations. induction l as [|o l IH] using rev_ind; [split_and!; [constructor|done|set_solver]|].
  rewrite fold_left_app. unfold given in *. rewrite omap_app. cbn [fold_left]. destruct o as [c|]; cbn [omap list_omap id]; [|by rewrite app_nil_r].
  set (res := fold_left _ l []) in *. destruct IH as (Hn & Hs & Hr). split_and!.
  - rewrite consolidate_one_keys. case_bool_decide as Hin; [done|]. apply NoDup_app. split; [done|]. split; [set_solver|apply NoDup_singleton].
  - intros k d. rewrite consolidate_one_serves, Hs. unfold group_serves. setoid_rewrite elem_of_app. setoid_rewrite list_elem_of_singleton. naive_solver.
  - intros x Hx. destruct (consolidate_one_rest _ _ _ Hx) as (y & [Hy| ->] & E).
    + destruct (Hr y Hy) as (z & ? & ?). exists z. split; [apply elem_of_app; by left|congruence].
    + exists c. split; [apply elem_of_app; right; by left|done].
Qed.
End Consolidate.

(** ** Custom filters *)
Definition staged (c : CustomEnvoyFilter) : Prop := is_Some (cf_stage c).
(** A custom filter with the stage it asks for. *)
Definition custom_of {F} (make : CustomEnvoyFilter → F) (c : CustomEnvoyFilter) (s : StagedFilter F) : Prop :=
  sf_filter s = make c ∧ ConvertFilterStage (cf_stage c) = Some (sf_stage s).
Lemma custom_filters_ok {F} (make : CustomEnvoyFilter → F) l : Forall staged l →
  ∃ out, custom_filters make l = Ok out ∧ Forall2 (custom_of make) l out.
Proof.
  induction l as [|c l IH]; [by eexists|]. intros [[s Hs] Hl]%Forall_cons. destruct (IH Hl) as (out & E & HF).
  unfold custom_filters in *. cbn [foldr]. rewrite Hs. cbn [ConvertFilterStage]. rewrite E. cbn. eexists. split; [reflexivity|].
  constructor; [|done]. split; [done|]. cbn. by rewrite Hs.
Qed.

(** The stage as the API documents it, relative to its number, decides before the name. *)
Lemma filter_le_stage {F} `{IsFilter F} (a b : StagedFilter F) : filter_le a b →
  (st_relativeTo (sf_stage a) < st_relativeTo (sf_stage b))%Z ∨
  (st_relativeTo (sf_stage a) = st_relativeTo (sf_stage b) ∧ (st_weight (sf_stage a) ≤ st_weight (sf_stage b))%Z).
Proof.
  unfold filter_le, filter_compare, then_compare, FilterStageComparison.
  repeat match goal with |- context [(?x <? ?y)%Z] => destruct (Z.ltb_spec x y) end; cbn; try done; lia.
Qed.

(** ** HTTP filters *)
Section HttpFilters.
Context `{!AnyLibs} `{!SortFilters} {PS : Type} `{!FilterPlugins PS}.

(** What the report of an HTTP listener keeps: its virtual hosts and routes. *)
Definition vhost_counts (r : HttpListenerReport) : list nat := map (λ v, length (vr_routeReports v)) (hr_virtualHostReports r).
Context (counts : list nat).
Definition http_inv (s : option HttpListenerReport * PS) : Prop := ∃ r, s.1 = Some r ∧ vhost_counts r = counts.
Abbreviation writing m P := (keeps http_inv m P).
Lemma writing_error err : writing (http_error (PS := PS) err) (λ _, True).
Proof. intros [? ps] (r & [= ->] & Hr). cbn. split; [|done]. eexists. by split. Qed.
Lemma writing_opt err : writing (http_opt_error (PS := PS) err) (λ _, True).
Proof. destruct err; [apply writing_error|by apply keeps_ret]. Qed.
Lemma writing_plugins {A} (f : PS → A * PS) (P : A → Prop) : (∀ ps a ps', f ps = (a, ps') → P a) → writing (on_plugins f) P.
Proof. intros Hf [r ps] Hr. unfold wp, on_plugins. destruct (f ps) as [a ps'] eqn:E. split; [done|eauto]. Qed.

(** The same, with the plugins' state: from [ps], what it is afterwards. *)
Definition runs {A} (m : M (option HttpListenerReport * PS) A) (ps : PS) (P : A → PS → Prop) : Prop :=
  ∀ r, vhost_counts r = counts → wp m (λ a s, ∃ r' ps', s = (Some r', ps') ∧ vhost_counts r' = counts ∧ P a ps') (Some r, ps).
Lemma runs_ret {A} (a : A) ps (P : A → PS → Prop) : P a ps → runs (ret a) ps P.
Proof. intros HP r Hr. apply wp_ret. by exists r, ps. Qed.
Lemma runs_mono {A} (m : M _ A) ps (P Q : A → PS → Prop) : runs m ps P → (∀ a ps', P a ps' → Q a ps') → runs m ps Q.
Proof. intros Hm HPQ r Hr. eapply wp_mono; [by apply Hm|]. intros a s (r' & ps' & -> & Hr' & HP). exists r', ps'. auto. Qed.
Lemma runs_bind {A B} (m : M _ A) (k : A → M _ B) ps P Q : runs m ps P → (∀ a ps', P a ps' → runs (k a) ps' Q) → runs (bind m k) ps Q.
Proof. intros Hm Hk r Hr. apply wp_bind. eapply wp_mono; [by apply Hm|]. intros a s (r' & ps' & -> & Hr' & HP). by apply Hk. Qed.
Lemma runs_writing {A} (m : M _ A) P : (∀ ps, runs m ps (λ a _, P a)) → writing m P.
Proof. intros Hm [? ps] (r & [= ->] & Hr). eapply wp_mono; [by apply Hm|]. intros a s (r' & ps' & -> & Hr' & HP). split; [by exists r'|done]. Qed.
Lemma runs_error err ps (P : unit → PS → Prop) : P tt ps → runs (http_error err) ps P.
Proof. intros HP r Hr. cbn. eexists _, ps. by split_and!. Qed.
Lemma runs_opt err ps (P : unit → PS → Prop) : P tt ps → runs (http_opt_error err) ps P.
Proof. intros HP. destruct err; [by apply runs_error|by apply runs_ret]. Qed.
Lemma runs_plugins {A} (f : PS → A * PS) ps (P : A → PS → Prop) : P (f ps).1 (f ps).2 → runs (on_plugins f) ps P.
Proof. intros HP r Hr. unfold wp, on_plugins. destruct (f ps) as [a ps']. by exists r, ps'. Qed.
Lemma runs_res {A} (m : res A) a ps (P : A → PS → Prop) : m = Ok a → P a ps → runs (lift_res m) ps P.
Proof. intros -> HP. by apply runs_ret. Qed.

(** What the plugins give for a listener, one after the other, errors or not. *)
Fixpoint collected {F} (plugins : list (HttpListener → PS → list (StagedFilter F) * option Err * PS)) (l : HttpListener) (ps : PS) :
    list (StagedFilter F) * PS :=
  match plugins with
  | [] => ([], ps)
  | p :: plugins => let '(fs, _, ps) := p l ps in let '(rest, ps) := collected plugins l ps in (fs ++ rest, ps)
  end.
Lemma runs_plugin_filters {F} (plugins : list (HttpListener → PS → list (StagedFilter F) * option Err * PS)) l ps :
  runs (plugin_filters plugins l) ps (λ fs ps', (fs, ps') = collected plugins l ps).
Proof.
  unfold plugin_filters. enough (∀ i acc ps, runs (fold_range i plugins acc (λ _ plugin filters,
      let! (stagedFilters, err) <~ on_plugins (plugin l) ;; do! http_opt_error err ;; ret (filters ++ stagedFilters))) ps
    (λ fs ps', (fs, ps') = (acc ++ (collected plugins l ps).1, (collected plugins l ps).2))) as Hall.
  { specialize (Hall 0 [] ps). cbn [app] in Hall. by rewrite <-surjective_pairing in Hall. }
  clear ps. induction plugins as [|p plugins IH]; intros i acc ps; cbn [fold_range collected]; [apply runs_ret; cbn; by rewrite app_nil_r|].
  eapply runs_bind; [|intros acc' ps' HP; exact HP]. eapply runs_bind; [by apply runs_plugins with (P := λ a ps', (a, ps') = p l ps); destruct (p l ps)|].
  intros [fs err] ps1 <-. eapply runs_bind; [by apply runs_opt with (P := λ _ ps', ps' = ps1)|]. intros _ ? ->. apply runs_ret.
  eapply runs_mono; [apply IH|]. cbn. intros a ps' E. destruct (collected plugins l ps1). cbn in *. by rewrite E, (assoc_L (++)).
Qed.

(** The router of a listener with the filters [up] upstream of it; nil when it cannot be
    marshalled. *)
Definition router_of (l : HttpListener) (up : list (option Lds.HttpFilter)) : option Lds.HttpFilter :=
  match router_to_any {| Lds.rt_suppressEnvoyHeaders := ho_suppressEnvoyHeaders (hl_options l); Lds.rt_dynamicStats := ho_dynamicStats (hl_options l);
                         Lds.rt_upstreamHttpFilters := up |} with
  | inl _ => None
  | inr c => Some {| Lds.hf_name := RouterName; Lds.hf_config := Some c; Lds.hf_other := "" |}
  end.
(** The upstream filters of the plugins, sorted, and the codec; none when there are none, or
    the codec cannot be marshalled. *)
Definition upstream_ok (fs : list (StagedFilter (option Lds.HttpFilter))) (up : list (option Lds.HttpFilter)) : Prop :=
  match upstream_codec with
  | inl _ => up = []
  | inr codec => fs = [] ∧ up = [] ∨ fs ≠ [] ∧ ∃ sorted, sorted ≡ₚ fs ∧ StronglySorted filter_le sorted ∧
      up = map sf_filter sorted ++ [Some {| Lds.hf_name := UpstreamCodeFilterName; Lds.hf_config := Some codec; Lds.hf_other := "" |}]
  end.
Definition by_stage {F} (a b : StagedFilter F) : Prop :=
  (st_relativeTo (sf_stage a) < st_relativeTo (sf_stage b))%Z ∨
  (st_relativeTo (sf_stage a) = st_relativeTo (sf_stage b) ∧ (st_weight (sf_stage a) ≤ st_weight (sf_stage b))%Z).
(** Exactly the filters of the plugins that are not nil and the custom ones, in the order of
    their stages. *)
Definition staged_ok {F} `{IsFilter F} (make : CustomEnvoyFilter → F) (plugin : list (StagedFilter (option F))) (l : list CustomEnvoyFilter)
    (staged : list (StagedFilter F)) : Prop :=
  (∃ custom, Forall2 (custom_of make) l custom ∧ staged ≡ₚ present plugin ++ custom) ∧ StronglySorted by_stage staged ∧ StronglySorted filter_le staged.
(** The HTTP filters of a listener, computed with the plugins in the state [ps]: those
    above, and the router last. *)
Definition http_filters_ok (l : HttpListener) (ps : PS) (out : list (option Lds.HttpFilter)) : Prop :=
  let '(fs, ps1) := collected GetHttpFilterPlugins l ps in
  let '(ufs, _) := collected GetUpstreamHttpFilterPlugins l ps1 in
  ∃ staged up, out = map Some (map sf_filter staged) ++ [router_of l up] ∧
    staged_ok custom_http_filter fs (hl_customHttpFilters l) staged ∧ upstream_ok ufs up.
Lemma StronglySorted_mono {A} (R S : A → A → Prop) l : (∀ x y, R x y → S x y) → StronglySorted R l → StronglySorted S l.
Proof. intros HRS. induction 1 as [|x l _ IH Hx]; constructor; [done|]. eapply Forall_impl; [exact Hx|auto]. Qed.
Lemma sorted_staged {F} `{IsFilter F} (make : CustomEnvoyFilter → F) plugin l custom : Forall2 (custom_of make) l custom →
  staged_ok make plugin l (sort_Sort (present plugin ++ custom)).
Proof.
  intros HF. split_and!; [exists custom; split; [done|apply sort_Sort_perm]| |apply sort_Sort_sorted].
  eapply StronglySorted_mono; [apply filter_le_stage|]. apply sort_Sort_sorted.
Qed.

Lemma runs_upstream h ps : runs (computeUpstreamHTTPFilters h) ps (λ up ps', ∃ ufs, (ufs, ps') = collected GetUpstreamHttpFilterPlugins (ht_listener h) ps ∧ upstream_ok ufs up).
Proof.
  unfold computeUpstreamHTTPFilters, upstream_ok. eapply runs_bind; [apply runs_plugin_filters|]. intros fs ps1 Hfs. destruct upstream_codec as [err|codec].
  - eapply runs_bind; [by apply runs_error with (P := λ _ ps', ps' = ps1)|]. intros _ ? ->. apply runs_ret. by exists fs.
  - apply runs_ret. exists fs. split; [done|]. destruct fs as [|f fs]; [by left|right]. split; [done|].
    eexists. split_and!; [apply sort_Sort_perm|apply sort_Sort_sorted|done].
Qed.
Lemma runs_router l up ps :
  runs (router_filter {| Lds.rt_suppressEnvoyHeaders := ho_suppressEnvoyHeaders (hl_options l); Lds.rt_dynamicStats := ho_dynamicStats (hl_options l);
                         Lds.rt_upstreamHttpFilters := up |}) ps (λ f ps', f = router_of l up ∧ ps' = ps).
Proof.
  unfold router_filter, router_of. destruct (router_to_any _); [|by apply runs_ret].
  eapply runs_bind; [by apply runs_error with (P := λ _ ps', ps' = ps)|]. intros _ ? ->. by apply runs_ret.
Qed.
Lemma runs_computeHttpFilters h ps : Forall staged (hl_customHttpFilters (ht_listener h)) →
  runs (computeHttpFilters h) ps (λ fs _, http_filters_ok (ht_listener h) ps fs).
Proof.
  intros Hc. destruct (custom_filters_ok custom_http_filter _ Hc) as (custom & E & HF). unfold computeHttpFilters, http_filters_ok.
  eapply runs_bind; [apply runs_plugin_filters|]. intros fs ps1 <-. eapply runs_bind; [by apply (runs_res _ custom ps1 (λ c ps', c = custom ∧ ps' = ps1))|].
  intros ? ? [-> ->]. eapply runs_bind; [apply runs_upstream|]. intros up ps2 (ufs & <- & Hup). eapply runs_bind; [apply runs_router|]. intros router ? [-> ->].
  apply runs_ret. eexists _, up. split_and!; [done|by apply sorted_staged|done].
Qed.

(** What plugins of the connection manager keep. *)
Definition hcm_plugins_keep : Prop := ∀ p, p ∈ GetHttpConnectionManagerPlugins → ∀ parent l hcm ps err hcm' ps',
  p parent l hcm ps = (err, hcm', ps') → Lds.hcm_routeConfigName hcm' = Lds.hcm_routeConfigName hcm ∧ Lds.hcm_httpFilters hcm' = Lds.hcm_httpFilters hcm.
(** A connection manager for a listener. *)
Definition hcm_ok (h : HcmNetworkFilterTranslator) (ps : PS) (hcm : Lds.Hcm) : Prop :=
  Lds.hcm_routeConfigName hcm = ht_routeConfigName h ∧ http_filters_ok (ht_listener h) ps (Lds.hcm_httpFilters hcm).
Definition hcm_result (hcm : Lds.Hcm) : Err + Lds.Filter :=
  match hcm_error hcm with
  | Some err => inl (New ("failed to convert proto message to struct: " +:+ err))
  | None => inr {| Lds.fl_name := HTTPConnectionManagerName; Lds.fl_config := Lds.Filter_Hcm hcm |}
  end.
Lemma runs_hcm_plugins parent l hcm ps (plugins : list (Listener → HttpListener → Lds.Hcm → PS → option Err * Lds.Hcm * PS)) :
  (∀ p, p ∈ plugins → ∀ parent l hcm ps err hcm' ps', p parent l hcm ps = (err, hcm', ps') →
     Lds.hcm_routeConfigName hcm' = Lds.hcm_routeConfigName hcm ∧ Lds.hcm_httpFilters hcm' = Lds.hcm_httpFilters hcm) →
  ∀ i, runs (fold_range i plugins hcm (λ _ plugin hcm,
    let! (err, hcm) <~ on_plugins (plugin parent l hcm) ;; do! http_opt_error err ;; ret hcm)) ps
    (λ hcm' _, Lds.hcm_routeConfigName hcm' = Lds.hcm_routeConfigName hcm ∧ Lds.hcm_httpFilters hcm' = Lds.hcm_httpFilters hcm).
Proof.
  revert hcm ps. induction plugins as [|p plugins IH]; intros hcm ps Hk i; cbn [fold_range]; [by apply runs_ret|].
  eapply runs_bind; [|intros hcm' ps' HP; exact HP]. eapply runs_bind; [by apply runs_plugins with (P := λ a ps', (a, ps') = p parent l hcm ps); destruct (p _ _ _ _)|].
  intros [err hcm'] ps1 E. eapply runs_bind; [by apply runs_opt with (P := λ _ ps', ps' = ps1)|]. intros _ ? ->. apply runs_ret.
  destruct (Hk p ltac:(by left) _ _ _ _ _ _ _ (eq_sym E)) as [<- <-]. apply IH. intros q Hq. apply Hk. by right.
Qed.
Lemma runs_hcm h ps : hcm_plugins_keep → Forall staged (hl_customHttpFilters (ht_listener h)) →
  runs (hcm_ComputeNetworkFilter h) ps (λ res _, ∃ hcm, hcm_ok h ps hcm ∧ res = hcm_result hcm).
Proof.
  intros Hk Hc. unfold hcm_ComputeNetworkFilter, hcm_result. eapply runs_bind; [by apply runs_computeHttpFilters|]. intros fs ps1 Hfs.
  eapply runs_bind; [by apply runs_hcm_plugins|]. intros hcm ps2 [Hn Hf]. destruct (hcm_error hcm) eqn:E; apply runs_ret; exists hcm; rewrite E; (split; [|done]).
  all: split; [by rewrite Hn|by rewrite Hf].
Qed.

(** Network filter plugins give filters of their own, never a connection manager. *)
Definition opaque (f : Lds.Filter) : Prop := ∃ c, Lds.fl_config f = Lds.Filter_TypedConfig c.
Definition network_plugins_opaque : Prop := ∀ p, p ∈ GetNetworkFilterPlugins →
  (∀ l ps fs err ps' s f, NetworkFiltersHTTP p l ps = (fs, err, ps') → s ∈ fs → sf_filter s = Some f → opaque f) ∧
  (∀ l ps fs err ps' s f, NetworkFiltersTCP p l ps = (fs, err, ps') → s ∈ fs → sf_filter s = Some f → opaque f).
Lemma present_elem {F} (l : list (StagedFilter (option F))) s : s ∈ present l ↔ ∃ s', s' ∈ l ∧ sf_filter s' = Some (sf_filter s) ∧ sf_stage s' = sf_stage s.
Proof.
  unfold present. rewrite list_elem_of_omap. split.
  - intros (s' & Hin & E). destruct (sf_filter s') as [f|] eqn:Ef; [|done]. injection E as <-. by exists s'.
  - intros (s' & Hin & Ef & Es). exists s'. split; [done|]. rewrite Ef. cbn. rewrite Es. by destruct s.
Qed.
Lemma custom_opaque l out : Forall2 (custom_of custom_network_filter) l out → Forall (λ s, opaque (sf_filter s)) out.
Proof. induction 1 as [|c s l out [Hf _] _ IH]; constructor; [|done]. rewrite Hf. by eexists. Qed.
Lemma collected_opaque (l : HttpListener) plugins ps : network_plugins_opaque → plugins ⊆ GetNetworkFilterPlugins →
  Forall (λ s, opaque (sf_filter s)) (present (collected (map NetworkFiltersHTTP plugins) l ps).1).
Proof.
  intros Ho Hsub. apply Forall_forall. intros s (s' & Hin & Hf & _)%present_elem. revert ps Hin.
  induction plugins as [|p plugins IH]; intros ps; cbn [map collected]; [by intros ?%elem_of_nil|].
  destruct (NetworkFiltersHTTP p l ps) as [[fs err] ps1] eqn:E. pose proof (IH ltac:(set_solver) ps1) as IH'. destruct (collected _ l ps1) as [rest ps2]. cbn.
  intros [Hin|Hin]%elem_of_app; [|by apply IH']. by eapply (proj1 (Ho p ltac:(set_solver))).
Qed.
Lemma runs_computePreHCMFilters l ps : Forall staged (hl_customNetworkFilters l) →
  runs (computePreHCMFilters l) ps (λ pre ps', ∃ fs custom, (fs, ps') = collected (map NetworkFiltersHTTP GetNetworkFilterPlugins) l ps ∧
    Forall2 (custom_of custom_network_filter) (hl_customNetworkFilters l) custom ∧ pre = present fs ++ custom).
Proof.
  intros Hn. destruct (custom_filters_ok custom_network_filter _ Hn) as (custom & Ec & HF). unfold computePreHCMFilters.
  eapply runs_bind; [apply runs_plugin_filters|]. intros fs ps1 Hfs. eapply runs_bind; [by apply (runs_res _ custom ps1 (λ c ps', c = custom ∧ ps' = ps1))|].
  intros ? ? [-> ->]. apply runs_ret. by exists fs, custom.
Qed.

(** The auth configs are checked against the reports of the virtual hosts. *)
Lemma runs_check_auth_configs snap (str : NamespacedName → string) (l : HttpListener) ps :
  length counts = length (hl_virtualHosts l) → runs (check_auth_configs snap str l) ps (λ _ ps', ps' = ps).
Proof.
  intros Hlen r Hr. eapply wp_mono; [apply (wp_fold_range_split (λ _ _ s, ∃ r', s = (Some r', ps) ∧ vhost_counts r' = counts)); [by exists r|]|].
  2: { intros _ s (r' & -> & Hr'). by exists r', ps. }
  intros pre v post [] s1 Hl (r1 & -> & Hr1). destruct (vh_configRef v) as [ref|]; [|apply wp_ret; by exists r1].
  destruct (Find id (sn_authConfigs snap) ref); [apply wp_ret; by exists r1|].
  assert (length pre < length (hr_virtualHostReports r1)) as [vr Hvr]%lookup_lt_is_Some.
  { pose proof (f_equal length Hr1) as E. unfold vhost_counts in E. rewrite length_map in E. rewrite E, Hlen, Hl, length_app. cbn. lia. }
  unfold wp, virtual_host_error. cbn. rewrite Hvr. cbn. eexists. split; [reflexivity|]. rewrite <-Hr1. unfold vhost_counts. cbn.
  rewrite <-(list_insert_id (hr_virtualHostReports r1) (length pre) vr Hvr) at 2. by rewrite !list_fmap_insert.
Qed.

(** The route configurations that filters name. *)
Definition rds_names (l : list Lds.Filter) : list string :=
  flat_map (λ f, match Lds.fl_config f with Lds.Filter_Hcm h => [Lds.hcm_routeConfigName h] | _ => [] end) l.
Lemma rds_names_app l l' : rds_names (l ++ l') = rds_names l ++ rds_names l'.
Proof. apply flat_map_app. Qed.
Lemma rds_names_opaque l : Forall opaque l → rds_names l = [].
Proof. induction 1 as [|f l [c Hf] _ IH]; [done|]. cbn. by rewrite Hf. Qed.

(** The network filters of a listener, computed with the plugins in the state [ps]. *)
Definition network_filters_ok settings (h : HcmNetworkFilterTranslator) (ps : PS) (res : Err + list Lds.Filter) : Prop :=
  if negb (se_translateEmptyGateways settings) && bool_decide (hl_virtualHosts (ht_listener h) = []) then res = inr []
  else
    let '(fs, ps1) := collected (map NetworkFiltersHTTP GetNetworkFilterPlugins) (ht_listener h) ps in
    ∃ pre hcm, staged_ok custom_network_filter fs (hl_customNetworkFilters (ht_listener h)) pre ∧ rds_names (map sf_filter pre) = [] ∧
      hcm_ok h ps1 hcm ∧ res = match hcm_result hcm with inl err => inl err | inr f => inr (map sf_filter pre ++ [f]) end.
Lemma runs_http_ComputeNetworkFilters settings snap str h ps :
  hcm_plugins_keep → network_plugins_opaque → length counts = length (hl_virtualHosts (ht_listener h)) →
  Forall staged (hl_customHttpFilters (ht_listener h)) → Forall staged (hl_customNetworkFilters (ht_listener h)) →
  runs (http_ComputeNetworkFilters settings snap str h) ps (λ res _, network_filters_ok settings h ps res).
Proof.
  intros Hk Ho Hlen Hc Hn. unfold http_ComputeNetworkFilters, network_filters_ok.
  assert (bool_decide (length (hl_virtualHosts (ht_listener h)) = 0) = bool_decide (hl_virtualHosts (ht_listener h) = [])) as ->
    by (by destruct (hl_virtualHosts (ht_listener h))).
  destruct (negb _ && _); [by apply runs_ret|]. eapply runs_bind; [by apply runs_check_auth_configs|]. intros _ ? ->.
  pose proof (collected_opaque (ht_listener h) GetNetworkFilterPlugins ps Ho ltac:(done)) as Hop.
  eapply runs_bind; [by apply runs_computePreHCMFilters|]. intros pre ps1 (fs & custom & E & HF & ->). rewrite <-E in *. cbn [fst] in Hop.
  eapply runs_bind; [by apply runs_hcm|]. intros res ps2 (hcm & Hh & ->). unfold sortNetworkFilters.
  assert (∀ res', res' = match hcm_result hcm with inl err => inl err | inr f => inr (map sf_filter (sort_Sort (present fs ++ custom)) ++ [f]) end →
    ∃ pre hcm, staged_ok custom_network_filter fs (hl_customNetworkFilters (ht_listener h)) pre ∧ rds_names (map sf_filter pre) = [] ∧
      hcm_ok h ps1 hcm ∧ res' = match hcm_result hcm with inl err => inl err | inr f => inr (map sf_filter pre ++ [f]) end) as Hres.
  { intros res' ->. exists (sort_Sort (present fs ++ custom)), hcm. split_and!; [by apply sorted_staged| |done|done].
    apply rds_names_opaque. rewrite sort_Sort_perm, Forall_fmap, Forall_app. split; [exact Hop|by eapply custom_opaque]. }
  by destruct (hcm_result hcm); apply runs_ret, Hres.
Qed.
Lemma writing_http_ComputeNetworkFilters settings snap str h :
  hcm_plugins_keep → network_plugins_opaque → length counts = length (hl_virtualHosts (ht_listener h)) →
  Forall staged (hl_customHttpFilters (ht_listener h)) → Forall staged (hl_customNetworkFilters (ht_listener h)) →
  writing (http_ComputeNetworkFilters settings snap str h) (λ res, ∃ ps, network_filters_ok settings h ps res).
Proof. intros. apply runs_writing. intros ps. eapply runs_mono; [by apply runs_http_ComputeNetworkFilters|]. intros res ? Hres. by exists ps. Qed.
(** What is listed names the route configuration, and there is a virtual host. *)
Lemma network_filters_rds settings h ps l : network_filters_ok settings h ps (inr l) →
  l = [] ∨ (se_translateEmptyGateways settings = false → hl_virtualHosts (ht_listener h) ≠ []) ∧ rds_names l = [ht_routeConfigName h].
Proof.
  unfold network_filters_ok. destruct (negb _ && _) eqn:Hg; [intros [= ->]; by left|]. destruct (collected _ _ ps) as [fs ps1].
  intros (pre & hcm & _ & Hpre & [Hname _] & E). right. split.
  - intros Ht. rewrite Ht in Hg. by apply bool_decide_eq_false in Hg.
  - unfold hcm_result in E. destruct (hcm_error hcm); [done|]. injection E as ->. rewrite rds_names_app, Hpre. cbn. by rewrite Hname.
Qed.
End HttpFilters.

(** C14. The network filters of an HTTP listener, with a report per virtual host and a stage
    on every custom filter. Without virtual hosts there are none, unless empty gateways are
    translated. Otherwise there is an error exactly when the connection manager cannot be
    marshalled, and else they are exactly the filters of the plugins and the custom ones in
    the order of their stages, and last the only connection manager. It names the route
    configuration, and its HTTP filters are exactly those of the plugins and the custom
    ones in the order of their stages, with the router last, behind the upstream filters of
    the plugins. *)
Theorem http_ComputeNetworkFilters_correct `{!AnyLibs} `{!SortFilters} {PS : Type} `{!FilterPlugins PS} settings snap str h r (ps : PS) :
  hcm_plugins_keep → network_plugins_opaque → length (hr_virtualHostReports r) = length (hl_virtualHosts (ht_listener h)) →
  Forall staged (hl_customHttpFilters (ht_listener h)) → Forall staged (hl_customNetworkFilters (ht_listener h)) →
  wp (http_ComputeNetworkFilters settings snap str h) (λ res _, network_filters_ok settings h ps res) (Some r, ps).
Proof.
  intros Hk Ho Hlen Hc Hn. eapply wp_mono; [eapply (runs_http_ComputeNetworkFilters (vhost_counts r)); try done|].
  - unfold vhost_counts. by rewrite length_map.
  - by intros res s (r' & ps' & _ & _ & Hok).
Qed.

(** ** A sort of staged filters: insertion *)
Record good_compare {A} (c : A → A → comparison) : Prop := {
  good_antisym a b : c b a = CompOpp (c a b);
  good_eq a b d : c a b = Eq → c a d = c b d;
  good_trans a b d : c a b = Lt → c b d = Lt → c a d = Lt }.
Lemma good_then {A} (c d : A → A → comparison) : good_compare c → good_compare d → good_compare (λ a b, then_compare (c a b) (d a b)).
Proof.
  intros Gc Gd. assert (∀ a b e, c a b = Lt → c b e = Eq → c a e = Lt) as Hle.
  { intros a b e H1 H2. rewrite (good_antisym c Gc e a), (good_eq c Gc e b a); [|by rewrite (good_antisym c Gc b e), H2].
    by rewrite (good_antisym c Gc a b), H1. }
  split.
  - intros a b. rewrite (good_antisym c Gc a b), (good_antisym d Gd a b). by destruct (c a b).
  - intros a b e H. unfold then_compare in *. destruct (c a b) eqn:E; [|done..]. rewrite (good_eq c Gc a b e E). destruct (c b e); [|done..]. by apply (good_eq d Gd).
  - intros a b e H1 H2. unfold then_compare in *. destruct (c a b) eqn:E1; [| |done].
    + rewrite (good_eq c Gc a b e E1). destruct (c b e); [|done..]. by apply (good_trans d Gd a b e).
    + destruct (c b e) eqn:E2; [|by rewrite (good_trans c Gc a b e)|done]. by rewrite (Hle a b e).
Qed.
Lemma good_string {A} (f : A → string) : good_compare (λ a b, String.compare (f a) (f b)).
Proof.
  split.
  - intros a b. apply String.compare_antisym.
  - intros a b d E. apply String.compare_eq_iff in E. by rewrite E.
  - intros a b d H1 H2. pose proof (string_lt_trans (f a) (f b) (f d)) as Ht. unfold string_lt in Ht. rewrite H1, H2 in Ht.
    specialize (Ht eq_refl eq_refl). by destruct (String.compare (f a) (f d)).
Qed.
Lemma good_stage {F} : good_compare (λ a b : StagedFilter F, (FilterStageComparison (sf_stage a) (sf_stage b) ?= 0)%Z).
Proof.
  split; intros; unfold FilterStageComparison in *;
    repeat match goal with
           | |- context [(?x <? ?y)%Z] => destruct (Z.ltb_spec x y)
           | H : context [(?x <? ?y)%Z] |- _ => destruct (Z.ltb_spec x y) end; cbn in *; (done || lia).
Qed.
Lemma good_filters {F} `{IsFilter F} : good_compare (filter_compare (F := F)).
Proof.
  unfold filter_compare. apply good_then; [apply good_stage|]. apply good_then; [apply (good_string (λ s, GetName (sf_filter s)))|].
  apply good_then; [apply (good_string (λ s, GetTypeUrl (sf_filter s)))|apply (good_string (λ s, GetConfigValue (sf_filter s)))].
Qed.
Definition filter_less {F} `{IsFilter F} (a b : StagedFilter F) : bool := match filter_compare a b with Lt => true | _ => false end.
#[local] Instance filter_le_trans {F} `{IsFilter F} : Transitive (filter_le (F := F)).
Proof.
  intros a b d. unfold filter_le. pose proof good_filters as G. destruct (filter_compare a b) eqn:E1; [| |done].
  - by rewrite (good_eq _ G a b d E1).
  - destruct (filter_compare b d) eqn:E2; [| |done]; intros _ _.
    + rewrite (good_antisym _ G d a), (good_eq _ G d b a) by by rewrite (good_antisym _ G b d), E2. by rewrite (good_antisym _ G a b), E1.
    + by rewrite (good_trans _ G a b d).
Qed.
Definition insertion_sort : SortFilters.
Proof.
  refine {| sort_Sort F HF := sort_stable (@filter_less F HF) |}.
  - intros F HF l. apply sort_stable_perm.
  - intros F HF l. apply sort_stable_sorted.
    + apply _.
    + intros x y. unfold filter_less, filter_le. by destruct (filter_compare x y).
    + intros x y. unfold filter_less, filter_le. rewrite (good_antisym _ good_filters x y). by destruct (filter_compare x y).
Defined.
