(* ===== verification/EnvoyRdsFacts.v ===== *)
(** * Facts about listeners and their route configurations

    Every connection manager in the Envoy listener names a route configuration that the
    translator of route configurations generates for the same listener. The report keeps
    its parts all along, which is why nothing panics. *)

From stdpp Require Import base gmap strings list sorting.
From Stdlib Require Import ZArith.
From S2P Require Import Prelude GoLib GwApi EdgeApi ProxyReports GlooProxy EnvoyRoutes EnvoyDomainsFacts EnvoyRoutesFacts Ssl EnvoyFilters EnvoySsl EnvoyListeners EnvoySslFacts.
Import Validation Gloo.

(** ** The parts of a report *)
Definition http_counts (k : ReportKey) (r : ListenerReport) : option (list nat) := vhost_counts <$> GetHttpReport k r.
Definition tcp_count (k : ReportKey) (r : ListenerReport) : option nat := (λ t, length (tlr_tcpHostReports t)) <$> GetTcpReport k r.
Definition same_parts (r r' : ListenerReport) : Prop := ∀ k, http_counts k r' = http_counts k r ∧ tcp_count k r' = tcp_count k r.
#[export] Instance same_parts_preorder : PreOrder same_parts.
Proof. split; [by intros r k|]. intros r1 r2 r3 H12 H23 k. destruct (H12 k), (H23 k). split; congruence. Qed.

Ltac report_cases := repeat (case_match; simplify_eq/=; try done).
Lemma SetHttpReport_parts k h h' r : GetHttpReport k r = Some h → vhost_counts h' = vhost_counts h → same_parts r (SetHttpReport k h' r).
Proof.
  destruct r as [es ws ty]. unfold same_parts, http_counts, tcp_count, GetHttpReport, GetTcpReport, SetHttpReport. cbn. intros Hg Hc k'.
  destruct k as [| |n|n|n], ty as [[r|r|m|a]|]; try done; cbn in *.
  - injection Hg as ->. destruct k'; cbn; by rewrite ?Hc.
  - destruct k' as [| |n'|n'|n']; try done. destruct (decide (n = n')) as [<-|Hne]; [rewrite lookup_insert_eq|by rewrite lookup_insert_ne].
    destruct (m !! n) as [[r|r|]|] eqn:E; try done. cbn in *. injection Hg as ->. by rewrite Hc.
  - destruct k' as [| |n'|n'|n']; try done. cbn. destruct (decide (n = n')) as [<-|Hne]; [rewrite lookup_insert_eq|by rewrite lookup_insert_ne].
    rewrite Hg. cbn. by rewrite Hc.
Qed.
Lemma SetTcpReport_parts k t t' r : GetTcpReport k r = Some t → length (tlr_tcpHostReports t') = length (tlr_tcpHostReports t) → same_parts r (SetTcpReport k t' r).
Proof.
  destruct r as [es ws ty]. unfold same_parts, http_counts, tcp_count, GetHttpReport, GetTcpReport, SetTcpReport. cbn. intros Hg Hc k'.
  destruct k as [| |n|n|n], ty as [[r|r|m|a]|]; try done; cbn in *.
  - injection Hg as ->. destruct k'; cbn; by rewrite ?Hc.
  - destruct k' as [| |n'|n'|n']; try done. destruct (decide (n = n')) as [<-|Hne]; [rewrite lookup_insert_eq|by rewrite lookup_insert_ne].
    destruct (m !! n) as [[r|r|]|] eqn:E; try done. cbn in *. injection Hg as ->. by rewrite Hc.
  - destruct k' as [| |n'|n'|n']; try done. cbn. destruct (decide (n = n')) as [<-|Hne]; [rewrite lookup_insert_eq|by rewrite lookup_insert_ne].
    rewrite Hg. cbn. by rewrite Hc.
Qed.

Section Facts.
Context `{SslLibs} `{SslHash} `{AnyLibs} `{SortFilters} `{SliceGrowth} `{ListenerLibs} `{RouteLibs}.
Context {PS : Type} `{!FilterPlugins PS} `{!ListenerPlugins PS} `{!RouteConfigPlugins PS} `{!RoutePluginsLaws PS} `{!GoRange string} `{!GoRange Z}.
Context (settings : Settings) (snap : ApiSnapshot) (r0 : ListenerReport).

Definition parts_inv (s : ListenerReport * PS) : Prop := same_parts r0 s.1.
Abbreviation steady m P := (keeps parts_inv m P).
Definition tcp_inv (n : nat) (s : option TcpListenerReport * PS) : Prop := ∃ t, s.1 = Some t ∧ length (tlr_tcpHostReports t) = n.

Lemma steady_update f : (∀ r, lr_type (f r) = lr_type r) → steady (update_report f) (λ _, True).
Proof.
  intros Hf [r ps] Hr. apply wp_update_report. split; [|done]. intros k. destruct (Hr k) as [E1 E2]. cbn in *.
  unfold http_counts, tcp_count, GetHttpReport, GetTcpReport in *. by rewrite Hf.
Qed.
Lemma steady_plugins {A} (f : PS → A * PS) (P : A → Prop) : (∀ ps a ps', f ps = (a, ps') → P a) → steady (on_plugins f) P.
Proof. intros Hf [r ps] Hr. apply wp_on_plugins. intros a ps' E. split; [done|eauto]. Qed.
Lemma steady_opt err : steady (listener_opt_error err) (λ _, True).
Proof. destruct err; [by apply steady_update|by apply keeps_ret]. Qed.
Lemma steady_http {A} k n (m : M (option HttpListenerReport * PS) A) P : http_counts k r0 = Some n → keeps (http_inv n) m P → steady (on_http k m) P.
Proof.
  intros Hk Hm [r ps] Hr. destruct (Hr k) as [E _]. cbn in E. rewrite Hk in E. unfold http_counts in E.
  destruct (GetHttpReport k r) as [h|] eqn:Hg; [|done]. injection E as Hn. unfold wp, on_http, on_report. rewrite Hg.
  specialize (Hm (Some h, ps)). unfold wp in Hm. destruct (m (Some h, ps)) as [[a [o ps']]| |]; [|destruct Hm; by exists h..].
  destruct Hm as [(h' & Eo & Hn') HP]; [by exists h|]. cbn in Eo. subst o. split; [|done].
  unfold parts_inv in *. cbn in *. etransitivity; [exact Hr|]. eapply SetHttpReport_parts; [done|congruence].
Qed.
Lemma steady_tcp {A} k n (m : M (option TcpListenerReport * PS) A) P : tcp_count k r0 = Some n → keeps (tcp_inv n) m P → steady (on_tcp k m) P.
Proof.
  intros Hk Hm [r ps] Hr. destruct (Hr k) as [_ E]. cbn in E. rewrite Hk in E. unfold tcp_count in E.
  destruct (GetTcpReport k r) as [h|] eqn:Hg; [|done]. injection E as Hn. unfold wp, on_tcp, on_report. rewrite Hg.
  specialize (Hm (Some h, ps)). unfold wp in Hm. destruct (m (Some h, ps)) as [[a [o ps']]| |]; [|destruct Hm; by exists h..].
  destruct Hm as [(h' & Eo & Hn') HP]; [by exists h|]. cbn in Eo. subst o. split; [|done].
  unfold parts_inv in *. cbn in *. etransitivity; [exact Hr|]. eapply SetTcpReport_parts; [done|congruence].
Qed.

(** ** Route configurations *)
Definition route_counts (vhs : list VirtualHost) : list nat := map (λ v, length (vh_routes v)) vhs.
Lemma shaped_counts vhs r : shaped vhs r ↔ vhost_counts r = route_counts vhs.
Proof.
  unfold shaped, vhost_counts, route_counts. generalize (hr_virtualHostReports r) as l. induction vhs as [|v vhs IH]; intros [|vr l]; cbn.
  - by split.
  - split; [intros Hf; inversion Hf|done].
  - split; [intros Hf; inversion Hf|done].
  - rewrite Forall2_cons, IH. split; [intros [-> ->]; done|]. by intros [= -> ->].
Qed.
(** A route configuration has the name and the virtual hosts it is computed from. *)
Definition configures (h : HttpRouteConfigurationTranslator) (c : Envoy.RouteConfiguration) : Prop :=
  Envoy.ec_name c = h_routeConfigName h ∧ length (Envoy.ec_virtualHosts c) = length (hl_virtualHosts (h_listener h)).
Lemma writing_route_configuration h : keeps (http_inv (route_counts (hl_virtualHosts (h_listener h))))
  (on_empty (httpRouteConfigurationTranslator_ComputeRouteConfiguration settings snap h)) (λ cs, Forall2 configures [h] cs).
Proof.
  intros [? ps] (r & [= ->] & Hr). pose proof (wp_ComputeRouteConfiguration settings snap h r ps (proj2 (shaped_counts _ _) Hr)) as Hw.
  unfold wp, on_empty in *. cbn [from_option]. unfold id. destruct (httpRouteConfigurationTranslator_ComputeRouteConfiguration settings snap h (r, ps)) as [[cs [r' ps']]| |]; [|done..].
  destruct Hw as [Hs (c & -> & Hn & Hv)]. split; [|constructor; [|done]; split; [done|by rewrite (Forall2_length _ _ _ Hv)]].
  exists r'. split; [done|]. by apply shaped_counts.
Qed.
Definition route_ready (t : RouteConfigurationTranslator) : Prop :=
  http_counts (rt_report t) r0 = Some (route_counts (hl_virtualHosts (h_listener (rt_translator t)))).
Lemma steady_ComputeRouteConfiguration routes : Forall route_ready routes →
  steady (ComputeRouteConfiguration settings snap routes) (λ cs, Forall2 configures (map rt_translator routes) cs).
Proof.
  intros Hall. apply (keeps_fold_split _ (λ pre cs, Forall2 configures (map rt_translator pre) cs)); [done|].
  intros pre t post acc -> Hacc. apply Forall_app in Hall as [_ [Hc _]%Forall_cons].
  eapply keeps_bind; [eapply steady_http; [exact Hc|apply writing_route_configuration]|]. intros cs Hcs. apply keeps_ret. rewrite map_app. by apply Forall2_app.
Qed.

(** ** Filter chains *)
Definition chain_rds (x : Chain.ExtendedFilterChain) : list string := rds_names (Chain.fc_filters (Chain.xf_chain x)).
Definition listener_rds (l : EnvoyListener) : list string := flat_map (λ c, rds_names (Chain.fc_filters c)) (ln_filterChains l).

Lemma apply_ranges_rds src dst port x : chain_rds (apply_ranges src dst port x) = chain_rds x.
Proof. unfold apply_ranges, applyDestinationPort, applyDestinationPrefixRanges, applySourcePrefixRanges. by destruct src, dst, (0 <? port)%Z. Qed.

Definition custom_staged_http (l : HttpListener) : Prop := Forall staged (hl_customHttpFilters l) ∧ Forall staged (hl_customNetworkFilters l).
Definition http_ready (h : HttpFilterChainTranslator) : Prop :=
  let l := ht_listener (hc_networkFilterTranslator h) in
  http_counts (hc_report h) r0 = Some (route_counts (hl_virtualHosts l)) ∧ custom_staged_http l.
Lemma steady_createFilterChains filters configs :
  steady (createFilterChainsFromSslConfiguration settings snap filters configs) (λ chains, ∀ x, x ∈ chains → Chain.fc_filters (Chain.xf_chain x) = filters).
Proof.
  unfold createFilterChainsFromSslConfiguration. destruct configs as [|c configs]; [apply keeps_ret; by intros x ->%list_elem_of_singleton|].
  apply keeps_fold; [by intros x ?%elem_of_nil|]. intros _ config chains _ Hchains. destruct (ResolveDownstreamSslConfig _ _) as [err|ctx].
  - eapply keeps_bind; [|intros _ _; by apply keeps_ret]. case_match; by apply steady_update.
  - unfold newSslFilterChain. destruct (tls_error ctx); [eapply keeps_bind; [by apply steady_update|]; intros; by apply keeps_ret|].
    apply keeps_ret. intros x [?| ->%list_elem_of_singleton]%elem_of_app; [auto|done].
Qed.
(** The route configuration an HTTP filter chain is for; it has virtual hosts, unless empty
    gateways are translated. *)
Definition names_http (h : HttpFilterChainTranslator) (n : string) : Prop :=
  n = ht_routeConfigName (hc_networkFilterTranslator h) ∧
  (se_translateEmptyGateways settings = false → hl_virtualHosts (ht_listener (hc_networkFilterTranslator h)) ≠ []).
Lemma steady_http_chains h : hcm_plugins_keep → network_plugins_opaque → http_ready h →
  steady (http_ComputeFilterChains settings snap h) (λ chains, ∀ x n, x ∈ chains → n ∈ chain_rds x → names_http h n).
Proof.
  intros Hk Ho (Hc & Hh & Hn). unfold http_ComputeFilterChains. eapply keeps_bind.
  - eapply steady_http; [exact Hc|]. apply writing_http_ComputeNetworkFilters; try done. unfold route_counts. by rewrite length_map.
  - intros res [ps Hres]. destruct res as [err|[|f l]]; [apply keeps_ret; intros ?? []%elem_of_nil..|].
    destruct (network_filters_rds _ _ _ _ Hres) as [|[Hv E]]; [done|].
    eapply keeps_bind; [apply steady_createFilterChains|]. intros chains Hch. apply keeps_ret. intros x n (y & -> & Hy)%list_elem_of_fmap Hin.
    rewrite apply_ranges_rds in Hin. unfold chain_rds in Hin. rewrite (Hch y Hy), E in Hin. by apply list_elem_of_singleton in Hin as ->.
Qed.

(** *** TCP *)
Definition no_hcm (f : Lds.Filter) : Prop := rds_names [f] = [].
Lemma no_hcm_rds l : (∀ f, f ∈ l → no_hcm f) → rds_names l = [].
Proof.
  induction l as [|f l IH]; intros Hf; [done|]. change (f :: l) with ([f] ++ l). rewrite rds_names_app, IH by set_solver. rewrite app_nil_r. by apply Hf; left.
Qed.
Lemma elem_of_drop_sub {A} n (l : list A) x : x ∈ drop n l → x ∈ l.
Proof. intros Hx. rewrite <-(take_drop n l). apply elem_of_app. by right. Qed.
Lemma elem_of_take_sub {A} n (l : list A) x : x ∈ take n l → x ∈ l.
Proof. intros Hx. rewrite <-(take_drop n l). apply elem_of_app. by left. Qed.
Lemma shared_tail_elem spare own f : f ∈ shared_tail spare own → ∃ fs, fs ∈ own ∧ f ∈ fs.
Proof.
  unfold shared_tail. induction own as [|fs own IH] using rev_ind; [by intros ?%elem_of_nil|]. rewrite fold_left_app. cbn. case_match.
  - intros [Hf|Hf]%elem_of_app; [exists fs; set_solver|]. apply elem_of_drop_sub in Hf. destruct IH as (gs & ? & ?); [done|]. exists gs. set_solver.
  - intros Hf. destruct (IH Hf) as (gs & ? & ?). exists gs. set_solver.
Qed.
Lemma appended_filters_elem nf spare own l f : l ∈ appended_filters nf spare own → f ∈ l → f ∈ nf ∨ ∃ fs, fs ∈ own ∧ f ∈ fs.
Proof.
  intros (fs & -> & Hfs)%list_elem_of_fmap [Hf|Hf]%elem_of_app; [by left|right]. case_match; [|by exists fs].
  by eapply shared_tail_elem, elem_of_take_sub.
Qed.

(** What plugins of TCP filter chains promise: no connection managers, and errors that can be
    reported, on hosts the listener has. *)
Definition reportable (n : nat) (e : TcpError) : Prop := ∃ k, te_known e = Some k ∧ ∀ i, kl_hostNum k = Some i → i < n.
Definition tcp_plugins_ok (parent : Listener) (l : TcpListener) : Prop := ∀ p, p ∈ GetTcpFilterChainPlugins → ∀ ps chains errs ps',
  p parent l ps = (chains, errs, ps') →
  (∀ c f, c ∈ chains → f ∈ Chain.fc_filters c → no_hcm f) ∧ (∀ e, e ∈ errs → reportable (length (tl_tcpHosts l)) e).
Definition tcp_ready (t : TcpFilterChainTranslator) : Prop :=
  tcp_count (tt_report t) r0 = Some (length (tl_tcpHosts (tt_listener t))) ∧ Forall staged (tl_customNetworkFilters (tt_listener t)) ∧
  tcp_plugins_ok (tt_parentListener t) (tt_listener t).

Lemma tcp_keeps_error n reason : keeps (tcp_inv n) (tcp_error_report reason) (λ _, True).
Proof. intros [? ps] (t & [= ->] & Ht). cbn. split; [|done]. eexists. by split. Qed.
Lemma tcp_keeps_plugins {A} n (f : PS → A * PS) (P : A → Prop) : (∀ ps a ps', f ps = (a, ps') → P a) → keeps (tcp_inv n) (on_plugins f) P.
Proof. intros Hf [r ps] Hr. unfold wp, on_plugins. destruct (f ps) as [a ps'] eqn:E. split; [done|eauto]. Qed.
Lemma tcp_keeps_reportError n t e : reportable n e → keeps (tcp_inv n) (reportError t e) (λ _, True).
Proof.
  intros (k & Ek & Hi). unfold reportError. rewrite Ek. destruct (kl_level k), (kl_hostNum k) as [i|]; try apply tcp_keeps_error; try by apply keeps_ret.
  intros [? ps] (tr & [= ->] & Ht). assert (i < length (tlr_tcpHostReports tr)) as [hr Hhr]%lookup_lt_is_Some by (rewrite Ht; by apply Hi).
  unfold wp, tcp_host_warning. rewrite Hhr. split; [|done]. eexists. split; [reflexivity|]. cbn. by rewrite length_insert.
Qed.
Lemma tcp_keeps_network n t : network_plugins_opaque → Forall staged (tl_customNetworkFilters (tt_listener t)) →
  keeps (tcp_inv n) (computeNetworkFilters t) (λ fs, Forall (λ s, opaque (sf_filter s)) fs).
Proof.
  intros Ho Hc. destruct (custom_filters_ok custom_network_filter _ Hc) as (custom & Ec & HF). unfold computeNetworkFilters.
  eapply keeps_bind; [apply (keeps_fold _ (λ fs : list (StagedFilter Lds.Filter), Forall (λ s, opaque (sf_filter s)) fs)); [constructor|]|].
  - intros i p acc Hp%list_elem_of_lookup_2 Hacc. eapply keeps_bind; [apply (tcp_keeps_plugins _ _ (λ r, ∀ s f, s ∈ r.1 → sf_filter s = Some f → opaque f))|].
    + intros ps [fs err] ps' E s f Hs Hf. by eapply (proj2 (Ho p Hp)).
    + intros [fs err] Hfs. eapply keeps_bind; [destruct err; [apply tcp_keeps_error|by apply keeps_ret]|]. intros _ _. apply keeps_ret, Forall_app. split; [done|].
      apply Forall_forall. intros s (s' & Hs & Hf & _)%present_elem. eauto.
  - intros fs Hfs. eapply keeps_bind; [by apply (keeps_res _ _ custom (λ c, c = custom))|]. intros ? ->. apply keeps_ret, Forall_app. split; [done|]. by eapply custom_opaque.
Qed.
Lemma opaque_no_hcm f : opaque f → no_hcm f.
Proof. intros [c Hc]. unfold no_hcm. cbn. by rewrite Hc. Qed.
Lemma default_serverNames_filters d c : Chain.fc_filters (default_serverNames d c) = Chain.fc_filters c.
Proof. by destruct d. Qed.
Lemma steady_tcp_chains t : network_plugins_opaque → tcp_ready t →
  steady (on_tcp (tt_report t) (tcp_ComputeFilterChains t)) (λ chains, ∀ x, x ∈ chains → chain_rds x = []).
Proof.
  intros Ho (Hcount & Hcustom & Hp). eapply steady_tcp; [exact Hcount|]. unfold tcp_ComputeFilterChains. eapply keeps_bind; [by apply tcp_keeps_network|]. intros fs Hfs.
  eapply keeps_bind; [apply (keeps_fold _ (λ chains, ∀ c f, c ∈ chains → f ∈ Chain.fc_filters c → no_hcm f)); [by intros c f ?%elem_of_nil|]|].
  - intros i p acc Hin%list_elem_of_lookup_2 Hacc. eapply keeps_bind.
    { apply (tcp_keeps_plugins _ _ (λ r, (∀ c f, c ∈ r.1 → f ∈ Chain.fc_filters c → no_hcm f) ∧ (∀ e, e ∈ r.2 → reportable (length (tl_tcpHosts (tt_listener t))) e))).
      intros ps [chains errs] ps' E. by eapply Hp. }
    intros [chains errs] [Hch Herr]. cbn [fst snd] in *. destruct errs as [|e errs].
    + apply keeps_ret. intros c f [?|(c' & -> & Hc')%list_elem_of_fmap]%elem_of_app; [eauto|]. rewrite default_serverNames_filters. eauto.
    + eapply keeps_bind; [apply keeps_for; intros x Hx; by apply tcp_keeps_reportError, Herr|]. intros _ _. by apply keeps_ret.
  - intros chains Hch. apply keeps_ret. intros x ([c l] & -> & Hin)%list_elem_of_fmap. rewrite apply_ranges_rds. unfold chain_rds. cbn [Chain.xf_chain Chain.fc_filters Chain.with_filters fst snd].
    apply no_hcm_rds. intros f Hf. assert (l ∈ appended_filters (sortNetworkFilters fs) (append_cap (length (sortNetworkFilters fs)) - length (sortNetworkFilters fs)) (map Chain.fc_filters chains)) as Hl.
    { by eapply elem_of_zip_r. }
    destruct (appended_filters_elem _ _ _ _ _ Hl Hf) as [Hnf|(own & (c' & -> & Hc')%list_elem_of_fmap & Hown)]; [|eauto].
    apply opaque_no_hcm. unfold sortNetworkFilters in Hnf. apply list_elem_of_fmap in Hnf as (s & -> & Hs). rewrite sort_Sort_perm in Hs. rewrite Forall_forall in Hfs. by apply Hfs.
Qed.

(** ** The listener *)
Definition chains_ready (f : FilterChainTranslator) : Prop := match f with FilterChains_Http h => http_ready h | FilterChains_Tcp t => tcp_ready t end.
(** The route configurations that filter chains are for. *)
Definition names_of (l : list FilterChainTranslator) (n : string) : Prop := ∃ h, FilterChains_Http h ∈ l ∧ names_http h n.
(** Listener plugins name no other route configurations. *)
Definition listener_plugins_ok : Prop := ∀ p, p ∈ GetListenerPlugins →
  (∀ process l ext out ps err out' ps', ProcessFilterChain p = Some process → process l ext out ps = (err, out', ps') →
     ∀ n, n ∈ listener_rds out' → n ∈ listener_rds out ∨ ∃ x, x ∈ ext ∧ n ∈ chain_rds x) ∧
  (∀ l out ps err out' ps', ProcessListener p l out ps = (err, out', ps') → ∀ n, n ∈ listener_rds out' → n ∈ listener_rds out).

Lemma steady_multi_chains l : hcm_plugins_keep → network_plugins_opaque → Forall chains_ready l →
  steady (multi_ComputeFilterChains settings snap l) (λ chains, ∀ x n, x ∈ chains → n ∈ chain_rds x → names_of l n).
Proof.
  intros Hk Ho Hall. unfold multi_ComputeFilterChains. apply (keeps_fold_split _ (λ pre chains, ∀ x n, x ∈ chains → n ∈ chain_rds x → names_of pre n)); [by intros ?? ?%elem_of_nil|].
  intros pre f post acc -> Hacc. apply Forall_app in Hall as [_ [Hf _]%Forall_cons]. eapply keeps_bind.
  - instantiate (1 := λ chains, ∀ x n, x ∈ chains → n ∈ chain_rds x → names_of [f] n). destruct f as [h|t]; cbn [ComputeFilterChains].
    + eapply keeps_mono; [by apply steady_http_chains|]. intros chains Hch x n Hx Hn. exists h. split; [by left|eauto].
    + eapply keeps_mono; [by apply steady_tcp_chains|]. intros chains Hch x n Hx Hn. rewrite (Hch x Hx) in Hn. by apply elem_of_nil in Hn.
  - intros chains Hch. apply keeps_ret. intros x n [Hx|Hx]%elem_of_app Hn.
    + destruct (Hacc x n Hx Hn) as (h & Hh & ?). exists h. split; [apply elem_of_app; by left|done].
    + destruct (Hch x n Hx Hn) as (h & Hh & ?). exists h. split; [apply elem_of_app; by right|done].
Qed.
Lemma steady_consistency chains matcher : steady (CheckForFilterChainConsistency chains matcher) (λ _, True).
Proof.
  apply keeps_fold; [done|]. intros i c _ _ _. eapply keeps_bind; [case_match; [by apply steady_update|by apply keeps_ret]|]. intros _ _.
  apply keeps_fold; [done|]. intros j c' _ _ _. repeat case_match; first [by apply steady_update | by apply keeps_ret].
Qed.
Lemma steady_ComputeListener listener chains : hcm_plugins_keep → network_plugins_opaque → listener_plugins_ok → Forall chains_ready chains →
  steady (ComputeListener settings snap listener chains) (λ l, ∀ n, n ∈ listener_rds l → names_of chains n).
Proof.
  intros Hk Ho Hl Hall. unfold ComputeListener. eapply keeps_bind; [by apply steady_multi_chains|]. intros ext Hext.
  eapply keeps_bind; [instantiate (1 := λ l, ∀ n, n ∈ listener_rds l → names_of chains n)|].
  - unfold computeListenerAddress. destruct (IsIpv4Address _) as [[v4 strict] err]. eapply keeps_bind; [destruct err; [by apply steady_update|by apply keeps_ret]|].
    intros _ _. apply keeps_ret. intros n (c & (x & -> & Hx)%list_elem_of_fmap & Hn)%elem_of_flat_map. by eapply Hext.
  - intros out Hout. eapply keeps_bind; [apply (keeps_fold _ (λ l, ∀ n, n ∈ listener_rds l → names_of chains n)); [done|]|].
    + intros i p o Hp%list_elem_of_lookup_2 Ho'. destruct (ProcessFilterChain p) as [process|] eqn:Ep; [|by apply keeps_ret].
      eapply keeps_bind; [apply (steady_plugins _ (λ r, ∀ n, n ∈ listener_rds r.2 → names_of chains n))|].
      * intros ps [err o'] ps' E n Hn. destruct (proj1 (Hl p Hp) _ _ _ _ _ _ _ _ Ep E n Hn) as [?|(x & ? & ?)]; eauto.
      * intros [err o'] Ho2. eapply keeps_bind; [apply steady_opt|]. intros _ _. by apply keeps_ret.
    + intros out2 Hout2. eapply keeps_bind; [apply steady_consistency|]. intros _ _.
      apply (keeps_fold _ (λ l, ∀ n, n ∈ listener_rds l → names_of chains n)); [done|]. intros i p o Hp%list_elem_of_lookup_2 Ho'.
      eapply keeps_bind; [apply (steady_plugins _ (λ r, ∀ n, n ∈ listener_rds r.2 → names_of chains n))|].
      * intros ps [err o'] ps' E n Hn. apply Ho'. by eapply (proj2 (Hl p Hp)).
      * intros [err o'] Ho2. eapply keeps_bind; [apply steady_opt|]. intros _ _. by apply keeps_ret.
Qed.

(** *** Both translators of a listener *)
(** A filter chain and the route configuration it is for have the same name, report and listener. *)
Definition paired (f : FilterChainTranslator) (t : RouteConfigurationTranslator) : Prop :=
  match f with
  | FilterChains_Http h => h_routeConfigName (rt_translator t) = ht_routeConfigName (hc_networkFilterTranslator h) ∧ rt_report t = hc_report h ∧
      h_listener (rt_translator t) = ht_listener (hc_networkFilterTranslator h)
  | FilterChains_Tcp _ => False
  end.
Lemma concat_translators_paired (l : list (list FilterChainTranslator * list RouteConfigurationTranslator)) chains routes :
  (∀ p h, p ∈ l → FilterChains_Http h ∈ p.1 → ∃ t, t ∈ p.2 ∧ paired (FilterChains_Http h) t) →
  concat_translators l = Translators_of chains routes → ∀ h, FilterChains_Http h ∈ chains → ∃ t, t ∈ routes ∧ paired (FilterChains_Http h) t.
Proof.
  intros Hl [= <- <-] h (p & Hp & Hh)%elem_of_flat_map. destruct (Hl p h Hp Hh) as (t & Ht & Hpair). exists t. split; [|done].
  apply elem_of_flat_map. by exists p.
Qed.
Lemma GetTranslators_paired proxy listener report chains routes : GetTranslators proxy listener report = Translators_of chains routes →
  ∀ h, FilterChains_Http h ∈ chains → ∃ t, t ∈ routes ∧ paired (FilterChains_Http h) t.
Proof.
  unfold GetTranslators. destruct (li_type listener) as [[l|l|mls|a]|]; [| | | |done].
  - intros [= <- <-] h Hh. apply list_elem_of_singleton in Hh as [= ->]. eexists. split; [by left|done].
  - intros [= <- <-] h Hh. by apply list_elem_of_singleton in Hh.
  - unfold GetHybridListenerTranslators. destruct (lr_type report) as [[]|]; try done. apply concat_translators_paired.
    intros p h (ml & -> & _)%list_elem_of_fmap Hh. unfold matched_translators in *. destruct (ml_type ml) as [[l|l]|]; cbn in *.
    + apply list_elem_of_singleton in Hh as [= ->]. eexists. split; [by left|done].
    + by apply list_elem_of_singleton in Hh.
    + by apply elem_of_nil in Hh.
  - unfold GetAggregateListenerTranslators. destruct (lr_type report) as [[]|]; try done. apply concat_translators_paired.
    intros p h [(fc & -> & _)%list_elem_of_fmap|(tl & -> & _)%list_elem_of_fmap]%elem_of_app Hh; cbn in *.
    + apply list_elem_of_singleton in Hh as [= ->]. eexists. split; [by left|done].
    + unfold aggregate_tcp_translators in Hh. destruct (mtl_listener tl); cbn in Hh; [by apply list_elem_of_singleton in Hh|by apply elem_of_nil in Hh].
Qed.
Lemma paired_ready h t : paired (FilterChains_Http h) t → route_ready t → custom_staged_http (h_listener (rt_translator t)) → http_ready h.
Proof. intros (_ & Hk & Hl) Hc Hs. unfold route_ready in Hc. split; rewrite <-?Hl, <-?Hk; done. Qed.
End Facts.

(** The route configurations of a listener, then the listener: every name of a route
    configuration in the listener is the one of a configuration that was computed. *)
Definition routes_closed settings (l : EnvoyListener) (cs : list Envoy.RouteConfiguration) : Prop := ∀ n, n ∈ listener_rds l →
  ∃ c, c ∈ cs ∧ Envoy.ec_name c = n ∧ (se_translateEmptyGateways settings = false → Envoy.ec_virtualHosts c ≠ []).
(** What the translators of a listener need of its report: its parts. *)
Definition translators_ready `{ListenerLibs} {PS : Type} `{!ListenerPlugins PS} (report : ListenerReport)
    (chains : list FilterChainTranslator) (routes : list RouteConfigurationTranslator) : Prop :=
  (∀ t, t ∈ routes → route_ready report t ∧ custom_staged_http (h_listener (rt_translator t))) ∧
  (∀ t, FilterChains_Tcp t ∈ chains → tcp_ready report t).
Lemma steady_translators `{SslLibs} `{SslHash} `{AnyLibs} `{SortFilters} `{SliceGrowth} `{ListenerLibs} `{RouteLibs} {PS : Type}
    `{!FilterPlugins PS} `{!ListenerPlugins PS} `{!RouteConfigPlugins PS} `{!RoutePluginsLaws PS} `{!GoRange string} settings snap
    proxy listener report chains routes :
  hcm_plugins_keep → network_plugins_opaque → listener_plugins_ok →
  GetTranslators proxy listener report = Translators_of chains routes → translators_ready report chains routes →
  keeps (parts_inv (PS := PS) report) (cs <~ ComputeRouteConfiguration settings snap routes ;; l <~ ComputeListener settings snap listener chains ;; ret (cs, Some l))
    (λ res, ∃ l, res.2 = Some l ∧ routes_closed settings l res.1).
Proof.
  intros Hk Ho Hl Hg [Hroutes Htcp]. assert (Forall (chains_ready report) chains) as Hchains.
  { apply Forall_forall. intros [h|t] Hf; [|by apply Htcp]. destruct (GetTranslators_paired _ _ _ _ _ Hg h Hf) as (t & Ht & Hp).
    destruct (Hroutes t Ht). by eapply paired_ready. }
  eapply keeps_bind; [apply steady_ComputeRouteConfiguration; apply Forall_forall; intros t Ht; by apply Hroutes|]. intros cs Hcs.
  eapply keeps_bind; [by apply steady_ComputeListener|]. intros l Hrds. apply keeps_ret. exists l. split; [done|]. intros n Hn. cbn [fst].
  destruct (Hrds n Hn) as (h & Hf & -> & Hv). destruct (GetTranslators_paired _ _ _ _ _ Hg h Hf) as (t & Ht & Hname & _ & Hlistener).
  apply list_elem_of_lookup in Ht as [i Hi]. assert (map rt_translator routes !! i = Some (rt_translator t)) as Hi' by by rewrite list_lookup_fmap, Hi.
  destruct (Forall2_lookup_l _ _ _ _ _ Hcs Hi') as (c & Hc & Hcn & Hlen). exists c. split; [by eapply list_elem_of_lookup_2|]. split; [congruence|].
  intros Ht0 E. apply (Hv Ht0). rewrite E, Hlistener in Hlen. by destruct (hl_virtualHosts _).
Qed.

(** C13. Connection managers and route configurations. For the translators of a listener of
    any type, with a report that has the parts of the listener, custom filters with a stage,
    existing virtual hosts, and TCP plugins whose errors can be reported: computing the route
    configurations and then the Envoy listener returns, and every route configuration named
    by a connection manager of the listener is among those computed, with virtual hosts
    unless empty gateways are translated. *)
Theorem listener_routes_generated `{SslLibs} `{SslHash} `{AnyLibs} `{SortFilters} `{SliceGrowth} `{ListenerLibs} `{RouteLibs} {PS : Type}
    `{!FilterPlugins PS} `{!ListenerPlugins PS} `{!RouteConfigPlugins PS} `{!RoutePluginsLaws PS} `{!GoRange string} settings snap
    proxy listener report chains routes (ps : PS) :
  hcm_plugins_keep → network_plugins_opaque → listener_plugins_ok →
  GetTranslators proxy listener report = Translators_of chains routes → translators_ready report chains routes →
  wp (cs <~ ComputeRouteConfiguration settings snap routes ;; l <~ ComputeListener settings snap listener chains ;; ret (cs, Some l))
    (λ res _, ∃ l, res.2 = Some l ∧ routes_closed settings l res.1) (report, ps).
Proof.
  intros Hk Ho Hl Hg Hr. eapply wp_mono; [by eapply (steady_translators settings snap proxy listener report)|by intros res s [_ ?]].
Qed.
