(* ===== verification/EnvoyTcpFacts.v ===== *)
(** * Facts about the TCP plugin, and examples of listeners

    The clusters of TCP chains exist; which errors of TCP hosts are warnings. Then a
    listener with its route configurations, and what goes wrong with TCP listeners: shared
    filters, errors that cannot be reported, a warning that takes every chain away. *)

From stdpp Require Import base gmap strings list sorting.
From Stdlib Require Import ZArith.
From S2P Require Import Prelude GoLib GwApi EdgeApi ProxyReports Xds GlooProxy EnvoyRoutes EnvoyRoutesFacts Ssl SslFacts EnvoyFilters EnvoySsl EnvoyListeners EnvoyTcp EnvoySslFacts EnvoyListenersFacts EnvoyRdsFacts.
Import Validation Gloo.

Section Facts.
Context `{SslLibs} `{AnyLibs} `{ListenerLibs} `{RouteLibs} `{AccessLogging} (snap : ApiSnapshot).

(** The clusters a filter sends connections to. *)
Definition tcp_clusters (f : Lds.Filter) : list string :=
  match Lds.fl_config f with
  | Lds.Filter_TcpProxy t => match Lds.tx_clusterSpecifier t with Lds.TcpProxy_Cluster c => [c] | Lds.TcpProxy_WeightedClusters cs => map fst cs end
  | _ => []
  end.
Lemma validateMulti_none ds d : validateMultiDestination snap ds = None → d ∈ ds → validateSingleDestination snap (wd_destination d) = None.
Proof.
  induction ds as [|x ds IH]; cbn; [by intros _ ?%elem_of_nil|]. destruct (validateSingleDestination snap (wd_destination x)) eqn:E; [done|].
  intros Hv [->|Hd]%elem_of_cons; [done|auto].
Qed.
Lemma validateSingle_exists d ref : DestinationToUpstreamRef d = inr ref → validateSingleDestination snap d = None →
  ∃ u, find_upstream snap (up_ref u) = Some u ∧ up_ref u = ref.
Proof.
  unfold validateSingleDestination. intros ->. destruct (find_upstream snap ref) as [u|] eqn:Hu; [|done]. intros _.
  pose proof (Find_some _ _ _ _ Hu) as [_ E]. exists u. by rewrite E.
Qed.
Lemma convert_weighted_clusters ds wc c : validateMultiDestination snap ds = None → convert_weighted ds = inr wc → c ∈ map fst wc →
  ∃ u, find_upstream snap (up_ref u) = Some u ∧ c = Xds.UpstreamToClusterName (up_ref u).
Proof.
  intros Hv. assert (∀ d, d ∈ ds → validateSingleDestination snap (wd_destination d) = None) as Hall by (intros; by eapply validateMulti_none).
  clear Hv. revert wc. induction ds as [|d ds IH]; intros wc; cbn; [by intros [= <-] ?%elem_of_nil|].
  destruct (DestinationToUpstreamRef (wd_destination d)) as [e|ref] eqn:Ed; [done|]. destruct (convert_weighted ds) as [e|wc'] eqn:Ew; [done|]. intros [= <-].
  cbn. intros [->|Hc]%elem_of_cons.
  - destruct (validateSingle_exists _ _ Ed) as (u & Hu & <-); [apply Hall; by left|]. by exists u.
  - eapply IH; [|reflexivity|done]. intros. apply Hall. by right.
Qed.

(** What a warning is about: the first invalid destination is an upstream, or a group, that
    does not exist. *)
Definition missing_upstream (d : Destination) : Prop := ∃ ref, DestinationToUpstreamRef d = inr ref ∧ find_upstream snap ref = None.
Definition first_missing (ds : list WeightedDestination) : Prop := ∃ ds1 d ds2, ds = ds1 ++ d :: ds2 ∧
  Forall (λ d, validateSingleDestination snap (wd_destination d) = None) ds1 ∧ missing_upstream (wd_destination d).
Definition missing (action : option TcpDestination) : Prop :=
  match action with
  | Some (TcpAction_Single d) => missing_upstream d
  | Some (TcpAction_Multi ds) => first_missing ds
  | Some (TcpAction_UpstreamGroup ref) => match find_group snap ref with None => True | Some g => first_missing (ug_destinations g) end
  | _ => False
  end.
Definition warns (e : option Err) : Prop := ∃ err, e = Some err ∧ is_warning err = true.
Lemma single_warns d : warns (validateSingleDestination snap d) ↔ missing_upstream d.
Proof.
  unfold warns, missing_upstream, validateSingleDestination, DestinationToUpstreamRef.
  destruct (de_type d) as [[r|r p|c]|]; [| | |split; [intros (? & [= <-] & ?); done|intros (? & ? & _); done]];
    match goal with |- context [find_upstream snap ?x] => destruct (find_upstream snap x) eqn:Ef end;
    (split; [intros (? & E & ?); first [done | eexists; split; [reflexivity|done]] | intros (? & [= <-] & E); first [congruence | eexists; split; [reflexivity|done]]]).
Qed.
Lemma multi_warns ds : warns (validateMultiDestination snap ds) ↔ first_missing ds.
Proof.
  induction ds as [|d ds IH]; cbn.
  - split; [intros (? & ? & _); done|]. intros (ds1 & ? & ? & E & _). by destruct ds1.
  - destruct (validateSingleDestination snap (wd_destination d)) as [e|] eqn:Ev.
    + pose proof (single_warns (wd_destination d)) as Hs. rewrite Ev in Hs. split.
      * intros (? & [= <-] & Hw). exists [], d, ds. split_and!; [done|constructor|]. apply Hs. by exists e.
      * intros (ds1 & d' & ds2 & E & Hall & Hm). destruct ds1 as [|x ds1]; injection E as -> ->.
        -- apply Hs in Hm as (? & [= <-] & ?). by eexists.
        -- apply Forall_cons in Hall as [Hx _]. congruence.
    + rewrite IH. split.
      * intros (ds1 & d' & ds2 & -> & Hall & Hm). exists (d :: ds1), d', ds2. split_and!; [done|by constructor|done].
      * intros (ds1 & d' & ds2 & E & Hall & Hm). destruct ds1 as [|x ds1]; injection E as -> ->.
        -- apply single_warns in Hm as (? & ? & _). congruence.
        -- apply Forall_cons in Hall as [_ Hall]. by exists ds1, d', ds2.
Qed.
Lemma Validate_warns action : warns (ValidateTcpRouteDestinations snap action) ↔ missing action.
Proof.
  destruct action as [[d|ds|ref|]|]; cbn; [apply single_warns|apply multi_warns| |split; [by intros (? & ? & _)|done]|].
  - unfold validateUpstreamGroup. destruct (find_group snap ref); [apply multi_warns|]. split; [done|]. intros _. by eexists.
  - split; [|done]. intros (? & [= <-] & ?). done.
Qed.

(** After validation, an error is never a warning; and the clusters exist. *)
Lemma tcp_destination_ok host : ValidateTcpRouteDestinations snap (th_destination host) = None →
  match tcp_destination snap host with
  | inl err => is_warning err = false
  | inr (spec, filters) =>
      (∀ f, f ∈ filters → tcp_clusters f = []) ∧
      ∀ c, c ∈ match spec with Lds.TcpProxy_Cluster c => [c] | Lds.TcpProxy_WeightedClusters cs => map fst cs end →
        (∃ u, find_upstream snap (up_ref u) = Some u ∧ c = Xds.UpstreamToClusterName (up_ref u)) ∨ (th_destination host = Some TcpAction_ForwardSniClusterName ∧ c = "")
  end.
Proof.
  assert (∀ ds, validateMultiDestination snap ds = None → match convertToWeightedCluster ds with
    | inl err => is_warning err = false
    | inr wc => ∀ c, c ∈ map fst wc → ∃ u, find_upstream snap (up_ref u) = Some u ∧ c = Xds.UpstreamToClusterName (up_ref u) end) as Hmulti.
  { intros ds Hv. unfold convertToWeightedCluster. destruct ds as [|d ds]; [done|]. destruct (convert_weighted (d :: ds)) as [e|wc] eqn:E.
    - revert E Hv. generalize (d :: ds). clear. intros l. revert e. induction l as [|d l IH]; intros e; cbn; [done|].
      destruct (DestinationToUpstreamRef (wd_destination d)) as [e'|] eqn:Ed.
      + unfold DestinationToUpstreamRef in Ed. by destruct (de_type (wd_destination d)) as [[]|]; [..|injection Ed as <-; intros [= <-]].
      + destruct (convert_weighted l) as [e'|]; [|done]. intros [= ->]. destruct (validateSingleDestination _ _); [done|]. by apply IH.
    - intros c Hc. by eapply convert_weighted_clusters. }
  unfold tcp_destination. destruct (th_destination host) as [[d|ds|ref|]|]; cbn; intros Hv; [| | | |done].
  - destruct (DestinationToUpstreamRef d) as [e|ref] eqn:Ed.
    + unfold DestinationToUpstreamRef in Ed. by destruct (de_type d) as [[]|]; [..|injection Ed as <-].
    + split; [by intros ? ?%elem_of_nil|]. intros c ->%list_elem_of_singleton. left. destruct (validateSingle_exists _ _ Ed Hv) as (u & ? & <-). by exists u.
  - specialize (Hmulti ds Hv). destruct (convertToWeightedCluster ds); [done|]. split; [by intros ? ?%elem_of_nil|]. intros c Hc. left. by apply Hmulti.
  - unfold validateUpstreamGroup in Hv. destruct (find_group snap ref) as [g|]; [|done]. specialize (Hmulti _ Hv).
    destruct (convertToWeightedCluster (ug_destinations g)); [done|]. split; [by intros ? ?%elem_of_nil|]. intros c Hc. left. by apply Hmulti.
  - destruct sni_error; [done|]. split; [by intros ? ->%list_elem_of_singleton|]. intros c ->%list_elem_of_singleton. by right.
Qed.

(** The filters of a host, or an error that is a warning when the destination is missing. *)
Lemma tcp_proxy_filters_ok parent l host :
  match tcpProxyFilters snap parent host (tl_tcpProxySettings l) (statPrefix_of l) with
  | inl err => is_warning err = true ↔ flush_too_short (tl_tcpProxySettings l) = false ∧ missing (th_destination host)
  | inr filters => flush_too_short (tl_tcpProxySettings l) = false ∧ ¬ missing (th_destination host) ∧
      ∀ f c, f ∈ filters → c ∈ tcp_clusters f →
      (∃ u, find_upstream snap (up_ref u) = Some u ∧ c = Xds.UpstreamToClusterName (up_ref u)) ∨ (th_destination host = Some TcpAction_ForwardSniClusterName ∧ c = "")
  end.
Proof.
  pose proof (Validate_warns (th_destination host)) as Hw. pose proof (tcp_destination_ok host) as Hok. unfold tcpProxyFilters.
  destruct (flush_too_short (tl_tcpProxySettings l)); [split; [done|by intros [? _]]|].
  destruct (ValidateTcpRouteDestinations snap (th_destination host)) as [err|].
  { rewrite <-Hw. split; [intros ?; split; [done|by eexists]|by intros (_ & ? & [= <-] & ?)]. }
  assert (¬ missing (th_destination host)) as Hm by (rewrite <-Hw; by intros (? & ? & _)). specialize (Hok eq_refl).
  destruct (tcp_destination snap host) as [err|[spec filters]]; [split; [congruence|tauto]|].
  destruct (ProcessAccessLogPlugins parent) as [err|logs]; [split; [done|tauto]|].
  destruct (tcp_error _) as [err|]; [split; [done|tauto]|].
  destruct Hok as [Hn Hc]. split_and!; [done|done|]. intros f c [Hf|[= ->]%list_elem_of_singleton]%elem_of_app; [rewrite (Hn f Hf); by intros ?%elem_of_nil|].
  cbn. intros Hin. by apply Hc.
Qed.
Lemma computeTcpFilterChain_filters filters host chain : computeTcpFilterChain snap filters host = inr chain → Chain.fc_filters chain = filters.
Proof.
  unfold computeTcpFilterChain, newSslFilterChain. destruct (th_sslConfig host); [|by intros [= <-]].
  destruct (ResolveDownstreamSslConfig _ _) as [|ctx]; [done|]. destruct (tls_error ctx); [done|]. by intros [= <-].
Qed.

Lemma tcp_proxy_filters_no_hcm parent host settings statPrefix filters f :
  tcpProxyFilters snap parent host settings statPrefix = inr filters → f ∈ filters → no_hcm f.
Proof.
  unfold tcpProxyFilters, tcp_destination. intros E. repeat case_match; simplify_eq;
    intros Hf; repeat (apply elem_of_cons in Hf as [->|Hf]; [done|]); by apply elem_of_nil in Hf.
Qed.
Lemma tcp_host_error_number parent l i host :
  match tcp_host_chain snap parent l i host with
  | inl e => ∀ k, te_known e = Some k → k = {| kl_level := ErrorLevels_WARNING; kl_hostNum := Some i; kl_destinationNotFound := false |}
  | inr _ => True
  end.
Proof.
  unfold tcp_host_chain, host_error. repeat case_match; simplify_eq; cbn; try done; by intros ? [= <-].
Qed.
(** The plugin as the listeners need it, when every error of a host can be reported. *)
Definition hosts_reportable parent (l : TcpListener) : Prop :=
  ∀ i host e, tl_tcpHosts l !! i = Some host → tcp_host_chain snap parent l i host = inl e → is_Some (te_known e).
Lemma tcp_plugin_ok {PS : Type} parent l (ps : PS) chains errs ps' : hosts_reportable parent l → tcp_CreateTcpFilterChains snap parent l ps = (chains, errs, ps') →
  (∀ c f, c ∈ chains → f ∈ Chain.fc_filters c → no_hcm f) ∧ (∀ e, e ∈ errs → reportable (length (tl_tcpHosts l)) e).
Proof.
  intros Hrep. unfold tcp_CreateTcpFilterChains. intros [= <- <- _]. split.
  - intros c f (r & (i & host & -> & _)%elem_of_lookup_imap & Hr)%list_elem_of_omap Hf. unfold tcp_host_chain in Hr.
    destruct (tcpProxyFilters _ _ _ _ _) as [err|filters] eqn:Ef; [done|]. destruct (computeTcpFilterChain _ _ _) as [err|chain] eqn:Ec; [done|]. injection Hr as <-.
    rewrite (computeTcpFilterChain_filters _ _ _ Ec) in Hf. by eapply tcp_proxy_filters_no_hcm.
  - intros e (r & (i & host & -> & Hi)%elem_of_lookup_imap & Hr)%list_elem_of_omap.
    pose proof (tcp_host_error_number parent l i host) as Hn. destruct (tcp_host_chain snap parent l i host) as [e'|] eqn:Ee; [|done]. injection Hr as <-.
    destruct (Hrep i host e' Hi Ee) as [k Hk]. exists k. split; [done|]. intros j Hj. rewrite (Hn k Hk) in Hj. injection Hj as <-. by eapply lookup_lt_Some.
Qed.

(** C26. TCP hosts: when a host gives a filter chain, every cluster its TCP proxy names is the
    one of an upstream of the snapshot (or is empty, when the SNI name is to be the cluster);
    when it gives an error, it is a warning, numbered with the host, exactly when the access
    log flush interval is not too short and the first invalid destination is an upstream or
    group that does not exist. *)
Theorem tcp_host_chain_correct parent l i host :
  match tcp_host_chain snap parent l i host with
  | inr chain => ∀ f c, f ∈ Chain.fc_filters chain → c ∈ tcp_clusters f →
      (∃ u, find_upstream snap (up_ref u) = Some u ∧ c = Xds.UpstreamToClusterName (up_ref u)) ∨ (th_destination host = Some TcpAction_ForwardSniClusterName ∧ c = "")
  | inl e => (∀ k, te_known e = Some k → k = {| kl_level := ErrorLevels_WARNING; kl_hostNum := Some i; kl_destinationNotFound := false |}) ∧
             (is_Some (te_known e) ↔ flush_too_short (tl_tcpProxySettings l) = false ∧ missing (th_destination host))
  end.
Proof.
  pose proof (Validate_warns (th_destination host)) as Hw. pose proof (tcp_proxy_filters_ok parent l host) as Hok.
  unfold tcp_host_chain. destruct (tcpProxyFilters _ _ _ _ _) as [err|filters].
  - unfold host_error. destruct (is_warning err); cbn; (split; [by intros ? [=]|]).
    + split; [intros _; by apply Hok|by eexists].
    + split; [by intros []|]. by intros ?%Hok.
  - destruct Hok as (Hf & Hm & Hok). destruct (computeTcpFilterChain _ _ _) as [err|chain] eqn:Hc; cbn.
    + split; [done|]. split; [by intros []|]. tauto.
    + rewrite (computeTcpFilterChain_filters _ _ _ Hc). eauto.
Qed.
End Facts.
