(* ===== verification/EnvoyClusters.v ===== *)
(** * Envoy clusters and endpoints

    gloo/pkg/translator/clusters.go, endpoints.go and upstream_groups.go, gloo/pkg/xds/
    utils.go and plugins/utils/upstreamproxyprotocol: an upstream becomes an Envoy cluster,
    which finds its endpoints by EDS when the snapshot has any; these become its load
    assignment. Errors go to the resource reports. State: the reports and the plugins'
    ([M (ResourceReports * PS)]). The translation writes defaults into upstreams and
    namespaces into upstream groups of the snapshot, which it returns. Plugins are taken
    not to write to the snapshot. *)

From stdpp Require Import base gmap strings list fin_maps pretty.
From Stdlib Require Import ZArith Ascii.
From S2P Require Import Prelude GoLib GwApi EdgeApi ProxyReports ResourceReports Xds Sanitizers GlooProxy EnvoyRoutes Ssl.
Import Gloo.

(** ** Envoy's messages *)
Module Cds.
Inductive DiscoveryType := STATIC | STRICT_DNS | LOGICAL_DNS | EDS | ORIGINAL_DST.
Definition String (t : DiscoveryType) : string :=
  match t with STATIC => "STATIC" | STRICT_DNS => "STRICT_DNS" | LOGICAL_DNS => "LOGICAL_DNS" | EDS => "EDS" | ORIGINAL_DST => "ORIGINAL_DST" end.
(** The oneof [cluster_discovery_type]. *)
Inductive ClusterDiscoveryType := Cluster_Type (t : DiscoveryType) | Cluster_ClusterType (custom : string).
Inductive ConfigSource := ConfigSource_RestApi (clusterNames : list string) | ConfigSource_Ads.
Record EdsClusterConfig := { ed_config : ConfigSource; ed_serviceName : string }.
Inductive FallbackPolicy := LbSubset_NO_FALLBACK | LbSubset_ANY_ENDPOINT | LbSubset_DEFAULT_SUBSET.
Record LbSubsetConfig := { lb_fallbackPolicy : FallbackPolicy; lb_defaultSubset : option (gmap string string); lb_selectors : list SubsetSelector }.
Inductive TransportSocket :=
| TransportSocket_Tls (c : Tls.UpstreamTlsContext)
| TransportSocket_RawBuffer
| TransportSocket_ProxyProtocol (version : Z) (inner : TransportSocket)
| TransportSocket_Other (s : string).
(** A map of structs; the fields are strings. *)
Abbreviation Metadata := (gmap string (gmap string string)).
Record LbEndpoint := {
  le_metadata : option (gmap string (gmap string string)); le_address : string; le_port : Z; le_healthCheckHostname : option string; le_hostname : string }.
(** [la_endpoints]: the endpoints of each locality. *)
Record ClusterLoadAssignment := { la_clusterName : string; la_endpoints : list (list LbEndpoint) }.
(** [cl_loadAssignment]: of a cluster that does not use EDS, the number of its localities. *)
Record Cluster := {
  cl_name : string; cl_discovery : option ClusterDiscoveryType; cl_edsClusterConfig : option EdsClusterConfig;
  cl_connectTimeout : Z; cl_circuitBreakers : option CircuitBreakerConfig; cl_lbSubsetConfig : option LbSubsetConfig;
  cl_healthChecks : list string; cl_outlierDetection : option string; cl_protocolSelection : Z; cl_http2 : bool;
  cl_ignoreHealthOnHostRemoval : bool; cl_respectDnsTtl : bool; cl_dnsRefreshRate : option Z; cl_preconnectPolicy : option PreconnectPolicy;
  cl_transportSocket : option TransportSocket; cl_loadAssignment : nat; cl_other : string }.
Definition GetType (c : Cluster) : DiscoveryType := match cl_discovery c with Some (Cluster_Type t) => t | _ => STATIC end.
Definition with_eds (config : ConfigSource) (c : Cluster) : Cluster :=
  {| cl_name := cl_name c; cl_discovery := Some (Cluster_Type EDS); cl_edsClusterConfig := Some {| ed_config := config; ed_serviceName := "" |};
     cl_connectTimeout := cl_connectTimeout c; cl_circuitBreakers := cl_circuitBreakers c; cl_lbSubsetConfig := cl_lbSubsetConfig c;
     cl_healthChecks := cl_healthChecks c; cl_outlierDetection := cl_outlierDetection c; cl_protocolSelection := cl_protocolSelection c;
     cl_http2 := cl_http2 c; cl_ignoreHealthOnHostRemoval := cl_ignoreHealthOnHostRemoval c; cl_respectDnsTtl := cl_respectDnsTtl c;
     cl_dnsRefreshRate := cl_dnsRefreshRate c; cl_preconnectPolicy := cl_preconnectPolicy c; cl_transportSocket := cl_transportSocket c;
     cl_loadAssignment := cl_loadAssignment c; cl_other := cl_other c |}.
(** Writing the service name; the configuration is dereferenced. *)
Definition with_serviceName (n : string) (c : Cluster) : option Cluster :=
  match cl_edsClusterConfig c with
  | None => None
  | Some e => Some
    {| cl_name := cl_name c; cl_discovery := cl_discovery c; cl_edsClusterConfig := Some {| ed_config := ed_config e; ed_serviceName := n |};
       cl_connectTimeout := cl_connectTimeout c; cl_circuitBreakers := cl_circuitBreakers c; cl_lbSubsetConfig := cl_lbSubsetConfig c;
       cl_healthChecks := cl_healthChecks c; cl_outlierDetection := cl_outlierDetection c; cl_protocolSelection := cl_protocolSelection c;
       cl_http2 := cl_http2 c; cl_ignoreHealthOnHostRemoval := cl_ignoreHealthOnHostRemoval c; cl_respectDnsTtl := cl_respectDnsTtl c;
       cl_dnsRefreshRate := cl_dnsRefreshRate c; cl_preconnectPolicy := cl_preconnectPolicy c; cl_transportSocket := cl_transportSocket c;
       cl_loadAssignment := cl_loadAssignment c; cl_other := cl_other c |}
  end.
End Cds.

(** ** Code outside the translation *)
Class ClusterLibs `{Errors} := {
  (** [core.ResourceRef.Key] of solo-kit *)
  ref_Key : NamespacedName → string;
  (** whether [structpb.NewStruct] accepts the strings *)
  NewStruct_ok : gmap string string → bool;
  (** api_conversion: a health check, with the secrets its headers may refer to from the
      namespace of the upstream; an outlier detection *)
  ToEnvoyHealthCheck : HealthCheck → list Secret → string → bool → error + string;
  ToEnvoyOutlierDetection : OutlierDetection → string;
  (** [core.v3.ProxyProtocolConfig_Version_value] *)
  Version_value : string → option Z;
  (** the errors of marshalling a TLS context, and a proxy protocol socket *)
  upstream_tls_error : Tls.UpstreamTlsContext → option string;
  proxy_protocol_error : Z → Cds.TransportSocket → option error;
  (** the minimal DNS refresh rate as protobuf prints it *)
  minimumDnsRefreshRate_String : string;
  (** the generated hash of an upstream *)
  hash_upstream : Upstream → error + N
}.
Class ClusterPlugins `{Errors} (PS : Type) := {
  GetUpstreamPlugins : list (ApiSnapshot → Upstream → Cds.Cluster → PS → option error * Cds.Cluster * PS);
  GetEndpointPlugins : list (ApiSnapshot → Upstream → Cds.ClusterLoadAssignment → PS → option error * Cds.ClusterLoadAssignment * PS)
}.

Definition with_upstreams (l : list Upstream) (s : ApiSnapshot) : ApiSnapshot :=
  {| sn_upstreams := l; sn_upstreamGroups := sn_upstreamGroups s; sn_endpoints := sn_endpoints s; sn_authConfigs := sn_authConfigs s; sn_secrets := sn_secrets s |}.
Definition with_upstreamGroups (l : list UpstreamGroup) (s : ApiSnapshot) : ApiSnapshot :=
  {| sn_upstreams := sn_upstreams s; sn_upstreamGroups := l; sn_endpoints := sn_endpoints s; sn_authConfigs := sn_authConfigs s; sn_secrets := sn_secrets s |}.

Section Translator.
Context `{Errors, !SoloReports, !ClusterLibs, SslLibs, RouteLibs} {PS : Type} `{!ClusterPlugins PS, !GoRange string} (settings : Settings).
Implicit Types (upstream : Upstream).

Definition UpstreamGroupKind : string := "*v1.UpstreamGroup".
Definition AddError (k : ResourceKey) (e : error) : M (ResourceReports * PS) unit := update_report (AddErrors k [e]).
Definition AddWarning (k : ResourceKey) (w : string) : M (ResourceReports * PS) unit := update_report (AddWarnings k [w]).
Definition add_opt (k : ResourceKey) (e : option error) : M (ResourceReports * PS) unit := match e with Some e => AddError k e | None => ret tt end.
(** The value, or nothing and the error is reported. *)
Definition or_report {A} (k : ResourceKey) (zero : A) (r : error + A) : M (ResourceReports * PS) A :=
  match r with inl e => do! AddError k e ;; ret zero | inr a => ret a end.

(** *** Parts of a cluster *)
Definition NilFieldError (fieldName : string) : error := ProxyReports.New ("The field " +:+ fieldName +:+ " cannot be nil").
Fixpoint health_checks (i : nat) (l : list HealthCheck) (convert : HealthCheck → error + string) : error + list string :=
  match l with
  | [] => inr []
  | hc :: l =>
      let field name := NilFieldError ("HealthCheck[" +:+ itoa i +:+ "]." +:+ name) in
      match hc_healthyThreshold hc, hc_unhealthyThreshold hc, hc_healthChecker hc with
      | None, _, _ => inl (field "HealthyThreshold")
      | _, None, _ => inl (field "UnhealthyThreshold")
      | _, _, None => inl (field "HealthChecker")
      | _, _, _ => match convert hc with
          | inl e => inl e
          | inr c => match health_checks (i + 1) l convert with inl e => inl e | inr cs => inr (c :: cs) end
          end
      end
  end.
Definition createHealthCheckConfig upstream (secrets : list Secret) (shouldEnforceNamespaceMatch : bool) : error + list string :=
  health_checks 0 (up_healthChecks upstream) (λ hc, ToEnvoyHealthCheck hc secrets (nn_ns (up_ref upstream)) shouldEnforceNamespaceMatch).
Definition createOutlierDetectionConfig upstream : error + option string :=
  match up_outlierDetection upstream with
  | None => inr None
  | Some od => match od_interval od with
      | None => inl (NilFieldError "OutlierDetection.HealthChecker.Interval")
      | Some _ => inr (Some (ToEnvoyOutlierDetection od))
      end
  end.
Definition convertDefaultSubset (defaultSubset : option (gmap string string)) : option (gmap string string) :=
  match defaultSubset with Some m => if NewStruct_ok m then Some m else None | None => None end.
Definition convertFallbackPolicy (fallbackPolicy : FallbackPolicy) : Cds.FallbackPolicy :=
  match fallbackPolicy with
  | FallbackPolicy_NO_FALLBACK => Cds.LbSubset_NO_FALLBACK
  | FallbackPolicy_ANY_ENDPOINT => Cds.LbSubset_ANY_ENDPOINT
  | FallbackPolicy_DEFAULT_SUBSET => Cds.LbSubset_DEFAULT_SUBSET
  | FallbackPolicy_Other _ => Cds.LbSubset_ANY_ENDPOINT
  end.
Definition createLbConfig upstream : option Cds.LbSubsetConfig :=
  match up_subsetSpec upstream with
  | None => None
  | Some c => Some {| Cds.lb_fallbackPolicy := convertFallbackPolicy (sp_fallbackPolicy c); Cds.lb_defaultSubset := convertDefaultSubset (sp_defaultSubset c);
                      Cds.lb_selectors := sp_selectors c |}
  end.
(** The first that is not nil. *)
Definition getCircuitBreakers (cfgs : list (option CircuitBreakerConfig)) : option CircuitBreakerConfig := head (omap id cfgs).
Definition silly (v : option DoubleValue) : bool := match v with Some v => dv_below_1 v || dv_above_3 v | None => false end.
(** Both messages print the first ratio. *)
Definition getPreconnectPolicy (cfgs : list (option PreconnectPolicy)) : error + option PreconnectPolicy :=
  match head (omap id cfgs) with
  | None => inr None
  | Some cfg =>
      let perUpstream := from_option dv_text "0" (pc_perUpstream cfg) in
      let eStrings := (if silly (pc_perUpstream cfg) then ["perupstream must be between 1 and 3 if set, it was: " +:+ perUpstream] else []) ++
                      (if silly (pc_predictive cfg) then ["predictive must be between 1 and 3 if set, it was: " +:+ perUpstream] else []) in
      match eStrings with [] => inr (Some cfg) | _ => inl (ProxyReports.New ("invalid preconnect policy: " +:+ join "; " eStrings)) end
  end.
Definition minimumDnsRefreshRate : Z := 1000000.
Definition getDnsRefreshRate upstream : M (ResourceReports * PS) (option Z) :=
  match up_dnsRefreshRate upstream with
  | None => ret None
  | Some refreshRate =>
      if (refreshRate <? minimumDnsRefreshRate)%Z then
        do! AddWarning (upstream_key (up_ref upstream))
              ("dnsRefreshRate was set below minimum requirement (" +:+ minimumDnsRefreshRate_String +:+ "), ignoring configuration") ;;
        ret None
      else ret (Some refreshRate)
  end.
Definition validateCluster (c : Cds.Cluster) : option error :=
  match Cds.cl_discovery c with
  | Some (Cds.Cluster_ClusterType _) => None
  | _ =>
      let t := Cds.GetType c in
      let dns := match t with Cds.STRICT_DNS | Cds.LOGICAL_DNS => true | _ => false end in
      if (dns || match t with Cds.STATIC => true | _ => false end) && (Cds.cl_loadAssignment c =? 0)
      then Some (ProxyReports.New ("cluster type " +:+ Cds.String t +:+ " specified but LoadAssignment was empty"))
      else if bool_decide (is_Some (Cds.cl_dnsRefreshRate c)) && negb dns
      then Some (ProxyReports.New ("DnsRefreshRate is only valid with STRICT_DNS or LOGICAL_DNS cluster type, found " +:+ Cds.String t))
      else None
  end.

(** *** upstreamproxyprotocol: the version, perhaps in quotes *)
Definition slice_1_last (s : string) : res string :=
  if String.length s =? 1 then Panic "slice bounds out of range" else Ok (String.substring 1 (String.length s - 2) s).
Definition WrapWithPProtocol (oldTs : option Cds.TransportSocket) (pPVerValStr : string) : res (error + option Cds.TransportSocket) :=
  if bool_decide (pPVerValStr = "") then Ok (inr oldTs)
  else
    let unquoted := match slice_1_last pPVerValStr with Ok s => s | _ => "" end in
    let pPVerVal := match Version_value pPVerValStr with
      | Some v => Some v
      | None => if (2 <=? String.length pPVerValStr) && bool_decide (String.get 0 pPVerValStr = Some "034"%char) then Version_value unquoted else None
      end in
    match pPVerVal with
    | None => res_bind (slice_1_last pPVerValStr) (λ s, Ok (inl (ProxyReports.New ("proxy protocol version " +:+ s +:+ " is not supported"))))
    | Some v =>
        let inner := default Cds.TransportSocket_RawBuffer oldTs in
        Ok match proxy_protocol_error v inner with Some e => inl e | None => inr (Some (Cds.TransportSocket_ProxyProtocol v inner)) end
    end.

(** *** xds/utils.go *)
Definition GlooRestXdsName : string := "rest_xds_cluster".
Definition SetEdsOnCluster (out : Cds.Cluster) : Cds.Cluster :=
  Cds.with_eds (if default false (se_enableRestEds settings) then Cds.ConfigSource_RestApi [GlooRestXdsName] else Cds.ConfigSource_Ads) out.

(** *** Clusters *)
Definition applyDefaultsToUpstreamSslConfig (c : UpstreamSslConfig) : UpstreamSslConfig :=
  {| us_sslSecrets := us_sslSecrets c; us_sni := us_sni c; us_verifySubjectAltName := us_verifySubjectAltName c;
     us_parameters := match us_parameters c with None => se_upstreamSslParameters settings | p => p end;
     us_alpnProtocols := us_alpnProtocols c; us_allowRenegotiation := us_allowRenegotiation c; us_oneWayTls := us_oneWayTls c |}.
(** The upstream once the defaults are written into it. *)
Definition with_ssl_defaults upstream : Upstream :=
  {| up_ref := up_ref upstream; up_subsetSpec := up_subsetSpec upstream; up_healthChecks := up_healthChecks upstream;
     up_outlierDetection := up_outlierDetection upstream; up_preconnectPolicy := up_preconnectPolicy upstream;
     up_circuitBreakers := up_circuitBreakers upstream; up_protocolSelection := up_protocolSelection upstream; up_useHttp2 := up_useHttp2 upstream;
     up_ignoreHealthOnHostRemoval := up_ignoreHealthOnHostRemoval upstream; up_respectDnsTtl := up_respectDnsTtl upstream;
     up_dnsRefreshRate := up_dnsRefreshRate upstream; up_sslConfig := option_map applyDefaultsToUpstreamSslConfig (up_sslConfig upstream);
     up_proxyProtocolVersion := up_proxyProtocolVersion upstream; up_lambdaFunctions := up_lambdaFunctions upstream; up_other := up_other upstream |}.
Definition transport_socket (k : ResourceKey) (secrets : list Secret) (sslConfig : option UpstreamSslConfig) :
    M (ResourceReports * PS) (option Cds.TransportSocket) :=
  match sslConfig with
  | None => ret None
  | Some c => match ResolveUpstreamSslConfig secrets c with
      | inl err =>
          do! (if se_warnMissingTlsSecret settings && is_SslSecretNotFoundError err then AddWarning k (ssl_message err)
               else AddError k (ProxyReports.New (ssl_message err))) ;;
          ret None
      | inr cfg => match upstream_tls_error cfg with Some err => panic err | None => ret (Some (Cds.TransportSocket_Tls cfg)) end
      end
  end.
Definition proxy_protocol (k : ResourceKey) (version : option string) (socket : option Cds.TransportSocket) :
    M (ResourceReports * PS) (option Cds.TransportSocket) :=
  match version with
  | None => ret socket
  | Some v => wrapped <~ lift_res (WrapWithPProtocol socket v) ;; or_report k socket wrapped
  end.
Definition ClusterConnectionTimeout : Z := 5000000000.
(** The second argument: the endpoints of the upstream. *)
Definition initializeCluster upstream (eps : list Endpoint) (secrets : list Secret) (shouldEnforceNamespaceMatch : bool) :
    M (ResourceReports * PS) Cds.Cluster :=
  let k := upstream_key (up_ref upstream) in
  hcConfig <~ or_report k [] (createHealthCheckConfig upstream secrets shouldEnforceNamespaceMatch) ;;
  detectCfg <~ or_report k None (createOutlierDetectionConfig upstream) ;;
  preconnect <~ or_report k None (getPreconnectPolicy [up_preconnectPolicy upstream]) ;;
  dnsRefreshRate <~ getDnsRefreshRate upstream ;;
  socket <~ transport_socket k secrets (up_sslConfig (with_ssl_defaults upstream)) ;;
  socket <~ proxy_protocol k (up_proxyProtocolVersion upstream) socket ;;
  let out :=
    {| Cds.cl_name := Xds.UpstreamToClusterName (up_ref upstream); Cds.cl_discovery := None; Cds.cl_edsClusterConfig := None;
       Cds.cl_connectTimeout := ClusterConnectionTimeout;
       Cds.cl_circuitBreakers := getCircuitBreakers [up_circuitBreakers upstream; se_circuitBreakers settings];
       Cds.cl_lbSubsetConfig := createLbConfig upstream; Cds.cl_healthChecks := hcConfig; Cds.cl_outlierDetection := detectCfg;
       Cds.cl_protocolSelection := up_protocolSelection upstream; Cds.cl_http2 := up_useHttp2 upstream;
       Cds.cl_ignoreHealthOnHostRemoval := up_ignoreHealthOnHostRemoval upstream; Cds.cl_respectDnsTtl := up_respectDnsTtl upstream;
       Cds.cl_dnsRefreshRate := dnsRefreshRate; Cds.cl_preconnectPolicy := preconnect; Cds.cl_transportSocket := socket;
       Cds.cl_loadAssignment := 0; Cds.cl_other := "" |} in
  ret (if 0 <? length eps then SetEdsOnCluster out else out).

(** The snapshot the plugins see has the defaults in this upstream and those before it. *)
Definition computeCluster (snap : ApiSnapshot) upstream (eps : list Endpoint) (shouldEnforceNamespaceMatch : bool) : M (ResourceReports * PS) Cds.Cluster :=
  let k := upstream_key (up_ref upstream) in
  out <~ initializeCluster upstream eps (sn_secrets snap) shouldEnforceNamespaceMatch ;;
  out <~ fold_range 0 GetUpstreamPlugins out (λ _ plugin out,
    let! (err, out) <~ on_plugins (plugin snap (with_ssl_defaults upstream) out) ;;
    do! add_opt k err ;;
    ret out) ;;
  do! add_opt k (option_map (λ err, ProxyReports.Wrap err "cluster was configured improperly by one or more plugins") (validateCluster out)) ;;
  ret out.

(** *** Lambda functions of routes *)
Definition GetVirtualHostsForListener (listener : Listener) : list VirtualHost :=
  match li_type listener with
  | Some (Listener_HttpListener l) => hl_virtualHosts l
  | Some (Listener_HybridListener mls) => flat_map (λ ml, match ml_type ml with Some (MatchedListener_HttpListener l) => hl_virtualHosts l | _ => [] end) mls
  | Some (Listener_AggregateListener a) => map snd (go_range (al_virtualHosts a))
  | Some (Listener_TcpListener _) | None => []
  end.
Abbreviation Lambdas := (gmap string (gset string)).
Definition upstream_lambdas (upstreams : list Upstream) : Lambdas :=
  fold_left (λ m u, match up_lambdaFunctions u with
    | [] => m
    | fs => let n := Xds.UpstreamToClusterName (up_ref u) in <[n := default ∅ (m !! n) ∪ list_to_set fs]> m
    end) upstreams ∅.
Definition proxy_key (proxy : Proxy) : ResourceKey := (ProxyKind, px_ref proxy).
(** The destinations of a route, or the error of the proxy. *)
Definition lambda_destinations (snap : ApiSnapshot) (route : Route) : error + list Destination :=
  match ro_action route with
  | Some (Route_RouteAction action) => match action with
      | Some (RouteAction_Single d) => inr [d]
      | Some (RouteAction_Multi ds) => inr (map wd_destination ds)
      | Some (RouteAction_UpstreamGroup ref) => match find_group snap ref with
          | None => inl (ProxyReports.New ("upstream group not found, (Name: " +:+ nn_name ref +:+ ", Namespace: " +:+ nn_ns ref +:+ ")"))
          | Some ug => inr (map wd_destination (ug_destinations ug))
          end
      | Some (RouteAction_ClusterHeader _) | Some (RouteAction_DynamicForwardProxy _) => inr []
      | None => inl (ProxyReports.New "route destination type <nil> not supported with AWS Lambda")
      end
  | _ => inr []
  end.
(** A lambda that the upstream of the destination does not have. *)
Definition missing_lambda (lambdas : Lambdas) (d : Destination) : option string :=
  match de_type d, de_aws d with
  | Some (Destination_Upstream ref), Some name =>
      if bool_decide (name ∈ default ∅ (lambdas !! Xds.UpstreamToClusterName ref)) then None else Some name
  | _, _ => None
  end.
Definition validateRouteDestinationForValidLambdas (proxy : Proxy) (snap : ApiSnapshot) (lambdas : Lambdas) (route : Route) : M (ResourceReports * PS) unit :=
  match lambda_destinations snap route with
  | inl err => AddError (proxy_key proxy) err
  | inr destinations => for_range destinations (λ d, match missing_lambda lambdas d with
      | Some name => AddError (proxy_key proxy) (ProxyReports.New ("a route references " +:+ name +:+ " AWS lambda which does not exist on the route's upstream"))
      | None => ret tt
      end)
  end.
Definition validateUpstreamLambdaFunctions (proxy : Proxy) (snap : ApiSnapshot) : M (ResourceReports * PS) unit :=
  let lambdas := upstream_lambdas (sn_upstreams snap) in
  for_range (px_listeners proxy) (λ listener,
    for_range (GetVirtualHostsForListener listener) (λ virtualHost,
      for_range (vh_routes virtualHost) (validateRouteDestinationForValidLambdas proxy snap lambdas))).

(** Each cluster with the upstream it is for, which has the defaults. *)
Definition computeClusters (proxy : Proxy) (snap : ApiSnapshot) (upstreamRefKeyToEndpoints : gmap string (list Endpoint)) (shouldEnforceNamespaceMatch : bool) :
    M (ResourceReports * PS) (list (Cds.Cluster * Upstream)) :=
  do! validateUpstreamLambdaFunctions proxy snap ;;
  fold_range 0 (sn_upstreams snap) [] (λ i upstream clusters,
    let seen := with_upstreams (map snd clusters ++ with_ssl_defaults upstream :: drop (i + 1) (sn_upstreams snap)) snap in
    cluster <~ computeCluster seen upstream (default [] (upstreamRefKeyToEndpoints !! ref_Key (up_ref upstream))) shouldEnforceNamespaceMatch ;;
    ret (clusters ++ [(cluster, with_ssl_defaults upstream)])).

(** *** Endpoints *)
Definition EnvoyLb : string := "envoy.lb".
Definition SoloAnnotations : string := "io.solo.annotations".
Definition EnvoyTransportSocketMatch : string := "envoy.transport_socket_match".
Definition IstioTlsModeLabel : string := "security.istio.io/tlsMode".
Definition TLSModeLabelShortname : string := "tlsMode".
Definition IstioMutualTLSModeLabel : string := "istio".

Definition createUpstreamToEndpointsMap (upstreams : list Upstream) (endpoints : list Endpoint) : gmap string (list Endpoint) :=
  let empty := fold_left (λ m us, <[ref_Key (up_ref us) := []]> m) upstreams (∅ : gmap string (list Endpoint)) in
  fold_left (λ m ep,
    fold_left (λ m ref, match m !! ref_Key ref with Some eps => <[ref_Key ref := eps ++ [ep]]> m | None => m end) (ep_upstreams ep) m)
    endpoints empty.
Definition allKeys upstream : gset string := list_to_set (flat_map sl_keys (from_option sp_selectors [] (up_subsetSpec upstream))).
Definition getLbMetadata upstream (labels : option (gmap string string)) (zeroValue : string) : option Cds.Metadata :=
  let labelsStruct := default ∅ labels ∪ gset_to_gmap zeroValue (allKeys upstream) in
  if bool_decide (labelsStruct = ∅) then None else Some {[EnvoyLb := labelsStruct]}.
(** The map of the metadata is dereferenced. *)
Definition addIstioAutomtlsMetadata (metadata : option Cds.Metadata) (labels : option (gmap string string)) (enableAutoMtls : bool) : res (option Cds.Metadata) :=
  if enableAutoMtls && bool_decide (is_Some (default ∅ labels !! IstioTlsModeLabel)) then
    match metadata with
    | None => Panic "assignment to entry in nil map"
    | Some m => Ok (Some (<[EnvoyTransportSocketMatch := {[TLSModeLabelShortname := IstioMutualTLSModeLabel]}]> m))
    end
  else Ok metadata.
Definition addAnnotations (metadata : option Cds.Metadata) (annotations : option (gmap string string)) : option Cds.Metadata :=
  match annotations with None => metadata | Some a => Some (<[SoloAnnotations := a]> (default ∅ metadata)) end.
Definition lb_endpoint upstream (enableAutoMtls : bool) (addr : Endpoint) : res Cds.LbEndpoint :=
  res_bind (addIstioAutomtlsMetadata (getLbMetadata upstream (ep_labels addr) "") (ep_labels addr) enableAutoMtls) (λ metadata,
  Ok {| Cds.le_metadata := addAnnotations metadata (ep_annotations addr); Cds.le_address := ep_address addr; Cds.le_port := ep_port addr;
        Cds.le_healthCheckHostname := if bool_decide (ep_healthCheckHostname addr = "") then None else Some (ep_healthCheckHostname addr);
        Cds.le_hostname := ep_hostname addr |}).
Definition loadAssignmentForUpstream upstream (clusterEndpoints : list Endpoint) (enableAutoMtls : bool) : res Cds.ClusterLoadAssignment :=
  res_bind (foldr (λ addr rest, res_bind (lb_endpoint upstream enableAutoMtls addr) (λ e, res_bind rest (λ es, Ok (e :: es)))) (Ok []) clusterEndpoints) (λ endpoints,
  Ok {| Cds.la_clusterName := Xds.UpstreamToClusterName (up_ref upstream); Cds.la_endpoints := [endpoints] |}).

Definition run_endpoint_plugins (snap : ApiSnapshot) upstream (la : Cds.ClusterLoadAssignment) : M (ResourceReports * PS) Cds.ClusterLoadAssignment :=
  fold_range 0 GetEndpointPlugins la (λ _ plugin la,
    let! (err, la) <~ on_plugins (plugin snap upstream la) ;;
    do! add_opt (upstream_key (up_ref upstream)) err ;;
    ret la).
Definition computeClusterEndpoints (snap : ApiSnapshot) (upstreamRefKeyToEndpoints : gmap string (list Endpoint)) :
    M (ResourceReports * PS) (list Cds.ClusterLoadAssignment) :=
  fold_range 0 (sn_upstreams snap) [] (λ _ upstream assignments,
    match default [] (upstreamRefKeyToEndpoints !! ref_Key (up_ref upstream)) with
    | [] => ret assignments
    | clusterEndpoints =>
        la <~ lift_res (loadAssignmentForUpstream upstream clusterEndpoints (se_enableAutoMtls settings)) ;;
        la <~ run_endpoint_plugins snap upstream la ;;
        ret (assignments ++ [la])
    end).

(** *** Upstream groups: an upstream without a namespace is in that of the group *)
Definition with_namespace (ns : string) (d : Destination) : Destination :=
  match de_type d with
  | Some (Destination_Upstream ref) =>
      if bool_decide (nn_ns ref = "")
      then {| de_type := Some (Destination_Upstream {| nn_ns := ns; nn_name := nn_name ref |}); de_subset := de_subset d; de_aws := de_aws d |} else d
  | _ => d
  end.
Definition with_parent_namespace (ug : UpstreamGroup) : UpstreamGroup :=
  {| ug_ref := ug_ref ug; ug_destinations := map (λ w, {| wd_dest := option_map (with_namespace (nn_ns (ug_ref ug))) (wd_dest w); wd_weight := wd_weight w;
       wd_options := wd_options w |}) (ug_destinations ug) |}.
Definition group_key (ug : UpstreamGroup) : ResourceKey := (UpstreamGroupKind, ug_ref ug).
Definition group_destination_error (snap : ApiSnapshot) (ug : UpstreamGroup) (i : nat) (dest : WeightedDestination) : option error :=
  match wd_dest dest with
  | None => Some (ProxyReports.New ("destination # " +:+ itoa (i + 1) +:+ ": destination is nil"))
  | Some d => match DestinationToUpstreamRef (with_namespace (nn_ns (ug_ref ug)) d) with
      | inl err => Some (ProxyReports.New (er_message err))
      | inr upRef => match find_upstream snap upRef with
          | None => Some (ProxyReports.Wrap (ProxyReports.New ("list did not find upstream " +:+ nn_ns upRef +:+ "." +:+ nn_name upRef))
                            ("destination # " +:+ itoa (i + 1) +:+ ": upstream not found"))
          | Some _ => None
          end
      end
  end.
Definition verifyUpstreamGroups (snap : ApiSnapshot) : M (ResourceReports * PS) ApiSnapshot :=
  do! for_range (sn_upstreamGroups snap) (λ ug,
    fold_range 0 (ug_destinations ug) tt (λ i dest _, add_opt (group_key ug) (group_destination_error snap ug i dest))) ;;
  ret (with_upstreamGroups (map with_parent_namespace (sn_upstreamGroups snap)) snap).
End Translator.
