(* ===== verification/EnvoyTranslator.v ===== *)
(** * Translation of a Proxy to an Envoy snapshot

    gloo/pkg/translator/translator.go, and [MakeReport] of gloo/pkg/utils/validation on the
    Proxy as the translation reads it. The clusters and their endpoints come first, then the
    listeners with their route configurations, then the resources that plugins generate; the
    snapshot has a version per kind of resource, which is a hash. [DPanic] does not panic in
    production, and is left out. *)

From stdpp Require Import base gmap strings list fin_maps pretty sorting.
From Stdlib Require Import ZArith Ascii.
From S2P Require Import Prelude GoLib GwApi EdgeApi ProxyReports ResourceReports Xds Sanitizers GlooProxy EnvoyRoutes Ssl EnvoyFilters EnvoySsl EnvoyListeners EnvoyClusters.
Import Validation Gloo.

(** ** The report of a Proxy: as its listeners *)
Section MakeReport.
Context `{ListenerLibs}.
Definition makeVhostReports (virtualHosts : list (option VirtualHost)) : list VirtualHostReport :=
  map (λ vh, {| vr_errors := []; vr_routeReports := map (λ _, empty_routeReport) (from_option vh_routes [] vh) |}) virtualHosts.
Definition httpListenerReport (virtualHosts : list (option VirtualHost)) : HttpListenerReport :=
  {| hr_errors := []; hr_virtualHostReports := makeVhostReports virtualHosts |}.
Definition tcpListenerReport (hosts : list TcpHost) : TcpListenerReport := {| tlr_errors := []; tlr_tcpHostReports := map (λ _, empty_tcpHostReport) hosts |}.
Definition matchedListenerReport (ml : MatchedListener) : MatchedListenerReport :=
  match ml_type ml with
  | Some (MatchedListener_HttpListener l) => MatchedListenerReport_HttpListenerReport (httpListenerReport (map Some (hl_virtualHosts l)))
  | Some (MatchedListener_TcpListener l) => MatchedListenerReport_TcpListenerReport (tcpListenerReport (tl_tcpHosts l))
  | None => MatchedListenerReport_nil
  end.
Definition chain_virtualHosts (a : AggregateListener) (fc : HttpFilterChain) : list (option VirtualHost) :=
  map (λ ref, al_virtualHosts a !! ref) (fc_virtualHostRefs fc).
Definition listenerTypeReport (listener : Listener) : option ListenerTypeReport :=
  match li_type listener with
  | Some (Listener_HttpListener l) => Some (ListenerReport_HttpListenerReport (httpListenerReport (map Some (hl_virtualHosts l))))
  | Some (Listener_TcpListener l) => Some (ListenerReport_TcpListenerReport (tcpListenerReport (tl_tcpHosts l)))
  | Some (Listener_HybridListener mls) => Some (ListenerReport_HybridListenerReport
      (index_by (λ ml, EnvoyListeners.MatchedRouteConfigName listener (ml_matcher ml)) matchedListenerReport mls))
  | Some (Listener_AggregateListener a) => Some (ListenerReport_AggregateListenerReport {|
      ar_httpListenerReports := index_by (λ fc, EnvoyListeners.MatchedRouteConfigName listener (fc_matcher fc)) (λ fc, httpListenerReport (chain_virtualHosts a fc)) (al_httpFilterChains a);
      ar_tcpListenerReports := index_by (λ t, EnvoyListeners.MatchedRouteConfigName listener (mtl_matcher t))
        (λ t, tcpListenerReport (from_option tl_tcpHosts [] (mtl_listener t))) (al_tcpListeners a) |})
  | None => None
  end.
(** The report of a listener without a type is nil; here, one without a type. *)
Definition MakeReport (proxy : Proxy) : ProxyReport :=
  {| pr_listenerReports := map (λ l, {| lr_errors := []; lr_warnings := []; lr_type := listenerTypeReport l |}) (px_listeners proxy) |}.
End MakeReport.

(** ** Snapshots *)
Inductive Resource := Resource_Endpoints (e : Cds.ClusterLoadAssignment) | Resource_Cluster (c : Cds.Cluster) | Resource_Routes (r : Envoy.RouteConfiguration) | Resource_Listener (l : EnvoyListener).
(** Before they are indexed by name. *)
Record Resources := { rs_version : string; rs_items : list Resource }.
Record EnvoySnapshot := { es_endpoints : Resources; es_clusters : Resources; es_routes : Resources; es_listeners : Resources }.
Definition NewResources (version : string) (l : list Resource) : Resources := {| rs_version := version; rs_items := l |}.

(** FNV-1 of 64 bits (hash/fnv) over the marshalled resources. *)
Class Marshal := MarshalDeterministic : Resource → option (list N).
Definition fnv_offset : N := 14695981039346656037.
Definition fnv_prime : N := 1099511628211.
Definition fnv_write (h : N) (bytes : list N) : N := fold_left (λ h b, N.lxor ((h * fnv_prime) mod 2 ^ 64) b) bytes h.
Definition EnvoyCacheResourcesListToFnvHash `{Marshal} (resources : list Resource) : option N :=
  fold_left (λ h r, match h, MarshalDeterministic r with Some h, Some out => Some (fnv_write h out) | _, _ => None end) resources (Some fnv_offset).

Definition MakeRdsResources `{Marshal} (routeConfigs : list Envoy.RouteConfiguration) : Resources :=
  let routesProto := map Resource_Routes (List.filter (λ r, negb (length (Envoy.ec_virtualHosts r) <? 1)) routeConfigs) in
  match EnvoyCacheResourcesListToFnvHash routesProto with
  | None => NewResources "routes-hashErr" routesProto
  | Some v => NewResources (pretty v) routesProto
  end.
Record Generated := { gn_clusters : list Cds.Cluster; gn_endpoints : list Cds.ClusterLoadAssignment;
  gn_routeConfigs : list Envoy.RouteConfiguration; gn_listeners : list EnvoyListener }.
Definition generateXDSSnapshot `{Marshal} (hasher : list Resource → option N) (g : Generated) : EnvoySnapshot :=
  let endpointsProto := map Resource_Endpoints (gn_endpoints g) in
  let clustersProto := map Resource_Cluster (gn_clusters g) in
  let listenersProto := map Resource_Listener (List.filter (λ l, negb (length (ln_filterChains l) <? 1)) (gn_listeners g)) in
  {| es_endpoints := match hasher endpointsProto, hasher clustersProto with
                     | Some e, Some c => NewResources (pretty c +:+ "-" +:+ pretty e) endpointsProto
                     | _, _ => NewResources "endpoints-hashErr" endpointsProto
                     end;
     es_clusters := match hasher clustersProto with Some c => NewResources (pretty c) clustersProto | None => NewResources "clusters-hashErr" endpointsProto end;
     es_routes := MakeRdsResources (gn_routeConfigs g);
     es_listeners := match hasher listenersProto with Some l => NewResources (pretty l) listenersProto | None => NewResources "listeners-hashErr" listenersProto end |}.

(** ** Plugins of the whole translation *)
Class TranslatorPlugins `{Errors} (PS : Type) := {
  (** [Init] of every plugin *)
  InitPlugins : list (Settings → PS → PS);
  (** what is generated so far, which a plugin may edit, and what it adds *)
  GetResourceGeneratorPlugins : list (ApiSnapshot → Generated → PS → Generated * Generated * option error * PS)
}.
(** [strconv.Quote] *)
Class Strconv := strconv_Quote : string → string.
Definition ParseBool `{Errors, Strconv} (s : string) : error + bool :=
  if bool_decide (s ∈ ["1"; "t"; "T"; "true"; "TRUE"; "True"]) then inr true
  else if bool_decide (s ∈ ["0"; "f"; "F"; "false"; "FALSE"; "False"]) then inr false
  else inl (ProxyReports.New ("strconv.ParseBool: parsing " +:+ strconv_Quote s +:+ ": invalid syntax")).

Section Translator.
Context `{Errors, !SoloReports, !ClusterLibs, SslLibs, SslHash, AnyLibs, SortFilters, SliceGrowth, ListenerLibs, RouteLibs, Marshal, Strconv}.
Context {PS : Type} `{!ClusterPlugins PS, !TranslatorPlugins PS, !FilterPlugins PS, !ListenerPlugins PS, !RouteConfigPlugins PS, !GoRange string, !GoRange Z}.
Context (settings : Settings) (hasher : list Resource → option N) (MatchingNamespaceEnv : string).

(** *** Clusters and endpoints *)
Definition getEndpointClusterName (clusterName : string) (upstream : Upstream) : error + string :=
  match hash_upstream upstream with inl err => inl err | inr h => inr (clusterName +:+ "-" +:+ pretty h) end.
(** The load assignments are shared: the map has their positions. *)
Abbreviation EndpointMap := (gmap string (list nat)).
Definition add_position (i : nat) (la : Cds.ClusterLoadAssignment) (m : EndpointMap) : EndpointMap :=
  <[Cds.la_clusterName la := default [] (m !! Cds.la_clusterName la) ++ [i]]> m.
Definition endpoint_map (endpoints : list Cds.ClusterLoadAssignment) : EndpointMap :=
  fold_left (λ m p, add_position p.1 p.2 m) (imap pair endpoints) ∅.
Definition rename (n : string) (la : Cds.ClusterLoadAssignment) : Cds.ClusterLoadAssignment := {| Cds.la_clusterName := n; Cds.la_endpoints := Cds.la_endpoints la |}.
Definition rename_all (n : string) (positions : list nat) (l : list Cds.ClusterLoadAssignment) : list Cds.ClusterLoadAssignment :=
  fold_left (λ l i, alter (rename n) i l) positions l.

Record Assigned := { as_clusters : list Cds.Cluster; as_endpoints : list Cds.ClusterLoadAssignment; as_map : gmap string (list nat) }.
Definition assign_endpoints (snap : ApiSnapshot) (upstreamMap : gset string) (c : Cds.Cluster) (upstream : Upstream) (a : Assigned) : M (ResourceReports * PS) Assigned :=
  match Cds.GetType c with
  | Cds.EDS =>
      endpointClusterName <~ match getEndpointClusterName (Cds.cl_name c) upstream with
        | inl err => do! AddError (upstream_key (up_ref upstream)) (ProxyReports.Wrap err "could not marshal upstream to JSON") ;; ret ""
        | inr n => ret n
        end ;;
      match Cds.with_serviceName endpointClusterName c with
      | None => panic "nil pointer dereference"
      | Some c' => match as_map a !! Cds.cl_name c with
          | Some eList => ret {| as_clusters := as_clusters a ++ [c']; as_endpoints := rename_all endpointClusterName eList (as_endpoints a); as_map := as_map a |}
          | None =>
              let empty := {| Cds.la_clusterName := endpointClusterName; Cds.la_endpoints := [] |} in
              la <~ (if bool_decide (Cds.cl_name c ∈ upstreamMap) then run_endpoint_plugins snap upstream empty else ret empty) ;;
              ret {| as_clusters := as_clusters a ++ [c']; as_endpoints := as_endpoints a ++ [la]; as_map := add_position (length (as_endpoints a)) la (as_map a) |}
          end
      end
  | _ => ret {| as_clusters := as_clusters a ++ [c]; as_endpoints := as_endpoints a; as_map := as_map a |}
  end.
Definition shouldEnforceNamespaceMatch (proxy : Proxy) : M (ResourceReports * PS) bool :=
  if bool_decide (MatchingNamespaceEnv = "") then ret false else or_report (proxy_key proxy) false (ParseBool MatchingNamespaceEnv).
(** Returns the snapshot as it was written to. *)
Definition translateClusterSubsystemComponents (proxy : Proxy) (snap : ApiSnapshot) :
    M (ResourceReports * PS) (list Cds.Cluster * list Cds.ClusterLoadAssignment * ApiSnapshot) :=
  snap <~ verifyUpstreamGroups snap ;;
  let upstreamRefKeyToEndpoints := createUpstreamToEndpointsMap (sn_upstreams snap) (sn_endpoints snap) in
  enforce <~ shouldEnforceNamespaceMatch proxy ;;
  clusters <~ computeClusters settings proxy snap upstreamRefKeyToEndpoints enforce ;;
  let snap := with_upstreams (map snd clusters) snap in
  endpoints <~ computeClusterEndpoints settings snap upstreamRefKeyToEndpoints ;;
  let upstreamMap := list_to_set (map (λ u, Xds.UpstreamToClusterName (up_ref u)) (sn_upstreams snap)) in
  a <~ fold_range 0 clusters {| as_clusters := []; as_endpoints := endpoints; as_map := endpoint_map endpoints |} (λ _ p a,
    assign_endpoints snap upstreamMap p.1 p.2 a) ;;
  ret (as_clusters a, as_endpoints a, snap).

(** *** Listeners and route configurations *)
(** On the report of a listener; a nil report that is written to panics. *)
Definition on_listener {A} (i : nat) (m : M (ListenerReport * PS) A) : M (ProxyReport * PS) A := λ '(r, ps),
  match pr_listenerReports r !! i with
  | None => Panic "index out of range"
  | Some lr => match m (lr, ps) with
      | Ok (a, (lr', ps)) =>
          if match lr_type lr with None => negb (length (lr_errors lr') =? length (lr_errors lr)) | Some _ => false end
          then Panic "nil pointer dereference"
          else Ok (a, ({| pr_listenerReports := <[i := lr']> (pr_listenerReports r) |}, ps))
      | Panic why => Panic why
      | OutOfFuel => OutOfFuel
      end
  end.
Definition translate_listener (snap : ApiSnapshot) (proxy : Proxy) (listener : Listener) : M (ListenerReport * PS) (list Envoy.RouteConfiguration * option EnvoyListener) :=
  do! validateListenerPorts proxy ;;
  translators <~ gets (λ s, GetTranslators proxy listener s.1) ;;
  match translators with
  | Translators_nil => panic "nil pointer dereference"
  | Translators_empty => ret ([], None)
  | Translators_of chains routes =>
      envoyRouteConfiguration <~ ComputeRouteConfiguration settings snap routes ;;
      envoyListener <~ ComputeListener settings snap listener chains ;;
      ret (envoyRouteConfiguration, Some envoyListener)
  end.
Definition translateListenerSubsystemComponents (snap : ApiSnapshot) (proxy : Proxy) :
    M (ProxyReport * PS) (list Envoy.RouteConfiguration * list EnvoyListener) :=
  fold_range 0 (px_listeners proxy) ([], []) (λ i listener acc,
    let! (routeConfigs, envoyListener) <~ on_listener i (translate_listener snap proxy listener) ;;
    match envoyListener with
    | Some envoyListener => ret (acc.1 ++ routeConfigs, acc.2 ++ [envoyListener])
    | None => ret acc
    end).

(** *** The translation *)
Definition append_generated (a b : Generated) : Generated :=
  {| gn_clusters := gn_clusters a ++ gn_clusters b; gn_endpoints := gn_endpoints a ++ gn_endpoints b;
     gn_routeConfigs := gn_routeConfigs a ++ gn_routeConfigs b; gn_listeners := gn_listeners a ++ gn_listeners b |}.
Definition run_generators (snap : ApiSnapshot) (proxy : Proxy) (g : Generated) : M (ResourceReports * PS) Generated :=
  fold_range 0 GetResourceGeneratorPlugins g (λ _ plugin g,
    let! (g, new, err) <~ on_plugins (plugin snap g) ;;
    do! add_opt (proxy_key proxy) err ;;
    ret (append_generated g new)).
Definition report_proxy (proxy : Proxy) (proxyReport : ProxyReport) : M (ResourceReports * PS) unit :=
  do! add_opt (proxy_key proxy) (GetProxyError proxyReport) ;;
  for_range (GetProxyWarning proxyReport) (AddWarning (proxy_key proxy)).

Definition Translate (snap : ApiSnapshot) (proxy : Proxy) : M PS (EnvoySnapshot * ResourceReports * ProxyReport) := λ ps,
  let ps := fold_left (λ ps init, init settings ps) InitPlugins ps in
  res_bind (translateClusterSubsystemComponents proxy snap (∅, ps)) (λ '((clusters, endpoints, snap), (reports, ps)),
  res_bind (translateListenerSubsystemComponents snap proxy (MakeReport proxy, ps)) (λ '((routeConfigs, listeners), (proxyReport, ps)),
  res_bind ((g <~ run_generators snap proxy {| gn_clusters := clusters; gn_endpoints := endpoints; gn_routeConfigs := routeConfigs; gn_listeners := listeners |} ;;
             do! report_proxy proxy proxyReport ;;
             ret g) (reports, ps)) (λ '(g, (reports, ps)),
  Ok ((generateXDSSnapshot hasher g, reports, proxyReport), ps)))).
End Translator.
