(* ===== verification/EnvoyClustersFacts.v ===== *)
(** * Facts about Envoy clusters and endpoints

    Which endpoints an upstream has and what an endpoint carries; the errors of upstream
    groups and of lambda routes; the proxy protocol of an upstream. *)

From stdpp Require Import base gmap strings list fin_maps pretty.
From Stdlib Require Import ZArith Ascii.
From S2P Require Import Prelude GoLib GwApi EdgeApi ProxyReports ResourceReports Xds Sanitizers GlooProxy EnvoyRoutes Ssl EnvoyClusters.
Import Gloo.

Section Facts.
Context `{Errors, !SoloReports, !SoloReportsLaws, !ClusterLibs, SslLibs, RouteLibs} {PS : Type} `{!ClusterPlugins PS, !GoRange string} (settings : Settings).

(** ** Computations that only append errors to reports

    [es k]: the errors appended to the report of [k]. *)
Definition raising {A : Type} (m : M (ResourceReports * PS) A) (a : A) (es : ResourceKey → list error) : Prop :=
  ∀ r ps, ∃ r', m (r, ps) = Ok (a, (r', ps)) ∧ ∀ k, errors_of (report_of k r') = errors_of (report_of k r) ++ es k.
Definition at_key (k : ResourceKey) (es : list error) (k' : ResourceKey) : list error := if decide (k = k') then es else [].

Lemma raising_eq {A : Type} (m : M (ResourceReports * PS) A) a es es' : raising m a es → (∀ k, es k = es' k) → raising m a es'.
Proof. intros Hm He r ps. destruct (Hm r ps) as (r' & E & Hr). exists r'. split; [done|]. intros k. by rewrite Hr, He. Qed.
Lemma raising_ret {A : Type} (a : A) : raising (ret a) a (λ _, []).
Proof. intros r ps. exists r. split; [done|]. intros k. by rewrite app_nil_r. Qed.
Lemma raising_bind {A B : Type} (m : M (ResourceReports * PS) A) (f : A → M (ResourceReports * PS) B) a b es es' :
  raising m a es → raising (f a) b es' → raising (bind m f) b (λ k, es k ++ es' k).
Proof.
  intros Hm Hf r ps. destruct (Hm r ps) as (r1 & E1 & Hr1). destruct (Hf r1 ps) as (r2 & E2 & Hr2). exists r2.
  unfold bind. rewrite E1, E2. split; [done|]. intros k. by rewrite Hr2, Hr1, app_assoc.
Qed.
Lemma raising_AddError k e : raising (AddError (PS := PS) k e) tt (at_key k [e]).
Proof.
  intros r ps. exists (AddErrors k [e] r). split; [done|]. intros k'. rewrite report_of_AddErrors. unfold at_key.
  case_decide; [by rewrite errors_of_append|by rewrite app_nil_r].
Qed.
Lemma raising_add_opt k e : raising (add_opt (PS := PS) k e) tt (at_key k (option_list e)).
Proof.
  destruct e; [apply raising_AddError|]. eapply raising_eq; [apply raising_ret|]. intros k'. unfold at_key. by case_decide.
Qed.
Lemma raising_for {A : Type} (l : list A) (body : A → M (ResourceReports * PS) unit) es :
  (∀ x, x ∈ l → raising (body x) tt (es x)) → raising (for_range l body) tt (λ k, concat (map (λ x, es x k) l)).
Proof.
  induction l as [|x l IH]; intros Hb; [apply raising_ret|]. cbn [for_range]. eapply raising_eq; [eapply raising_bind; [apply Hb; by left|apply IH; intros; apply Hb; by right]|].
  done.
Qed.
Lemma raising_fold {A : Type} (l : list A) (i : nat) (body : nat → A → unit → M (ResourceReports * PS) unit) es :
  (∀ j x, raising (body j x tt) tt (es j x)) → raising (fold_range i l tt body) tt (λ k, concat (imap (λ j x, es (i + j) x k) l)).
Proof.
  intros Hb. revert i. induction l as [|x l IH]; intros i; [apply raising_ret|]. cbn [fold_range]. eapply raising_eq; [eapply raising_bind; [apply Hb|apply IH]|].
  intros k. cbn. rewrite Nat.add_0_r. f_equal. f_equal. apply imap_ext. intros j y _. cbn. f_equal. lia.
Qed.
Lemma concat_map_nil {A B : Type} (f : A → list B) l : concat (map f l) = [] ↔ ∀ x, x ∈ l → f x = [].
Proof.
  induction l as [|x l IH]; cbn; [set_solver|]. rewrite app_nil, IH. split; [intros [? ?] y [->|?]%elem_of_cons; auto|].
  intros Hf. split; [apply Hf; by left|]. intros y Hy. apply Hf. by right.
Qed.
Lemma at_key_nil k es k' : at_key k es k' = [] ↔ (k = k' → es = []).
Proof. unfold at_key. case_decide; naive_solver. Qed.

(** ** Upstream groups *)
(** The destination is one of an upstream of the snapshot. *)
Definition resolves (snap : ApiSnapshot) (w : WeightedDestination) : Prop :=
  ∃ d ref, wd_dest w = Some d ∧ DestinationToUpstreamRef d = inr ref ∧ is_Some (find_upstream snap ref).
Definition group_errors (snap : ApiSnapshot) (ug : UpstreamGroup) : list error :=
  concat (imap (λ i dest, option_list (group_destination_error snap ug i dest)) (ug_destinations ug)).
Lemma group_destination_error_none snap ug i w : group_destination_error snap ug i w = None ↔
  resolves snap {| wd_dest := option_map (with_namespace (nn_ns (ug_ref ug))) (wd_dest w); wd_weight := wd_weight w; wd_options := wd_options w |}.
Proof.
  unfold group_destination_error, resolves. destruct (wd_dest w) as [d|]; cbn; [|split; [done|by intros (? & ? & ? & _)]].
  destruct (DestinationToUpstreamRef (with_namespace (nn_ns (ug_ref ug)) d)) as [e|ref] eqn:E.
  - split; [done|]. intros (? & ? & [= <-] & ? & _). congruence.
  - destruct (find_upstream snap ref) as [u|] eqn:Hu.
    + split; [|done]. intros _. exists (with_namespace (nn_ns (ug_ref ug)) d), ref. rewrite Hu. split_and!; eauto.
    + split; [done|]. intros (? & ref' & [= <-] & E' & [u Hu']). rewrite E in E'. injection E' as <-. congruence.
Qed.
Lemma group_errors_nil snap ug : group_errors snap ug = [] ↔ Forall (resolves snap) (ug_destinations (with_parent_namespace ug)).
Proof.
  unfold group_errors. rewrite Forall_forall. cbn. split.
  - intros Hc w (w' & -> & (i & Hi)%list_elem_of_lookup)%list_elem_of_fmap. apply (group_destination_error_none snap ug i).
    assert (imap (λ i dest, option_list (group_destination_error snap ug i dest)) (ug_destinations ug) !! i =
            Some (option_list (group_destination_error snap ug i w'))) as Hl by by rewrite list_lookup_imap, Hi.
    apply list_elem_of_lookup_2, list_elem_of_split in Hl as (l1 & l2 & E). rewrite E, concat_app in Hc. cbn in Hc. apply app_nil in Hc as [_ [Hc _]%app_nil].
    by destruct (group_destination_error snap ug i w').
  - intros Hr. assert (∀ l, l ∈ imap (λ i dest, option_list (group_destination_error snap ug i dest)) (ug_destinations ug) → l = []) as Hnil.
    { intros l (i & w & -> & Hw)%elem_of_lookup_imap. rewrite (proj2 (group_destination_error_none snap ug i w)); [done|]. apply Hr.
      apply list_elem_of_fmap. exists w. split; [done|]. by eapply list_elem_of_lookup_2. }
    revert Hnil. generalize (imap (λ i dest, option_list (group_destination_error snap ug i dest)) (ug_destinations ug)). induction l as [|x l IH]; [done|].
    intros Hl. cbn. rewrite (Hl x) by by left. apply IH. intros. apply Hl. by right.
Qed.
Lemma raising_verifyUpstreamGroups snap : raising (verifyUpstreamGroups (PS := PS) snap) (with_upstreamGroups (map with_parent_namespace (sn_upstreamGroups snap)) snap)
  (λ k, concat (map (λ ug, at_key (group_key ug) (group_errors snap ug) k) (sn_upstreamGroups snap))).
Proof.
  unfold verifyUpstreamGroups. eapply raising_eq; [eapply raising_bind; [apply raising_for; intros ug _; apply raising_fold; intros j x; apply raising_add_opt|apply raising_ret]|].
  intros k. cbn. rewrite app_nil_r. f_equal. apply map_ext. intros ug. unfold at_key, group_errors. case_decide as Hk; [done|].
  generalize (ug_destinations ug). intros l. assert (∀ f : nat → WeightedDestination → list error, (∀ i x, f i x = []) → concat (imap f l) = []) as Hn; [|by apply Hn].
  induction l as [|x l IH]; intros f Hf; [done|]. cbn. rewrite Hf. apply IH. intros. by apply Hf.
Qed.

(** [verifyUpstreamGroups]: the groups of the snapshot get the namespace of their group
    where the reference to an upstream has none; nothing else of the snapshot changes, and
    errors are appended to the reports of groups only: none to the report of a key exactly
    when every destination of the groups with that key is one of an upstream that exists. *)
Theorem verifyUpstreamGroups_exact snap : ∃ groups es,
  raising (verifyUpstreamGroups (PS := PS) snap) (with_upstreamGroups groups snap) es ∧
  map ug_ref groups = map ug_ref (sn_upstreamGroups snap) ∧
  (∀ k, es k = [] ↔ ∀ ug, ug ∈ groups → group_key ug = k → Forall (resolves snap) (ug_destinations ug)) ∧
  (∀ ug w d ref, ug ∈ groups → w ∈ ug_destinations ug → wd_dest w = Some d → de_type d = Some (Destination_Upstream ref) → nn_ns ref = "" → nn_ns (ug_ref ug) = "").
Proof.
  eexists _, _. split; [apply raising_verifyUpstreamGroups|]. split_and!.
  - rewrite map_map. done.
  - intros k. rewrite concat_map_nil. split.
    + intros Hall ug (ug' & -> & Hug)%list_elem_of_fmap Hk. apply group_errors_nil. specialize (Hall ug' Hug). by rewrite at_key_nil in Hall; apply Hall.
    + intros Hall ug Hug. apply at_key_nil. intros Hk. apply group_errors_nil, Hall; [|done]. by apply list_elem_of_fmap_2.
  - intros ug w d ref (ug' & -> & _)%list_elem_of_fmap (w' & -> & _)%list_elem_of_fmap. cbn. destruct (wd_dest w') as [d'|]; [|done]. intros [= <-].
    unfold with_namespace. destruct (de_type d') as [[r|r p|c]|] eqn:Ed; try (cbn; congruence). case_bool_decide; cbn; [by intros [= <-]|]. rewrite Ed. by intros [= <-].
Qed.

(** ** Lambda functions *)
(** The upstream of the cluster has the function. *)
Definition lambda_exists (snap : ApiSnapshot) (ref : NamespacedName) (name : string) : Prop :=
  ∃ u, u ∈ sn_upstreams snap ∧ Xds.UpstreamToClusterName (up_ref u) = Xds.UpstreamToClusterName ref ∧ name ∈ up_lambdaFunctions u.
(** The route has a kind of destination that is known, a group that exists, and functions that exist. *)
Definition lambdas_ok (snap : ApiSnapshot) (route : Route) : Prop := ∃ ds, lambda_destinations snap route = inr ds ∧
  ∀ d ref name, d ∈ ds → de_type d = Some (Destination_Upstream ref) → de_aws d = Some name → lambda_exists snap ref name.

Lemma upstream_lambdas_elem ups n name : name ∈ default ∅ (upstream_lambdas ups !! n) ↔
  ∃ u, u ∈ ups ∧ Xds.UpstreamToClusterName (up_ref u) = n ∧ name ∈ up_lambdaFunctions u.
Proof.
  unfold upstream_lambdas. induction ups as [|u ups IH] using rev_ind.
  - cbn [fold_left]. rewrite lookup_empty. cbn. split; [by intros ?%elem_of_empty|]. by intros (? & ?%elem_of_nil & _).
  - rewrite fold_left_app. cbn [fold_left]. set (m := fold_left _ ups ∅) in *.
    assert (name ∈ default ∅ (match up_lambdaFunctions u with [] => m | f :: fs => <[Xds.UpstreamToClusterName (up_ref u) :=
        default ∅ (m !! Xds.UpstreamToClusterName (up_ref u)) ∪ list_to_set (f :: fs)]> m end !! n) ↔
      name ∈ default ∅ (m !! n) ∨ (Xds.UpstreamToClusterName (up_ref u) = n ∧ name ∈ up_lambdaFunctions u)) as Hstep.
    { destruct (up_lambdaFunctions u) as [|f fs] eqn:Ef; [split; [by left|by intros [?|[_ ?%elem_of_nil]]]|].
      destruct (decide (Xds.UpstreamToClusterName (up_ref u) = n)) as [->|Hn]; [rewrite lookup_insert_eq; cbn [from_option]; unfold id at 1; rewrite elem_of_union, elem_of_list_to_set; naive_solver|].
      rewrite lookup_insert_ne by done. naive_solver. }
    etransitivity; [exact Hstep|]. rewrite IH. setoid_rewrite elem_of_app. setoid_rewrite list_elem_of_singleton. clear. split.
    + intros [(u' & ? & ? & ?)|[? ?]]; [exists u'; auto|exists u; auto].
    + intros (u' & [?| ->] & ? & ?); [left; by exists u'|by right].
Qed.
Definition route_lambda_errors (snap : ApiSnapshot) (route : Route) : list error :=
  match lambda_destinations snap route with
  | inl e => [e]
  | inr ds => concat (map (λ d, option_list ((λ name, ProxyReports.New ("a route references " +:+ name +:+ " AWS lambda which does not exist on the route's upstream"))
                <$> missing_lambda (upstream_lambdas (sn_upstreams snap)) d)) ds)
  end.
Lemma raising_route_lambdas proxy snap route :
  raising (validateRouteDestinationForValidLambdas (PS := PS) proxy snap (upstream_lambdas (sn_upstreams snap)) route) tt (at_key (proxy_key proxy) (route_lambda_errors snap route)).
Proof.
  unfold validateRouteDestinationForValidLambdas, route_lambda_errors. destruct (lambda_destinations snap route) as [e|ds]; [apply raising_AddError|].
  eapply raising_eq; [apply (raising_for _ _ (λ d, at_key (proxy_key proxy) (option_list ((λ name, ProxyReports.New ("a route references " +:+ name +:+
    " AWS lambda which does not exist on the route's upstream")) <$> missing_lambda (upstream_lambdas (sn_upstreams snap)) d))))|].
  - intros d _. destruct (missing_lambda _ d); [apply raising_AddError|]. eapply raising_eq; [apply raising_ret|]. intros k. unfold at_key. by case_decide.
  - intros k. unfold at_key. case_decide; [done|]. by apply concat_map_nil.
Qed.
Lemma route_lambda_errors_nil snap route : route_lambda_errors snap route = [] ↔ lambdas_ok snap route.
Proof.
  unfold route_lambda_errors, lambdas_ok. destruct (lambda_destinations snap route) as [e|ds]; [split; [done|by intros (? & ? & _)]|].
  rewrite concat_map_nil. assert (∀ d, option_list ((λ name, ProxyReports.New ("a route references " +:+ name +:+
      " AWS lambda which does not exist on the route's upstream")) <$> missing_lambda (upstream_lambdas (sn_upstreams snap)) d) = [] ↔
    ∀ ref name, de_type d = Some (Destination_Upstream ref) → de_aws d = Some name → lambda_exists snap ref name) as Hd.
  { intros d. unfold missing_lambda, lambda_exists. destruct (de_type d) as [[ref|ref p|c]|]; try naive_solver. destruct (de_aws d) as [name|]; [|naive_solver].
    case_bool_decide as Hin; rewrite upstream_lambdas_elem in Hin; cbn; naive_solver. }
  split.
  - intros Hall. exists ds. split; [done|]. intros d ref name Hin. apply Hd. by apply Hall.
  - intros (? & [= <-] & Hall) d Hin. apply Hd. intros. by eapply Hall.
Qed.

(** [validateUpstreamLambdaFunctions] appends errors to the report of the Proxy only, and
    none exactly when every route of every virtual host of its listeners has a known kind
    of destination, an upstream group that exists, and lambda functions its upstreams have. *)
Theorem validateUpstreamLambdaFunctions_exact proxy snap : ∃ es,
  raising (validateUpstreamLambdaFunctions (PS := PS) proxy snap) tt (at_key (proxy_key proxy) es) ∧
  (es = [] ↔ ∀ listener vh route, listener ∈ px_listeners proxy → vh ∈ GetVirtualHostsForListener listener → route ∈ vh_routes vh → lambdas_ok snap route).
Proof.
  assert (∀ {A} (k : ResourceKey) (l : list A) (f : A → list error) k', concat (map (λ x, at_key k (f x) k') l) = at_key k (concat (map f l)) k') as Hat.
  { intros A k l f k'. unfold at_key. case_decide; [done|]. by apply concat_map_nil. }
  exists (concat (map (λ l, concat (map (λ v, concat (map (route_lambda_errors snap) (vh_routes v))) (GetVirtualHostsForListener l))) (px_listeners proxy))). split.
  - eapply raising_eq; [apply raising_for; intros l _; apply raising_for; intros v _; apply raising_for; intros r _; apply raising_route_lambdas|].
    intros k. cbn. rewrite <-Hat. f_equal. apply map_ext. intros l. rewrite <-Hat. f_equal. apply map_ext. intros v. by rewrite <-Hat.
  - rewrite concat_map_nil. setoid_rewrite concat_map_nil. setoid_rewrite concat_map_nil. setoid_rewrite route_lambda_errors_nil. naive_solver.
Qed.

(** ** Endpoints of upstreams *)
(** An endpoint once per reference to the upstream. *)
Definition endpoint_of (k : string) (ep : Endpoint) : list Endpoint := map (λ _, ep) (List.filter (λ ref, bool_decide (ref_Key ref = k)) (ep_upstreams ep)).
Lemma empty_endpoints_map ups k (m : gmap string (list Endpoint)) :
  fold_left (λ m us, <[ref_Key (up_ref us) := []]> m) ups m !! k = if bool_decide (k ∈ map (λ u, ref_Key (up_ref u)) ups) then Some [] else m !! k.
Proof.
  induction ups as [|u ups IH] using rev_ind; [done|]. rewrite fold_left_app. cbn. destruct (decide (ref_Key (up_ref u) = k)) as [<-|Hn].
  - rewrite lookup_insert_eq, bool_decide_eq_true_2; [done|]. rewrite map_app. set_solver.
  - rewrite lookup_insert_ne, IH by done. rewrite map_app. erewrite (bool_decide_ext (k ∈ _ ++ _)); [reflexivity|]. set_solver.
Qed.
Lemma endpoint_refs_map ep refs k (m : gmap string (list Endpoint)) :
  fold_left (λ m ref, match m !! ref_Key ref with Some eps => <[ref_Key ref := eps ++ [ep]]> m | None => m end) refs m !! k =
  (λ eps, eps ++ map (λ _, ep) (List.filter (λ ref, bool_decide (ref_Key ref = k)) refs)) <$> m !! k.
Proof.
  revert m. induction refs as [|ref refs IH]; intros m; cbn [fold_left List.filter]; [cbn; destruct (m !! k); cbn; by rewrite ?app_nil_r|]. rewrite IH.
  case_bool_decide as Hk; [rewrite Hk|].
  - destruct (m !! k) as [eps|] eqn:E; [|by rewrite E]. rewrite lookup_insert_eq. cbn. by rewrite <-app_assoc.
  - destruct (m !! ref_Key ref); [by rewrite lookup_insert_ne|done].
Qed.

(** The endpoints of an upstream are those of the snapshot that refer to it, in order and
    once per reference; of a key without an upstream there is no entry. *)
Theorem createUpstreamToEndpointsMap_exact upstreams endpoints k :
  createUpstreamToEndpointsMap upstreams endpoints !! k =
  if bool_decide (k ∈ map (λ u, ref_Key (up_ref u)) upstreams) then Some (concat (map (endpoint_of k) endpoints)) else None.
Proof.
  unfold createUpstreamToEndpointsMap. induction endpoints as [|ep eps IH] using rev_ind; [cbn [fold_left]; by rewrite empty_endpoints_map|].
  rewrite fold_left_app. cbn. rewrite endpoint_refs_map, IH. case_bool_decide; [|done]. cbn. by rewrite map_app, concat_app; cbn; rewrite app_nil_r.
Qed.

(** *** Metadata *)
(** A field of the metadata of a filter. *)
Definition metadata_field (m : option Cds.Metadata) (filter field : string) : option string :=
  match m with Some m => match m !! filter with Some fields => fields !! field | None => None end | None => None end.
Lemma metadata_field_insert m filter fields f k :
  metadata_field (Some (<[filter := fields]> (default ∅ m))) f k = if decide (filter = f) then fields !! k else metadata_field m f k.
Proof.
  unfold metadata_field. case_decide as Hf; [subst f; by rewrite lookup_insert_eq|]. rewrite lookup_insert_ne by done. by destruct m.
Qed.
Lemma addAnnotations_field m annotations f k : metadata_field (addAnnotations m annotations) f k =
  if decide (SoloAnnotations = f) then match annotations with Some a => a !! k | None => metadata_field m f k end else metadata_field m f k.
Proof. destruct annotations; cbn; [apply metadata_field_insert|by case_decide]. Qed.
Lemma allKeys_elem upstream k : k ∈ allKeys upstream ↔ ∃ spec s, up_subsetSpec upstream = Some spec ∧ s ∈ sp_selectors spec ∧ k ∈ sl_keys s.
Proof.
  unfold allKeys. rewrite elem_of_list_to_set. destruct (up_subsetSpec upstream) as [spec|]; cbn; [|split; [by intros ?%elem_of_nil|by intros (? & ? & ? & _)]].
  rewrite elem_of_flat_map. naive_solver.
Qed.

Lemma getLbMetadata_field upstream labels f k : metadata_field (getLbMetadata upstream labels "") f k =
  if decide (f = EnvoyLb) then match default ∅ labels !! k with Some v => Some v | None => if bool_decide (k ∈ allKeys upstream) then Some "" else None end else None.
Proof.
  unfold getLbMetadata. set (lb := default ∅ labels ∪ gset_to_gmap "" (allKeys upstream)).
  assert (lb !! k = match default ∅ labels !! k with Some v => Some v | None => if bool_decide (k ∈ allKeys upstream) then Some "" else None end) as <-.
  { unfold lb. rewrite lookup_union, lookup_gset_to_gmap. case_bool_decide; [rewrite option_guard_True by done|rewrite option_guard_False by done]; by destruct (default ∅ labels !! k). }
  case_bool_decide as E; unfold metadata_field; [rewrite E, lookup_empty; by case_decide|]. rewrite lookup_singleton. case_decide; case_decide; congruence.
Qed.

(** The fields of the metadata of an endpoint. *)
Definition endpoint_fields upstream (enableAutoMtls : bool) addr (e : Cds.LbEndpoint) : Prop :=
  (∀ k, metadata_field (Cds.le_metadata e) EnvoyLb k =
     match default ∅ (ep_labels addr) !! k with Some v => Some v | None => if bool_decide (k ∈ allKeys upstream) then Some "" else None end) ∧
  (∀ k, metadata_field (Cds.le_metadata e) EnvoyTransportSocketMatch k =
     if enableAutoMtls && bool_decide (is_Some (default ∅ (ep_labels addr) !! IstioTlsModeLabel)) && bool_decide (k = TLSModeLabelShortname) then Some IstioMutualTLSModeLabel else None) ∧
  (∀ k, metadata_field (Cds.le_metadata e) SoloAnnotations k = match ep_annotations addr with Some a => a !! k | None => None end).
Lemma lb_endpoint_fields upstream enableAutoMtls addr : ∃ e, lb_endpoint upstream enableAutoMtls addr = Ok e ∧ endpoint_fields upstream enableAutoMtls addr e.
Proof.
  unfold endpoint_fields. pose proof (getLbMetadata_field upstream (ep_labels addr)) as Hm. unfold lb_endpoint, addIstioAutomtlsMetadata.
  set (m := getLbMetadata upstream (ep_labels addr) "") in *. set (mtls := enableAutoMtls && bool_decide (is_Some (default ∅ (ep_labels addr) !! IstioTlsModeLabel))).
  assert (∃ m', (if mtls then match m with None => Panic "assignment to entry in nil map" | Some m => Ok (Some (<[EnvoyTransportSocketMatch := {[TLSModeLabelShortname := IstioMutualTLSModeLabel]}]> m)) end
      else Ok m) = Ok m' ∧ ∀ f k, metadata_field m' f k = if decide (EnvoyTransportSocketMatch = f) then
        (if mtls && bool_decide (k = TLSModeLabelShortname) then Some IstioMutualTLSModeLabel else None) else metadata_field m f k) as (m' & -> & Hm').
  { destruct mtls eqn:Hmtls; cbn [andb].
    - assert (m = Some (default ∅ m)) as ->.
      { apply andb_prop in Hmtls as [_ [v Hv]%bool_decide_eq_true]. destruct m; [done|]. specialize (Hm EnvoyLb IstioTlsModeLabel). rewrite decide_True, Hv in Hm by done. done. }
      eexists. split; [reflexivity|]. intros f k. rewrite metadata_field_insert. case_decide; [|by destruct m]. rewrite lookup_singleton. case_decide; case_bool_decide; congruence.
    - exists m. split; [done|]. intros f k. case_decide as Hf; [|done]. rewrite Hm. by rewrite decide_False by by rewrite <-Hf. }
  eexists. split; [reflexivity|]. cbn [Cds.le_metadata]. split_and!; intros k; rewrite addAnnotations_field, Hm'.
  - by rewrite decide_False, decide_False, Hm, decide_True.
  - by rewrite decide_False, decide_True.
  - rewrite decide_True by done. rewrite decide_False, Hm by done. by rewrite decide_False.
Qed.

(** An endpoint never panics, and its metadata are the labels for the load balancer, with
    every key of the subsets of the upstream (empty without such a label), the mark of Istio's
    automatic mTLS when this is on and the endpoint has the label, and the annotations. *)
Theorem lb_endpoint_exact upstream enableAutoMtls addr : ∃ e, lb_endpoint upstream enableAutoMtls addr = Ok e ∧
  (∀ k, metadata_field (Cds.le_metadata e) EnvoyLb k =
     match default ∅ (ep_labels addr) !! k with Some v => Some v | None => if bool_decide (k ∈ allKeys upstream) then Some "" else None end) ∧
  (∀ k, metadata_field (Cds.le_metadata e) EnvoyTransportSocketMatch k =
     if enableAutoMtls && bool_decide (is_Some (default ∅ (ep_labels addr) !! IstioTlsModeLabel)) && bool_decide (k = TLSModeLabelShortname) then Some IstioMutualTLSModeLabel else None) ∧
  (∀ k, metadata_field (Cds.le_metadata e) SoloAnnotations k = match ep_annotations addr with Some a => a !! k | None => None end).
Proof. apply lb_endpoint_fields. Qed.
End Facts.
