(* ===== verification/EnvoyEdsFacts.v ===== *)
(** * Facts about clusters and their load assignments

    The cluster subsystem returns, with one cluster per upstream; every cluster that finds
    its endpoints by EDS has a load assignment under the name it asks for, and there are no
    load assignments besides those of clusters: otherwise Envoy would wait for endpoints
    that never come. *)

From stdpp Require Import base gmap strings list fin_maps pretty.
From Stdlib Require Import ZArith Ascii.
From S2P Require Import Prelude GoLib GwApi EdgeApi ProxyReports ResourceReports Xds Sanitizers GlooProxy EnvoyRoutes Ssl EnvoyFilters EnvoySsl EnvoyListeners EnvoyClusters EnvoyClustersFacts EnvoyTranslator.
Import Gloo.

(** What plugins of clusters and endpoints promise: they keep names, and a cluster that uses
    EDS has a configuration for it. *)
Definition eds_ok (c : Cds.Cluster) : Prop := Cds.GetType c = Cds.EDS → is_Some (Cds.cl_edsClusterConfig c).
Class ClusterPluginsLaws `{Errors} (PS : Type) `{!ClusterPlugins PS} := {
  upstream_plugin_keeps p : p ∈ GetUpstreamPlugins → ∀ snap u c ps err c' ps', p snap u c ps = (err, c', ps') →
    Cds.cl_name c' = Cds.cl_name c ∧ (eds_ok c → eds_ok c');
  endpoint_plugin_keeps p : p ∈ GetEndpointPlugins → ∀ snap u la ps err la' ps', p snap u la ps = (err, la', ps') →
    Cds.la_clusterName la' = Cds.la_clusterName la
}.

(** ** Load assignments by name *)
Lemma endpoint_map_elem l n j : j ∈ default [] (endpoint_map l !! n) ↔ ∃ la, l !! j = Some la ∧ Cds.la_clusterName la = n.
Proof.
  unfold endpoint_map. induction l as [|x l IH] using rev_ind.
  - cbn. rewrite lookup_empty. cbn. split; [by intros ?%elem_of_nil|]. by intros (? & [=] & _).
  - rewrite imap_app, fold_left_app. cbn [imap fold_left]. set (m := fold_left _ (imap pair l) ∅) in *. rewrite Nat.add_0_r. unfold add_position. cbn [fst snd].
    assert (∀ la, (l ++ [x]) !! j = Some la ↔ l !! j = Some la ∨ (j = length l ∧ x = la)) as Hl.
    { intros la. rewrite lookup_app_Some, list_lookup_singleton_Some. split; [intros [?|(? & ? & ?)]; [by left|right; split; [lia|done]]|].
      intros [?|[-> ?]]; [by left|right; split; [lia|split; [lia|done]]]. }
    setoid_rewrite Hl. destruct (decide (Cds.la_clusterName x = n)) as [<-|Hn].
    + rewrite lookup_insert_eq. cbn. rewrite elem_of_app, list_elem_of_singleton, IH. naive_solver.
    + rewrite lookup_insert_ne, IH by done. naive_solver.
Qed.
Lemma endpoint_map_some l n js j : endpoint_map l !! n = Some js → j ∈ js ↔ ∃ la, l !! j = Some la ∧ Cds.la_clusterName la = n.
Proof. intros E. rewrite <-endpoint_map_elem, E. done. Qed.
Lemma endpoint_map_nonempty l n : endpoint_map l !! n ≠ Some [].
Proof.
  unfold endpoint_map. induction l as [|x l IH] using rev_ind; [cbn; by rewrite lookup_empty|]. rewrite imap_app, fold_left_app. cbn [imap fold_left].
  unfold add_position. cbn [fst snd]. destruct (decide (Cds.la_clusterName x = n)) as [<-|Hn]; [rewrite lookup_insert_eq|by rewrite lookup_insert_ne].
  intros [= E]. by destruct (default [] _).
Qed.
Lemma endpoint_map_none l n la : endpoint_map l !! n = None → la ∈ l → Cds.la_clusterName la ≠ n.
Proof.
  intros E (j & Hj)%list_elem_of_lookup Hn. assert (j ∈ default [] (endpoint_map l !! n)) as Hin by (apply endpoint_map_elem; eauto).
  rewrite E in Hin. by apply elem_of_nil in Hin.
Qed.
Lemma rename_all_lookup n js l j : rename_all n js l !! j = if decide (j ∈ js) then rename n <$> l !! j else l !! j.
Proof.
  unfold rename_all. induction js as [|i js IH] using rev_ind; [by rewrite decide_False by apply not_elem_of_nil|].
  rewrite fold_left_app. cbn. destruct (decide (j = i)) as [->|Hne].
  - rewrite list_lookup_alter_eq, IH. rewrite (decide_True (P := i ∈ js ++ [i])) by set_solver. case_decide; [|done]. by destruct (l !! i).
  - rewrite list_lookup_alter_ne, IH by done. case_decide; case_decide; [done|set_solver|set_solver|done].
Qed.

(** ** Assigning endpoints *)
Section Facts.
Context `{Errors, !SoloReports, !ClusterLibs, SslLibs, RouteLibs, Strconv} {PS : Type} `{!ClusterPlugins PS, !ClusterPluginsLaws PS, !GoRange string}.
Context (settings : Settings).
Abbreviation returns m P := (keeps (λ _ : ResourceReports * PS, True) m P).
Implicit Types (p : Cds.Cluster * Upstream).

Definition is_eds (c : Cds.Cluster) : bool := match Cds.GetType c with Cds.EDS => true | _ => false end.
Definition cluster_name p : string := Cds.cl_name p.1.
(** The name a cluster asks for; empty when the upstream cannot be hashed. *)
Definition service_name p : string := match getEndpointClusterName (cluster_name p) p.2 with inl _ => "" | inr n => n end.
Definition renamed (pre : list (Cds.Cluster * Upstream)) (la : Cds.ClusterLoadAssignment) : Cds.ClusterLoadAssignment :=
  match List.find (λ p, is_eds p.1 && bool_decide (cluster_name p = Cds.la_clusterName la)) pre with Some p => rename (service_name p) la | None => la end.
Definition assigned p (c : Cds.Cluster) : Prop := if is_eds p.1 then Cds.with_serviceName (service_name p) p.1 = Some c else c = p.1.
Definition unserved (init : list Cds.ClusterLoadAssignment) p : bool := is_eds p.1 && negb (bool_decide (cluster_name p ∈ map Cds.la_clusterName init)).
Definition assigned_inv (init : list Cds.ClusterLoadAssignment) (pre : list (Cds.Cluster * Upstream)) (a : Assigned) : Prop := ∃ extra,
  Forall2 assigned pre (as_clusters a) ∧ as_endpoints a = map (renamed pre) init ++ extra ∧
  map Cds.la_clusterName extra = map service_name (List.filter (unserved init) pre) ∧
  ∀ n, n ∉ map service_name pre → as_map a !! n = endpoint_map init !! n.

Lemma renamed_snoc_other pre p la : is_eds p.1 = false ∨ cluster_name p ≠ Cds.la_clusterName la → renamed (pre ++ [p]) la = renamed pre la.
Proof.
  intros Hp. unfold renamed. rewrite find_app. cbn [List.find].
  assert (is_eds p.1 && bool_decide (cluster_name p = Cds.la_clusterName la) = false) as ->; [|by destruct (List.find _ pre)].
  destruct Hp as [->|Hn]; [done|]. by rewrite (bool_decide_eq_false_2 _ Hn), andb_false_r.
Qed.
Lemma renamed_snoc_same pre p la : is_eds p.1 = true → cluster_name p = Cds.la_clusterName la → cluster_name p ∉ map cluster_name pre →
  renamed (pre ++ [p]) la = rename (service_name p) (renamed pre la).
Proof.
  intros He Hn Hin. unfold renamed. rewrite find_app. cbn [List.find]. rewrite He, (bool_decide_eq_true_2 _ Hn). cbn.
  destruct (List.find _ pre) as [q|] eqn:Hf; [|done]. exfalso. apply Hin.
  apply find_some in Hf as [Hq [_ E%bool_decide_eq_true]%andb_prop]. apply list_elem_of_fmap. exists q. split; [congruence|by apply list_elem_of_In].
Qed.
Lemma filter_snoc_bool {A} (f : A → bool) l x : List.filter f (l ++ [x]) = List.filter f l ++ (if f x then [x] else []).
Proof. rewrite List.filter_app. cbn. by destruct (f x). Qed.

(** The steps of the loop that find load assignments, and that do not. *)
Lemma assigned_inv_other init pre p a : is_eds p.1 = false → assigned_inv init pre a →
  assigned_inv init (pre ++ [p]) {| as_clusters := as_clusters a ++ [p.1]; as_endpoints := as_endpoints a; as_map := as_map a |}.
Proof.
  intros He (extra & Hc & Hl & Hx & Hm). exists extra. cbn. split_and!.
  - apply Forall2_app; [done|]. constructor; [|done]. unfold assigned. by rewrite He.
  - rewrite Hl. f_equal. apply map_ext. intros la. symmetry. apply renamed_snoc_other. by left.
  - rewrite filter_snoc_bool. unfold unserved at 2. by rewrite He, app_nil_r.
  - intros n Hn. apply Hm. rewrite map_app in Hn. set_solver.
Qed.
Lemma assigned_inv_found init pre p a js c : is_eds p.1 = true → Cds.with_serviceName (service_name p) p.1 = Some c →
  cluster_name p ∉ map cluster_name pre → cluster_name p ∉ map service_name pre → assigned_inv init pre a → as_map a !! cluster_name p = Some js →
  assigned_inv init (pre ++ [p]) {| as_clusters := as_clusters a ++ [c]; as_endpoints := rename_all (service_name p) js (as_endpoints a); as_map := as_map a |}.
Proof.
  intros He Hs Hnew Hserv (extra & Hc & Hl & Hx & Hm) His. rewrite (Hm _ Hserv) in His. pose proof (λ j, endpoint_map_some _ _ _ j His) as Hpos. exists extra. cbn. split_and!.
  - apply Forall2_app; [done|]. constructor; [|done]. unfold assigned. by rewrite He.
  - rewrite Hl. apply list_eq. intros j. rewrite rename_all_lookup. destruct (decide (j < length init)) as [Hj|Hj].
    + rewrite !lookup_app_l, !list_lookup_fmap by by rewrite length_map. apply lookup_lt_is_Some in Hj as [la Hla]. rewrite Hla. cbn. case_decide as Hin.
      * apply (Hpos j) in Hin as (la' & Hla' & Hn). rewrite Hla in Hla'. injection Hla' as <-. by rewrite renamed_snoc_same.
      * rewrite renamed_snoc_other; [done|]. right. intros Hn. apply Hin, Hpos. eauto.
    + rewrite decide_False; [|intros (la & Hla%lookup_lt_Some & _)%Hpos; done]. by rewrite !lookup_app_r, !length_map by (rewrite length_map; lia).
  - rewrite filter_snoc_bool. unfold unserved at 2. rewrite He. rewrite bool_decide_eq_true_2; [by rewrite app_nil_r|].
    assert (∃ j, j ∈ js) as [j Hj] by (destruct js as [|j js]; [by destruct (endpoint_map_nonempty init (cluster_name p))|exists j; by left]).
    apply Hpos in Hj as (la & Hla & <-). apply list_elem_of_fmap_2. by eapply list_elem_of_lookup_2.
  - intros n Hn. apply Hm. rewrite map_app in Hn. set_solver.
Qed.
Lemma assigned_inv_empty init pre p a la c : is_eds p.1 = true → Cds.with_serviceName (service_name p) p.1 = Some c →
  cluster_name p ∉ map service_name pre → assigned_inv init pre a → as_map a !! cluster_name p = None → Cds.la_clusterName la = service_name p →
  assigned_inv init (pre ++ [p])
    {| as_clusters := as_clusters a ++ [c]; as_endpoints := as_endpoints a ++ [la]; as_map := add_position (length (as_endpoints a)) la (as_map a) |}.
Proof.
  intros He Hs Hserv (extra & Hc & Hl & Hx & Hm) Hnone Hla. rewrite (Hm _ Hserv) in Hnone. exists (extra ++ [la]). cbn. split_and!.
  - apply Forall2_app; [done|]. constructor; [|done]. unfold assigned. by rewrite He.
  - rewrite Hl, app_assoc. f_equal. f_equal. apply map_ext_in. intros l Hin%list_elem_of_In. symmetry. apply renamed_snoc_other. right. intros Hn.
    by eapply endpoint_map_none.
  - rewrite filter_snoc_bool, !map_app, Hx. unfold unserved at 3. rewrite He, bool_decide_eq_false_2; [cbn; by rewrite Hla|].
    intros (l & Hn & Hin)%list_elem_of_fmap. by eapply endpoint_map_none.
  - intros n Hn. rewrite map_app, elem_of_app in Hn. unfold add_position. rewrite lookup_insert_ne; [apply Hm; auto|]. rewrite Hla. intros <-. apply Hn. right. by left.
Qed.

Lemma returns_add_opt k e : returns (add_opt k e) (λ _, True).
Proof. intros [r ps] _. by destruct e. Qed.
Lemma returns_plugins {A} (f : PS → A * PS) (P : A → Prop) : (∀ ps a ps', f ps = (a, ps') → P a) → returns (on_plugins f) P.
Proof. intros Hf [r ps] _. unfold wp, on_plugins. destruct (f ps) as [a ps'] eqn:E. split; [done|eauto]. Qed.
Lemma returns_or_report {A} k (zero : A) r : returns (or_report k zero r) (λ _, True).
Proof. intros [rs ps] _. by destruct r. Qed.
Lemma returns_run_endpoint_plugins snap u la : returns (run_endpoint_plugins snap u la) (λ la', Cds.la_clusterName la' = Cds.la_clusterName la).
Proof.
  apply (keeps_fold _ (λ la', Cds.la_clusterName la' = Cds.la_clusterName la)); [done|]. intros i p la' Hp%list_elem_of_lookup_2 Hn.
  eapply keeps_bind; [apply (returns_plugins _ (λ r, Cds.la_clusterName r.2 = Cds.la_clusterName la))|].
  - intros ps [err la''] ps' E. cbn. rewrite <-Hn. by eapply endpoint_plugin_keeps.
  - intros [err la''] Hn'. eapply keeps_bind; [apply returns_add_opt|]. intros _ _. by apply keeps_ret.
Qed.
Lemma returns_assign_endpoints snap names init pre p a : eds_ok p.1 → cluster_name p ∉ map cluster_name pre → cluster_name p ∉ map service_name pre →
  assigned_inv init pre a → returns (assign_endpoints snap names p.1 p.2 a) (assigned_inv init (pre ++ [p])).
Proof.
  intros Hok Hnew Hserv Ha. unfold assign_endpoints. destruct (Cds.GetType p.1) eqn:Ht; try (apply keeps_ret, assigned_inv_other; [by unfold is_eds; rewrite Ht|done]).
  assert (is_eds p.1 = true) as He by by unfold is_eds; rewrite Ht.
  eapply keeps_bind; [instantiate (1 := λ n, n = service_name p)|].
  { unfold service_name, cluster_name. destruct (getEndpointClusterName (Cds.cl_name p.1) p.2) as [err|n]; [|by apply keeps_ret].
    intros [r ps] _. by split. }
  intros n ->. destruct (Hok Ht) as [e Hcfg]. destruct (Cds.with_serviceName (service_name p) p.1) as [c|] eqn:Hs; [|unfold Cds.with_serviceName in Hs; by rewrite Hcfg in Hs].
  fold (cluster_name p). destruct (as_map a !! cluster_name p) as [js|] eqn:Hm.
  - apply keeps_ret. by apply assigned_inv_found.
  - eapply keeps_bind; [instantiate (1 := λ la, Cds.la_clusterName la = service_name p)|].
    + case_bool_decide; [|by apply keeps_ret]. eapply keeps_mono; [apply returns_run_endpoint_plugins|]. done.
    + intros la Hla. apply keeps_ret. by apply assigned_inv_empty.
Qed.
(** Distinct names of clusters, none of which is the service name of another. *)
Definition names_apart (l : list (Cds.Cluster * Upstream)) : Prop :=
  NoDup (map cluster_name l) ∧ ∀ p q, p ∈ l → q ∈ l → cluster_name p ≠ service_name q.
Lemma returns_assign_all snap names init clusters : Forall (λ p, eds_ok p.1) clusters → names_apart clusters →
  returns (fold_range 0 clusters {| as_clusters := []; as_endpoints := init; as_map := endpoint_map init |} (λ _ p a, assign_endpoints snap names p.1 p.2 a))
    (assigned_inv init clusters).
Proof.
  intros Hok [Hnd Hap]. apply keeps_fold_split.
  - exists []. cbn. rewrite app_nil_r. split_and!; [constructor| |done|done]. induction init; [done|]. cbn. by f_equal.
  - intros pre p post a -> Ha. apply returns_assign_endpoints; [| | |done].
    + by apply Forall_app in Hok as [_ [? _]%Forall_cons].
    + rewrite map_app, NoDup_app in Hnd. intros Hin. apply (proj1 (proj2 Hnd) _ Hin). by left.
    + intros (q & E & Hq)%list_elem_of_fmap. apply (Hap p q); [| |done]; apply elem_of_app; [right; by left|by left].
Qed.

(** *** What the loop gives *)
Lemma with_serviceName_some n c c' : Cds.with_serviceName n c = Some c' →
  Cds.cl_name c' = Cds.cl_name c ∧ Cds.GetType c' = Cds.GetType c ∧ ∃ e, Cds.cl_edsClusterConfig c' = Some e ∧ Cds.ed_serviceName e = n.
Proof. unfold Cds.with_serviceName. destruct (Cds.cl_edsClusterConfig c); [|done]. intros [= <-]. eauto. Qed.
(** The clusters and load assignments refer to each other: each EDS cluster asks for a name
    that is there, each load assignment has the name some cluster looks for. *)
Definition eds_closed (clusters : list Cds.Cluster) (endpoints : list Cds.ClusterLoadAssignment) : Prop :=
  (∀ c, c ∈ clusters → Cds.GetType c = Cds.EDS → ∃ e, Cds.cl_edsClusterConfig c = Some e ∧ Cds.ed_serviceName e ∈ map Cds.la_clusterName endpoints) ∧
  (∀ la, la ∈ endpoints → ∃ c, c ∈ clusters ∧
     (if is_eds c then ∃ e, Cds.cl_edsClusterConfig c = Some e ∧ Cds.la_clusterName la = Cds.ed_serviceName e else Cds.la_clusterName la = Cds.cl_name c)).
Lemma is_eds_true c : is_eds c = true ↔ Cds.GetType c = Cds.EDS.
Proof. unfold is_eds. by destruct (Cds.GetType c). Qed.
Lemma assigned_type p c : assigned p c → is_eds c = is_eds p.1 ∧ Cds.cl_name c = cluster_name p ∧
  (is_eds p.1 = true → ∃ e, Cds.cl_edsClusterConfig c = Some e ∧ Cds.ed_serviceName e = service_name p).
Proof.
  unfold assigned. destruct (is_eds p.1) eqn:He; [|by intros ->]. intros (Hn & Ht & He')%with_serviceName_some. unfold is_eds in *. by rewrite Ht.
Qed.
Lemma assigned_inv_closed init l a : (∀ la, la ∈ init → ∃ p, p ∈ l ∧ cluster_name p = Cds.la_clusterName la) → NoDup (map cluster_name l) →
  assigned_inv init l a → eds_closed (as_clusters a) (as_endpoints a) ∧ map Cds.cl_name (as_clusters a) = map cluster_name l.
Proof.
  intros Hinit Hnd (extra & Hc & Hl & Hx & _). split; [split|].
  - intros c (i & Hi)%list_elem_of_lookup Ht%is_eds_true. destruct (Forall2_lookup_r _ _ _ _ _ Hc Hi) as (p & Hp & Ha). destruct (assigned_type _ _ Ha) as (He & _ & Hs).
    rewrite Ht in He. destruct (Hs (eq_sym He)) as (e & Ee & En). exists e. split; [done|]. rewrite En, Hl, map_app. apply list_elem_of_lookup_2 in Hp.
    apply elem_of_app. destruct (decide (cluster_name p ∈ map Cds.la_clusterName init)) as [(la & Hn & Hla)%list_elem_of_fmap|Hno]; [left|right].
    + apply list_elem_of_fmap. exists (renamed l la). split; [|by apply list_elem_of_fmap_2]. unfold renamed.
      destruct (List.find _ l) as [q|] eqn:Hf.
      * apply find_some in Hf as [Hq%list_elem_of_In [_ E%bool_decide_eq_true]%andb_prop]. cbn. f_equal.
        assert (p = q) as ->; [|done]. apply (NoDup_map_inj cluster_name l); [done..|congruence].
      * eapply find_none in Hf; [|by apply list_elem_of_In]. cbn in Hf. by rewrite <-He, bool_decide_eq_true_2 in Hf.
    + rewrite Hx. apply list_elem_of_fmap_2, elem_of_filter_bool. split; [done|]. unfold unserved. by rewrite <-He, bool_decide_eq_false_2.
  - intros la Hla. rewrite Hl in Hla. apply elem_of_app in Hla as [(la0 & -> & Hla0)%list_elem_of_fmap|Hla].
    + unfold renamed. destruct (List.find _ l) as [p|] eqn:Hf.
      * apply find_some in Hf as [(i & Hi)%list_elem_of_In%list_elem_of_lookup [He E%bool_decide_eq_true]%andb_prop].
        destruct (Forall2_lookup_l _ _ _ _ _ Hc Hi) as (c & Hci & Ha). destruct (assigned_type _ _ Ha) as (Hty & _ & Hs). exists c. split; [by eapply list_elem_of_lookup_2|].
        rewrite Hty, He. destruct (Hs He) as (e & ? & <-). by exists e.
      * destruct (Hinit la0 Hla0) as (p & (i & Hi)%list_elem_of_lookup & Hn). destruct (Forall2_lookup_l _ _ _ _ _ Hc Hi) as (c & Hci & Ha).
        destruct (assigned_type _ _ Ha) as (Hty & Hname & _). exists c. split; [by eapply list_elem_of_lookup_2|].
        eapply find_none in Hf; [|eapply list_elem_of_In, list_elem_of_lookup_2, Hi]. cbn in Hf. rewrite (bool_decide_eq_true_2 _ Hn), andb_true_r in Hf.
        rewrite Hty, Hf. congruence.
    + apply (list_elem_of_fmap_2 Cds.la_clusterName) in Hla. change (Cds.la_clusterName <$> extra) with (map Cds.la_clusterName extra) in Hla. rewrite Hx in Hla.
      apply list_elem_of_fmap in Hla as (p & Hn & [(i & Hi)%list_elem_of_lookup Hun]%elem_of_filter_bool).
      destruct (Forall2_lookup_l _ _ _ _ _ Hc Hi) as (c & Hci & Ha). destruct (assigned_type _ _ Ha) as (Hty & _ & Hs). exists c. split; [by eapply list_elem_of_lookup_2|].
      unfold unserved in Hun. apply andb_prop in Hun as [He _]. rewrite Hty, He. destruct (Hs He) as (e & ? & Es). exists e. split; [done|congruence].
  - clear -Hc. induction Hc as [|p c l cs Ha _ IH]; [done|]. cbn. destruct (assigned_type _ _ Ha) as (_ & -> & _). by f_equal.
Qed.

(** ** The cluster subsystem *)
Definition upstream_cluster (u : Upstream) : string := Xds.UpstreamToClusterName (up_ref u).
(** The versions of the proxy protocol of one letter are known: the message of the error
    about an unknown one panics. *)
Definition socket_ok (u : Upstream) : Prop := ∀ v, up_proxyProtocolVersion u = Some v → String.length v = 1 → is_Some (Version_value v).
Definition tls_marshals : Prop := ∀ c, upstream_tls_error c = None.

Lemma slice_1_last_ok s : String.length s ≠ 1 → ∃ t, slice_1_last s = Ok t.
Proof. intros Hs. unfold slice_1_last. rewrite (proj2 (Nat.eqb_neq _ _) Hs). eauto. Qed.
Lemma WrapWithPProtocol_returns socket v : (String.length v = 1 → is_Some (Version_value v)) → ∃ r, WrapWithPProtocol socket v = Ok r.
Proof.
  intros Hv. unfold WrapWithPProtocol. case_bool_decide; [eauto|]. destruct (Version_value v) as [n|]; [eauto|].
  assert (String.length v ≠ 1) as Hn by (intros E; by destruct (Hv E)). destruct (slice_1_last_ok v Hn) as (t & ->). cbn.
  destruct (_ && _); [destruct (Version_value t)|]; eauto.
Qed.
Lemma returns_report f : returns (update_report f) (λ _, True).
Proof. by intros [r ps] _. Qed.
Lemma returns_initializeCluster u eps secrets enforce : tls_marshals → socket_ok u →
  returns (initializeCluster settings u eps secrets enforce) (λ c, Cds.cl_name c = upstream_cluster u ∧ eds_ok c).
Proof.
  intros Htls Hs. unfold initializeCluster. do 3 (eapply keeps_bind; [apply returns_or_report|]; intros ? _).
  eapply keeps_bind; [instantiate (1 := λ _, True); unfold getDnsRefreshRate; repeat case_match; try (eapply keeps_bind; [apply returns_report|]; intros); by apply keeps_ret|]. intros dns _.
  eapply keeps_bind; [instantiate (1 := λ _, True)|].
  { unfold transport_socket. destruct (up_sslConfig (with_ssl_defaults settings u)) as [c|]; [|by apply keeps_ret]. destruct (ResolveUpstreamSslConfig secrets c) as [e|cfg].
    - eapply keeps_bind; [case_match; apply returns_report|]. intros. by apply keeps_ret.
    - rewrite Htls. by apply keeps_ret. }
  intros socket _. eapply keeps_bind; [instantiate (1 := λ _, True)|].
  { unfold proxy_protocol. destruct (up_proxyProtocolVersion u) as [v|] eqn:Ev; [|by apply keeps_ret].
    destruct (WrapWithPProtocol_returns socket v (Hs v Ev)) as (r & Er). eapply keeps_bind; [by apply (keeps_res _ _ r (λ _, True))|]. intros r' _. apply returns_or_report. }
  intros socket' _. apply keeps_ret. destruct (0 <? length eps); split; try done. intros _. cbn. by eexists.
Qed.
Lemma returns_computeCluster snap u eps enforce : tls_marshals → socket_ok u →
  returns (computeCluster settings snap u eps enforce) (λ c, Cds.cl_name c = upstream_cluster u ∧ eds_ok c).
Proof.
  intros Htls Hs. unfold computeCluster. eapply keeps_bind; [by apply returns_initializeCluster|]. intros c Hc.
  eapply keeps_bind; [apply (keeps_fold _ (λ c, Cds.cl_name c = upstream_cluster u ∧ eds_ok c)); [done|]|].
  - intros i p c' Hp%list_elem_of_lookup_2 [Hn Hok]. eapply keeps_bind; [apply (returns_plugins _ (λ r, Cds.cl_name r.2 = upstream_cluster u ∧ eds_ok r.2))|].
    + intros ps [err c''] ps' E. destruct (upstream_plugin_keeps p Hp _ _ _ _ _ _ _ E) as [En Ee]. cbn. split; [congruence|auto].
    + intros [err c''] Hc''. eapply keeps_bind; [apply returns_add_opt|]. intros _ _. by apply keeps_ret.
  - intros c' Hc'. eapply keeps_bind; [apply returns_add_opt|]. intros _ _. by apply keeps_ret.
Qed.
Definition cluster_for (u : Upstream) p : Prop := cluster_name p = upstream_cluster u ∧ eds_ok p.1 ∧ p.2 = with_ssl_defaults settings u.
Lemma returns_lambdas proxy snap : returns (validateUpstreamLambdaFunctions proxy snap) (λ _, True).
Proof.
  apply keeps_for. intros l _. apply keeps_for. intros v _. apply keeps_for. intros r _. unfold validateRouteDestinationForValidLambdas.
  destruct (lambda_destinations snap r); [apply returns_report|]. apply keeps_for. intros d _. destruct (missing_lambda _ d); [apply returns_report|by apply keeps_ret].
Qed.
Lemma returns_computeClusters proxy snap m enforce : tls_marshals → Forall socket_ok (sn_upstreams snap) →
  returns (computeClusters settings proxy snap m enforce) (Forall2 cluster_for (sn_upstreams snap)).
Proof.
  intros Htls Hs. unfold computeClusters. eapply keeps_bind; [apply returns_lambdas|]. intros _ _.
  apply (keeps_fold_split _ (Forall2 cluster_for)); [constructor|]. intros pre u post clusters E Hc. eapply keeps_bind.
  - apply returns_computeCluster; [done|]. rewrite E in Hs. by apply Forall_app in Hs as [_ [? _]%Forall_cons].
  - intros c [Hn Hok]. apply keeps_ret. apply Forall2_app; [done|]. by repeat constructor.
Qed.
Lemma loadAssignment_ok u eps mtls : ∃ la, loadAssignmentForUpstream u eps mtls = Ok la ∧ Cds.la_clusterName la = upstream_cluster u.
Proof.
  unfold loadAssignmentForUpstream.
  assert (∃ es, foldr (λ addr rest, res_bind (lb_endpoint u mtls addr) (λ e, res_bind rest (λ es, Ok (e :: es)))) (Ok []) eps = Ok es) as (es & ->); [|by eexists].
  induction eps as [|ep eps [es IH]]; [by exists []|]. cbn. destruct (lb_endpoint_fields u mtls ep) as (e & -> & _). rewrite IH. by eexists.
Qed.
Lemma returns_computeClusterEndpoints snap m : returns (computeClusterEndpoints settings snap m)
  (λ las, ∀ la, la ∈ las → ∃ u, u ∈ sn_upstreams snap ∧ upstream_cluster u = Cds.la_clusterName la).
Proof.
  apply (keeps_fold _ (λ las, ∀ la, la ∈ las → ∃ u, u ∈ sn_upstreams snap ∧ upstream_cluster u = Cds.la_clusterName la)); [by intros la ?%elem_of_nil|].
  intros i u las Hu%list_elem_of_lookup_2 Hlas. destruct (default [] _) as [|ep eps]; [by apply keeps_ret|]. destruct (loadAssignment_ok u (ep :: eps) (se_enableAutoMtls settings)) as (la & Ela & Hn).
  eapply keeps_bind; [by apply (keeps_res _ _ la (λ l, l = la))|]. intros ? ->. eapply keeps_bind; [apply returns_run_endpoint_plugins|]. intros la' Hla'.
  apply keeps_ret. intros l [?|E%list_elem_of_singleton]%elem_of_app; [auto|]. subst l. exists u. split; [done|congruence].
Qed.
(** The service name of the cluster of an upstream, whose hash covers the defaults. *)
Definition upstream_service (u : Upstream) : string :=
  match getEndpointClusterName (upstream_cluster u) (with_ssl_defaults settings u) with inl _ => "" | inr n => n end.
(** Upstreams have distinct clusters, none of which is named as the endpoints of another. *)
Definition upstreams_apart (ups : list Upstream) : Prop :=
  NoDup (map upstream_cluster ups) ∧ ∀ u u', u ∈ ups → u' ∈ ups → upstream_cluster u ≠ upstream_service u'.
Lemma cluster_for_names ups l : Forall2 cluster_for ups l → map cluster_name l = map upstream_cluster ups ∧ Forall (λ p, eds_ok p.1) l ∧
  (upstreams_apart ups → names_apart l).
Proof.
  intros Hc. assert (map cluster_name l = map upstream_cluster ups) as En by (clear -Hc; induction Hc as [|u p us ps (Hn & _) _ IH]; cbn; congruence). split_and!; [done| |].
  - clear En. induction Hc as [|u p us ps (_ & Hok & _) _ IH]; by constructor.
  - intros [Hnd Hap]. split; [by rewrite En|]. intros p q (i & Hi)%list_elem_of_lookup (j & Hj)%list_elem_of_lookup.
    destruct (Forall2_lookup_r _ _ _ _ _ Hc Hi) as (u & Hu & Hup & _). destruct (Forall2_lookup_r _ _ _ _ _ Hc Hj) as (u' & Hu' & Hu'q & _ & Eq).
    rewrite Hup. unfold service_name. rewrite Hu'q, Eq. apply Hap; by eapply list_elem_of_lookup_2.
Qed.

(** What the translation leaves of the snapshot: upstreams have the TLS defaults, and groups
    their own namespace; the rest is as it was. *)
Definition snapshot_of (snap snap' : ApiSnapshot) : Prop :=
  snap' = with_upstreams (map (with_ssl_defaults settings) (sn_upstreams snap)) (with_upstreamGroups (map with_parent_namespace (sn_upstreamGroups snap)) snap).
Lemma returns_verifyUpstreamGroups snap : returns (verifyUpstreamGroups snap) (λ s, s = with_upstreamGroups (map with_parent_namespace (sn_upstreamGroups snap)) snap).
Proof.
  unfold verifyUpstreamGroups. eapply keeps_bind; [apply keeps_for; intros g _; apply keeps_fold; [done|]; intros; apply returns_add_opt|]. intros _ _. by apply keeps_ret.
Qed.
Lemma returns_translateClusterSubsystem env proxy snap : tls_marshals → Forall socket_ok (sn_upstreams snap) → upstreams_apart (sn_upstreams snap) →
  returns (translateClusterSubsystemComponents settings env proxy snap)
    (λ '(clusters, endpoints, snap'), map Cds.cl_name clusters = map upstream_cluster (sn_upstreams snap) ∧ eds_closed clusters endpoints ∧ snapshot_of snap snap').
Proof.
  intros Htls Hs Hap. unfold translateClusterSubsystemComponents. eapply keeps_bind; [apply returns_verifyUpstreamGroups|]. intros snap1 ->. cbv zeta.
  set (snap1 := with_upstreamGroups _ snap). change (sn_upstreams snap) with (sn_upstreams snap1) in *.
  eapply keeps_bind; [instantiate (1 := λ _, True); unfold shouldEnforceNamespaceMatch; case_bool_decide; [by apply keeps_ret|apply returns_or_report]|]. intros enforce _.
  eapply keeps_bind; [by apply returns_computeClusters|]. intros clusters Hc. destruct (cluster_for_names _ _ Hc) as (En & Hok & Hnames).
  eapply keeps_bind; [apply returns_computeClusterEndpoints|]. intros endpoints Hep.
  assert (map snd clusters = map (with_ssl_defaults settings) (sn_upstreams snap1)) as Esnd by (clear -Hc; induction Hc as [|u p us ps (_ & _ & Hu) _ IH]; cbn; congruence).
  eapply keeps_bind; [by apply returns_assign_all; [|apply Hnames]|]. intros a Ha. apply keeps_ret.
  destruct (assigned_inv_closed endpoints clusters a) as [Hclosed Enames]; [|by rewrite En; apply Hap|done|].
  - intros la Hla. destruct (Hep la Hla) as (u & Hu & <-). cbn [sn_upstreams with_upstreams] in Hu. rewrite Esnd in Hu. apply list_elem_of_fmap in Hu as (u' & -> & Hu').
    change (upstream_cluster (with_ssl_defaults settings u')) with (upstream_cluster u').
    apply (list_elem_of_fmap_2 upstream_cluster) in Hu'. change (upstream_cluster <$> sn_upstreams snap1) with (map upstream_cluster (sn_upstreams snap1)) in Hu'.
    rewrite <-En in Hu'. apply list_elem_of_fmap in Hu' as (p & E & Hp). by exists p.
  - split_and!; [congruence|done|]. unfold snapshot_of. by rewrite Esnd.
Qed.
End Facts.

(** C3. The cluster subsystem, for upstreams with distinct cluster names, TLS contexts that
    can be marshalled and versions of the proxy protocol that do not break the message: it
    returns, with one cluster per upstream in order; every cluster that uses EDS has a load
    assignment under the name it asks for; every load assignment has the name that one of
    the clusters looks for. *)
Theorem translateClusterSubsystemComponents_correct `{Errors, !SoloReports, !ClusterLibs, SslLibs, RouteLibs, Strconv} {PS : Type} `{!ClusterPlugins PS, !ClusterPluginsLaws PS, !GoRange string}
    (settings : Settings) (env : string) (proxy : Proxy) (snap : ApiSnapshot) (s : ResourceReports * PS) :
  tls_marshals → Forall socket_ok (sn_upstreams snap) → upstreams_apart settings (sn_upstreams snap) →
  wp (translateClusterSubsystemComponents settings env proxy snap)
    (λ '(clusters, endpoints, _) _, map Cds.cl_name clusters = map upstream_cluster (sn_upstreams snap) ∧ eds_closed clusters endpoints) s.
Proof.
  intros Htls Hs Hap. eapply wp_mono; [by apply (returns_translateClusterSubsystem settings env proxy snap Htls Hs Hap)|].
  intros [[clusters endpoints] snap'] s' [_ (? & ? & _)]. done.
Qed.
