(* ===== verification/EnvoyTranslatorFacts.v ===== *)
(** * Facts about the translation of a Proxy to an Envoy snapshot

    The report made for a Proxy has the parts its translation writes to; the translation of a
    Proxy returns, and the snapshot it generates refers only to what is in it. *)

From stdpp Require Import base gmap strings list fin_maps pretty sorting.
From Stdlib Require Import ZArith Ascii.
From S2P Require Import Prelude GoLib GwApi EdgeApi ProxyReports ResourceReports Xds Sanitizers GlooProxy EnvoyRoutes EnvoyDomainsFacts EnvoyRoutesFacts Ssl EnvoyFilters EnvoySsl EnvoyListeners EnvoySslFacts EnvoyListenersFacts EnvoyRdsFacts EnvoyClusters EnvoyTranslator EnvoyEdsFacts.
Import Validation Gloo EnvoyTranslator.

(** ** The report of a Proxy *)
Lemma index_by_unique {A V} (key : A → string) (value : A → V) l x : NoDup (map key l) → x ∈ l → index_by key value l !! key x = Some (value x).
Proof.
  unfold index_by. induction l as [|y l IH] using rev_ind; intros Hnd Hx; [by apply elem_of_nil in Hx|]. rewrite foldl_app. cbn.
  rewrite map_app, NoDup_app in Hnd. destruct Hnd as (Hnd & Hdis & _). apply elem_of_app in Hx as [Hx| ->%list_elem_of_singleton]; [|by rewrite lookup_insert_eq].
  rewrite lookup_insert_ne; [by apply IH|]. intros E. apply (Hdis (key x)); [by apply list_elem_of_fmap_2|]. rewrite <-E. by left.
Qed.
(** A virtual host that does not exist has a report without routes, as an empty one has. *)
Lemma makeVhostReports_default vhosts : vhost_counts (httpListenerReport vhosts) = route_counts (map (default zero_virtualHost) vhosts).
Proof.
  unfold vhost_counts, route_counts, httpListenerReport, makeVhostReports. cbn. rewrite !map_map. apply map_ext. intros [v|]; [|done]. cbn. by rewrite length_map.
Qed.
Lemma makeVhostReports_counts vhs : vhost_counts (httpListenerReport (map Some vhs)) = route_counts vhs.
Proof. rewrite makeVhostReports_default, map_map. by rewrite map_id. Qed.

Section Report.
Context `{ListenerLibs} {PS : Type} `{!ListenerPlugins PS}.

(** What the translation needs of a listener: a stage on every custom filter, names that tell its parts apart, and TCP plugins whose errors can be
    reported (see [tcp_plugins_ok]). *)
Definition tcp_part_ok (parent : Listener) (l : TcpListener) : Prop := Forall staged (tl_customNetworkFilters l) ∧ tcp_plugins_ok parent l.
Definition matched_ok (parent : Listener) (ml : MatchedListener) : Prop :=
  match ml_type ml with
  | Some (MatchedListener_HttpListener l) => custom_staged_http l
  | Some (MatchedListener_TcpListener l) => tcp_part_ok parent l
  | None => True
  end.
Definition chain_ok (fc : HttpFilterChain) : Prop := Forall staged (fc_customHttpFilters fc) ∧ Forall staged (fc_customNetworkFilters fc).
Definition listener_ok (listener : Listener) : Prop :=
  match li_type listener with
  | Some (Listener_HttpListener l) => custom_staged_http l
  | Some (Listener_TcpListener l) => tcp_part_ok listener l
  | Some (Listener_HybridListener mls) => NoDup (map (λ ml, EnvoyListeners.MatchedRouteConfigName listener (ml_matcher ml)) mls) ∧ Forall (matched_ok listener) mls
  | Some (Listener_AggregateListener a) =>
      NoDup (map (λ fc, EnvoyListeners.MatchedRouteConfigName listener (fc_matcher fc)) (al_httpFilterChains a)) ∧ Forall chain_ok (al_httpFilterChains a) ∧
      NoDup (map (λ t, EnvoyListeners.MatchedRouteConfigName listener (mtl_matcher t)) (al_tcpListeners a)) ∧
      Forall (λ t, ∀ l, mtl_listener t = Some l → tcp_part_ok listener l) (al_tcpListeners a)
  | None => False
  end.

Definition of_type (ty : option ListenerTypeReport) (r : ListenerReport) : Prop := lr_type r = ty.

Lemma hybrid_ready proxy listener mls r ml : li_type listener = Some (Listener_HybridListener mls) → of_type (listenerTypeReport listener) r → listener_ok listener → ml ∈ mls →
  let t := matched_translators proxy listener ml in
  (∀ x, x ∈ t.2 → route_ready r x ∧ custom_staged_http (h_listener (rt_translator x))) ∧ (∀ x, FilterChains_Tcp x ∈ t.1 → tcp_ready r x).
Proof.
  unfold of_type, listenerTypeReport, listener_ok. intros Hty. rewrite Hty. intros Hr [Hnd Hst] Hml. rewrite Forall_forall in Hst. specialize (Hst ml Hml).
  pose proof (index_by_unique _ matchedListenerReport _ _ Hnd Hml) as Hlook. unfold matched_translators, matched_ok, matchedListenerReport in *.
  destruct (ml_type ml) as [[l|l]|] eqn:Hmt; cbn; [split|split|split; by intros x Hx%elem_of_nil].
  - intros x ->%list_elem_of_singleton. split; [|done]. unfold route_ready. cbn. unfold http_counts, GetHttpReport. rewrite Hr. cbn. rewrite Hlook. cbn. f_equal. apply makeVhostReports_counts.
  - by intros x Hx%list_elem_of_singleton.
  - by intros x Hx%elem_of_nil.
  - intros x [= ->]%list_elem_of_singleton. destruct Hst as [Hst Hp]. split_and!; [|done|done]. cbn. unfold tcp_count, GetTcpReport. rewrite Hr. cbn. rewrite Hlook. cbn. by rewrite length_map.
Qed.
Lemma chain_ready proxy listener a r fc : li_type listener = Some (Listener_AggregateListener a) → of_type (listenerTypeReport listener) r → listener_ok listener →
  fc ∈ al_httpFilterChains a → ∀ x, x ∈ (chain_translators proxy listener a fc).2 → route_ready r x ∧ custom_staged_http (h_listener (rt_translator x)).
Proof.
  unfold of_type, listenerTypeReport, listener_ok. intros Hty. rewrite Hty. intros Hr (Hnd & Hch & _ & _) Hfc x ->%list_elem_of_singleton.
  rewrite Forall_forall in Hch. destruct (Hch fc Hfc) as [Hs1 Hs2].
  pose proof (index_by_unique _ (λ fc, httpListenerReport (chain_virtualHosts a fc)) _ _ Hnd Hfc) as Hlook. cbn beta in Hlook.
  split; [|done]. unfold route_ready. cbn. unfold http_counts, GetHttpReport. rewrite Hr. cbn. rewrite Hlook. cbn. f_equal. apply makeVhostReports_default.
Qed.
Lemma aggregate_tcp_ready listener a r t : li_type listener = Some (Listener_AggregateListener a) → of_type (listenerTypeReport listener) r → listener_ok listener → t ∈ al_tcpListeners a → ∀ x, FilterChains_Tcp x ∈ (aggregate_tcp_translators listener t).1 → tcp_ready r x.
Proof.
  unfold of_type, listenerTypeReport, listener_ok. intros Hty. rewrite Hty. intros Hr (_ & _ & Hnd & Hst) Ht x. rewrite Forall_forall in Hst. specialize (Hst t Ht).
  pose proof (index_by_unique _ (λ t, tcpListenerReport (from_option tl_tcpHosts [] (mtl_listener t))) _ _ Hnd Ht) as Hlook. cbn beta in Hlook.
  unfold aggregate_tcp_translators. destruct (mtl_listener t) as [l|] eqn:El; [|by intros Hx%elem_of_nil]. intros [= ->]%list_elem_of_singleton.
  destruct (Hst l eq_refl) as [Hs Hp]. split_and!; [|done|done]. cbn. unfold tcp_count, GetTcpReport. rewrite Hr. cbn. rewrite Hlook. cbn. by rewrite length_map.
Qed.

Lemma translators_from_report proxy listener r : of_type (listenerTypeReport listener) r → listener_ok listener →
  ∃ chains routes, GetTranslators proxy listener r = Translators_of chains routes ∧ translators_ready r chains routes.
Proof.
  intros Hr Hl. unfold GetTranslators. destruct (li_type listener) as [[l|l|mls|a]|] eqn:Hty; [| | | |unfold listener_ok in Hl; by rewrite Hty in Hl].
  - eexists _, _. split; [reflexivity|]. unfold of_type, listenerTypeReport, listener_ok in *. rewrite Hty in Hr, Hl. split.
    + intros x ->%list_elem_of_singleton. split; [|done]. unfold route_ready. cbn. unfold http_counts, GetHttpReport. rewrite Hr. cbn. f_equal. apply makeVhostReports_counts.
    + by intros x Hx%list_elem_of_singleton.
  - eexists _, _. split; [reflexivity|]. unfold of_type, listenerTypeReport, listener_ok in *. rewrite Hty in Hr, Hl. split; [by intros x Hx%elem_of_nil|].
    destruct Hl as [Hs Hp]. intros x [= ->]%list_elem_of_singleton. split_and!; [|done|done]. cbn. unfold tcp_count, GetTcpReport. rewrite Hr. cbn. by rewrite length_map.
  - unfold GetHybridListenerTranslators. pose proof Hr as Hr'. unfold of_type, listenerTypeReport in Hr'. rewrite Hty in Hr'. rewrite Hr'.
    eexists _, _. split; [reflexivity|]. split.
    + intros x (p & (ml & -> & Hml)%list_elem_of_fmap & Hx)%elem_of_flat_map. by apply (hybrid_ready proxy listener mls r ml).
    + intros x (p & (ml & -> & Hml)%list_elem_of_fmap & Hx)%elem_of_flat_map. by apply (hybrid_ready proxy listener mls r ml).
  - unfold GetAggregateListenerTranslators. pose proof Hr as Hr'. unfold of_type, listenerTypeReport in Hr'. rewrite Hty in Hr'. rewrite Hr'.
    eexists _, _. split; [reflexivity|]. split.
    + intros x (p & [(fc & -> & Hfc)%list_elem_of_fmap|(t & -> & Ht)%list_elem_of_fmap]%elem_of_app & Hx)%elem_of_flat_map; [by eapply chain_ready|].
      unfold aggregate_tcp_translators in Hx. destruct (mtl_listener t); by apply elem_of_nil in Hx.
    + intros x (p & [(fc & -> & Hfc)%list_elem_of_fmap|(t & -> & Ht)%list_elem_of_fmap]%elem_of_app & Hx)%elem_of_flat_map; [by apply list_elem_of_singleton in Hx|].
      by eapply aggregate_tcp_ready.
Qed.
End Report.

(** ** Listeners *)
Section Listeners.
Context `{SslLibs, SslHash, AnyLibs, SortFilters, SliceGrowth, ListenerLibs, RouteLibs} {PS : Type}.
Context `{!FilterPlugins PS, !ListenerPlugins PS, !RouteConfigPlugins PS, !RoutePluginsLaws PS, !GoRange string, !GoRange Z} (settings : Settings).

Definition listener_plugin_laws : Prop := hcm_plugins_keep ∧ network_plugins_opaque ∧ listener_plugins_ok.
Lemma of_type_ports proxy (ty : option ListenerTypeReport) : keeps (λ s : ListenerReport * PS, of_type ty s.1) (validateListenerPorts proxy) (λ _, True).
Proof. apply keeps_for. intros [port ls] _. case_match; [by apply keeps_ret|]. intros [r ps] Hr. by split. Qed.
Lemma translate_listener_ok snap proxy listener r ps : listener_plugin_laws → listener_ok listener → of_type (listenerTypeReport listener) r →
  wp (translate_listener settings snap proxy listener) (λ res _, ∃ l, res.2 = Some l ∧ routes_closed settings l res.1) (r, ps).
Proof.
  intros (Hk & Ho & Hlp) Hl Hr. unfold translate_listener. apply wp_bind. eapply wp_mono; [by apply (of_type_ports proxy (listenerTypeReport listener))|].
  intros _ [r' ps'] [Hr' _]. cbn in Hr'. apply wp_bind, wp_gets. cbn [fst].
  destruct (translators_from_report proxy listener r' Hr' Hl) as (chains & routes & Hg & Hready). rewrite Hg.
  eapply wp_mono; [by eapply (steady_translators settings snap proxy listener r')|]. by intros res s [_ ?].
Qed.
Lemma routes_closed_mono l cs cs' : routes_closed settings l cs → cs ⊆ cs' → routes_closed settings l cs'.
Proof. intros Hc Hs n Hn. destruct (Hc n Hn) as (c & Hin & ?). exists c. split; [by apply Hs|done]. Qed.

Definition listeners_closed (acc : list Envoy.RouteConfiguration * list EnvoyListener) : Prop := ∀ l, l ∈ acc.2 → routes_closed settings l acc.1.
(** The reports from position [n] on are as they were made. *)
Definition reports_from proxy (n : nat) (r : ProxyReport) : Prop :=
  length (pr_listenerReports r) = length (px_listeners proxy) ∧ ∀ j, n ≤ j → pr_listenerReports r !! j = pr_listenerReports (MakeReport proxy) !! j.
Lemma on_listener_ok snap proxy i listener r ps : listener_plugin_laws → listener_ok listener → px_listeners proxy !! i = Some listener → reports_from proxy i r →
  wp (on_listener i (translate_listener settings snap proxy listener))
    (λ res s, (∃ l, res.2 = Some l ∧ routes_closed settings l res.1) ∧ reports_from proxy (i + 1) s.1) (r, ps).
Proof.
  intros Hlaws Hl Hi [Hlen Hr]. set (lr := {| lr_errors := []; lr_warnings := []; lr_type := listenerTypeReport listener |}).
  assert (pr_listenerReports r !! i = Some lr) as Hlr by (rewrite Hr by done; unfold MakeReport; cbn; by rewrite list_lookup_fmap, Hi).
  pose proof (translate_listener_ok snap proxy listener lr ps Hlaws Hl eq_refl) as Hw. unfold wp, on_listener in *. rewrite Hlr.
  destruct (translate_listener settings snap proxy listener (lr, ps)) as [[res [lr' ps']]| |]; [|done..].
  assert (∃ ty, lr_type lr = Some ty) as [ty ->] by (unfold listener_ok in Hl; cbn; unfold listenerTypeReport; destruct (li_type listener) as [[]|]; by eauto).
  split; [done|]. split; cbn; [by rewrite length_insert|]. intros j Hj. rewrite list_lookup_insert_ne by lia. apply Hr. lia.
Qed.
Lemma translateListenerSubsystem_ok snap proxy ps : listener_plugin_laws → Forall listener_ok (px_listeners proxy) →
  wp (translateListenerSubsystemComponents settings snap proxy)
    (λ acc s, listeners_closed acc ∧ length acc.2 = length (px_listeners proxy) ∧ length (pr_listenerReports s.1) = length (px_listeners proxy)) (MakeReport proxy, ps).
Proof.
  intros Hlaws Hok. unfold translateListenerSubsystemComponents. eapply wp_mono; [apply (wp_fold_range_split (λ pre acc s,
    listeners_closed acc ∧ length acc.2 = length pre ∧ reports_from proxy (length pre) s.1))|].
  - split_and!; [by intros l Hl%elem_of_nil|done|]. split; [unfold MakeReport; cbn; by rewrite length_map|done].
  - intros pre listener post acc [r ps'] E (Hc & Hlen & Hr). apply wp_bind. eapply wp_mono; [apply (on_listener_ok snap proxy (length pre) listener)|].
    + done.
    + rewrite E in Hok. by apply Forall_app in Hok as [_ [? _]%Forall_cons].
    + rewrite E. by apply list_lookup_middle.
    + done.
    + intros [cs ol] [r' ps''] [(l & E2 & Hl) Hr']. cbn [fst snd] in *. subst ol. apply wp_ret. cbn [fst snd]. split_and!.
      * intros l' [Hin| ->%list_elem_of_singleton]%elem_of_app; cbn [fst]; [eapply routes_closed_mono; [by apply Hc|]|eapply routes_closed_mono; [done|]];
          intros c Hin'; apply elem_of_app; [by left|by right].
      * rewrite !length_app. cbn. lia.
      * by rewrite length_app.
  - intros acc [r ps'] (Hc & Hlen & Hr & _). by split_and!.
Qed.
End Listeners.

(** ** The snapshot *)
Section Translate.
Context `{Errors, !SoloReports, !SoloReportsLaws, !ClusterLibs, SslLibs, SslHash, AnyLibs, SortFilters, SliceGrowth, ListenerLibs, RouteLibs, Marshal, Strconv}.
Context {PS : Type} `{!ClusterPlugins PS, !ClusterPluginsLaws PS, !TranslatorPlugins PS, !FilterPlugins PS, !ListenerPlugins PS, !RouteConfigPlugins PS}.
Context `{!RoutePluginsLaws PS, !GoRange string, !GoRange Z} (settings : Settings) (hasher : list Resource → option N) (env : string).

(** References between what is generated are closed. *)
Definition generated_closed (g : Generated) : Prop := eds_closed (gn_clusters g) (gn_endpoints g) ∧ listeners_closed settings (gn_routeConfigs g, gn_listeners g).
(** Plugins that edit and add resources keep them so. *)
Definition generators_keep : Prop := ∀ p, p ∈ GetResourceGeneratorPlugins → ∀ snap g ps g' new err ps',
  p snap g ps = (g', new, err, ps') → generated_closed g → generated_closed (append_generated g' new).

(** What Envoy is served: clusters that use EDS find their endpoints, and listeners, none of
    which is empty, their route configurations. *)
Definition snapshot_closed (s : EnvoySnapshot) : Prop :=
  (∀ c, Resource_Cluster c ∈ rs_items (es_clusters s) → Cds.GetType c = Cds.EDS → ∃ e la,
     Cds.cl_edsClusterConfig c = Some e ∧ Resource_Endpoints la ∈ rs_items (es_endpoints s) ∧ Cds.la_clusterName la = Cds.ed_serviceName e) ∧
  (∀ l, Resource_Listener l ∈ rs_items (es_listeners s) → ln_filterChains l ≠ [] ∧
     (se_translateEmptyGateways settings = false → ∀ n, n ∈ listener_rds l → ∃ c, Resource_Routes c ∈ rs_items (es_routes s) ∧ Envoy.ec_name c = n)).

Lemma served_endpoints g : rs_items (es_endpoints (generateXDSSnapshot hasher g)) = map Resource_Endpoints (gn_endpoints g).
Proof. unfold generateXDSSnapshot. cbn. repeat case_match; done. Qed.
Lemma served_listeners g : rs_items (es_listeners (generateXDSSnapshot hasher g)) =
  map Resource_Listener (List.filter (λ l, negb (length (ln_filterChains l) <? 1)) (gn_listeners g)).
Proof. unfold generateXDSSnapshot. cbn. by case_match. Qed.
Lemma served_routes g : rs_items (es_routes (generateXDSSnapshot hasher g)) =
  map Resource_Routes (List.filter (λ r, negb (length (Envoy.ec_virtualHosts r) <? 1)) (gn_routeConfigs g)).
Proof. cbn. unfold MakeRdsResources. by case_match. Qed.
Lemma nonempty_length {A : Type} (l : list A) : negb (length l <? 1) = true ↔ l ≠ [].
Proof. by destruct l. Qed.
Lemma generated_snapshot_closed g : generated_closed g → snapshot_closed (generateXDSSnapshot hasher g).
Proof.
  intros [[Heds _] Hl]. split.
  - intros c Hc Ht. assert (c ∈ gn_clusters g) as Hin.
    { cbn in Hc. destruct (hasher (map Resource_Cluster (gn_clusters g))); cbn in Hc; apply list_elem_of_fmap in Hc as (x & E & Hx); [by injection E as ->|done]. }
    destruct (Heds c Hin Ht) as (e & He & (la & Hn & Hla)%list_elem_of_fmap). exists e, la. rewrite served_endpoints. split_and!; [done| |done]. by apply list_elem_of_fmap_2.
  - intros l Hin. rewrite served_listeners in Hin. apply list_elem_of_fmap in Hin as (l' & [= <-] & [Hin Hne%nonempty_length]%elem_of_filter_bool). split; [done|].
    intros Ht n Hn. destruct (Hl l Hin n Hn) as (c & Hc & Hcn & Hv). exists c. split; [|done]. rewrite served_routes. apply list_elem_of_fmap_2, elem_of_filter_bool.
    split; [done|]. by apply nonempty_length, Hv.
Qed.

Lemma returns_run_generators snap proxy g : generators_keep → generated_closed g →
  keeps (λ _ : ResourceReports * PS, True) (run_generators snap proxy g) generated_closed.
Proof.
  intros Hk Hg. apply (keeps_fold _ generated_closed); [done|]. intros i p g' Hp%list_elem_of_lookup_2 Hg'.
  eapply keeps_bind; [apply (returns_plugins _ (λ r, generated_closed (append_generated r.1.1 r.1.2)))|].
  - intros ps [[g'' new] err] ps' E. cbn. by eapply Hk.
  - intros [[g'' new] err] Hc. eapply keeps_bind; [apply returns_add_opt|]. intros _ _. by apply keeps_ret.
Qed.
Lemma report_proxy_ok proxy pr r ps : wp (report_proxy (PS := PS) proxy pr)
  (λ _ s, ∀ e, GetProxyError pr = Some e → e ∈ errors_of (report_of (proxy_key proxy) s.1)) (r, ps).
Proof.
  unfold report_proxy. apply wp_bind. destruct (GetProxyError pr) as [e|]; cbn [add_opt].
  - unfold AddError, update_report. apply wp_modify.
    eapply wp_mono; [apply (wp_for_range (λ s, e ∈ errors_of (report_of (proxy_key proxy) s.1)))|].
    + cbn. rewrite report_of_AddErrors, decide_True by done. rewrite errors_of_append. apply elem_of_app. right. by left.
    + intros w [r' ps'] _ Hin. unfold AddWarning, update_report. apply wp_modify. cbn in *. rewrite report_of_AddWarnings, decide_True by done. done.
    + by intros a s Hin ? [= <-].
  - apply wp_ret. eapply wp_mono; [apply (wp_for_range (λ _, True)); [done|]|by intros]. by intros w [r' ps'] _ _.
Qed.

(** C2. The whole translation of a Proxy. When its listeners have types, stages on custom
    filters, parts that can be told apart and errors of TCP chains that can be reported
    (virtual hosts need not exist: see [zero_virtualHost]); upstreams have
    distinct clusters, TLS contexts that can be marshalled, known one-letter versions of the
    proxy protocol; and plugins keep their promises: it returns, with a report per listener;
    clusters that use EDS find their load assignments in the snapshot, its listeners are not
    empty and, unless empty gateways are translated, find their route configurations in it;
    and an error in the report of the Proxy is an error of the Proxy. *)
Theorem Translate_snapshot_closed snap proxy (ps : PS) :
  Forall listener_ok (px_listeners proxy) → Forall socket_ok (sn_upstreams snap) → upstreams_apart settings (sn_upstreams snap) → tls_marshals →
  listener_plugin_laws → generators_keep →
  wp (Translate settings hasher env snap proxy) (λ '(snapshot, reports, proxyReport) _,
    snapshot_closed snapshot ∧ length (pr_listenerReports proxyReport) = length (px_listeners proxy) ∧
    ∀ e, GetProxyError proxyReport = Some e → e ∈ errors_of (report_of (proxy_key proxy) reports)) ps.
Proof.
  intros Hl Hs Hap Htls Hlaws Hgen. unfold wp, Translate. cbv beta zeta. set (ps1 := fold_left (λ ps init, init settings ps) InitPlugins ps).
  destruct (wp_run _ _ _ (returns_translateClusterSubsystem settings env proxy snap Htls Hs Hap (∅, ps1) I)) as ([[clusters endpoints] snap'] & [reports ps2] & E1 & _ & _ & Heds & _).
  rewrite E1. cbn [res_bind].
  destruct (wp_run _ _ _ (translateListenerSubsystem_ok settings snap' proxy ps2 Hlaws Hl)) as ([routeConfigs listeners] & [pr ps3] & E2 & Hc & _ & Hlen).
  rewrite E2. cbn [res_bind]. set (g := {| gn_clusters := clusters; gn_endpoints := endpoints; gn_routeConfigs := routeConfigs; gn_listeners := listeners |}).
  assert (wp (g' <~ run_generators snap' proxy g ;; do! report_proxy proxy pr ;; ret g')
    (λ g' s, generated_closed g' ∧ ∀ e, GetProxyError pr = Some e → e ∈ errors_of (report_of (proxy_key proxy) s.1)) (reports, ps3)) as Hw.
  { apply wp_bind. eapply wp_mono; [by apply (returns_run_generators snap' proxy g Hgen)|]. intros g' [r ps'] [_ Hg']. apply wp_bind.
    eapply wp_mono; [apply report_proxy_ok|]. intros a s He. by apply wp_ret. }
  apply wp_run in Hw as (g' & [r ps4] & E3 & Hg' & He). rewrite E3. cbn [res_bind]. split_and!; [by apply generated_snapshot_closed|done|done].
Qed.
End Translate.
