(* ===== verification/EnvoyExamples.v ===== *)
(** * Examples of Envoy listeners and snapshots

    A listener with its route configurations, on concrete plugins; and what goes wrong:
    TCP chains that share their filters, errors of TCP hosts that cannot be reported, a
    warning that takes every chain away, a custom filter without a stage. Then the
    translation of a Proxy, from upstreams and endpoints to the snapshot, and what goes
    wrong there: a version of the proxy protocol that panics, upstreams that share a cluster
    name, a listener whose empty routes are not served, a virtual host that does not exist. *)

From stdpp Require Import base gmap strings list fin_maps pretty sorting.
From Stdlib Require Import ZArith Ascii.
From S2P Require Import Prelude GoLib GwApi EdgeApi ProxyReports ResourceReports Xds Sanitizers GlooProxy EnvoyRoutes EnvoyRoutesFacts Ssl SslFacts EnvoyFilters EnvoySsl EnvoyListeners EnvoyTcp EnvoySslFacts EnvoyListenersFacts EnvoyRdsFacts EnvoyClusters EnvoyTranslator EnvoyClustersFacts EnvoyEdsFacts EnvoyTranslatorFacts.
Import Validation Gloo.

#[local] Existing Instances list_order ex_libs ex_plugins ex_laws ex_ssl insertion_sort.
#[local] Instance ex_hash : SslHash := λ c, N.of_nat (length (ss_alpnProtocols c)).
#[local] Instance ex_any : AnyLibs :=
  {| router_to_any _ := inr {| tc_typeUrl := "Router"; tc_value := "" |}; upstream_codec := inr {| tc_typeUrl := "UpstreamCodec"; tc_value := "" |};
     hcm_error _ := None; tcp_error _ := None; sni_error := None |}.
#[local] Instance ex_listener_libs : ListenerLibs := {| hash_matcher _ := 7%N; tls_error _ := None; FilterChainMatch_String _ := "" |}.
#[local] Instance ex_logging : AccessLogging := λ _, inr "".
(** What the compiler does today: capacities double. *)
Definition doubling (n : nat) : nat := if n =? 0 then 0 else 2 ^ Nat.log2_up n.
#[local] Instance ex_growth : SliceGrowth.
Proof.
  refine {| append_cap := doubling |}; [done|]. intros n. unfold doubling. destruct (Nat.eqb_spec n 0); [lia|]. apply Nat.log2_log2_up_spec. lia.
Defined.

(** ** Plugins: three network filters, two HTTP filters out of order, the TCP plugin *)
Definition typed (n : string) : Lds.Filter := {| Lds.fl_name := n; Lds.fl_config := Lds.Filter_TypedConfig None |}.
Definition ex_staged (n : string) (stage : Z) : StagedFilter (option Lds.Filter) := {| sf_filter := Some (typed n); sf_stage := DuringStage stage |}.
Definition ex_network_filters : list (StagedFilter (option Lds.Filter)) := [ex_staged "waf" WafStage; ex_staged "auth" AuthZStage; ex_staged "fault" FaultStage].
Definition ex_http_filter (n : string) (stage : Stage) : StagedFilter (option Lds.HttpFilter) :=
  {| sf_filter := Some {| Lds.hf_name := n; Lds.hf_config := None; Lds.hf_other := "" |}; sf_stage := stage |}.
#[local] Instance ex_filters : FilterPlugins nat :=
  {| GetNetworkFilterPlugins := [{| NetworkFiltersHTTP l n := (ex_network_filters, None, S n); NetworkFiltersTCP l n := (ex_network_filters, None, S n) |}];
     GetHttpFilterPlugins := [λ _ n, ([ex_http_filter "limit" (DuringStage RateLimitStage); ex_http_filter "cors" (BeforeStage CorsStage)], None, n)];
     GetUpstreamHttpFilterPlugins := []; GetHttpConnectionManagerPlugins := [] |}.
Definition ex_tls_snapshot : ApiSnapshot :=
  {| sn_upstreams := sn_upstreams ex_snapshot; sn_upstreamGroups := []; sn_endpoints := []; sn_authConfigs := []; sn_secrets := ex_secrets |}.
#[local] Instance ex_listener_plugins : ListenerPlugins nat := {| GetListenerPlugins := []; GetTcpFilterChainPlugins := [tcp_CreateTcpFilterChains ex_tls_snapshot] |}.

Lemma ex_hcm_plugins : hcm_plugins_keep.
Proof. intros p Hp. by apply elem_of_nil in Hp. Qed.
Lemma ex_network_plugins : network_plugins_opaque.
Proof.
  intros p ->%list_elem_of_singleton. assert (∀ s f, s ∈ ex_network_filters → sf_filter s = Some f → opaque f) as Hf.
  { intros s f Hs E. repeat (apply elem_of_cons in Hs as [->|Hs]; [injection E as <-; by eexists|]). by apply elem_of_nil in Hs. }
  split; intros l ps fs err ps' s f [= <- <- <-]; apply Hf.
Qed.
Lemma ex_no_listener_plugins : listener_plugins_ok.
Proof. intros p Hp. by apply elem_of_nil in Hp. Qed.

(** ** An HTTP listener *)
Definition ex_vhost : VirtualHost := ex_host (RouteAction_Single (ex_destination "u")).
Definition ex_custom : CustomEnvoyFilter := {| cf_stage := Some {| fs_stage := 3; fs_predicate := 2 |}; cf_name := "wasm"; cf_config := None |}.
Definition ex_http : HttpListener :=
  {| hl_virtualHosts := [ex_vhost]; hl_options := empty_options; hl_statPrefix := ""; hl_customHttpFilters := [ex_custom]; hl_customNetworkFilters := [] |}.
Definition ex_hcm : HcmNetworkFilterTranslator := {| ht_parentListener := ex_parent; ht_listener := ex_http; ht_routeConfigName := "l-routes" |}.
Definition ex_http_report : HttpListenerReport := {| hr_errors := []; hr_virtualHostReports := [{| vr_errors := []; vr_routeReports := [no_report] |}] |}.
Lemma ex_custom_staged : Forall staged (hl_customHttpFilters ex_http).
Proof. apply Forall_singleton. by eexists. Qed.

(** The HTTP filters of the connection manager, in order. *)
Definition hcm_filter_names (l : list Lds.Filter) : list string :=
  flat_map (λ f, match Lds.fl_config f with Lds.Filter_Hcm h => map (from_option Lds.hf_name "") (Lds.hcm_httpFilters h) | _ => [] end) l.
Lemma http_ComputeNetworkFilters_correct_witness : ∃ l s,
  http_ComputeNetworkFilters ex_settings ex_snapshot ref_string ex_hcm (Some ex_http_report, 0) = Ok (inr l, s) ∧
  map Lds.fl_name l = ["fault"; "waf"; "auth"; HTTPConnectionManagerName] ∧ hcm_filter_names l = ["cors"; "wasm"; "limit"; RouterName] ∧
  network_filters_ok ex_settings ex_hcm 0 (inr l).
Proof.
  destruct (wp_run _ _ _ (http_ComputeNetworkFilters_correct ex_settings ex_snapshot ref_string ex_hcm ex_http_report 0
    ex_hcm_plugins ex_network_plugins eq_refl ex_custom_staged (Forall_nil_2 _))) as (res & s & E & Hok).
  assert (∃ l, res = inr l ∧ map Lds.fl_name l = ["fault"; "waf"; "auth"; HTTPConnectionManagerName] ∧ hcm_filter_names l = ["cors"; "wasm"; "limit"; RouterName])
    as (l & -> & H1 & H2) by (vm_compute in E; injection E as <- <-; eexists; split_and!; reflexivity).
  exists l, s. split; [exact E|]. split; [exact H1|]. split; [exact H2|exact Hok].
Defined.

(** A custom filter without a stage. *)
Example custom_filter_without_stage_panics : ∀ s : option HttpListenerReport * nat,
  computePreHCMFilters {| hl_virtualHosts := []; hl_options := empty_options; hl_statPrefix := ""; hl_customHttpFilters := [];
    hl_customNetworkFilters := [{| cf_stage := None; cf_name := "wasm"; cf_config := None |}] |} s = Panic "nil pointer dereference".
Proof. by intros [r ps]. Qed.

Definition ex_http_parent : Listener :=
  {| li_name := "l"; li_bindAddress := "::"; li_bindPort := 8080; li_type := Some (Listener_HttpListener ex_http); li_sslConfigurations := [];
     li_maxDirectResponseBodySizeBytes := None; li_mostSpecificHeaderMutationsWins := None; li_other := "" |}.
Definition ex_report : ListenerReport := {| lr_errors := []; lr_warnings := []; lr_type := Some (ListenerReport_HttpListenerReport ex_http_report) |}.
Lemma listener_routes_generated_witness : ∃ chains routes l cs s,
  GetTranslators ex_proxy ex_http_parent ex_report = Translators_of chains routes ∧
  (cs <~ ComputeRouteConfiguration ex_settings ex_snapshot routes ;; l <~ ComputeListener ex_settings ex_snapshot ex_http_parent chains ;; ret (cs, Some l))
    (ex_report, 0) = Ok ((cs, Some l), s) ∧
  routes_closed ex_settings l cs ∧ listener_rds l = ["l-routes"] ∧ ln_ipv4Compat l = true.
Proof.
  destruct (GetTranslators ex_proxy ex_http_parent ex_report) as [| |chains routes] eqn:Eg; [discriminate Eg..|].
  assert (translators_ready ex_report chains routes) as Hr.
  { injection Eg as <- <-. split; intros t Ht; apply list_elem_of_singleton in Ht as E; [subst t|discriminate E].
    split; [split; reflexivity|]. split; [apply ex_custom_staged|constructor]. }
  destruct (wp_run _ _ _ (listener_routes_generated ex_settings ex_snapshot ex_proxy ex_http_parent ex_report chains routes 0
    ex_hcm_plugins ex_network_plugins ex_no_listener_plugins Eg Hr)) as ([cs ol] & s & E & l & Hl & Hc).
  cbn [fst snd] in *. subst ol. exists chains, routes, l, cs, s. split; [reflexivity|]. split; [exact E|]. split; [exact Hc|].
  injection Eg as <- <-. vm_compute in E. injection E as <- <- <-. split; reflexivity.
Defined.

(** ** TCP listeners *)
Definition ex_tcp_host (name : string) (ssl : option SslConfig) (upstream : string) : TcpHost :=
  {| th_name := name; th_sslConfig := ssl; th_destination := Some (TcpAction_Single (ex_destination upstream)) |}.
Definition ex_tls (secret sni : string) : SslConfig := with_sniDomains [sni] (ex_config (SslConfig_SecretRef {| nn_ns := "ns"; nn_name := secret |}) [] None).
Definition ex_tcp (hosts : list TcpHost) : TcpFilterChainTranslator :=
  {| tt_parentListener := ex_parent; tt_listener := {| tl_tcpHosts := hosts; tl_tcpProxySettings := None; tl_statPrefix := ""; tl_customNetworkFilters := [] |};
     tt_report := Key_Tcp; tt_defaultSslConfig := None; tt_prefixRanges := []; tt_sourcePrefixRanges := []; tt_passthroughCipherSuites := []; tt_destinationPort := 0 |}.
(** The clusters the TCP proxies of the chains send connections to, and the report. *)
Definition proxied (c : Chain.ExtendedFilterChain) : list string :=
  flat_map (λ f, match Lds.fl_config f with Lds.Filter_TcpProxy t => match Lds.tx_clusterSpecifier t with Lds.TcpProxy_Cluster n => [n] | _ => [] end | _ => [] end) (Chain.fc_filters (Chain.xf_chain c)).
Definition ex_tcp_report (n : nat) : TcpListenerReport := {| tlr_errors := []; tlr_tcpHostReports := replicate n {| tr_errors := []; tr_warnings := [] |} |}.
Definition run_tcp (hosts : list TcpHost) : res (list (list string * option (list string)) * option (list nat * nat)) :=
  match tcp_ComputeFilterChains (ex_tcp hosts) (Some (ex_tcp_report (length hosts)), 0) with
  | Ok (chains, (r, _)) => Ok (map (λ c, (proxied c, Chain.fm_serverNames <$> Chain.fc_match (Chain.xf_chain c))) chains,
      (λ r, (map (λ h, length (tr_warnings h)) (tlr_tcpHostReports r), length (tlr_errors r))) <$> r)
  | Panic why => Panic why
  | OutOfFuel => OutOfFuel
  end.

(** Two hosts told apart by their server names: with three network filters, in a slice with
    room for a fourth, both chains end up with the proxy of the second host. *)
Example tcp_chains_share_filters :
  run_tcp [ex_tcp_host "a" (Some (ex_tls "tls" "a.com")) "u"; ex_tcp_host "b" (Some (ex_tls "tls" "b.com")) "v"] =
  Ok ([(["v_ns"], Some ["a.com"]); (["v_ns"], Some ["b.com"])], Some ([0; 0], 0)).
Proof. vm_compute. reflexivity. Qed.
(** A host whose TLS secret does not exist: the error cannot be reported. *)
Example tcp_secret_error_panics :
  run_tcp [ex_tcp_host "a" (Some (ex_tls "none" "a.com")) "u"] = Panic "nil pointer dereference".
Proof. vm_compute. reflexivity. Qed.
(** A host whose upstream does not exist is a warning of that host, and takes the other host's
    chain with it. *)
Example tcp_warning_drops_all_chains :
  run_tcp [ex_tcp_host "a" (Some (ex_tls "tls" "a.com")) "u"] = Ok ([(["u_ns"], Some ["a.com"])], Some ([0], 0)) ∧
  run_tcp [ex_tcp_host "a" (Some (ex_tls "tls" "a.com")) "u"; ex_tcp_host "b" (Some (ex_tls "tls" "b.com")) "missing"] = Ok ([], Some ([0; 1], 0)).
Proof. split; vm_compute; reflexivity. Qed.

(** ** Snapshots *)
#[local] Existing Instances list_order EnvoyRoutesFacts.ex_libs EnvoyRoutesFacts.ex_plugins EnvoyRoutesFacts.ex_laws ex_ssl insertion_sort.
#[local] Existing Instances ex_hash ex_any ex_listener_libs ex_logging ex_growth ex_filters.
#[local] Existing Instance ex_listener_plugins.
#[local] Instance ex_clusters : ClusterLibs :=
  {| ref_Key r := nn_ns r +:+ "." +:+ nn_name r; NewStruct_ok _ := true; ToEnvoyHealthCheck hc _ _ _ := inr (hc_other hc); ToEnvoyOutlierDetection od := od_other od;
     Version_value v := if bool_decide (v = "V1") then Some 0%Z else if bool_decide (v = "V2") then Some 1%Z else None;
     upstream_tls_error _ := None; proxy_protocol_error _ _ := None; minimumDnsRefreshRate_String := "1ms";
     hash_upstream u := inr (N.of_nat (String.length (nn_name (up_ref u)))) |}.
(** A plugin that leaves the cluster as it is. *)
Definition ex_upstream_plugin (_ : ApiSnapshot) (u : Upstream) (c : Cds.Cluster) (n : nat) : option error * Cds.Cluster * nat := (None, c, S n).
#[local] Instance ex_cluster_plugins : ClusterPlugins nat := {| GetUpstreamPlugins := [ex_upstream_plugin]; GetEndpointPlugins := [] |}.
#[local] Instance ex_cluster_laws : ClusterPluginsLaws nat.
Proof.
  split; [|by intros p Hp%elem_of_nil]. intros p ->%list_elem_of_singleton snap u c ps err c' ps' [= <- <- <-]. done.
Qed.
#[local] Instance ex_translator_plugins : TranslatorPlugins nat := {| InitPlugins := [λ _ n, S n]; GetResourceGeneratorPlugins := [] |}.
#[local] Instance ex_marshal : Marshal := λ r, match r with
  | Resource_Endpoints e => Some [N.of_nat (length (Cds.la_endpoints e))]
  | Resource_Cluster c => Some [N.of_nat (String.length (Cds.cl_name c))]
  | Resource_Routes r => Some [N.of_nat (length (Envoy.ec_virtualHosts r))]
  | Resource_Listener l => Some [N.of_nat (length (ln_filterChains l))]
  end.
#[local] Instance ex_strconv : Strconv := λ s, String.String "034"%char s +:+ String.String "034"%char "".

(** ** Upstreams, endpoints and a Proxy *)
Definition ex_endpoint (upstream address : string) : Endpoint :=
  {| ep_upstreams := [EnvoyRoutesFacts.ex_ref upstream]; ep_address := address; ep_port := 8080; ep_hostname := ""; ep_healthCheckHostname := ""; ep_labels := Some {["app" := "web"]};
     ep_annotations := None |}.
Definition ex_group (upstreams : list string) : UpstreamGroup :=
  {| ug_ref := EnvoyRoutesFacts.ex_ref "group"; ug_destinations := map (λ u, {| wd_dest := Some {| de_type := Some (Destination_Upstream {| nn_ns := ""; nn_name := u |}); de_subset := None; de_aws := None |};
      wd_weight := Some 1%Z; wd_options := "" |}) upstreams |}.
Definition ex_world : ApiSnapshot :=
  {| sn_upstreams := [EnvoyRoutesFacts.ex_upstream "u"; EnvoyRoutesFacts.ex_upstream "v"]; sn_upstreamGroups := [ex_group ["u"]];
     sn_endpoints := [ex_endpoint "u" "10.0.0.1"; ex_endpoint "u" "10.0.0.2"; ex_endpoint "v" "10.0.0.3"]; sn_authConfigs := []; sn_secrets := ex_secrets |}.
Definition ex_whole_proxy : Proxy := {| px_ref := EnvoyRoutesFacts.ex_ref "proxy"; px_labels := ∅; px_listeners := [ex_http_parent] |}.
(** FNV-1 of what is served. *)
Definition ex_translate : Settings → ApiSnapshot → Proxy → res ((EnvoySnapshot * ResourceReports * ProxyReport) * nat) :=
  λ settings snap proxy, Translate settings EnvoyCacheResourcesListToFnvHash "" snap proxy 0.

(** What a snapshot has: clusters with the names they look for, load assignments with how
    many endpoints they have, route configurations and listeners. *)
Definition served (s : EnvoySnapshot) : list (string * string) * list (string * nat) * list string * list string :=
  (flat_map (λ r, match r with Resource_Cluster c => [(Cds.cl_name c, from_option Cds.ed_serviceName "" (Cds.cl_edsClusterConfig c))] | _ => [] end) (rs_items (es_clusters s)),
   flat_map (λ r, match r with Resource_Endpoints e => [(Cds.la_clusterName e, length (concat (Cds.la_endpoints e)))] | _ => [] end) (rs_items (es_endpoints s)),
   flat_map (λ r, match r with Resource_Routes c => [Envoy.ec_name c] | _ => [] end) (rs_items (es_routes s)),
   flat_map (λ r, match r with Resource_Listener l => [ln_name l] | _ => [] end) (rs_items (es_listeners s))).
Definition served_of (r : res ((EnvoySnapshot * ResourceReports * ProxyReport) * nat)) :=
  match r with Ok ((s, _, _), _) => Some (served s) | _ => None end.
Example ex_translated : served_of (ex_translate EnvoyRoutesFacts.ex_settings ex_world ex_whole_proxy) =
  Some ([("u_ns", "u_ns-1"); ("v_ns", "v_ns-1")], [("u_ns-1", 2); ("v_ns-1", 1)], ["l-routes"], ["l"]).
Proof. vm_compute. reflexivity. Qed.

(** ** What the theorems need holds here *)
Lemma ex_sockets : Forall socket_ok (sn_upstreams ex_world).
Proof. repeat constructor; intros v [=]. Qed.
Lemma ex_apart : upstreams_apart EnvoyRoutesFacts.ex_settings (sn_upstreams ex_world).
Proof.
  split; [apply (bool_decide_unpack _); by vm_compute|]. intros u u' Hu Hu'.
  repeat (apply elem_of_cons in Hu as [->|Hu]; [|]); repeat (apply elem_of_cons in Hu' as [->|Hu']; [|]); try (by apply elem_of_nil in Hu); try (by apply elem_of_nil in Hu'); by vm_compute.
Qed.
Lemma ex_marshals : tls_marshals.
Proof. done. Qed.
Lemma ex_listeners : Forall listener_ok (px_listeners ex_whole_proxy).
Proof. apply Forall_singleton. split; [apply ex_custom_staged|constructor]. Qed.
Lemma ex_laws_of_listeners : listener_plugin_laws.
Proof. split; [apply ex_hcm_plugins|]. split; [apply ex_network_plugins|apply ex_no_listener_plugins]. Qed.
Lemma ex_generators : generators_keep EnvoyRoutesFacts.ex_settings.
Proof. intros p Hp. by apply elem_of_nil in Hp. Qed.

Lemma Translate_snapshot_closed_witness : ∃ snapshot reports proxyReport n,
  ex_translate EnvoyRoutesFacts.ex_settings ex_world ex_whole_proxy = Ok ((snapshot, reports, proxyReport), n) ∧
  served snapshot = ([("u_ns", "u_ns-1"); ("v_ns", "v_ns-1")], [("u_ns-1", 2); ("v_ns-1", 1)], ["l-routes"], ["l"]) ∧
  snapshot_closed EnvoyRoutesFacts.ex_settings snapshot.
Proof.
  destruct (wp_run _ _ _ (Translate_snapshot_closed EnvoyRoutesFacts.ex_settings EnvoyCacheResourcesListToFnvHash "" ex_world ex_whole_proxy 0
    ex_listeners ex_sockets ex_apart ex_marshals ex_laws_of_listeners ex_generators)) as ([[snapshot reports] proxyReport] & n & E & Hc & _).
  exists snapshot, reports, proxyReport, n. split; [exact E|]. split; [|exact Hc].
  pose proof ex_translated as Hs. unfold ex_translate in Hs. rewrite E in Hs. exact (f_equal (default (served snapshot)) Hs).
Defined.

Definition ex_cluster_run := translateClusterSubsystemComponents EnvoyRoutesFacts.ex_settings "" ex_whole_proxy ex_world (∅, 0).
Example ex_cluster_names : match ex_cluster_run with Ok ((clusters, endpoints, _), _) => Some (map Cds.cl_name clusters, map Cds.la_clusterName endpoints) | _ => None end =
  Some (["u_ns"; "v_ns"], ["u_ns-1"; "v_ns-1"]).
Proof. vm_compute. reflexivity. Qed.
Lemma translateClusterSubsystemComponents_correct_witness : ∃ clusters endpoints snap s,
  ex_cluster_run = Ok ((clusters, endpoints, snap), s) ∧
  map Cds.cl_name clusters = ["u_ns"; "v_ns"] ∧ map Cds.la_clusterName endpoints = ["u_ns-1"; "v_ns-1"] ∧ eds_closed clusters endpoints.
Proof.
  destruct (wp_run _ _ _ (translateClusterSubsystemComponents_correct EnvoyRoutesFacts.ex_settings "" ex_whole_proxy ex_world (∅, 0) ex_marshals ex_sockets ex_apart))
    as ([[clusters endpoints] snap] & s & E & Hn & Hc).
  exists clusters, endpoints, snap, s. split; [exact E|]. split; [exact Hn|]. split; [|exact Hc]. 
  pose proof ex_cluster_names as Hs. unfold ex_cluster_run in Hs. rewrite E in Hs. exact (f_equal (from_option snd []) Hs).
Defined.

(** Groups: the namespace of the first destination is filled in; the second has no upstream. *)
Definition group_world (upstreams : list string) : ApiSnapshot := with_upstreamGroups [ex_group upstreams] ex_world.
Definition group_messages (upstreams : list string) : res (list string) :=
  match verifyUpstreamGroups (PS := nat) (group_world upstreams) (∅, 0) with
  | Ok (_, (r, _)) => Ok (map Error (errors_of (report_of (UpstreamGroupKind, EnvoyRoutesFacts.ex_ref "group") r)))
  | Panic why => Panic why
  | OutOfFuel => OutOfFuel
  end.
Lemma verifyUpstreamGroups_exact_witness :
  group_messages ["u"; "v"] = Ok [] ∧ group_messages ["u"; "w"] = Ok ["destination # 2: upstream not found: list did not find upstream ns.w"] ∧
  ∃ groups es, raising (verifyUpstreamGroups (PS := nat) (group_world ["u"; "w"])) (with_upstreamGroups groups (group_world ["u"; "w"])) es ∧
    map ug_ref groups = [EnvoyRoutesFacts.ex_ref "group"].
Proof.
  split; [by vm_compute|]. split; [by vm_compute|].
  destruct (verifyUpstreamGroups_exact (PS := nat) (group_world ["u"; "w"])) as (groups & es & Hr & Hrefs & _). exists groups, es. split; [exact Hr|exact Hrefs].
Defined.

(** ** What goes wrong *)
(** A version of one letter that is not known: the message of the error slices it. *)
Example proxy_protocol_version_panics :
  WrapWithPProtocol None "3" = Panic "slice bounds out of range" ∧ WrapWithPProtocol None "V2" = Ok (inr (Some (Cds.TransportSocket_ProxyProtocol 1 Cds.TransportSocket_RawBuffer))).
Proof. done. Qed.
(** Upstreams whose references are joined to the same name: the cluster of the first asks for
    endpoints that are not served. *)
Definition colliding : ApiSnapshot :=
  {| sn_upstreams := map (λ r, {| up_ref := r; up_subsetSpec := None; up_healthChecks := []; up_outlierDetection := None; up_preconnectPolicy := None;
       up_circuitBreakers := None; up_protocolSelection := 0; up_useHttp2 := false; up_ignoreHealthOnHostRemoval := false; up_respectDnsTtl := false; up_dnsRefreshRate := None;
       up_sslConfig := None; up_proxyProtocolVersion := None; up_lambdaFunctions := []; up_other := "" |})
       [{| nn_ns := "c"; nn_name := "a_b" |}; {| nn_ns := "b_c"; nn_name := "a" |}];
     sn_upstreamGroups := []; sn_endpoints := [{| ep_upstreams := [{| nn_ns := "c"; nn_name := "a_b" |}; {| nn_ns := "b_c"; nn_name := "a" |}]; ep_address := "10.0.0.1"; ep_port := 80; ep_hostname := "";
       ep_healthCheckHostname := ""; ep_labels := None; ep_annotations := None |}]; sn_authConfigs := []; sn_secrets := [] |}.
Example shared_cluster_name_loses_endpoints :
  served_of (ex_translate EnvoyRoutesFacts.ex_settings colliding {| px_ref := EnvoyRoutesFacts.ex_ref "proxy"; px_labels := ∅; px_listeners := [] |}) =
  Some ([("a_b_c", "a_b_c-3"); ("a_b_c", "a_b_c-1")], [("a_b_c-1", 1); ("a_b_c-1", 1)], [], []).
Proof. vm_compute. reflexivity. Qed.
(** With empty gateways translated, a listener without virtual hosts is served, and its route
    configuration is not. *)
Definition empty_gateways : Settings :=
  {| se_regexMaxProgramSize := None; se_allowWarnings := false; se_warnMissingTlsSecret := false; se_translateEmptyGateways := true;
     se_circuitBreakers := None; se_enableAutoMtls := false; se_upstreamSslParameters := None; se_enableRestEds := None |}.
Definition empty_http : HttpListener :=
  {| hl_virtualHosts := []; hl_options := empty_options; hl_statPrefix := ""; hl_customHttpFilters := []; hl_customNetworkFilters := [] |}.
Definition empty_proxy : Proxy :=
  {| px_ref := EnvoyRoutesFacts.ex_ref "proxy"; px_labels := ∅; px_listeners :=
       [{| li_name := "l"; li_bindAddress := "::"; li_bindPort := 8080; li_type := Some (Listener_HttpListener empty_http); li_sslConfigurations := [];
           li_maxDirectResponseBodySizeBytes := None; li_mostSpecificHeaderMutationsWins := None; li_other := "" |}] |}.
Example empty_gateway_without_routes :
  served_of (ex_translate empty_gateways ex_world empty_proxy) = Some ([("u_ns", "u_ns-1"); ("v_ns", "v_ns-1")], [("u_ns-1", 2); ("v_ns-1", 1)], [], ["l"]).
Proof. vm_compute. reflexivity. Qed.
(** An aggregate listener whose chain refers to a virtual host that does not exist: there is no
    error, and every domain is served by a virtual host without a name. *)
Definition dangling_listener : Listener :=
  {| li_name := "l"; li_bindAddress := "::"; li_bindPort := 8080; li_type := Some (Listener_AggregateListener
       {| al_virtualHosts := ∅; al_httpOptions := ∅; al_tcpListeners := []; al_httpFilterChains :=
            [{| fc_matcher := None; fc_httpOptionsRef := ""; fc_virtualHostRefs := ["missing"]; fc_customHttpFilters := []; fc_customNetworkFilters := [] |}] |});
     li_sslConfigurations := []; li_maxDirectResponseBodySizeBytes := None; li_mostSpecificHeaderMutationsWins := None; li_other := "" |}.
Example dangling_virtual_host_takes_every_domain :
  match ex_translate EnvoyRoutesFacts.ex_settings ex_world {| px_ref := EnvoyRoutesFacts.ex_ref "proxy"; px_labels := ∅; px_listeners := [dangling_listener] |} with
  | Ok ((s, _, report), _) =>
      Some (flat_map (λ r, match r with Resource_Routes c => map (λ v, (Envoy.ev_name v, Envoy.ev_domains v)) (Envoy.ec_virtualHosts c) | _ => [] end) (rs_items (es_routes s)),
            GetProxyError report)
  | _ => None
  end = Some ([("", ["*"])], None).
Proof. vm_compute. reflexivity. Qed.
