(* ===== verification/ApiSnapshot.v ===== *)
(** * The API snapshot of the validators

    gloo/pkg/api/v1/gloosnapshot/api_snapshot.sk.go: a list of resources of each type, and
    what the validators do with it: insert or replace a resource, remove it, in the list of
    its type. The order of metadata and the key of a reference are solo-kit's and a
    parameter ([SoloKit]). Of a resource, the fields the validators read; the rest, which
    only the translators read, is opaque. *)

From stdpp Require Import base gmap strings list sorting.
From S2P Require Import Prelude GoLib GwApi.

Module Snapshot.
(** ** Resources *)
Record Metadata := { md_ref : NamespacedName; md_annotations : gmap string string }.
Inductive Content :=
| Artifact (data : string) | Endpoint (data : string) | ProxyResource (data : string) | UpstreamGroup (data : string) | Secret (data : string)
(** [kube]: whether [GetKube()] is not nil *)
| Upstream (kube : bool) (data : string)
| AuthConfig (data : string) | RateLimitConfig (data : string) | VirtualService (data : string) | RouteTable (data : string)
| Gateway (proxyNames : list string) (data : string)
(** the options, and the auth config they refer to *)
| VirtualHostOption (options : string) (configRef : option NamespacedName)
| RouteOption (options : string)
| MatchableHttpGateway (data : string) | MatchableTcpGateway (data : string) | GraphQLApi (data : string)
(** a type that has no list in the snapshot *)
| OtherType (goType data : string).
Record Resource := { rs_meta : Metadata; rs_content : Content }.
Definition rs_ref (r : Resource) : NamespacedName := md_ref (rs_meta r).

(** The types that have a list. *)
Inductive Kind :=
| KArtifact | KEndpoint | KProxy | KUpstreamGroup | KSecret | KUpstream | KAuthConfig | KRateLimitConfig | KVirtualService | KRouteTable
| KGateway | KVirtualHostOption | KRouteOption | KMatchableHttpGateway | KMatchableTcpGateway | KGraphQLApi.
#[export] Instance Kind_eq_dec : EqDecision Kind.
Proof. solve_decision. Defined.
Definition kind_of (c : Content) : option Kind :=
  match c with
  | Artifact _ => Some KArtifact | Endpoint _ => Some KEndpoint | ProxyResource _ => Some KProxy | UpstreamGroup _ => Some KUpstreamGroup
  | Secret _ => Some KSecret | Upstream _ _ => Some KUpstream | AuthConfig _ => Some KAuthConfig | RateLimitConfig _ => Some KRateLimitConfig
  | VirtualService _ => Some KVirtualService | RouteTable _ => Some KRouteTable | Gateway _ _ => Some KGateway
  | VirtualHostOption _ _ => Some KVirtualHostOption | RouteOption _ => Some KRouteOption | MatchableHttpGateway _ => Some KMatchableHttpGateway
  | MatchableTcpGateway _ => Some KMatchableTcpGateway | GraphQLApi _ => Some KGraphQLApi | OtherType _ _ => None
  end.
(** The type as [%T] prints it. *)
Definition go_type (r : Resource) : string :=
  match rs_content r with
  | Artifact _ => "*v1.Artifact" | Endpoint _ => "*v1.Endpoint" | ProxyResource _ => "*v1.Proxy" | UpstreamGroup _ => "*v1.UpstreamGroup"
  | Secret _ => "*v1.Secret" | Upstream _ _ => "*v1.Upstream" | AuthConfig _ => "*v1.AuthConfig" | RateLimitConfig _ => "*v1alpha1.RateLimitConfig"
  | VirtualService _ => "*v1.VirtualService" | RouteTable _ => "*v1.RouteTable" | Gateway _ _ => "*v1.Gateway"
  | VirtualHostOption _ _ => "*v1.VirtualHostOption" | RouteOption _ => "*v1.RouteOption" | MatchableHttpGateway _ => "*v1.MatchableHttpGateway"
  | MatchableTcpGateway _ => "*v1.MatchableTcpGateway" | GraphQLApi _ => "*v1beta1.GraphQLApi" | OtherType t _ => t
  end.

(** ** The snapshot *)
Record ApiSnapshot := {
  Artifacts : list Resource; Endpoints : list Resource; Proxies : list Resource; UpstreamGroups : list Resource; Secrets : list Resource;
  Upstreams : list Resource; AuthConfigs : list Resource; Ratelimitconfigs : list Resource; VirtualServices : list Resource;
  RouteTables : list Resource; Gateways : list Resource; VirtualHostOptions : list Resource; RouteOptions : list Resource;
  HttpGateways : list Resource; TcpGateways : list Resource; GraphqlApis : list Resource }.
Definition empty_snapshot : ApiSnapshot := Build_ApiSnapshot [] [] [] [] [] [] [] [] [] [] [] [] [] [] [] [].

(** [GetResourcesList] on a type that has a list. *)
Definition items (k : Kind) (s : ApiSnapshot) : list Resource :=
  match k with
  | KArtifact => Artifacts s | KEndpoint => Endpoints s | KProxy => Proxies s | KUpstreamGroup => UpstreamGroups s | KSecret => Secrets s
  | KUpstream => Upstreams s | KAuthConfig => AuthConfigs s | KRateLimitConfig => Ratelimitconfigs s | KVirtualService => VirtualServices s
  | KRouteTable => RouteTables s | KGateway => Gateways s | KVirtualHostOption => VirtualHostOptions s | KRouteOption => RouteOptions s
  | KMatchableHttpGateway => HttpGateways s | KMatchableTcpGateway => TcpGateways s | KGraphQLApi => GraphqlApis s
  end.
(** A snapshot that differs in one list. *)
Definition set_items (k : Kind) (l : list Resource) (s : ApiSnapshot) : ApiSnapshot :=
  let f k' := if decide (k = k') then l else items k' s in
  {| Artifacts := f KArtifact; Endpoints := f KEndpoint; Proxies := f KProxy; UpstreamGroups := f KUpstreamGroup; Secrets := f KSecret;
     Upstreams := f KUpstream; AuthConfigs := f KAuthConfig; Ratelimitconfigs := f KRateLimitConfig; VirtualServices := f KVirtualService;
     RouteTables := f KRouteTable; Gateways := f KGateway; VirtualHostOptions := f KVirtualHostOption; RouteOptions := f KRouteOption;
     HttpGateways := f KMatchableHttpGateway; TcpGateways := f KMatchableTcpGateway; GraphqlApis := f KGraphQLApi |}.

(** [core.ResourceRef.Key()] and [core.Metadata.Less] of solo-kit. *)
Class SoloKit := { Key : NamespacedName → string; Less : Metadata → Metadata → bool }.

Section Operations.
Context `{SoloKit}.

Definition same_key (r r' : Resource) : bool := bool_decide (Key (rs_ref r) = Key (rs_ref r')).

(** The first resource with the key, the loop breaks at it. *)
Fixpoint remove_first (r : Resource) (l : list Resource) : list Resource :=
  match l with
  | [] => []
  | res :: l => if same_key r res then l else res :: remove_first r l
  end.
(** Every resource with the key is replaced; without one, the resource is appended. *)
Definition replace_all (r : Resource) (l : list Resource) : list Resource := map (λ res, if same_key r res then r else res) l.
Definition Sort (l : list Resource) : list Resource := sort_stable (λ a b, Less (rs_meta a) (rs_meta b)) l.
Definition upsert (r : Resource) (l : list Resource) : list Resource :=
  Sort (if existsb (same_key r) l then replace_all r l else l ++ [r]).

Definition RemoveFromResourceList (r : Resource) (s : ApiSnapshot) : string + ApiSnapshot :=
  match kind_of (rs_content r) with
  | Some k => inr (set_items k (remove_first r (items k s)) s)
  | None => inl ("did not remove the resource because its type does not exist [" +:+ go_type r +:+ "]")
  end.
Definition UpsertToResourceList (r : Resource) (s : ApiSnapshot) : string + ApiSnapshot :=
  match kind_of (rs_content r) with
  | Some k => inr (set_items k (upsert r (items k s)) s)
  | None => inl ("did not add/replace the resource type because it does not exist " +:+ go_type r)
  end.
End Operations.
End Snapshot.
Import Snapshot.

(** [Less] orders metadata. *)
Class SoloKitLaws `{SoloKit} := {
  Less_asym a b : Less a b = true → Less b a = false;
  nLess_trans : Transitive (λ a b, Less b a = false)
}.

Section Lists.
Context `{SoloKit}.

Lemma items_set_items k l s : items k (set_items k l s) = l.
Proof. by destruct k. Qed.
Lemma items_set_other k k' l s : k ≠ k' → items k' (set_items k l s) = items k' s.
Proof. intros Hk. destruct k', k; try done; congruence. Qed.
Lemma set_items_items k s : set_items k (items k s) s = s.
Proof. by destruct s, k. Qed.
Lemma set_set_items k l l' s : set_items k l' (set_items k l s) = set_items k l' s.
Proof. by destruct s, k. Qed.

Lemma same_key_true r r' : same_key r r' = true ↔ Key (rs_ref r) = Key (rs_ref r').
Proof. unfold same_key. by rewrite bool_decide_eq_true. Qed.
Lemma same_key_false r r' : same_key r r' = false ↔ Key (rs_ref r) ≠ Key (rs_ref r').
Proof. unfold same_key. by rewrite bool_decide_eq_false. Qed.

Definition keys (l : list Resource) : list string := map (λ r, Key (rs_ref r)) l.

Lemma elem_of_keys x l : x ∈ l → Key (rs_ref x) ∈ keys l.
Proof. intros Hx. by apply (list_elem_of_fmap_2 (λ r, Key (rs_ref r))). Qed.
Lemma remove_first_sublist r l : sublist (remove_first r l) l.
Proof. induction l as [|x l IH]; cbn; [done|]. case_match; by constructor. Qed.
Lemma remove_first_elem r l x : NoDup (keys l) → x ∈ remove_first r l ↔ x ∈ l ∧ Key (rs_ref x) ≠ Key (rs_ref r).
Proof.
  induction l as [|y l IH]; cbn; intros Hnd; [set_solver|]. apply NoDup_cons in Hnd as [Hy Hnd].
  destruct (same_key r y) eqn:E; [apply same_key_true in E|apply same_key_false in E].
  - rewrite elem_of_cons. split; [|intros [[->|?] ?]; congruence]. intros Hx. split; [by right|]. intros Ek. apply Hy. rewrite <-E, <-Ek. by apply elem_of_keys.
  - rewrite !elem_of_cons, IH by done. split; [|tauto]. intros [->|[? ?]]; [split; [by left|congruence]|tauto].
Qed.

Lemma existsb_keys r l : existsb (same_key r) l = true ↔ Key (rs_ref r) ∈ keys l.
Proof.
  rewrite existsb_elem. unfold keys. rewrite list_elem_of_fmap. split.
  - intros (x & Hx & Hk%same_key_true). eauto.
  - intros (x & Hk & Hx). exists x. split; [done|]. by apply same_key_true.
Qed.
Lemma keys_replace_all r l : keys (replace_all r l) = keys l.
Proof. unfold keys, replace_all. rewrite map_map. apply map_ext. intros x. destruct (same_key r x) eqn:E; [|done]. by apply same_key_true. Qed.
Lemma elem_replace_all r l x : Key (rs_ref r) ∈ keys l → x ∈ replace_all r l ↔ x = r ∨ x ∈ l ∧ Key (rs_ref x) ≠ Key (rs_ref r).
Proof.
  unfold replace_all. intros Hr. rewrite list_elem_of_fmap. split.
  - intros (y & -> & Hy). destruct (same_key r y) eqn:E; [by left|]. right. split; [done|]. apply same_key_false in E. congruence.
  - intros [->|[Hx Hk]].
    + unfold keys in Hr. apply list_elem_of_fmap in Hr as (y & Hy & Hin). exists y. split; [|done]. by assert (same_key r y = true) as -> by (by apply same_key_true).
    + exists x. split; [|done]. destruct (same_key r x) eqn:E; [|done]. apply same_key_true in E. congruence.
Qed.
Lemma upsert_perm r l : upsert r l ≡ₚ if existsb (same_key r) l then replace_all r l else l ++ [r].
Proof. apply sort_stable_perm. Qed.
Lemma elem_upsert r l x : x ∈ upsert r l ↔ x = r ∨ x ∈ l ∧ Key (rs_ref x) ≠ Key (rs_ref r).
Proof.
  rewrite upsert_perm. destruct (existsb (same_key r) l) eqn:E.
  - apply elem_replace_all. by apply existsb_keys.
  - rewrite elem_of_app, list_elem_of_singleton. split; [|tauto]. intros [Hx| ->]; [|by left]. right. split; [done|]. intros Hk.
    assert (existsb (same_key r) l = true) as E'; [|congruence]. apply existsb_keys. rewrite <-Hk. by apply elem_of_keys.
Qed.
Lemma NoDup_keys_upsert r l : NoDup (keys l) → NoDup (keys (upsert r l)).
Proof.
  intros Hnd. unfold keys. rewrite (Permutation_map _ (upsert_perm r l)). fold (keys (if existsb (same_key r) l then replace_all r l else l ++ [r])).
  destruct (existsb (same_key r) l) eqn:E; [by rewrite keys_replace_all|]. unfold keys. rewrite map_app. apply NoDup_app. split; [done|]. split; [|apply NoDup_singleton].
  intros x Hx ->%list_elem_of_singleton. apply existsb_keys in Hx. congruence.
Qed.

(** ** Well-formed snapshots *)
Definition well_formed (s : ApiSnapshot) : Prop := ∀ k, NoDup (keys (items k s)) ∧ ∀ r, r ∈ items k s → kind_of (rs_content r) = Some k.
Lemma well_formed_set k l s : well_formed s → NoDup (keys l) → (∀ r, r ∈ l → kind_of (rs_content r) = Some k) → well_formed (set_items k l s).
Proof. intros Hs Hl Hk k'. destruct (decide (k = k')) as [<-|Hne]; [by rewrite items_set_items|]. rewrite items_set_other by done. apply Hs. Qed.
Lemma upsert_well_formed r s s' : well_formed s → UpsertToResourceList r s = inr s' → well_formed s'.
Proof.
  unfold UpsertToResourceList. intros Hs. destruct (kind_of (rs_content r)) as [k|] eqn:Hk; [|done]. intros [= <-]. destruct (Hs k) as [Hnd Hty].
  apply well_formed_set; [done|by apply NoDup_keys_upsert|]. intros x [->|[Hx _]]%elem_upsert; [done|by apply Hty].
Qed.
Lemma remove_well_formed r s s' : well_formed s → RemoveFromResourceList r s = inr s' → well_formed s'.
Proof.
  unfold RemoveFromResourceList. intros Hs. destruct (kind_of (rs_content r)) as [k|] eqn:Hk; [|done]. intros [= <-]. destruct (Hs k) as [Hnd Hty].
  apply well_formed_set; [done| |].
  - eapply sublist_NoDup; [done|]. apply (fmap_sublist (λ r, Key (rs_ref r))), remove_first_sublist.
  - intros x Hx. apply Hty. by apply remove_first_elem in Hx as [? _].
Qed.

Lemma remove_absent r l : Key (rs_ref r) ∉ keys l → remove_first r l = l.
Proof.
  induction l as [|x l IH]; cbn; [done|]. intros [Hx Hl]%not_elem_of_cons. assert (same_key r x = false) as -> by (by apply same_key_false).
  by rewrite IH.
Qed.
Lemma remove_first_app r l1 l2 : Key (rs_ref r) ∉ keys l1 → remove_first r (l1 ++ r :: l2) = l1 ++ l2.
Proof.
  induction l1 as [|x l1 IH]; cbn.
  - intros _. assert (same_key r r = true) as -> by (by apply same_key_true). done.
  - intros [Hx Hl]%not_elem_of_cons. assert (same_key r x = false) as -> by (by apply same_key_false). by rewrite IH.
Qed.
End Lists.

(** ** Sorted lists, and the round trip *)
Section Sorted.
Context `{SoloKitLaws}.

Definition before (a b : Resource) : Prop := Less (rs_meta b) (rs_meta a) = false.
#[local] Instance before_trans : Transitive before.
Proof. intros a b c. unfold before. intros H1 H2. by apply (nLess_trans _ (rs_meta b)). Qed.
Lemma Sort_sorted l : StronglySorted before (Sort l).
Proof. apply (sort_stable_sorted _ before); [|done]. intros x y Hl. unfold before. by apply Less_asym. Qed.
Definition sorted (s : ApiSnapshot) : Prop := ∀ k, StronglySorted before (items k s).

(** Inserting a new resource in a sorted list. *)
Lemma sift_insert (less : Resource → Resource → bool) x l : ∃ l1 l2, l = l1 ++ l2 ∧ sift_left less x l = l1 ++ x :: l2.
Proof.
  induction l as [|y l (l1 & l2 & -> & E)]; cbn; [by exists [], []|]. destruct (less x y); [|by exists [], (y :: l1 ++ l2)].
  exists (y :: l1), l2. cbn. by rewrite E.
Qed.
Lemma foldl_sift_of_sorted l : ∀ rp, StronglySorted before (rev rp ++ l) →
  foldl (λ rp x, sift_left (λ a b, Less (rs_meta a) (rs_meta b)) x rp) rp l = rev l ++ rp.
Proof.
  induction l as [|x l IH]; intros rp Hs; [done|]. cbn [foldl rev].
  assert (sift_left (λ a b, Less (rs_meta a) (rs_meta b)) x rp = x :: rp) as ->.
  { destruct rp as [|y rp]; [done|]. cbn. apply StronglySorted_app in Hs as (Hb & _ & _). specialize (Hb y x). unfold before in Hb. rewrite Hb; [done| |by left].
    cbn. apply elem_of_app. right. by left. }
  rewrite IH; [by rewrite <-(assoc_L (++))|]. cbn. by rewrite <-(assoc_L (++)).
Qed.
Lemma Sort_append l r : StronglySorted before l → ∃ l1 l2, l = l1 ++ l2 ∧ Sort (l ++ [r]) = l1 ++ r :: l2.
Proof.
  intros Hs. unfold Sort, sort_stable. rewrite foldl_app, (foldl_sift_of_sorted l []) by done. rewrite app_nil_r. cbn.
  destruct (sift_insert (λ a b, Less (rs_meta a) (rs_meta b)) r (rev l)) as (l1 & l2 & E & ->).
  exists (rev l2), (rev l1). split; [by rewrite <-rev_app_distr, <-E, rev_involutive|]. rewrite rev_app_distr. cbn. by rewrite <-(assoc_L (++)).
Qed.
Lemma remove_upsert r l : StronglySorted before l → Key (rs_ref r) ∉ keys l → remove_first r (upsert r l) = l.
Proof.
  intros Hs Hr. unfold upsert. destruct (existsb (same_key r) l) eqn:E; [by apply existsb_keys in E|].
  destruct (Sort_append l r Hs) as (l1 & l2 & -> & ->). apply remove_first_app. intros Hin. apply Hr. unfold keys. rewrite map_app. apply elem_of_app. by left.
Qed.

(** C34. Inserting a resource puts it in the list of its type, in the place of those with its
    key, and leaves the other lists; removing a new one gives the snapshot back. *)
Theorem upsert_roundtrip r k s s' (Hk : kind_of (rs_content r) = Some k) (Hs : sorted s) (Hu : UpsertToResourceList r s = inr s') :
  (Key (rs_ref r) ∉ keys (items k s) → RemoveFromResourceList r s' = inr s) ∧
  (∀ x, x ∈ items k s' ↔ x = r ∨ x ∈ items k s ∧ Key (rs_ref x) ≠ Key (rs_ref r)) ∧
  ∀ k', k ≠ k' → items k' s' = items k' s.
Proof.
  unfold UpsertToResourceList in Hu. rewrite Hk in Hu. injection Hu as <-. split_and!.
  - intros Hfresh. unfold RemoveFromResourceList. rewrite Hk, items_set_items, set_set_items, remove_upsert by (apply Hs || done). by rewrite set_items_items.
  - intros x. rewrite items_set_items. apply elem_upsert.
  - intros k' Hne. by apply items_set_other.
Qed.
End Sorted.
