(* ===== verification/GatewayValidation.v ===== *)
(** * The validator of the gateway

    gateway/pkg/validation/validator.go, with gateway/pkg/utils/gateway_filtering.go and
    gateway2/validation/validator.go: a changed resource is accepted when the snapshot it
    gives still translates. The validator keeps the latest snapshot it was synced with, and
    applies the changes it accepts to it. Its calls run under one lock: each is a step on
    the state. The translator, the gloo validator and the extensions are Go interfaces, and
    parameters here ([Translators], an argument [glooValidator]); they do not write to the
    snapshot they are given. *)

From stdpp Require Import base gmap strings list fin_maps.
From Stdlib Require Import ZArith.
From S2P Require Import Prelude GoLib GwApi EdgeApi ProxyReports ResourceReports GlooProxy ApiSnapshot.
Import Validation Snapshot.

Module GwValidation.
(** ** Errors

    The trees of wrapped errors and multierrors the validator builds. *)
Inductive VError `{Errors} :=
| Leaf (e : error)
| Wrapped (e : VError) (msg : string)
| Multi (errs : list VError)
| SyncNotYetRunError (e : VError)
| GlooValidationResponseLengthError (reportLength : nat).

(** hashicorp/go-multierror, the text of an error and [errors.As] with a target of the
    type a predicate decides; what solo-kit's reports say; [MustHash], [HashAllSafe] (none on
    an error); [reflect.DeepEqual] on reports. *)
Class ValidatorLibs `{Errors} := {
  multierror_Append : option VError → VError → VError;
  VError_Error : VError → string;
  errors_As : VError → (VError → bool) → bool;
  (** [errors.Is] with [errors.New] of a message as the target *)
  errors_Is : VError → string → bool;
  Validate : ResourceReports → option error;
  ValidateStrict : ResourceReports → option error;
  Merge : ResourceReports → ResourceReports → ResourceReports;
  MustHash : Gloo.Proxy → N;
  HashAllSafe : list Resource → option N;
  DeepEqual : list ProxyReport → list ProxyReport → bool;
  (** a reference as [%v] prints it *)
  ref_v : NamespacedName → string
}.
(** [multierror.Append] flattens its arguments by one level. *)
Definition members `{Errors} (e : VError) : list VError := match e with Multi l => l | e => [e] end.
Fixpoint in_chain `{Errors} (p : VError → bool) (e : VError) : bool :=
  p e || match e with
         | Wrapped e _ | SyncNotYetRunError e => in_chain p e
         | Multi l => existsb (in_chain p) l
         | Leaf _ | GlooValidationResponseLengthError _ => false
         end.
Class ValidatorLibsLaws `{ValidatorLibs} := {
  Append_multi a e : multierror_Append a e = Multi (from_option members [] a ++ members e);
  As_chain e p : errors_As e p = in_chain p e;
  Is_wrapped e m' m : errors_Is (Wrapped e m') m = bool_decide (m' = m) || errors_Is e m;
  Is_multi l m : errors_Is (Multi l) m = existsb (λ e, errors_Is e m) l;
  Validate_none m : Validate m = None ↔ map_Forall (λ _ r, rp_errors r = None) m;
  ValidateStrict_none m : ValidateStrict m = None ↔ map_Forall (λ _ r, rp_errors r = None ∧ rp_warnings r = []) m;
  DeepEqual_eq l l' : DeepEqual l l' = true → l = l'
}.

(** ** What the validator calls *)
Record GlooValidationReport `{Errors} := { gr_proxyReport : ProxyReport; gr_resourceReports : ResourceReports }.
Class Translators `{Errors} := {
  (** [translator.Translate(ctx, proxyName, snapshot, gateways)] of the gateway *)
  Translate : string → ApiSnapshot → list Resource → option Gloo.Proxy * ResourceReports;
  (** the extensions; each fills reports that are empty at first *)
  extensions : list (ApiSnapshot → ResourceReports)
}.
Definition GlooValidatorFunc `{Errors} : Type := Gloo.Proxy → option Resource → bool → VError + list GlooValidationReport.

(** ** Gateways by the name of their proxy *)
Definition GatewayProxyName : string := "gateway-proxy".
Definition proxyNames (g : Resource) : list string := match rs_content g with Gateway names _ => names | _ => [] end.
Definition GetProxyNamesForGateway (g : Resource) : list string := match proxyNames g with [] => [GatewayProxyName] | names => names end.
Definition GatewaysByProxyName (gateways : list Resource) : gmap string (list Resource) :=
  foldl (λ result gw, foldl (λ result name, <[name := default [] (result !! name) ++ [gw]]> result) result (GetProxyNamesForGateway gw)) ∅ gateways.

(** ** The state and the configuration *)
Record Validator `{Errors} := {
  latestSnapshot : option ApiSnapshot; latestSnapshotErr : option VError;
  (** the gauge [mValidConfig]: unset, or whether it is 1 *)
  mValidConfig : option bool }.
Record Config := { allowWarnings : bool; disableValidationAgainstPreviousState : bool }.
Record Reports `{Errors} := { rp_Proxies : list Gloo.Proxy; rp_ProxyReports : list ProxyReport }.
Definition empty_reports `{Errors} : Reports := {| rp_Proxies := []; rp_ProxyReports := [] |}.
Record validationOptions := {
  op_DryRun : bool; op_Delete : bool; op_Resource : Resource; op_GvkKind : string; validateUnmodified : bool; collectAllErrors : bool }.
Record validationOutput `{Errors} := { vo_proxies : list Gloo.Proxy; vo_proxyReports : list ProxyReport; vo_err : option VError }.

Section Validator.
Context `{ValidatorLibs, SoloKit, !Translators, !GoRange string}.
Context (cfg : Config) (glooValidator : GlooValidatorFunc).

Definition append (errs : option VError) (e : option VError) : option VError :=
  match e with None => errs | Some e => Some (multierror_Append errs e) end.
Definition new (msg : string) : VError := Leaf (New msg).

Definition SortedGatewaysByProxyName (gateways : list Resource) : list (string * list Resource) :=
  sort_stable (λ a b, string_lt a.1 b.1) (go_range (GatewaysByProxyName gateways)).

Definition getErrorsFromResourceReports (reports : ResourceReports) : option VError :=
  Leaf <$> (if allowWarnings cfg then Validate reports else ValidateStrict reports).

(** ** Translation *)
Definition translate_proxy (snapshot : ApiSnapshot) (collect : bool) (acc : list Gloo.Proxy * option VError) (g : string * list Resource) :
    list Gloo.Proxy * option VError :=
  let '(proxies, errs) := acc in
  let '(proxy, reports) := Translate g.1 snapshot g.2 in
  let err := (λ e, Wrapped e "could not render proxy") <$> getErrorsFromResourceReports reports in
  let errs := append errs err in
  match err with
  | Some _ => if collect then (proxies ++ option_list proxy, errs) else (proxies, errs)
  | None => (proxies ++ option_list proxy, errs)
  end.
Definition translateGlooEdgeProxies (snapshot : ApiSnapshot) (collect : bool) : list Gloo.Proxy * option VError :=
  foldl (translate_proxy snapshot collect) ([], None) (SortedGatewaysByProxyName (Gateways snapshot)).

(** A proxy with the policy in its place, for the policies of the Kubernetes gateway. *)
Definition isK8sGatewayProxy (r : Resource) : bool :=
  match rs_content r with RouteOption _ | VirtualHostOption _ _ => true | _ => false end.
Definition fake_upstream : Resource :=
  {| rs_meta := {| md_ref := {| nn_ns := "default"; nn_name := "zzz_fake-upstream-for-gloo-validation" |}; md_annotations := ∅ |};
     rs_content := Upstream false "static solo.io:80" |}.
Definition policy_proxy (r : Resource) : Gloo.Proxy :=
  let route := {| Gloo.ro_matchers := []; Gloo.ro_name := "route";
    Gloo.ro_action := Some (Gloo.Route_RouteAction (Some (Gloo.RouteAction_Single
      {| Gloo.de_type := Some (Gloo.Destination_Upstream (rs_ref fake_upstream)); Gloo.de_subset := None; Gloo.de_aws := None |})));
    Gloo.ro_options := match rs_content r with RouteOption o => o | _ => "" end; Gloo.ro_metadataStatic := None |} in
  let vhost := {| Gloo.vh_name := "vhost"; Gloo.vh_domains := ["*"]; Gloo.vh_routes := [route];
    Gloo.vh_options := match rs_content r with VirtualHostOption o _ => o | _ => "" end;
    Gloo.vh_configRef := match rs_content r with VirtualHostOption _ ref => ref | _ => None end; Gloo.vh_metadataStatic := None |} in
  {| Gloo.px_ref := {| nn_ns := "gloo-system"; nn_name := "zzz-fake-proxy-for-validation" |}; Gloo.px_labels := ∅;
     Gloo.px_listeners := [{| Gloo.li_name := "aggregate-listener"; Gloo.li_bindAddress := "127.0.0.1"; Gloo.li_bindPort := 8082;
       Gloo.li_type := Some (Gloo.Listener_AggregateListener
         {| Gloo.al_virtualHosts := {["vhost" := vhost]}; Gloo.al_httpOptions := ∅;
            Gloo.al_httpFilterChains := [{| Gloo.fc_matcher := None; Gloo.fc_httpOptionsRef := "opts1"; Gloo.fc_virtualHostRefs := ["vhost"];
                                            Gloo.fc_customHttpFilters := []; Gloo.fc_customNetworkFilters := [] |}];
            Gloo.al_tcpListeners := [] |});
       Gloo.li_sslConfigurations := []; Gloo.li_maxDirectResponseBodySizeBytes := None; Gloo.li_mostSpecificHeaderMutationsWins := None; Gloo.li_other := "" |}] |}.
(** Also adds the upstream to the snapshot. *)
Definition TranslateK8sGatewayProxies (snapshot : ApiSnapshot) (r : Resource) : ApiSnapshot * list Gloo.Proxy :=
  (match UpsertToResourceList fake_upstream snapshot with inr s => s | inl _ => snapshot end, [policy_proxy r]).
(** The first errors of the proxy. *)
Fixpoint GetSimpleErrorFromGlooValidation (reports : list GlooValidationReport) (proxy : Gloo.Proxy) : option VError :=
  match reports with
  | [] => None
  | report :: reports =>
      match rp_errors (report_of ("*v1.Proxy", Gloo.px_ref proxy) (gr_resourceReports report)) with
      | Some (Multierror es) => Some (Multi (map Leaf es))
      | Some (OtherError e) => Some (Leaf e)
      | None => GetSimpleErrorFromGlooValidation reports proxy
      end
  end.

(** ** The errors of a proxy *)
Definition ref_string (ref : NamespacedName) : string := "[namespace: " +:+ nn_ns ref +:+ ", name: " +:+ nn_name ref +:+ "]".
Definition proxyFailedGlooValidation (e : VError) (proxy : Gloo.Proxy) : VError :=
  Wrapped e ("failed to validate Proxy " +:+ ref_string (Gloo.px_ref proxy) +:+ " with gloo validation").
(** The warnings, when they count as errors. *)
Definition proxy_warnings (report : ProxyReport) : list string := if allowWarnings cfg then [] else GetProxyWarning report.
Definition append_warnings (errs : option VError) (warnings : list string) : option VError :=
  foldl (λ errs w, append errs (Some (new w))) errs warnings.

(** The errors so far, and whether to stop validating the proxy. *)
Definition appendProxyErrors (errs : option VError) (report : ProxyReport) (proxy : Gloo.Proxy) (collect : bool) : option VError * bool :=
  let '(errs, stop) := match GetProxyError report with
    | Some e => (append errs (Some (proxyFailedGlooValidation (Leaf e) proxy)), negb collect)
    | None => (errs, false) end in
  if stop then (errs, true)
  else match proxy_warnings report with
       | [] => (errs, false)
       | ws => (append_warnings errs ws, negb collect)
       end.

Definition getErrorsFromGlooValidation (reports : list GlooValidationReport) : option VError :=
  foldl (λ errs report,
    let errs := append errs (getErrorsFromResourceReports (gr_resourceReports report)) in
    let errs := append errs ((λ e, Wrapped (Leaf e) "getErrorsFromGlooValidation failed to validate Proxy with Gloo validation server")
                               <$> GetProxyError (gr_proxyReport report)) in
    append_warnings errs (proxy_warnings (gr_proxyReport report))) None reports.

Definition validate_proxy (opts : validationOptions) (acc : list ProxyReport * option VError) (proxy : Gloo.Proxy) : list ProxyReport * option VError :=
  let '(proxyReports, errs) := acc in
  let resourceToModify := if validateUnmodified opts then None else Some (op_Resource opts) in
  match glooValidator proxy resourceToModify (op_Delete opts) with
  | inl err => (proxyReports, append errs (Some (SyncNotYetRunError err)))
  | inr glooReports =>
      match glooReports with
      | [report] =>
          if isK8sGatewayProxy (op_Resource opts) then (proxyReports, append errs (GetSimpleErrorFromGlooValidation glooReports proxy))
          else
            let proxyReports := proxyReports ++ [gr_proxyReport report] in
            let '(errs, stopValidatingProxy) := appendProxyErrors errs (gr_proxyReport report) proxy (collectAllErrors opts) in
            if stopValidatingProxy then (proxyReports, errs)
            else (proxyReports, append errs ((λ e, Wrapped e "failed gloo validation resource reports") <$> getErrorsFromGlooValidation glooReports))
      | _ => (proxyReports, append errs (Some (GlooValidationResponseLengthError (length glooReports))))
      end
  end.

(** gloo/pkg/syncer/validation/validator.go *)
Definition extensionValidator_Validate (snapshot : ApiSnapshot) : ResourceReports :=
  foldl (λ reports ex, Merge reports (ex snapshot)) ∅ extensions.

Definition validateProxiesAndExtensions (snapshot : ApiSnapshot) (opts : validationOptions) : validationOutput :=
  let '(snapshot, (proxies, errs)) :=
    if isK8sGatewayProxy (op_Resource opts)
    then let '(snapshot, proxies) := TranslateK8sGatewayProxies snapshot (op_Resource opts) in (snapshot, (proxies, None))
    else (snapshot, translateGlooEdgeProxies snapshot (collectAllErrors opts)) in
  let '(proxyReports, errs) := foldl (validate_proxy opts) ([], errs) proxies in
  let extensionReports := extensionValidator_Validate snapshot in
  let errs := if bool_decide (extensionReports = ∅) then errs
              else append errs ((λ e, Wrapped e "failed extension resource reports") <$> getErrorsFromResourceReports extensionReports) in
  {| vo_proxies := proxies; vo_proxyReports := proxyReports; vo_err := errs |}.

(** ** Comparing with the unmodified snapshot *)
Definition compareErrors (e1 e2 : option VError) : bool :=
  match e1, e2 with
  | None, None => true
  | Some e1, Some e2 => bool_decide (VError_Error e1 = VError_Error e2)
  | _, _ => false
  end.
(** [reflect.TypeOf] *)
Definition listener_type (r : ListenerReport) : nat :=
  match lr_type r with
  | None => 0 | Some (ListenerReport_HttpListenerReport _) => 1 | Some (ListenerReport_TcpListenerReport _) => 2
  | Some (ListenerReport_HybridListenerReport _) => 3 | Some (ListenerReport_AggregateListenerReport _) => 4
  end.
(** Lists of the same length whose elements agree in order. *)
Definition same_lists {A} (same : A → A → bool) (l1 l2 : list A) : bool :=
  (length l1 =? length l2) && forallb (λ p, same p.1 p.2) (zip l1 l2).
Definition same_listener (l1 l2 : ListenerReport) : bool :=
  (listener_type l1 =? listener_type l2) &&
  same_lists (λ e1 e2, bool_decide (Error e1 = Error e2)) (GetListenerError l1) (GetListenerError l2).
Definition compareReports (r1 r2 : list ProxyReport) : bool :=
  if negb (allowWarnings cfg) then DeepEqual r1 r2
  else same_lists (λ p1 p2, same_lists same_listener (pr_listenerReports p1) (pr_listenerReports p2)) r1 r2.
Definition compareProxies (p1 p2 : list Gloo.Proxy) : bool := same_lists (λ a b, N.eqb (MustHash a) (MustHash b)) p1 p2.
Definition findBreakingErrors (errs : option VError) : bool :=
  match errs with
  | None => false
  | Some e => errors_As e (λ e, match e with GlooValidationResponseLengthError _ => true | _ => false end) ||
              errors_As e (λ e, match e with SyncNotYetRunError _ => true | _ => false end)
  end.
Definition compareValidationOutputs (voMod voNoMod : validationOutput) : bool :=
  compareErrors (vo_err voMod) (vo_err voNoMod) && compareProxies (vo_proxies voMod) (vo_proxies voNoMod) &&
  compareReports (vo_proxyReports voMod) (vo_proxyReports voNoMod).

Definition measure (ok : bool) : M Validator unit :=
  modify (λ v, {| latestSnapshot := latestSnapshot v; latestSnapshotErr := latestSnapshotErr v; mValidConfig := Some ok |}).
Definition InvalidSnapshotErrMessage : string :=
  "validation is disabled due to an invalid resource which has been written to storage. Please correct any Rejected resources to re-enable validation.".
Definition copySnapshotNonThreadSafe (dryRun : bool) : M Validator (VError + ApiSnapshot) :=
  v <~ gets id ;;
  match latestSnapshot v, latestSnapshotErr v with
  | None, _ => ret (inl (new "proxy validation called before the validation server received its first sync of resources"))
  | Some _, Some _ => do! (if dryRun then ret tt else measure false) ;; ret (inl (new InvalidSnapshotErrMessage))
  | Some snapshot, None => ret (inr snapshot)
  end.
Definition with_flags (unmodified collect : bool) (opts : validationOptions) : validationOptions :=
  {| op_DryRun := op_DryRun opts; op_Delete := op_Delete opts; op_Resource := op_Resource opts; op_GvkKind := op_GvkKind opts;
     validateUnmodified := unmodified; collectAllErrors := collect |}.
Definition validateAgainstCurrentSnapshot (opts : validationOptions) (voMod : validationOutput) : M Validator bool :=
  if findBreakingErrors (vo_err voMod) then ret false
  else
    snapshotCloneUnmodified <~ copySnapshotNonThreadSafe (op_DryRun opts) ;;
    match snapshotCloneUnmodified with
    | inl _ => ret false
    | inr snapshot => ret (compareValidationOutputs voMod (validateProxiesAndExtensions snapshot (with_flags true (collectAllErrors opts) opts)))
    end.
Definition shouldValidateAgainstPreviousState (opts : validationOptions) : bool :=
  negb (disableValidationAgainstPreviousState cfg) && op_Delete opts && bool_decide (op_GvkKind opts = "Secret").

(** ** Validating a change *)
Definition change (opts : validationOptions) (s : ApiSnapshot) : string + ApiSnapshot :=
  if op_Delete opts then RemoveFromResourceList (op_Resource opts) s else UpsertToResourceList (op_Resource opts) s.
Definition NotReadyErr : VError := new "validation is not yet available. Waiting for first snapshot".
(** The reports, or nil, and the error. *)
Definition validateSnapshot (opts : validationOptions) : M Validator (option Reports * option VError) :=
  ready <~ gets (λ v, bool_decide (is_Some (latestSnapshot v))) ;;
  if negb ready then ret (None, Some NotReadyErr)
  else
    snapshotClone <~ copySnapshotNonThreadSafe (op_DryRun opts) ;;
    match snapshotClone with
    | inl _ => ret (None, None)
    | inr snapshotClone =>
        match change opts snapshotClone with
        | inl err => ret (None, Some (new err))
        | inr snapshotClone =>
            let retry := shouldValidateAgainstPreviousState opts in
            let opts := with_flags (validateUnmodified opts) retry opts in
            let output := validateProxiesAndExtensions snapshotClone opts in
            passedSnapshotValidation <~ (match vo_err output with
              | Some _ => if retry then validateAgainstCurrentSnapshot opts output else ret false
              | None => ret false end) ;;
            do! (if op_DryRun opts then ret tt else measure (bool_decide (¬ is_Some (vo_err output)))) ;;
            let reports := {| rp_Proxies := vo_proxies output; rp_ProxyReports := vo_proxyReports output |} in
            match vo_err output, passedSnapshotValidation with
            | Some e, false =>
                let r := op_Resource opts in
                ret (Some reports, Some (Wrapped e ("validating " +:+ go_type r +:+ " " +:+ ref_v (rs_ref r))))
            | _, _ =>
                if op_DryRun opts then ret (Some reports, None)
                else
                  v <~ gets id ;;
                  match latestSnapshot v with
                  | None => panic "nil pointer dereference"
                  | Some latest =>
                      match change opts latest with
                      | inl err => ret (Some reports, Some (new err))
                      | inr latest =>
                          do! modify (λ v, {| latestSnapshot := Some latest; latestSnapshotErr := latestSnapshotErr v; mValidConfig := mValidConfig v |}) ;;
                          ret (Some reports, None)
                      end
                  end
            end
        end
    end.

Definition options (dryRun delete : bool) (gvkKind : string) (r : Resource) : validationOptions :=
  {| op_DryRun := dryRun; op_Delete := delete; op_Resource := r; op_GvkKind := gvkKind; validateUnmodified := false; collectAllErrors := false |}.
Definition ValidateDeletedGvk (gvkKind : string) (r : Resource) (dryRun : bool) : M Validator (option VError) :=
  res <~ validateSnapshot (options dryRun true gvkKind r) ;; ret res.2.
Definition validateModifiedResource (gvkKind : string) (r : Resource) (dryRun : bool) : M Validator (option Reports * option VError) :=
  res <~ validateSnapshot (options dryRun false gvkKind r) ;;
  ret (res.1, (λ e, Multi [Wrapped e ("Validating " +:+ go_type r +:+ " failed")]) <$> res.2).
Definition ValidateModifiedGvk := validateModifiedResource.

(** ** Sync *)
Definition hashFunc (s : ApiSnapshot) : option N :=
  HashAllSafe (VirtualHostOptions s ++ VirtualServices s ++ Gateways s ++ RouteOptions s ++ RouteTables s ++ HttpGateways s ++ VirtualHostOptions s).
Definition gatewayUpdate (v : Validator) (s : ApiSnapshot) : bool :=
  match latestSnapshot v with
  | None => true
  | Some latest =>
      match hashFunc latest, hashFunc s with
      | Some oldHash, Some newHash => negb (N.eqb oldHash newHash)
      | _, _ => true
      end
  end.
(** The errors of the translation of a snapshot. *)
Definition sync_errors (s : ApiSnapshot) : option VError :=
  foldl (λ errs g, append errs (getErrorsFromResourceReports (Translate g.1 s g.2).2)) None (go_range (GatewaysByProxyName (Gateways s))).
Definition Sync (s : ApiSnapshot) : M Validator (option VError) :=
  v <~ gets id ;;
  if negb (gatewayUpdate v s) then ret None
  else
    let errs := sync_errors s in
    do! (match latestSnapshot v with None => measure (bool_decide (¬ is_Some errs)) | Some _ => ret tt end) ;;
    do! modify (λ v, {| latestSnapshot := Some s; latestSnapshotErr := errs; mValidConfig := mValidConfig v |}) ;;
    ret ((λ e, Wrapped e InvalidSnapshotErrMessage) <$> errs).
End Validator.

(** ** Lists of resources *)
Record Gvk := { gvk_Group : string; gvk_Version : string; gvk_Kind : string }.
#[export] Instance Gvk_eq_dec : EqDecision Gvk.
Proof. solve_decision. Defined.
Definition gateway_gvk (kind : string) : Gvk := {| gvk_Group := "gateway.solo.io"; gvk_Version := "v1"; gvk_Kind := kind |}.
Definition gloo_gvk (kind : string) : Gvk := {| gvk_Group := "gloo.solo.io"; gvk_Version := "v1"; gvk_Kind := kind |}.
Definition ApiGvkToHashableResource : list (Gvk * Kind) :=
  [(gloo_gvk "Artifact", KArtifact); (gloo_gvk "Endpoint", KEndpoint); (gloo_gvk "Proxy", KProxy); (gloo_gvk "UpstreamGroup", KUpstreamGroup);
   (gloo_gvk "Secret", KSecret); (gloo_gvk "Upstream", KUpstream);
   ({| gvk_Group := "enterprise.gloo.solo.io"; gvk_Version := "v1"; gvk_Kind := "AuthConfig" |}, KAuthConfig);
   ({| gvk_Group := "ratelimit.solo.io"; gvk_Version := "v1alpha1"; gvk_Kind := "RateLimitConfig" |}, KRateLimitConfig);
   (gateway_gvk "VirtualService", KVirtualService); (gateway_gvk "RouteTable", KRouteTable); (gateway_gvk "Gateway", KGateway);
   (gateway_gvk "VirtualHostOption", KVirtualHostOption); (gateway_gvk "RouteOption", KRouteOption);
   (gateway_gvk "MatchableHttpGateway", KMatchableHttpGateway); (gateway_gvk "MatchableTcpGateway", KMatchableTcpGateway);
   ({| gvk_Group := "graphql.gloo.solo.io"; gvk_Version := "v1beta1"; gvk_Kind := "GraphQLApi" |}, KGraphQLApi)].

(** encoding/json, the conversion of Kubernetes metadata, [UnmarshalMap] and
    [UnmarshalSpec] of solo-kit, and unstructured objects. *)
Class Decoding `{Errors} := {
  Item : Type;
  GetKind : Item → string;
  (** the group and version of the item *)
  ParseGroupVersion : Item → error + (string * string);
  MarshalJSON : Item → error + string;
  Spec : Type;
  (** the metadata, and the spec unless it is nil *)
  json_Unmarshal : string → VError + (Metadata * option Spec);
  unmarshal_spec : Kind → Spec → VError + Content;
  (** the type implements [resources.CustomInputResource] *)
  custom_input : Kind → bool;
  (** the content of a resource without spec *)
  empty_content : Kind → Content
}.
Class DecodingLaws `{Decoding} := {
  unmarshal_kind k spec c : unmarshal_spec k spec = inr c → kind_of c = Some k;
  empty_kind k : kind_of (empty_content k) = Some k
}.
Definition unmarshalErrMsg : string := "could not unmarshal raw object".
Section Lists.
Context `{ValidatorLibs, SoloKit, !Translators, !GoRange string, !Decoding}.
Context (cfg : Config) (glooValidator : GlooValidatorFunc).

Definition WrappedUnmarshalErr (e : VError) : VError := Wrapped e unmarshalErrMsg.
Definition UnmarshalResource (k : Kind) (json : string) : VError + Resource :=
  match json_Unmarshal json with
  | inl e => inl (Wrapped e "unmarshalling from raw json")
  | inr (meta, None) => inr {| rs_meta := meta; rs_content := empty_content k |}
  | inr (meta, Some spec) =>
      match unmarshal_spec k spec with
      | inl e => inl (Wrapped e ("parsing " +:+ (if custom_input k then "custom input " else "") +:+ "resource from crd spec " +:+ nn_name (md_ref meta) +:+ " in namespace " +:+ nn_ns (md_ref meta) +:+ " into "
                                 +:+ go_type {| rs_meta := meta; rs_content := empty_content k |}))
      | inr c => inr {| rs_meta := meta; rs_content := c |}
      end
  end.

(** What an item decodes to. *)
Definition decode_item (item : Item) : VError + (string * Resource) :=
  match ParseGroupVersion item with
  | inl e => inl (Leaf e)
  | inr (group, version) =>
      let itemGvk := {| gvk_Group := group; gvk_Version := version; gvk_Kind := GetKind item |} in
      match MarshalJSON item with
      | inl e => inl (Leaf e)
      | inr json =>
          match assoc itemGvk ApiGvkToHashableResource with
          | None => inl (new ("Unknown group/version/kind, " +:+ group +:+ "/" +:+ version +:+ ", Kind=" +:+ GetKind item))
          | Some k =>
              match UnmarshalResource k json with
              | inl e => inl (WrappedUnmarshalErr e)
              | inr r => inr (gvk_Kind itemGvk, r)
              end
          end
      end
  end.
Definition processItem (item : Item) : M Validator (option Reports * option VError) :=
  match decode_item item with
  | inl e => ret (Some empty_reports, Some e)
  | inr (kind, r) => validateModifiedResource cfg glooValidator kind r false
  end.

(** The reports, and the errors of the multierror that is always returned. *)
Definition ValidateList (items : list Item) (dryRun : bool) : M Validator (Reports * VError) :=
  v <~ gets id ;;
  match latestSnapshot v with
  | None => panic "nil pointer dereference"
  | Some originalSnapshot =>
      res <~ fold_range 0 items (empty_reports, Multi []) (λ _ item '(reports, errs),
        let! (itemReports, err) <~ processItem item ;;
        let errs := match err with Some e => multierror_Append (Some errs) e | None => errs end in
        ret (match itemReports with
             | Some r => {| rp_Proxies := rp_Proxies reports ++ rp_Proxies r; rp_ProxyReports := rp_ProxyReports reports ++ rp_ProxyReports r |}
             | None => reports end, errs)) ;;
      do! (if dryRun then modify (λ v, {| latestSnapshot := Some originalSnapshot; latestSnapshotErr := latestSnapshotErr v; mValidConfig := mValidConfig v |})
           else ret tt) ;;
      ret res
  end.
End Lists.
End GwValidation.
