(* ===== verification/GlooValidation.v ===== *)
(** * The validator of gloo

    gloo/pkg/validation/server.go and validator.go, with gloo/pkg/utils/gloo_resources.go:
    what the validator of the gateway calls. It keeps the latest snapshot, applies the
    changed resource to a copy, and translates proxies with it; the errors of routes that
    the sanitizers turned into warnings are turned in the reports as well. The translator
    and the sanitizer are Go interfaces, and parameters ([GlooTranslation]). The
    notification of resyncs, which streams over gRPC, is not modelled. *)

From stdpp Require Import base gmap strings list fin_maps.
From Stdlib Require Import ZArith.
From S2P Require Import Prelude GoLib GwApi EdgeApi ProxyReports ResourceReports Xds Sanitizers GlooProxy ApiSnapshot GatewayValidation.
Import Validation Snapshot GwValidation.

Module GlooValidation.
Class GlooTranslation `{Errors} := {
  XdsSnapshot : Type;
  (** [translator.Translate(params, proxy)] *)
  Translate : ApiSnapshot → Gloo.Proxy → XdsSnapshot * ResourceReports * ProxyReport;
  (** writes to the reports *)
  SanitizeSnapshot : ApiSnapshot → XdsSnapshot → ResourceReports → ResourceReports;
  (** the message of a Proxy resource *)
  as_proxy : Resource → Gloo.Proxy;
  (** the protobuf text of a route error *)
  RouteReport_Error_String : Entry RouteReport_Error_Type → string
}.

(** ** Route errors become warnings *)
Section Reports.
Context `{Errors, !SoloReports2, !GlooTranslation}.

(** The conversion between the enumerations keeps the number. *)
Definition RouteReport_Warning_of (t : RouteReport_Error_Type) : RouteReport_Warning_Type :=
  match t with
  | RouteReport_Error_InvalidMatcherError => RouteReport_Warning_InvalidDestinationWarning
  | RouteReport_Error_ProcessingError => RouteReport_Warning_unnamed 1
  end.
Definition route_warning (e : Entry RouteReport_Error_Type) : Entry RouteReport_Warning_Type :=
  {| en_type := RouteReport_Warning_of (en_type e); en_reason := en_reason e; en_metadata := None |}.
(** [inErrors], [inWarnings]: the texts of the errors and warnings on Proxies. *)
Definition turn_route (inErrors inWarnings : string → bool) (r : RouteReport) : RouteReport :=
  {| rr_errors := List.filter (λ e, inErrors (RouteReport_Error_String e)) (rr_errors r);
     rr_warnings := rr_warnings r ++ map route_warning
       (List.filter (λ e, negb (inErrors (RouteReport_Error_String e)) && inWarnings (RouteReport_Error_String e)) (rr_errors r)) |}.
Definition map_vhost (f : RouteReport → RouteReport) (v : VirtualHostReport) : VirtualHostReport :=
  {| vr_errors := vr_errors v; vr_routeReports := map f (vr_routeReports v) |}.
Definition map_http (f : RouteReport → RouteReport) (h : HttpListenerReport) : HttpListenerReport :=
  {| hr_errors := hr_errors h; hr_virtualHostReports := map (map_vhost f) (hr_virtualHostReports h) |}.
(** The routes of [GetVhostReportsFromListenerReport], in place. *)
Definition map_routes (f : RouteReport → RouteReport) (r : ListenerReport) : ListenerReport :=
  {| lr_errors := lr_errors r; lr_warnings := lr_warnings r; lr_type := match lr_type r with
       | Some (ListenerReport_HttpListenerReport h) => Some (ListenerReport_HttpListenerReport (map_http f h))
       | Some (ListenerReport_HybridListenerReport m) => Some (ListenerReport_HybridListenerReport
           ((λ mr, match mr with MatchedListenerReport_HttpListenerReport h => MatchedListenerReport_HttpListenerReport (map_http f h) | mr => mr end) <$> m))
       | Some (ListenerReport_AggregateListenerReport a) => Some (ListenerReport_AggregateListenerReport
           {| ar_httpListenerReports := map_http f <$> ar_httpListenerReports a; ar_tcpListenerReports := ar_tcpListenerReports a |})
       | ty => ty
       end |}.

(** The reports on Proxies; a field of errors that is not a multierror fails the type
    assertion. *)
Definition proxy_reports (m : ResourceReports) : list ResourceReport := map snd (map_to_list (FilterByKind "*v1.Proxy" m)).
Definition is_other (r : ResourceReport) : bool := match rp_errors r with Some (OtherError _) => true | _ => false end.
Definition routeErrorToWarnings (m : ResourceReports) (report : ProxyReport) : res ProxyReport :=
  let rs := proxy_reports m in
  if existsb is_other rs then Panic "interface conversion"
  else
    let inErrors t := existsb (λ e, bool_decide (Error e = t)) (flat_map errors_of rs) in
    let inWarnings t := existsb (λ w, bool_decide (w = t)) (flat_map rp_warnings rs) in
    Ok {| pr_listenerReports := map (map_routes (turn_route inErrors inWarnings)) (pr_listenerReports report) |}.
End Reports.

Section Validate.
Context `{Errors, !SoloReports2, !GlooTranslation, SoloKit, !GoRange string}.

(** ** glooValidator *)
Definition validate_one (snapshot : ApiSnapshot) (proxy : Gloo.Proxy) : res GlooValidationReport :=
  let '(xdsSnapshot, resourceReports, proxyReport) := Translate snapshot proxy in
  let resourceReports := SanitizeSnapshot snapshot xdsSnapshot resourceReports in
  res_bind (routeErrorToWarnings resourceReports proxyReport) (λ proxyReport,
    Ok {| gr_proxyReport := proxyReport; gr_resourceReports := resourceReports |}).
Fixpoint validate_all (snapshot : ApiSnapshot) (proxies : list Gloo.Proxy) : res (list GlooValidationReport) :=
  match proxies with
  | [] => Ok []
  | p :: proxies => res_bind (validate_one snapshot p) (λ r, res_bind (validate_all snapshot proxies) (λ rs, Ok (r :: rs)))
  end.
(** The proxy, or all those of the snapshot. *)
Definition glooValidator_Validate (proxy : option Gloo.Proxy) (snapshot : ApiSnapshot) : res (list GlooValidationReport) :=
  validate_all snapshot (match proxy with Some p => [p] | None => map as_proxy (Proxies snapshot) end).

(** ** The service *)
(** Whether the resources that can change a validation did: those but the endpoints. *)
Definition shouldNotify `{!ValidatorLibs} (latest : option ApiSnapshot) (snap : ApiSnapshot) : bool :=
  let hashFunc s := HashAllSafe (Upstreams s ++ UpstreamGroups s ++ Secrets s ++ AuthConfigs s ++ Ratelimitconfigs s ++ Proxies s) in
  match latest with
  | None => true
  | Some latest => match hashFunc latest, hashFunc snap with Some oldHash, Some newHash => negb (N.eqb oldHash newHash) | _, _ => true end
  end.
(** The snapshot is replaced; whether the subscribers are notified. *)
Definition validator_Sync `{!ValidatorLibs} (latest : option ApiSnapshot) (snap : ApiSnapshot) : option ApiSnapshot * bool := (Some snap, shouldNotify latest snap).
Definition SyncNotCalledError : VError := new "proxy validation called before the validation server received its first sync of resources".
Definition UpstreamNamePrefix : string := "kube-svc:".
Definition kube_ref (ref : NamespacedName) : NamespacedName := {| nn_ns := nn_ns ref; nn_name := UpstreamNamePrefix +:+ nn_name ref |}.
(** The in-memory upstream of the service behind an upstream. *)
Definition kubeSvcUs (r : Resource) : Resource :=
  {| rs_meta := {| md_ref := kube_ref (rs_ref r); md_annotations := ∅ |}; rs_content := Upstream false "" |}.
Definition modified (resource : Resource) (shouldDelete : bool) (snapshot : ApiSnapshot) : string + ApiSnapshot :=
  if shouldDelete then
    match RemoveFromResourceList resource snapshot with
    | inl e => inl e
    | inr snapshot => match rs_content resource with Upstream true _ => RemoveFromResourceList (kubeSvcUs resource) snapshot | _ => inr snapshot end
    end
  else UpsertToResourceList resource snapshot.
Definition ValidateGloo (latest : option ApiSnapshot) (proxy : option Gloo.Proxy) (resource : option Resource) (shouldDelete : bool) :
    res (VError + list GlooValidationReport) :=
  match latest with
  | None => Ok (inl SyncNotCalledError)
  | Some snapshot =>
      match (match resource with Some r => modified r shouldDelete snapshot | None => inr snapshot end) with
      | inl e => Ok (inl (new e))
      | inr snapshot => res_bind (glooValidator_Validate proxy snapshot) (λ reports, Ok (inr reports))
      end
  end.

(** ** Requests over gRPC *)
Definition by_id (l : list Resource) (m : gmap string Resource) : gmap string Resource := foldl (λ m r, <[Key (rs_ref r) := r]> m) m l.
Definition MergeResourceLists (existing modified : list Resource) : list Resource := Sort (map snd (go_range (by_id modified (by_id existing ∅)))).
Definition DeleteResources (existing : list Resource) (refs : list NamespacedName) : list Resource :=
  Sort (List.filter (λ r, negb (existsb (λ ref, bool_decide (Key ref = Key (rs_ref r))) refs)) existing).
Inductive GlooValidationServiceRequest :=
| ModifiedResources (upstreams : list Resource)
| DeletedResources (upstreamRefs secretRefs : list NamespacedName)
| NoResources.
Definition applyRequestToSnapshot (req : GlooValidationServiceRequest) (s : ApiSnapshot) : ApiSnapshot :=
  match req with
  | ModifiedResources us => set_items KUpstream (MergeResourceLists (Upstreams s) us) s
  | DeletedResources us secrets =>
      set_items KSecret (DeleteResources (Secrets s) secrets) (set_items KUpstream (DeleteResources (Upstreams s) (us ++ map kube_ref us)) s)
  | NoResources => s
  end.
Record UpstreamReport := { ur_ref : NamespacedName; ur_warnings : list string; ur_errors : list string }.
Definition getErrors (r : ResourceReport) : list string := map Error (errors_of r).
Definition convertToValidationReport `{!GoRange (string * NamespacedName)} (r : GlooValidationReport) : ProxyReport * list UpstreamReport :=
  (gr_proxyReport r, flat_map (λ '(k, r), if bool_decide (k.1 = "*v1.Upstream")
    then [{| ur_ref := k.2; ur_warnings := rp_warnings r; ur_errors := getErrors r |}] else []) (go_range (gr_resourceReports r))).
Definition validator_Validate `{!GoRange (string * NamespacedName)} (latest : option ApiSnapshot) (proxy : option Gloo.Proxy)
    (req : GlooValidationServiceRequest) : res (VError + list (ProxyReport * list UpstreamReport)) :=
  match latest with
  | None => Ok (inl SyncNotCalledError)
  | Some snapshot =>
      res_bind (glooValidator_Validate proxy (applyRequestToSnapshot req snapshot)) (λ reports, Ok (inr (map convertToValidationReport reports)))
  end.
End Validate.
End GlooValidation.
