(* ===== verification/GatewayValidationFacts.v ===== *)
(** * What the validator of the gateway accepts

    A change is accepted exactly when the snapshot it gives is clean - every proxy renders,
    gloo accepts it, and the extensions do - or when it deletes a secret and changes nothing
    in the output of the validation. *)

From stdpp Require Import base gmap strings list fin_maps.
From Stdlib Require Import ZArith.
From S2P Require Import Prelude GoLib GwApi EdgeApi ProxyReports ResourceReports GlooProxy ApiSnapshot GatewayValidation.
Import Validation Snapshot GwValidation.

(** ** Gateways by proxy *)
(** The gateways of a proxy, in order; one that names it twice is there twice. *)
Definition gateways_of (name : string) (l : list Resource) : list Resource :=
  flat_map (λ g, map (λ _, g) (List.filter (λ n, bool_decide (n = name)) (GetProxyNamesForGateway g))) l.
Lemma insert_names (g : Resource) (names : list string) name : ∀ m : gmap string (list Resource),
  foldl (λ result n, <[n := default [] (result !! n) ++ [g]]> result) m names !! name =
  match map (λ _, g) (List.filter (λ n, bool_decide (n = name)) names) with [] => m !! name | l => Some (default [] (m !! name) ++ l) end.
Proof.
  induction names as [|n names IH]; intros m; [done|]. cbn. rewrite IH. case_bool_decide as Hn; [subst n; rewrite lookup_insert_eq|by rewrite lookup_insert_ne].
  cbn. destruct (map _ _); [done|]. cbn. by rewrite <-(assoc_L (++)).
Qed.
Lemma GatewaysByProxyName_lookup l name :
  GatewaysByProxyName l !! name = match gateways_of name l with [] => None | gws => Some gws end.
Proof.
  unfold GatewaysByProxyName, gateways_of. induction l as [|g l IH] using rev_ind; [done|]. rewrite foldl_app. cbn.
  rewrite insert_names, IH, flat_map_app. cbn. rewrite app_nil_r. generalize (map (λ _ : string, g) (List.filter (λ n, bool_decide (n = name)) (GetProxyNamesForGateway g))).
  intros l'. destruct l' as [|x l']; [by rewrite app_nil_r|]. destruct (flat_map _ l) as [|y l'']; done.
Qed.

Section Facts.
Context `{ValidatorLibsLaws, SoloKit, !Translators, !GoRange string}.
Context (cfg : Config) (glooValidator : GlooValidatorFunc).

(** ** Errors *)
Lemma append_none errs e : append errs e = None ↔ errs = None ∧ e = None.
Proof. destruct e; cbn; naive_solver. Qed.
Lemma append_warnings_none errs ws : append_warnings errs ws = None ↔ errs = None ∧ ws = [].
Proof.
  unfold append_warnings. revert errs. induction ws as [|w ws IH]; intros errs; cbn; [naive_solver|]. rewrite IH. naive_solver.
Qed.
Lemma fmap_none {A B} (f : A → B) o : f <$> o = None ↔ o = None.
Proof. by destruct o. Qed.
Lemma GetProxyError_none report : GetProxyError report = None ↔ proxy_errors report = [].
Proof.
  unfold GetProxyError. generalize (proxy_errors report). intros l. assert (∀ o, foldl (λ combined e, Some (multierr_Append combined e)) o l = None ↔ o = None ∧ l = []) as Hl.
  { induction l as [|e l IH]; intros o; cbn; [naive_solver|]. rewrite IH. naive_solver. }
  rewrite Hl. naive_solver.
Qed.

(** Reports pass when they have no errors, nor warnings unless these are allowed. *)
Definition reports_pass (m : ResourceReports) : Prop :=
  map_Forall (λ _ r, rp_errors r = None ∧ (allowWarnings cfg = false → rp_warnings r = [])) m.
Lemma getErrors_none m : getErrorsFromResourceReports cfg m = None ↔ reports_pass m.
Proof.
  unfold getErrorsFromResourceReports, reports_pass. rewrite fmap_none. destruct (allowWarnings cfg); [rewrite Validate_none|rewrite ValidateStrict_none];
    (split; intros Hm k r Hk; specialize (Hm k r Hk); naive_solver).
Qed.

(** ** Rendering *)
Definition renders (s : ApiSnapshot) (g : string * list Resource) : Prop := reports_pass (Translate g.1 s g.2).2.
Definition rendered (s : ApiSnapshot) (g : string * list Resource) : option Gloo.Proxy := (Translate g.1 s g.2).1.
Lemma option_list_app {A B} (f : A → option B) x l : option_list (f x) ++ omap f l = omap f (x :: l).
Proof. cbn. by destruct (f x). Qed.
Lemma translate_fold s collect gs : ∀ ps errs, let out := foldl (translate_proxy cfg s collect) (ps, errs) gs in
  (out.2 = None ↔ errs = None ∧ Forall (renders s) gs) ∧ (collect = true ∨ out.2 = None → out.1 = ps ++ omap (rendered s) gs).
Proof.
  induction gs as [|g gs IH]; intros ps errs; cbn zeta; [cbn; rewrite app_nil_r; split; [naive_solver|done]|]. cbn [foldl].
  assert (∃ ps', translate_proxy cfg s collect (ps, errs) g =
    (ps', append errs ((λ e, Wrapped e "could not render proxy") <$> getErrorsFromResourceReports cfg (Translate g.1 s g.2).2)) ∧
    (collect = true ∨ renders s g → ps' = ps ++ option_list (rendered s g))) as (ps' & -> & Hps').
  { unfold translate_proxy, renders, rendered. destruct (Translate g.1 s g.2) as [p m]. cbn. pose proof (getErrors_none m) as Hm.
    destruct (getErrorsFromResourceReports cfg m); cbn; [destruct collect|]; (eexists; split; [done|]); naive_solver. }
  destruct (IH ps' (append errs ((λ e, Wrapped e "could not render proxy") <$> getErrorsFromResourceReports cfg (Translate g.1 s g.2).2))) as [Hn Hp].
  assert ((foldl (translate_proxy cfg s collect) (ps', append errs ((λ e, Wrapped e "could not render proxy") <$> getErrorsFromResourceReports cfg (Translate g.1 s g.2).2)) gs).2 = None ↔
    errs = None ∧ Forall (renders s) (g :: gs)) as Hall.
  { rewrite Hn, append_none, fmap_none, getErrors_none, Forall_cons. unfold renders. tauto. }
  split; [exact Hall|]. intros Hor. rewrite Hp by done. rewrite Hps', <-(assoc_L (++)), option_list_app; [done|].
  destruct Hor as [|[_ [Hg _]%Forall_cons]%Hall]; [by left|by right].
Qed.
Lemma SortedGatewaysByProxyName_elem l g : g ∈ SortedGatewaysByProxyName l ↔ GatewaysByProxyName l !! g.1 = Some g.2.
Proof. unfold SortedGatewaysByProxyName. rewrite sort_stable_perm. destruct g as [n gws]. by rewrite go_range_elem. Qed.

(** ** Gloo *)
Section Options.
Context (opts : validationOptions).
Definition to_gloo (p : Gloo.Proxy) : VError + list GlooValidationReport :=
  glooValidator p (if validateUnmodified opts then None else Some (op_Resource opts)) (op_Delete opts).
(** Gloo gives one report on the proxy, without errors. *)
Definition gloo_accepts (p : Gloo.Proxy) : Prop := ∃ report, to_gloo p = inr [report] ∧
  proxy_errors (gr_proxyReport report) = [] ∧ (allowWarnings cfg = false → GetProxyWarning (gr_proxyReport report) = []) ∧ reports_pass (gr_resourceReports report).
(** For policies, one report whose errors on the proxy are none. *)
Definition policy_accepted (p : Gloo.Proxy) : Prop := ∃ report, to_gloo p = inr [report] ∧
  rp_errors (report_of ("*v1.Proxy", Gloo.px_ref p) (gr_resourceReports report)) = None.
Definition gloo_broken (p : Gloo.Proxy) : Prop := ∀ report, to_gloo p ≠ inr [report].

Lemma proxy_warnings_none report : proxy_warnings cfg report = [] ↔ (allowWarnings cfg = false → GetProxyWarning report = []).
Proof. unfold proxy_warnings. destruct (allowWarnings cfg); naive_solver. Qed.
Lemma getErrorsFromGlooValidation_none report : getErrorsFromGlooValidation cfg [report] = None ↔
  reports_pass (gr_resourceReports report) ∧ proxy_errors (gr_proxyReport report) = [] ∧ proxy_warnings cfg (gr_proxyReport report) = [].
Proof. unfold getErrorsFromGlooValidation. cbn. rewrite append_warnings_none, !append_none, fmap_none, getErrors_none, GetProxyError_none. tauto. Qed.
Lemma appendProxyErrors_none errs report p collect : (appendProxyErrors cfg errs report p collect).1 = None ↔
  errs = None ∧ proxy_errors report = [] ∧ proxy_warnings cfg report = [].
Proof.
  unfold appendProxyErrors. rewrite <-GetProxyError_none. destruct (GetProxyError report) as [e|]; [destruct collect|]; cbn -[append_warnings]; destruct (proxy_warnings cfg report) as [|w ws] eqn:Ew;
    cbn -[append_warnings]; rewrite ?append_warnings_none; intuition congruence.
Qed.
Lemma appendProxyErrors_stop errs report p collect : (appendProxyErrors cfg errs report p collect).2 = true → (appendProxyErrors cfg errs report p collect).1 ≠ None.
Proof.
  unfold appendProxyErrors. destruct (GetProxyError report) as [e|]; [destruct collect|]; cbn -[append_warnings]; destruct (proxy_warnings cfg report) as [|w ws] eqn:Ew;
    cbn -[append_warnings]; rewrite ?append_warnings_none; intuition congruence.
Qed.
Lemma GetSimple_none report p : GetSimpleErrorFromGlooValidation [report] p = None ↔
  rp_errors (report_of ("*v1.Proxy", Gloo.px_ref p) (gr_resourceReports report)) = None.
Proof. cbn. destruct (rp_errors _) as [[]|]; naive_solver. Qed.
Lemma validate_proxy_none rs errs p : (validate_proxy cfg glooValidator opts (rs, errs) p).2 = None ↔
  errs = None ∧ if isK8sGatewayProxy (op_Resource opts) then policy_accepted p else gloo_accepts p.
Proof.
  unfold validate_proxy, policy_accepted, gloo_accepts. fold (to_gloo p). destruct (to_gloo p) as [e|[|report [|r' rest]]]; cbn [snd];
    [by destruct (isK8sGatewayProxy _); (split; [done|]); intros (_ & ? & ? & _)..| |by destruct (isK8sGatewayProxy _); (split; [done|]); intros (_ & ? & ? & _)].
  destruct (isK8sGatewayProxy _); [cbn [snd]; rewrite append_none, GetSimple_none; split; [by intros [-> ?]; eauto|by intros (-> & r & [= <-] & ?)]|].
  pose proof (appendProxyErrors_none errs (gr_proxyReport report) p (collectAllErrors opts)) as Hn.
  pose proof (appendProxyErrors_stop errs (gr_proxyReport report) p (collectAllErrors opts)) as Hs.
  rewrite proxy_warnings_none in Hn. destruct (appendProxyErrors _ _ _ _ _) as [errs' stop]. cbn [fst snd] in *.
  destruct stop; cbn [snd].
  - split; [by intros He; destruct (Hs eq_refl)|]. intros (-> & r & [= <-] & Ha & Hb & _). by apply Hn.
  - rewrite append_none, fmap_none, getErrorsFromGlooValidation_none, proxy_warnings_none, Hn. split; [intros ((-> & Ha & Hb) & Hr & _); eauto 6|].
    by intros (-> & r & [= <-] & Ha & Hb & Hr).
Qed.
Lemma validate_fold ps : ∀ rs errs, (foldl (validate_proxy cfg glooValidator opts) (rs, errs) ps).2 = None ↔
  errs = None ∧ Forall (λ p, if isK8sGatewayProxy (op_Resource opts) then policy_accepted p else gloo_accepts p) ps.
Proof.
  induction ps as [|p ps IH]; intros rs errs; [cbn; naive_solver|]. cbn [foldl]. pose proof (validate_proxy_none rs errs p) as Hp.
  destruct (validate_proxy _ _ _ _ _) as [rs' errs']. cbn [snd] in Hp. rewrite IH, Hp, Forall_cons. tauto.
Qed.
End Options.

(** ** Breaking errors *)
Definition is_length (e : VError) : bool := match e with GlooValidationResponseLengthError _ => true | _ => false end.
Definition is_sync (e : VError) : bool := match e with SyncNotYetRunError _ => true | _ => false end.
Definition breaking (e : VError) : bool := in_chain is_length e || in_chain is_sync e.
Lemma findBreakingErrors_chain errs : findBreakingErrors errs = from_option breaking false errs.
Proof. destruct errs; [|done]. cbn. by rewrite !As_chain. Qed.
Lemma in_chain_members p e : (∀ l, p (Multi l) = false) → existsb (in_chain p) (members e) = in_chain p e.
Proof. intros Hp. destruct e; cbn; rewrite ?Hp, ?orb_false_r; done. Qed.
Lemma breaking_Append errs e : breaking (multierror_Append errs e) = from_option breaking false errs || breaking e.
Proof.
  rewrite Append_multi. unfold breaking. cbn. rewrite !existsb_app, !(in_chain_members _ e) by done.
  destruct errs as [e'|]; cbn; [rewrite !(in_chain_members _ e') by done|]; repeat destruct (in_chain _ _); done.
Qed.
Lemma breaking_append errs e : from_option breaking false (append errs e) = from_option breaking false errs || from_option breaking false e.
Proof. destruct e; cbn; [apply breaking_Append|by rewrite orb_false_r]. Qed.
Lemma breaking_sync e : breaking (SyncNotYetRunError e) = true.
Proof. unfold breaking. cbn. apply orb_true_r. Qed.
Lemma breaking_append_warnings errs ws : from_option breaking false (append_warnings errs ws) = from_option breaking false errs.
Proof. unfold append_warnings. revert errs. induction ws as [|w ws IH]; intros errs; [done|]. cbn. rewrite IH. cbn. rewrite breaking_Append. apply orb_false_r. Qed.
Lemma breaking_reports msg m : from_option breaking false ((λ e, Wrapped e msg) <$> getErrorsFromResourceReports cfg m) = false.
Proof. unfold getErrorsFromResourceReports. by destruct (if allowWarnings cfg then _ else _). Qed.
Lemma breaking_gloo reports : from_option breaking false (getErrorsFromGlooValidation cfg reports) = false.
Proof.
  unfold getErrorsFromGlooValidation. generalize (eq_refl : from_option breaking false (@None VError) = false). generalize (@None VError).
  induction reports as [|r rs IH]; intros errs He; [done|]. cbn. apply IH. rewrite breaking_append_warnings, !breaking_append, He.
  unfold getErrorsFromResourceReports. destruct (if allowWarnings cfg then _ else _); by destruct (GetProxyError _).
Qed.
Lemma breaking_proxy errs report p collect : from_option breaking false (appendProxyErrors cfg errs report p collect).1 = from_option breaking false errs.
Proof.
  unfold appendProxyErrors. destruct (GetProxyError report) as [e|]; [destruct collect|]; cbn -[append_warnings]; destruct (proxy_warnings cfg report) as [|w ws];
    cbn -[append_warnings]; rewrite ?breaking_append_warnings; cbn; rewrite ?breaking_Append, ?orb_false_r; done.
Qed.
Lemma breaking_simple reports p : from_option breaking false (GetSimpleErrorFromGlooValidation reports p) = false.
Proof.
  induction reports as [|r rs IH]; [done|]. cbn. destruct (rp_errors _) as [[es|e]|]; [|done..]. unfold breaking. cbn.
  induction es as [|e es IHes]; [done|]. cbn. apply IHes.
Qed.
Lemma breaking_translate s collect gs : ∀ ps errs,
  from_option breaking false (foldl (translate_proxy cfg s collect) (ps, errs) gs).2 = from_option breaking false errs.
Proof.
  induction gs as [|g gs IH]; intros ps errs; [done|]. cbn [foldl]. unfold translate_proxy at 2. destruct (Translate g.1 s g.2) as [p m].
  pose proof (breaking_append errs ((λ e, Wrapped e "could not render proxy") <$> getErrorsFromResourceReports cfg m)) as Hb.
  rewrite breaking_reports, orb_false_r in Hb. destruct (getErrorsFromResourceReports cfg m); [destruct collect|]; cbn [fmap option_fmap option_map] in *; by rewrite IH.
Qed.
Lemma breaking_validate opts ps : ∀ rs errs, from_option breaking false (foldl (validate_proxy cfg glooValidator opts) (rs, errs) ps).2 = true ↔
  from_option breaking false errs = true ∨ Exists (gloo_broken opts) ps.
Proof.
  induction ps as [|p ps IH]; intros rs errs; [cbn; rewrite Exists_nil; tauto|]. cbn [foldl]. rewrite Exists_cons.
  assert (from_option breaking false (validate_proxy cfg glooValidator opts (rs, errs) p).2 = true ↔ from_option breaking false errs = true ∨ gloo_broken opts p) as Hp.
  { unfold validate_proxy, gloo_broken. fold (to_gloo opts p). destruct (to_gloo opts p) as [e|[|report [|r' rest]]]; cbn [snd];
      [rewrite breaking_append; cbn [from_option id]; rewrite ?breaking_sync, orb_true_r; split; [intros _; right; by intros ? [=]|done]..| |
       rewrite breaking_append, orb_true_r; split; [intros _; right; by intros ? [=]|done]].
    assert (∀ b, b = true ↔ b = true ∨ ∀ r, (inr [report] : VError + list GlooValidationReport) ≠ inr [r]) as Hb.
    { intros b. split; [by left|]. intros [?|Hr]; [done|]. by destruct (Hr report). }
    destruct (isK8sGatewayProxy _); [cbn [snd]; rewrite breaking_append, breaking_simple, orb_false_r; apply Hb|].
    pose proof (breaking_proxy errs (gr_proxyReport report) p (collectAllErrors opts)) as He. destruct (appendProxyErrors _ _ _ _ _) as [errs' stop].
    cbn [fst] in He. destruct stop; cbn [snd]; [rewrite He; apply Hb|]. rewrite breaking_append, He.
    pose proof (breaking_gloo [report]) as Hg. destruct (getErrorsFromGlooValidation cfg [report]); cbn in *; [unfold breaking in *; cbn; rewrite Hg|]; rewrite orb_false_r; apply Hb. }
  destruct (validate_proxy _ _ _ _ _) as [rs' errs']. cbn [snd] in Hp. rewrite IH, Hp. tauto.
Qed.

(** ** Clean snapshots *)
Definition extensions_pass (s : ApiSnapshot) : Prop := reports_pass (extensionValidator_Validate s).
Definition with_fake (s : ApiSnapshot) : ApiSnapshot := match UpsertToResourceList fake_upstream s with inr s => s | inl _ => s end.
(** The changed snapshot translates: the policy on its proxy; otherwise every proxy renders
    and is accepted by gloo. The extensions accept it as well. *)
Definition clean (opts : validationOptions) (s : ApiSnapshot) : Prop :=
  if isK8sGatewayProxy (op_Resource opts) then policy_accepted opts (policy_proxy (op_Resource opts)) ∧ extensions_pass (with_fake s)
  else (∀ name gws, GatewaysByProxyName (Gateways s) !! name = Some gws →
         renders s (name, gws) ∧ ∀ p, rendered s (name, gws) = Some p → gloo_accepts opts p) ∧ extensions_pass s.
Definition output (opts : validationOptions) (s : ApiSnapshot) : validationOutput := validateProxiesAndExtensions cfg glooValidator s opts.

Lemma extensions_none s errs : (if bool_decide (extensionValidator_Validate s = ∅) then errs
    else append errs ((λ e, Wrapped e "failed extension resource reports") <$> getErrorsFromResourceReports cfg (extensionValidator_Validate s))) = None ↔
  errs = None ∧ extensions_pass s.
Proof.
  unfold extensions_pass. case_bool_decide as He; [|by rewrite append_none, fmap_none, getErrors_none]. rewrite He. split; [|tauto].
  intros ->. split; [done|]. apply map_Forall_empty.
Qed.
Lemma output_none opts s : vo_err (output opts s) = None ↔ clean opts s.
Proof.
  unfold output, validateProxiesAndExtensions, clean. destruct (isK8sGatewayProxy (op_Resource opts)) eqn:Ek.
  - unfold TranslateK8sGatewayProxies. fold (with_fake s). pose proof (validate_fold opts [policy_proxy (op_Resource opts)] [] None) as Hf.
    destruct (foldl _ _ _) as [rs errs]. cbn [vo_err snd] in *. rewrite extensions_none, Hf, Ek, Forall_singleton. tauto.
  - destruct (translate_fold s (collectAllErrors opts) (SortedGatewaysByProxyName (Gateways s)) [] None) as [Hn Hp]. unfold translateGlooEdgeProxies.
    destruct (foldl (translate_proxy _ _ _) _ _) as [ps errs]. cbn [fst snd] in *. pose proof (validate_fold opts ps [] errs) as Hf.
    destruct (foldl (validate_proxy _ _ _) _ _) as [rs errs']. cbn [vo_err snd] in *. rewrite extensions_none, Hf, Ek. clear Hf.
    enough (errs = None ∧ Forall (gloo_accepts opts) ps ↔ ∀ name gws, GatewaysByProxyName (Gateways s) !! name = Some gws →
         renders s (name, gws) ∧ ∀ p, rendered s (name, gws) = Some p → gloo_accepts opts p) by tauto. rewrite Hn. split.
    + intros [[Hnone Hr] Hg] name gws Hl. pose proof (proj2 Hn (conj Hnone Hr)) as Herrs. rewrite Forall_forall in Hr. rewrite Forall_forall in Hg. assert ((name, gws) ∈ SortedGatewaysByProxyName (Gateways s)) as Hin by (by apply SortedGatewaysByProxyName_elem).
      split; [by apply Hr|]. intros p Hrp. apply Hg. rewrite Hp by (by right). apply list_elem_of_omap. eauto.
    + intros Hall. assert (Forall (renders s) (SortedGatewaysByProxyName (Gateways s))) as Hr.
      { apply Forall_forall. intros [name gws] Hin%SortedGatewaysByProxyName_elem. by apply Hall. }
      split; [done|]. rewrite Hp by (right; by apply Hn). apply Forall_forall. intros p ([name gws] & Hin%SortedGatewaysByProxyName_elem & Hrp)%list_elem_of_omap.
      by apply (Hall name gws).
Qed.
(** Some call of gloo did not give one report, exactly when the errors are breaking. *)
Lemma output_breaking opts s : findBreakingErrors (vo_err (output opts s)) = true ↔ Exists (gloo_broken opts) (vo_proxies (output opts s)).
Proof.
  rewrite findBreakingErrors_chain. unfold output, validateProxiesAndExtensions.
  assert (∀ s errs, from_option breaking false (if bool_decide (extensionValidator_Validate s = ∅) then errs
    else append errs ((λ e, Wrapped e "failed extension resource reports") <$> getErrorsFromResourceReports cfg (extensionValidator_Validate s))) = from_option breaking false errs) as Hext.
  { intros s' errs. case_bool_decide; [done|]. by rewrite breaking_append, breaking_reports, orb_false_r. }
  destruct (isK8sGatewayProxy (op_Resource opts)).
  - unfold TranslateK8sGatewayProxies. pose proof (breaking_validate opts [policy_proxy (op_Resource opts)] [] None) as Hf.
    destruct (foldl _ _ _) as [rs errs]. cbn [vo_err vo_proxies snd] in *. rewrite Hext, Hf. cbn. naive_solver.
  - pose proof (breaking_translate s (collectAllErrors opts) (SortedGatewaysByProxyName (Gateways s)) [] None) as Ht. unfold translateGlooEdgeProxies.
    destruct (foldl (translate_proxy _ _ _) _ _) as [ps errs]. cbn [snd] in *. pose proof (breaking_validate opts ps [] errs) as Hf.
    destruct (foldl (validate_proxy _ _ _) _ _) as [rs errs']. cbn [vo_err vo_proxies snd] in *. rewrite Hext, Hf, Ht. cbn. naive_solver.
Qed.

(** ** Comparing outputs *)
Lemma same_lists_map {A B} (f : A → B) (same : A → A → bool) l1 l2 : (∀ x y, same x y = true ↔ f x = f y) →
  same_lists same l1 l2 = true ↔ map f l1 = map f l2.
Proof.
  intros Hs. unfold same_lists. rewrite andb_true_iff, Nat.eqb_eq. revert l2. induction l1 as [|x l1 IH]; intros [|y l2]; cbn; [split; [intros [Hl _]; by inversion Hl|by intros [=]]..|].
  rewrite andb_true_iff, Hs. specialize (IH l2). split; [intros (Hl & Hx & Hf); f_equal; [done|]; apply IH; auto|].
  intros [= Hx Hm]. apply IH in Hm as [Hl Hf]. auto.
Qed.
(** What is compared of reports when warnings are allowed. *)
Definition report_texts (r : ProxyReport) : list (nat * list string) := map (λ l, (listener_type l, map Error (GetListenerError l))) (pr_listenerReports r).
Definition same_output (a b : validationOutput) : Prop :=
  VError_Error <$> vo_err a = VError_Error <$> vo_err b ∧ map MustHash (vo_proxies a) = map MustHash (vo_proxies b) ∧
  if allowWarnings cfg then map report_texts (vo_proxyReports a) = map report_texts (vo_proxyReports b)
  else DeepEqual (vo_proxyReports a) (vo_proxyReports b) = true.
Lemma compareValidationOutputs_true a b : compareValidationOutputs cfg a b = true ↔ same_output a b.
Proof.
  unfold compareValidationOutputs, same_output. rewrite !andb_true_iff.
  assert (compareErrors (vo_err a) (vo_err b) = true ↔ VError_Error <$> vo_err a = VError_Error <$> vo_err b) as ->.
  { destruct (vo_err a), (vo_err b); cbn; [rewrite bool_decide_eq_true|..]; (split; [intros Hx; by try rewrite Hx|by intros [=]]). }
  assert (compareProxies (vo_proxies a) (vo_proxies b) = true ↔ map MustHash (vo_proxies a) = map MustHash (vo_proxies b)) as ->.
  { apply same_lists_map. intros x y. apply N.eqb_eq. }
  enough (compareReports cfg (vo_proxyReports a) (vo_proxyReports b) = true ↔ if allowWarnings cfg
    then map report_texts (vo_proxyReports a) = map report_texts (vo_proxyReports b) else DeepEqual (vo_proxyReports a) (vo_proxyReports b) = true) by tauto.
  unfold compareReports. destruct (allowWarnings cfg); [|done]. cbn [negb]. apply same_lists_map. intros x y. apply same_lists_map.
  intros l1 l2. unfold same_listener. rewrite andb_true_iff, Nat.eqb_eq, (same_lists_map Error) by (intros; apply bool_decide_eq_true).
  split; [by intros [-> ->]|by intros [= -> ->]].
Qed.

(** ** The verdict *)
Definition all_errors (opts : validationOptions) : validationOptions := with_flags (validateUnmodified opts) true opts.
(** A change that is not clean is tolerated when it deletes a secret, gloo gave a report on
    every proxy, and the output is the one of the unmodified snapshot. *)
Definition tolerated (opts : validationOptions) (s s' : ApiSnapshot) : Prop :=
  shouldValidateAgainstPreviousState cfg opts = true ∧ Forall (λ p, ¬ gloo_broken opts p) (vo_proxies (output (all_errors opts) s')) ∧
  same_output (output (all_errors opts) s') (output (with_flags true true opts) s).
Definition set_metric (ok : bool) (v : Validator) : Validator :=
  {| latestSnapshot := latestSnapshot v; latestSnapshotErr := latestSnapshotErr v; mValidConfig := Some ok |}.
Definition validation_verdict (opts : validationOptions) (v : Validator) (out : option Reports * option VError) (v' : Validator) : Prop :=
  match latestSnapshot v, latestSnapshotErr v with
  | None, _ => out = (None, Some NotReadyErr) ∧ v' = v
  | Some _, Some _ => out = (None, None) ∧ v' = (if op_DryRun opts then v else set_metric false v)
  | Some s, None =>
      match change opts s with
      | inl e => out = (None, Some (new e)) ∧ v' = v
      | inr s' =>
          let a := output (with_flags (validateUnmodified opts) (shouldValidateAgainstPreviousState cfg opts) opts) s' in
          (out.2 = None ↔ clean opts s' ∨ tolerated opts s s') ∧
          out.1 = Some {| rp_Proxies := vo_proxies a; rp_ProxyReports := vo_proxyReports a |} ∧
          v' = (if op_DryRun opts then v else {| latestSnapshot := Some (if out.2 is None then s' else s); latestSnapshotErr := None;
                                                 mValidConfig := Some (bool_decide (¬ is_Some (vo_err a))) |})
      end
  end.

Lemma copy_ok dryRun v s : latestSnapshot v = Some s → latestSnapshotErr v = None → copySnapshotNonThreadSafe dryRun v = Ok (inr s, v).
Proof. intros Hs He. unfold copySnapshotNonThreadSafe, bind, gets. cbn [id]. by rewrite Hs, He. Qed.
Lemma copy_broken dryRun v s e : latestSnapshot v = Some s → latestSnapshotErr v = Some e →
  copySnapshotNonThreadSafe dryRun v = Ok (inl (new InvalidSnapshotErrMessage), if dryRun then v else set_metric false v).
Proof. intros Hs He. unfold copySnapshotNonThreadSafe, bind, gets. cbn [id]. rewrite Hs, He. by destruct dryRun. Qed.
Lemma against_current opts a v s : latestSnapshot v = Some s → latestSnapshotErr v = None →
  ∃ b, validateAgainstCurrentSnapshot cfg glooValidator opts a v = Ok (b, v) ∧
  (b = true ↔ findBreakingErrors (vo_err a) = false ∧ same_output a (output (with_flags true (collectAllErrors opts) opts) s)).
Proof.
  intros Hs He. unfold validateAgainstCurrentSnapshot. destruct (findBreakingErrors (vo_err a)); [exists false; split; [done|]; split; [done|by intros [[=] _]]|].
  unfold bind. rewrite (copy_ok _ _ _ Hs He). cbn. eexists. split; [done|]. rewrite compareValidationOutputs_true. unfold output. tauto.
Qed.
Lemma validated opts v : wp (validateSnapshot cfg glooValidator opts) (validation_verdict opts v) v.
Proof.
  unfold wp, validateSnapshot, validation_verdict, bind, gets. destruct (latestSnapshot v) as [s|] eqn:Hs; [|done].
  rewrite bool_decide_eq_true_2 by done. cbn [negb id]. destruct (latestSnapshotErr v) as [e|] eqn:He; [by rewrite (copy_broken _ _ _ _ Hs He)|].
  rewrite (copy_ok _ _ _ Hs He).
  destruct (change opts s) as [e|s'] eqn:Hc; [done|]. set (retry := shouldValidateAgainstPreviousState cfg opts).
  set (opts' := with_flags (validateUnmodified opts) retry opts). fold (output opts' s'). set (a := output opts' s').
  assert (vo_err a = None ↔ clean opts s') as Hn by (apply (output_none opts')).
  assert (∃ passed, (match vo_err a with Some _ => if retry then validateAgainstCurrentSnapshot cfg glooValidator opts' a else ret false | None => ret false end) v = Ok (passed, v) ∧
    (passed = true → vo_err a ≠ None) ∧ (vo_err a ≠ None → (passed = true ↔ tolerated opts s s'))) as (passed & -> & Hpass & Htol).
  { destruct (vo_err a) as [e|] eqn:Ea; [|by exists false]. unfold tolerated. fold retry. subst opts' a. destruct retry eqn:Er; [|exists false; split; [done|]; split; [done|]; intros _; split; [done|by intros [[=] _]]].
    destruct (against_current (with_flags (validateUnmodified opts) true opts) (output (all_errors opts) s') v s Hs He) as (b & Hb & Hiff).
    exists b. split; [exact Hb|]. split; [done|]. intros _. rewrite Hiff. pose proof (output_breaking (all_errors opts) s') as Hbr. rewrite Forall_Exists_neg.
    change (gloo_broken (all_errors opts)) with (gloo_broken opts) in Hbr. rewrite <-Hbr, not_true_iff_false. tauto. }
  assert (change opts' s = inr s') as Hc' by exact Hc. change (op_DryRun opts') with (op_DryRun opts).
  destruct (vo_err a) as [e|] eqn:Ea.
  - assert (¬ clean opts s') as Hnc by (rewrite <-Hn; done). specialize (Htol ltac:(done)).
    destruct passed; destruct (op_DryRun opts); unfold measure, modify, ret; cbn [latestSnapshot latestSnapshotErr mValidConfig snd]; rewrite ?Hs, ?Hc', ?He.
    all: split_and!; try done; cbn [snd]; try tauto.
    all: split; [done|]; intros [?|?%Htol]; [done|congruence].
  - assert (passed = false) as -> by (destruct passed; [by destruct (Hpass eq_refl)|done]). assert (clean opts s') as Hcl by (by apply Hn).
    destruct (op_DryRun opts); unfold measure, modify, ret; cbn [latestSnapshot latestSnapshotErr mValidConfig]; rewrite ?Hs, ?Hc'.
    all: split_and!; try done; cbn [snd latestSnapshotErr mValidConfig]; rewrite ?He; try done; tauto.
Qed.

(** C4. Validating a change returns, with the verdict: without a snapshot an error; with a
    broken one acceptance, unvalidated; otherwise the change is accepted exactly when it
    leaves a clean snapshot or deletes a secret without changing the output of the
    validation. Only an accepted change outside a dry run is applied, and a dry run leaves
    the state as it is. *)
Theorem validateSnapshot_exact opts v : wp (validateSnapshot cfg glooValidator opts) (validation_verdict opts v) v.
Proof. apply validated. Qed.
End Facts.
