(* ===== verification/ValidatorRunsFacts.v ===== *)
(** * Runs of the validator of the gateway

    Lists of resources, validated one against another; and the snapshots a validator holds
    after any sequence of syncs and validations. *)

From stdpp Require Import base gmap strings list fin_maps.
From Stdlib Require Import ZArith.
From S2P Require Import Prelude GoLib GwApi EdgeApi ProxyReports ResourceReports GlooProxy ApiSnapshot GatewayValidation GatewayValidationFacts.
Import Validation Snapshot GwValidation.

Section Runs.
Context `{ValidatorLibsLaws, SoloKit, !Translators, !GoRange string, !Decoding}.
Context (cfg : Config) (glooValidator : GlooValidatorFunc).

(** ** Lists *)
(** An item is accepted when it decodes to a resource that leaves a clean snapshot, to
    which it is then applied. *)
Definition accepts_item (s : ApiSnapshot) (item : Item) : bool :=
  match decode_item item with
  | inl _ => false
  | inr (kind, r) => match UpsertToResourceList r s with
      | inl _ => false
      | inr s' => if vo_err (output cfg glooValidator (options false false kind r) s') is None then true else false
      end
  end.
Definition apply_item (s : ApiSnapshot) (item : Item) : ApiSnapshot :=
  if accepts_item s item then
    match decode_item item with inr (_, r) => match UpsertToResourceList r s with inr s' => s' | inl _ => s end | inl _ => s end
  else s.
Fixpoint rejections (s : ApiSnapshot) (items : list Item) : nat :=
  match items with
  | [] => 0
  | item :: items => (if accepts_item s item then 0 else 1) + rejections (apply_item s item) items
  end.
Definition healthy (s : ApiSnapshot) (v : Validator) : Prop := latestSnapshot v = Some s ∧ latestSnapshotErr v = None.

Lemma not_retried dryRun kind r : shouldValidateAgainstPreviousState cfg (options dryRun false kind r) = false.
Proof. unfold shouldValidateAgainstPreviousState. cbn. by rewrite andb_false_r. Qed.
Lemma not_tolerated dryRun kind r s s' : ¬ tolerated cfg glooValidator (options dryRun false kind r) s s'.
Proof. intros [Hr _]. by rewrite not_retried in Hr. Qed.
Lemma modified_checked dryRun kind r v s : healthy s v → wp (validateModifiedResource cfg glooValidator kind r dryRun) (λ out v',
  match UpsertToResourceList r s with
  | inl e => (∃ e, out.2 = Some (Multi [e])) ∧ v' = v
  | inr s' => (out.2 = None ↔ clean cfg glooValidator (options dryRun false kind r) s') ∧ (out.2 = None ∨ ∃ e, out.2 = Some (Multi [e])) ∧
      healthy (if dryRun then s else if out.2 is None then s' else s) v'
  end) v.
Proof.
  intros [Hs He]. unfold validateModifiedResource. apply wp_bind. eapply wp_mono; [apply validated|]. intros [rs err] v' Hv. apply wp_ret. cbn [fst snd].
  unfold validation_verdict in Hv. rewrite Hs, He in Hv. unfold change in Hv. cbn [op_Delete options op_Resource] in Hv.
  destruct (UpsertToResourceList r s) as [e|s']; [destruct Hv as [[= -> ->] ->]; eauto|].
  destruct Hv as (Hiff & _ & ->). cbn [snd] in Hiff. split_and!.
  - rewrite fmap_none, Hiff. split; [|by left]. intros [?|Ht]; [done|]. by destruct (not_tolerated _ _ _ _ _ Ht).
  - destruct err; cbn; eauto.
  - cbn. destruct dryRun; [done|]. by destruct err.
Qed.
Lemma item_step s v item : healthy s v → wp (processItem cfg glooValidator item) (λ out v',
  healthy (apply_item s item) v' ∧ if accepts_item s item then out.2 = None else ∃ e, out.2 = Some e ∧ length (members e) = 1) v.
Proof.
  intros Hh. unfold processItem, apply_item, accepts_item. destruct (decode_item item) as [e|[kind r]] eqn:Ed.
  - apply wp_ret. split; [done|]. exists e. split; [done|]. unfold decode_item in Ed.
    destruct (ParseGroupVersion item) as [?|[group version]]; [by injection Ed as <-|]. destruct (MarshalJSON item); [by injection Ed as <-|].
    destruct (assoc _ _); [|by injection Ed as <-]. destruct (UnmarshalResource _ _); [by injection Ed as <-|done].
  - eapply wp_mono; [by apply modified_checked|]. intros [rs err] v'. cbn [snd]. destruct (UpsertToResourceList r s) as [e|s']; [by intros [(e' & ->) ->]; eauto|].
    intros (Hiff & Hor & Hh'). rewrite <-output_none in Hiff. destruct (vo_err _) as [e|].
    + destruct Hor as [->|(e' & ->)]; [by pose proof (proj1 Hiff eq_refl)|]. split; [exact Hh'|]. eauto.
    + assert (err = None) as -> by tauto. done.
Qed.

Lemma list_fold items : ∀ i s v acc l, healthy s v → acc.2 = Multi l → wp (fold_range i items acc (λ _ item '(reports, errs),
    let! (itemReports, err) <~ processItem cfg glooValidator item ;;
    let errs := match err with Some e => multierror_Append (Some errs) e | None => errs end in
    ret (match itemReports with
         | Some r => {| rp_Proxies := rp_Proxies reports ++ rp_Proxies r; rp_ProxyReports := rp_ProxyReports reports ++ rp_ProxyReports r |}
         | None => reports end, errs))) (λ out v', healthy (foldl apply_item s items) v' ∧ ∃ l', out.2 = Multi l' ∧ length l' = length l + rejections s items) v.
Proof.
  induction items as [|item items IH]; intros i s v [reports errs] l Hh Hl; cbn [snd] in Hl; subst errs.
  - cbn. split; [done|]. exists l. split; [done|lia].
  - cbn [fold_range]. apply wp_bind. apply wp_bind. eapply wp_mono; [by apply item_step|]. intros [rs err] v' [Hh' Hacc]. cbn [snd] in Hacc. apply wp_ret.
    cbn [foldl rejections]. destruct (accepts_item s item).
    + subst err. eapply wp_mono; [by apply (IH _ (apply_item s item) v' _ l)|]. cbn. auto.
    + destruct Hacc as (e & -> & He). rewrite Append_multi. cbn [from_option members].
      eapply wp_mono; [by apply (IH _ (apply_item s item) v' _ (l ++ members e))|]. cbn beta. intros out v'' (Hh'' & l' & Ho & Hl). split; [done|]. exists l'. split; [done|].
      rewrite Hl, length_app, He. lia.
Qed.
Lemma list_validated items dryRun s v : healthy s v → wp (ValidateList cfg glooValidator items dryRun) (λ out v',
  healthy (if dryRun then s else foldl apply_item s items) v' ∧ ∃ l, out.2 = Multi l ∧ length l = rejections s items) v.
Proof.
  intros Hh. unfold ValidateList. apply wp_bind, wp_gets. cbn [id]. destruct Hh as [Hs He]. rewrite Hs. apply wp_bind.
  eapply wp_mono; [by apply (list_fold items 0 s v _ [])|]. intros out v' [Hh' Hout]. apply wp_bind. destruct dryRun.
  - apply wp_modify, wp_ret. destruct Hh' as [_ He']. split; [by split|]. done.
  - apply wp_ret, wp_ret. done.
Qed.

(** C20. Validating a list, each item is judged on the snapshot its predecessors left, and there
    is an error for each that is rejected; afterwards the accepted ones are applied, or in a
    dry run none. *)
Theorem ValidateList_exact items dryRun s v (Hv : healthy s v) : wp (ValidateList cfg glooValidator items dryRun) (λ out v',
  healthy (if dryRun then s else foldl apply_item s items) v' ∧ ∃ l, out.2 = Multi l ∧ length l = rejections s items) v.
Proof. by apply list_validated. Qed.

(** ** Runs *)
Inductive event :=
| EvSync (s : ApiSnapshot)
| EvModified (kind : string) (r : Resource) (dryRun : bool)
| EvDeleted (kind : string) (r : Resource) (dryRun : bool)
| EvList (items : list Item) (dryRun : bool).
Definition handle (e : event) : M Validator unit :=
  match e with
  | EvSync s => do! Sync cfg s ;; ret tt
  | EvModified kind r dryRun => do! ValidateModifiedGvk cfg glooValidator kind r dryRun ;; ret tt
  | EvDeleted kind r dryRun => do! ValidateDeletedGvk cfg glooValidator kind r dryRun ;; ret tt
  | EvList items dryRun => do! ValidateList cfg glooValidator items dryRun ;; ret tt
  end.
Definition initial : Validator := {| latestSnapshot := None; latestSnapshotErr := None; mValidConfig := None |}.
(** The states after any sequence of events with a property. *)
Inductive reachable (ok : event → Prop) : Validator → Prop :=
| reachable_initial : reachable ok initial
| reachable_step v e u v' : reachable ok v → ok e → handle e v = Ok (u, v') → reachable ok v'.

(** A property of the snapshot and its errors that syncs establish and accepted changes
    keep holds of every reachable state. *)
Section Invariant.
Context (P : option ApiSnapshot → option VError → Prop).
Definition holds (v : Validator) : Prop := P (latestSnapshot v) (latestSnapshotErr v).
Definition change_keeps (opts : validationOptions) : Prop := ∀ s s', P (Some s) None → change opts s = inr s' →
  clean cfg glooValidator opts s' ∨ tolerated cfg glooValidator opts s s' → P (Some s') None.
Lemma keeps_validateSnapshot opts errs : change_keeps opts → keeps (λ v, holds v ∧ latestSnapshotErr v = errs) (validateSnapshot cfg glooValidator opts) (λ _, True).
Proof.
  intros Hc v [HP He]. eapply wp_mono; [apply validated|]. intros out v' Hv. split; [|done]. unfold validation_verdict in Hv. unfold holds in *.
  destruct (latestSnapshot v) as [s|] eqn:Hs; [|by destruct Hv as [_ ->]; rewrite Hs]. destruct (latestSnapshotErr v) as [e|] eqn:Hev.
  - destruct Hv as [_ ->]. destruct (op_DryRun opts); cbn; by rewrite Hs, Hev.
  - destruct (change opts s) as [e|s'] eqn:Hch; [destruct Hv as [_ ->]; by rewrite Hs, Hev|]. destruct Hv as (Hiff & _ & ->).
    destruct (op_DryRun opts); cbn; [by rewrite Hs, Hev|]. destruct out.2; [done|]. split; [|done]. apply (Hc s s'); [done..|]. by apply Hiff.
Qed.
Lemma keeps_weaken errs {A} (m : M Validator A) : keeps (λ v, holds v ∧ latestSnapshotErr v = errs) m (λ _, True) →
  ∀ v, holds v → latestSnapshotErr v = errs → wp m (λ _ v', holds v' ∧ latestSnapshotErr v' = errs) v.
Proof. intros Hk v Hv He. eapply wp_mono; [by apply (Hk v)|]. by intros a v1 [? _]. Qed.
Lemma keeps_list items dryRun : (∀ item kind r, item ∈ items → decode_item item = inr (kind, r) → change_keeps (options false false kind r)) →
  ∀ v s, latestSnapshot v = Some s → holds v → wp (ValidateList cfg glooValidator items dryRun) (λ _, holds) v.
Proof.
  intros Hi v s Hs Hv. unfold ValidateList. apply wp_bind, wp_gets. cbn [id]. unfold holds in *. rewrite Hs in *.
  apply wp_bind. apply (wp_mono _ (λ _ v', holds v' ∧ latestSnapshotErr v' = latestSnapshotErr v)); [|intros out v' [Hv' He']; apply wp_bind; destruct dryRun; [apply wp_modify, wp_ret; cbn; rewrite He'; exact Hv|by apply wp_ret, wp_ret]].
  eapply wp_mono; [apply (keeps_fold (λ v', holds v' ∧ latestSnapshotErr v' = latestSnapshotErr v) (λ _, True)); [done| |unfold holds; by rewrite Hs]|by intros ?? [? _]].
  intros n item [reports errs] Hin%list_elem_of_lookup_2 _. apply (keeps_bind _ _ _ (λ _, True)); [|intros [rs err] _; by apply keeps_ret]. unfold processItem.
  destruct (decode_item item) as [e|[kind r]] eqn:Ed; [by apply keeps_ret|]. unfold validateModifiedResource.
  apply (keeps_bind _ _ _ (λ _, True)); [by apply keeps_validateSnapshot, (Hi item)|]. intros; by apply keeps_ret.
Qed.
Lemma keeps_sync s : P (Some s) (sync_errors cfg s) → keeps holds (Sync cfg s) (λ _, True).
Proof.
  intros Hs v Hv. unfold Sync. apply wp_bind, wp_gets. cbn [id]. destruct (negb _); [by apply wp_ret|]. apply wp_bind.
  assert (∀ v', wp (do! modify (λ v, {| latestSnapshot := Some s; latestSnapshotErr := sync_errors cfg s; mValidConfig := mValidConfig v |}) ;;
    ret ((λ e, Wrapped e InvalidSnapshotErrMessage) <$> sync_errors cfg s)) (λ _ v', holds v' ∧ True) v') as Hw.
  { intros v'. apply wp_bind, wp_modify, wp_ret. done. }
  destruct (latestSnapshot v); [by apply wp_ret, Hw|]. apply wp_modify, Hw.
Qed.
Definition event_keeps (e : event) : Prop :=
  match e with
  | EvSync s => P (Some s) (sync_errors cfg s)
  | EvModified kind r dryRun => change_keeps (options dryRun false kind r)
  | EvDeleted kind r dryRun => change_keeps (options dryRun true kind r)
  | EvList items dryRun => ∀ item kind r, item ∈ items → decode_item item = inr (kind, r) → change_keeps (options false false kind r)
  end.
Lemma reachable_holds (ok : event → Prop) : P None None → (∀ e, ok e → event_keeps e) → ∀ v, reachable ok v → holds v.
Proof.
  intros Hinit Hok v Hr. induction Hr as [|v e u v' _ IH He Hh]; [done|]. specialize (Hok e He).
  assert (∀ w, wp (handle e) (λ _, holds) w → w = v → holds v') as Hk by (intros w Hw ->; unfold wp in Hw; by rewrite Hh in Hw).
  apply (Hk v); [|done]. clear Hk. destruct e as [s|kind r dryRun|kind r dryRun|items dryRun]; cbn [handle event_keeps] in *; apply wp_bind.
  - eapply wp_mono; [by apply (keeps_sync s Hok v)|]. intros a w [? _]. by apply wp_ret.
  - unfold ValidateModifiedGvk, validateModifiedResource. apply wp_bind. eapply wp_mono; [by apply (keeps_weaken (latestSnapshotErr v) _ (keeps_validateSnapshot _ _ Hok) v)|].
    intros a w [? _]. by apply wp_ret, wp_ret.
  - unfold ValidateDeletedGvk. apply wp_bind. eapply wp_mono; [by apply (keeps_weaken (latestSnapshotErr v) _ (keeps_validateSnapshot _ _ Hok) v)|].
    intros a w [? _]. by apply wp_ret, wp_ret.
  - destruct (latestSnapshot v) as [s|] eqn:Hs; [|exfalso; revert Hh; unfold ValidateList, bind, gets; cbn [id]; by rewrite Hs].
    eapply wp_mono; [by apply (keeps_list _ _ Hok v s)|]. intros a w ?. by apply wp_ret.
Qed.
End Invariant.

(** ** What reachable validators hold *)
Definition translates (s : ApiSnapshot) : Prop := ∀ name gws, GatewaysByProxyName (Gateways s) !! name = Some gws → renders cfg s (name, gws).
Lemma sync_errors_none s : sync_errors cfg s = None ↔ translates s.
Proof.
  unfold sync_errors. assert (∀ l errs, foldl (λ errs g, append errs (getErrorsFromResourceReports cfg (Translate g.1 s g.2).2)) errs l = None ↔
    errs = None ∧ Forall (renders cfg s) l) as Hl.
  { induction l as [|g l IH]; intros errs; cbn; [split; [by split|tauto]|]. rewrite IH, append_none, getErrors_none, Forall_cons. unfold renders. tauto. }
  rewrite Hl, Forall_forall. unfold translates. split.
  - intros [_ Hall] name gws Hg. apply Hall. by apply go_range_elem.
  - intros Ht. split; [done|]. intros [name gws] Hin%go_range_elem. by apply Ht.
Qed.
(** Changes that are validated by translating the proxies of the gateways, and not
    tolerated: not of policies, and no deletions of secrets unless these are not tolerated. *)
Definition translating_event (e : event) : Prop :=
  match e with
  | EvSync _ => True
  | EvModified _ r _ => isK8sGatewayProxy r = false
  | EvDeleted kind r _ => isK8sGatewayProxy r = false ∧ (kind ≠ "Secret" ∨ disableValidationAgainstPreviousState cfg = true)
  | EvList items _ => ∀ item kind r, item ∈ items → decode_item item = inr (kind, r) → isK8sGatewayProxy r = false
  end.
Lemma clean_translates opts s : isK8sGatewayProxy (op_Resource opts) = false → clean cfg glooValidator opts s → translates s.
Proof. unfold clean. intros -> [Hc _] name gws Hg. by apply Hc. Qed.
Lemma change_translates opts : isK8sGatewayProxy (op_Resource opts) = false → shouldValidateAgainstPreviousState cfg opts = false →
  change_keeps (λ o e, e = None → ∀ s, o = Some s → translates s) opts.
Proof.
  intros Hp Hr s s' _ _ [Hc|[Ht _]]; [|by rewrite Hr in Ht]. intros _ s0 [= <-]. by apply (clean_translates opts).
Qed.
(** C8. A validator that holds a snapshot without errors holds one whose proxies all render, as
    long as no policy is changed and no secret deletion is tolerated. *)
Theorem reachable_translates v (Hr : reachable translating_event v) : latestSnapshotErr v = None → ∀ s, latestSnapshot v = Some s → translates s.
Proof.
  apply (reachable_holds (λ o e, e = None → ∀ s, o = Some s → translates s) translating_event); [done| |done].
  intros [s|kind r dryRun|kind r dryRun|items dryRun] He; cbn [translating_event event_keeps] in *.
  - intros Hn s' [= <-]. by apply sync_errors_none.
  - apply change_translates; [done|apply not_retried].
  - destruct He as [Hp Hk]. apply change_translates; [done|]. unfold shouldValidateAgainstPreviousState. cbn.
    destruct Hk as [Hk| ->]; [|done]. by rewrite bool_decide_eq_false_2, andb_false_r.
  - intros item kind r Hin Hd. apply change_translates; [by apply (He item kind)|apply not_retried].
Qed.

Lemma change_well_formed opts : change_keeps (λ o _, ∀ s, o = Some s → well_formed s) opts.
Proof.
  intros s s' Hs Hc _ s0 [= <-]. specialize (Hs s eq_refl). unfold change in Hc. destruct (op_Delete opts); [by eapply remove_well_formed|by eapply upsert_well_formed].
Qed.
(** C33. When the snapshots it is synced with are well formed, a validator only ever holds
    well-formed ones: lists of resources of their type, with distinct keys. *)
Theorem reachable_well_formed v (Hr : reachable (λ e, match e with EvSync s => well_formed s | _ => True end) v) :
  ∀ s, latestSnapshot v = Some s → well_formed s.
Proof.
  apply (reachable_holds (λ o _, ∀ s, o = Some s → well_formed s) (λ e, match e with EvSync s => well_formed s | _ => True end)); [done| |done].
  intros [s|kind r dryRun|kind r dryRun|items dryRun] He; cbn [event_keeps]; [by intros s' [= <-]|apply change_well_formed..|].
  intros item kind r _ _. apply change_well_formed.
Qed.
End Runs.
