(* ===== verification/AdmissionWebhook.v ===== *)
(** * The admission webhook

    gateway/pkg/services/k8sadmission/validating_admission_webhook.go: which requests of
    the API server are validated, with which call of the validator, and the response. What
    decodes requests and prints errors is a parameter ([WebhookLibs]); metrics, logs and the
    HTTP server around the handler are not modelled. A request for a single resource is
    skipped, refused because it cannot be decoded, or checked; a checked one is allowed as
    the validator accepts the change. *)

From stdpp Require Import base gmap strings list fin_maps.
From Stdlib Require Import ZArith.
From S2P Require Import Prelude GoLib GwApi EdgeApi ProxyReports ResourceReports GlooProxy ApiSnapshot GatewayValidation GatewayValidationFacts ValidatorRunsFacts.
Import Validation Snapshot GwValidation.

Module Webhook.
Record gatewayValidationWebhook := {
  watchNamespaces : list string; alwaysAccept : bool; readGatewaysFromAllNamespaces : bool; webhookNamespace : string; kubeGatewayEnabled : bool }.
Record AdmissionRequest := {
  rq_Gvk : Gvk; rq_Namespace : string; rq_Name : string; rq_UID : string; rq_Operation : string; rq_DryRun : option bool;
  rq_Object : string; rq_OldObject : string }.
Record Review := { rv_Request : option AdmissionRequest; rv_ReturnProxies : bool }.
Record StatusDetails := { sd_Name : string; sd_Group : string; sd_Kind : string; sd_Causes : list string }.
Record AdmissionResponse := { ad_UID : string; ad_Allowed : bool; ad_Result : option (string * option StatusDetails) }.
(** The embedded response may be nil. *)
Record AdmissionResponseWithProxies := { ap_Response : option AdmissionResponse; ap_Proxies : list Gloo.Proxy }.
Inductive HttpReply :=
| HttpError (message : string) (code : Z)
| HttpReview (response : option AdmissionResponse) (proxies : list Gloo.Proxy).

Class WebhookLibs `{Decoding} := {
  (** [UnstructuredList.UnmarshalJSON] *)
  UnmarshalList : string → VError + list Item;
  (** the hash of a resource, without its status *)
  resource_hash : Resource → N;
  (** a list of errors as [%v] prints it *)
  errors_v : list VError → string;
  (** decoding a body: the error, and the review as it is left *)
  decode_json : string → option VError * Review;
  decode_yaml : string → option VError * Review;
  (** [json.Marshal] of the reply *)
  marshal_error : option AdmissionResponse → list Gloo.Proxy → option string
}.

Definition SkipValidationKey : string := "gateway.solo.io/skip_validation".
Definition skipValidationCheck (annotations : gmap string string) : bool := bool_decide (annotations !! SkipValidationKey = Some "true").
Definition isDryRun (req : AdmissionRequest) : bool := default false (rq_DryRun req).
Definition ListGVK : Gvk := {| gvk_Group := ""; gvk_Version := "v1"; gvk_Kind := "List" |}.
Definition AllNamespaces (watch : list string) : bool := match watch with [] => true | [ns] => bool_decide (ns = "") | _ => false end.

Section Webhook.
Context `{ValidatorLibs, SoloKit, !Translators, !GoRange string, !Decoding, !WebhookLibs}.
Context (cfg : Config) (glooValidator : GlooValidatorFunc) (wh : gatewayValidationWebhook).

(** A pointer to a multierror: nil, or its errors. *)
Definition Errs : Type := option (list VError).
Definition one (e : VError) : Errs := Some [e].
Definition Result : Type := option Reports * Errs.

Definition shouldValidateGvk (gvk : Gvk) : bool :=
  if bool_decide (gvk = gateway_gvk "RouteOption" ∨ gvk = gateway_gvk "VirtualHostOption") then kubeGatewayEnabled wh else true.

(** Whether to validate, with the decoded resource. *)
Definition shouldValidateResource (k : Kind) (req : AdmissionRequest) : VError + option Resource :=
  match UnmarshalResource k (rq_Object req) with
  | inl e => inl (Multi [WrappedUnmarshalErr e])
  | inr resource =>
      if skipValidationCheck (md_annotations (rs_meta resource)) then inr None
      else if negb (bool_decide (rq_Operation req = "UPDATE")) then inr (Some resource)
      else match UnmarshalResource k (rq_OldObject req) with
           | inl e => inl (Multi [WrappedUnmarshalErr e])
           | inr oldResource => if N.eqb (resource_hash resource) (resource_hash oldResource) then inr None else inr (Some resource)
           end
  end.

Definition validateGvk (gvk : Gvk) (k : Kind) (req : AdmissionRequest) : M Validator Result :=
  if negb (shouldValidateGvk gvk) then ret (None, None)
  else
    match shouldValidateResource k req with
    | inl e => ret (None, one e)
    | inr None => ret (None, None)
    | inr (Some newResource) =>
        let! (reports, err) <~ ValidateModifiedGvk cfg glooValidator (gvk_Kind gvk) newResource (isDryRun req) ;;
        ret (reports, (λ e, [Wrapped e ("Validating " +:+ go_type newResource +:+ " failed")]) <$> err)
    end.
Definition deleteRef (gvk : Gvk) (k : Kind) (req : AdmissionRequest) : M Validator Result :=
  let newResource := {| rs_meta := {| md_ref := {| nn_ns := rq_Namespace req; nn_name := rq_Name req |}; md_annotations := ∅ |};
                        rs_content := empty_content k |} in
  err <~ ValidateDeletedGvk cfg glooValidator (gvk_Kind gvk) newResource (isDryRun req) ;;
  ret (match err with
       | Some e => (None, one (Wrapped e ("failed validating the deletion of resource namespace: " +:+ rq_Namespace req +:+ " name: " +:+ rq_Name req)))
       | None => (Some empty_reports, None) end).
Definition validateList (rawJson : string) (dryRun : bool) : M Validator Result :=
  match UnmarshalList rawJson with
  | inl e => ret (None, one (WrappedUnmarshalErr e))
  | inr ul => let! (reports, errs) <~ ValidateList cfg glooValidator ul dryRun ;; ret (Some reports, Some (members errs))
  end.

Definition isKubeSecret (gvk : Gvk) : bool := bool_decide (gvk_Group gvk = "" ∧ gvk_Kind gvk = "Secret").
(** The type of the resource the request is about, if it is validated: a Secret of
    Kubernetes is read as one of gloo, and only when it is deleted. *)
Definition validated_kind (req : AdmissionRequest) : option Kind :=
  let gvk := rq_Gvk req in
  if isKubeSecret gvk then if bool_decide (rq_Operation req = "DELETE") then Some KSecret else None
  else assoc gvk ApiGvkToHashableResource.
Definition validateAdmissionRequest (req : AdmissionRequest) : M Validator Result :=
  let gvk := rq_Gvk req in
  if bool_decide (gvk = ListGVK) then validateList (rq_Object req) (isDryRun req)
  else match validated_kind req with
       | None => ret (Some empty_reports, None)
       | Some k => if bool_decide (rq_Operation req = "DELETE") then deleteRef gvk k req else validateGvk gvk k req
       end.

(** The namespaces a request is validated for. *)
Definition namespaces_for (gvk : Gvk) : list string :=
  if bool_decide (gvk = gateway_gvk "Gateway") && negb (readGatewaysFromAllNamespaces wh) && negb (AllNamespaces (watchNamespaces wh))
  then [webhookNamespace wh] else watchNamespaces wh.
Definition validatingForNamespace (req : AdmissionRequest) : bool :=
  match namespaces_for (rq_Gvk req) with
  | [] => true
  | l => existsb (λ ns, bool_decide (ns = "" ∨ ns = rq_Namespace req)) l
  end.
Definition allowed (proxies : list Gloo.Proxy) : AdmissionResponseWithProxies :=
  {| ap_Response := Some {| ad_UID := ""; ad_Allowed := true; ad_Result := None |}; ap_Proxies := proxies |}.
Definition GetProxies (r : option Reports) : list Gloo.Proxy := from_option rp_Proxies [] r.
Definition getFailureCauses (errs : list VError) : list string := map (λ e, "Error " +:+ VError_Error e) errs.
Definition denied (req : AdmissionRequest) (errs : list VError) (proxies : list Gloo.Proxy) : AdmissionResponseWithProxies :=
  {| ap_Response := Some {| ad_UID := ""; ad_Allowed := false;
       ad_Result := Some ("resource incompatible with current Gloo snapshot: " +:+ errors_v errs,
         Some {| sd_Name := rq_Name req; sd_Group := gvk_Group (rq_Gvk req); sd_Kind := gvk_Kind (rq_Gvk req); sd_Causes := getFailureCauses errs |}) |};
     ap_Proxies := proxies |}.
Definition makeAdmissionResponse (review : Review) : M Validator AdmissionResponseWithProxies :=
  match rv_Request review with
  | None => panic "nil pointer dereference"
  | Some req =>
      if negb (validatingForNamespace req) then ret (allowed [])
      else
        let! (reports, validationErrs) <~ validateAdmissionRequest req ;;
        let errs := default [] validationErrs in
        let hasUnmarshalErr := existsb (λ e, errors_Is e unmarshalErrMsg) errs in
        ret (if match errs with [] => true | _ => false end || (alwaysAccept wh && negb hasUnmarshalErr)
             then allowed (GetProxies reports) else denied req errs (GetProxies reports))
  end.

(** The handler of a request with a content type and a body. An error of the JSON decoder
    is assigned to a variable of an inner scope. *)
Definition ServeHTTP (contentType body : string) : M Validator HttpReply :=
  if negb (bool_decide (contentType = "application/json" ∨ contentType = "application/x-yaml")) then ret (HttpError "empty body" 400)
  else if bool_decide (body = "") then ret (HttpError "empty body" 400)
  else
    let yaml := bool_decide (contentType = "application/x-yaml") in
    let '(decodeErr, review) := if yaml then decode_yaml body else decode_json body in
    admissionResponse <~ (match decodeErr with
      | None => makeAdmissionResponse review
      | Some e => ret {| ap_Response := if yaml then Some {| ad_UID := ""; ad_Allowed := false; ad_Result := Some (VError_Error e, None) |} else None;
                         ap_Proxies := [] |} end) ;;
    let proxies := if rv_ReturnProxies review then ap_Proxies admissionResponse else [] in
    response <~ (match rv_Request review, ap_Response admissionResponse with
      | None, r => ret r
      | Some _, None => panic "nil pointer dereference"
      | Some req, Some r => ret (Some {| ad_UID := rq_UID req; ad_Allowed := ad_Allowed r; ad_Result := ad_Result r |}) end) ;;
    match marshal_error response proxies with
    | Some e => ret (HttpError ("could not encode response: " +:+ e) 500)
    | None => ret (HttpReview response proxies)
    end.
End Webhook.
End Webhook.
Import Webhook.

Section Admission.
Context `{ValidatorLibsLaws, SoloKit, !Translators, !GoRange string, !Decoding, !DecodingLaws, !WebhookLibs}.
Context (cfg : Config) (glooValidator : GlooValidatorFunc) (wh : gatewayValidationWebhook).

Inductive request_class := Skipped | Refused | Checked (opts : validationOptions) | Listed (items : list Item).
(** The resource a deletion is validated with: its type and reference. *)
Definition deleted (k : Kind) (req : AdmissionRequest) : Resource :=
  {| rs_meta := {| md_ref := {| nn_ns := rq_Namespace req; nn_name := rq_Name req |}; md_annotations := ∅ |}; rs_content := empty_content k |}.
Definition classify (req : AdmissionRequest) : request_class :=
  if negb (validatingForNamespace wh req) then Skipped
  else if bool_decide (rq_Gvk req = ListGVK) then match UnmarshalList (rq_Object req) with inl _ => Refused | inr items => Listed items end
  else match validated_kind req with
       | None => Skipped
       | Some k =>
           if bool_decide (rq_Operation req = "DELETE") then Checked (options (isDryRun req) true (gvk_Kind (rq_Gvk req)) (deleted k req))
           else if negb (shouldValidateGvk wh (rq_Gvk req)) then Skipped
           else match shouldValidateResource k req with
                | inl _ => Refused
                | inr None => Skipped
                | inr (Some r) => Checked (options (isDryRun req) false (gvk_Kind (rq_Gvk req)) r)
                end
       end.
Definition is_allowed (r : AdmissionResponseWithProxies) : bool := from_option ad_Allowed false (ap_Response r).
Definition accepted (opts : validationOptions) (s s' : ApiSnapshot) : Prop := clean cfg glooValidator opts s' ∨ tolerated cfg glooValidator opts s s'.

Lemma shouldValidateResource_kind k req r : shouldValidateResource k req = inr (Some r) → kind_of (rs_content r) = Some k.
Proof.
  unfold shouldValidateResource. destruct (UnmarshalResource k (rq_Object req)) as [e|r'] eqn:Hu; [done|].
  assert (kind_of (rs_content r') = Some k) as Hk.
  { unfold UnmarshalResource in Hu. destruct (json_Unmarshal _) as [|[meta [spec|]]]; [done| |injection Hu as <-; apply empty_kind].
    destruct (unmarshal_spec k spec) as [|c] eqn:Hs; [done|]. injection Hu as <-. by apply (unmarshal_kind _ spec). }
  intros Hr. repeat case_match; by simplify_eq.
Qed.
Lemma checked_changes req opts s : classify req = Checked opts → ∃ s', change opts s = inr s'.
Proof.
  unfold classify. destruct (negb _); [done|]. case_bool_decide; [by destruct (UnmarshalList _)|]. destruct (validated_kind req) as [k|]; [|done].
  assert (∀ r, kind_of (rs_content r) = Some k → (∃ s', RemoveFromResourceList r s = inr s') ∧ ∃ s', UpsertToResourceList r s = inr s') as Hk.
  { intros r Hr. unfold RemoveFromResourceList, UpsertToResourceList. rewrite Hr. eauto. }
  case_bool_decide; [intros [= <-]; apply Hk, empty_kind|]. destruct (negb _); [done|].
  destruct (shouldValidateResource k req) as [e|[r|]] eqn:Hr; [done| |done]. intros [= <-]. by eapply Hk, shouldValidateResource_kind.
Qed.

(** The response to the errors of a validation. *)
Lemma response_allowed req rs errs : is_allowed (if match errs with [] => true | _ => false end || (alwaysAccept wh && negb (existsb (λ e, errors_Is e unmarshalErrMsg) errs))
    then allowed (GetProxies rs) else denied req errs (GetProxies rs)) =
  (match errs with [] => true | _ => false end || (alwaysAccept wh && negb (existsb (λ e, errors_Is e unmarshalErrMsg) errs))).
Proof. by destruct (_ || _). Qed.
(** What decides between errors: none, or all are accepted and none is an error of decoding. *)
Definition lenient (errs : list VError) : Prop := alwaysAccept wh = true ∧ ∀ e, e ∈ errs → errors_Is e unmarshalErrMsg = false.
Lemma response_iff req rs errs : is_allowed (if match errs with [] => true | _ => false end || (alwaysAccept wh && negb (existsb (λ e, errors_Is e unmarshalErrMsg) errs))
    then allowed (GetProxies rs) else denied req errs (GetProxies rs)) = true ↔ errs = [] ∨ lenient errs.
Proof.
  rewrite response_allowed, orb_true_iff, andb_true_iff, negb_true_iff, <-not_true_iff_false, existsb_elem. unfold lenient.
  assert (match errs with [] => true | _ => false end = true ↔ errs = []) as -> by (by destruct errs).
  setoid_rewrite <-not_true_iff_false. naive_solver.
Qed.
(** An error of decoding is refused whatever is accepted. *)
Lemma undecoded_refused rs req e m : errors_Is e unmarshalErrMsg = true → m = [e] → is_allowed
  (if match m with [] => true | _ => false end || (alwaysAccept wh && negb (existsb (λ e, errors_Is e unmarshalErrMsg) m))
   then allowed (GetProxies rs) else denied req m (GetProxies rs)) = false.
Proof. intros He Hm. rewrite response_allowed, Hm. cbn. rewrite He. by rewrite andb_false_r. Qed.
Lemma unmarshal_refused k req e : shouldValidateResource k req = inl e → errors_Is e unmarshalErrMsg = true.
Proof.
  intros Hr. assert (∃ e', e = Multi [WrappedUnmarshalErr e']) as [e' ->].
  { unfold shouldValidateResource in Hr. destruct (UnmarshalResource k (rq_Object req)); [injection Hr as <-; eauto|].
    destruct (skipValidationCheck _); [done|]. destruct (negb _); [done|]. destruct (UnmarshalResource k (rq_OldObject req)); [injection Hr as <-; eauto|by destruct (N.eqb _ _)]. }
  rewrite Is_multi. cbn. unfold WrappedUnmarshalErr. rewrite Is_wrapped, bool_decide_eq_true_2 by done. done.
Qed.

(** The errors a verdict of the validator becomes: at most one, which decodes as the
    validator's own does. *)
Definition verdict_errs (out : option VError) (errs : Errs) : Prop :=
  match out with
  | None => errs = None
  | Some e => ∃ e', errs = Some [e'] ∧ errors_Is e' unmarshalErrMsg = errors_Is e unmarshalErrMsg
  end.
Lemma validateGvk_checked gvk k req r v (opts := options (isDryRun req) false (gvk_Kind gvk) r) : shouldValidateGvk wh gvk = true →
  shouldValidateResource k req = inr (Some r) →
  wp (validateGvk cfg glooValidator wh gvk k req) (λ out v', ∃ verdict, validation_verdict cfg glooValidator opts v verdict v' ∧ verdict_errs verdict.2 out.2) v.
Proof.
  intros Hg Hr. unfold validateGvk. rewrite Hg, Hr. cbn [negb]. apply wp_bind. unfold ValidateModifiedGvk, validateModifiedResource. apply wp_bind.
  eapply wp_mono; [apply validated|]. intros out v' Hv. apply wp_ret, wp_ret. exists out. split; [done|]. unfold verdict_errs. destruct out.2 as [e|]; cbn; [|done].
  eexists. split; [done|]. rewrite Is_wrapped, Is_multi, bool_decide_eq_false_2 by discriminate. cbn [existsb orb].
  by rewrite Is_wrapped, bool_decide_eq_false_2, orb_false_r by discriminate.
Qed.
Lemma deleteRef_checked gvk k req v (opts := options (isDryRun req) true (gvk_Kind gvk) (deleted k req)) :
  wp (deleteRef cfg glooValidator gvk k req) (λ out v', ∃ verdict, validation_verdict cfg glooValidator opts v verdict v' ∧ verdict_errs verdict.2 out.2) v.
Proof.
  unfold deleteRef. apply wp_bind. unfold ValidateDeletedGvk. apply wp_bind. eapply wp_mono; [apply validated|]. intros out v' Hv.
  apply wp_ret, wp_ret. exists out. split; [done|]. unfold verdict_errs. destruct out.2 as [e|]; cbn; [|done].
  eexists. split; [done|]. by rewrite Is_wrapped, bool_decide_eq_false_2 by discriminate.
Qed.
Lemma list_total items dryRun v : is_Some (latestSnapshot v) → wp (ValidateList cfg glooValidator items dryRun) (λ _ _, True) v.
Proof.
  intros [s Hs]. unfold ValidateList. apply wp_bind, wp_gets. cbn [id]. rewrite Hs. apply wp_bind. eapply wp_mono.
  - apply (wp_fold_range (λ _ _, True)); [done|]. intros i item [rs errs] v1 _ _. apply wp_bind. apply wp_mono with (Q := λ _ _, True); [|intros [? ?] ? _; by apply wp_ret].
    unfold processItem. destruct (decode_item item) as [e|[kind r]]; [by apply wp_ret|]. unfold validateModifiedResource. apply wp_bind.
    eapply wp_mono; [apply validated|]. intros; by apply wp_ret.
  - intros res v1 _. apply wp_bind. destruct dryRun; [by apply wp_modify, wp_ret|by apply wp_ret, wp_ret].
Qed.
(** A list is validated as [ValidateList] does. *)
Definition list_outcome (req : AdmissionRequest) (items : list Item) (v : Validator) (errs : list VError) (v' : Validator) : Prop :=
  ∃ reports err, ValidateList cfg glooValidator items (isDryRun req) v = Ok ((reports, err), v') ∧ errs = members err ∧
    ∀ s, healthy s v → length errs = rejections cfg glooValidator s items ∧
      healthy (if isDryRun req then s else foldl (apply_item cfg glooValidator) s items) v'.
Lemma list_checked req items v : UnmarshalList (rq_Object req) = inr items → is_Some (latestSnapshot v) →
  wp (validateList cfg glooValidator (rq_Object req) (isDryRun req)) (λ out v', list_outcome req items v (default [] out.2) v') v.
Proof.
  intros Hu Hs. unfold validateList. rewrite Hu. apply wp_bind.
  destruct (wp_run _ _ _ (list_total items (isDryRun req) v Hs)) as ([reports err] & v' & Hrun & _). unfold wp. rewrite Hrun. cbn.
  exists reports, err. split_and!; [done..|]. intros s Hh. pose proof (list_validated cfg glooValidator items (isDryRun req) s v Hh) as Hv.
  unfold wp in Hv. rewrite Hrun in Hv. destruct Hv as (Hh' & l & Hl & Hlen). cbn in Hl. subst err. done.
Qed.
(** With a snapshot that has no errors, the verdict is whether the change is accepted. *)
Lemma healthy_verdict req opts v verdict v' s : classify req = Checked opts → validation_verdict cfg glooValidator opts v verdict v' → healthy s v →
  ∃ s', change opts s = inr s' ∧ (verdict.2 = None ↔ accepted opts s s') ∧
    healthy (if op_DryRun opts then s else if verdict.2 is None then s' else s) v'.
Proof.
  intros Hc Hv [Hs He]. destruct (checked_changes req opts s Hc) as [s' Hch]. exists s'. split; [done|].
  unfold validation_verdict in Hv. rewrite Hs, He, Hch in Hv. destruct Hv as (Hiff & _ & ->). split; [done|].
  destruct (op_DryRun opts); [by split|]. by destruct verdict.2.
Qed.

(** C9. The answer to a request, whatever the state of the validator. One that is not to be
    validated is allowed, and one that cannot be decoded is refused, even if everything
    else is accepted ([alwaysAccept]); neither touches the validator. A change or deletion
    of a resource gets the validator's verdict: it is allowed when the verdict is
    acceptance, or when everything is accepted and the error is not one of decoding. With a
    snapshot that has no errors the verdict is acceptance exactly when the change is
    accepted, and then, and outside dry runs, the change is applied. A list (of a
    validator with a snapshot) is allowed likewise, by the errors of its items, of which
    there is one for each that is rejected. *)
Theorem makeAdmissionResponse_exact req b v (Hlist : ∀ items, classify req = Listed items → is_Some (latestSnapshot v)) :
  wp (makeAdmissionResponse cfg glooValidator wh {| rv_Request := Some req; rv_ReturnProxies := b |}) (λ resp v',
    match classify req with
    | Skipped => is_allowed resp = true ∧ v' = v
    | Refused => is_allowed resp = false ∧ v' = v
    | Checked opts => ∃ verdict, validation_verdict cfg glooValidator opts v verdict v' ∧
        (is_allowed resp = true ↔ verdict.2 = None ∨ ∃ e, verdict.2 = Some e ∧ lenient [e]) ∧
        ∀ s, healthy s v → ∃ s', change opts s = inr s' ∧ (verdict.2 = None ↔ accepted opts s s') ∧
          healthy (if op_DryRun opts then s else if verdict.2 is None then s' else s) v'
    | Listed items => ∃ errs, list_outcome req items v errs v' ∧ (is_allowed resp = true ↔ errs = [] ∨ lenient errs)
    end) v.
Proof.
  pose proof (healthy_verdict req) as Hhv. unfold makeAdmissionResponse, classify in *. cbn [rv_Request].
  destruct (negb (validatingForNamespace wh req)); [by apply wp_ret|].
  apply wp_bind. unfold validateAdmissionRequest. case_bool_decide as Hl.
  { destruct (UnmarshalList (rq_Object req)) as [e|items] eqn:Hu.
    - unfold validateList. rewrite Hu. apply wp_ret, wp_ret. split; [|done]. eapply undecoded_refused; [|done].
      unfold WrappedUnmarshalErr. by rewrite Is_wrapped, bool_decide_eq_true_2.
    - eapply wp_mono; [by apply (list_checked req items), (Hlist items)|]. intros [rs errs] v' Ho. apply wp_ret. exists (default [] errs).
      split; [done|]. apply response_iff. }
  destruct (validated_kind req) as [k|]; [|by apply wp_ret, wp_ret].
  assert (∀ opts (m : M Validator Result), (∀ verdict v' s, validation_verdict cfg glooValidator opts v verdict v' → healthy s v → ∃ s', change opts s = inr s' ∧
      (verdict.2 = None ↔ accepted opts s s') ∧ healthy (if op_DryRun opts then s else if verdict.2 is None then s' else s) v') →
    wp m (λ out v', ∃ verdict, validation_verdict cfg glooValidator opts v verdict v' ∧ verdict_errs verdict.2 out.2) v →
    wp m (λ out v', wp (let '(reports, validationErrs) := out in let errs := default [] validationErrs in
        ret (if match errs with [] => true | _ => false end || (alwaysAccept wh && negb (existsb (λ e, errors_Is e unmarshalErrMsg) errs))
             then allowed (GetProxies reports) else denied req errs (GetProxies reports)))
      (λ resp v', ∃ verdict, validation_verdict cfg glooValidator opts v verdict v' ∧
        (is_allowed resp = true ↔ verdict.2 = None ∨ ∃ e, verdict.2 = Some e ∧ lenient [e]) ∧
        ∀ s, healthy s v → ∃ s', change opts s = inr s' ∧ (verdict.2 = None ↔ accepted opts s s') ∧
          healthy (if op_DryRun opts then s else if verdict.2 is None then s' else s) v') v') v) as Hcheck.
  { intros opts m Hh Hm. eapply wp_mono; [exact Hm|]. intros [rs errs] v' (verdict & Hv & He). apply wp_ret. exists verdict. split; [done|].
    split; [|intros s; by apply Hh]. rewrite response_iff. cbn [snd] in He. unfold verdict_errs in He. destruct verdict.2 as [e|].
    - destruct He as (e' & -> & Hd). cbn. unfold lenient. setoid_rewrite list_elem_of_singleton. naive_solver.
    - subst errs. cbn. tauto. }
  case_bool_decide as Hop; [by apply Hcheck, deleteRef_checked; intros; eapply Hhv|].
  destruct (shouldValidateGvk wh (rq_Gvk req)) eqn:Hg; cbn [negb] in *; [|by unfold validateGvk; rewrite Hg; apply wp_ret, wp_ret].
  destruct (shouldValidateResource k req) as [e|[r|]] eqn:Hr.
  - unfold validateGvk. rewrite Hg, Hr. cbn [negb]. apply wp_ret, wp_ret. split; [|done]. eapply undecoded_refused; [|done]. by eapply unmarshal_refused.
  - by apply Hcheck, validateGvk_checked; [intros; eapply Hhv| |].
  - unfold validateGvk. rewrite Hg, Hr. cbn [negb]. by apply wp_ret, wp_ret.
Qed.
End Admission.

