(* ===== verification/GlooValidationFacts.v ===== *)
(** * What the validator of gloo reports

    A proxy gets one report, made with the changed snapshot; its route errors are kept,
    turned into warnings or dropped by the reports on Proxies. Requests change the lists
    of upstreams and secrets and nothing else. *)

From stdpp Require Import base gmap strings list fin_maps.
From Stdlib Require Import ZArith.
From S2P Require Import Prelude GoLib GwApi EdgeApi ProxyReports ResourceReports Xds Sanitizers GlooProxy ApiSnapshot GatewayValidation GlooValidation.
Import Validation Snapshot GwValidation GlooValidation.

(** ** Route errors *)
Section Reports.
Context `{Errors, !SoloReports2, !SoloReports2Laws, !GlooTranslation, !GoRange string}.

(** Reports as solo-kit leaves them. *)
Definition all_multi (m : ResourceReports) : Prop := ∀ k r, k.1 = "*v1.Proxy" → m !! k = Some r → multi r.
(** The text of an error or a warning on a Proxy. *)
Definition proxy_error_text (m : ResourceReports) (t : string) : Prop := ∃ k r e, k.1 = "*v1.Proxy" ∧ m !! k = Some r ∧ e ∈ errors_of r ∧ Error e = t.
Definition proxy_warning_text (m : ResourceReports) (t : string) : Prop := ∃ k r, k.1 = "*v1.Proxy" ∧ m !! k = Some r ∧ t ∈ rp_warnings r.

Lemma proxy_reports_elem m r : r ∈ proxy_reports m ↔ ∃ k, k.1 = "*v1.Proxy" ∧ m !! k = Some r.
Proof.
  unfold proxy_reports. rewrite list_elem_of_fmap. split.
  - intros ([k r'] & -> & Hin%elem_of_map_to_list). rewrite FilterByKind_spec in Hin. case_bool_decide; [|done]. eauto.
  - intros (k & Hk & Hm). exists (k, r). split; [done|]. apply elem_of_map_to_list. rewrite FilterByKind_spec, bool_decide_eq_true_2; done.
Qed.
Definition kept (m : ResourceReports) (e : Entry RouteReport_Error_Type) : bool := existsb (λ e', bool_decide (Error e' = RouteReport_Error_String e)) (flat_map errors_of (proxy_reports m)).
Definition turned (m : ResourceReports) (e : Entry RouteReport_Error_Type) : bool :=
  negb (kept m e) && existsb (λ w, bool_decide (w = RouteReport_Error_String e)) (flat_map rp_warnings (proxy_reports m)).
Lemma kept_true m e : kept m e = true ↔ proxy_error_text m (RouteReport_Error_String e).
Proof.
  unfold kept, proxy_error_text. rewrite existsb_elem. split.
  - intros (e' & (r & (k & Hk & Hm)%proxy_reports_elem & He)%elem_of_flat_map & Ht%bool_decide_eq_true). eauto 8.
  - intros (k & r & e' & Hk & Hm & He & Ht). exists e'. split; [|by apply bool_decide_eq_true]. apply elem_of_flat_map. exists r. split; [|done]. apply proxy_reports_elem. eauto.
Qed.
Lemma turned_true m e : turned m e = true ↔ ¬ proxy_error_text m (RouteReport_Error_String e) ∧ proxy_warning_text m (RouteReport_Error_String e).
Proof.
  unfold turned. rewrite andb_true_iff, negb_true_iff, <-not_true_iff_false, kept_true. unfold proxy_warning_text. rewrite existsb_elem. split.
  - intros [Hn (w & (r & (k & Hk & Hm)%proxy_reports_elem & Hw)%elem_of_flat_map & ->%bool_decide_eq_true)]. eauto 6.
  - intros [Hn (k & r & Hk & Hm & Hw)]. split; [done|]. exists (RouteReport_Error_String e). split; [|by apply bool_decide_eq_true]. apply elem_of_flat_map. exists r. split; [|done].
    apply proxy_reports_elem. eauto.
Qed.
Lemma no_other m : all_multi m → existsb is_other (proxy_reports m) = false.
Proof.
  intros Hm. apply not_true_iff_false. rewrite existsb_elem. intros (r & (k & Hk & Hr)%proxy_reports_elem & Ho). specialize (Hm k r Hk Hr).
  unfold multi, is_other in *. destruct (rp_errors r) as [[]|]; done.
Qed.
(** The reports of routes of a report. *)
Definition routes_of_report (r : ProxyReport) : list RouteReport := flat_map (λ l, flat_map vr_routeReports (GetVhostReportsFromListenerReport l)) (pr_listenerReports r).
Lemma routes_of_map_http f h : flat_map vr_routeReports (hr_virtualHostReports (map_http f h)) = map f (flat_map vr_routeReports (hr_virtualHostReports h)).
Proof. unfold map_http. cbn [hr_virtualHostReports]. by rewrite flat_map_of_map, map_of_flat_map. Qed.
Lemma routes_of_range {A} (m : gmap string A) (g : A → list VirtualHostReport) f (h : A → A) :
  (∀ a, flat_map vr_routeReports (g (h a)) = map f (flat_map vr_routeReports (g a))) →
  flat_map vr_routeReports (flat_map (λ '(_, a), g a) (go_range (h <$> m))) ≡ₚ map f (flat_map vr_routeReports (flat_map (λ '(_, a), g a) (go_range m))).
Proof.
  intros Hg. rewrite !flat_map_flat_map, map_of_flat_map.
  assert (∀ l l' : list (string * A), l ≡ₚ l' → flat_map (λ x, flat_map vr_routeReports (let '(_, a) := x in g a)) l ≡ₚ flat_map (λ x, flat_map vr_routeReports (let '(_, a) := x in g a)) l') as Hp.
  { intros l l' Hl. by apply Permutation_flat_map. }
  rewrite (Hp _ _ (go_range_perm (h <$> m))), map_to_list_fmap, flat_map_of_map.
  transitivity (flat_map (λ x : string * A, map f (flat_map vr_routeReports (let '(_, a) := x in g a))) (map_to_list m)).
  - apply flat_map_perm_ext. intros [k a] _. cbn. by rewrite Hg.
  - apply Permutation_flat_map. symmetry. apply go_range_perm.
Qed.
Lemma routes_of_map_routes f l : flat_map vr_routeReports (GetVhostReportsFromListenerReport (map_routes f l)) ≡ₚ map f (flat_map vr_routeReports (GetVhostReportsFromListenerReport l)).
Proof.
  unfold GetVhostReportsFromListenerReport, map_routes. cbn. destruct (lr_type l) as [[h|t|m|a]|]; try done.
  - by rewrite routes_of_map_http.
  - apply (routes_of_range m (λ mr, from_option hr_virtualHostReports [] (matched_http mr)) f). intros [h|t|]; [apply routes_of_map_http|done..].
  - apply routes_of_range, routes_of_map_http.
Qed.

Definition turned_route (m : ResourceReports) (r : RouteReport) : RouteReport :=
  {| rr_errors := List.filter (kept m) (rr_errors r); rr_warnings := rr_warnings r ++ map route_warning (List.filter (turned m) (rr_errors r)) |}.
(** C32. Of the errors of a route, those whose text is an error on a Proxy are kept; of the
    others, those whose text is a warning on a Proxy become warnings of the route, and the
    rest are dropped. *)
Theorem routeErrorToWarnings_exact m report (Hm : all_multi m) : ∃ report', routeErrorToWarnings m report = Ok report' ∧
  routes_of_report report' ≡ₚ map (turned_route m) (routes_of_report report) ∧
  map lr_errors (pr_listenerReports report') = map lr_errors (pr_listenerReports report) ∧
  (∀ e, kept m e = true ↔ proxy_error_text m (RouteReport_Error_String e)) ∧
  ∀ e, turned m e = true ↔ ¬ proxy_error_text m (RouteReport_Error_String e) ∧ proxy_warning_text m (RouteReport_Error_String e).
Proof.
  unfold routeErrorToWarnings. rewrite no_other by done. eexists. split; [done|]. split; [|split; [cbn; by rewrite map_map|split; [apply kept_true|apply turned_true]]].
  unfold routes_of_report. cbn [pr_listenerReports]. rewrite flat_map_of_map, map_of_flat_map. apply flat_map_perm_ext. intros l _. apply routes_of_map_routes.
Qed.
Lemma routeErrorToWarnings_ok m report : all_multi m → ∃ report', routeErrorToWarnings m report = Ok report'.
Proof. intros Hm. unfold routeErrorToWarnings. rewrite no_other by done. eauto. Qed.
End Reports.

(** ** The service *)
Section Service.
Context `{Errors, !SoloReports2, !SoloReports2Laws, !GlooTranslation, SoloKitLaws, !GoRange string}.

(** What the translator and the sanitizers report is made of multierrors. *)
Definition reports_multi : Prop := ∀ s p, let '(x, m, _) := Translate s p in all_multi (SanitizeSnapshot s x m).
(** Entries of the list of its type with the key of a resource. *)
Definition same_entry (r : Resource) (k : Kind) (x : Resource) : Prop := kind_of (rs_content r) = Some k ∧ Key (rs_ref x) = Key (rs_ref r).
(** The in-memory upstream of its service is deleted with an upstream. *)
Definition deleted_entry (r : Resource) (k : Kind) (x : Resource) : Prop :=
  same_entry r k x ∨ ∃ data, rs_content r = Upstream true data ∧ same_entry (kubeSvcUs r) k x.
(** The lists of the snapshot a resource is validated with. *)
Definition listed (resource : option Resource) (shouldDelete : bool) (s : ApiSnapshot) (k : Kind) (x : Resource) : Prop :=
  match resource with
  | None => x ∈ items k s
  | Some r => if shouldDelete then x ∈ items k s ∧ ¬ deleted_entry r k x
              else (kind_of (rs_content r) = Some k ∧ x = r) ∨ (x ∈ items k s ∧ ¬ same_entry r k x)
  end.
Definition has_list (resource : option Resource) : Prop := ∀ r, resource = Some r → is_Some (kind_of (rs_content r)).
Lemma remove_lists r k s (Hs : well_formed s) (Hk : kind_of (rs_content r) = Some k) :
  ∃ s', RemoveFromResourceList r s = inr s' ∧ ∀ k' x, x ∈ items k' s' ↔ x ∈ items k' s ∧ ¬ same_entry r k' x.
Proof.
  unfold RemoveFromResourceList, same_entry. rewrite Hk. eexists. split; [done|]. intros k' x. destruct (decide (k = k')) as [<-|Hne].
  - rewrite items_set_items, remove_first_elem by apply Hs. naive_solver.
  - rewrite items_set_other by done. naive_solver.
Qed.
Lemma upsert_lists r k s (Hk : kind_of (rs_content r) = Some k) :
  ∃ s', UpsertToResourceList r s = inr s' ∧ ∀ k' x, x ∈ items k' s' ↔ (kind_of (rs_content r) = Some k' ∧ x = r) ∨ (x ∈ items k' s ∧ ¬ same_entry r k' x).
Proof.
  unfold UpsertToResourceList, same_entry. rewrite Hk. eexists. split; [done|]. intros k' x. destruct (decide (k = k')) as [<-|Hne].
  - rewrite items_set_items, elem_upsert. naive_solver.
  - rewrite items_set_other by done. naive_solver.
Qed.
Lemma kube_upstream c : (∃ data, c = Upstream true data) ∨ ¬ ∃ data, c = Upstream true data.
Proof. destruct c as [| | | | |[] data| | | | | | | | | | |]; naive_solver. Qed.
Lemma modified_lists r shouldDelete s (Hs : well_formed s) (Hr : is_Some (kind_of (rs_content r))) :
  ∃ s', modified r shouldDelete s = inr s' ∧ ∀ k x, x ∈ items k s' ↔ listed (Some r) shouldDelete s k x.
Proof.
  destruct Hr as [k Hk]. unfold modified, listed, deleted_entry. destruct shouldDelete; [|by apply (upsert_lists r k)].
  destruct (remove_lists r k s Hs Hk) as (s1 & E & Hl1). pose proof (remove_well_formed r s s1 Hs E) as Hs1. rewrite E.
  destruct (kube_upstream (rs_content r)) as [[data Hd]|Hd].
  - rewrite Hd. destruct (remove_lists (kubeSvcUs r) KUpstream s1 Hs1 eq_refl) as (s2 & -> & Hl2). exists s2. split; [done|]. intros k' x. rewrite Hl2, Hl1. naive_solver.
  - exists s1. split; [|intros k' x; rewrite Hl1; naive_solver]. clear -Hd. destruct (rs_content r) as [| | | | |kube data| | | | | | | | | | |]; try done.
    destruct kube; [exfalso; eauto|done].
Qed.
Lemma modified_no_list r shouldDelete s : kind_of (rs_content r) = None → ∃ msg, modified r shouldDelete s = inl msg.
Proof. intros Hk. unfold modified, RemoveFromResourceList, UpsertToResourceList. rewrite Hk. destruct shouldDelete; eauto. Qed.
(** The report of one proxy. *)
Definition reported (s : ApiSnapshot) (p : Gloo.Proxy) (report : GlooValidationReport) : Prop :=
  let '(x, m, proxyReport) := Translate s p in
  gr_resourceReports report = SanitizeSnapshot s x m ∧ routeErrorToWarnings (SanitizeSnapshot s x m) proxyReport = Ok (gr_proxyReport report).
Lemma validate_one_reported s p : reports_multi → ∃ report, validate_one s p = Ok report ∧ reported s p report.
Proof.
  intros Hm. specialize (Hm s p). unfold validate_one, reported. destruct (Translate s p) as [[x m] proxyReport].
  destruct (routeErrorToWarnings_ok _ proxyReport Hm) as (r & Hr). rewrite Hr. cbn. eexists. split; [done|]. by cbn.
Qed.
Lemma validate_all_reported s ps : reports_multi → ∃ reports, validate_all s ps = Ok reports ∧ Forall2 (reported s) ps reports.
Proof.
  intros Hm. induction ps as [|p ps (rs & Hrs & Hall)]; [by exists []|]. cbn. destruct (validate_one_reported s p Hm) as (r & Hr & Hrep). rewrite Hr, Hrs. cbn.
  eexists. split; [done|]. by constructor.
Qed.
(** C21. Without a snapshot the service answers with an error; a resource whose type has no list
    is refused; otherwise every proxy that is asked about - the one given, or all those of
    the changed snapshot - gets one report, made with the changed snapshot: the one whose
    lists have the resource in the place of those with its key, or lack it and, for an
    upstream made from a service, the in-memory upstream of that service. *)
Theorem ValidateGloo_exact latest proxy resource shouldDelete (Hm : reports_multi) (Hs : ∀ s, latest = Some s → well_formed s) :
  match latest with
  | None => ValidateGloo latest proxy resource shouldDelete = Ok (inl SyncNotCalledError)
  | Some s =>
      (¬ has_list resource → ∃ msg, ValidateGloo latest proxy resource shouldDelete = Ok (inl (new msg))) ∧
      (has_list resource → ∃ s' reports, (∀ k x, x ∈ items k s' ↔ listed resource shouldDelete s k x) ∧
        ValidateGloo latest proxy resource shouldDelete = Ok (inr reports) ∧
        Forall2 (reported s') (from_option (λ p, [p]) (map as_proxy (Proxies s')) proxy) reports)
  end.
Proof.
  destruct latest as [s|]; [|done]. specialize (Hs s eq_refl). unfold ValidateGloo, has_list. split.
  - intros Hn. destruct resource as [r|]; [|exfalso; naive_solver]. destruct (modified_no_list r shouldDelete s) as (msg & ->); [|by exists msg].
    destruct (kind_of (rs_content r)) eqn:Hk; [|done]. exfalso. apply Hn. intros ? [= <-]. rewrite Hk. eauto.
  - intros Hk. assert (∃ s', (match resource with Some r => modified r shouldDelete s | None => inr s end) = inr s' ∧
      ∀ k x, x ∈ items k s' ↔ listed resource shouldDelete s k x) as (s' & -> & Hl).
    { destruct resource as [r|]; [apply modified_lists; auto|by exists s]. }
    destruct (validate_all_reported s' (from_option (λ p, [p]) (map as_proxy (Proxies s')) proxy) Hm) as (rs & Hrs & Hall).
    exists s', rs. split_and!; [done| |done]. unfold glooValidator_Validate. destruct proxy; cbn [from_option] in *; by rewrite Hrs.
Qed.

(** ** Requests *)
Lemma by_id_elem l m key x : NoDup (keys l) → by_id l m !! key = Some x ↔ (x ∈ l ∧ Key (rs_ref x) = key) ∨ (key ∉ keys l ∧ m !! key = Some x).
Proof.
  unfold by_id, keys. induction l as [|r l IH] using rev_ind; [cbn; set_solver|]. rewrite map_app, foldl_app. cbn.
  intros (Hnd & Hr & _)%NoDup_app. specialize (Hr (Key (rs_ref r))). rewrite elem_of_app, list_elem_of_singleton, not_elem_of_app, not_elem_of_cons.
  destruct (decide (Key (rs_ref r) = key)) as [<-|Hne].
  - rewrite lookup_insert_eq. split; [intros [= ->]; auto|]. intros [[[Hx| ->] Hk]|[[_ [? _]] _]]; [|done|done].
    exfalso. apply Hr; [|by left]. rewrite <-Hk. by apply elem_of_keys.
  - rewrite lookup_insert_ne, IH by done. split; [intros [[? ?]|[? ?]]; [auto|]|].
    + right. split; [|done]. split; [done|]. split; [congruence|apply not_elem_of_nil].
    + intros [[[?| ->] ?]|[[? _] ?]]; [auto|done|auto].
Qed.
Lemma Sort_elem l x : x ∈ Sort l ↔ x ∈ l.
Proof. unfold Sort. by rewrite sort_stable_perm. Qed.
Lemma MergeResourceLists_elem existing us x : NoDup (keys existing) → NoDup (keys us) →
  x ∈ MergeResourceLists existing us ↔ x ∈ us ∨ x ∈ existing ∧ Key (rs_ref x) ∉ keys us.
Proof.
  intros He Hu. unfold MergeResourceLists. rewrite Sort_elem, list_elem_of_fmap. split.
  - intros ([key y] & -> & Hin%go_range_elem). cbn. apply by_id_elem in Hin; [|done]. destruct Hin as [[? ?]|[Hn Hin]]; [auto|].
    apply by_id_elem in Hin; [|done]. destruct Hin as [[? Hk]|[_ Hin]]; [right; by rewrite Hk|done].
  - intros Hx. exists (Key (rs_ref x), x). split; [done|]. apply go_range_elem, by_id_elem; [done|]. destruct Hx as [Hx|[Hx Hk]]; [auto|]. right. split; [done|].
    apply by_id_elem; auto.
Qed.
Lemma DeleteResources_elem l refs x : x ∈ DeleteResources l refs ↔ x ∈ l ∧ Key (rs_ref x) ∉ map Key refs.
Proof.
  unfold DeleteResources. rewrite Sort_elem, elem_of_filter_bool, negb_true_iff, <-not_true_iff_false, existsb_elem, list_elem_of_fmap. split.
  - intros [Hx Hn]. split; [done|]. intros (ref & Hk & Hin). apply Hn. exists ref. split; [done|]. by apply bool_decide_eq_true.
  - intros [Hx Hn]. split; [done|]. intros (ref & Hin & Hk%bool_decide_eq_true). apply Hn. eauto.
Qed.
Definition refs_of (us : list NamespacedName) : list NamespacedName := us ++ map kube_ref us.
(** A request replaces and adds upstreams by their keys, or deletes upstreams, with the
    in-memory upstreams of the same names, and secrets; other lists stay as they are. *)
Theorem applyRequestToSnapshot_exact req s (Hs : well_formed s)
    (Hreq : match req with ModifiedResources us => NoDup (keys us) | _ => True end) : let s' := applyRequestToSnapshot req s in
  (∀ x, x ∈ Upstreams s' ↔ match req with
     | ModifiedResources us => x ∈ us ∨ x ∈ Upstreams s ∧ Key (rs_ref x) ∉ keys us
     | DeletedResources refs _ => x ∈ Upstreams s ∧ Key (rs_ref x) ∉ map Key (refs_of refs)
     | NoResources => x ∈ Upstreams s end) ∧
  (∀ x, x ∈ Secrets s' ↔ x ∈ Secrets s ∧ match req with DeletedResources _ refs => Key (rs_ref x) ∉ map Key refs | _ => True end) ∧
  ∀ k, k ≠ KUpstream → k ≠ KSecret → items k s' = items k s.
Proof.
  cbn zeta. destruct req as [us|us secrets|]; cbn [applyRequestToSnapshot].
  - split_and!; [|intros x; cbn [Secrets set_items decide]; tauto|intros k ? _; by apply items_set_other].
    intros x. apply MergeResourceLists_elem; [apply (Hs KUpstream)|done].
  - split_and!; [intros x; apply DeleteResources_elem..|]. intros k ? ?. rewrite !items_set_other; done.
  - split_and!; [done|tauto|done].
Qed.
End Service.
