(* ===== verification/ValidationExamples.v ===== *)
(** * Examples of validation

    Concrete libraries and translators for the validators and the webhook; that what the
    theorems need holds of them; and what goes wrong. *)

From stdpp Require Import base gmap strings list fin_maps.
From Stdlib Require Import ZArith Ascii.
From S2P Require Import Prelude GoLib GwApi EdgeApi ProxyReports ResourceReports Xds Sanitizers GlooProxy ApiSnapshot GatewayValidation GlooValidation AdmissionWebhook GatewayValidationFacts ValidatorRunsFacts GlooValidationFacts.
Import Validation Snapshot GwValidation GlooValidation Webhook.

#[local] Existing Instance list_order.

(** ** Libraries *)
#[local] Instance ex_kit : SoloKit := {|
  Key ref := nn_ns ref +:+ "." +:+ nn_name ref;
  Less a b := if bool_decide (nn_ns (md_ref a) = nn_ns (md_ref b)) then string_lt (nn_name (md_ref a)) (nn_name (md_ref b)) else string_lt (nn_ns (md_ref a)) (nn_ns (md_ref b)) |}.
Lemma ex_before a b : Less b a = false ↔ (nn_ns (md_ref a) = nn_ns (md_ref b) ∧ String.le (nn_name (md_ref a)) (nn_name (md_ref b))) ∨
  (nn_ns (md_ref a) ≠ nn_ns (md_ref b) ∧ String.le (nn_ns (md_ref a)) (nn_ns (md_ref b))).
Proof. cbn. case_bool_decide as E; rewrite string_lt_le; naive_solver. Qed.
#[local] Instance ex_kit_laws : SoloKitLaws.
Proof.
  split.
  - intros a b. cbn. case_bool_decide as E; [rewrite bool_decide_eq_true_2 by done|rewrite bool_decide_eq_false_2 by congruence]; apply string_lt_asym.
  - intros a b c. rewrite !ex_before. intros [[E1 L1]|[N1 L1]] [[E2 L2]|[N2 L2]].
    + left. split; [congruence|by transitivity (nn_name (md_ref b))].
    + right. by rewrite E1.
    + right. by rewrite <-E2.
    + right. assert (String.le (nn_ns (md_ref a)) (nn_ns (md_ref c))) as L by (by transitivity (nn_ns (md_ref b))). split; [|done].
      intros E. apply N1. apply (anti_symm String.le); [done|]. by rewrite E.
Qed.

Fixpoint ex_text (e : VError) : string :=
  match e with
  | Leaf e => Error e
  | Wrapped e m => m +:+ ": " +:+ ex_text e
  | Multi l => join "; " (map ex_text l)
  | SyncNotYetRunError e => "failed gloo validation: " +:+ ex_text e
  | GlooValidationResponseLengthError n => "Expected Gloo validation response to contain 1 report, but contained " +:+ itoa n
  end.
Fixpoint ex_is (m : string) (e : VError) : bool :=
  match e with
  | Leaf e => Is e (New m)
  | Wrapped e m' => bool_decide (m' = m) || ex_is m e
  | Multi l => existsb (ex_is m) l
  | SyncNotYetRunError e => ex_is m e
  | GlooValidationResponseLengthError _ => false
  end.
(** The first report with a property. *)
Definition ex_report (p : ResourceReport → bool) (m : ResourceReports) : option error :=
  (λ k, New (k.1.1 +:+ " " +:+ nn_name k.1.2)) <$> List.find (λ k, p k.2) (map_to_list m).
Definition ex_errors (r : ResourceReport) : bool := if rp_errors r is None then false else true.
Definition ex_any (r : ResourceReport) : bool := ex_errors r || if rp_warnings r is [] then false else true.
#[local] Instance ex_libs : ValidatorLibs := {|
  multierror_Append a e := Multi (from_option members [] a ++ members e); VError_Error := ex_text; errors_As e p := in_chain p e; errors_Is e m := ex_is m e;
  Validate := ex_report ex_errors; ValidateStrict := ex_report ex_any; Merge := union; MustHash p := N.of_nat (String.length (nn_name (Gloo.px_ref p)));
  HashAllSafe l := Some (N.of_nat (length l)); DeepEqual l l' := bool_decide (l = l'); ref_v := nn_name |}.
Lemma ex_report_none p m : ex_report p m = None ↔ map_Forall (λ _ r, p r = false) m.
Proof.
  unfold ex_report. rewrite fmap_none, find_none_elem. split.
  - intros Hall k r Hk. by apply (Hall (k, r)), elem_of_map_to_list.
  - intros Hall [k r] Hin%elem_of_map_to_list. by apply (Hall k).
Qed.
Lemma ex_forall_iff (P Q : ResourceReport → Prop) (m : ResourceReports) : (∀ r, P r ↔ Q r) → map_Forall (λ _ r, P r) m ↔ map_Forall (λ _ r, Q r) m.
Proof. intros HPQ. unfold map_Forall. split; intros Hm k r Hk; apply HPQ; by eapply Hm. Qed.
#[local] Instance ex_libs_laws : ValidatorLibsLaws.
Proof.
  split; try done.
  - intros m. cbn. rewrite ex_report_none. apply (ex_forall_iff (λ r, ex_errors r = false) (λ r, rp_errors r = None)). intros r. unfold ex_errors. by destruct (rp_errors r).
  - intros m. cbn. rewrite ex_report_none. apply (ex_forall_iff (λ r, ex_any r = false) (λ r, rp_errors r = None ∧ rp_warnings r = [])). intros r. unfold ex_any, ex_errors. destruct (rp_errors r), (rp_warnings r); cbn; naive_solver.
  - intros l l'. cbn. apply bool_decide_eq_true.
Qed.

(** ** Resources, and translators of the gateway and of gloo *)
Definition ex_ref (name : string) : NamespacedName := {| nn_ns := "ns"; nn_name := name |}.
Definition ex_resource (name : string) (c : Content) : Resource := {| rs_meta := {| md_ref := ex_ref name; md_annotations := ∅ |}; rs_content := c |}.
Definition has_data (d : string) (r : Resource) : bool :=
  match rs_content r with VirtualService d' | Secret d' | Upstream _ d' => bool_decide (d = d') | _ => false end.
Definition ex_failure (kind : string) (r : Resource) : ResourceReports := {[ (kind, rs_ref r) := {| rp_warnings := []; rp_errors := Some (Multierror [New "invalid"]) |} ]}.
(** A virtual service is invalid when it is bad, or needs a secret or an option that does
    not exist; a proxy has as many listeners as gateways. *)
Definition ex_invalid (s : ApiSnapshot) (vs : Resource) : bool :=
  has_data "bad" vs || (has_data "tls" vs && negb (existsb (has_data "cert") (Secrets s))) ||
  (has_data "option" vs && bool_decide (RouteOptions s = [])).
Definition ex_proxy (name : string) : Gloo.Proxy := {| Gloo.px_ref := {| nn_ns := "gloo-system"; nn_name := name |}; Gloo.px_labels := ∅; Gloo.px_listeners := [] |}.
#[local] Instance ex_translators : Translators := {|
  GwValidation.Translate name s gws := (Some (ex_proxy name), union_list (map (λ vs, if ex_invalid s vs then ex_failure "*v1.VirtualService" vs else ∅) (VirtualServices s)));
  extensions := [] |}.
(** Gloo has an error on a proxy when an upstream is bad. *)
#[local] Instance ex_reports2 : SoloReports2 := {|
  Sanitizers.Validate m := bool_decide (ex_report ex_errors m = None); FilterByKind kind m := filter (λ kr, kr.1.1 = kind) m; ErrorString e := "error" |}.
#[local] Instance ex_reports2_laws : SoloReports2Laws.
Proof.
  split.
  - intros m. cbn. rewrite bool_decide_eq_true, ex_report_none. apply (ex_forall_iff (λ r, ex_errors r = false) (λ r, rp_errors r = None)). intros r. unfold ex_errors. by destruct (rp_errors r).
  - intros kind m k. cbn. rewrite map_lookup_filter. destruct (m !! k); cbn; [|by case_bool_decide]. by case_guard; case_bool_decide.
Qed.
Definition ex_proxy_failure (p : Gloo.Proxy) (e : option ErrorValue) : ResourceReports := {[ ("*v1.Proxy", Gloo.px_ref p) := {| rp_warnings := []; rp_errors := e |} ]}.
#[local] Instance ex_gloo : GlooTranslation := {|
  XdsSnapshot := unit;
  GlooValidation.Translate s p := (tt, ex_proxy_failure p (if existsb (has_data "bad") (Upstreams s) then Some (Multierror [New "bad upstream"]) else None), {| pr_listenerReports := [] |});
  SanitizeSnapshot _ _ m := m; as_proxy r := ex_proxy (nn_name (rs_ref r));
  RouteReport_Error_String e := "type:" +:+ RouteReport_Error_name (en_type e) +:+ "  reason:" +:+ en_reason e |}.
(** The service of gloo, as the validator of the gateway calls it. *)
Definition gloo_service (latest : option ApiSnapshot) : Gloo.Proxy → option Resource → bool → VError + list GlooValidationReport :=
  λ p r delete, match ValidateGloo latest (Some p) r delete with Ok reports => reports | _ => inr [] end.

Definition ex_gateway : Resource := ex_resource "gw" (Gateway [] "").
Definition ex_vs (name data : string) : Resource := ex_resource name (VirtualService data).
Definition ex_world : ApiSnapshot := set_items KSecret [ex_resource "cert" (Secret "cert"); ex_resource "other" (Secret "other")]
  (set_items KVirtualService [ex_vs "secured" "tls"] (set_items KGateway [ex_gateway] empty_snapshot)).
Definition ex_config : Config := {| allowWarnings := true; disableValidationAgainstPreviousState := false |}.
Definition ex_synced (s : ApiSnapshot) : Validator := {| latestSnapshot := Some s; latestSnapshotErr := None; mValidConfig := Some true |}.
(** The error, and the names of the virtual services and secrets afterwards. *)
Definition ex_outcome {A} (err : A → option VError) (r : res (A * Validator)) : option (option string * list string * list string) :=
  match r with
  | Ok (a, v) => Some (ex_text <$> err a, from_option (λ s, map (nn_name ∘ rs_ref) (VirtualServices s)) [] (latestSnapshot v),
                       from_option (λ s, map (nn_name ∘ rs_ref) (Secrets s)) [] (latestSnapshot v))
  | _ => None
  end.
Definition ex_modify (s : ApiSnapshot) (r : Resource) : option (option string * list string * list string) :=
  ex_outcome snd (ValidateModifiedGvk ex_config (gloo_service (Some s)) "kind" r false (ex_synced s)).
Definition ex_delete (s : ApiSnapshot) (kind : string) (r : Resource) : option (option string * list string * list string) :=
  ex_outcome id (ValidateDeletedGvk ex_config (gloo_service (Some s)) kind r false (ex_synced s)).
Example ex_accepted : ex_modify ex_world (ex_vs "fine" "ok") = Some (None, ["fine"; "secured"], ["cert"; "other"]).
Proof. vm_compute. reflexivity. Qed.
Example ex_rejected : ex_modify ex_world (ex_vs "wrong" "bad") =
  Some (Some "Validating *v1.VirtualService failed: validating *v1.VirtualService wrong: could not render proxy: *v1.VirtualService wrong", ["secured"], ["cert"; "other"]).
Proof. vm_compute. reflexivity. Qed.

(** A secret in use is not deleted; one that is not used is, also when gloo has errors
    already. *)
Definition ex_secret (name : string) : Resource := ex_resource name (Secret "").
Definition ex_dirty : ApiSnapshot := set_items KUpstream [ex_resource "up" (Upstream false "bad")] ex_world.
Example secret_deletions :
  ex_delete ex_world "Secret" (ex_secret "other") = Some (None, ["secured"], ["cert"]) ∧
  ex_delete ex_world "Secret" (ex_secret "cert") = Some (Some "validating *v1.Secret cert: could not render proxy: *v1.VirtualService secured", ["secured"], ["cert"; "other"]) ∧
  ex_delete ex_dirty "Secret" (ex_secret "other") = Some (None, ["secured"], ["cert"]) ∧
  ex_delete ex_dirty "VirtualService" (ex_vs "secured" "") =
    Some (Some "validating *v1.VirtualService secured: failed gloo validation resource reports: *v1.Proxy gateway-proxy", ["secured"], ["cert"; "other"]).
Proof. by split_and!; vm_compute. Qed.

(** ** What goes wrong *)
(** A RouteOption that a virtual service needs is deleted: the proxies of the gateways are
    not translated, and the snapshot no longer renders. *)
Definition ex_with_option : ApiSnapshot := set_items KRouteOption [ex_resource "opt" (RouteOption "o")] (set_items KVirtualService [ex_vs "user" "option"] ex_world).
Example policy_deletion_not_validated :
  sync_errors ex_config ex_with_option = None ∧
  match ValidateDeletedGvk ex_config (gloo_service (Some ex_with_option)) "RouteOption" (ex_resource "opt" (RouteOption "")) false (ex_synced ex_with_option) with
  | Ok (err, v) => err = None ∧ ex_text <$> (latestSnapshot v ≫= sync_errors ex_config) = Some "*v1.VirtualService user"
  | _ => False
  end.
Proof. by vm_compute. Qed.
(** A snapshot that differs in its TCP gateways, or in its secrets, is not taken over. *)
Example tcp_gateways_not_synced :
  Sync ex_config (set_items KMatchableTcpGateway [ex_resource "tcp" (MatchableTcpGateway "")] ex_world) (ex_synced ex_world) = Ok (None, ex_synced ex_world).
Proof. by vm_compute. Qed.

(** Items are JSON texts with the name and the content of a virtual service. *)
Definition ex_content (k : Kind) (data : string) : Content :=
  match k with
  | KArtifact => Artifact data | KEndpoint => Endpoint data | KProxy => ProxyResource data | KUpstreamGroup => UpstreamGroup data | KSecret => Secret data
  | KUpstream => Upstream false data | KAuthConfig => AuthConfig data | KRateLimitConfig => RateLimitConfig data | KVirtualService => VirtualService data
  | KRouteTable => RouteTable data | KGateway => Gateway [] data | KVirtualHostOption => VirtualHostOption data None | KRouteOption => RouteOption data
  | KMatchableHttpGateway => MatchableHttpGateway data | KMatchableTcpGateway => MatchableTcpGateway data | KGraphQLApi => GraphQLApi data
  end.
#[local] Instance ex_decoding : Decoding := {|
  Item := string; GetKind _ := "VirtualService"; ParseGroupVersion _ := inr ("gateway.solo.io", "v1"); MarshalJSON := inr; Spec := string;
  json_Unmarshal j := if bool_decide (j = "") then inl (new "unexpected end of JSON input") else inr ({| md_ref := ex_ref j; md_annotations := ∅ |}, Some j);
  unmarshal_spec k spec := inr (ex_content k spec); custom_input k := bool_decide (k = KRateLimitConfig); empty_content k := ex_content k "" |}.
#[local] Instance ex_decoding_laws : DecodingLaws.
Proof. split; [intros k spec c [= <-]|intros k]; by destruct k. Qed.
Definition ex_list (items : list string) (dryRun : bool) (v : Validator) : option (option string * list string * list string) :=
  ex_outcome (λ out : Reports * VError, Some out.2) (ValidateList ex_config (gloo_service (latestSnapshot v)) items dryRun v).
Example ex_lists :
  ex_list ["a"; "bad"; "b"; ""] false (ex_synced ex_world) = Some (Some
    "Validating *v1.VirtualService failed: validating *v1.VirtualService bad: could not render proxy: *v1.VirtualService bad; could not unmarshal raw object: unmarshalling from raw json: unexpected end of JSON input",
    ["a"; "b"; "secured"], ["cert"; "other"]) ∧
  ex_list ["a"; "b"] true (ex_synced ex_world) = Some (Some "", ["secured"], ["cert"; "other"]).
Proof. by split; vm_compute. Qed.
(** A list that is validated before the first sync. *)
Example list_before_sync_panics : ValidateList ex_config (gloo_service None) ["a"] false initial = Panic "nil pointer dereference".
Proof. done. Qed.

(** An error of a route that is in the reports on the Proxy, formatted as an error, is
    dropped from the report; and one that is turned into a warning has an unnamed type. *)
Definition ex_route_error : Entry RouteReport_Error_Type := {| en_type := RouteReport_Error_ProcessingError; en_reason := "no such option"; en_metadata := None |}.
Definition ex_route_report : ProxyReport := {| pr_listenerReports := [{| lr_errors := []; lr_warnings := []; lr_type := Some (ListenerReport_HttpListenerReport
  {| hr_errors := []; hr_virtualHostReports := [{| vr_errors := []; vr_routeReports := [{| rr_errors := [ex_route_error]; rr_warnings := [] |}] |}] |}) |}] |}.
Definition ex_proxy_reports (errs : list error) (warnings : list string) : ResourceReports :=
  {[ ("*v1.Proxy", ex_ref "proxy") := {| rp_warnings := warnings; rp_errors := Some (Multierror errs) |} ]}.
Example route_errors_dropped :
  (λ e, routes_of_report <$> (match routeErrorToWarnings (ex_proxy_reports (option_list e) []) ex_route_report with Ok r => Some r | _ => None end)) (GetProxyError ex_route_report) =
    Some [{| rr_errors := []; rr_warnings := [] |}] ∧
  map GetRouteWarning (match routeErrorToWarnings (ex_proxy_reports [] [RouteReport_Error_String ex_route_error]) ex_route_report with Ok r => routes_of_report r | _ => [] end) =
    [["Route Warning: 1. Reason: no such option"]].
Proof. by split; vm_compute. Qed.

(** A body that the JSON decoder refuses is answered without a response. *)
Definition no_review : Review := {| rv_Request := None; rv_ReturnProxies := false |}.
Definition ex_request (operation name : string) (dryRun : bool) : AdmissionRequest :=
  {| rq_Gvk := gateway_gvk "VirtualService"; rq_Namespace := "ns"; rq_Name := name; rq_UID := "uid"; rq_Operation := operation; rq_DryRun := Some dryRun;
     rq_Object := name; rq_OldObject := "" |}.
#[local] Instance ex_webhook_libs : WebhookLibs := {|
  UnmarshalList _ := inr []; resource_hash r := N.of_nat (String.length (nn_name (rs_ref r))); errors_v errs := join " " (map ex_text errs);
  decode_json body := if bool_decide (body = "garbage") then (Some (new "invalid character 'g'"), no_review)
                      else (None, {| rv_Request := Some (ex_request "CREATE" body false); rv_ReturnProxies := false |});
  decode_yaml _ := (Some (new "error converting YAML to JSON"), no_review); marshal_error _ _ := None |}.
Definition ex_webhook : gatewayValidationWebhook :=
  {| watchNamespaces := []; alwaysAccept := false; readGatewaysFromAllNamespaces := true; webhookNamespace := "gloo-system"; kubeGatewayEnabled := false |}.
Definition ex_serve (contentType body : string) : option HttpReply :=
  match ServeHTTP ex_config (gloo_service (Some ex_world)) ex_webhook contentType body (ex_synced ex_world) with Ok (r, _) => Some r | _ => None end.
Example json_error_not_reported :
  ex_serve "application/json" "garbage" = Some (HttpReview None []) ∧
  ex_serve "application/x-yaml" "garbage" = Some (HttpReview (Some {| ad_UID := ""; ad_Allowed := false; ad_Result := Some ("error converting YAML to JSON", None) |}) []) ∧
  ex_serve "application/json" "fine" = Some (HttpReview (Some {| ad_UID := "uid"; ad_Allowed := true; ad_Result := None |}) []) ∧
  ex_serve "text/plain" "fine" = Some (HttpError "empty body" 400).
Proof. by split_and!; vm_compute. Qed.

(** ** What the theorems need holds here *)
Lemma ex_healthy s : healthy s (ex_synced s).
Proof. by split. Qed.
Lemma validateSnapshot_exact_witness : ∃ out v', validation_verdict ex_config (gloo_service (Some ex_world)) (options false false "VirtualService" (ex_vs "fine" "ok")) (ex_synced ex_world) out v' ∧ out.2 = None.
Proof.
  pose proof (validateSnapshot_exact ex_config (gloo_service (Some ex_world)) (options false false "VirtualService" (ex_vs "fine" "ok")) (ex_synced ex_world)) as Hv.
  apply wp_run in Hv as (out & v' & Hrun & Hv). exists out, v'. split; [exact Hv|].
  apply (f_equal (λ r, match r with Ok ((_, e), _) => match e with None => true | Some _ => false end | _ => false end)) in Hrun.
  destruct out as [rs e]. revert Hrun. vm_compute. by destruct e.
Defined.
Lemma ValidateList_exact_witness : ∃ out v', healthy (foldl (apply_item ex_config (gloo_service (Some ex_world))) ex_world ["a"; "bad"]) v' ∧ length (members (snd (out : Reports * VError))) = 1.
Proof.
  pose proof (ValidateList_exact ex_config (gloo_service (Some ex_world)) ["a"; "bad"] false ex_world (ex_synced ex_world) (ex_healthy ex_world)) as Hv.
  apply wp_run in Hv as (out & v' & _ & Hh & l & Hl & Hn). exists out, v'. split; [exact Hh|]. rewrite Hl. cbn [members]. rewrite Hn. vm_compute. reflexivity.
Defined.
(** A sync, then a change. *)
Definition ex_run : Validator := match handle ex_config (gloo_service (Some ex_world)) (EvModified "VirtualService" (ex_vs "fine" "ok") false) (ex_synced ex_world) with
  | Ok (_, v) => v | _ => initial end.
Lemma ex_run_reachable (ok : event → Prop) : ok (EvSync ex_world) → ok (EvModified "VirtualService" (ex_vs "fine" "ok") false) →
  reachable ex_config (gloo_service (Some ex_world)) ok ex_run.
Proof.
  intros H1 H2. apply (reachable_step _ _ _ (ex_synced ex_world) (EvModified "VirtualService" (ex_vs "fine" "ok") false) tt); [|done|by vm_compute].
  apply (reachable_step _ _ _ initial (EvSync ex_world) tt); [apply reachable_initial|done|by vm_compute].
Qed.
Lemma reachable_translates_witness : translates ex_config (default empty_snapshot (latestSnapshot ex_run)).
Proof.
  apply (reachable_translates ex_config (gloo_service (Some ex_world)) ex_run); [apply ex_run_reachable; [exact I|reflexivity]|vm_compute; reflexivity|vm_compute; reflexivity].
Defined.
Lemma ex_world_well_formed : well_formed ex_world.
Proof.
  intros k. split; [destruct k; apply (bool_decide_unpack _); by vm_compute|].
  apply Forall_forall. destruct k; repeat constructor.
Qed.
Lemma reachable_well_formed_witness : well_formed (default empty_snapshot (latestSnapshot ex_run)).
Proof.
  apply (reachable_well_formed ex_config (gloo_service (Some ex_world)) ex_run); [apply ex_run_reachable; [exact ex_world_well_formed|exact I]|vm_compute; reflexivity].
Defined.
Lemma makeAdmissionResponse_exact_witness :
  let opts := options false false "VirtualService" (ex_vs "fine" "fine") in
  classify ex_webhook (ex_request "CREATE" "fine" false) = Checked opts ∧
  ∃ resp verdict s', change opts ex_world = inr s' ∧ (verdict = None ↔ accepted ex_config (gloo_service (Some ex_world)) opts ex_world s') ∧
    (is_allowed resp = true ↔ verdict = None ∨ ∃ e, verdict = Some e ∧ lenient ex_webhook [e]) ∧ is_allowed resp = true.
Proof.
  split; [vm_compute; reflexivity|].
  pose proof (makeAdmissionResponse_exact ex_config (gloo_service (Some ex_world)) ex_webhook (ex_request "CREATE" "fine" false) false (ex_synced ex_world)
    ltac:(intros items _; by eexists)) as Hv.
  apply wp_run in Hv as (resp & v' & Hrun & verdict & _ & Hiff & Hh). destruct (Hh ex_world (ex_healthy ex_world)) as (s' & Hc & Hacc & _).
  exists resp, verdict.2, s'. split_and!; [exact Hc|exact Hacc|exact Hiff|].
  apply (f_equal (λ r, match r with Ok (resp, _) => is_allowed resp | _ => false end)) in Hrun. rewrite <-Hrun. vm_compute. reflexivity.
Defined.
Lemma ex_world_sorted : sorted ex_world.
Proof. intros k. destruct k; cbn; repeat constructor; vm_compute; reflexivity. Qed.
Lemma upsert_roundtrip_witness : ∃ s', UpsertToResourceList (ex_vs "fine" "ok") ex_world = inr s' ∧ RemoveFromResourceList (ex_vs "fine" "ok") s' = inr ex_world.
Proof.
  eexists. split; [reflexivity|].
  apply (upsert_roundtrip (ex_vs "fine" "ok") KVirtualService ex_world _ eq_refl ex_world_sorted eq_refl). apply (bool_decide_unpack _). vm_compute. exact I.
Defined.
Lemma ex_multi errs ws : all_multi (ex_proxy_reports errs ws).
Proof. intros k r _ Hk. unfold ex_proxy_reports in Hk. apply lookup_singleton_Some in Hk as [_ <-]. exact I. Qed.
Lemma routeErrorToWarnings_exact_witness : ∃ report', routeErrorToWarnings (ex_proxy_reports [] ["w"]) ex_route_report = Ok report' ∧
  routes_of_report report' ≡ₚ [{| rr_errors := []; rr_warnings := [] |}].
Proof.
  destruct (routeErrorToWarnings_exact (ex_proxy_reports [] ["w"]) ex_route_report (ex_multi _ _)) as (r & Hr & Hp & _). exists r. split; [exact Hr|].
  etransitivity; [exact Hp|]. vm_compute. reflexivity.
Defined.
Lemma ex_reports_multi : reports_multi.
Proof. intros s p k r _ Hk. cbn in Hk. unfold ex_proxy_failure in Hk. apply lookup_singleton_Some in Hk as [_ <-]. unfold multi. cbn. by destruct (existsb _ _). Qed.
Lemma ValidateGloo_exact_witness : ∃ reports, ValidateGloo (Some ex_world) (Some (ex_proxy "p")) (Some (ex_secret "other")) true = Ok (inr reports) ∧ length reports = 1.
Proof.
  destruct (ValidateGloo_exact (Some ex_world) (Some (ex_proxy "p")) (Some (ex_secret "other")) true ex_reports_multi) as [_ Hv].
  { intros ? [= <-]. exact ex_world_well_formed. }
  destruct Hv as (s' & reports & _ & Hr & Hall). { intros ? [= <-]. cbn. eauto. }
  exists reports. split; [exact Hr|]. apply Forall2_length in Hall. exact (eq_sym Hall).
Defined.
Lemma applyRequestToSnapshot_exact_witness : ex_secret "other" ∉ Secrets (applyRequestToSnapshot (DeletedResources [] [ex_ref "other"]) ex_world).
Proof.
  intros Hin. destruct (applyRequestToSnapshot_exact (DeletedResources [] [ex_ref "other"]) ex_world ex_world_well_formed I) as (_ & Hs & _).
  apply Hs in Hin as [_ Hn]. apply Hn. left.
Defined.
